(* ===== verification/_CoqProject ===== *)
-Q . S2P
Prelude.v
GoTime.v
StateMachine.v
Intent.v
Descriptor.v
StateFile.v
Readiness.v
Tracker.v
Lifecycle.v
StopSettlement.v
Recovery.v
Backoff.v
EventLoop.v
Termination.v
CommandLine.v
Classifier.v
Controller.v
SpawnGate.v
SideEffect.v
Reap.v
Realloc.v
StopBatch.v
Loop.v
Scenario.v
Settle.v
Trace.v
Ports.v
Registry.v
Recover.v
Squatter.v
Steps.v
HandlerSteps.v
SpawnSafety.v
Durable.v
TerminateSafety.v
Policy.v
Reconcile.v
Liveness.v
SettleTarget.v
Respawn.v
RequestId.v
Resolver.v
HubTokens.v
Sessions.v
ToolCalls.v
HubRuns.v
ToolsList.v
Lines.v
DaemonHttp.v
Loopback.v
HubHandler.v
StdioHost.v
HostRuns.v
