(* ===== verification/Prelude.v ===== *)
(** * mcp-local-hub: the supervisor, the hub and the stdio host

    mcp-local-hub keeps a fleet of MCP servers running on a developer's
    machine and lets the clients there share them.  [mcphub supervise]
    ([cli/supervise.go]) owns the fleet: it reads which daemons are wanted
    ([supervisor-intent.json]), spawns them, restarts them when they crash
    or stop answering, moves them to other ports, stops them on command, and
    writes down enough ([supervisor-state.json]) to survive its own death.
    The hub ([api/hub_mcp_handler.go] and the files around it) is the HTTP
    endpoint through which a client reaches the tools of all the daemons of
    its scope.  A stdio host ([daemon/host.go]) puts one MCP server that
    speaks on its standard streams behind a port, for several clients at
    once.  This development models these three and proves what they must
    guarantee.  Paths are relative to [src/internal/].

    ** Parts, and the files that model them

    The supervisor.  One goroutine, the event loop, owns every restart
    decision.  Around it run producers of events and workers that it hands
    slow work to.

    - [Prelude], [GoTime]: record update, errors, canonical task names,
      64-bit counters, Go's clock arithmetic and RFC3339Nano.
    - [StateMachine] ([api/supervisor_state_machine.go]): [Transition], the
      table of states and events.
    - [Intent] ([api/supervisor_intent.go], [api/daemon_intent.go]): wanted
      daemons, stop records and when they are active, the generation of a
      rewrite.
    - [Descriptor] ([api/supervisor_port_owner.go],
      [api/reallocate_dynamic_pool.go]): who a descriptor is, which port and
      first-bind deadline it has, what a port move rewrites.
    - [StateFile] ([api/supervisor_state.go]): the durable record and its
      read-modify-write discipline with failures at every point.
    - [Readiness] ([api/readiness_v1.go]): the reducer of observations.
    - [Tracker], [Lifecycle] ([cli/supervisor_runtime_tracker.go]): the
      supervisor's memory of each daemon; its operations and invariant.
    - [StopSettlement], [Recovery] (same file): receipts of stop commands,
      hydration and persistence, and the abstract durable system [sys_step]
      of a tracker and its file under every interleaving and crash.
    - [Backoff], [EventLoop], [Termination]: restart delays; the two-channel
      loop of [api/supervisor_event_loop.go]; the terminate closures of
      [cli/termination_outcome.go] with the grace period of
      [cli/terminate_finish_other.go].
    - [CommandLine], [Classifier] ([process/windows_command_line.go],
      [daemonrecovery/classifier.go]): what a live process was started as,
      and whether it is a daemon's own lost child.
    - [Controller], [SpawnGate], [SideEffect], [Reap], [Realloc],
      [StopBatch], [Loop] ([cli/supervisor_controller.go],
      [cli/supervise_prespawn_path_gate.go], [cli/supervise_realloc.go],
      [cli/supervise_stop_batch.go], [cli/supervise_target_settlement.go]):
      the controller's state, and [handleLoopEvent] with everything it calls.
    - [Settle], [SettleTarget] ([cli/supervise_target_settlement.go]): the
      worker that observes stopped targets and commits their receipts, and
      the one that waits for one registration to be ready.
    - [Reconcile] ([cli/supervise_reconcile.go],
      [cli/supervise_reconcile_ipc.go]): the start-up plan, the drift of a
      daemon, and what an apply posts.
    - [Respawn] ([cli/supervise_respawn.go]): the operator's restart of one
      daemon.
    - [Squatter] ([cli/supervise_squatter.go]), [Liveness]
      ([cli/supervise_liveness.go]): the workers that reap lost children
      holding a port, and the sweep that turns observations into events.
    - [Ports], [Registry] ([api/port_alloc.go], [api/global_port_alloc.go],
      [api/workspace_registry.go]): the allocators of loopback ports, and
      the file of workspace daemons that several processes rewrite.
    - [Recover] ([daemonrecovery/recovery.go]): the operator's recovery of
      one daemon.
    - [Scenario]: a concrete supervisor for witnesses.
    - [Steps], [HandlerSteps], [SpawnSafety], [Durable], [TerminateSafety],
      [Policy]: the controller as a transition system and what follows.

    The hub.  A request is admitted by its path, token and instance, finds
    its session, and is fanned out to the daemons of the session or routed
    to one of them.

    - [RequestId] ([api/hub_mcp_request_id.go]): when two JSON-RPC ids are
      the same.
    - [Resolver] ([api/hub_mcp_resolver.go]): which daemons a scope is bound
      to.
    - [HubTokens] ([api/hub_mcp_tokens.go] and the publication of
      [api/hub_mcp_resolver.go]): the tokens of the scopes, and the life of
      a hub process.
    - [Sessions] ([api/hub_mcp_session.go]): the store of sessions.
    - [ToolCalls], [ToolsList], [DaemonHttp] ([api/hub_mcp_aggregator.go]):
      one tools/call with its handshakes, retry and cancellation; the
      assembly of a tools/list; one exchange with a daemon, event streams
      and pages.  [HubRuns] lets the calls of a session interleave.
    - [Loopback], [HubHandler] ([daemon/loopback_guard.go],
      [api/hub_mcp_handler.go]): the guard of local requests, and
      [ServeHTTP] with what interleaves with it.

    The stdio host.

    - [Lines]: texts and the lines of a stream.
    - [StdioHost] ([daemon/host.go], [daemon/protocol_bridge.go],
      [daemon/prompt_bridge.go]): the host's state, what it makes of a line
      of its child, and the handlers of clients; [HostRuns] lets them
      interleave.

    [Trace] is shared: programs whose calls the rest of the world answers
    arbitrarily (interaction trees), their traces and clocks, polling, and
    the interleaving of several programs over a common world.

    ** How code became definitions

    A Go struct is a record, a map is a [gmap], a pointer that may be nil an
    [option], an error a value of [error] inside [res].  A method that takes
    a mutex for its whole body is one atomic function on the state; a method
    that releases it while it writes the file takes an argument
    [interleave], whatever the others do meanwhile.  A handler of the
    controller is a function of the controller's state: calls of the spawn
    and terminate callbacks, audit events, timers and replies are appended
    to a log of effects, answers come from [env].  Goroutines beside the
    loop, and the handlers of the hub and of the stdio host, are programs
    ([itree]) or step relations that interleave with it: a call is one
    atomic access to shared state, and what the others do comes between
    two calls.

    ** What the theorems show

    - Durability: [Durable.supervisor_crash_safe] (restarting from the file
      restores the pending stops), by the lemma
      [Durable.handler_refines_durable] that the controller takes the steps
      of the durable system; [Lifecycle.tracker_invariant].
    - Safety of effects: [SpawnSafety.spawn_gates],
      [TerminateSafety.terminate_scope], [Termination.terminate_only_verified],
      [Classifier.own_task_exactly], [Squatter.port_gate_worker],
      [Liveness.sweep_justified], [Recover.recovery_kill_guarded],
      [Reconcile.reconcile_events_justified], [Respawn.respawn_guarded]: what
      must hold before a process is created or killed.
    - Honest answers: [Settle.stopped_means_committed] (a reported stop is
      durable, under every interleaving),
      [SettleTarget.target_settlement_justified],
      [Recover.recovery_concluded] (no daemon is killed and forgotten).
    - Progress and order: [Settle.settlement_completes],
      [Reconcile.stop_reaches_daemon], [Respawn.respawn_terminates],
      [EventLoop.loop_fifo_self_first].
    - The registry: [Registry.registry_keys_invariant] (its primary key
      survives every interleaving of its writers and every failing write).
    - Who may use the hub: [HubHandler.requests_authorised],
      [HubHandler.deleted_session_gone], [HubTokens.no_token_revival],
      [Resolver.bindings_exact].
    - The hub's sessions and calls: [Sessions.store_invariant],
      [Sessions.busy_session_stays], [ToolCalls.tools_call_outcome],
      [HubRuns.sent_on_own_sessions], [HubRuns.first_post_fresh],
      [HubRuns.row_tells_where], [RequestId.request_key_iff].
    - Its tools list: [DaemonHttp.published_routes_exact],
      [ToolsList.hidden_tools_unseen], [ToolsList.tools_list_any_order],
      [DaemonHttp.pages_drained_exactly],
      [DaemonHttp.answer_bounded_and_final].
    - The stdio host: [HostRuns.answers_correlated],
      [HostRuns.requests_admitted], [HostRuns.slots_exact],
      [HostRuns.initialize_kept].
    - Data: [CommandLine.command_line_round_trip], and as lemmas the intent
      normalisation, descriptor identity, readiness reduction, the round
      trip of the state file, the restart policy, the port allocators, the
      reading of an event stream, the refusals of the hub.

    ** Bounds and fuel

    [CommandLine.tokenize] runs on the length of the line, and every round
    consumes a byte.  Waits are [ITree.iter], without fuel; how many calls
    they make is proved from a clock that does not go back.  A recovery
    makes at most 60 calls and 3 for every poll of the port, 183 with the
    production timings; a targeted settlement 10 calls and 8 for every 300
    milliseconds up to its deadline; a respawn 40, three for every pending
    receipt and four for each of 501 polls.  The grace period of a
    termination has room for 20 polls.  A tools/call makes at most 38 calls,
    a POST to a stdio host 13.  A tools/list asks for at most 10,000 pages
    and 4 MiB, the code's own limits; a stdio host has 128 slots and 256
    sessions.  Delays and PID generations are int64 with wrap-around, the
    counters of receipts and maps uint64, and the theorems that need room
    say so.  PIDs and ports are unbounded integers.

    ** Idealisations

    JSON files are the records they decode to; of JSON on the wire, the
    decoder and encoder are parameters, and so are the parsers of URLs, IP
    addresses and MIME types.  SHA-256 is the interface [StateFile.Digest],
    of which [DigestLaws] asks injectivity; an ideal instance exists.  Error
    messages are abbreviated, audit events are kept by name without their
    bodies.  The clock is read once per event.  A Go map is visited in the
    order of [map_to_list].  Guards against nil receivers and callbacks that
    production always sets are left out.  [makeCmdLine] is Go's quoting of
    an argument vector, the standard library's rule.  A recovery is modelled
    with all its callbacks set, and reads the state of a context once where
    the code reads it twice in a row.

    In the hub and the stdio host: a timer ends a wait at any time; a
    channel hands a message over atomically; the counters of calls in flight
    (int32), of session order (uint64), of restart generations (uint64) and
    of internal ids (int64) do not wrap; a snapshot is identified by its
    generation, as the code does by its pointer; calls that join a flight of
    [singleflight] share its result; what races with a method of the session
    store is an argument; letters are folded in ASCII only; how far a stream
    reader has read ahead is data; the requests that end the daemon sessions
    of a deleted session are made in the order of the map, before the
    answer.

    ** Not modelled, and why

    Operating-system calls (process creation and inspection, pipes, the
    scheduler, the registry, file locks and permissions), the GUI and tray,
    and the sockets and encoding of the supervisor's IPC: what the model
    relies on of these is a parameter.  Installation, registration,
    migration and the editing of client configurations are orchestration of
    file edits.  The start and stop of a stdio host's child, its event
    stream to clients, the relay, the HTTP host, the lazy proxies and the
    routers of Serena and of language servers are left out for lack of
    room, as are the configuration manifests beyond what the resolver reads
    of them; the bundled tool servers do not take part. *)
From Stdlib Require Export ZArith Lia String Ascii Bool.
From stdpp Require Export base tactics option list sorting gmap sets strings pretty.

(** ** Record update

    [r <| f := v |>] is the Go assignment [r.f = v] on a copy of [r];
    one [Setter] instance per mutable field says how to rebuild the
    record. *)
Class Setter {R T : Type} (proj : R -> T) := set_field : (T -> T) -> R -> R.
#[global] Hint Mode Setter - - ! : typeclass_instances.

Declare Scope go_scope.
Delimit Scope go_scope with go.
Notation "r <| f := v |>" := (set_field (proj := f) (fun _ => v) r)
  (at level 12, f constr at next level, left associativity,
   format "r  <| f  :=  v |>") : go_scope.
Notation "r <| f ::= g |>" := (set_field (proj := f) g r)
  (at level 12, f constr at next level, left associativity,
   format "r  <| f  ::=  g |>") : go_scope.
Open Scope go_scope.

(** [derive_setter eta p] is the body of the [Setter] of field [p] of a
    large record whose eta-expansion is [eta]. *)
Ltac derive_setter eta p :=
  let f := fresh "f" in let r := fresh "r" in unfold Setter; intros f r;
  let t := eval cbv beta delta [eta] in (eta r) in
  let q := eval pattern (p r) in t in
  match q with ?g _ => let b := eval cbv beta in (g (f (p r))) in exact b end.

(** ** Go errors

    An error value is its message together with the sentinels that
    [errors.Is] finds in its chain ([%w] wrapping keeps them). *)
Record error := mkError { err_is : list string; err_text : string }.

Definition errors_New (msg : string) : error := mkError [] msg.
Definition sentinel (name msg : string) : error := mkError [name] msg.
(** [fmt.Errorf("<msg>: %w", e)] *)
Definition wrapf (msg : string) (e : error) : error :=
  mkError (err_is e) (msg +:+ ": " +:+ err_text e).
(** [errors.Join] of two errors, and with nil *)
Definition errors_Join (a b : error) : error := mkError (err_is a ++ err_is b) (err_text a +:+ "; " +:+ err_text b).
Definition join_err (a b : option error) : option error :=
  match a, b with
  | Some a, Some b => Some (errors_Join a b)
  | Some a, None => Some a
  | None, b => b
  end.
Lemma join_err_none a b : join_err a b = None <-> a = None /\ b = None.
Proof. destruct a, b; cbn; naive_solver. Qed.
Lemma join_err_none_r a : join_err a None = a.
Proof. by destruct a. Qed.
Definition errors_Is (e : error) (s : error) : bool :=
  existsb (fun n => existsb (String.eqb n) (err_is e)) (err_is s).

(** A Go [(T, error)] pair: the value is meaningful only on [Ok]. *)
Inductive res (A : Type) : Type :=
| Ok (a : A)
| Err (e : error).
Arguments Ok {A} a.
Arguments Err {A} e.

Definition is_ok {A} (r : res A) : bool := match r with Ok _ => true | Err _ => false end.

Notation "'let?' x := m 'in' k" :=
  (match m with Ok x => k | Err e => Err e end)
  (at level 10, x name, m at level 100, k at level 200) : go_scope.

Lemma let_ok {A B} (m : res A) (k : A -> res B) b :
  (let? x := m in k x) = Ok b <-> exists a, m = Ok a /\ k a = Ok b.
Proof. destruct m; split; [eauto | by intros (?&[=<-]&?) | done | by intros (?&?&?)]. Qed.

(** ** Machine integers *)
Definition u64_modulus : Z := 2 ^ 64.
Definition u64_max : Z := 2 ^ 64 - 1.
Definition u64_add (a b : Z) : Z := Z.modulo (a + b) u64_modulus.
Definition is_u64 (a : Z) : Prop := (0 <= a < u64_modulus)%Z.

Lemma u64_add_small a b :
  (0 <= a)%Z -> (0 <= b)%Z -> (a + b < u64_modulus)%Z -> u64_add a b = (a + b)%Z.
Proof. intros. unfold u64_add. apply Z.mod_small. lia. Qed.

Lemma u64_add_range a b : is_u64 (u64_add a b).
Proof. unfold is_u64, u64_add. apply Z.mod_pos_bound. reflexivity. Qed.

(** [int(x)] of a uint64 and [uint64(x)] of an int on a 64-bit platform, and
    [x++] on an int, which wraps around. *)
Definition int_of_u64 (x : Z) : Z := if (x <? 2 ^ 63)%Z then x else (x - 2 ^ 64)%Z.
Definition u64_of_int (x : Z) : Z := (x mod 2 ^ 64)%Z.
Definition int_incr (x : Z) : Z := int_of_u64 (u64_of_int (x + 1)).
Definition is_int (x : Z) : Prop := (- 2 ^ 63 <= x < 2 ^ 63)%Z.
#[global] Arguments int_incr : simpl never.

Lemma int_incr_range x : is_int (int_incr x).
Proof.
  unfold is_int, int_incr, int_of_u64, u64_of_int. pose proof (Z.mod_pos_bound (x + 1) (2 ^ 64) eq_refl).
  destruct (Z.ltb_spec ((x + 1) mod 2 ^ 64) (2 ^ 63)); lia.
Qed.
Lemma int_incr_small x : (0 <= x)%Z -> (x + 1 < 2 ^ 63)%Z -> int_incr x = (x + 1)%Z.
Proof.
  intros H0 H1. unfold int_incr, int_of_u64, u64_of_int. rewrite Z.mod_small by lia.
  destruct (Z.ltb_spec (x + 1) (2 ^ 63)); lia.
Qed.

(** ** Strings (the package [strings]; bytes as [ascii]) *)
Notation "a =s b" := (String.eqb a b) (at level 70, no associativity) : go_scope.

Definition backslash : ascii := "092"%char.
Definition bs (s : string) : string := String backslash s.

(** [strings.HasPrefix] *)
Fixpoint has_prefix (p s : string) : bool :=
  match p, s with
  | EmptyString, _ => true
  | String a p', String b s' => Ascii.eqb a b && has_prefix p' s'
  | String _ _, EmptyString => false
  end.

(** [strings.HasSuffix] *)
Fixpoint has_suffix (suffix s : string) : bool :=
  (s =s suffix) || match s with String _ s' => has_suffix suffix s' | EmptyString => false end.

(** [strings.Contains(s, sub)] *)
Fixpoint str_contains (s sub : string) : bool :=
  has_prefix sub s ||
  match s with
  | EmptyString => false
  | String _ s' => str_contains s' sub
  end.

(** [strings.TrimPrefix(s, p)] *)
Fixpoint trim_prefix (p s : string) : string :=
  match p, s with
  | EmptyString, _ => s
  | String a p', String b s' => if Ascii.eqb a b && has_prefix p' s' then trim_prefix p' s' else s
  | String _ _, EmptyString => s
  end.

(** The ASCII part of [unicode.IsSpace]: tab, newline, vertical tab, form
    feed, carriage return and space. *)
Definition is_space (a : ascii) : bool :=
  let n := nat_of_ascii a in (Nat.leb 9 n && Nat.leb n 13) || Nat.eqb n 32.

Fixpoint trim_left (s : string) : string :=
  match s with
  | String a s' => if is_space a then trim_left s' else s
  | EmptyString => s
  end.

Fixpoint trim_right (s : string) : string :=
  match s with
  | EmptyString => EmptyString
  | String a s' =>
      match trim_right s' with
      | EmptyString => if is_space a then EmptyString else String a EmptyString
      | t => String a t
      end
  end.

(** [strings.TrimSpace] on ASCII input *)
Definition trim_space (s : string) : string := trim_right (trim_left s).
Definition is_blank (s : string) : bool := trim_space s =s "".

Definition lower_ascii (a : ascii) : ascii :=
  let n := nat_of_ascii a in
  if Nat.leb 65 n && Nat.leb n 90 then ascii_of_nat (n + 32) else a.

(** [strings.ToLower] on ASCII input *)
Fixpoint to_lower (s : string) : string :=
  match s with
  | EmptyString => EmptyString
  | String a s' => String (lower_ascii a) (to_lower s')
  end.

(** Go's [<] on strings: bytewise lexicographic. *)
Fixpoint str_ltb (s t : string) : bool :=
  match s, t with
  | EmptyString, EmptyString => false
  | EmptyString, String _ _ => true
  | String _ _, EmptyString => false
  | String a s', String b t' =>
      let x := nat_of_ascii a in let y := nat_of_ascii b in
      if Nat.ltb x y then true else if Nat.eqb x y then str_ltb s' t' else false
  end.

Lemma str_ltb_irrefl s : str_ltb s s = false.
Proof. induction s as [|a s IH]; simpl; [done|]. by rewrite Nat.ltb_irrefl, Nat.eqb_refl. Qed.

Lemma str_ltb_trans s t u : str_ltb s t = true -> str_ltb t u = true -> str_ltb s u = true.
Proof.
  revert t u. induction s as [|a s IH]; intros [|b t] [|c u]; simpl; try done.
  repeat case_match; try done;
    rewrite ?Nat.ltb_lt, ?Nat.ltb_ge, ?Nat.eqb_eq, ?Nat.eqb_neq in *; try lia; eauto.
Qed.

Lemma str_ltb_asym s t : str_ltb s t = true -> str_ltb t s = false.
Proof.
  intros H. destruct (str_ltb t s) eqn:E; [|done].
  pose proof (str_ltb_trans _ _ _ H E) as C. by rewrite str_ltb_irrefl in C.
Qed.

Lemma str_ltb_total s t : str_ltb s t = false -> str_ltb t s = false -> s = t.
Proof.
  revert t. induction s as [|a s IH]; intros [|b t]; simpl; try done.
  repeat case_match; try done;
    rewrite ?Nat.ltb_lt, ?Nat.ltb_ge, ?Nat.eqb_eq, ?Nat.eqb_neq in *; try lia.
  intros. f_equal; [|by apply IH].
  rewrite <- (ascii_nat_embedding a), <- (ascii_nat_embedding b). congruence.
Qed.

(** ** Boolean reflection, used by [breflect] *)
Lemma str_eqb_true a b : (a =s b) = true <-> a = b.
Proof. apply String.eqb_eq. Qed.
Lemma str_eqb_false a b : (a =s b) = false <-> a <> b.
Proof. apply String.eqb_neq. Qed.
Lemma str_eqb_refl a : (a =s a) = true.
Proof. apply String.eqb_refl. Qed.

Create Rewrite HintDb brefl.
#[export] Hint Rewrite andb_true_iff orb_true_iff negb_true_iff andb_false_iff
  orb_false_iff negb_false_iff str_eqb_true str_eqb_false
  Z.eqb_eq Z.eqb_neq Z.leb_le Z.leb_gt Z.ltb_lt Z.ltb_ge Z.gtb_lt
  bool_decide_eq_true bool_decide_eq_false : brefl.

(** Turn the boolean tests of the code into propositions, everywhere. *)
Ltac breflect := autorewrite with brefl in *.
(** Split every conjunction, boolean test and [match] in sight. *)
Ltac bcase := repeat (case_match; simplify_eq/=); breflect.

(** ** Canonical task names

    [canonicalSupervisorTaskName] (cli) and [canonicalIntentTaskKey] (api)
    are the same lexical function: prepend a backslash unless the name is
    empty or already has one. *)
Definition canonicalSupervisorTaskName (taskName : string) : string :=
  if (taskName =s "") || has_prefix (bs "") taskName then taskName
  else bs taskName.

Definition canonicalIntentTaskKey (taskName : string) : string :=
  match taskName with
  | EmptyString => taskName
  | String a _ => if Ascii.eqb a backslash then taskName else bs taskName
  end.

(** [toggleSupervisorTaskNameBackslash]: the other spelling of a key. *)
Definition toggleSupervisorTaskNameBackslash (taskName : string) : string :=
  if taskName =s "" then taskName
  else if has_prefix (bs "") taskName then trim_prefix (bs "") taskName
  else bs taskName.

(** [distinctTaskNameKeyForms] *)
Definition distinctTaskNameKeyForms (taskName : string) : list string :=
  let alt := toggleSupervisorTaskNameBackslash taskName in
  if alt =s taskName then [taskName] else [taskName; alt].

Definition is_canonical (k : string) : Prop := canonicalSupervisorTaskName k = k.

Lemma has_prefix_bs a s : has_prefix (bs "") (String a s) = Ascii.eqb backslash a.
Proof. simpl. by rewrite andb_true_r. Qed.

Lemma canonical_idem k :
  canonicalSupervisorTaskName (canonicalSupervisorTaskName k) = canonicalSupervisorTaskName k.
Proof.
  unfold canonicalSupervisorTaskName.
  destruct ((k =s "") || has_prefix (bs "") k) eqn:E; [by rewrite E|]. reflexivity.
Qed.

Lemma canonical_is_canonical k : is_canonical (canonicalSupervisorTaskName k).
Proof. apply canonical_idem. Qed.

Lemma canonicalIntentTaskKey_eq k :
  canonicalIntentTaskKey k = canonicalSupervisorTaskName k.
Proof.
  destruct k as [|a k]; [reflexivity|].
  unfold canonicalIntentTaskKey, canonicalSupervisorTaskName.
  rewrite has_prefix_bs. simpl. rewrite Ascii.eqb_sym. reflexivity.
Qed.

(** String tests against a literal stay folded until the string is known. *)
Arguments has_prefix : simpl nomatch.
Arguments trim_prefix : simpl nomatch.
Arguments str_contains : simpl nomatch.

Create HintDb keys.
Create Rewrite HintDb keys.
#[export] Hint Resolve canonical_is_canonical : keys.
#[export] Hint Rewrite canonical_idem canonicalIntentTaskKey_eq : keys.

(** ** Finite maps used as Go maps *)

(** The keys of a map. *)
Definition map_keys {A} (m : gmap string A) : list string := (map_to_list m).*1.

Lemma elem_of_map_keys {A} (m : gmap string A) k : k ∈ map_keys m <-> is_Some (m !! k).
Proof.
  unfold map_keys. rewrite list_elem_of_fmap. split.
  - intros ([k' v]&->&H). exists v. by apply elem_of_map_to_list in H.
  - intros [v H]. exists (k, v). split; [done|]. by apply elem_of_map_to_list.
Qed.

Lemma NoDup_map_keys {A} (m : gmap string A) : NoDup (map_keys m).
Proof. apply NoDup_fst_map_to_list. Qed.

(** ** [sort.Strings] *)
Definition str_le (s t : string) : Prop := str_ltb t s = false.
#[global] Instance str_le_dec : RelDecision str_le.
Proof. intros s t. unfold str_le. apply _. Defined.
#[global] Instance str_le_total : Total str_le.
Proof.
  intros s t. unfold str_le. destruct (str_ltb t s) eqn:E; [right|by left].
  destruct (str_ltb s t) eqn:E'; [|done].
  pose proof (str_ltb_trans _ _ _ E E') as H. by rewrite str_ltb_irrefl in H.
Qed.
Definition sort_strings (l : list string) : list string := merge_sort str_le l.
Lemma sort_strings_perm l : sort_strings l ≡ₚ l.
Proof. apply merge_sort_Permutation. Qed.

(** ** [sort.SliceStable(s, less)] *)
Fixpoint insert_stable {A} (less : A -> A -> bool) (x : A) (l : list A) : list A :=
  match l with
  | [] => [x]
  | y :: l' => if less y x then y :: insert_stable less x l' else x :: l
  end.
Definition sort_stable {A} (less : A -> A -> bool) (l : list A) : list A :=
  foldr (insert_stable less) [] l.

Lemma insert_stable_perm {A} (less : A -> A -> bool) x l : insert_stable less x l ≡ₚ x :: l.
Proof.
  induction l as [|y l IH]; simpl; [done|]. case_match; [|done].
  rewrite IH. constructor.
Qed.
Lemma sort_stable_perm {A} (less : A -> A -> bool) l : sort_stable less l ≡ₚ l.
Proof. induction l as [|x l IH]; simpl; [done|]. by rewrite insert_stable_perm, IH. Qed.

Lemma insert_stable_sorted {A} (less : A -> A -> bool) x l :
  (forall a b, less a b = true -> less b a = false) ->
  Sorted (fun a b => less b a = false) l -> Sorted (fun a b => less b a = false) (insert_stable less x l).
Proof.
  intros Hasym. induction 1 as [|y l Hl IH Hhd]; simpl; [by repeat constructor|].
  destruct (less y x) eqn:E; [|by repeat constructor].
  constructor; [done|]. destruct Hhd as [|z l Hz]; simpl; [by constructor; apply Hasym|].
  destruct (less z x); constructor; [done|by apply Hasym].
Qed.
Lemma sort_stable_sorted {A} (less : A -> A -> bool) l :
  (forall a b, less a b = true -> less b a = false) ->
  Sorted (fun a b => less b a = false) (sort_stable less l).
Proof. intros H. induction l; simpl; [constructor|]. by apply insert_stable_sorted. Qed.

Lemma forallb_Forall {A} (f : A -> bool) l : forallb f l = true <-> Forall (fun x => f x = true) l.
Proof. induction l; simpl; [done|]. by rewrite andb_true_iff, Forall_cons, IHl. Qed.
Lemma sort_stable_Forall {A} (less : A -> A -> bool) (P : A -> Prop) l :
  Forall P (sort_stable less l) <-> Forall P l.
Proof. by rewrite sort_stable_perm. Qed.

(** ** Blank strings *)
Fixpoint all_space (s : string) : bool :=
  match s with EmptyString => true | String a s' => is_space a && all_space s' end.

Lemma trim_right_empty s : trim_right s = "" <-> all_space s = true.
Proof.
  induction s as [|a s IH]; simpl; [done|].
  destruct (trim_right s); [|split; [done|]; rewrite andb_true_iff; intros [_ H]; by apply IH in H].
  rewrite (proj1 IH) by done. by destruct (is_space a).
Qed.
Lemma all_space_trim_right s : all_space (trim_right s) = all_space s.
Proof.
  induction s as [|a s IH]; simpl; [done|]. rewrite <- IH.
  destruct (trim_right s) eqn:E; simpl; [|done]. by destruct (is_space a) eqn:Ea; simpl; rewrite ?Ea.
Qed.
Lemma all_space_trim_left s : all_space (trim_left s) = all_space s.
Proof. induction s as [|a s IH]; simpl; [done|]. by destruct (is_space a) eqn:Ea; simpl; rewrite ?Ea. Qed.
Lemma is_blank_spec s : is_blank s = all_space s.
Proof.
  unfold is_blank, trim_space. apply eq_true_iff_eq.
  by rewrite String.eqb_eq, trim_right_empty, all_space_trim_left.
Qed.
Lemma is_blank_trim s : is_blank (trim_space s) = is_blank s.
Proof. rewrite !is_blank_spec. unfold trim_space. by rewrite all_space_trim_right, all_space_trim_left. Qed.
Lemma is_blank_false_ne s : is_blank s = false -> s <> "".
Proof. by intros H ->. Qed.

(** Inserting the values of an association list with distinct keys. *)
Lemma foldl_insert_lookup {A B} (f : A -> B) (key : string -> string) (l : list (string * A)) (m : gmap string B) k :
  NoDup l.*1 -> (forall kv, kv ∈ l -> key kv.1 = kv.1) ->
  foldl (fun m kv => <[key kv.1 := f kv.2]> m) m l !! k =
  match list_to_map (M := gmap string A) l !! k with Some v => Some (f v) | None => m !! k end.
Proof.
  revert m. induction l as [|[k0 v0] l IH]; intros m Hnd Hk; simpl; [done|].
  apply NoDup_cons in Hnd as [Hk0 Hnd]. rewrite IH by (try done; intros kv Hin; apply Hk; by right).
  assert (key k0 = k0) as -> by (apply (Hk (k0, v0)); left).
  destruct (decide (k = k0)) as [->|Hne].
  - rewrite lookup_insert_eq, (not_elem_of_list_to_map_1 l k0 Hk0), lookup_insert_eq. done.
  - by rewrite !lookup_insert_ne by done.
Qed.
Lemma foldl_insert_map {A B} (f : A -> B) (key : string -> string) (m0 : gmap string A) (m : gmap string B) k :
  map_Forall (fun k _ => key k = k) m0 ->
  foldl (fun m kv => <[key kv.1 := f kv.2]> m) m (map_to_list m0) !! k =
  match m0 !! k with Some v => Some (f v) | None => m !! k end.
Proof.
  intros Hk. rewrite foldl_insert_lookup, list_to_map_to_list; [done|apply NoDup_fst_map_to_list|].
  intros [k1 v1] Hin. apply elem_of_map_to_list in Hin. by apply Hk in Hin.
Qed.
