(* ===== verification/GoTime.v ===== *)
(** * Go's package [time], as far as the supervisor uses it

    A [time.Time] is the number of nanoseconds since the Unix epoch; a
    [time.Duration] is a number of nanoseconds.  [time_Sub] saturates at
    the int64 range exactly as [Time.Sub] does.  The second half is the
    RFC3339Nano formatter and parser the state file is written and read
    with, and their round trip. *)
From S2P Require Import Prelude.
Open Scope Z_scope.

Abbreviation time := Z (only parsing).
Abbreviation duration := Z (only parsing).

Definition Millisecond : duration := 1000000.
Definition Second : duration := 1000 * Millisecond.
Definition Minute : duration := 60 * Second.
Definition Hour : duration := 60 * Minute.

(** January 1, year 1, 00:00:00 UTC *)
Definition zero_time : time := -62135596800 * Second.
Definition IsZero (t : time) : bool := t =? zero_time.
Definition Before (t u : time) : bool := t <? u.
Definition After (t u : time) : bool := u <? t.

Definition max_duration : duration := 2 ^ 63 - 1.
Definition min_duration : duration := - 2 ^ 63.
Definition clamp_duration (d : Z) : duration :=
  Z.max min_duration (Z.min max_duration d).
Definition time_Sub (t u : time) : duration := clamp_duration (t - u).

(** Comparing a saturated difference with an in-range bound is the same as
    comparing the exact difference. *)
Lemma time_Sub_gt t u d :
  (min_duration <= d < max_duration) -> (d <? time_Sub t u) = (d <? t - u).
Proof.
  intros. unfold time_Sub, clamp_duration, min_duration, max_duration in *.
  destruct (Z.ltb_spec d (t - u)), (Z.ltb_spec d (Z.max (- 2 ^ 63) (Z.min (2 ^ 63 - 1) (t - u)))); lia.
Qed.

(** ** The calendar

    Days since 1970-01-01 against (year, month, day), both ways; years run
    from March so that the leap day is the last of its year. *)
Definition days_from_civil (y m d : Z) : Z :=
  let y := if m <=? 2 then y - 1 else y in
  let era := y / 400 in
  let yoe := y - era * 400 in
  let mp := if m <=? 2 then m + 9 else m - 3 in
  let doy := (153 * mp + 2) / 5 + d - 1 in
  let doe := yoe * 365 + yoe / 4 - yoe / 100 + doy in
  era * 146097 + doe - 719468.

Definition civil_from_days (z : Z) : Z * Z * Z :=
  let z := z + 719468 in
  let era := z / 146097 in
  let doe := z - era * 146097 in
  let yoe := (doe - doe / 1460 + doe / 36524 - doe / 146096) / 365 in
  let doy := doe - (365 * yoe + yoe / 4 - yoe / 100) in
  let mp := (5 * doy + 2) / 153 in
  let d := doy - (153 * mp + 2) / 5 + 1 in
  let m := if mp <? 10 then mp + 3 else mp - 9 in
  let y := yoe + era * 400 in
  ((if m <=? 2 then y + 1 else y), m, d).

Definition isLeap (y : Z) : bool :=
  (y mod 4 =? 0) && (negb (y mod 100 =? 0) || (y mod 400 =? 0)).
Definition daysIn (m y : Z) : Z :=
  if m =? 2 then (if isLeap y then 29 else 28)
  else if (m =? 4) || (m =? 6) || (m =? 9) || (m =? 11) then 30 else 31.

(** ** Digits *)
Definition digit_char (d : Z) : ascii := ascii_of_nat (Z.to_nat (48 + d)).
Definition digit_val (a : ascii) : option Z :=
  let n := Z.of_nat (nat_of_ascii a) in
  if (48 <=? n) && (n <=? 57) then Some (n - 48) else None.
Definition is_digit (a : ascii) : bool := bool_decide (is_Some (digit_val a)).

(** The [n] low decimal digits of [x], in front of [rest]. *)
Fixpoint fixed_digits (n : nat) (x : Z) (rest : string) : string :=
  match n with
  | O => rest
  | S n => fixed_digits n (x / 10) (String (digit_char (x mod 10)) rest)
  end.

(** Read exactly [n] digits. *)
Fixpoint take_digits (n : nat) (acc : Z) (s : string) : option (Z * string) :=
  match n with
  | O => Some (acc, s)
  | S n =>
      match s with
      | String a s' => d ← digit_val a; take_digits n (acc * 10 + d) s'
      | EmptyString => None
      end
  end.

(** [getnum(s, false)]: one or two digits. *)
Definition getnum (s : string) : option (Z * string) :=
  match take_digits 2 0 s with
  | Some r => Some r
  | None => take_digits 1 0 s
  end.

Definition expect (c : ascii) (s : string) : option string :=
  match s with
  | String a s' => if Ascii.eqb a c then Some s' else None
  | EmptyString => None
  end.

Fixpoint span_digits (s : string) : string * string :=
  match s with
  | String a s' => if is_digit a then (String a (span_digits s').1, (span_digits s').2) else ("", s)
  | EmptyString => ("", s)
  end.

(** [parseNanoseconds]: the first nine digits, padded with zeros. *)
Fixpoint frac_value (n : nat) (acc : Z) (s : string) : Z :=
  match n with
  | O => acc
  | S n =>
      match s with
      | String a s' => frac_value n (acc * 10 + default 0 (digit_val a)) s'
      | EmptyString => frac_value n (acc * 10) ""
      end
  end.

Fixpoint trim_zeros (s : string) : string :=
  match s with
  | EmptyString => EmptyString
  | String a s' =>
      match trim_zeros s' with
      | EmptyString => if Ascii.eqb a "0" then EmptyString else String a EmptyString
      | t => String a t
      end
  end.

(** [appendInt(b, x, width)] for a non-negative [x]; a year outside
    0..9999 is never formatted by the supervisor. *)
Definition append_int (x : Z) (width : nat) (rest : string) : string :=
  fixed_digits width x rest.

(** ** [t.UTC().Format(time.RFC3339Nano)] *)
Definition format_frac (nsec : Z) : string :=
  if nsec =? 0 then "" else String "." (trim_zeros (fixed_digits 9 nsec "")).

Definition FormatRFC3339Nano (t : time) : string :=
  let day := t / (24 * Hour) in
  let ns := t mod (24 * Hour) in
  let '(y, m, d) := civil_from_days day in
  append_int y 4 (String "-" (append_int m 2 (String "-" (append_int d 2 (String "T"
    (append_int (ns / Hour) 2 (String ":" (append_int (ns / Minute mod 60) 2 (String ":"
    (append_int (ns / Second mod 60) 2 (format_frac (ns mod Second) ++ "Z")%string)))))))))).

(** ** [time.Parse(time.RFC3339Nano, s)] *)
Definition parse_frac (s : string) : Z * string :=
  match s with
  | String c (String a s') =>
      if (Ascii.eqb c "." || Ascii.eqb c ",") && is_digit a
      then (frac_value 9 0 (span_digits (String a s')).1, (span_digits (String a s')).2)
      else (0, s)
  | _ => (0, s)
  end.

(** The zone: seconds east of UTC. *)
Definition parse_zone (s : string) : option (Z * string) :=
  match s with
  | String "Z" s' => Some (0, s')
  | String sign s' =>
      '(hr, s1) ← take_digits 2 0 s';
      s2 ← expect ":" s1;
      '(mm, s3) ← take_digits 2 0 s2;
      if (24 <? hr) || (60 <? mm) then None
      else if Ascii.eqb sign "+" then Some ((hr * 60 + mm) * 60, s3)
      else if Ascii.eqb sign "-" then Some (- ((hr * 60 + mm) * 60), s3)
      else None
  | EmptyString => None
  end.

Definition ParseRFC3339Nano (s : string) : option time :=
  '(y, s) ← take_digits 4 0 s;
  s ← expect "-" s;
  '(m, s) ← take_digits 2 0 s;
  if (m <=? 0) || (12 <? m) then None else
  s ← expect "-" s;
  '(d, s) ← take_digits 2 0 s;
  s ← expect "T" s;
  '(hh, s) ← getnum s;
  if 24 <=? hh then None else
  s ← expect ":" s;
  '(mm, s) ← take_digits 2 0 s;
  if 60 <=? mm then None else
  s ← expect ":" s;
  '(ss, s) ← take_digits 2 0 s;
  if 60 <=? ss then None else
  let '(nsec, s) := parse_frac s in
  '(off, s) ← parse_zone s;
  if negb (s =s "") || (d <? 1) || (daysIn m y <? d) then None
  else Some ((days_from_civil y m d * 86400 + hh * 3600 + mm * 60 + ss - off) * Second + nsec).

(** ** Round trip *)
Lemma yoe_bounds doe : 0 <= doe < 146097 ->
  let yoe := (doe - doe / 1460 + doe / 36524 - doe / 146096) / 365 in
  0 <= yoe <= 399 /\ 0 <= doe - (365 * yoe + yoe / 4 - yoe / 100) <= 365 /\
  (doe - (365 * yoe + yoe / 4 - yoe / 100) = 365 ->
    (yoe + 1) mod 4 = 0 /\ ((yoe + 1) mod 100 <> 0 \/ (yoe + 1) mod 400 = 0)).
Proof.
  intros H yoe. subst yoe. split; [|split].
  all: Z.to_euclidean_division_equations; lia.
Qed.

(** From the day of a March-based year to a month and a day, and back. *)
Lemma doy_split doy y : 0 <= doy <= 365 ->
  let mp := (5 * doy + 2) / 153 in
  let m := if mp <? 10 then mp + 3 else mp - 9 in
  let d := doy - (153 * mp + 2) / 5 + 1 in
  (doy = 365 -> isLeap y = true) ->
  0 <= mp <= 11 /\ 1 <= m <= 12 /\ 1 <= d <= daysIn m y /\ (m <=? 2) = negb (mp <? 10) /\
  (153 * (if m <=? 2 then m + 9 else m - 3) + 2) / 5 + d - 1 = doy.
Proof.
  intros H mp m d Hleap.
  assert (0 <= mp <= 11) as Hmp by (subst mp; Z.to_euclidean_division_equations; lia).
  assert (153 * mp <= 5 * doy + 2 < 153 * mp + 153) as Hm by (subst mp; Z.to_euclidean_division_equations; lia).
  split; [done|]. subst m d. clearbody mp.
  destruct (isLeap y) eqn:Hy; [clear Hleap|assert (doy <> 365) by (intros E; by apply Hleap in E); clear Hleap].
  all: unfold daysIn; rewrite Hy; destruct mp as [|q|q]; [|do 4 (try destruct q as [q|q|]; try lia)|lia].
  all: simpl in *; split_and!; try done; Z.to_euclidean_division_equations; lia.
Qed.

Lemma civil_round_trip z :
  let '(y, m, d) := civil_from_days z in
  1 <= m <= 12 /\ 1 <= d <= daysIn m y /\ days_from_civil y m d = z /\
  (-719528 <= z < 2932897 -> 0 <= y <= 9999).
Proof.
  unfold civil_from_days. set (era := (z + 719468) / 146097). set (doe := z + 719468 - era * 146097).
  assert (0 <= doe < 146097) as Hdoe by (subst doe era; Z.to_euclidean_division_equations; lia).
  pose proof (yoe_bounds doe Hdoe) as (Hy&Hd&Hleap).
  set (yoe := (doe - doe / 1460 + doe / 36524 - doe / 146096) / 365) in *.
  set (doy := doe - (365 * yoe + yoe / 4 - yoe / 100)) in *. clearbody yoe.
  set (mp := (5 * doy + 2) / 153). set (m := if mp <? 10 then mp + 3 else mp - 9).
  set (y := if m <=? 2 then yoe + era * 400 + 1 else yoe + era * 400).
  destruct (doy_split doy y Hd) as (Hmp&Hm&Hday&Hmm&Hinv).
  { intros E. destruct (Hleap E) as [H4 H100].
    assert (y = yoe + 1 + era * 400) as ->.
    { subst y m mp. rewrite E. simpl. lia. }
    unfold isLeap. apply andb_true_iff. rewrite orb_true_iff, negb_true_iff, !Z.eqb_eq, Z.eqb_neq.
    Z.to_euclidean_division_equations; lia. }
  fold mp in Hmp, Hm, Hday, Hmm, Hinv. fold m in Hm, Hday, Hmm, Hinv.
  split; [done|]. split; [done|]. unfold days_from_civil. rewrite Hinv.
  assert ((if m <=? 2 then y - 1 else y) = yoe + era * 400) as -> by (subst y; destruct (m <=? 2); lia).
  assert ((yoe + era * 400) / 400 = era) as -> by (Z.to_euclidean_division_equations; lia).
  split.
  - subst doy doe. clear -Hdoe. replace (yoe + era * 400 - era * 400) with yoe by lia. lia.
  - intros Hz.
    assert (-1 <= era <= 24) as Hera by (subst era; Z.to_euclidean_division_equations; lia).
    assert (era = -1 -> 146037 <= doe) as Hlo by (subst doe; lia).
    assert (era = 24 -> doe <= 146036) as Hhi by (subst doe; lia).
    assert (doe = 365 * yoe + yoe / 4 - yoe / 100 + doy) as E by (subst doy; lia).
    clearbody doy doe era. clear Hinv Hday Hleap.
    assert (era = -1 -> yoe = 399 /\ 306 <= doy) by (Z.to_euclidean_division_equations; lia).
    assert (era = 24 -> yoe = 399 -> doy <= 305) by (Z.to_euclidean_division_equations; lia).
    assert (doy <= 305 -> mp <= 9) by (subst mp; Z.to_euclidean_division_equations; lia).
    assert (306 <= doy -> 10 <= mp) by (subst mp; Z.to_euclidean_division_equations; lia).
    subst y. rewrite Hmm. destruct (Z.ltb_spec mp 10); simpl; lia.
Qed.

Lemma digit_val_char d : 0 <= d <= 9 -> digit_val (digit_char d) = Some d.
Proof.
  intros H. destruct d as [|q|q]; [done| |lia]. do 4 (try destruct q as [q|q|]; try lia); done.
Qed.

Lemma take_digits_snoc n acc s v a rest d :
  take_digits n acc s = Some (v, String a rest) -> digit_val a = Some d ->
  take_digits (S n) acc s = Some (v * 10 + d, rest).
Proof.
  revert acc s. induction n as [|n IH]; intros acc s H Hd.
  - simpl in H. injection H as -> ->. simpl. by rewrite Hd.
  - simpl in H. destruct s as [|b s]; [done|]. apply bind_Some in H as (x&Hx&H).
    change (take_digits (S (S n)) acc (String b s)) with
      (d ← digit_val b; take_digits (S n) (acc * 10 + d) s).
    rewrite Hx. simpl (Some x ≫= _). by apply IH.
Qed.

(** Reading back the digits that were written. *)
Lemma take_fixed n x acc rest :
  0 <= x < 10 ^ Z.of_nat n ->
  take_digits n acc (fixed_digits n x rest) = Some (acc * 10 ^ Z.of_nat n + x, rest).
Proof.
  revert x rest. induction n as [|n IH]; intros x rest Hx.
  - simpl in *. do 2 f_equal. lia.
  - rewrite Nat2Z.inj_succ, Z.pow_succ_r in * by lia.
    assert (0 <= x / 10 < 10 ^ Z.of_nat n) as Hq by (Z.to_euclidean_division_equations; lia).
    simpl fixed_digits.
    erewrite take_digits_snoc; [|by apply IH|apply digit_val_char; Z.to_euclidean_division_equations; lia].
    do 2 f_equal. pose proof (Z.div_mod x 10). lia.
Qed.

Definition all_digits (s : string) : Prop := Forall (fun a => is_Some (digit_val a)) (list_ascii_of_string s).

Lemma all_digits_fixed n x rest :
  all_digits rest -> all_digits (fixed_digits n x rest).
Proof.
  revert x rest. induction n as [|n IH]; intros x rest H; [done|]. simpl. apply IH.
  constructor; [|done]. rewrite digit_val_char by (Z.to_euclidean_division_equations; lia). by eexists.
Qed.

Lemma length_fixed n x rest : String.length (fixed_digits n x rest) = (n + String.length rest)%nat.
Proof. revert x rest. induction n as [|n IH]; intros; simpl; [done|]. rewrite IH. simpl. lia. Qed.

Lemma all_digits_trim s : all_digits s -> all_digits (trim_zeros s).
Proof.
  induction s as [|a s IH]; [done|]. intros H. inversion H as [|?? H1 H2]; subst. simpl.
  specialize (IH H2). destruct (trim_zeros s); [case_match; [constructor|by repeat constructor]|by constructor].
Qed.

Lemma span_digits_app s a rest :
  all_digits s -> digit_val a = None -> span_digits (s +:+ String a rest) = (s, String a rest).
Proof.
  intros H Ha. induction s as [|b s IH]; simpl.
  - unfold is_digit. rewrite bool_decide_false by (rewrite Ha; by intros []). done.
  - inversion H as [|?? H1 H2]; subst. unfold is_digit. rewrite bool_decide_true by done.
    by rewrite (IH H2).
Qed.

Lemma frac_value_zeros n acc : frac_value n acc "" = acc * 10 ^ Z.of_nat n.
Proof.
  revert acc. induction n as [|n IH]; intros acc; simpl frac_value; [simpl; lia|].
  rewrite IH, Nat2Z.inj_succ, Z.pow_succ_r by lia. lia.
Qed.

(** Trimming trailing zeros does not change a fraction that fits. *)
Lemma frac_value_trim s n acc :
  (String.length s <= n)%nat -> frac_value n acc (trim_zeros s) = frac_value n acc s.
Proof.
  revert n acc. induction s as [|a s IH]; intros n acc Hn; [done|].
  destruct n as [|n]; simpl in Hn; [lia|]. simpl trim_zeros.
  specialize (fun acc => IH n acc ltac:(lia)). destruct (trim_zeros s) as [|b t].
  - destruct (Ascii.eqb_spec a "0") as [->|]; cbn [frac_value]; rewrite <- IH; [|done].
    f_equal. change (default 0 (digit_val "0")) with 0. lia.
  - simpl frac_value at 2. by rewrite <- IH.
Qed.

Lemma frac_value_take n s v rest acc :
  take_digits n acc s = Some (v, rest) -> frac_value n acc s = v.
Proof.
  revert acc s. induction n as [|n IH]; intros acc s H; simpl in *; [by injection H|].
  destruct s as [|a s]; [done|]. apply bind_Some in H as (d&->&H). simpl. by apply IH.
Qed.

Lemma trim_zeros_nonempty s :
  all_digits s -> trim_zeros s = "" -> forall n, frac_value n 0 s = 0.
Proof.
  induction s as [|a s IH]; intros H E n; [by rewrite frac_value_zeros|].
  inversion H; subst. simpl in E. destruct (trim_zeros s); [|done].
  destruct (Ascii.eqb_spec a "0") as [->|]; [|done]. destruct n as [|n]; simpl; [done|]. by apply IH.
Qed.

Lemma parse_format_frac nsec : 0 <= nsec < Second ->
  parse_frac (format_frac nsec +:+ "Z") = (nsec, "Z").
Proof.
  intros H. unfold format_frac. destruct (Z.eqb_spec nsec 0) as [->|Hnz]; [done|].
  remember (fixed_digits 9 nsec "") as w eqn:Ew.
  assert (all_digits w) as Hw by (subst w; apply all_digits_fixed; constructor).
  assert (frac_value 9 0 w = nsec) as Hv.
  { apply frac_value_take with (rest := ""). subst w. rewrite take_fixed; [f_equal; f_equal; lia|].
    change (10 ^ Z.of_nat 9) with Second. done. }
  assert (String.length w = 9%nat) as Hl by (subst w; apply length_fixed).
  pose proof (frac_value_trim w 9 0 ltac:(lia)) as Ht. rewrite Hv in Ht.
  pose proof (all_digits_trim w Hw) as Hd.
  destruct (trim_zeros w) as [|a t] eqn:E.
  { pose proof (trim_zeros_nonempty w Hw E 9). lia. }
  change (String "." (String a t) ++ "Z")%string with (String "." (String a t ++ "Z")%string).
  assert (parse_frac (String "." (String a t ++ "Z")%string) =
    (frac_value 9 0 (span_digits (String a t ++ "Z")%string).1, (span_digits (String a t ++ "Z")%string).2)) as ->.
  { inversion Hd as [|?? Ha _]. assert (is_digit a = true) as Hdig by by apply bool_decide_true.
    change (String a t ++ "Z")%string with (String a (t ++ "Z")%string).
    cbn [parse_frac]. by rewrite Hdig. }
  rewrite span_digits_app by done. cbn [fst snd]. by rewrite Ht.
Qed.

Lemma expect_hit c rest : expect c (String c rest) = Some rest.
Proof. simpl. by rewrite Ascii.eqb_refl. Qed.

Lemma take_append n x rest :
  0 <= x < 10 ^ Z.of_nat n -> take_digits n 0 (append_int x n rest) = Some (x, rest).
Proof. intros. unfold append_int. by rewrite take_fixed. Qed.

Definition format_range (t : time) : Prop :=
  -719528 * (24 * Hour) <= t < 2932897 * (24 * Hour).

(** A time of the years 0..9999 is read back exactly from its
    RFC3339Nano text. *)
Lemma Parse_Format t : format_range t -> ParseRFC3339Nano (FormatRFC3339Nano t) = Some t.
Proof.
  intros Ht. unfold FormatRFC3339Nano. set (ns := t mod (24 * Hour)).
  pose proof (civil_round_trip (t / (24 * Hour))) as Hc.
  destruct (civil_from_days (t / (24 * Hour))) as [[y m] d]. destruct Hc as (Hm&Hd&Hinv&Hy).
  assert (0 <= y <= 9999) as Hy'.
  { apply Hy. unfold format_range, Hour, Minute, Second, Millisecond in *. Z.to_euclidean_division_equations; lia. }
  assert (d <= 31) as Hd31 by (revert Hd; unfold daysIn; repeat case_match; lia).
  assert (0 <= ns < 24 * Hour) as Hns by (apply Z.mod_pos_bound; done).
  assert (0 <= ns / Hour < 24) by (unfold Hour, Minute, Second, Millisecond in *; Z.to_euclidean_division_equations; lia).
  assert (0 <= ns / Minute mod 60 < 60) by (apply Z.mod_pos_bound; done).
  assert (0 <= ns / Second mod 60 < 60) by (apply Z.mod_pos_bound; done).
  unfold ParseRFC3339Nano.
  rewrite take_append by (simpl; lia). cbn [mbind option_bind]. rewrite expect_hit. cbn [mbind option_bind].
  rewrite take_append by (simpl; lia). cbn [mbind option_bind].
  assert ((m <=? 0) || (12 <? m) = false) as -> by (breflect; lia).
  rewrite expect_hit. cbn [mbind option_bind].
  rewrite take_append by (simpl; lia). cbn [mbind option_bind]. rewrite expect_hit. cbn [mbind option_bind].
  unfold getnum. rewrite take_append by (simpl; lia). cbn [mbind option_bind].
  assert ((24 <=? ns / Hour) = false) as -> by (breflect; lia).
  rewrite expect_hit. cbn [mbind option_bind].
  rewrite take_append by (simpl; lia). cbn [mbind option_bind].
  assert ((60 <=? ns / Minute mod 60) = false) as -> by (breflect; lia).
  rewrite expect_hit. cbn [mbind option_bind].
  rewrite take_append by (simpl; lia). cbn [mbind option_bind].
  assert ((60 <=? ns / Second mod 60) = false) as -> by (breflect; lia).
  rewrite parse_format_frac by (apply Z.mod_pos_bound; done). simpl.
  assert ((d <? 1) || (daysIn m y <? d) = false) as -> by (breflect; lia).
  f_equal. rewrite Hinv. subst ns. unfold Hour, Minute, Second, Millisecond in *.
  Z.to_euclidean_division_equations; lia.
Qed.

Arguments FormatRFC3339Nano : simpl never.
Arguments ParseRFC3339Nano : simpl never.
