(* ===== verification/StateMachine.v ===== *)
(** * The restart-policy state machine ([api/supervisor_state_machine.go])

    [Transition] is the table of [Transition] in the source, row by row;
    the side-effect description stays the source's string because the
    controller dispatches on substrings of it. *)
From S2P Require Import Prelude.
Open Scope Z_scope.

Inductive SMState :=
| StIdle | StSpawning | StRunning | StExiting | StBackoffWaiting | StQuarantined.

#[global] Instance SMState_eq_dec : EqDecision SMState.
Proof. solve_decision. Defined.

(** The wire value of a state. *)
Definition smstate_string (s : SMState) : string :=
  match s with
  | StIdle => "idle" | StSpawning => "spawning" | StRunning => "running"
  | StExiting => "exiting" | StBackoffWaiting => "backoff-waiting"
  | StQuarantined => "quarantined"
  end.

Inductive SMEvent :=
| EvStart | EvHealthOK | EvChildExit | EvTimerDue | EvIntentUpdate
| EvManualRestart | EvRequestGraceful | EvQuiesceComplete | EvSupervisorRestart.

#[global] Instance SMEvent_eq_dec : EqDecision SMEvent.
Proof. solve_decision. Defined.

Record SMContext := mkSMContext {
  IntentDesired : string;
  IntentIsActiveStop : bool;
  Failures : Z;
  QueuedAction : string;
  GracefulInProgress : bool;
}.

(** The four results of [Transition]. *)
Record outcome := mkOutcome {
  newState : SMState;
  side : string;
  persistBefore : bool;
  matched : bool;
}.

Definition row (s : SMState) (d : string) (p : bool) : outcome := mkOutcome s d p true.
(** The fall-through at the end of the table. *)
Definition unmatched (s : SMState) : outcome := mkOutcome s "" false false.

Definition spawn_side : string := "bump pid_generation, create-process".

Definition Transition (state : SMState) (ev : SMEvent) (ctx : SMContext) : outcome :=
  let stopped := IntentDesired ctx =s "stopped" in
  let running := IntentDesired ctx =s "running" in
  let may_run := running && negb (IntentIsActiveStop ctx) in
  match state with
  | StIdle =>
      match ev with
      | EvStart =>
          if may_run then row StSpawning "bump pid_generation, create-process" true
          else row StIdle "intent suppresses spawn" false
      | EvIntentUpdate =>
          if stopped then row StIdle "" false
          else if may_run then row StSpawning "bump pid_generation, create-process" true
          else unmatched state
      | EvManualRestart =>
          if may_run then row StSpawning "bump pid_generation, create-process" true
          else row StIdle "RESTART_REFUSED_INTENT_STOPPED" false
      | EvRequestGraceful => row StIdle "no-op (already drained)" false
      | EvQuiesceComplete => row StIdle "clear quiesce_in_progress" false
      | _ => unmatched state
      end
  | StSpawning =>
      match ev with
      | EvHealthOK =>
          if QueuedAction ctx =s "stop"
          then row StExiting "issue terminate, queued_action=none" true
          else row StRunning "" false
      | EvChildExit =>
          if (QueuedAction ctx =s "stop") || stopped
          then row StIdle "clear queued_action" true
          else row StBackoffWaiting "arm timer at backoff(failures)" true
      | EvIntentUpdate =>
          if stopped then row StSpawning "set queued_action=stop" false
          else row StSpawning "clear queued_action" false
      | EvRequestGraceful => row StExiting "issue terminate, queued_action=none" true
      | _ => unmatched state
      end
  | StRunning =>
      match ev with
      | EvChildExit => row StBackoffWaiting "arm timer" true
      | EvIntentUpdate =>
          if stopped then row StExiting "issue terminate, queued_action=none" true
          else unmatched state
      | EvManualRestart => row StExiting "issue terminate, queued_action=respawn" true
      | EvRequestGraceful => row StExiting "issue terminate, queued_action=none" true
      | _ => unmatched state
      end
  | StExiting =>
      match ev with
      | EvChildExit =>
          if GracefulInProgress ctx
          then row StIdle "drain wins (graceful-exit suppresses respawn)" false
          else if QueuedAction ctx =s "respawn"
          then row StSpawning "bump pid_generation, create-process" true
          else row StIdle "" false
      | EvManualRestart =>
          if GracefulInProgress ctx then row StExiting "deferred via graceful-exit" false
          else row StExiting "coalesce — set queued_action=respawn" true
      | EvIntentUpdate =>
          if GracefulInProgress ctx && running
          then row StExiting "deferred via graceful-exit" false
          else if stopped then row StExiting "clear queued_action" true
          else if running then row StExiting "set queued_action=respawn" true
          else unmatched state
      | EvRequestGraceful => row StExiting "coalesce, set queued_action=none (drain wins)" true
      | EvTimerDue => row StExiting "log + ignore" false
      | _ => unmatched state
      end
  | StBackoffWaiting =>
      match ev with
      | EvTimerDue =>
          if (QueuedAction ctx =s "stop") || stopped
          then row StIdle "cancel timer, clear queued_action" true
          else if Failures ctx <? 10
          then row StSpawning "bump pid_generation, create-process" true
          else row StQuarantined "clear timer" true
      | EvIntentUpdate =>
          if stopped then row StIdle "cancel timer" true
          else if running
          then row StSpawning "cancel timer, bump pid_generation, create-process" true
          else unmatched state
      | EvManualRestart =>
          row StSpawning "cancel timer, bump pid_generation, create-process" true
      | EvRequestGraceful => row StIdle "cancel timer" true
      | _ => unmatched state
      end
  | StQuarantined =>
      match ev with
      | EvIntentUpdate =>
          if stopped then row StQuarantined "" false
          else if running
          then row StSpawning "reset failures, bump pid_generation, create-process" true
          else unmatched state
      | EvManualRestart =>
          row StSpawning "reset failures, bump pid_generation, create-process" true
      | EvRequestGraceful => row StQuarantined "no-op (already not running)" false
      | _ => unmatched state
      end
  end.

(** What the side-effect text asks the controller to do. *)
Definition spawns (o : outcome) : bool := matched o && str_contains (side o) "create-process".
Definition terminates (o : outcome) : bool := matched o && str_contains (side o) "issue terminate".
Definition arms_timer (o : outcome) : bool := matched o && str_contains (side o) "arm timer".

(** Case analysis on a table row: every test of the table becomes a
    hypothesis, and the texts are evaluated. *)
Ltac table := unfold Transition; repeat (case_match; simpl in *; try discriminate).

(** The timer gate.  A [timer-due] event, which an off-loop goroutine
    may post at any time, leads to a spawn from exactly one state:
    backoff-waiting, with the failure count below ten and neither a queued
    nor a current stop. *)
Theorem timer_due_spawn_gate st ctx :
  spawns (Transition st EvTimerDue ctx) = true <->
  st = StBackoffWaiting /\ QueuedAction ctx <> "stop" /\
  IntentDesired ctx <> "stopped" /\ Failures ctx < 10.
Proof.
  rewrite <- !str_eqb_false, <- Z.ltb_lt.
  destruct st; table; breflect; naive_solver.
Qed.

(** A spawn is requested exactly when a daemon enters [spawning] from
    another state, and every such row is persisted before the process is
    created. *)
Theorem spawn_iff_enters_spawning st ev ctx :
  let o := Transition st ev ctx in
  (spawns o = true <-> newState o = StSpawning /\ st <> StSpawning) /\
  (spawns o = true -> persistBefore o = true).
Proof. destruct st, ev; table; naive_solver. Qed.
