(* ===== verification/Intent.v ===== *)
(** * The desired state: [supervisor-intent.json] and its stop records

    The data of [api/supervisor_intent.go] and [api/daemon_intent.go], the
    [IsActiveStop] predicate, the canonicalisation of the stop maps and
    the generation fence of a durable rewrite.  The prepared-consumers
    fence of [SupervisorIntentFile] is not modelled; [OwnerMode] is its
    string. *)
From S2P Require Import Prelude GoTime.
Open Scope Z_scope.

(** ** Data *)
Record PreparedSerenaRuntimeBinding := mkPreparedBinding {
  pb_Schema : string; pb_RequestIdentitySHA256 : string; pb_GenerationID : string;
  pb_RecordSHA256 : string; pb_SourceSHA256 : string; pb_InterpreterSHA256 : string;
  pb_EntrypointSHA256 : string; pb_ResolutionSHA256 : string;
}.

Record DaemonRuntimeSpec := mkRuntimeSpec {
  rs_PreparedRuntime : option PreparedSerenaRuntimeBinding;
  rs_SpecVersion : Z;
  rs_ChildCommand : string;
  rs_ChildArgs : list string;
  rs_EnvRefs : gmap string string;
  rs_UpstreamPort : Z;
  rs_ExternalPort : Z;
  rs_WorkspacePath : string;
}.

Record SupervisorDaemon := mkDaemon {
  sd_PreparedRuntime : option PreparedSerenaRuntimeBinding;
  sd_TaskName : string;
  sd_Server : string;
  sd_Daemon : string;
  sd_Command : string;
  sd_Args : list string;
  sd_WorkingDir : string;
  sd_Env : gmap string string;
  sd_Workspace : string;
  sd_Port : Z;
  sd_ManifestHash : string;
  sd_StartupBindDeadlineSeconds : Z;
  sd_RuntimeSpec : option DaemonRuntimeSpec;
}.

Record MaintenanceTimer := mkMaintenanceTimer {
  mt_Name : string; mt_Kind : string; mt_Server : string; mt_Command : string;
  mt_Args : list string; mt_Enabled : option bool;
}.

Record DaemonIntent := mkDaemonIntent {
  di_Desired : string;
  di_Reason : string;
  di_UpdatedAt : time;
}.

Record SupervisorIntentFile := mkIntentFile {
  si_Version : Z;
  si_IntentGeneration : Z;
  si_UpdatedAt : string;
  si_Daemons : list SupervisorDaemon;
  si_MaintenanceTimers : list MaintenanceTimer;
  si_StrictMode : bool;
  si_OwnerMode : string;
  si_Stops : gmap string DaemonIntent;
  si_LegacyStopWatermarks : gmap string DaemonIntent;
}.

#[global] Instance PreparedSerenaRuntimeBinding_eq_dec : EqDecision PreparedSerenaRuntimeBinding.
Proof. solve_decision. Defined.
#[global] Instance DaemonRuntimeSpec_eq_dec : EqDecision DaemonRuntimeSpec.
Proof. solve_decision. Defined.
#[global] Instance SupervisorDaemon_eq_dec : EqDecision SupervisorDaemon.
Proof. solve_decision. Defined.
#[global] Instance DaemonIntent_eq_dec : EqDecision DaemonIntent.
Proof. solve_decision. Defined.

#[global] Instance set_si_IntentGeneration : Setter si_IntentGeneration := fun f r =>
  mkIntentFile (si_Version r) (f (si_IntentGeneration r)) (si_UpdatedAt r) (si_Daemons r)
    (si_MaintenanceTimers r) (si_StrictMode r) (si_OwnerMode r) (si_Stops r) (si_LegacyStopWatermarks r).
#[global] Instance set_si_Daemons : Setter si_Daemons := fun f r =>
  mkIntentFile (si_Version r) (si_IntentGeneration r) (si_UpdatedAt r) (f (si_Daemons r))
    (si_MaintenanceTimers r) (si_StrictMode r) (si_OwnerMode r) (si_Stops r) (si_LegacyStopWatermarks r).
#[global] Instance set_si_Stops : Setter si_Stops := fun f r =>
  mkIntentFile (si_Version r) (si_IntentGeneration r) (si_UpdatedAt r) (si_Daemons r)
    (si_MaintenanceTimers r) (si_StrictMode r) (si_OwnerMode r) (f (si_Stops r)) (si_LegacyStopWatermarks r).
#[global] Instance set_si_LegacyStopWatermarks : Setter si_LegacyStopWatermarks := fun f r =>
  mkIntentFile (si_Version r) (si_IntentGeneration r) (si_UpdatedAt r) (si_Daemons r)
    (si_MaintenanceTimers r) (si_StrictMode r) (si_OwnerMode r) (si_Stops r) (f (si_LegacyStopWatermarks r)).

(** ** [DaemonIntent.IsActiveStop] *)
Definition StopIntentTTL : duration := 24 * Hour.
Definition ClockSkewFutureTolerance : duration := 5 * Minute.
Definition ClockSkewStaleBound : duration := 365 * 24 * Hour.
Definition IntentDesiredRunning : string := "running".
Definition IntentDesiredStopped : string := "stopped".
Definition IntentReasonUserStop : string := "user-stop".
Definition IntentReasonIdle : string := "idle".
Definition ClockSkewFutureSuspectReason : string := "clock-skew-future-suspect".

Definition IsActiveStop (i : DaemonIntent) (now : time) : bool * string :=
  if negb (di_Desired i =s IntentDesiredStopped) then (false, "")
  else if Before now (di_UpdatedAt i + - ClockSkewFutureTolerance)
  then (true, ClockSkewFutureSuspectReason)
  else if ClockSkewStaleBound <? time_Sub now (di_UpdatedAt i) then (false, "")
  else if (di_Reason i =s IntentReasonUserStop) &&
          (StopIntentTTL <? time_Sub now (di_UpdatedAt i)) then (false, "")
  else (true, di_Reason i).

(** ** The intent file *)

Definition isLegacyOneshotDaemon (d : SupervisorDaemon) : bool :=
  match sd_Args d with
  | a0 :: a1 :: _ => (a0 =s "watchdog") && (a1 =s "--once")
  | _ => false
  end.

Definition filterSupervisorIntentOneshotDaemons (f : SupervisorIntentFile) : SupervisorIntentFile :=
  match si_Daemons f with
  | [] => f
  | ds => f <| si_Daemons := List.filter (fun d => negb (isLegacyOneshotDaemon d)) ds |>
  end.

(** One iteration of the loop of [normalizeDaemonIntentMapKeys]. *)
Definition normalize_step (m out : gmap string DaemonIntent) (taskName : string) : gmap string DaemonIntent :=
  match m !! taskName with
  | None => out
  | Some next =>
      let canonical := canonicalIntentTaskKey taskName in
      match out !! canonical with
      | None => <[canonical := next]> out
      | Some current =>
          if After (di_UpdatedAt next) (di_UpdatedAt current) ||
             ((di_UpdatedAt next =? di_UpdatedAt current) && (taskName =s canonical))
          then <[canonical := next]> out
          else out
      end
  end.

Definition normalizeDaemonIntentMapKeys (m : gmap string DaemonIntent) : gmap string DaemonIntent :=
  foldl (normalize_step m) ∅ (sort_strings (map_keys m)).

Definition canonicalizeSupervisorIntentStopMaps (f : SupervisorIntentFile) : SupervisorIntentFile :=
  f <| si_Stops ::= normalizeDaemonIntentMapKeys |>
    <| si_LegacyStopWatermarks ::= normalizeDaemonIntentMapKeys |>.

Definition normalizeAbsentOnlyStopWatermarks (f : SupervisorIntentFile) : SupervisorIntentFile :=
  let f := canonicalizeSupervisorIntentStopMaps f in
  f <| si_LegacyStopWatermarks ::=
        filter (fun kv => si_Stops f !! kv.1 = None) |>.

Fixpoint find_daemon (ds : list SupervisorDaemon) (taskName : string) : option SupervisorDaemon :=
  match ds with
  | [] => None
  | d :: ds => if sd_TaskName d =s taskName then Some d else find_daemon ds taskName
  end.

Definition FindSupervisorDaemonByTaskName (f : option SupervisorIntentFile) (taskName : string)
    : option SupervisorDaemon :=
  match f with None => None | Some f => find_daemon (si_Daemons f) taskName end.

Definition HasRuntimeSpecRow (f : option SupervisorIntentFile) : bool :=
  match f with
  | None => false
  | Some f => existsb (fun d => bool_decide (is_Some (sd_RuntimeSpec d))) (si_Daemons f)
  end.

Definition serena_task (key : string) : string := "mcp-local-hub-serena-" +:+ key.

Definition HasSerenaDaemonForWorkspaceKey (f : option SupervisorIntentFile) (key : string) : bool :=
  match f with
  | None => false
  | Some f => existsb (fun d => trim_prefix (bs "") (sd_TaskName d) =s serena_task key) (si_Daemons f)
  end.

Definition SpecBearingSerenaDaemonForWorkspaceKey (f : option SupervisorIntentFile) (key : string)
    : option SupervisorDaemon :=
  match f with
  | None => None
  | Some f =>
      List.find (fun d => (trim_prefix (bs "") (sd_TaskName d) =s serena_task key) &&
                          bool_decide (is_Some (sd_RuntimeSpec d))) (si_Daemons f)
  end.

(** [StopsAsDaemonIntentFile] / [UnifiedStopsFile]: the stops sub-block is
    the only stop source; the legacy file argument is ignored. *)
Definition StopsAsDaemonIntentFile (f : option SupervisorIntentFile) : gmap string DaemonIntent :=
  match f with None => ∅ | Some f => si_Stops f end.

Definition UnifiedStopsFile (f : option SupervisorIntentFile) (_ : gmap string DaemonIntent)
    : gmap string DaemonIntent := StopsAsDaemonIntentFile f.

(** The generation fence of [marshalNextSupervisorIntent]; [marshal] stands
    for validation and JSON encoding of the result. *)
Definition marshalNextSupervisorIntent {B} (marshal : SupervisorIntentFile -> res B)
    (f : option SupervisorIntentFile) : res (B * SupervisorIntentFile) :=
  match f with
  | None => Err (errors_New "nil supervisor intent")
  | Some f =>
      if si_IntentGeneration f =? u64_max
      then Err (errors_New "supervisor intent generation overflow")
      else
        let f := f <| si_IntentGeneration ::= fun g => u64_add g 1 |> in
        let? raw := marshal (normalizeAbsentOnlyStopWatermarks f) in
        Ok (raw, normalizeAbsentOnlyStopWatermarks f)
  end.

(** ** Abstract view of the stop maps

    A canonical key [c] has at most two spellings, [c] itself and its bare
    form; the record that counts is the later one, the canonical spelling
    winning a tie. *)
Definition bare_of (c : string) : option string :=
  match c with
  | String a (String b k) =>
      if Ascii.eqb a backslash && negb (Ascii.eqb b backslash) then Some (String b k) else None
  | _ => None
  end.

Definition newest (g : string -> option DaemonIntent) (c : string) : option DaemonIntent :=
  match g c, bare_of c ≫= g with
  | Some v, Some w => if After (di_UpdatedAt w) (di_UpdatedAt v) then Some w else Some v
  | Some v, None => Some v
  | None, w => w
  end.

Lemma bare_of_Some c k :
  bare_of c = Some k <-> c = bs k /\ k <> "" /\ has_prefix (bs "") k = false.
Proof.
  destruct c as [|x [|y c]]; [naive_solver| |].
  - split; [done|]. unfold bs. naive_solver.
  - unfold bare_of. destruct (Ascii.eqb_spec x backslash) as [->|Hx]; [|split; [done|intros [[=] _]; done]].
    destruct (Ascii.eqb_spec y backslash) as [->|Hy]; cbn [andb negb].
    + split; [done|]. intros (E&_&H). injection E as <-. discriminate H.
    + split; [intros [= <-]|intros (E&_); by injection E as <-].
      rewrite has_prefix_bs. split; [done|split; [done|]]. apply Ascii.eqb_neq. congruence.
Qed.

Lemma canonical_spellings k c :
  canonicalIntentTaskKey k = c <-> (k = c /\ is_canonical c) \/ bare_of c = Some k.
Proof.
  rewrite canonicalIntentTaskKey_eq, bare_of_Some. unfold is_canonical, canonicalSupervisorTaskName.
  destruct (k =s "") eqn:Hk; [|destruct (has_prefix (bs "") k) eqn:Hp]; cbn [orb]; breflect.
  - subst. naive_solver.
  - split; [intros <-; left; by rewrite Hp, orb_true_r|]. naive_solver.
  - split; [naive_solver|]. intros [[<- H]|[-> _]]; [|done].
    rewrite Hp, orb_false_r in H. apply str_eqb_false in Hk. rewrite Hk in H.
    apply (f_equal String.length) in H. simpl in H. lia.
Qed.

Lemma bare_of_canonical c k : bare_of c = Some k -> is_canonical c.
Proof.
  intros H. rewrite <- (proj2 (canonical_spellings k c) (or_intror H)), canonicalIntentTaskKey_eq.
  apply canonical_idem.
Qed.

Lemma bare_of_ne c k : bare_of c = Some k -> k <> c.
Proof.
  rewrite bare_of_Some. intros [-> _] H. apply (f_equal String.length) in H. simpl in H. lia.
Qed.

(** [newest] only looks at the spellings of its key. *)
Lemma newest_ext g h c :
  (forall k, canonicalIntentTaskKey k = c -> g k = h k) -> is_canonical c ->
  newest g c = newest h c.
Proof.
  intros E Hc. unfold newest.
  rewrite (E c) by (by apply canonical_spellings; left).
  destruct (bare_of c) as [k|] eqn:B; simpl; [|done].
  by rewrite (E k) by (apply canonical_spellings; by right).
Qed.

Definition among (m : gmap string DaemonIntent) (l : list string) (k : string) : option DaemonIntent :=
  if decide (k ∈ l) then m !! k else None.

Definition is_canonical_dec c : Decision (is_canonical c) := decide (_ = _).
#[global] Existing Instance is_canonical_dec.

Lemma among_snoc_other m l k k' : k' <> k -> among m (l ++ [k]) k' = among m l k'.
Proof. intros. unfold among. by rewrite (decide_ext _ (k' ∈ l)) by set_solver. Qed.
Lemma among_snoc_here m l k : among m (l ++ [k]) k = m !! k.
Proof. unfold among. rewrite decide_True by set_solver. done. Qed.
Lemma among_fresh m l k : k ∉ l -> among m l k = None.
Proof. intros. unfold among. by rewrite decide_False. Qed.

(** The loop invariant of [normalizeDaemonIntentMapKeys]: after any
    duplicate-free prefix of keys, in whatever order, every canonical key
    holds the newest of its spellings seen so far. *)
Lemma normalize_fold m l c :
  NoDup l ->
  foldl (normalize_step m) ∅ l !! c =
  if decide (is_canonical c) then newest (among m l) c else None.
Proof.
  induction l as [|k l IH] using rev_ind; intros Hnd.
  { simpl. rewrite lookup_empty. case_decide; [|done].
    unfold newest, among. simpl. by destruct (bare_of c). }
  apply NoDup_app in Hnd as (Hl&Hk&_). specialize (IH Hl).
  assert (k ∉ l) as Hkl by (intros Hin; apply (Hk k Hin); constructor).
  rewrite foldl_snoc. set (out := foldl _ _ l) in *. unfold normalize_step.
  destruct (decide (canonicalIntentTaskKey k = c)) as [E|E].
  - assert (is_canonical c) as Hc by (subst c; rewrite canonicalIntentTaskKey_eq; apply canonical_idem).
    rewrite decide_True in * by done. rewrite E, IH.
    pose proof (proj1 (canonical_spellings k c) E) as [[-> _]|B]; unfold newest.
    + rewrite among_snoc_here, (among_fresh m l c) by done.
      assert (bare_of c ≫= among m (l ++ [c]) = bare_of c ≫= among m l) as ->.
      { destruct (bare_of c) eqn:B; [|done]. apply among_snoc_other. by apply bare_of_ne. }
      destruct (m !! c) as [v|]; [|by rewrite IH; unfold newest; rewrite (among_fresh m l c)].
      destruct (bare_of c ≫= among m l) as [w|] eqn:Hw; simpl; [|by rewrite lookup_insert_eq].
      rewrite str_eqb_refl, andb_true_r. unfold After.
      destruct (Z.ltb_spec (di_UpdatedAt v) (di_UpdatedAt w)).
      * destruct (Z.ltb_spec (di_UpdatedAt w) (di_UpdatedAt v)), (Z.eqb_spec (di_UpdatedAt v) (di_UpdatedAt w)); try lia.
        simpl. rewrite IH. unfold newest. by rewrite (among_fresh m l c), Hw.
      * destruct (Z.ltb_spec (di_UpdatedAt w) (di_UpdatedAt v)), (Z.eqb_spec (di_UpdatedAt v) (di_UpdatedAt w)); try lia;
          simpl; by rewrite lookup_insert_eq.
    + pose proof (bare_of_ne _ _ B) as Hne. rewrite B. simpl.
      rewrite among_snoc_here, among_snoc_other, (among_fresh m l k) by done.
      assert (k =s c = false) as -> by by apply str_eqb_false.
      destruct (m !! k) as [w|]; [|rewrite IH; unfold newest; rewrite B; simpl; by rewrite (among_fresh m l k)].
      destruct (among m l c) as [v|] eqn:Hv; simpl; [|by rewrite lookup_insert_eq].
      rewrite andb_false_r, orb_false_r. case_match; [by rewrite lookup_insert_eq|].
      rewrite IH. unfold newest. by rewrite Hv, B; simpl; rewrite (among_fresh m l k).
  - assert ((match m !! k with
             | Some next => match out !! canonicalIntentTaskKey k with
                 | Some current => if After (di_UpdatedAt next) (di_UpdatedAt current) || ((di_UpdatedAt next =? di_UpdatedAt current) && (k =s canonicalIntentTaskKey k)) then <[canonicalIntentTaskKey k:=next]> out else out
                 | None => <[canonicalIntentTaskKey k:=next]> out end
             | None => out end) !! c = out !! c) as ->.
    { repeat case_match; try done; by rewrite lookup_insert_ne. }
    rewrite IH. case_decide; [|done]. apply newest_ext; [|done].
    intros k' Hk'. symmetry. apply among_snoc_other. congruence.
Qed.

Lemma normalize_lookup m c :
  normalizeDaemonIntentMapKeys m !! c =
  if decide (is_canonical c) then newest (fun k => m !! k) c else None.
Proof.
  unfold normalizeDaemonIntentMapKeys.
  rewrite normalize_fold by (rewrite sort_strings_perm; apply NoDup_map_keys).
  case_decide; [|done]. apply newest_ext; [|done]. intros k _. unfold among.
  case_decide as E; [done|]. rewrite sort_strings_perm, elem_of_map_keys, <- not_eq_None_Some in E.
  symmetry. by apply dec_stable.
Qed.

Lemma normalize_canonical m : map_Forall (fun k _ => is_canonical k) (normalizeDaemonIntentMapKeys m).
Proof. intros k v. rewrite normalize_lookup. by case_decide. Qed.

(** On a map that is already canonical the normalisation is the identity. *)
Lemma normalize_id m :
  map_Forall (fun k _ => is_canonical k) m -> normalizeDaemonIntentMapKeys m = m.
Proof.
  intros Hm. apply map_eq. intros c. rewrite normalize_lookup.
  case_decide as Hc; [|destruct (m !! c) eqn:E; [by apply Hm in E|done]].
  unfold newest. destruct (bare_of c) as [k|] eqn:B; simpl; [|by destruct (m !! c)].
  assert (m !! k = None) as ->; [|by destruct (m !! c)].
  destruct (m !! k) eqn:E; [|done]. apply Hm in E.
  pose proof (proj2 (canonical_spellings k c) (or_intror B)) as E2.
  rewrite canonicalIntentTaskKey_eq, E in E2. by apply bare_of_ne in B.
Qed.

Lemma normalize_idem m :
  normalizeDaemonIntentMapKeys (normalizeDaemonIntentMapKeys m) = normalizeDaemonIntentMapKeys m.
Proof. apply normalize_id, normalize_canonical. Qed.

(** An intent file as the writer leaves it: both stop maps keyed by
    canonical names, watermarks only for tasks that are not stopped. *)
Definition stop_maps_wf (f : SupervisorIntentFile) : Prop :=
  map_Forall (fun k _ => is_canonical k) (si_Stops f) /\
  map_Forall (fun k _ => is_canonical k) (si_LegacyStopWatermarks f) /\
  si_Stops f ##ₘ si_LegacyStopWatermarks f.

Lemma normalizeAbsentOnly_wf f : stop_maps_wf (normalizeAbsentOnlyStopWatermarks f).
Proof.
  destruct f. unfold normalizeAbsentOnlyStopWatermarks, stop_maps_wf; simpl. split_and!.
  - apply normalize_canonical.
  - intros k v [H _]%map_lookup_filter_Some. by apply normalize_canonical in H.
  - apply map_disjoint_spec. intros k v w H1. rewrite map_lookup_filter_Some; simpl. intros [_ H2].
    congruence.
Qed.

(** The stop maps of a rolled-back and re-upgraded installation.  The
    normalised map holds, for every canonical task name and for nothing
    else, the record with the later [UpdatedAt] among the two spellings of
    that name, the canonical spelling winning an exact tie: no stop is lost
    and none is invented, whatever the iteration order. *)
Theorem normalizeDaemonIntentMapKeys_spec m c :
  normalizeDaemonIntentMapKeys m !! c =
  if decide (is_canonical c) then
    match m !! c, bare_of c ≫= fun b => m !! b with
    | Some v, Some w => if di_UpdatedAt v <? di_UpdatedAt w then Some w else Some v
    | Some v, None => Some v
    | None, w => w
    end
  else None.
Proof. rewrite normalize_lookup. case_decide; [|done]. unfold newest, After. by destruct (m !! c). Qed.

(** Every durable rewrite of the intent file owns one new generation
    (it is refused at the top of uint64 rather than wrapping), and it writes
    both stop maps canonically keyed and disjoint. *)
Theorem marshalNext_generation {B} (marshal : SupervisorIntentFile -> res B) f raw f' :
  is_u64 (si_IntentGeneration f) ->
  marshalNextSupervisorIntent marshal (Some f) = Ok (raw, f') ->
  marshal f' = Ok raw /\
  si_IntentGeneration f' = si_IntentGeneration f + 1 /\
  is_u64 (si_IntentGeneration f') /\ stop_maps_wf f'.
Proof.
  unfold marshalNextSupervisorIntent. intros Hg. case_match eqn:Eg; [done|].
  rewrite let_ok. intros (r&Hm&[= -> <-]). split; [done|].
  unfold is_u64, u64_max, u64_modulus in *. breflect.
  assert (si_IntentGeneration (normalizeAbsentOnlyStopWatermarks
    (f <| si_IntentGeneration ::= fun g => u64_add g 1 |>)) = si_IntentGeneration f + 1) as ->.
  { destruct f; simpl in *. apply u64_add_small; unfold u64_modulus; lia. }
  split; [done|]. split; [lia|]. apply normalizeAbsentOnly_wf.
Qed.

(** When a stop record suppresses a daemon.  The record must say
    [stopped]; it is then active if it looks more than five minutes newer
    than the clock, and otherwise until it is a year old, or one day old
    when its reason is [user-stop].  The int64 saturation of [Time.Sub]
    never changes the verdict. *)
Theorem IsActiveStop_spec i now :
  fst (IsActiveStop i now) = true <->
  di_Desired i = "stopped" /\
  (now < di_UpdatedAt i - 5 * Minute \/
   (now - di_UpdatedAt i <= 365 * 24 * Hour /\
    (di_Reason i = "user-stop" -> now - di_UpdatedAt i <= 24 * Hour))).
Proof.
  unfold IsActiveStop, Before, ClockSkewFutureTolerance, IntentDesiredStopped, IntentReasonUserStop.
  rewrite !time_Sub_gt by (unfold min_duration, max_duration; vm_compute; split; congruence).
  unfold ClockSkewStaleBound, StopIntentTTL, Hour, Minute, Second, Millisecond.
  destruct (String.eqb_spec (di_Desired i) "stopped"), (String.eqb_spec (di_Reason i) "user-stop"); simpl;
    repeat case_match; breflect; simpl; split; intros; destruct_and?; try done;
    try (split; [done|]); try lia; try naive_solver lia.
Qed.

(** A concrete rewrite at generation 41 with a bare and a canonical stop. *)
Definition intent_example : SupervisorIntentFile :=
  mkIntentFile 1 41 "" [] [] false "" 
    {[ "memory-default" := mkDaemonIntent "stopped" "user-stop" 7;
       bs "memory-default" := mkDaemonIntent "stopped" "idle" 5 ]}
    {[ bs "memory-default" := mkDaemonIntent "stopped" "user-stop" 1 ]}.

Lemma marshalNext_generation_witness :
  exists f', marshalNextSupervisorIntent (fun f => Ok (si_IntentGeneration f)) (Some intent_example) = Ok (42, f') /\
    is_u64 (si_IntentGeneration f').
Proof.
  eexists. split; [reflexivity|].
  apply (marshalNext_generation (fun f => Ok (si_IntentGeneration f)) intent_example 42);
    [unfold is_u64; vm_compute; split; congruence|reflexivity].
Defined.
