(* ===== verification/Descriptor.v ===== *)
(** * Descriptor identity and effective port

    [api/supervisor_port_owner.go] and the descriptor rewrite of
    [api/reallocate_dynamic_pool.go]: which (server, daemon) a descriptor
    is, which port and first-bind deadline it has, the memoising resolver
    and the port move of a reallocation.  The embedded manifest store is a
    parameter [resolve]. *)
From S2P Require Import Prelude GoTime Intent.
Open Scope Z_scope.

(** ** [strconv.Atoi] (base 10, 64-bit int) *)
Definition digit_of (a : ascii) : option Z :=
  let n := Z.of_nat (nat_of_ascii a) in
  if (48 <=? n) && (n <=? 57) then Some (n - 48) else None.

Fixpoint digits_value (acc : Z) (s : string) : option Z :=
  match s with
  | EmptyString => Some acc
  | String a s' =>
      match digit_of a with
      | Some d => digits_value (acc * 10 + d) s'
      | None => None
      end
  end.

Definition unsigned_digits (s : string) : option Z :=
  match s with EmptyString => None | _ => digits_value 0 s end.

Definition Atoi (s : string) : option Z :=
  let r := match s with
           | String "-" s' => Z.opp <$> unsigned_digits s'
           | String "+" s' => unsigned_digits s'
           | _ => unsigned_digits s
           end in
  match r with
  | Some v => if (- 2 ^ 63 <=? v) && (v <=? 2 ^ 63 - 1) then Some v else None
  | None => None
  end.

(** [strconv.Itoa] *)
Definition Itoa (z : Z) : string := pretty z.

(** ** Launch shape *)
Definition is_daemon_kind (kind : string) (d : SupervisorDaemon) : bool :=
  match sd_Args d with
  | a0 :: a1 :: _ => (a0 =s "daemon") && (a1 =s kind)
  | _ => false
  end.
Definition IsSerenaProxyDescriptor (d : SupervisorDaemon) : bool := is_daemon_kind "serena-proxy" d.
Definition IsWorkspaceLSPProxyDescriptor (d : SupervisorDaemon) : bool := is_daemon_kind "workspace-proxy" d.

Definition starts_with_daemon (d : SupervisorDaemon) : bool :=
  match sd_Args d with a0 :: _ => a0 =s "daemon" | [] => false end.

Definition is_proxy (d : SupervisorDaemon) : bool :=
  IsSerenaProxyDescriptor d || IsWorkspaceLSPProxyDescriptor d.

Definition DescriptorHasGlobalDaemonArgv (d : SupervisorDaemon) : bool :=
  starts_with_daemon d && negb (IsSerenaProxyDescriptor d) && negb (IsWorkspaceLSPProxyDescriptor d).

(** The loop [for i := 0; i+1 < len(args); i++ { if args[i] == flag {
    return args[i+1] } }]: the token after the first occurrence of the
    flag that has one, or the empty string. *)
Fixpoint arg_value (flag : string) (args : list string) : string :=
  match args with
  | a :: ((v :: _) as rest) => if a =s flag then v else arg_value flag rest
  | _ => ""
  end.

Definition DescriptorServerName (d : SupervisorDaemon) : string :=
  let fieldServer := sd_Server d in
  let argServer := if starts_with_daemon d then arg_value "--server" (sd_Args d) else "" in
  if negb (fieldServer =s "") && negb (argServer =s "") && negb (fieldServer =s argServer) then ""
  else if negb (fieldServer =s "") then fieldServer
  else argServer.

Definition DescriptorServerDaemon (d : SupervisorDaemon) : option (string * string) :=
  let fieldServer := sd_Server d in
  let fieldDaemon := sd_Daemon d in
  let argServer := if starts_with_daemon d then arg_value "--server" (sd_Args d) else "" in
  let argDaemon := if starts_with_daemon d then arg_value "--daemon" (sd_Args d) else "" in
  if negb (fieldServer =s "") && negb (argServer =s "") && negb (fieldServer =s argServer) then None
  else if negb (fieldDaemon =s "") && negb (argDaemon =s "") && negb (fieldDaemon =s argDaemon) then None
  else
    let server := if fieldServer =s "" then argServer else fieldServer in
    let daemon := if fieldDaemon =s "" then argDaemon else fieldDaemon in
    if (server =s "") || (daemon =s "") then None else Some (server, daemon).

Inductive IdentitySource :=
| IdentityFromArgvOrField | IdentityCorruptGlobalArgv | IdentityTaskNameSafe.

Definition ResolveDescriptorMatchIdentity (d : SupervisorDaemon) : string * string * IdentitySource :=
  match DescriptorServerDaemon d with
  | Some (s, dm) => (s, dm, IdentityFromArgvOrField)
  | None =>
      if DescriptorHasGlobalDaemonArgv d then ("", "", IdentityCorruptGlobalArgv)
      else ("", "", IdentityTaskNameSafe)
  end.

(** ** The [--port] argument of a proxy

    The loop of [descriptorArgPort] over the arguments from index 2; [port]
    and [present] are its accumulators. *)
Fixpoint arg_port_loop (complete : bool) (args : list string) (port : Z) (present : bool)
    : res (Z * bool) :=
  match args with
  | [] => Ok (port, present)
  | a :: rest =>
      if complete && has_prefix "--port=" a
      then Err (errors_New "unsupported proxy port argument shape")
      else if a =s "--port" then
        if complete && present then Err (errors_New "duplicate proxy port argument")
        else
          match rest with
          | [] =>
              if complete then Err (errors_New "proxy port argument has no value")
              else arg_port_loop complete rest port true
          | v :: _ =>
              let parsed := Atoi v in
              let bad := match parsed with
                         | None => true
                         | Some p => (p <? 1) || (65535 <? p)
                         end in
              if complete && bad then Err (errors_New "invalid proxy port argument")
              else
                match parsed with
                | Some p =>
                    if 0 <? p then
                      if complete then arg_port_loop complete rest p true else Ok (p, true)
                    else arg_port_loop complete rest port true
                | None => arg_port_loop complete rest port true
                end
          end
      else arg_port_loop complete rest port present
  end.

Definition descriptorArgPort (d : SupervisorDaemon) (complete : bool) : res (Z * bool) :=
  if negb (IsSerenaProxyDescriptor d) && negb (IsWorkspaceLSPProxyDescriptor d) then Ok (0, false)
  else arg_port_loop complete (drop 2 (sd_Args d)) 0 false.

(** ** The effective port *)
Record daemonPortResolution := mkResolution {
  dp_port : Z; dp_deadlineSecs : Z; dp_portless : bool;
}.

Definition ErrInvalidSupervisorFrozenPort : error :=
  sentinel "ErrInvalidSupervisorFrozenPort" "invalid supervisor frozen port".
Definition ErrUnsortedSupervisorFrozenPorts : error :=
  sentinel "ErrUnsortedSupervisorFrozenPorts" "unsorted or duplicate supervisor frozen port".
Definition errUnresolvedSupervisorDaemonPort : error :=
  sentinel "errUnresolvedSupervisorDaemonPort" "daemon managed port or positive exclusion unresolved".

Definition is_corrupt_identity (d : SupervisorDaemon) : bool :=
  match ResolveDescriptorMatchIdentity d with (_, _, IdentityCorruptGlobalArgv) => true | _ => false end.

(** The qualification block of complete capture. *)
Definition classify_complete_checks (d : SupervisorDaemon) : res unit :=
  if (sd_Port d <? 0) || (65535 <? sd_Port d) then Err ErrInvalidSupervisorFrozenPort
  else if is_corrupt_identity d then Err (errors_New "corrupt global daemon identity")
  else if is_proxy d && negb (sd_Server d =s "") && (DescriptorServerName d =s "")
  then Err (errors_New "conflicting proxy server identity")
  else Ok tt.

(** The fallback to the manifest. *)
Definition classify_from_manifest (d : SupervisorDaemon)
    (resolve : string -> string -> res daemonPortResolution) (complete : bool) : res daemonPortResolution :=
  match DescriptorServerDaemon d with
  | None => Err errUnresolvedSupervisorDaemonPort
  | Some (server, daemon) =>
      let? resolved := resolve server daemon in
      if 0 <? dp_port resolved then
        if complete && (65535 <? dp_port resolved) then Err ErrInvalidSupervisorFrozenPort
        else Ok resolved
      else if complete && (dp_port resolved =? 0) && dp_portless resolved then Ok resolved
      else Err errUnresolvedSupervisorDaemonPort
  end.

Definition classifyEffectiveDaemonPort (d : SupervisorDaemon)
    (resolve : string -> string -> res daemonPortResolution) (complete : bool) : res daemonPortResolution :=
  let? _u := (if complete then classify_complete_checks d else Ok tt) in
  if 0 <? sd_Port d then
    let? _p := (if complete then descriptorArgPort d true else Ok (0, false)) in
    Ok (mkResolution (sd_Port d) 0 false)
  else
    let? pp := descriptorArgPort d complete in
    if 0 <? fst pp then Ok (mkResolution (fst pp) 0 false)
    else if complete && is_proxy d then Err (errors_New "proxy has no resolved port argument")
    else classify_from_manifest d resolve complete.

(** The (port, deadline, ok) reader the pure and the memoised callers share. *)
Definition manifestPortDeadlineResolveFn := string -> string -> option (Z * Z).

Definition effectivePort (d : SupervisorDaemon) (resolve : manifestPortDeadlineResolveFn) : option Z :=
  let r := classifyEffectiveDaemonPort d
    (fun server daemon =>
       match resolve server daemon with
       | None => Err errUnresolvedSupervisorDaemonPort
       | Some (port, deadlineSecs) => Ok (mkResolution port deadlineSecs false)
       end) false in
  match r with
  | Err _ => None
  | Ok resolved => if dp_port resolved <=? 0 then None else Some (dp_port resolved)
  end.

Definition SerenaServerName : string := "serena".
Definition serenaStartupBindDeadlineSeconds : Z := 120.
Definition defaultStartupBindDeadlineSeconds : Z := 60.

Definition effectiveDeadline (d : SupervisorDaemon) (resolve : manifestPortDeadlineResolveFn) : Z :=
  if 0 <? sd_StartupBindDeadlineSeconds d then sd_StartupBindDeadlineSeconds d
  else
    let by_identity :=
      if DescriptorServerName d =s SerenaServerName then serenaStartupBindDeadlineSeconds
      else defaultStartupBindDeadlineSeconds in
    match DescriptorServerDaemon d with
    | Some (server, daemon) =>
        match resolve server daemon with
        | Some (_, deadlineSecs) => if 0 <? deadlineSecs then deadlineSecs else by_identity
        | None => by_identity
        end
    | None => by_identity
    end.

Definition EffectiveDaemonPort (d : SupervisorDaemon) (resolve : manifestPortDeadlineResolveFn) := effectivePort d resolve.
Definition EffectiveStartupBindDeadlineSeconds (d : SupervisorDaemon) (resolve : manifestPortDeadlineResolveFn) :=
  effectiveDeadline d resolve.

(** ** The port move of a reallocation ([api/reallocate_dynamic_pool.go]) *)
Definition NativeHTTPInternalPortOffset : Z := 10000.

(** The loop of [rewriteDescriptorPortArg] from index 2. *)
Fixpoint rewrite_port_loop (args : list string) (newPort : Z) : option (list string) :=
  match args with
  | a :: ((v :: rest') as rest) =>
      if a =s "--port" then Some (a :: Itoa newPort :: rest')
      else cons a <$> rewrite_port_loop rest newPort
  | _ => None
  end.

Definition rewriteDescriptorPortArg (args : list string) (newPort : Z) : option (list string) :=
  app (take 2 args) <$> rewrite_port_loop (drop 2 args) newPort.

Definition applyReallocatedPortToDescriptor (d : SupervisorDaemon) (newPort : Z) : option SupervisorDaemon :=
  if newPort <=? 0 then None
  else
    args ← rewriteDescriptorPortArg (sd_Args d) newPort;
    Some (mkDaemon (sd_PreparedRuntime d) (sd_TaskName d) (sd_Server d) (sd_Daemon d) (sd_Command d)
      args (sd_WorkingDir d) (sd_Env d) (sd_Workspace d) newPort (sd_ManifestHash d)
      (sd_StartupBindDeadlineSeconds d)
      ((fun rs => mkRuntimeSpec (rs_PreparedRuntime rs) (rs_SpecVersion rs) (rs_ChildCommand rs)
          (rs_ChildArgs rs) (rs_EnvRefs rs) (newPort + NativeHTTPInternalPortOffset) newPort
          (rs_WorkspacePath rs)) <$> sd_RuntimeSpec d)).

(** Rewrite the first descriptor whose canonical key is [wantKey]. *)
Fixpoint realloc_first (ds : list SupervisorDaemon) (wantKey : string) (newPort : Z)
    : option (list SupervisorDaemon) :=
  match ds with
  | [] => None
  | d :: rest =>
      if canonicalIntentTaskKey (sd_TaskName d) =s wantKey
      then d' ← applyReallocatedPortToDescriptor d newPort; Some (d' :: rest)
      else cons d <$> realloc_first rest wantKey newPort
  end.

Definition CloneIntentWithReallocatedPort (src : option SupervisorIntentFile) (taskName : string) (newPort : Z)
    : option SupervisorIntentFile :=
  match src with
  | None => None
  | Some src =>
      if newPort <=? 0 then None
      else
        ds ← realloc_first (si_Daemons src) (canonicalIntentTaskKey taskName) newPort;
        Some (src <| si_Daemons := ds |>)
  end.

(** ** Frozen ports: the canonical cohort of a capture *)
Record SupervisorFrozenPort := mkFrozenPort {
  fp_TaskName : string; fp_Port : Z; fp_ArgvSHA256 : string;
}.

Definition supervisorFrozenPortLess (l r : SupervisorFrozenPort) : bool :=
  if negb (fp_TaskName l =s fp_TaskName r) then str_ltb (fp_TaskName l) (fp_TaskName r)
  else if negb (fp_Port l =? fp_Port r) then fp_Port l <? fp_Port r
  else str_ltb (fp_ArgvSHA256 l) (fp_ArgvSHA256 r).

Definition frozen_le (l r : SupervisorFrozenPort) : Prop := supervisorFrozenPortLess r l = false.
#[global] Instance frozen_le_dec : RelDecision frozen_le.
Proof. intros l r. unfold frozen_le. apply _. Defined.

(** [sort.Slice] is not stable, but rows that compare equal are equal. *)
Definition CanonicalSupervisorFrozenPorts (rows : list SupervisorFrozenPort) : list SupervisorFrozenPort :=
  merge_sort frozen_le rows.

Fixpoint all_lower_hex (s : string) : bool :=
  match s with
  | EmptyString => true
  | String a s' =>
      let n := nat_of_ascii a in
      ((Nat.leb 48 n && Nat.leb n 57) || (Nat.leb 97 n && Nat.leb n 102)) && all_lower_hex s'
  end.
Definition isLowerHex64 (s : string) : bool := Nat.eqb (String.length s) 64 && all_lower_hex s.

(** One row of [ValidateSupervisorFrozenPorts]; [prev] is [rows[i-1]]. *)
Fixpoint validate_rows (prev : option SupervisorFrozenPort) (rows : list SupervisorFrozenPort) : option error :=
  match rows with
  | [] => None
  | row :: rest =>
      if is_blank (fp_TaskName row) || (fp_Port row <? 1) || (65535 <? fp_Port row) ||
         negb (isLowerHex64 (fp_ArgvSHA256 row))
      then Some ErrInvalidSupervisorFrozenPort
      else if match prev with Some p => negb (supervisorFrozenPortLess p row) | None => false end
      then Some ErrUnsortedSupervisorFrozenPorts
      else validate_rows (Some row) rest
  end.
Definition ValidateSupervisorFrozenPorts (rows : list SupervisorFrozenPort) : option error :=
  validate_rows None rows.

Section Capture.
  (** The manifest store, and the hex SHA-256 of the JSON argument vector. *)
  Context (resolve : string -> string -> res daemonPortResolution).
  Context (argv_sha256 : list string -> string).

  (** The loop of [captureSupervisorIntentPorts] for an original snapshot
      ([current = false]). *)
Fixpoint capture_loop (ds : list SupervisorDaemon) : res (list SupervisorFrozenPort) :=
    match ds with
    | [] => Ok []
    | d :: rest =>
        if is_blank (sd_TaskName d) || is_blank (sd_Command d)
        then Err (errors_New "original daemon requires task_name and command")
        else
          match classifyEffectiveDaemonPort d resolve true with
          | Err e => Err (wrapf "original daemon" e)
          | Ok r =>
              if dp_portless r then capture_loop rest
              else
                let? rows := capture_loop rest in
                Ok (mkFrozenPort (sd_TaskName d) (dp_port r) (argv_sha256 (sd_Command d :: sd_Args d)) :: rows)
          end
    end.

Definition captureSupervisorIntentPorts (ds : option (list SupervisorDaemon)) : res (list SupervisorFrozenPort) :=
    match ds with
    | None => Err (errors_New "original supervisor intent requires a nonnull daemons array")
    | Some ds =>
        let? rows := capture_loop ds in
        let rows := CanonicalSupervisorFrozenPorts rows in
        match ValidateSupervisorFrozenPorts rows with
        | Some e => Err e
        | None => Ok rows
        end
    end.
End Capture.

(** ** Lemmas *)

Lemma digits_value_pretty x : forall s,
  (0 <= x)%N -> digits_value 0 (pretty_N_go x s) = digits_value (Z.of_N x) s.
Proof.
  induction (N.lt_wf_0 x) as [x _ IH]. intros s _.
  destruct (decide (0 < x)%N) as [Hx|Hx].
  - rewrite pretty_N_go_step by done.
    rewrite IH by (apply N.div_lt || apply N.le_0_l; lia). 
    cbn [digits_value].
    assert (x `mod` 10 < 10)%N as Hm by (apply N.mod_lt; lia).
    assert (digit_of (pretty_N_char (x `mod` 10)) = Some (Z.of_N (x `mod` 10))) as ->.
    { generalize dependent (x `mod` 10)%N. intros n Hn.
      destruct n as [|q]; [done|]. do 4 (try destruct q as [q|q|]; try done; try lia). }
    f_equal. rewrite N2Z.inj_div, N2Z.inj_mod. pose proof (Z.div_mod (Z.of_N x) 10). lia.
  - assert (x = 0%N) as -> by lia. by rewrite pretty_N_go_0.
Qed.

(** A numeral of digits only, in the int64 range, is read as its value. *)
Lemma Atoi_digits s v :
  s <> "" -> digits_value 0 s = Some v -> - 2 ^ 63 <= v <= 2 ^ 63 - 1 -> Atoi s = Some v.
Proof.
  intros Hne Hd Hr. unfold Atoi.
  assert (match s with
           | String "-" s' => Z.opp <$> unsigned_digits s'
           | String "+" s' => unsigned_digits s'
           | _ => unsigned_digits s
           end = Some v) as ->.
  { destruct s as [|a s]; [done|]. rewrite <- Hd.
    destruct a as [[] [] [] [] [] [] [] []]; try reflexivity; discriminate Hd. }
  case_match eqn:E; [done|]. breflect. lia.
Qed.

Lemma digits_value_Itoa z : 0 < z -> digits_value 0 (Itoa z) = Some z.
Proof.
  intros Hz. destruct z as [|p|p]; try lia. 
  change (Itoa (Zpos p)) with (if decide (Npos p = 0)%N then "0" else pretty_N_go (Npos p) "").
  rewrite decide_False by done. by rewrite digits_value_pretty.
Qed.

Lemma Atoi_Itoa z : 0 < z <= 2 ^ 63 - 1 -> Atoi (Itoa z) = Some z.
Proof.
  intros Hz. apply Atoi_digits; [|apply digits_value_Itoa; lia|lia].
  intros E. pose proof (digits_value_Itoa z ltac:(lia)) as H. rewrite E in H. injection H. lia.
Qed.

(** Once the complete scan has seen the operand, it accepts no further one. *)
Lemma arg_port_complete_seen args p q b :
  arg_port_loop true args p true = Ok (q, b) -> q = p /\ b = true.
Proof.
  induction args as [|a args IH]; simpl; [by intros [= <- <-]|].
  repeat case_match; try discriminate; exact IH.
Qed.

(** A complete scan that succeeds found either nothing, or the same single
    operand the legacy scan returns, in range. *)
Lemma arg_port_complete_legacy args q b :
  arg_port_loop true args 0 false = Ok (q, b) ->
  (q = 0 /\ b = false \/ 1 <= q <= 65535 /\ b = true) /\ arg_port_loop false args 0 false = Ok (q, b).
Proof.
  induction args as [|a args IH]; simpl; [intros [= <- <-]; eauto|].
  case_match; [done|]. case_match; [|exact IH].
  destruct args as [|v args']; [done|].
  destruct (Atoi v) as [p|] eqn:Ha; [|done].
  destruct ((p <? 1) || (65535 <? p)) eqn:Hr; [done|]. breflect.
  assert (0 <? p = true) as -> by (apply Z.ltb_lt; lia).
  intros [-> ->]%arg_port_complete_seen. split; [right; split; [lia|done]|done].
Qed.

Lemma descriptorArgPort_complete_legacy d q b :
  descriptorArgPort d true = Ok (q, b) ->
  (q = 0 /\ b = false \/ 1 <= q <= 65535 /\ b = true) /\ descriptorArgPort d false = Ok (q, b).
Proof.
  unfold descriptorArgPort. case_match; [intros [= <- <-]; eauto|]. apply arg_port_complete_legacy.
Qed.

(** The complete and the legacy lookup agree on every port the complete
    one accepts. *)
Lemma classify_complete_legacy d resolve r :
  classifyEffectiveDaemonPort d resolve true = Ok r ->
  dp_portless r = true /\ dp_port r = 0 \/
  1 <= dp_port r <= 65535 /\ classifyEffectiveDaemonPort d resolve false = Ok r.
Proof.
  unfold classifyEffectiveDaemonPort. rewrite let_ok. intros ([]&Hc&H). revert H.
  assert (0 <= sd_Port d <= 65535) as Hp.
  { unfold classify_complete_checks in Hc. case_match eqn:E; [done|]. breflect. lia. }
  destruct (Z.ltb_spec 0 (sd_Port d)).
  { rewrite let_ok. intros (?&_&[= <-]). right. simpl. split; [lia|done]. }
  rewrite let_ok. intros ([q b]&Hq&Hk). destruct (descriptorArgPort_complete_legacy _ _ _ Hq) as [Hr ->].
  simpl in *. destruct (Z.ltb_spec 0 q).
  { injection Hk as <-. right. simpl. split; [lia|done]. }
  case_match; [done|]. revert Hk. unfold classify_from_manifest. case_match; [|done].
  case_match. rewrite let_ok. intros (m&->&Hk). revert Hk.
  destruct (Z.ltb_spec 0 (dp_port m)); simpl.
  - case_match eqn:E; [done|]. intros [= <-]. breflect. right. split; [lia|done].
  - case_match eqn:E; [|done]. intros [= <-]. breflect. left. naive_solver.
Qed.

(** A port the strict capture accepts is in 1..65535 and is the port the
    legacy lookup protects: capture and port protection cannot disagree on
    a descriptor.  (The only other accepted outcome is a manifest that
    declares the daemon portless.) *)
Theorem capture_agrees_with_effectivePort d resolve r :
  classifyEffectiveDaemonPort d (fun s dm =>
    match resolve s dm with
    | None => Err errUnresolvedSupervisorDaemonPort
    | Some (p, dl) => Ok (mkResolution p dl false)
    end) true = Ok r ->
  1 <= dp_port r <= 65535 /\ effectivePort d resolve = Some (dp_port r).
Proof.
  intros H. pose proof H as H'. apply classify_complete_legacy in H' as [[Hp Hz]|[Hr H']].
  - exfalso. revert H. unfold classifyEffectiveDaemonPort. rewrite let_ok. intros (u&_&H). revert H.
    case_match; [rewrite let_ok; intros (?&_&[= <-]); discriminate Hp|].
    rewrite let_ok. intros (pp&_&Hk). revert Hk. case_match; [intros [= <-]; discriminate Hp|].
    case_match; [done|]. unfold classify_from_manifest. case_match; [|done]. case_match.
    rewrite let_ok. intros (m&Hm&Hk). revert Hk. destruct (resolve _ _) as [[]|]; [|done].
    simplify_eq. simpl. repeat case_match; try done; intros [= <-]; try discriminate Hp.
  - split; [done|]. unfold effectivePort. rewrite H'. by assert (dp_port r <=? 0 = false) as -> by (apply Z.leb_gt; lia).
Qed.

(** How a struct field and its launch argument fix one identity token. *)
Definition token_is (field arg v : string) : Prop :=
  (field = "" \/ field = v) /\ (arg = "" \/ arg = v) /\ (field = v \/ arg = v).

Definition argv_token (flag : string) (d : SupervisorDaemon) : string :=
  if starts_with_daemon d then arg_value flag (sd_Args d) else "".

(** Identity is never mixed.  A descriptor resolves to (server, daemon)
    exactly when both are nonempty and each agrees with the struct field and
    with the launch argument, whichever of the two are present; and a miss is
    reported as corrupt, not as safe for a task-name guess, exactly for a
    global [daemon] command line. *)
Theorem descriptor_identity d s m :
  (DescriptorServerDaemon d = Some (s, m) <->
   s <> "" /\ m <> "" /\
   token_is (sd_Server d) (argv_token "--server" d) s /\
   token_is (sd_Daemon d) (argv_token "--daemon" d) m) /\
  (is_corrupt_identity d = true <->
   DescriptorServerDaemon d = None /\ starts_with_daemon d = true /\ is_proxy d = false).
Proof.
  split.
  - unfold DescriptorServerDaemon, token_is, argv_token.
    set (sa := if starts_with_daemon d then arg_value "--server" _ else "").
    set (da := if starts_with_daemon d then arg_value "--daemon" _ else "").
    clearbody sa da. generalize (sd_Server d) (sd_Daemon d). intros fs fd.
    destruct (String.eqb_spec fs ""), (String.eqb_spec fd ""), (String.eqb_spec sa ""),
      (String.eqb_spec da ""), (String.eqb_spec fs sa), (String.eqb_spec fd da);
      simpl; subst; try done; repeat case_match; breflect; naive_solver.
  - unfold is_corrupt_identity, ResolveDescriptorMatchIdentity, DescriptorHasGlobalDaemonArgv, is_proxy.
    destruct (DescriptorServerDaemon d) as [[]|]; [naive_solver|].
    destruct (starts_with_daemon d), (IsSerenaProxyDescriptor d), (IsWorkspaceLSPProxyDescriptor d); simpl; naive_solver.
Qed.

Lemma rewrite_port_loop_Some args p args' :
  rewrite_port_loop args p = Some args' ->
  exists pre v post, args = pre ++ "--port" :: v :: post /\
    args' = pre ++ "--port" :: Itoa p :: post /\ Forall (fun a => a <> "--port") pre.
Proof.
  revert args'. induction args as [|a [|v args] IH]; intros args'; simpl; try done.
  case_match eqn:E; breflect.
  - intros [= <-]. subst. by exists [], v, args.
  - intros (l&Hl&->)%fmap_Some. destruct (IH _ Hl) as (pre&w&post&Hargs&->&Hp).
    exists (a :: pre), w, post. rewrite Hargs. split_and!; [done..|by constructor].
Qed.

Lemma arg_port_loop_skip pre rest port present :
  Forall (fun a => a <> "--port") pre ->
  arg_port_loop false (pre ++ rest) port present = arg_port_loop false rest port present.
Proof.
  induction 1 as [|a pre Ha _ IH]; simpl; [done|].
  by rewrite (proj2 (str_eqb_false a "--port") Ha).
Qed.

(** Moving a descriptor's port rewrites the operand the legacy scan reads. *)
Lemma apply_realloc_argPort d p d' :
  applyReallocatedPortToDescriptor d p = Some d' -> p <= 2 ^ 63 - 1 ->
  0 < p /\ sd_Port d' = p /\ is_proxy d' = is_proxy d /\
  (is_proxy d = true -> descriptorArgPort d' false = Ok (p, true)).
Proof.
  unfold applyReallocatedPortToDescriptor, rewriteDescriptorPortArg. intros H Hmax.
  case_match eqn:Hp; [done|]. breflect.
  apply bind_Some in H as (args&(rest&Hrest&->)%fmap_Some&[= <-]). simpl.
  destruct (sd_Args d) as [|a0 [|a1 l]] eqn:Hargs; [done..|]. simpl in *.
  assert (forall kind d2, sd_Args d2 = a0 :: a1 :: rest -> is_daemon_kind kind d2 = is_daemon_kind kind d) as Hk.
  { intros kind d2 E. unfold is_daemon_kind. by rewrite E, Hargs. }
  unfold is_proxy, descriptorArgPort, IsSerenaProxyDescriptor, IsWorkspaceLSPProxyDescriptor.
  rewrite !(Hk _ (mkDaemon _ _ _ _ _ _ _ _ _ _ _ _ _)) by done. split_and!; [done..|]. intros Hproxy.
  rewrite <- negb_orb, Hproxy. simpl.
  apply rewrite_port_loop_Some in Hrest as (pre&v&post&_&->&Hpre). rewrite drop_0.
  rewrite arg_port_loop_skip by done. simpl.
  rewrite Atoi_Itoa by lia. by assert (0 <? p = true) as -> by by apply Z.ltb_lt.
Qed.

Lemma realloc_first_Some ds k p ds' :
  realloc_first ds k p = Some ds' ->
  exists pre d d' post, ds = pre ++ d :: post /\ ds' = pre ++ d' :: post /\
    Forall (fun x => canonicalIntentTaskKey (sd_TaskName x) <> k) pre /\
    canonicalIntentTaskKey (sd_TaskName d) = k /\ applyReallocatedPortToDescriptor d p = Some d'.
Proof.
  revert ds'. induction ds as [|d ds IH]; intros ds'; simpl; [done|].
  case_match eqn:E; breflect.
  - intros (d'&Hd&[= <-])%bind_Some. by exists [], d, d', ds.
  - intros (l&Hl&->)%fmap_Some. destruct (IH _ Hl) as (pre&x&x'&post&->&->&Hp&Hx&Hx').
    exists (d :: pre), x, x', post. split_and!; try done. by constructor.
Qed.

(** The targeted cache patch of a reallocation moves exactly the first
    descriptor of the task and nothing else, and moves it consistently: the
    effective port, the proxy's [--port] operand and, for a materialised
    child, both ports of the runtime spec (upstream = external + 10000). *)
Theorem reallocated_port_consistent f t p f' resolve :
  CloneIntentWithReallocatedPort (Some f) t p = Some f' ->
  p <= 2 ^ 63 - 1 ->
  exists pre d d' post,
    si_Daemons f = pre ++ d :: post /\ f' = (f <| si_Daemons := pre ++ d' :: post |>) /\
    Forall (fun x => canonicalIntentTaskKey (sd_TaskName x) <> canonicalIntentTaskKey t) pre /\
    canonicalIntentTaskKey (sd_TaskName d) = canonicalIntentTaskKey t /\
    sd_TaskName d' = sd_TaskName d /\ sd_Command d' = sd_Command d /\
    effectivePort d' resolve = Some p /\
    (is_proxy d = true -> descriptorArgPort d' false = Ok (p, true)) /\
    (forall rs, sd_RuntimeSpec d' = Some rs -> rs_ExternalPort rs = p /\ rs_UpstreamPort rs = p + 10000).
Proof.
  unfold CloneIntentWithReallocatedPort. case_match; [done|]. intros H' Hmax.
  apply bind_Some in H' as (ds&Hds&[= <-]).
  apply realloc_first_Some in Hds as (pre&d&d'&post&->&->&Hpre&Hd&Ha).
  pose proof (apply_realloc_argPort _ _ _ Ha Hmax) as (Hpos&Hport&_&Harg).
  exists pre, d, d', post. split; [done|]. split; [done|].
  unfold applyReallocatedPortToDescriptor in Ha. rewrite H in Ha.
  apply bind_Some in Ha as (args&_&[= <-]). split_and!; try done.
  - unfold effectivePort, classifyEffectiveDaemonPort. simpl.
    assert (0 <? p = true) as -> by by apply Z.ltb_lt. simpl.
    by assert (p <=? 0 = false) as -> by by apply Z.leb_gt.
  - simpl. intros rs (r&_&->)%fmap_Some. done.
Qed.

(** ** Capture *)
Lemma frozen_less_le l r : supervisorFrozenPortLess l r = true -> frozen_le l r.
Proof.
  unfold frozen_le, supervisorFrozenPortLess.
  rewrite (String.eqb_sym (fp_TaskName r)), (Z.eqb_sym (fp_Port r)).
  repeat case_match; simpl in *; intros Hlt; try (apply Z.ltb_ge; apply Z.ltb_lt in Hlt; lia);
    by apply str_ltb_asym.
Qed.

Lemma frozen_less_trans a b c :
  supervisorFrozenPortLess a b = true -> supervisorFrozenPortLess b c = true ->
  supervisorFrozenPortLess a c = true.
Proof.
  unfold supervisorFrozenPortLess. destruct a as [ta pa ha], b as [tb pb hb], c as [tc pc hc]; simpl.
  destruct (String.eqb_spec ta tb), (String.eqb_spec tb tc), (String.eqb_spec ta tc); simpl; subst; try done;
    try (intros A B; pose proof (str_ltb_trans _ _ _ A B) as C; try rewrite str_ltb_irrefl in C; done).
  destruct (Z.eqb_spec pa pb), (Z.eqb_spec pb pc), (Z.eqb_spec pa pc); simpl; subst; try done;
    rewrite ?Z.ltb_lt; try lia. apply str_ltb_trans.
Qed.

Definition frozen_row_ok (r : SupervisorFrozenPort) : Prop :=
  is_blank (fp_TaskName r) = false /\ 1 <= fp_Port r <= 65535 /\ isLowerHex64 (fp_ArgvSHA256 r) = true.
Definition frozen_lt (a b : SupervisorFrozenPort) : Prop := supervisorFrozenPortLess a b = true.
#[global] Instance frozen_lt_trans : Transitive frozen_lt.
Proof. intros a b c. apply frozen_less_trans. Qed.

Lemma validate_rows_spec prev rows :
  validate_rows prev rows = None <->
  Forall frozen_row_ok rows /\ Sorted frozen_lt (option_list prev ++ rows) .
Proof.
  revert prev. induction rows as [|r rows IH]; intros prev; simpl.
  { rewrite app_nil_r. destruct prev; simpl; naive_solver (repeat constructor). }
  assert (is_blank (fp_TaskName r) || (fp_Port r <? 1) || (65535 <? fp_Port r) ||
    negb (isLowerHex64 (fp_ArgvSHA256 r)) = false <-> frozen_row_ok r) as Hrow.
  { unfold frozen_row_ok. breflect. naive_solver lia. }
  destruct (is_blank _ || _ || _ || _).
  { split; [done|]. intros [Hf _]. apply Forall_cons in Hf as [Hf _]. by apply Hrow in Hf. }
  destruct prev as [p|]; simpl.
  - destruct (supervisorFrozenPortLess p r) eqn:E; simpl.
    + rewrite IH, Forall_cons. simpl. split.
      * intros [? ?]. split; [naive_solver|]. constructor; [done|]. by constructor.
      * intros [[_ ?] Hs]. split; [done|]. by inversion Hs.
    + split; [done|]. intros [_ Hs]. inversion Hs as [|?? ? Hh]; subst. inversion Hh. unfold frozen_lt in *. congruence.
  - rewrite IH, Forall_cons. simpl. naive_solver.
Qed.

(** What one descriptor contributes to a capture. *)
Definition frozen_row resolve (sha : list string -> string) (d : SupervisorDaemon) (row : SupervisorFrozenPort) : Prop :=
  exists r, classifyEffectiveDaemonPort d resolve true = Ok r /\ dp_portless r = false /\
    row = mkFrozenPort (sd_TaskName d) (dp_port r) (sha (sd_Command d :: sd_Args d)).

Lemma capture_loop_spec resolve sha ds rows :
  capture_loop resolve sha ds = Ok rows ->
  (forall row, row ∈ rows <-> exists d, d ∈ ds /\ frozen_row resolve sha d row) /\
  Forall (fun d => exists r, classifyEffectiveDaemonPort d resolve true = Ok r) ds.
Proof.
  revert rows. induction ds as [|d ds IH]; intros rows; simpl.
  { intros [= <-]. split; [|constructor]. set_solver. }
  case_match; [done|]. destruct (classifyEffectiveDaemonPort d resolve true) as [r|] eqn:Hr; [|done].
  assert (forall l row, (exists d0, d0 ∈ d :: l /\ frozen_row resolve sha d0 row) <->
    (dp_portless r = false /\ row = mkFrozenPort (sd_TaskName d) (dp_port r) (sha (sd_Command d :: sd_Args d))) \/
    exists d0, d0 ∈ l /\ frozen_row resolve sha d0 row) as Hcons.
  { intros l row. setoid_rewrite elem_of_cons. unfold frozen_row. split.
    - intros (d0&[->|Hin]&r0&E&?&?); [rewrite Hr in E; injection E as <-; by left|right; eauto 10].
    - intros [[? ?]|(d0&?&?)]; eauto 10. }
  setoid_rewrite Hcons. destruct (dp_portless r).
  - intros Hk. destruct (IH _ Hk) as [HI HF]. split; [|constructor; eauto].
    intros row. rewrite HI. naive_solver.
  - rewrite let_ok. intros (rows'&Hk&[= <-]). destruct (IH _ Hk) as [HI HF].
    split; [|constructor; eauto]. intros row. rewrite elem_of_cons, HI. naive_solver.
Qed.

(** A capture that succeeds is complete and canonical: every descriptor
    of the snapshot was classified, the rows are exactly those of the
    descriptors not positively declared portless, each row is valid, and the
    rows are strictly increasing (so without duplicates). *)
Theorem capture_complete_canonical resolve sha ds rows :
  captureSupervisorIntentPorts resolve sha (Some ds) = Ok rows ->
  (forall row, row ∈ rows <-> exists d, d ∈ ds /\ frozen_row resolve sha d row) /\
  Forall (fun d => exists r, classifyEffectiveDaemonPort d resolve true = Ok r) ds /\
  Forall frozen_row_ok rows /\ StronglySorted frozen_lt rows.
Proof.
  unfold captureSupervisorIntentPorts. rewrite let_ok. intros (rows0&Hl&Hv).
  apply capture_loop_spec in Hl as [HI HF].
  destruct (ValidateSupervisorFrozenPorts _) eqn:E; [done|]. injection Hv as <-.
  apply validate_rows_spec in E as [Hok Hs]. split_and!; try done.
  - intros row. rewrite <- HI. unfold CanonicalSupervisorFrozenPorts. by rewrite merge_sort_Permutation.
  - by apply Sorted_StronglySorted; [apply _|].
Qed.

(** ** Witnesses *)
Definition proxy_example (port : Z) (arg : string) : SupervisorDaemon :=
  mkDaemon None (bs "mcp-local-hub-serena-0a1b") "serena" "" "mcphub"
    ["daemon"; "serena-proxy"; "--task-name"; "x"; "--port"; arg] "" ∅ "" port "" 0
    (Some (mkRuntimeSpec None 1 "uvx" [] ∅ 19150 9150 "")).
Definition no_manifest : manifestPortDeadlineResolveFn := fun _ _ => None.

Lemma capture_agrees_witness : effectivePort (proxy_example 0 "9150") no_manifest = Some 9150.
Proof.
  exact (proj2 (capture_agrees_with_effectivePort (proxy_example 0 "9150") no_manifest
    (mkResolution 9150 0 false) eq_refl)).
Defined.

Definition pool_example : SupervisorIntentFile :=
  mkIntentFile 1 1 "" [proxy_example 9150 "9150"] [] false "" ∅ ∅.

Definition moved_example : SupervisorIntentFile :=
  default pool_example (CloneIntentWithReallocatedPort (Some pool_example) "mcp-local-hub-serena-0a1b" 9163).

Lemma reallocated_port_witness :
  exists pre d d' post, si_Daemons pool_example = pre ++ d :: post /\
    si_Daemons moved_example = pre ++ d' :: post /\ effectivePort d' no_manifest = Some 9163.
Proof.
  destruct (reallocated_port_consistent pool_example "mcp-local-hub-serena-0a1b" 9163 moved_example
    no_manifest ltac:(vm_compute; reflexivity) ltac:(lia)) as (pre&d&d'&post&H1&H2&_&_&_&_&H3&_).
  exists pre, d, d', post. split_and!; [done| |done]. by rewrite H2.
Defined.

Definition hex_zero : string := "0000000000000000000000000000000000000000000000000000000000000000".

Lemma capture_complete_witness :
  exists rows, captureSupervisorIntentPorts (fun _ _ => Err errUnresolvedSupervisorDaemonPort) (fun _ => hex_zero)
    (Some [proxy_example 9150 "9150"]) = Ok rows /\ StronglySorted frozen_lt rows /\ rows <> [].
Proof.
  eexists. split; [vm_compute; reflexivity|]. split; [|done].
  apply (capture_complete_canonical (fun _ _ => Err errUnresolvedSupervisorDaemonPort) (fun _ => hex_zero)
    [proxy_example 9150 "9150"]). vm_compute. reflexivity.
Defined.
