(* ===== verification/StateFile.v ===== *)
(** * The durable state: [supervisor-state.json]

    The data and the read-modify-write discipline of
    [api/supervisor_state.go].  The JSON encoding is abstracted: a file on
    disk is the record it decodes to.  SHA-256 of a JSON rendering is the
    interface [Digest]; the only law ever asked of it is that it separates
    different inputs ([DigestLaws]). *)
From S2P Require Import Prelude GoTime.
Open Scope Z_scope.

(** ** Data *)
Record StopSettlementReceiptV1 := mkReceipt {
  sr_Version : Z;
  sr_BatchID : string;
  sr_TaskName : string;
  sr_Epoch : Z;
  sr_PID : Z;
  sr_StartedAt : string;
  sr_PIDGeneration : Z;
  sr_BatchIndex : Z;
  sr_Mode : string;
  sr_Port : Z;
  sr_Revision : Z;
  sr_Attempt : Z;
  sr_Phase : string;
  sr_FailureClass : string;
  sr_FailureDetail : string;
  sr_ResumePhase : string;
  sr_OperationID : string;
}.
#[global] Instance receipt_eq_dec : EqDecision StopSettlementReceiptV1.
Proof. solve_decision. Defined.

#[global] Instance set_sr_Mode : Setter sr_Mode := fun f r => mkReceipt (sr_Version r) (sr_BatchID r) (sr_TaskName r) (sr_Epoch r) (sr_PID r) (sr_StartedAt r) (sr_PIDGeneration r) (sr_BatchIndex r) (f (sr_Mode r)) (sr_Port r) (sr_Revision r) (sr_Attempt r) (sr_Phase r) (sr_FailureClass r) (sr_FailureDetail r) (sr_ResumePhase r) (sr_OperationID r).
#[global] Instance set_sr_Revision : Setter sr_Revision := fun f r => mkReceipt (sr_Version r) (sr_BatchID r) (sr_TaskName r) (sr_Epoch r) (sr_PID r) (sr_StartedAt r) (sr_PIDGeneration r) (sr_BatchIndex r) (sr_Mode r) (sr_Port r) (f (sr_Revision r)) (sr_Attempt r) (sr_Phase r) (sr_FailureClass r) (sr_FailureDetail r) (sr_ResumePhase r) (sr_OperationID r).
#[global] Instance set_sr_Attempt : Setter sr_Attempt := fun f r => mkReceipt (sr_Version r) (sr_BatchID r) (sr_TaskName r) (sr_Epoch r) (sr_PID r) (sr_StartedAt r) (sr_PIDGeneration r) (sr_BatchIndex r) (sr_Mode r) (sr_Port r) (sr_Revision r) (f (sr_Attempt r)) (sr_Phase r) (sr_FailureClass r) (sr_FailureDetail r) (sr_ResumePhase r) (sr_OperationID r).
#[global] Instance set_sr_Phase : Setter sr_Phase := fun f r => mkReceipt (sr_Version r) (sr_BatchID r) (sr_TaskName r) (sr_Epoch r) (sr_PID r) (sr_StartedAt r) (sr_PIDGeneration r) (sr_BatchIndex r) (sr_Mode r) (sr_Port r) (sr_Revision r) (sr_Attempt r) (f (sr_Phase r)) (sr_FailureClass r) (sr_FailureDetail r) (sr_ResumePhase r) (sr_OperationID r).
#[global] Instance set_sr_FailureClass : Setter sr_FailureClass := fun f r => mkReceipt (sr_Version r) (sr_BatchID r) (sr_TaskName r) (sr_Epoch r) (sr_PID r) (sr_StartedAt r) (sr_PIDGeneration r) (sr_BatchIndex r) (sr_Mode r) (sr_Port r) (sr_Revision r) (sr_Attempt r) (sr_Phase r) (f (sr_FailureClass r)) (sr_FailureDetail r) (sr_ResumePhase r) (sr_OperationID r).
#[global] Instance set_sr_FailureDetail : Setter sr_FailureDetail := fun f r => mkReceipt (sr_Version r) (sr_BatchID r) (sr_TaskName r) (sr_Epoch r) (sr_PID r) (sr_StartedAt r) (sr_PIDGeneration r) (sr_BatchIndex r) (sr_Mode r) (sr_Port r) (sr_Revision r) (sr_Attempt r) (sr_Phase r) (sr_FailureClass r) (f (sr_FailureDetail r)) (sr_ResumePhase r) (sr_OperationID r).
#[global] Instance set_sr_ResumePhase : Setter sr_ResumePhase := fun f r => mkReceipt (sr_Version r) (sr_BatchID r) (sr_TaskName r) (sr_Epoch r) (sr_PID r) (sr_StartedAt r) (sr_PIDGeneration r) (sr_BatchIndex r) (sr_Mode r) (sr_Port r) (sr_Revision r) (sr_Attempt r) (sr_Phase r) (sr_FailureClass r) (sr_FailureDetail r) (f (sr_ResumePhase r)) (sr_OperationID r).

Record SupervisorDaemonState := mkDaemonState {
  ds_State : string;
  ds_CurrentPID : Z;
  ds_PIDGeneration : Z;
  ds_StartedAt : string;
  ds_OrphanPID : Z;
  ds_JobProtection : option bool;
  ds_SpawnHoldReason : string;
  ds_SpawnHoldPath : string;
}.

Record TransientPID := mkTransientPID { tp_PID : Z; tp_Kind : string; tp_StartedAt : string }.

Record SupervisorStateFile := mkStateFile {
  sf_Version : Z;
  sf_Daemons : gmap string SupervisorDaemonState;
  sf_TransientPIDs : list TransientPID;
  sf_MaintenanceFiredAt : gmap string string;
  sf_StopSettlementEpoch : Z;
  sf_StopSettlementMapGeneration : Z;
  sf_StopSettlementDigest : string;
  sf_StopSettlements : gmap string StopSettlementReceiptV1;
}.

#[global] Instance set_sf_Version : Setter sf_Version := fun f r => mkStateFile (f (sf_Version r)) (sf_Daemons r) (sf_TransientPIDs r) (sf_MaintenanceFiredAt r) (sf_StopSettlementEpoch r) (sf_StopSettlementMapGeneration r) (sf_StopSettlementDigest r) (sf_StopSettlements r).
#[global] Instance set_sf_Daemons : Setter sf_Daemons := fun f r => mkStateFile (sf_Version r) (f (sf_Daemons r)) (sf_TransientPIDs r) (sf_MaintenanceFiredAt r) (sf_StopSettlementEpoch r) (sf_StopSettlementMapGeneration r) (sf_StopSettlementDigest r) (sf_StopSettlements r).
#[global] Instance set_sf_TransientPIDs : Setter sf_TransientPIDs := fun f r => mkStateFile (sf_Version r) (sf_Daemons r) (f (sf_TransientPIDs r)) (sf_MaintenanceFiredAt r) (sf_StopSettlementEpoch r) (sf_StopSettlementMapGeneration r) (sf_StopSettlementDigest r) (sf_StopSettlements r).
#[global] Instance set_sf_MaintenanceFiredAt : Setter sf_MaintenanceFiredAt := fun f r => mkStateFile (sf_Version r) (sf_Daemons r) (sf_TransientPIDs r) (f (sf_MaintenanceFiredAt r)) (sf_StopSettlementEpoch r) (sf_StopSettlementMapGeneration r) (sf_StopSettlementDigest r) (sf_StopSettlements r).
#[global] Instance set_sf_StopSettlementEpoch : Setter sf_StopSettlementEpoch := fun f r => mkStateFile (sf_Version r) (sf_Daemons r) (sf_TransientPIDs r) (sf_MaintenanceFiredAt r) (f (sf_StopSettlementEpoch r)) (sf_StopSettlementMapGeneration r) (sf_StopSettlementDigest r) (sf_StopSettlements r).
#[global] Instance set_sf_StopSettlementMapGeneration : Setter sf_StopSettlementMapGeneration := fun f r => mkStateFile (sf_Version r) (sf_Daemons r) (sf_TransientPIDs r) (sf_MaintenanceFiredAt r) (sf_StopSettlementEpoch r) (f (sf_StopSettlementMapGeneration r)) (sf_StopSettlementDigest r) (sf_StopSettlements r).
#[global] Instance set_sf_StopSettlementDigest : Setter sf_StopSettlementDigest := fun f r => mkStateFile (sf_Version r) (sf_Daemons r) (sf_TransientPIDs r) (sf_MaintenanceFiredAt r) (sf_StopSettlementEpoch r) (sf_StopSettlementMapGeneration r) (f (sf_StopSettlementDigest r)) (sf_StopSettlements r).
#[global] Instance set_sf_StopSettlements : Setter sf_StopSettlements := fun f r => mkStateFile (sf_Version r) (sf_Daemons r) (sf_TransientPIDs r) (sf_MaintenanceFiredAt r) (sf_StopSettlementEpoch r) (sf_StopSettlementMapGeneration r) (sf_StopSettlementDigest r) (f (sf_StopSettlements r)).

Definition StopSettlementPhaseStopRequested : string := "stop_requested".
Definition StopSettlementPhaseExitObserved : string := "exit_observed".
Definition StopSettlementPhasePortReleased : string := "port_released".
Definition StopSettlementPhaseFailed : string := "failed".

(** [StopSettlementFailureClass.Valid] *)
Definition FailureClass_Valid (c : string) : bool :=
  existsb (String.eqb c)
    ["process_alive"; "listener_alive"; "identity_unverified"; "settlement_timeout";
     "settlement_cancelled"; "runtime_generation_replaced"; "termination_failed"; "persistence_failed"].

(** ** Digests *)
Class Digest := {
  (** [StopSettlementReceiptDigest] *)
  receipt_digest : StopSettlementReceiptV1 -> string;
  (** [StopSettlementMapDigest] *)
  map_digest : Z -> Z -> gmap string StopSettlementReceiptV1 -> string;
}.

(** Collision resistance, and the shape of a hexadecimal SHA-256 sum. *)
Class DigestLaws `{Digest} := {
  receipt_digest_inj :: Inj (=) (=) receipt_digest;
  map_digest_inj e g m e' g' m' :
    map_digest e g m = map_digest e' g' m' -> e = e' /\ g = g' /\ m = m';
  map_digest_nonempty e g m : map_digest e g m <> "";
}.

(** ** Reading and mutating the file

    [None] is the absent file.  The fate of the I/O of one mutation is an
    input: it fails before the callback runs (mkdir, lock or read), it
    fails without replacing the file, or the file is replaced and the
    writer still reports an error (the check after the rename). *)
Notation state_disk := (option SupervisorStateFile) (only parsing).

Inductive io :=
| io_ok
| io_fail_open (e : error)
| io_fail_write (e : error)
| io_fail_after (e : error).

Definition ErrNotExist : error := sentinel "os.ErrNotExist" "file does not exist".

Definition ReadSupervisorState (i : io) (disk : option SupervisorStateFile) : res SupervisorStateFile :=
  match i, disk with
  | io_fail_open e, _ => Err (wrapf "read" e)
  | _, None => Err (wrapf "read" ErrNotExist)
  | _, Some f => Ok f
  end.

(** Absent maps are empty maps here, so only the version is normalised. *)
Definition normalizeSupervisorStateForMutation (file : SupervisorStateFile) : SupervisorStateFile :=
  if sf_Version file =? 0 then file <| sf_Version := 1 |> else file.

Definition empty_state_file : SupervisorStateFile := mkStateFile 1 ∅ [] ∅ 0 0 "" ∅.

(** [prepareSupervisorStateMutation]; the callback also returns a value
    (what the Go closure captures). *)
Definition prepareSupervisorStateMutation {A} (file : SupervisorStateFile)
    (mutate : SupervisorStateFile -> res (SupervisorStateFile * A)) : res (SupervisorStateFile * A) :=
  let? fa := mutate (normalizeSupervisorStateForMutation file) in
  Ok (normalizeSupervisorStateForMutation (fst fa), snd fa).

Definition MutateSupervisorState {A} (path : string) (i : io) (disk : option SupervisorStateFile)
    (mutate : SupervisorStateFile -> res (SupervisorStateFile * A))
    : res A * option SupervisorStateFile :=
  if is_blank path then (Err (errors_New "empty supervisor state path"), disk)
  else
    match i with
    | io_fail_open e => (Err (wrapf "read existing supervisor state" e), disk)
    | _ =>
        match prepareSupervisorStateMutation (default empty_state_file disk) mutate with
        | Err e => (Err e, disk)
        | Ok (file, a) =>
            match i with
            | io_fail_write e => (Err (wrapf "write state file" e), disk)
            | io_fail_after e => (Err (wrapf "write state file" e), Some file)
            | _ => (Ok a, Some file)
            end
        end
    end.

Lemma Mutate_Ok {A} path i disk (mutate : _ -> res (_ * A)) a disk' :
  MutateSupervisorState path i disk mutate = (Ok a, disk') ->
  is_blank path = false /\ i = io_ok /\
  exists f, mutate (normalizeSupervisorStateForMutation (default empty_state_file disk)) = Ok (f, a) /\
    disk' = Some (normalizeSupervisorStateForMutation f).
Proof.
  unfold MutateSupervisorState, prepareSupervisorStateMutation.
  destruct (is_blank path); [done|].
  destruct i as [|e1|e1|e1], (mutate _) as [[f b]|e2]; simpl; intros E; simplify_eq; eauto.
Qed.

(** A failed mutation leaves the file alone, unless the writer fails after
    replacing it; then the file is what a success would have left. *)
Lemma Mutate_Err {A} path i disk (mutate : _ -> res (_ * A)) e disk' :
  MutateSupervisorState path i disk mutate = (Err e, disk') ->
  disk' = disk \/ ((exists e', i = io_fail_after e') /\ exists a, MutateSupervisorState path io_ok disk mutate = (Ok a, disk')).
Proof.
  unfold MutateSupervisorState, prepareSupervisorStateMutation.
  destruct (is_blank path); [naive_solver|].
  destruct i as [|e1|e1|e1], (mutate _) as [[f b]|e2]; simpl; intros E; simplify_eq; eauto 6.
Qed.

(** An error of a mutation says something, provided its callback's do. *)
Lemma Mutate_Err_text {A} path i disk (mutate : _ -> res (_ * A)) e disk' :
  (forall f e, mutate f = Err e -> is_blank (err_text e) = false) ->
  MutateSupervisorState path i disk mutate = (Err e, disk') -> is_blank (err_text e) = false.
Proof.
  intros Hm. unfold MutateSupervisorState, prepareSupervisorStateMutation.
  destruct (is_blank path); [by intros [= <- <-]|].
  destruct i as [|e1|e1|e1]; try (intros [= <- <-]; by rewrite is_blank_spec);
    destruct (mutate _) as [[f b]|e2] eqn:Em; simpl; intros [= <- <-];
    try (by apply Hm in Em); by rewrite is_blank_spec.
Qed.

Section Fence.
Context `{Digest}.

(** [advanceStopSettlementMapMetadata] (cli/supervisor_runtime_tracker.go) *)
Definition advanceStopSettlementMapMetadata (file : SupervisorStateFile) : res SupervisorStateFile :=
  if sf_StopSettlementMapGeneration file =? u64_max
  then Err (errors_New "stop settlement map generation overflow")
  else
    let file := file <| sf_StopSettlementMapGeneration ::= fun g => u64_add g 1 |> in
    Ok (file <| sf_StopSettlementDigest :=
          map_digest (sf_StopSettlementEpoch file) (sf_StopSettlementMapGeneration file) (sf_StopSettlements file) |>).

Fixpoint is_hex (s : string) : bool :=
  match s with
  | EmptyString => true
  | String a s' =>
      let n := nat_of_ascii a in
      ((Nat.leb 48 n && Nat.leb n 57) || (Nat.leb 97 n && Nat.leb n 102) || (Nat.leb 65 n && Nat.leb n 70)) && is_hex s'
  end.

Definition validateEmptyStopSettlementFence (file : SupervisorStateFile)
    (rows : gmap string StopSettlementReceiptV1) : res unit :=
  let virgin := (sf_StopSettlementEpoch file =? 0) && (sf_StopSettlementMapGeneration file =? 0) &&
                (sf_StopSettlementDigest file =s "") in
  let? _u :=
    (if virgin then Ok tt
     else if (sf_StopSettlementEpoch file =? 0) || (sf_StopSettlementMapGeneration file =? 0)
     then Err (errors_New "invalid stop-settlement fence tuple: established epoch and generation must both be positive")
     else if negb (Nat.eqb (String.length (sf_StopSettlementDigest file)) 64) ||
             negb (sf_StopSettlementDigest file =s to_lower (sf_StopSettlementDigest file))
     then Err (errors_New "invalid stop-settlement fence digest shape")
     else if negb (is_hex (sf_StopSettlementDigest file))
     then Err (errors_New "invalid stop-settlement fence digest encoding")
     else if negb (sf_StopSettlementDigest file =s
                   map_digest (sf_StopSettlementEpoch file) (sf_StopSettlementMapGeneration file) rows)
     then Err (errors_New "invalid stop-settlement fence digest")
     else Ok tt) in
  if negb (bool_decide (rows = ∅)) then Err (errors_New "pending stop settlement remains durable")
  else Ok tt.

(** [WithEmptyStopSettlementFence], once the file lock is held. *)
Definition WithEmptyStopSettlementFence (path : string) (i : io) (disk : option SupervisorStateFile)
    (critical : res unit) : res unit :=
  if is_blank path then Err (errors_New "empty supervisor state path")
  else
    match ReadSupervisorState i disk with
    | Err e => Err (wrapf "read supervisor state under stop-settlement fence" e)
    | Ok file =>
        if negb (sf_Version file =? 1) then Err (errors_New "unsupported supervisor state version")
        else
          let? _u := validateEmptyStopSettlementFence file (sf_StopSettlements file) in
          critical
    end.
End Fence.

(** ** A concrete digest

    An injective rendering, to show that the laws can hold; the production
    digest is SHA-256, for which they are the usual idealisation.  Strings
    are written character by character behind a marker, so that a list of
    strings can be read back. *)
Fixpoint quote (s rest : string) : string :=
  match s with
  | EmptyString => String "0" rest
  | String c s' => String "1" (String c (quote s' rest))
  end.
Fixpoint quote_all (l : list string) : string :=
  match l with [] => EmptyString | s :: l => quote s (quote_all l) end.

Lemma quote_inj s s' r r' : quote s r = quote s' r' -> s = s' /\ r = r'.
Proof.
  revert s'. induction s as [|c s IH]; intros [|c' s'] E; simpl in E; try discriminate.
  - by injection E.
  - injection E as -> E. by destruct (IH _ E) as [-> ->].
Qed.
Lemma quote_all_inj l l' : quote_all l = quote_all l' -> l = l'.
Proof.
  revert l'. induction l as [|s l IH]; intros [|s' l'] E; simpl in E; [done|destruct s'; discriminate E|destruct s; discriminate E|].
  apply quote_inj in E as [-> E]. f_equal. by apply IH.
Qed.

Definition receipt_fields (r : StopSettlementReceiptV1) : list string :=
  [pretty (sr_Version r); sr_BatchID r; sr_TaskName r; pretty (sr_Epoch r); pretty (sr_PID r); sr_StartedAt r;
   pretty (sr_PIDGeneration r); pretty (sr_BatchIndex r); sr_Mode r; pretty (sr_Port r); pretty (sr_Revision r);
   pretty (sr_Attempt r); sr_Phase r; sr_FailureClass r; sr_FailureDetail r; sr_ResumePhase r; sr_OperationID r].
Lemma receipt_fields_inj r r' : receipt_fields r = receipt_fields r' -> r = r'.
Proof.
  destruct r, r'. unfold receipt_fields. simpl. intros E. injection E as E1 -> -> E2 E3 -> E4 E5 -> E6 E7 E8 -> -> -> -> ->.
  by apply (inj pretty) in E1 as ->, E2 as ->, E3 as ->, E4 as ->, E5 as ->, E6 as ->, E7 as ->, E8 as ->.
Qed.

Definition row_fields (kv : string * StopSettlementReceiptV1) : list string := kv.1 :: receipt_fields kv.2.
Lemma rows_fields_inj l l' : concat (map row_fields l) = concat (map row_fields l') -> l = l'.
Proof.
  revert l'. induction l as [|[k r] l IH]; intros [|[k' r'] l'] E; try done.
  change (row_fields (k, r) ++ concat (map row_fields l) = row_fields (k', r') ++ concat (map row_fields l')) in E.
  apply app_inj_1 in E as [E1 E2]; [|done].
  assert (k = k') as -> by (apply (f_equal head) in E1; by injection E1).
  assert (r = r') as -> by (apply receipt_fields_inj; by apply (f_equal tail) in E1).
  f_equal. by apply IH.
Qed.

Definition ideal_digest : Digest := {|
  receipt_digest r := quote_all (receipt_fields r);
  map_digest e g m := quote_all (pretty e :: pretty g :: concat (map row_fields (map_to_list m)));
|}.
Lemma ideal_digest_laws : @DigestLaws ideal_digest.
Proof.
  constructor.
  - intros a b E. apply quote_all_inj in E. by apply receipt_fields_inj.
  - intros e g m e' g' m' E. simpl in E. apply quote_inj in E as [E1 E]. apply quote_inj in E as [E2 E].
    apply quote_all_inj, rows_fields_inj in E. apply (inj pretty) in E1, E2.
    split_and!; [done|done|]. apply map_to_list_inj. by rewrite E.
  - intros e g m. simpl. destruct (pretty e); discriminate.
Qed.
