(* ===== verification/Readiness.v ===== *)
(** * Readiness: the pure reducer of [api/readiness_v1.go]

    An observation of a daemon is reduced to a service state, a stage and
    at most one failure; a set of observations and client bindings to a
    snapshot. *)
From S2P Require Import Prelude GoTime.
Open Scope Z_scope.

(** ** Data *)
Inductive ServiceStateV1 :=
| ServiceStateAbsent | ServiceStateDisabled | ServiceStateStarting | ServiceStateRunning
| ServiceStateDegraded | ServiceStateFailed | ServiceStateStopped.
#[global] Instance ServiceState_eq_dec : EqDecision ServiceStateV1.
Proof. solve_decision. Defined.
Definition service_state_string (s : ServiceStateV1) : string :=
  match s with
  | ServiceStateAbsent => "Absent" | ServiceStateDisabled => "Disabled"
  | ServiceStateStarting => "Starting" | ServiceStateRunning => "Running"
  | ServiceStateDegraded => "Degraded" | ServiceStateFailed => "Failed"
  | ServiceStateStopped => "Stopped"
  end.

Inductive MaterializationStateV1 :=
| MaterializationAbsent | MaterializationIntentOnly | MaterializationStarting | MaterializationReady
| MaterializationDegraded | MaterializationFailed | MaterializationStopped | MaterializationDisabled.

Inductive BindingStateV1 :=
| BindingStateNone | BindingStateHub | BindingStateDirect | BindingStateDisabled
| BindingStateMixed | BindingStateUnreadable.

Inductive ReadinessClassificationV1 :=
| UnhealthyDegraded | InstalledAndBound | InstalledUnbound | ConfiguredDirectCanMigrate
| ClassDisabled | GenuinelyNotInstalled.

(** Stages, policies and routes arrive from other processes: strings. *)
Definition StageIntentAccess : string := "intent_access".
Definition StageSupervisorBootstrap : string := "supervisor_bootstrap".
Definition StageSupervisorIPC : string := "supervisor_ipc".
Definition StageTaskIntent : string := "task_intent".
Definition StageWrapperStart : string := "wrapper_start".
Definition StageUpstreamListener : string := "upstream_listener".
Definition StageMCPInitialize : string := "mcp_initialize".
Definition StageMCPToolsList : string := "mcp_tools_list".
Definition StageClientBinding : string := "client_binding".
Definition StageComplete : string := "complete".
Definition PolicyMCPUpstream : string := "mcp-upstream".
Definition PolicyProcessOnly : string := "process-only".
Definition PolicySyntheticProxy : string := "synthetic-proxy".

Record ReadinessFailureV1 := mkFailure {
  rf_Stage : string; rf_FailureID : string; rf_Retryable : bool; rf_Detail : string;
  rf_TaskName : string; rf_Client : string; rf_Port : Z;
}.

Record DaemonReadinessObservationV1 := mkObservation {
  ob_TaskName : string; ob_Server : string; ob_Daemon : string; ob_Port : Z; ob_PID : Z;
  ob_ProcessState : string;
  ob_CurrentPIDGeneration : Z; ob_ObservedPIDGeneration : Z;
  ob_IntentPresent : bool; ob_IntentRunnable : bool; ob_IntentDisabled : bool; ob_Stopped : bool;
  ob_WrapperStarted : bool; ob_ListenerReady : bool; ob_MCPInitializeReady : bool;
  ob_MCPToolsListReady : bool; ob_DeadlineExceeded : bool;
  ob_Policy : string; ob_Failures : list ReadinessFailureV1;
}.

Record BindingObservationV1 := mkBinding {
  bo_Client : string; bo_Present : bool; bo_Enabled : bool; bo_Disabled : bool;
  bo_Readable : bool; bo_Route : string; bo_ExactHubRoute : bool; bo_Requested : bool;
}.

Record ReadinessRequest := mkRequest {
  rq_Selectors : list string; rq_Bindings : list BindingObservationV1; rq_RequireBinding : bool;
  rq_CanMigrate : bool; rq_Now : time; rq_Observations : list DaemonReadinessObservationV1;
}.

Record DaemonReadinessV1 := mkDaemonReadiness {
  dr_TaskName : string; dr_Server : string; dr_Daemon : string; dr_Port : Z; dr_PID : Z;
  dr_PIDGeneration : Z; dr_ProcessState : string;
  dr_ServiceState : ServiceStateV1; dr_Stage : string; dr_Settled : bool;
  dr_Failure : option ReadinessFailureV1;
}.

Record ReadinessSnapshotV1 := mkSnapshot {
  sn_ObservedAt : time; sn_Settled : bool; sn_Daemons : list DaemonReadinessV1;
  sn_Bindings : list BindingObservationV1; sn_MaterializationState : MaterializationStateV1;
  sn_BindingState : BindingStateV1; sn_Classification : ReadinessClassificationV1;
  sn_PrimaryFailure : option ReadinessFailureV1; sn_Failures : list ReadinessFailureV1;
}.

(** ** Failures *)
Definition readinessStageOrder (stage : string) : Z :=
  if stage =s StageIntentAccess then 1
  else if stage =s StageSupervisorBootstrap then 2
  else if stage =s StageSupervisorIPC then 3
  else if stage =s StageTaskIntent then 4
  else if stage =s StageWrapperStart then 5
  else if stage =s StageUpstreamListener then 6
  else if stage =s StageMCPInitialize then 7
  else if stage =s StageMCPToolsList then 8
  else if stage =s StageClientBinding then 9
  else if stage =s StageComplete then 10
  else 0.

Definition validReadinessStage (stage : string) : bool :=
  (0 <? readinessStageOrder stage) && negb (stage =s StageComplete).

Definition failure_less (l r : ReadinessFailureV1) : bool :=
  let left := readinessStageOrder (rf_Stage l) in
  let right := readinessStageOrder (rf_Stage r) in
  if negb (left =? right) then left <? right
  else if negb (rf_TaskName l =s rf_TaskName r) then str_ltb (rf_TaskName l) (rf_TaskName r)
  else str_ltb (rf_Client l) (rf_Client r).
Definition sortReadinessFailures (fs : list ReadinessFailureV1) : list ReadinessFailureV1 :=
  sort_stable failure_less fs.

(** One accepted failure: the detail is dropped, task and port filled in. *)
Definition safe_failure (o : DaemonReadinessObservationV1) (f : ReadinessFailureV1) : ReadinessFailureV1 :=
  mkFailure (rf_Stage f) (rf_FailureID f) (rf_Retryable f) ""
    (if rf_TaskName f =s "" then ob_TaskName o else rf_TaskName f) (rf_Client f)
    (if rf_Port f =? 0 then ob_Port o else rf_Port f).

Definition safeReadinessFailures (fs : list ReadinessFailureV1) (o : DaemonReadinessObservationV1)
    : list ReadinessFailureV1 :=
  sortReadinessFailures
    (map (safe_failure o)
      (List.filter (fun f => validReadinessStage (rf_Stage f) && negb (rf_FailureID f =s "")) fs)).

(** ** One daemon *)
Definition readiness_row (o : DaemonReadinessObservationV1) (state : ServiceStateV1) (stage : string)
    (settled : bool) (failure : option ReadinessFailureV1) : DaemonReadinessV1 :=
  mkDaemonReadiness (ob_TaskName o) (ob_Server o) (ob_Daemon o) (ob_Port o) (ob_PID o)
    (ob_ObservedPIDGeneration o) (ob_ProcessState o) state stage settled failure.

Definition settleOrDegrade (o : DaemonReadinessObservationV1) (stage failureID : string)
    : DaemonReadinessV1 * list ReadinessFailureV1 :=
  if negb (ob_DeadlineExceeded o) then (readiness_row o ServiceStateStarting stage false None, [])
  else
    let failure := mkFailure stage failureID false "" (ob_TaskName o) "" (ob_Port o) in
    (readiness_row o ServiceStateDegraded stage true (Some failure), [failure]).

(** Failures of these stages mean the daemon itself could not be started. *)
Definition is_startup_stage (stage : string) : bool :=
  (stage =s StageIntentAccess) || (stage =s StageSupervisorBootstrap) ||
  (stage =s StageSupervisorIPC) || (stage =s StageTaskIntent) || (stage =s StageWrapperStart).

Definition reduceDaemonReadinessV1 (o : DaemonReadinessObservationV1)
    : DaemonReadinessV1 * list ReadinessFailureV1 :=
  match safeReadinessFailures (ob_Failures o) o with
  | failure :: rest =>
      let failures := failure :: rest in
      if rf_Retryable failure && negb (ob_DeadlineExceeded o)
      then (readiness_row o ServiceStateStarting (rf_Stage failure) false (Some failure), failures)
      else
        (readiness_row o
           (if is_startup_stage (rf_Stage failure) then ServiceStateFailed else ServiceStateDegraded)
           (rf_Stage failure) true (Some failure), failures)
  | [] =>
      if negb (ob_IntentPresent o)
      then (readiness_row o ServiceStateAbsent StageIntentAccess true None, [])
      else if ob_IntentDisabled o
      then (readiness_row o ServiceStateDisabled StageTaskIntent true None, [])
      else if ob_Stopped o
      then (readiness_row o ServiceStateStopped StageWrapperStart true None, [])
      else if negb (ob_IntentRunnable o)
      then settleOrDegrade o StageTaskIntent "task_intent_missing"
      else if (ob_ObservedPIDGeneration o =? 0) ||
              negb (ob_ObservedPIDGeneration o =? ob_CurrentPIDGeneration o) || negb (ob_WrapperStarted o)
      then settleOrDegrade o StageWrapperStart "wrapper_start_timeout"
      else if ob_Policy o =s PolicySyntheticProxy
      then settleOrDegrade o StageUpstreamListener "synthetic_proxy_not_materialized"
      else if negb (ob_ListenerReady o)
      then settleOrDegrade o StageUpstreamListener "upstream_listener_unbound"
      else if negb (ob_Policy o =s PolicyProcessOnly) && negb (ob_MCPInitializeReady o)
      then settleOrDegrade o StageMCPInitialize "mcp_initialize_failed"
      else if negb (ob_Policy o =s PolicyProcessOnly) && negb (ob_MCPToolsListReady o)
      then settleOrDegrade o StageMCPToolsList "mcp_tools_list_failed"
      else (readiness_row o ServiceStateRunning StageComplete true None, [])
  end.

(** ** A snapshot *)
Definition selectedReadinessObservations (r : ReadinessRequest) : list DaemonReadinessObservationV1 :=
  match rq_Selectors r with
  | [] => rq_Observations r
  | sel => List.filter (fun o => existsb (String.eqb (ob_TaskName o)) sel) (rq_Observations r)
  end.

Definition materializationPrecedence (s : MaterializationStateV1) : Z :=
  match s with
  | MaterializationFailed => 8 | MaterializationDegraded => 7 | MaterializationStarting => 6
  | MaterializationReady => 5 | MaterializationIntentOnly => 4 | MaterializationStopped => 3
  | MaterializationDisabled => 2 | MaterializationAbsent => 1
  end.

Definition materialization_of (d : DaemonReadinessV1) : MaterializationStateV1 :=
  match dr_ServiceState d with
  | ServiceStateRunning => MaterializationReady
  | ServiceStateDegraded => MaterializationDegraded
  | ServiceStateFailed => MaterializationFailed
  | ServiceStateStarting =>
      if dr_Stage d =s StageTaskIntent then MaterializationIntentOnly else MaterializationStarting
  | ServiceStateStopped => MaterializationStopped
  | ServiceStateDisabled => MaterializationDisabled
  | ServiceStateAbsent => MaterializationAbsent
  end.

Definition deriveMaterializationState (ds : list DaemonReadinessV1) : MaterializationStateV1 :=
  foldl (fun state d =>
    let next := materialization_of d in
    if materializationPrecedence state <? materializationPrecedence next then next else state)
    MaterializationAbsent ds.

#[global] Instance BindingState_eq_dec : EqDecision BindingStateV1.
Proof. solve_decision. Defined.

Definition binding_of (b : BindingObservationV1) : BindingStateV1 :=
  if negb (bo_Readable b) then BindingStateUnreadable
  else if bo_Disabled b || negb (bo_Enabled b) then BindingStateDisabled
  else if bo_Route b =s "hub" then BindingStateHub
  else if bo_Route b =s "direct" then BindingStateDirect
  else BindingStateNone.

(** The distinct states other than [none] of the present bindings. *)
Definition deriveBindingState (bs : list BindingObservationV1) : BindingStateV1 :=
  match remove_dups (List.filter (fun s => negb (bool_decide (s = BindingStateNone)))
          (map binding_of (List.filter bo_Present bs))) with
  | [] => BindingStateNone
  | [s] => s
  | _ => BindingStateMixed
  end.

Definition deriveReadinessClassification (m : MaterializationStateV1) (b : BindingStateV1)
    (canMigrate : bool) : ReadinessClassificationV1 :=
  match m with
  | MaterializationStarting | MaterializationDegraded | MaterializationFailed => UnhealthyDegraded
  | MaterializationReady =>
      match b with BindingStateHub | BindingStateMixed => InstalledAndBound | _ => InstalledUnbound end
  | _ =>
      match b with
      | BindingStateDirect | BindingStateMixed =>
          if canMigrate then ConfiguredDirectCanMigrate else GenuinelyNotInstalled
      | BindingStateDisabled => ClassDisabled
      | _ => GenuinelyNotInstalled
      end
  end.

Definition binding_exact (b : BindingObservationV1) : bool :=
  bo_Present b && bo_Readable b && bo_Enabled b && negb (bo_Disabled b) && (bo_Route b =s "hub") && bo_ExactHubRoute b.

Definition readinessSnapshotSettled (primary : option ReadinessFailureV1) (ds : list DaemonReadinessV1)
    (bs : list BindingObservationV1) (requireBinding : bool) : bool :=
  match primary with
  | Some _ => false
  | None =>
      forallb (fun d => bool_decide (dr_ServiceState d = ServiceStateRunning)) ds &&
      (negb requireBinding || forallb (fun b => negb (bo_Requested b) || binding_exact b) bs)
  end.

(** [sort.Slice] leaves rows with equal names in an unspecified order; here
    they keep theirs. *)
Definition ReduceReadinessV1 (r : ReadinessRequest) : ReadinessSnapshotV1 :=
  let bindings := sort_stable (fun a b => str_ltb (bo_Client a) (bo_Client b)) (rq_Bindings r) in
  let reduced := map reduceDaemonReadinessV1 (selectedReadinessObservations r) in
  let daemons := sort_stable (fun a b => str_ltb (dr_TaskName a) (dr_TaskName b)) (map fst reduced) in
  let failures := sortReadinessFailures (concat (map snd reduced)) in
  let primary := head failures in
  let m := deriveMaterializationState daemons in
  let b := deriveBindingState bindings in
  mkSnapshot (rq_Now r) (readinessSnapshotSettled primary daemons bindings (rq_RequireBinding r))
    daemons bindings m b (deriveReadinessClassification m b (rq_CanMigrate r)) primary failures.

(** ** What a settled snapshot means *)

(** The gates of a ready daemon, in the order the reducer checks them. *)
Definition observation_ready (o : DaemonReadinessObservationV1) : Prop :=
  Forall (fun f => validReadinessStage (rf_Stage f) = false \/ rf_FailureID f = "") (ob_Failures o) /\
  ob_IntentPresent o = true /\ ob_IntentDisabled o = false /\ ob_Stopped o = false /\
  ob_IntentRunnable o = true /\ ob_ObservedPIDGeneration o <> 0 /\
  ob_ObservedPIDGeneration o = ob_CurrentPIDGeneration o /\ ob_WrapperStarted o = true /\
  ob_Policy o <> PolicySyntheticProxy /\ ob_ListenerReady o = true /\
  (ob_Policy o <> PolicyProcessOnly -> ob_MCPInitializeReady o = true /\ ob_MCPToolsListReady o = true).

Lemma safe_failures_nil o :
  safeReadinessFailures (ob_Failures o) o = [] <->
  Forall (fun f => validReadinessStage (rf_Stage f) = false \/ rf_FailureID f = "") (ob_Failures o).
Proof.
  unfold safeReadinessFailures, sortReadinessFailures. split.
  - intros H. pose proof (sort_stable_perm failure_less
      (map (safe_failure o) (List.filter (fun f => validReadinessStage (rf_Stage f) && negb (rf_FailureID f =s "")) (ob_Failures o)))) as P.
    rewrite H in P. apply Permutation_nil in P. apply map_eq_nil in P. revert P.
    generalize (ob_Failures o). intros l. induction l as [|f l IH]; simpl; [constructor|].
    case_match eqn:E; [done|]. constructor; [|auto]. breflect. naive_solver.
  - intros H. assert (List.filter (fun f => validReadinessStage (rf_Stage f) && negb (rf_FailureID f =s "")) (ob_Failures o) = []) as ->; [|done].
    induction H as [|f l Hf _ IH]; simpl; [done|].
    by destruct Hf as [->| ->]; rewrite ?andb_false_r.
Qed.

Lemma settleOrDegrade_not_running o stage id :
  dr_ServiceState (settleOrDegrade o stage id).1 <> ServiceStateRunning.
Proof. unfold settleOrDegrade. by case_match. Qed.

(** A gate that does not hold: the row is not running and the observation
    is not ready. *)
Lemma closed_gate (row : DaemonReadinessV1 * list ReadinessFailureV1) (ready : Prop) :
  dr_ServiceState row.1 <> ServiceStateRunning -> ~ ready ->
  (dr_ServiceState row.1 = ServiceStateRunning <-> ready) /\ (ready -> row.2 = []).
Proof. tauto. Qed.

(** A daemon is reported running exactly when it is ready, and then with no
    failure. *)
Lemma reduce_running o :
  (dr_ServiceState (reduceDaemonReadinessV1 o).1 = ServiceStateRunning <-> observation_ready o) /\
  (observation_ready o -> (reduceDaemonReadinessV1 o).2 = []).
Proof.
  unfold observation_ready. rewrite <- safe_failures_nil. unfold reduceDaemonReadinessV1.
  destruct (safeReadinessFailures (ob_Failures o) o) as [|f fs].
  2: { destruct (_ && _); apply closed_gate; simpl; try done; try by intros [? _]. by destruct (is_startup_stage (rf_Stage f)). }
  repeat (case_match; [apply closed_gate;
    [first [discriminate | apply settleOrDegrade_not_running] | breflect; intuition congruence]|]).
  breflect. split; [split; [intros _|done]|done]. intuition congruence.
Qed.

(** A row that is not running and not failed is still a row; a row with
    failures is never running. *)
Lemma reduce_failures_not_running o :
  (reduceDaemonReadinessV1 o).2 <> [] -> dr_ServiceState (reduceDaemonReadinessV1 o).1 <> ServiceStateRunning.
Proof. intros Hf Hr. apply Hf, reduce_running. by apply reduce_running in Hr. Qed.

(** A readiness snapshot is settled exactly when every selected daemon
    has passed every gate, for the generation that is current, and, if the
    caller requires bindings, every requested client is bound to the exact
    hub route.  In particular no failure of any daemon is ever masked. *)
Theorem readiness_settled_iff r :
  sn_Settled (ReduceReadinessV1 r) = true <->
  Forall observation_ready (selectedReadinessObservations r) /\
  (rq_RequireBinding r = true ->
   Forall (fun b => bo_Requested b = true -> binding_exact b = true) (rq_Bindings r)).
Proof.
  unfold ReduceReadinessV1, readinessSnapshotSettled; simpl.
  set (obs := selectedReadinessObservations r). set (reduced := map reduceDaemonReadinessV1 obs).
  set (daemons := sort_stable _ (map fst reduced)). set (bindings := sort_stable _ (rq_Bindings r)).
  assert (forallb (fun d => bool_decide (dr_ServiceState d = ServiceStateRunning)) daemons = true <->
    Forall observation_ready obs) as Hd.
  { unfold daemons, reduced. rewrite forallb_Forall, sort_stable_Forall, map_map, Forall_map.
    apply Forall_iff. intros o. rewrite bool_decide_eq_true. apply reduce_running. }
  assert (forallb (fun b => negb (bo_Requested b) || binding_exact b) bindings = true <->
    Forall (fun b => bo_Requested b = true -> binding_exact b = true) (rq_Bindings r)) as Hb.
  { unfold bindings. rewrite forallb_Forall, sort_stable_Forall. apply Forall_iff. intros b.
    destruct (bo_Requested b), (binding_exact b); naive_solver. }
  assert (Forall observation_ready obs -> sortReadinessFailures (concat (map snd reduced)) = []) as Hnil.
  { intros H. unfold reduced. rewrite map_map.
    assert (concat (map (fun o => (reduceDaemonReadinessV1 o).2) obs) = []) as ->; [|done].
    clearbody obs. clear -H. induction H as [|o l Ho _ IH]; simpl; [done|].
    by rewrite (proj2 (reduce_running o) Ho), IH. }
  destruct (head (sortReadinessFailures (concat (map snd reduced)))) eqn:E.
  - split; [done|]. intros [H _]. by rewrite (Hnil H) in E.
  - rewrite andb_true_iff, orb_true_iff, negb_true_iff, Hd, Hb. destruct (rq_RequireBinding r); naive_solver.
Qed.

(** Bounded waiting and redaction.  Once the deadline has passed every
    daemon is settled, whatever was observed; and every reported failure
    names a real stage and an identifier and carries no free-form detail. *)
Theorem readiness_deadline_settles o :
  (ob_DeadlineExceeded o = true -> dr_Settled (reduceDaemonReadinessV1 o).1 = true) /\
  Forall (fun f => rf_Detail f = "" /\ rf_FailureID f <> "" /\ validReadinessStage (rf_Stage f) = true)
    (reduceDaemonReadinessV1 o).2.
Proof.
  assert (Forall (fun f => rf_Detail f = "" /\ rf_FailureID f <> "" /\ validReadinessStage (rf_Stage f) = true)
    (safeReadinessFailures (ob_Failures o) o)) as Hs.
  { unfold safeReadinessFailures, sortReadinessFailures. rewrite sort_stable_Forall, Forall_map.
    generalize (ob_Failures o). intros l. induction l as [|f l IH]; simpl; [constructor|].
    case_match eqn:E; [|done]. constructor; [|done]. breflect. simpl. naive_solver. }
  unfold reduceDaemonReadinessV1, settleOrDegrade.
  destruct (safeReadinessFailures (ob_Failures o) o) as [|f fs].
  - destruct (ob_DeadlineExceeded o); simpl; repeat case_match; simpl;
      (split; [done|repeat constructor; done]).
  - destruct (ob_DeadlineExceeded o), (rf_Retryable f); simpl; done.
Qed.
