(* ===== verification/Tracker.v ===== *)
(** * The runtime tracker ([cli/supervisor_runtime_tracker.go])

    [DaemonRuntimeTracker] is the supervisor's memory of every daemon: one
    entry per canonical task name, the crash and reallocation windows, the
    readiness settlements, and the stop-settlement mirror.  Every method
    that takes the tracker's mutex is one atomic function here; the nil
    receiver guards are not modelled.  An absent Go map is the empty map.
    PID generations are Go ints and are kept unbounded. *)
From S2P Require Import Prelude GoTime StateFile Readiness.
Open Scope Z_scope.

Definition daemonRuntimeStateIdle : string := "idle".
Definition daemonRuntimeStateRunning : string := "running".
Definition daemonRuntimeStateBackoff : string := "backoff".
Definition daemonRuntimeStateQuarantine : string := "quarantine".

Record DaemonRuntimeEntry := mkEntry {
  te_State : string;
  te_CurrentPID : Z;
  te_StartedAt : time;
  te_PIDGeneration : Z;
  te_RestartCount : Z;
  te_LastError : string;
  te_OrphanPID : Z;
  te_JobProtection : option bool;
  te_SpawnHoldReason : string;
  te_SpawnHoldPath : string;
  te_ReadinessObservation : option DaemonReadinessObservationV1;
}.
#[global] Instance set_te_State : Setter te_State := fun f r => mkEntry (f (te_State r)) (te_CurrentPID r) (te_StartedAt r) (te_PIDGeneration r) (te_RestartCount r) (te_LastError r) (te_OrphanPID r) (te_JobProtection r) (te_SpawnHoldReason r) (te_SpawnHoldPath r) (te_ReadinessObservation r).
#[global] Instance set_te_CurrentPID : Setter te_CurrentPID := fun f r => mkEntry (te_State r) (f (te_CurrentPID r)) (te_StartedAt r) (te_PIDGeneration r) (te_RestartCount r) (te_LastError r) (te_OrphanPID r) (te_JobProtection r) (te_SpawnHoldReason r) (te_SpawnHoldPath r) (te_ReadinessObservation r).
#[global] Instance set_te_StartedAt : Setter te_StartedAt := fun f r => mkEntry (te_State r) (te_CurrentPID r) (f (te_StartedAt r)) (te_PIDGeneration r) (te_RestartCount r) (te_LastError r) (te_OrphanPID r) (te_JobProtection r) (te_SpawnHoldReason r) (te_SpawnHoldPath r) (te_ReadinessObservation r).
#[global] Instance set_te_PIDGeneration : Setter te_PIDGeneration := fun f r => mkEntry (te_State r) (te_CurrentPID r) (te_StartedAt r) (f (te_PIDGeneration r)) (te_RestartCount r) (te_LastError r) (te_OrphanPID r) (te_JobProtection r) (te_SpawnHoldReason r) (te_SpawnHoldPath r) (te_ReadinessObservation r).
#[global] Instance set_te_RestartCount : Setter te_RestartCount := fun f r => mkEntry (te_State r) (te_CurrentPID r) (te_StartedAt r) (te_PIDGeneration r) (f (te_RestartCount r)) (te_LastError r) (te_OrphanPID r) (te_JobProtection r) (te_SpawnHoldReason r) (te_SpawnHoldPath r) (te_ReadinessObservation r).
#[global] Instance set_te_LastError : Setter te_LastError := fun f r => mkEntry (te_State r) (te_CurrentPID r) (te_StartedAt r) (te_PIDGeneration r) (te_RestartCount r) (f (te_LastError r)) (te_OrphanPID r) (te_JobProtection r) (te_SpawnHoldReason r) (te_SpawnHoldPath r) (te_ReadinessObservation r).
#[global] Instance set_te_OrphanPID : Setter te_OrphanPID := fun f r => mkEntry (te_State r) (te_CurrentPID r) (te_StartedAt r) (te_PIDGeneration r) (te_RestartCount r) (te_LastError r) (f (te_OrphanPID r)) (te_JobProtection r) (te_SpawnHoldReason r) (te_SpawnHoldPath r) (te_ReadinessObservation r).
#[global] Instance set_te_JobProtection : Setter te_JobProtection := fun f r => mkEntry (te_State r) (te_CurrentPID r) (te_StartedAt r) (te_PIDGeneration r) (te_RestartCount r) (te_LastError r) (te_OrphanPID r) (f (te_JobProtection r)) (te_SpawnHoldReason r) (te_SpawnHoldPath r) (te_ReadinessObservation r).
#[global] Instance set_te_SpawnHoldReason : Setter te_SpawnHoldReason := fun f r => mkEntry (te_State r) (te_CurrentPID r) (te_StartedAt r) (te_PIDGeneration r) (te_RestartCount r) (te_LastError r) (te_OrphanPID r) (te_JobProtection r) (f (te_SpawnHoldReason r)) (te_SpawnHoldPath r) (te_ReadinessObservation r).
#[global] Instance set_te_SpawnHoldPath : Setter te_SpawnHoldPath := fun f r => mkEntry (te_State r) (te_CurrentPID r) (te_StartedAt r) (te_PIDGeneration r) (te_RestartCount r) (te_LastError r) (te_OrphanPID r) (te_JobProtection r) (te_SpawnHoldReason r) (f (te_SpawnHoldPath r)) (te_ReadinessObservation r).
#[global] Instance set_te_ReadinessObservation : Setter te_ReadinessObservation := fun f r => mkEntry (te_State r) (te_CurrentPID r) (te_StartedAt r) (te_PIDGeneration r) (te_RestartCount r) (te_LastError r) (te_OrphanPID r) (te_JobProtection r) (te_SpawnHoldReason r) (te_SpawnHoldPath r) (f (te_ReadinessObservation r)).

(** The zero value a Go map lookup returns for an absent task. *)
Definition zero_entry : DaemonRuntimeEntry :=
  mkEntry "" 0 zero_time 0 0 "" 0 None "" "" None.

Record daemonReadinessSettlementTuple := mkTuple {
  st_Generation : Z; st_ServiceState : string; st_Stage : string; st_FailureID : string;
}.
#[global] Instance settlement_tuple_eq_dec : EqDecision daemonReadinessSettlementTuple.
Proof. solve_decision. Defined.

Record lazyProxyReadinessState := mkLazy { lz_Epoch : Z; lz_Transition : string }.

Record DaemonRuntimeTracker := mkTracker {
  t_entries : gmap string DaemonRuntimeEntry;
  t_failures : gmap string (list time);
  t_reallocations : gmap string (list time);
  t_readinessSettlements : gmap string daemonReadinessSettlementTuple;
  t_lazyReadiness : gmap string lazyProxyReadinessState;
  t_stopSettlementEpoch : Z;
  t_stopSettlements : gmap string StopSettlementReceiptV1;
  t_stopSettlementIntegrityErr : string;
  t_ownershipGeneration : Z;
}.
#[global] Instance set_t_entries : Setter t_entries := fun f r => mkTracker (f (t_entries r)) (t_failures r) (t_reallocations r) (t_readinessSettlements r) (t_lazyReadiness r) (t_stopSettlementEpoch r) (t_stopSettlements r) (t_stopSettlementIntegrityErr r) (t_ownershipGeneration r).
#[global] Instance set_t_failures : Setter t_failures := fun f r => mkTracker (t_entries r) (f (t_failures r)) (t_reallocations r) (t_readinessSettlements r) (t_lazyReadiness r) (t_stopSettlementEpoch r) (t_stopSettlements r) (t_stopSettlementIntegrityErr r) (t_ownershipGeneration r).
#[global] Instance set_t_reallocations : Setter t_reallocations := fun f r => mkTracker (t_entries r) (t_failures r) (f (t_reallocations r)) (t_readinessSettlements r) (t_lazyReadiness r) (t_stopSettlementEpoch r) (t_stopSettlements r) (t_stopSettlementIntegrityErr r) (t_ownershipGeneration r).
#[global] Instance set_t_readinessSettlements : Setter t_readinessSettlements := fun f r => mkTracker (t_entries r) (t_failures r) (t_reallocations r) (f (t_readinessSettlements r)) (t_lazyReadiness r) (t_stopSettlementEpoch r) (t_stopSettlements r) (t_stopSettlementIntegrityErr r) (t_ownershipGeneration r).
#[global] Instance set_t_lazyReadiness : Setter t_lazyReadiness := fun f r => mkTracker (t_entries r) (t_failures r) (t_reallocations r) (t_readinessSettlements r) (f (t_lazyReadiness r)) (t_stopSettlementEpoch r) (t_stopSettlements r) (t_stopSettlementIntegrityErr r) (t_ownershipGeneration r).
#[global] Instance set_t_stopSettlementEpoch : Setter t_stopSettlementEpoch := fun f r => mkTracker (t_entries r) (t_failures r) (t_reallocations r) (t_readinessSettlements r) (t_lazyReadiness r) (f (t_stopSettlementEpoch r)) (t_stopSettlements r) (t_stopSettlementIntegrityErr r) (t_ownershipGeneration r).
#[global] Instance set_t_stopSettlements : Setter t_stopSettlements := fun f r => mkTracker (t_entries r) (t_failures r) (t_reallocations r) (t_readinessSettlements r) (t_lazyReadiness r) (t_stopSettlementEpoch r) (f (t_stopSettlements r)) (t_stopSettlementIntegrityErr r) (t_ownershipGeneration r).
#[global] Instance set_t_stopSettlementIntegrityErr : Setter t_stopSettlementIntegrityErr := fun f r => mkTracker (t_entries r) (t_failures r) (t_reallocations r) (t_readinessSettlements r) (t_lazyReadiness r) (t_stopSettlementEpoch r) (t_stopSettlements r) (f (t_stopSettlementIntegrityErr r)) (t_ownershipGeneration r).
#[global] Instance set_t_ownershipGeneration : Setter t_ownershipGeneration := fun f r => mkTracker (t_entries r) (t_failures r) (t_reallocations r) (t_readinessSettlements r) (t_lazyReadiness r) (t_stopSettlementEpoch r) (t_stopSettlements r) (t_stopSettlementIntegrityErr r) (f (t_ownershipGeneration r)).

Definition NewDaemonRuntimeTracker : DaemonRuntimeTracker := mkTracker ∅ ∅ ∅ ∅ ∅ 0 ∅ "" 0.

Definition Generation (t : DaemonRuntimeTracker) : Z := t_ownershipGeneration t.

(** [entry := t.entries[taskName]] *)
Definition entry_at (t : DaemonRuntimeTracker) (taskName : string) : DaemonRuntimeEntry :=
  default zero_entry (t_entries t !! taskName).

(** [t.entries[taskName] = entry] *)
Definition put_entry (taskName : string) (e : DaemonRuntimeEntry) (t : DaemonRuntimeTracker) : DaemonRuntimeTracker :=
  t <| t_entries ::= insert taskName e |>.

(** [setCurrentPIDLocked] on a copied entry: the ownership generation moves
    exactly when the PID does. *)
Definition setCurrentPIDLocked (t : DaemonRuntimeTracker) (e : DaemonRuntimeEntry) (pid : Z)
    : DaemonRuntimeTracker * DaemonRuntimeEntry :=
  (if te_CurrentPID e =? pid then t else t <| t_ownershipGeneration ::= fun g => u64_add g 1 |>,
   e <| te_CurrentPID := pid |>).

(** ** Sliding windows *)
Definition kept_after (cutoff : time) (ts : list time) : list time := List.filter (fun x => After x cutoff) ts.

Definition RecordCrashAndCountInWindow (t : DaemonRuntimeTracker) (taskName : string) (now : time) (window : duration)
    : DaemonRuntimeTracker * Z :=
  let taskName := canonicalSupervisorTaskName taskName in
  let kept := kept_after (now - window) (default [] (t_failures t !! taskName)) ++ [now] in
  (t <| t_failures ::= insert taskName kept |>, Z.of_nat (length kept)).

Definition CrashCountInWindow (t : DaemonRuntimeTracker) (taskName : string) (now : time) (window : duration) : Z :=
  let taskName := canonicalSupervisorTaskName taskName in
  Z.of_nat (length (kept_after (now - window) (default [] (t_failures t !! taskName)))).

Definition ClearCrashes (t : DaemonRuntimeTracker) (taskName : string) : DaemonRuntimeTracker :=
  t <| t_failures ::= delete (canonicalSupervisorTaskName taskName) |>.

Definition RecordReallocationAndCountInWindow (t : DaemonRuntimeTracker) (taskName : string) (now : time) (window : duration)
    : DaemonRuntimeTracker * Z :=
  let taskName := canonicalSupervisorTaskName taskName in
  let kept := kept_after (now - window) (default [] (t_reallocations t !! taskName)) ++ [now] in
  (t <| t_reallocations ::= insert taskName kept |>, Z.of_nat (length kept)).

Definition ReallocationCountInWindow (t : DaemonRuntimeTracker) (taskName : string) (now : time) (window : duration) : Z :=
  let taskName := canonicalSupervisorTaskName taskName in
  Z.of_nat (length (kept_after (now - window) (default [] (t_reallocations t !! taskName)))).

Definition ClearReallocations (t : DaemonRuntimeTracker) (taskName : string) : DaemonRuntimeTracker :=
  t <| t_reallocations ::= delete (canonicalSupervisorTaskName taskName) |>.

(** ** Sidecar fields *)
Definition clearOrphanPIDLocked (e : DaemonRuntimeEntry) : DaemonRuntimeEntry := e <| te_OrphanPID := 0 |>.
Definition clearJobProtectionLocked (e : DaemonRuntimeEntry) : DaemonRuntimeEntry := e <| te_JobProtection := None |>.
Definition clearSpawnHoldLocked (e : DaemonRuntimeEntry) : DaemonRuntimeEntry :=
  e <| te_SpawnHoldReason := "" |> <| te_SpawnHoldPath := "" |>.

Definition MarkJobProtection (t : DaemonRuntimeTracker) (taskName : string) (protected : option bool) : DaemonRuntimeTracker :=
  let taskName := canonicalSupervisorTaskName taskName in
  put_entry taskName (entry_at t taskName <| te_JobProtection := protected |>) t.

Definition MarkSpawnHold (t : DaemonRuntimeTracker) (taskName reasonID path : string) : DaemonRuntimeTracker :=
  let taskName := canonicalSupervisorTaskName taskName in
  put_entry taskName (entry_at t taskName <| te_SpawnHoldReason := reasonID |> <| te_SpawnHoldPath := path |>) t.

Definition ClearSpawnHold (t : DaemonRuntimeTracker) (taskName : string) : DaemonRuntimeTracker * bool :=
  let taskName := canonicalSupervisorTaskName taskName in
  let entry := entry_at t taskName in
  if (te_SpawnHoldReason entry =s "") && (te_SpawnHoldPath entry =s "") then (t, false)
  else (put_entry taskName (clearSpawnHoldLocked entry) t, true).

(** ** Lifecycle marks *)
Definition errorString (err : option error) : string :=
  match err with None => "" | Some e => err_text e end.

(** [if entry.PIDGeneration > 0 { entry.RestartCount++ }] *)
Definition count_restart (e : DaemonRuntimeEntry) : DaemonRuntimeEntry :=
  if 0 <? te_PIDGeneration e then e <| te_RestartCount ::= int_incr |> else e.

Definition drop_lazy (taskName : string) (t : DaemonRuntimeTracker) : DaemonRuntimeTracker :=
  t <| t_lazyReadiness ::= delete taskName |>.

Definition MarkSpawned (t : DaemonRuntimeTracker) (taskName : string) (pid : Z) (startedAt : time)
    : DaemonRuntimeTracker * Z :=
  let taskName := canonicalSupervisorTaskName taskName in
  let entry := count_restart (entry_at t taskName) <| te_State := daemonRuntimeStateRunning |> in
  let '(t, entry) := setCurrentPIDLocked t entry pid in
  let entry := entry <| te_StartedAt := startedAt |> <| te_PIDGeneration ::= int_incr |>
                     <| te_LastError := "" |> <| te_ReadinessObservation := None |> in
  let entry := clearOrphanPIDLocked entry in
  (put_entry taskName entry (drop_lazy taskName t), te_PIDGeneration entry).

Definition MarkSpawnFailed (t : DaemonRuntimeTracker) (taskName : string) (err : option error) : DaemonRuntimeTracker :=
  let taskName := canonicalSupervisorTaskName taskName in
  let entry := count_restart (entry_at t taskName) <| te_State := daemonRuntimeStateBackoff |> in
  let '(t, entry) := setCurrentPIDLocked t entry 0 in
  let entry := entry <| te_StartedAt := zero_time |> <| te_LastError := errorString err |>
                     <| te_ReadinessObservation := None |> in
  let entry := clearSpawnHoldLocked (clearJobProtectionLocked (clearOrphanPIDLocked entry)) in
  put_entry taskName entry (drop_lazy taskName t).

Definition MarkSpawnFailedPreservePID (t : DaemonRuntimeTracker) (taskName : string) (err : option error) (orphanPID : Z)
    : DaemonRuntimeTracker :=
  let taskName := canonicalSupervisorTaskName taskName in
  let entry := count_restart (entry_at t taskName) <| te_State := daemonRuntimeStateBackoff |> in
  let '(t, entry) := setCurrentPIDLocked t entry 0 in
  let entry := entry <| te_OrphanPID := orphanPID |> <| te_StartedAt := zero_time |>
                     <| te_LastError := errorString err |> <| te_ReadinessObservation := None |> in
  let entry := clearSpawnHoldLocked (clearJobProtectionLocked entry) in
  put_entry taskName entry (drop_lazy taskName t).

(** The body [MarkExited] and [MarkExitedIfCurrent] share. *)
Definition exit_entry (t : DaemonRuntimeTracker) (taskName : string) : DaemonRuntimeTracker :=
  let entry := entry_at t taskName <| te_State := daemonRuntimeStateIdle |> in
  let '(t, entry) := setCurrentPIDLocked t entry 0 in
  let entry := entry <| te_StartedAt := zero_time |> <| te_LastError := "" |>
                     <| te_ReadinessObservation := None |> in
  let entry := clearSpawnHoldLocked (clearJobProtectionLocked (clearOrphanPIDLocked entry)) in
  put_entry taskName entry (drop_lazy taskName t).

Definition MarkExited (t : DaemonRuntimeTracker) (taskName : string) : DaemonRuntimeTracker :=
  exit_entry t (canonicalSupervisorTaskName taskName).

Definition MarkExitedIfCurrent (t : DaemonRuntimeTracker) (taskName : string) (pidGeneration : Z)
    : DaemonRuntimeTracker * bool :=
  let taskName := canonicalSupervisorTaskName taskName in
  if pidGeneration <? te_PIDGeneration (entry_at t taskName) then (t, false)
  else (exit_entry t taskName, true).

Definition MarkTerminated (t : DaemonRuntimeTracker) (taskName : string) : DaemonRuntimeTracker := MarkExited t taskName.

Definition MarkBackoff (t : DaemonRuntimeTracker) (taskName : string) : DaemonRuntimeTracker :=
  let taskName := canonicalSupervisorTaskName taskName in
  let entry := entry_at t taskName <| te_State := daemonRuntimeStateBackoff |> in
  let '(t, entry) := setCurrentPIDLocked t entry 0 in
  let entry := entry <| te_StartedAt := zero_time |> <| te_ReadinessObservation := None |> in
  let entry := clearJobProtectionLocked (clearOrphanPIDLocked entry) in
  put_entry taskName entry (drop_lazy taskName t).

Definition MarkQuarantined (t : DaemonRuntimeTracker) (taskName : string) : DaemonRuntimeTracker :=
  let taskName := canonicalSupervisorTaskName taskName in
  let entry := entry_at t taskName <| te_State := daemonRuntimeStateQuarantine |> in
  let '(t, entry) := setCurrentPIDLocked t entry 0 in
  let entry := entry <| te_StartedAt := zero_time |> <| te_ReadinessObservation := None |> in
  let entry := clearSpawnHoldLocked (clearJobProtectionLocked (clearOrphanPIDLocked entry)) in
  put_entry taskName entry (drop_lazy taskName t).

Definition Remove (t : DaemonRuntimeTracker) (taskName : string) : DaemonRuntimeTracker :=
  let taskName := canonicalSupervisorTaskName taskName in
  let t := match t_entries t !! taskName with
           | Some entry =>
               if te_CurrentPID entry =? 0 then t else t <| t_ownershipGeneration ::= fun g => u64_add g 1 |>
           | None => t
           end in
  t <| t_entries ::= delete taskName |> <| t_failures ::= delete taskName |>
    <| t_reallocations ::= delete taskName |> <| t_readinessSettlements ::= delete taskName |>
    <| t_lazyReadiness ::= delete taskName |>.

Definition Get (t : DaemonRuntimeTracker) (taskName : string) : option DaemonRuntimeEntry :=
  t_entries t !! canonicalSupervisorTaskName taskName.

Definition Snapshot (t : DaemonRuntimeTracker) : gmap string DaemonRuntimeEntry := t_entries t.

(** ** Readiness *)

(** The body of the [daemon-readiness-settled-v1] event. *)
Record settled_event := mkSettledEvent {
  se_TaskName : string; se_Warn : bool; se_Tuple : daemonReadinessSettlementTuple;
}.

Definition with_task (o : DaemonReadinessObservationV1) (taskName : string) : DaemonReadinessObservationV1 :=
  mkObservation taskName (ob_Server o) (ob_Daemon o) (ob_Port o) (ob_PID o) (ob_ProcessState o)
    (ob_CurrentPIDGeneration o) (ob_ObservedPIDGeneration o) (ob_IntentPresent o) (ob_IntentRunnable o)
    (ob_IntentDisabled o) (ob_Stopped o) (ob_WrapperStarted o) (ob_ListenerReady o)
    (ob_MCPInitializeReady o) (ob_MCPToolsListReady o) (ob_DeadlineExceeded o) (ob_Policy o) (ob_Failures o).

(** The guard of [markReadinessObservationLocked]: the observation is about
    the process that is running now. *)
Definition observation_current (entry : option DaemonRuntimeEntry) (o : DaemonReadinessObservationV1) : bool :=
  match entry with
  | None => false
  | Some e =>
      negb (ob_ObservedPIDGeneration o =? 0) &&
      (int_of_u64 (ob_ObservedPIDGeneration o) =? te_PIDGeneration e) &&
      (ob_CurrentPIDGeneration o =? ob_ObservedPIDGeneration o) &&
      (0 <? ob_PID o) && (te_CurrentPID e =? ob_PID o) && (te_State e =s daemonRuntimeStateRunning)
  end.

(** The settlement of one observation: the tuple of the reduced row, when
    it is settled. *)
Definition observation_settlement (o : DaemonReadinessObservationV1) : option daemonReadinessSettlementTuple :=
  match sn_Daemons (ReduceReadinessV1 (mkRequest [] [] false false zero_time [o])) with
  | [d] =>
      if dr_Settled d then
        Some (mkTuple (ob_ObservedPIDGeneration o) (service_state_string (dr_ServiceState d)) (dr_Stage d)
          (match dr_Failure d with Some f => rf_FailureID f | None => "" end))
      else None
  | _ => None
  end.

Definition zero_tuple : daemonReadinessSettlementTuple := mkTuple 0 "" "" "".

Definition markReadinessObservationLocked (t : DaemonRuntimeTracker) (taskName : string)
    (o : DaemonReadinessObservationV1) : DaemonRuntimeTracker * bool * option settled_event :=
  let entry := t_entries t !! taskName in
  if negb (observation_current entry o) then (t, false, None)
  else
    let o := with_task o taskName in
    let t := put_entry taskName (default zero_entry entry <| te_ReadinessObservation := Some o |>) t in
    match observation_settlement o with
    | None => (t, true, None)
    | Some tuple =>
        if bool_decide (default zero_tuple (t_readinessSettlements t !! taskName) = tuple) then (t, true, None)
        else
          (t <| t_readinessSettlements ::= insert taskName tuple |>, true,
           Some (mkSettledEvent taskName (negb (st_FailureID tuple =s "")) tuple))
    end.

Definition MarkReadinessObservationWithSettlement (t : DaemonRuntimeTracker) (o : DaemonReadinessObservationV1)
    : DaemonRuntimeTracker * bool * option settled_event :=
  if ob_TaskName o =s "" then (t, false, None)
  else markReadinessObservationLocked t (canonicalSupervisorTaskName (ob_TaskName o)) o.

Definition MarkReadinessObservation (t : DaemonRuntimeTracker) (o : DaemonReadinessObservationV1)
    : DaemonRuntimeTracker * bool :=
  let '(t, accepted, _) := MarkReadinessObservationWithSettlement t o in (t, accepted).

(** ** The lazy proxy's readiness protocol *)
Record LazyProxyReadinessEventV1 := mkLazyEvent {
  le_ProtocolVersion : Z; le_TaskName : string; le_WrapperPID : Z; le_WrapperStartedAt : string;
  le_BackendEpoch : Z; le_Transition : string; le_ObservedAt : string;
}.
Record LazyProxyReadinessReceiptV1 := mkLazyReceipt {
  lr_Disposition : string; lr_WrapperPID : Z; lr_WrapperStartedAt : string; lr_PIDGeneration : Z;
  lr_BackendEpoch : Z; lr_Transition : string;
}.

Definition errLazyReadinessIncarnationMismatch : error :=
  sentinel "errLazyReadinessIncarnationMismatch" "lazy readiness wrapper incarnation mismatch".
Definition errLazyReadinessInvalid : error :=
  sentinel "errLazyReadinessInvalid" "invalid lazy readiness event".

(** [IsLazyProxyTaskName] (api/status_enrich.go): [mcp-local-hub-lsp-],
    eight lower-case hex digits, a dash and a nonempty language. *)
Fixpoint lazy_key (n : nat) (s : string) : bool :=
  match n, s with
  | O, String c (String _ _) => Ascii.eqb c "-"
  | S n, String c s' =>
      let x := nat_of_ascii c in
      ((Nat.leb 48 x && Nat.leb x 57) || (Nat.leb 97 x && Nat.leb x 102)) && lazy_key n s'
  | _, _ => false
  end.
Definition IsLazyProxyTaskName (task : string) : bool :=
  let name := trim_prefix (bs "") task in
  has_prefix "mcp-local-hub-lsp-" name && lazy_key 8 (trim_prefix "mcp-local-hub-lsp-" name).

Definition lazyReadinessTransitionRank (transition : string) : Z :=
  if transition =s "starting" then 1
  else if transition =s "ready" then 2
  else if (transition =s "idle") || (transition =s "failed") then 3
  else 0.

Definition nonzero_time (s : string) : option time :=
  match ParseRFC3339Nano s with
  | Some t => if IsZero t then None else Some t
  | None => None
  end.

(** The observation a transition stands for. *)
Definition lazy_observation (taskName : string) (entry : DaemonRuntimeEntry) (transition : string)
    : option DaemonReadinessObservationV1 :=
  let gen := u64_of_int (te_PIDGeneration entry) in
  let mk ready policy failures :=
    mkObservation taskName "" "" 0 (te_CurrentPID entry) "Running" gen gen true true false false true
      ready ready ready false policy failures in
  if (transition =s "starting") || (transition =s "idle") then Some (mk false PolicySyntheticProxy [])
  else if transition =s "ready" then Some (mk true PolicyMCPUpstream [])
  else if transition =s "failed" then
    Some (mk false PolicyMCPUpstream [mkFailure StageUpstreamListener "lazy_proxy_failed" false "" "" "" 0])
  else None.

Definition lazy_receipt (disposition : string) (entry : DaemonRuntimeEntry) (s : lazyProxyReadinessState)
    : LazyProxyReadinessReceiptV1 :=
  mkLazyReceipt disposition (te_CurrentPID entry) (FormatRFC3339Nano (te_StartedAt entry))
    (te_PIDGeneration entry) (lz_Epoch s) (lz_Transition s).

(** What the ordering rules say about an event, before anything is
    changed: a receipt that repeats the current state, a rejection, or
    nothing (the event advances). *)
Inductive lazy_verdict := lazy_superseded | lazy_duplicate | lazy_rejected | lazy_advance.
Definition lazy_order (current : lazyProxyReadinessState) (epoch : Z) (transition : string) : lazy_verdict :=
  if epoch <? lz_Epoch current then lazy_superseded
  else if (lz_Epoch current =? epoch) && (lz_Transition current =s transition) then lazy_duplicate
  else if (lz_Epoch current =? epoch) &&
          (negb (lz_Transition current =s "starting") || negb (transition =s "ready"))
  then lazy_superseded
  else if ((lz_Epoch current =? 0) && negb (transition =s "starting")) ||
          ((lz_Epoch current <? epoch) && (transition =s "ready"))
  then lazy_rejected
  else lazy_advance.

Definition lazy_event_valid (ev : LazyProxyReadinessEventV1) : bool :=
  (le_ProtocolVersion ev =? 1) && IsLazyProxyTaskName (le_TaskName ev) && (0 <? le_WrapperPID ev) &&
  negb (le_BackendEpoch ev =? 0) && negb (lazyReadinessTransitionRank (le_Transition ev) =? 0).

Definition CommitLazyProxyReadinessEvent (t : DaemonRuntimeTracker) (ev : LazyProxyReadinessEventV1)
    : DaemonRuntimeTracker * res (LazyProxyReadinessReceiptV1 * option settled_event) :=
  if negb (lazy_event_valid ev) then (t, Err errLazyReadinessInvalid)
  else
    match nonzero_time (le_WrapperStartedAt ev), nonzero_time (le_ObservedAt ev) with
    | Some startedAt, Some _ =>
        let taskName := canonicalSupervisorTaskName (le_TaskName ev) in
        match t_entries t !! taskName with
        | None => (t, Err errLazyReadinessIncarnationMismatch)
        | Some entry =>
            if negb (te_State entry =s daemonRuntimeStateRunning) ||
               negb (te_CurrentPID entry =? le_WrapperPID ev) || negb (te_StartedAt entry =? startedAt)
            then (t, Err errLazyReadinessIncarnationMismatch)
            else
              let current := default (mkLazy 0 "") (t_lazyReadiness t !! taskName) in
              match lazy_order current (le_BackendEpoch ev) (le_Transition ev) with
              | lazy_superseded => (t, Ok (lazy_receipt "superseded" entry current, None))
              | lazy_duplicate => (t, Ok (lazy_receipt "duplicate" entry current, None))
              | lazy_rejected => (t, Err (errors_New "lazy readiness transition rejected"))
              | lazy_advance =>
                  match lazy_observation taskName entry (le_Transition ev) with
                  | None => (t, Err errLazyReadinessInvalid)
                  | Some o =>
                      let '(t', accepted, settled) := markReadinessObservationLocked t taskName o in
                      if negb accepted then (t', Err (errors_New "lazy readiness tracker rejection"))
                      else
                        let state := mkLazy (le_BackendEpoch ev) (le_Transition ev) in
                        (t' <| t_lazyReadiness ::= insert taskName state |>,
                         Ok (lazy_receipt "accepted" entry state, settled))
                  end
              end
        end
    | _, _ => (t, Err errLazyReadinessInvalid)
    end.

(** ** Persistence *)
Definition runtimeStateFromSupervisorState (state : string) : string :=
  let s := to_lower (trim_space state) in
  if (s =s "") || (s =s daemonRuntimeStateIdle) then daemonRuntimeStateIdle
  else if s =s daemonRuntimeStateRunning then daemonRuntimeStateRunning
  else if (s =s daemonRuntimeStateBackoff) || (s =s "backoff-waiting") then daemonRuntimeStateBackoff
  else if (s =s daemonRuntimeStateQuarantine) || (s =s "quarantined") then daemonRuntimeStateQuarantine
  else s.

Definition supervisorStateFromRuntimeState (state : string) : string :=
  if runtimeStateFromSupervisorState state =s daemonRuntimeStateRunning then daemonRuntimeStateRunning
  else daemonRuntimeStateIdle.

Definition valid_modes (mode : string) : bool := (mode =s "stop") || (mode =s "port_fence").

Definition validStopSettlementReceipt (r : StopSettlementReceiptV1) : bool :=
  negb (negb (sr_Version r =? 1) || (sr_BatchID r =s "") || (sr_TaskName r =s "") || (sr_Epoch r =? 0) ||
        (sr_BatchIndex r <? 0) || negb (valid_modes (sr_Mode r)) || (sr_Port r <=? 0) || (65535 <? sr_Port r) ||
        (sr_Revision r =? 0) || (sr_Attempt r =? 0) || (sr_OperationID r =s "")) &&
  (if sr_Mode r =s "stop"
   then (0 <? sr_PID r) && negb (sr_StartedAt r =s "") && (0 <? sr_PIDGeneration r)
   else (sr_PID r =? 0) && (sr_StartedAt r =s "") && (0 <=? sr_PIDGeneration r)) &&
  ((sr_StartedAt r =s "") || bool_decide (is_Some (ParseRFC3339Nano (sr_StartedAt r)))) &&
  (if sr_Phase r =s StopSettlementPhaseFailed then
     FailureClass_Valid (sr_FailureClass r) && negb (is_blank (sr_FailureDetail r)) &&
     (if sr_Mode r =s "port_fence"
      then (sr_ResumePhase r =s StopSettlementPhaseExitObserved) || (sr_ResumePhase r =s StopSettlementPhasePortReleased)
      else negb (sr_ResumePhase r =s ""))
   else if (sr_Phase r =s StopSettlementPhaseStopRequested) || (sr_Phase r =s StopSettlementPhaseExitObserved) ||
           (sr_Phase r =s StopSettlementPhasePortReleased) then
     (sr_FailureClass r =s "") && (sr_FailureDetail r =s "") && (sr_ResumePhase r =s "") &&
     (negb (sr_Mode r =s "port_fence") || (sr_Phase r =s StopSettlementPhaseExitObserved) ||
      (sr_Phase r =s StopSettlementPhasePortReleased))
   else false).

(** One receipt of the file during hydration. *)
Definition hydrate_receipt (acc : string * gmap string StopSettlementReceiptV1)
    (kv : string * StopSettlementReceiptV1) : string * gmap string StopSettlementReceiptV1 :=
  let '(integrity, rows) := acc in
  let '(taskName, receipt) := kv in
  let canonicalTaskName := canonicalSupervisorTaskName taskName in
  if negb (sr_TaskName receipt =s canonicalTaskName) || negb (validStopSettlementReceipt receipt)
  then ((if integrity =s "" then "invalid durable receipt" else integrity), rows)
  else (integrity, <[canonicalTaskName := receipt]> rows).

Definition hydrate_entry (d : SupervisorDaemonState) : DaemonRuntimeEntry :=
  mkEntry (runtimeStateFromSupervisorState (ds_State d)) (ds_CurrentPID d)
    (if ds_StartedAt d =s "" then zero_time else default zero_time (ParseRFC3339Nano (ds_StartedAt d)))
    (ds_PIDGeneration d) 0 "" (ds_OrphanPID d) (ds_JobProtection d)
    (ds_SpawnHoldReason d) (ds_SpawnHoldPath d) None.

Definition persist_entry (e : DaemonRuntimeEntry) : SupervisorDaemonState :=
  mkDaemonState (supervisorStateFromRuntimeState (te_State e)) (te_CurrentPID e) (te_PIDGeneration e)
    (if IsZero (te_StartedAt e) then "" else FormatRFC3339Nano (te_StartedAt e))
    (te_OrphanPID e) (te_JobProtection e) (te_SpawnHoldReason e) (te_SpawnHoldPath e).

Section Persistence.
Context `{Digest}.

(** The integrity check of the durable receipt map. *)
Definition hydrate_integrity (file : SupervisorStateFile) : string :=
  if negb (bool_decide (sf_StopSettlements file = ∅)) || negb (sf_StopSettlementMapGeneration file =? 0) ||
     negb (sf_StopSettlementDigest file =s "") then
    if (sf_StopSettlementMapGeneration file =? 0) || (sf_StopSettlementDigest file =s "")
    then "missing durable stop settlement map integrity metadata"
    else if negb (map_digest (sf_StopSettlementEpoch file) (sf_StopSettlementMapGeneration file)
                    (sf_StopSettlements file) =s sf_StopSettlementDigest file)
    then "durable stop settlement map digest mismatch"
    else ""
  else "".

(** [HydrateFromState].  Go visits the two maps in an unspecified order;
    here it is that of [map_to_list].  The order shows only when two keys of
    the file are spellings of one task. *)
Definition HydrateFromState (t : DaemonRuntimeTracker) (file : SupervisorStateFile) : DaemonRuntimeTracker :=
  let '(integrity, rows) :=
    foldl hydrate_receipt (hydrate_integrity file, t_stopSettlements t) (map_to_list (sf_StopSettlements file)) in
  t <| t_stopSettlementIntegrityErr := integrity |>
    <| t_stopSettlementEpoch ::= Z.max (sf_StopSettlementEpoch file) |>
    <| t_stopSettlements := rows |>
    <| t_entries ::= fun es =>
         foldl (fun es kv => <[canonicalSupervisorTaskName kv.1 := hydrate_entry kv.2]> es) es
           (map_to_list (sf_Daemons file)) |>.

(** The closure [PersistTo] hands to the state-file mutation. *)
Definition persist_mutation (t : DaemonRuntimeTracker) (file : SupervisorStateFile)
    : res (SupervisorStateFile * unit) :=
  let file := file <| sf_Daemons := persist_entry <$> t_entries t |> in
  let file := file <| sf_StopSettlementEpoch ::= Z.max (t_stopSettlementEpoch t) |> in
  if negb (t_stopSettlementIntegrityErr t =s "") then Ok (file, tt)
  else
    let? file := advanceStopSettlementMapMetadata (file <| sf_StopSettlements := t_stopSettlements t |>) in
    Ok (file, tt).

Definition PersistTo (t : DaemonRuntimeTracker) (path : string) (i : io) (disk : option SupervisorStateFile)
    : res unit * option SupervisorStateFile :=
  MutateSupervisorState path i disk (persist_mutation t).

Definition loadDaemonRuntimeTrackerFromStatePath (i : io) (disk : option SupervisorStateFile)
    : DaemonRuntimeTracker * option error :=
  match ReadSupervisorState i disk with
  | Err e =>
      if errors_Is e ErrNotExist then (NewDaemonRuntimeTracker, None)
      else (NewDaemonRuntimeTracker, Some (wrapf "read supervisor-state.json" e))
  | Ok file => (HydrateFromState NewDaemonRuntimeTracker file, None)
  end.
End Persistence.
