(* ===== verification/Lifecycle.v ===== *)
(** * Invariants of the runtime tracker

    The mutations of [DaemonRuntimeTracker] as one operation type, the
    well-formedness invariant of the tracker, what every operation does to
    PID generations and to the ownership generation, and the abstract
    specification of the sliding windows. *)
From S2P Require Import Prelude GoTime StateFile Readiness Tracker.
Open Scope Z_scope.

(** ** The operations *)
Inductive tracker_op :=
| OpMarkSpawned (task : string) (pid : Z) (startedAt : time)
| OpMarkSpawnFailed (task : string) (err : option error)
| OpMarkSpawnFailedPreservePID (task : string) (err : option error) (orphan : Z)
| OpMarkExited (task : string)
| OpMarkExitedIfCurrent (task : string) (gen : Z)
| OpMarkBackoff (task : string)
| OpMarkQuarantined (task : string)
| OpRemove (task : string)
| OpMarkJobProtection (task : string) (p : option bool)
| OpMarkSpawnHold (task reason path : string)
| OpClearSpawnHold (task : string)
| OpRecordCrash (task : string) (now : time) (window : duration)
| OpClearCrashes (task : string)
| OpRecordReallocation (task : string) (now : time) (window : duration)
| OpClearReallocations (task : string)
| OpMarkReadiness (o : DaemonReadinessObservationV1)
| OpCommitLazy (ev : LazyProxyReadinessEventV1).

Definition apply_op (op : tracker_op) (t : DaemonRuntimeTracker) : DaemonRuntimeTracker :=
  match op with
  | OpMarkSpawned k pid s => (MarkSpawned t k pid s).1
  | OpMarkSpawnFailed k e => MarkSpawnFailed t k e
  | OpMarkSpawnFailedPreservePID k e o => MarkSpawnFailedPreservePID t k e o
  | OpMarkExited k => MarkExited t k
  | OpMarkExitedIfCurrent k g => (MarkExitedIfCurrent t k g).1
  | OpMarkBackoff k => MarkBackoff t k
  | OpMarkQuarantined k => MarkQuarantined t k
  | OpRemove k => Remove t k
  | OpMarkJobProtection k p => MarkJobProtection t k p
  | OpMarkSpawnHold k r p => MarkSpawnHold t k r p
  | OpClearSpawnHold k => (ClearSpawnHold t k).1
  | OpRecordCrash k n w => (RecordCrashAndCountInWindow t k n w).1
  | OpClearCrashes k => ClearCrashes t k
  | OpRecordReallocation k n w => (RecordReallocationAndCountInWindow t k n w).1
  | OpClearReallocations k => ClearReallocations t k
  | OpMarkReadiness o => (MarkReadinessObservation t o).1
  | OpCommitLazy ev => (CommitLazyProxyReadinessEvent t ev).1
  end.

Definition apply_ops (ops : list tracker_op) (t : DaemonRuntimeTracker) : DaemonRuntimeTracker :=
  foldl (fun t op => apply_op op t) t ops.

Definition op_task (op : tracker_op) : string :=
  match op with
  | OpMarkSpawned k _ _ | OpMarkSpawnFailed k _ | OpMarkSpawnFailedPreservePID k _ _ | OpMarkExited k
  | OpMarkExitedIfCurrent k _ | OpMarkBackoff k | OpMarkQuarantined k | OpRemove k | OpMarkJobProtection k _
  | OpMarkSpawnHold k _ _ | OpClearSpawnHold k | OpRecordCrash k _ _ | OpClearCrashes k
  | OpRecordReallocation k _ _ | OpClearReallocations k => k
  | OpMarkReadiness o => ob_TaskName o
  | OpCommitLazy ev => le_TaskName ev
  end.

(** ** The effect of an operation on the entry map *)

Lemma markReadiness_cases t k o t' acc ev :
  markReadinessObservationLocked t k o = (t', acc, ev) ->
  (t' = t /\ acc = false /\ observation_current (t_entries t !! k) o = false) \/
  (acc = true /\ observation_current (t_entries t !! k) o = true /\
   t_entries t' = <[k := entry_at t k <| te_ReadinessObservation := Some (with_task o k) |>]> (t_entries t) /\
   t_ownershipGeneration t' = t_ownershipGeneration t /\ t_stopSettlements t' = t_stopSettlements t /\
   t_stopSettlementEpoch t' = t_stopSettlementEpoch t /\
   t_stopSettlementIntegrityErr t' = t_stopSettlementIntegrityErr t /\ t_lazyReadiness t' = t_lazyReadiness t).
Proof.
  unfold markReadinessObservationLocked. destruct (observation_current _ o); simpl.
  - intros E. right. by repeat (case_match; simplify_eq/=).
  - intros [= <- <- <-]. by left.
Qed.

(** A committed lazy event either changed nothing, or the readiness of its
    task and the lazy state. *)
Lemma commitLazy_cases t ev :
  let k := canonicalSupervisorTaskName (le_TaskName ev) in
  let t' := (CommitLazyProxyReadinessEvent t ev).1 in
  t' = t \/
  exists o t1, observation_current (t_entries t !! k) o = true /\
    (exists e, markReadinessObservationLocked t k o = (t1, true, e)) /\
    t' = (t1 <| t_lazyReadiness ::= insert k (mkLazy (le_BackendEpoch ev) (le_Transition ev)) |>).
Proof.
  intros k t'. subst t'. unfold CommitLazyProxyReadinessEvent. fold k.
  destruct (lazy_event_valid ev); cbn [negb]; [|by left].
  destruct (nonzero_time (le_WrapperStartedAt ev)) as [started|]; [|by left].
  destruct (nonzero_time (le_ObservedAt ev)); [|by left].
  destruct (t_entries t !! k) as [entry|] eqn:He; [|by left].
  destruct (_ || _); [by left|]. destruct (lazy_order _ _ _); try by left.
  destruct (lazy_observation k entry (le_Transition ev)) as [o|]; [|by left].
  destruct (markReadinessObservationLocked t k o) as [[t1 acc] e] eqn:Em.
  destruct (markReadiness_cases _ _ _ _ _ _ Em) as [(->&->&_)|(->&Hcur&_)]; [by left|right].
  exists o, t1. rewrite <- He. eauto.
Qed.

(** Unfold a lifecycle mark down to the record it builds. *)
Ltac unfold_mark :=
  unfold MarkSpawned, MarkSpawnFailed, MarkSpawnFailedPreservePID, MarkExited, MarkExitedIfCurrent,
    MarkBackoff, MarkQuarantined, Remove, MarkJobProtection, MarkSpawnHold, ClearSpawnHold,
    RecordCrashAndCountInWindow, ClearCrashes, RecordReallocationAndCountInWindow, ClearReallocations,
    exit_entry, setCurrentPIDLocked, put_entry, drop_lazy in *.

(** Every operation rewrites at most the entry of its own task, and leaves
    the stop-settlement mirror alone. *)
Lemma apply_op_frame op t :
  let t' := apply_op op t in
  t_stopSettlements t' = t_stopSettlements t /\ t_stopSettlementEpoch t' = t_stopSettlementEpoch t /\
  t_stopSettlementIntegrityErr t' = t_stopSettlementIntegrityErr t /\
  (forall k, k <> canonicalSupervisorTaskName (op_task op) -> t_entries t' !! k = t_entries t !! k).
Proof.
  destruct op; simpl; unfold_mark.
  1-15: repeat case_match; simpl; split_and!; try done; intros k' Hk;
    rewrite ?lookup_insert_ne, ?lookup_delete_ne by congruence; done.
  - unfold MarkReadinessObservation, MarkReadinessObservationWithSettlement.
    destruct (ob_TaskName o =s ""); [done|].
    destruct (markReadinessObservationLocked t _ o) as [[t1 acc] e] eqn:Em.
    destruct (markReadiness_cases _ _ _ _ _ _ Em) as [(->&_)|(_&_&He&_&?&?&?&_)]; simpl; [done|].
    split_and!; try done. intros k' Hk. rewrite He, lookup_insert_ne by done. done.
  - destruct (commitLazy_cases t ev) as [->|(o&t1&_&[e Em]&->)]; [done|].
    destruct (markReadiness_cases _ _ _ _ _ _ Em) as [(->&?&_)|(_&_&He&_&?&?&?&_)]; simpl; [done|].
    split_and!; try done. intros k' Hk. rewrite He, lookup_insert_ne by done. done.
Qed.

(** ** The invariant *)

(** A well-formed entry: a live PID belongs to a running, started daemon;
    the start time can be written to disk; a readiness observation is about
    the live process. *)
Definition entry_wf (e : DaemonRuntimeEntry) : Prop :=
  (te_CurrentPID e = 0 \/
   (te_State e = daemonRuntimeStateRunning /\ 0 < te_CurrentPID e /\ te_StartedAt e <> zero_time)) /\
  is_int (te_PIDGeneration e) /\ format_range (te_StartedAt e) /\
  (forall o, te_ReadinessObservation e = Some o ->
     0 < ob_PID o /\ ob_PID o = te_CurrentPID e /\ int_of_u64 (ob_ObservedPIDGeneration o) = te_PIDGeneration e).

Definition tracker_wf (t : DaemonRuntimeTracker) : Prop :=
  map_Forall (fun k e => is_canonical k /\ entry_wf e) (t_entries t).

(** An entry whose generation has not wrapped: it counts the spawns. *)
Definition counted (e : DaemonRuntimeEntry) : Prop :=
  0 <= te_PIDGeneration e /\ (0 < te_CurrentPID e -> 0 < te_PIDGeneration e).

(** What the callers guarantee: a spawn reports a real PID and the wall
    clock. *)
Definition op_ok (op : tracker_op) : Prop :=
  match op with
  | OpMarkSpawned _ pid s => 0 < pid /\ format_range s /\ s <> zero_time
  | _ => True
  end.

Lemma zero_time_range : format_range zero_time.
Proof. unfold format_range. vm_compute. split; congruence. Qed.

Lemma zero_entry_wf : entry_wf zero_entry.
Proof.
  unfold entry_wf, zero_entry. cbn [te_CurrentPID te_StartedAt te_PIDGeneration te_ReadinessObservation].
  split_and!; [by left|by split|apply zero_time_range|done].
Qed.

Lemma entry_at_wf t k : tracker_wf t -> entry_wf (entry_at t k).
Proof.
  intros H. unfold entry_at. destruct (t_entries t !! k) eqn:E; simpl; [by apply H in E as (_&?)|apply zero_entry_wf].
Qed.

Lemma wf_put t k e m :
  tracker_wf t -> entry_wf e ->
  m = <[canonicalSupervisorTaskName k := e]> (t_entries t) ->
  map_Forall (fun k e => is_canonical k /\ entry_wf e) m.
Proof.
  intros Ht He ->. apply map_Forall_insert_2; [|done]. auto using canonical_is_canonical.
Qed.

(** Clearing the PID of a well-formed entry, whatever else is rewritten. *)
Lemma wf_cleared e :
  te_CurrentPID e = 0 -> is_int (te_PIDGeneration e) -> te_StartedAt e = zero_time ->
  te_ReadinessObservation e = None -> entry_wf e.
Proof. intros H1 H2 H3 H4. unfold entry_wf. rewrite H1, H3, H4.
  split_and!; [by left|done|apply zero_time_range|done].
Qed.

Lemma count_restart_gen e : te_PIDGeneration (count_restart e) = te_PIDGeneration e.
Proof. unfold count_restart. by case_match. Qed.
Lemma count_restart_pid e : te_CurrentPID (count_restart e) = te_CurrentPID e.
Proof. unfold count_restart. by case_match. Qed.

Lemma observation_current_spec e o :
  observation_current (Some e) o = true ->
  0 < ob_PID o /\ ob_PID o = te_CurrentPID e /\ int_of_u64 (ob_ObservedPIDGeneration o) = te_PIDGeneration e /\
  te_State e = daemonRuntimeStateRunning.
Proof. unfold observation_current. breflect. naive_solver. Qed.

Lemma wf_observed t k o t' acc ev :
  tracker_wf t ->
  markReadinessObservationLocked t (canonicalSupervisorTaskName k) o = (t', acc, ev) -> tracker_wf t'.
Proof.
  intros Ht H. destruct (markReadiness_cases _ _ _ _ _ _ H) as [(->&_)|(_&Hcur&He&_)]; [done|].
  unfold tracker_wf. eapply wf_put; [done..| |exact He].
  destruct (t_entries t !! _) as [e|] eqn:E; [|done].
  pose proof (entry_at_wf t (canonicalSupervisorTaskName k) Ht) as Hw. unfold entry_at in *. rewrite E in *. simpl in *.
  apply observation_current_spec in Hcur. destruct Hw as (H1&H2&H3&_). unfold entry_wf. simpl.
  split_and!; try done. intros ? [= <-]. destruct o; simpl in *. naive_solver.
Qed.

Lemma apply_op_wf op t : op_ok op -> tracker_wf t -> tracker_wf (apply_op op t).
Proof.
  intros Hop Ht. pose proof (entry_at_wf t (canonicalSupervisorTaskName (op_task op)) Ht) as Hw.
  destruct op; simpl in *; unfold_mark.
  9-11: unfold tracker_wf; repeat case_match; simpl; try done; (eapply wf_put; [done..| |reflexivity]);
    destruct Hw as (?&?&?&?); unfold entry_wf; simpl; split_and!; done.
  9-12: done.
  2-7: unfold tracker_wf; repeat case_match; simpl; try done; (eapply wf_put; [done..| |reflexivity]);
    apply wf_cleared; simpl; rewrite ?count_restart_gen; try done; by destruct Hw as (?&?&?&?).
  - unfold tracker_wf. destruct Hop as (?&?&?). destruct Hw as (?&?&?&?).
    case_match; simpl; (eapply wf_put; [done..| |reflexivity]); unfold entry_wf; simpl;
      rewrite ?count_restart_gen; (split_and!; [by right|apply int_incr_range|done|done]).
  - unfold tracker_wf. repeat case_match; simpl; by apply map_Forall_delete.
  - unfold MarkReadinessObservation, MarkReadinessObservationWithSettlement.
    destruct (ob_TaskName o =s ""); [done|].
    destruct (markReadinessObservationLocked t _ o) as [[t1 acc] e] eqn:Em. simpl. by eapply wf_observed.
  - destruct (commitLazy_cases t ev) as [->|(o&t1&_&[e Em]&->)]; [done|].
    change (tracker_wf t1). by eapply wf_observed.
Qed.

(** ** PIDs, generations, ownership *)
Definition pid_of (t : DaemonRuntimeTracker) (k : string) : Z := te_CurrentPID (entry_at t k).
Definition gen_of (t : DaemonRuntimeTracker) (k : string) : Z := te_PIDGeneration (entry_at t k).

(** The PID an operation leaves at its own task. *)
Definition op_pid (op : tracker_op) (t : DaemonRuntimeTracker) : Z :=
  let c := canonicalSupervisorTaskName (op_task op) in
  match op with
  | OpMarkSpawned _ pid _ => pid
  | OpMarkSpawnFailed _ _ | OpMarkSpawnFailedPreservePID _ _ _ | OpMarkExited _ | OpMarkBackoff _
  | OpMarkQuarantined _ | OpRemove _ => 0
  | OpMarkExitedIfCurrent _ g => if g <? gen_of t c then pid_of t c else 0
  | _ => pid_of t c
  end.

(** The generation an operation leaves at its own task. *)
Definition op_gen (op : tracker_op) (t : DaemonRuntimeTracker) : Z :=
  let c := canonicalSupervisorTaskName (op_task op) in
  match op with
  | OpMarkSpawned _ _ _ => int_incr (gen_of t c)
  | OpRemove _ => 0
  | _ => gen_of t c
  end.

Lemma entry_at_insert t t' k e :
  t_entries t' = <[k := e]> (t_entries t) -> entry_at t' k = e.
Proof. intros H. unfold entry_at. by rewrite H, lookup_insert_eq. Qed.

Lemma observed_effect t k o t' acc ev :
  markReadinessObservationLocked t k o = (t', acc, ev) ->
  pid_of t' k = pid_of t k /\ gen_of t' k = gen_of t k /\ t_ownershipGeneration t' = t_ownershipGeneration t.
Proof.
  intros H. destruct (markReadiness_cases _ _ _ _ _ _ H) as [(->&_)|(_&_&He&Hown&_)]; [done|].
  unfold pid_of, gen_of. rewrite (entry_at_insert _ _ _ _ He). done.
Qed.

Lemma apply_op_effect op t :
  let c := canonicalSupervisorTaskName (op_task op) in
  let t' := apply_op op t in
  pid_of t' c = op_pid op t /\ gen_of t' c = op_gen op t /\
  t_ownershipGeneration t' =
    (if pid_of t' c =? pid_of t c then t_ownershipGeneration t else u64_add (t_ownershipGeneration t) 1).
Proof.
  intros c t'. enough (pid_of t' c = op_pid op t /\ gen_of t' c = op_gen op t /\
    t_ownershipGeneration t' = (if pid_of t c =? op_pid op t then t_ownershipGeneration t
                                else u64_add (t_ownershipGeneration t) 1)) as (H1&H2&H3).
  { rewrite H1, Z.eqb_sym. done. }
  subst c t'. destruct op; simpl; unfold op_pid, op_gen, pid_of, gen_of; simpl.
  16: { unfold MarkReadinessObservation, MarkReadinessObservationWithSettlement. rewrite Z.eqb_refl.
    destruct (ob_TaskName o =s ""); [done|].
    destruct (markReadinessObservationLocked t _ o) as [[t1 acc] e] eqn:Em. simpl. by eapply observed_effect. }
  16: { rewrite Z.eqb_refl. destruct (commitLazy_cases t ev) as [->|(o&t1&_&[e Em]&->)]; [done|].
    by apply observed_effect in Em. }
  8: { unfold_mark. unfold entry_at. simpl. destruct (t_entries t !! _) as [e|]; simpl;
    [destruct (te_CurrentPID e =? 0)|]; simpl; by rewrite lookup_delete_eq. }
  all: unfold_mark; unfold entry_at; simpl; rewrite ?Z.eqb_refl; try done.
  all: rewrite ?count_restart_pid; repeat case_match; simpl; rewrite ?lookup_insert_eq; simpl;
    rewrite ?count_restart_gen, ?Z.eqb_refl; split_and!; try done; try lia; congruence.
Qed.

Definition is_spawn_of (k : string) (op : tracker_op) : bool :=
  match op with OpMarkSpawned k' _ _ => canonicalSupervisorTaskName k' =s k | _ => false end.
Definition is_remove_of (k : string) (op : tracker_op) : bool :=
  match op with OpRemove k' => canonicalSupervisorTaskName k' =s k | _ => false end.
Definition spawns_of (k : string) (ops : list tracker_op) : Z :=
  Z.of_nat (length (List.filter (is_spawn_of k) ops)).

Lemma gen_of_step op t k :
  is_remove_of k op = false ->
  gen_of (apply_op op t) k = if is_spawn_of k op then int_incr (gen_of t k) else gen_of t k.
Proof.
  intros Hr. destruct (decide (k = canonicalSupervisorTaskName (op_task op))) as [->|Hne].
  - destruct (apply_op_effect op t) as (_&->&_).
    destruct op; simpl in *; rewrite ?str_eqb_refl in *; done.
  - assert (gen_of (apply_op op t) k = gen_of t k) as ->.
    { unfold gen_of, entry_at. by rewrite (proj2 (proj2 (proj2 (apply_op_frame op t))) k Hne). }
    destruct op; simpl in *; try done. case_match; [|done]. breflect. congruence.
Qed.

Lemma spawns_of_cons k op ops : spawns_of k (op :: ops) = (if is_spawn_of k op then 1 else 0) + spawns_of k ops.
Proof. unfold spawns_of. cbn [List.filter]. destruct (is_spawn_of k op); cbn [length]; lia. Qed.
Lemma spawns_of_nonneg k ops : 0 <= spawns_of k ops.
Proof. unfold spawns_of. lia. Qed.

Lemma gen_of_ops ops t k :
  forallb (fun op => negb (is_remove_of k op)) ops = true ->
  0 <= gen_of t k -> gen_of t k + spawns_of k ops < 2 ^ 63 ->
  gen_of (apply_ops ops t) k = gen_of t k + spawns_of k ops.
Proof.
  unfold apply_ops. revert t. induction ops as [|op ops IH]; intros t; [unfold spawns_of; simpl; lia|].
  cbn [forallb foldl]. rewrite andb_true_iff, negb_true_iff, spawns_of_cons. intros [Hr Hrest] H0 Hlt.
  pose proof (spawns_of_nonneg k ops). pose proof (gen_of_step op t k Hr) as Hs.
  destruct (is_spawn_of k op); [rewrite int_incr_small in Hs by lia|]; (rewrite IH; [|done|lia|lia]); lia.
Qed.

(** One operation keeps an entry counted, while there is room to count. *)
Lemma counted_step op t k :
  counted (entry_at t k) -> gen_of t k + (if is_spawn_of k op then 1 else 0) < 2 ^ 63 ->
  counted (entry_at (apply_op op t) k) /\
  gen_of (apply_op op t) k <= gen_of t k + (if is_spawn_of k op then 1 else 0).
Proof.
  intros [H0 Hp] Hlt. destruct (decide (k = canonicalSupervisorTaskName (op_task op))) as [->|Hne].
  - destruct (apply_op_effect op t) as (Ep&Eg&_). unfold counted. fold (pid_of (apply_op op t) (canonicalSupervisorTaskName (op_task op))).
    fold (gen_of (apply_op op t) (canonicalSupervisorTaskName (op_task op))). rewrite Ep, Eg. unfold op_pid, op_gen.
    fold (pid_of t (canonicalSupervisorTaskName (op_task op))) (gen_of t (canonicalSupervisorTaskName (op_task op))) in *.
    destruct op; cbn [is_spawn_of op_task] in *; rewrite ?str_eqb_refl in *; rewrite ?int_incr_small by lia;
      (split; [split|]); try case_match; try done; lia.
  - unfold gen_of, entry_at. rewrite (proj2 (proj2 (proj2 (apply_op_frame op t))) k Hne).
    split; [done|]. destruct (is_spawn_of k op); lia.
Qed.

(** C40: the tracker's invariant.  Whatever sequence of marks, crashes,
    readiness reports and removals the supervisor performs, in whatever
    order, every entry stays well formed, provided a spawn is recorded with
    a positive PID and a start time that is not zero and can be written: a
    live PID only ever belongs to a running, started daemon, its start time
    can be persisted, and a retained readiness observation is about exactly
    that live process.  And the generation of a live process stays positive
    until the task has been spawned so often that the counter wraps. *)
Theorem tracker_invariant ops t :
  Forall op_ok ops -> tracker_wf t ->
  tracker_wf (apply_ops ops t) /\
  forall k, counted (entry_at t k) -> gen_of t k + spawns_of k ops < 2 ^ 63 -> counted (entry_at (apply_ops ops t) k).
Proof.
  unfold apply_ops. intros H. revert t. induction H as [|op ops Hop _ IH]; intros t Ht; [done|].
  destruct (IH (apply_op op t)) as [Hwf Hc]; [by apply apply_op_wf|]. split; [done|]. intros k Hk.
  rewrite spawns_of_cons. intros Hlt. pose proof (spawns_of_nonneg k ops).
  destruct (counted_step op t k Hk) as [Hk' Hg]; [lia|]. apply Hc; [done|lia].
Qed.

(** Generations are a spawn counter, so a late exit report is inert.
    Between two removals of a task its PID generation grows by exactly one
    per recorded spawn and by nothing else, as long as the counter does not
    wrap; hence the exit of a process whose task has been spawned again since
    leaves the tracker unchanged. *)
Theorem stale_exit_ignored ops t k pid startedAt :
  let '(t1, g) := MarkSpawned t k pid startedAt in
  forallb (fun op => negb (is_remove_of (canonicalSupervisorTaskName k) op)) ops = true ->
  0 <= g -> g + spawns_of (canonicalSupervisorTaskName k) ops < 2 ^ 63 ->
  let t2 := apply_ops ops t1 in
  gen_of t2 (canonicalSupervisorTaskName k) = g + spawns_of (canonicalSupervisorTaskName k) ops /\
  (existsb (is_spawn_of (canonicalSupervisorTaskName k)) ops = true ->
   MarkExitedIfCurrent t2 k g = (t2, false)).
Proof.
  destruct (MarkSpawned t k pid startedAt) as [t1 g] eqn:E. intros Hr H0 Hlt t2.
  assert (gen_of t1 (canonicalSupervisorTaskName k) = g) as Hg.
  { revert E. unfold_mark. intros E. destruct (te_CurrentPID _ =? pid); simplify_eq/=;
      unfold gen_of, entry_at; simpl; by rewrite lookup_insert_eq. }
  assert (gen_of t2 (canonicalSupervisorTaskName k) = g + spawns_of (canonicalSupervisorTaskName k) ops) as H2
    by (subst t2; rewrite gen_of_ops; [by rewrite Hg|done|lia|lia]).
  split; [done|]. intros Hex. unfold MarkExitedIfCurrent.
  assert (0 < spawns_of (canonicalSupervisorTaskName k) ops).
  { unfold spawns_of. apply existsb_exists in Hex as (op&Hin&Hop).
    destruct (List.filter _ ops) eqn:El; [|simpl; lia].
    assert (In op []) by (rewrite <- El; by apply filter_In). done. }
  unfold gen_of in H2. case_match eqn:El; [done|]. breflect. lia.
Qed.

Lemma u64_succ_ne g : is_u64 g -> u64_add g 1 <> g.
Proof.
  unfold is_u64, u64_add, u64_modulus. intros H E.
  destruct (Z.eq_dec g (2 ^ 64 - 1)) as [->|]; [discriminate E|]. rewrite Z.mod_small in E; lia.
Qed.

(** The ownership generation is a change detector for process
    ownership: an operation moves it exactly when it changes the PID some
    task owns, so a reader that sees the same number twice saw the same
    owners (up to wrap-around of the 64-bit counter). *)
Theorem ownership_generation_detects op t :
  is_u64 (Generation t) ->
  (Generation (apply_op op t) = Generation t <-> forall k, pid_of (apply_op op t) k = pid_of t k) /\
  (Generation (apply_op op t) <> Generation t -> Generation (apply_op op t) = u64_add (Generation t) 1).
Proof.
  unfold Generation. intros Hu. destruct (apply_op_effect op t) as (_&_&Hown).
  set (c := canonicalSupervisorTaskName (op_task op)) in *.
  assert ((forall k, pid_of (apply_op op t) k = pid_of t k) <-> pid_of (apply_op op t) c = pid_of t c) as Hall.
  { split; [auto|]. intros Hc k. destruct (decide (k = c)) as [->|Hne]; [done|].
    unfold pid_of, entry_at. by rewrite (proj2 (proj2 (proj2 (apply_op_frame op t))) k Hne). }
  rewrite Hall, Hown. pose proof (u64_succ_ne _ Hu) as Hne.
  destruct (Z.eqb_spec (pid_of (apply_op op t) c) (pid_of t c)); [tauto|]. split; [|done]. split; [done|tauto].
Qed.

(** ** The sliding crash window

    Abstract specification: the full log of crash times, counted above the
    cutoff.  The tracker prunes its list at every crash. *)
Definition record_crashes (t : DaemonRuntimeTracker) (k : string) (w : duration) (ts : list time) : DaemonRuntimeTracker :=
  foldl (fun t x => (RecordCrashAndCountInWindow t k x w).1) t ts.

Definition crash_log_count (log : list time) (now : time) (w : duration) : Z :=
  Z.of_nat (length (List.filter (fun x => now - w <? x) log)).

Lemma kept_after_kept c d l : d <= c -> kept_after c (kept_after d l) = kept_after c l.
Proof.
  intros Hcd. unfold kept_after, After. induction l as [|x l IH]; simpl; [done|].
  destruct (Z.ltb_spec d x); simpl; rewrite IH; [done|]. by destruct (Z.ltb_spec c x); [lia|].
Qed.

Lemma kept_after_app c l l' : kept_after c (l ++ l') = kept_after c l ++ kept_after c l'.
Proof. apply List.filter_app. Qed.

Definition crashes_at (t : DaemonRuntimeTracker) (k : string) : list time :=
  default [] (t_failures t !! canonicalSupervisorTaskName k).

Lemma record_crashes_kept ts t k w m log c :
  (forall d, m - w <= d -> kept_after d (crashes_at t k) = kept_after d log) ->
  StronglySorted Z.le ts -> Forall (Z.le m) ts -> Forall (fun x => x - w <= c) (m :: ts) ->
  kept_after c (crashes_at (record_crashes t k w ts) k) = kept_after c (log ++ ts).
Proof.
  revert t m log. induction ts as [|x ts IH]; intros t m log Hinv Hs Hm Hc; simpl.
  - rewrite app_nil_r. apply Hinv. by inversion Hc.
  - apply StronglySorted_cons in Hs as [Hx Hs]. apply Forall_cons in Hm as [Hmx _].
    apply Forall_cons in Hc as [_ Hc].
    change (record_crashes t k w (x :: ts)) with (record_crashes (RecordCrashAndCountInWindow t k x w).1 k w ts).
    rewrite (IH _ x (log ++ [x])); [by rewrite <- app_assoc| |done..].
    intros d Hd. unfold crashes_at, RecordCrashAndCountInWindow; simpl. rewrite lookup_insert_eq. simpl.
    rewrite !kept_after_app, kept_after_kept by done. f_equal. apply Hinv. lia.
Qed.

(** The tracker's pruned crash list counts exactly like the full log:
    after any time-ordered sequence of crashes of a task, the count at any
    later time within the window is the number of crashes of the log in that
    window; pruning never forgets a crash that still counts. *)
Theorem crash_window_refines_log ts k w now :
  StronglySorted Z.le ts -> Forall (fun x => x <= now) ts -> 0 <= w ->
  CrashCountInWindow (record_crashes NewDaemonRuntimeTracker k w ts) k now w = crash_log_count ts now w.
Proof.
  intros Hs Hn Hw. unfold CrashCountInWindow, crash_log_count.
  change (default [] (t_failures (record_crashes NewDaemonRuntimeTracker k w ts) !! canonicalSupervisorTaskName k))
    with (crashes_at (record_crashes NewDaemonRuntimeTracker k w ts) k).
  destruct ts as [|x ts]; [done|].
  rewrite (record_crashes_kept (x :: ts) _ k w x [] (now - w)); [done| |done| |].
  - intros d _. done.
  - apply StronglySorted_cons in Hs as [Hx _]. by constructor.
  - apply Forall_cons in Hn as [Hx Hn]. constructor; [lia|]. constructor; [lia|].
    eapply Forall_impl; [exact Hn|]. simpl. lia.
Qed.

(** ** The lazy readiness protocol *)
Definition lazy_at (t : DaemonRuntimeTracker) (k : string) : lazyProxyReadinessState :=
  default (mkLazy 0 "") (t_lazyReadiness t !! k).

(** The order of accepted lazy states. *)
Inductive lazy_lt : lazyProxyReadinessState -> lazyProxyReadinessState -> Prop :=
| lazy_new_epoch e e' tr tr' : e < e' -> tr' <> "ready" -> lazy_lt (mkLazy e tr) (mkLazy e' tr')
| lazy_became_ready e : lazy_lt (mkLazy e "starting") (mkLazy e "ready").

Lemma lazy_order_advance cur epoch tr :
  lazy_order cur epoch tr = lazy_advance -> lazy_lt cur (mkLazy epoch tr).
Proof.
  destruct cur as [e tr0]. unfold lazy_order. simpl.
  destruct (Z.ltb_spec epoch e); [done|]. destruct (Z.eqb_spec e epoch) as [->|Hne]; simpl.
  - destruct (tr0 =s tr); [done|]. destruct (String.eqb_spec tr0 "starting") as [->|]; simpl; [|done].
    destruct (String.eqb_spec tr "ready") as [->|]; simpl; [|done]. intros _. apply lazy_became_ready.
  - case_match eqn:E; [done|]. intros _. breflect. constructor; [lia|]. naive_solver lia.
Qed.

(** The lazy proxy's readiness protocol.  An event changes the tracker
    only if the wrapper it names (PID and start time) is the one running
    now and it moves the task's (epoch, transition) strictly forward: to a
    later epoch, not directly to [ready], or from [starting] to [ready] of
    the same epoch.  Its receipt then reports [accepted] and that state; every
    other outcome, whether an error, a duplicate or a superseded event,
    leaves the tracker as it was. *)
Theorem lazy_readiness_forward t ev :
  let k := canonicalSupervisorTaskName (le_TaskName ev) in
  let '(t', r) := CommitLazyProxyReadinessEvent t ev in
  t' = t \/
  (lazy_lt (lazy_at t k) (lazy_at t' k) /\
   lazy_at t' k = mkLazy (le_BackendEpoch ev) (le_Transition ev) /\
   (exists e, t_entries t !! k = Some e /\ te_State e = "running" /\ te_CurrentPID e = le_WrapperPID ev /\
      ParseRFC3339Nano (le_WrapperStartedAt ev) = Some (te_StartedAt e)) /\
   (exists rec se, r = Ok (rec, se) /\ lr_Disposition rec = "accepted" /\ lr_BackendEpoch rec = le_BackendEpoch ev) /\
   (forall k', k' <> k -> lazy_at t' k' = lazy_at t k' /\ t_entries t' !! k' = t_entries t !! k')).
Proof.
  intros k. unfold CommitLazyProxyReadinessEvent. fold k.
  destruct (lazy_event_valid ev); cbn [negb]; [|by left].
  unfold nonzero_time. destruct (ParseRFC3339Nano (le_WrapperStartedAt ev)) as [started|]; [|by left].
  destruct (IsZero started); [by left|].
  destruct (ParseRFC3339Nano (le_ObservedAt ev)) as [obs|]; [|by left]. destruct (IsZero obs); [by left|].
  destruct (t_entries t !! k) as [entry|] eqn:He; [|by left].
  destruct (_ || _) eqn:Hinc; [by left|]. fold (lazy_at t k).
  destruct (lazy_order (lazy_at t k) _ _) eqn:Hord; try by left.
  destruct (lazy_observation k entry (le_Transition ev)) as [o|]; [|by left].
  destruct (markReadinessObservationLocked t k o) as [[t1 acc] e] eqn:Em.
  destruct (markReadiness_cases _ _ _ _ _ _ Em) as [(->&->&_)|(->&_&He1&_&_&_&_&Hlazy)]; [by left|right].
  breflect. destruct Hinc as [[Hst Hpid] Hstart]. apply lazy_order_advance in Hord.
  unfold lazy_at at 2 3. simpl. rewrite lookup_insert_eq. simpl. split_and!; [done|done| | |].
  - exists entry. by rewrite Hstart.
  - eauto 10.
  - intros k' Hk'. unfold lazy_at. simpl. by rewrite He1, Hlazy, !lookup_insert_ne by done.
Qed.

(** ** Witnesses *)
Definition memory_task : string := bs "mcp-local-hub-memory-default".
Definition noon : time := 1751890000123456000.

Lemma noon_range : format_range noon.
Proof. unfold format_range. vm_compute. split; congruence. Qed.

Lemma empty_tracker_wf : tracker_wf NewDaemonRuntimeTracker.
Proof. apply map_Forall_empty. Qed.

Lemma op_ok_spawn : op_ok (OpMarkSpawned memory_task 4242 noon).
Proof. split_and!; [lia|apply noon_range|done]. Qed.

Lemma tracker_invariant_witness :
  let ops := [OpMarkSpawned memory_task 4242 noon; OpMarkExited memory_task; OpMarkSpawned memory_task 4343 noon] in
  tracker_wf (apply_ops ops NewDaemonRuntimeTracker) /\ counted (entry_at (apply_ops ops NewDaemonRuntimeTracker) memory_task).
Proof.
  cbv zeta.
  destruct (tracker_invariant [OpMarkSpawned memory_task 4242 noon; OpMarkExited memory_task; OpMarkSpawned memory_task 4343 noon]
    NewDaemonRuntimeTracker) as [Hwf Hc].
  - constructor; [apply op_ok_spawn|]. constructor; [done|]. constructor; [|constructor].
    split_and!; [lia|apply noon_range|done].
  - apply empty_tracker_wf.
  - split; [exact Hwf|]. apply Hc; [by split|]. by vm_compute.
Defined.

(** The counter wraps: after the last generation comes a negative one. *)
Example generation_wraps :
  (MarkSpawned (put_entry memory_task (zero_entry <| te_PIDGeneration := 2 ^ 63 - 1 |>) NewDaemonRuntimeTracker)
    memory_task 4242 noon).2 = - 2 ^ 63.
Proof. vm_compute. reflexivity. Qed.

Lemma ownership_generation_witness :
  Generation (apply_op (OpMarkSpawned memory_task 4242 noon) NewDaemonRuntimeTracker) = 1.
Proof.
  exact (proj2 (ownership_generation_detects (OpMarkSpawned memory_task 4242 noon) NewDaemonRuntimeTracker
    ltac:(vm_compute; split; congruence)) ltac:(vm_compute; congruence)).
Defined.

Lemma crash_window_witness :
  CrashCountInWindow (record_crashes NewDaemonRuntimeTracker memory_task 30 [1; 10; 35]) memory_task 36 30 = 2.
Proof.
  apply (crash_window_refines_log [1; 10; 35] memory_task 30 36); [|repeat constructor; lia|lia].
  repeat constructor; lia.
Defined.

Lemma stale_exit_witness :
  let t1 := (MarkSpawned NewDaemonRuntimeTracker memory_task 4242 noon).1 in
  let t2 := apply_ops [OpMarkExited memory_task; OpMarkSpawned memory_task 4343 noon] t1 in
  gen_of t2 memory_task = 2 /\ MarkExitedIfCurrent t2 memory_task 1 = (t2, false).
Proof.
  pose proof (stale_exit_ignored [OpMarkExited memory_task; OpMarkSpawned memory_task 4343 noon]
    NewDaemonRuntimeTracker memory_task 4242 noon ltac:(vm_compute; reflexivity) ltac:(vm_compute; discriminate)
    ltac:(vm_compute; reflexivity)) as [H1 H2].
  intros t1 t2. split; [exact H1|]. apply H2. vm_compute. reflexivity.
Defined.
