(* ===== verification/StopSettlement.v ===== *)
(** * Stop settlements ([cli/supervisor_runtime_tracker.go], 836-1230)

    A stop command is settled by a durable receipt per daemon that advances
    stop_requested -> exit_observed -> port_released, may fail at any phase
    and resume there, and is removed only once its port is released.  Every
    step is a read-modify-write of the state file followed by the update of
    the in-memory mirror.

    The methods hold [persistMu] throughout but release the tracker's mutex
    while the file is written; [interleave] is whatever the rest of the
    supervisor does to the tracker in that window. *)
From S2P Require Import Prelude GoTime StateFile Readiness Tracker Lifecycle.
Open Scope Z_scope.

Record StopBatchTargetV1 := mkTarget { tg_TaskName : string; tg_ExpectedPort : Z }.

(** The part of [StopBatchCommandV1] a settlement batch uses. *)
Record stop_batch := mkStopBatch {
  sb_ProtocolVersion : Z; sb_BatchID : string; sb_Targets : list StopBatchTargetV1;
}.

Definition StopSettlementReceipt (t : DaemonRuntimeTracker) (taskName : string) : option StopSettlementReceiptV1 :=
  t_stopSettlements t !! canonicalSupervisorTaskName taskName.

Definition stopSettlementAdmissionEntry (entry : option DaemonRuntimeEntry) : bool :=
  match entry with
  | None => false
  | Some e =>
      if 0 <? te_CurrentPID e then (0 <? te_PIDGeneration e) && negb (IsZero (te_StartedAt e))
      else (te_State e =s daemonRuntimeStateIdle) || (te_State e =s daemonRuntimeStateBackoff)
  end.

Definition pending_less (a b : StopSettlementReceiptV1) : bool :=
  if negb (sr_BatchID a =s sr_BatchID b) then str_ltb (sr_BatchID a) (sr_BatchID b)
  else if negb (sr_BatchIndex a =? sr_BatchIndex b) then sr_BatchIndex a <? sr_BatchIndex b
  else str_ltb (sr_TaskName a) (sr_TaskName b).

Definition PendingStopSettlements (t : DaemonRuntimeTracker) : list StopSettlementReceiptV1 :=
  sort_stable pending_less (map_to_list (t_stopSettlements t)).*2.

Definition sameStopSettlementRuntimeIdentity (e : DaemonRuntimeEntry) (r : StopSettlementReceiptV1) : bool :=
  if sr_Mode r =s "port_fence"
  then (te_CurrentPID e =? 0) && stopSettlementAdmissionEntry (Some e) && (te_PIDGeneration e =? sr_PIDGeneration r)
  else (te_CurrentPID e =? sr_PID r) && (te_PIDGeneration e =? sr_PIDGeneration r) &&
       negb (IsZero (te_StartedAt e)) && (FormatRFC3339Nano (te_StartedAt e) =s sr_StartedAt r).

Definition sameStopSettlementToken (a b : StopSettlementReceiptV1) : bool :=
  (sr_Version a =? sr_Version b) && (sr_BatchID a =s sr_BatchID b) && (sr_TaskName a =s sr_TaskName b) &&
  (sr_Epoch a =? sr_Epoch b) && (sr_PID a =? sr_PID b) && (sr_StartedAt a =s sr_StartedAt b) &&
  (sr_PIDGeneration a =? sr_PIDGeneration b) && (sr_BatchIndex a =? sr_BatchIndex b) &&
  (sr_Mode a =s sr_Mode b) && (sr_Port a =? sr_Port b) && (sr_OperationID a =s sr_OperationID b).

(** ** The transition of one receipt *)
Definition zero_receipt : StopSettlementReceiptV1 := mkReceipt 0 "" "" 0 0 "" 0 0 "" 0 0 0 "" "" "" "" "".

Definition phase_step_illegal (current phase : string) : bool :=
  ((current =s StopSettlementPhaseStopRequested) && negb (phase =s StopSettlementPhaseExitObserved)) ||
  ((current =s StopSettlementPhaseExitObserved) && negb (phase =s StopSettlementPhasePortReleased)) ||
  (current =s StopSettlementPhasePortReleased).

Definition nextStopSettlementReceipt (current : StopSettlementReceiptV1) (phase failureClass failureDetail : string)
    : res StopSettlementReceiptV1 :=
  if (phase =s sr_Phase current) && (failureClass =s sr_FailureClass current) &&
     (failureDetail =s sr_FailureDetail current)
  then Ok current
  else if phase =s StopSettlementPhaseFailed then
    if (sr_Phase current =s StopSettlementPhaseFailed) || negb (FailureClass_Valid failureClass)
    then Err (errors_New "illegal stop settlement failure transition")
    else
      Ok (current <| sr_Revision ::= fun r => u64_add r 1 |> <| sr_Phase := StopSettlementPhaseFailed |>
                  <| sr_FailureClass := failureClass |> <| sr_FailureDetail := trim_space failureDetail |>
                  <| sr_ResumePhase := sr_Phase current |>)
  else if sr_Phase current =s StopSettlementPhaseFailed then
    if negb (phase =s sr_ResumePhase current) then Err (errors_New "failed stop settlement may resume only at its phase")
    else
      Ok (current <| sr_Revision ::= fun r => u64_add r 1 |> <| sr_Attempt ::= fun r => u64_add r 1 |>
                  <| sr_Phase := phase |> <| sr_FailureClass := "" |> <| sr_FailureDetail := "" |>
                  <| sr_ResumePhase := "" |>)
  else if phase_step_illegal (sr_Phase current) phase then Err (errors_New "illegal stop settlement transition")
  else
    let next := current <| sr_Revision ::= fun r => u64_add r 1 |> <| sr_Phase := phase |>
                        <| sr_FailureClass := "" |> <| sr_FailureDetail := "" |> in
    if negb (validStopSettlementReceipt next) then Err (errors_New "constructed invalid stop settlement receipt")
    else Ok next.

Definition StopSettlementIntegrityError (t : DaemonRuntimeTracker) : option error :=
  if t_stopSettlementIntegrityErr t =s "" then None
  else Some (errors_New ("stop settlement recovery required: " +:+ t_stopSettlementIntegrityErr t)).

(** ** Admission of a batch *)

(** One target against the tracker, in the order of the guards. *)
Definition admit_target (t : DaemonRuntimeTracker) (descriptorPorts : gmap string Z) (seen : list string)
    (target : StopBatchTargetV1) : res DaemonRuntimeEntry :=
  let taskName := canonicalSupervisorTaskName (tg_TaskName target) in
  if negb (tg_TaskName target =s taskName) || (tg_ExpectedPort target <=? 0) || (65535 <? tg_ExpectedPort target)
  then Err (errors_New "invalid stop batch target")
  else if existsb (String.eqb taskName) seen then Err (errors_New "duplicate stop batch target")
  else if negb (bool_decide (descriptorPorts !! taskName = Some (tg_ExpectedPort target)))
  then Err (errors_New "descriptor port mismatch")
  else
    match t_entries t !! taskName with
    | None => Err (errors_New "stop settlement requires running generation or idle port fence")
    | Some entry =>
        if negb (stopSettlementAdmissionEntry (Some entry))
        then Err (errors_New "stop settlement requires running generation or idle port fence")
        else if bool_decide (is_Some (t_stopSettlements t !! taskName))
        then Err (errors_New "stop settlement already pending")
        else Ok entry
    end.

Fixpoint admit_targets (t : DaemonRuntimeTracker) (descriptorPorts : gmap string Z) (seen : list string)
    (targets : list StopBatchTargetV1) : res (list (StopBatchTargetV1 * DaemonRuntimeEntry)) :=
  match targets with
  | [] => Ok []
  | target :: rest =>
      let? entry := admit_target t descriptorPorts seen target in
      let? more := admit_targets t descriptorPorts (tg_TaskName target :: seen) rest in
      Ok ((target, entry) :: more)
  end.

(** The receipt of the [i]-th target. *)
Definition batch_receipt (batchID : string) (epoch i : Z) (target : StopBatchTargetV1) (entry : DaemonRuntimeEntry)
    : StopSettlementReceiptV1 :=
  let idle := te_CurrentPID entry =? 0 in
  mkReceipt 1 batchID (canonicalSupervisorTaskName (tg_TaskName target)) epoch (te_CurrentPID entry)
    (if idle then "" else FormatRFC3339Nano (te_StartedAt entry)) (te_PIDGeneration entry) i
    (if idle then "port_fence" else "stop") (tg_ExpectedPort target) 1 1
    (if idle then StopSettlementPhaseExitObserved else StopSettlementPhaseStopRequested) "" "" "" batchID.

Fixpoint batch_rows (batchID : string) (epoch i : Z) (admitted : list (StopBatchTargetV1 * DaemonRuntimeEntry))
    (rows : gmap string StopSettlementReceiptV1)
    : res (list StopSettlementReceiptV1 * Z * gmap string StopSettlementReceiptV1) :=
  match admitted with
  | [] => Ok ([], epoch, rows)
  | (target, entry) :: rest =>
      let taskName := canonicalSupervisorTaskName (tg_TaskName target) in
      if bool_decide (is_Some (rows !! taskName)) then Err (errors_New "stop settlement already durable")
      else
        let epoch := u64_add epoch 1 in
        let r := batch_receipt batchID epoch i target entry in
        let? out := batch_rows batchID epoch (i + 1) rest (<[taskName := r]> rows) in
        Ok (r :: out.1.1, out.1.2, out.2)
  end.

Section Settlement.
Context `{Digest}.

Definition sameStopSettlementRevision (a b : StopSettlementReceiptV1) : bool :=
  receipt_digest a =s receipt_digest b.

Definition begin_mutation (batchID : string) (knownEpoch : Z)
    (admitted : list (StopBatchTargetV1 * DaemonRuntimeEntry)) (file : SupervisorStateFile)
    : res (SupervisorStateFile * list StopSettlementReceiptV1) :=
  let epoch := Z.max knownEpoch (sf_StopSettlementEpoch file) in
  if u64_max - epoch <? Z.of_nat (length admitted) then Err (errors_New "stop settlement epoch overflow")
  else
    let? out := batch_rows batchID epoch 0 admitted (sf_StopSettlements file) in
    let? file := advanceStopSettlementMapMetadata
                   (file <| sf_StopSettlements := out.2 |> <| sf_StopSettlementEpoch := out.1.2 |>) in
    Ok (file, out.1.1).

(** The check of the tracker after the file was written. *)
Definition mirror_conflict (t : DaemonRuntimeTracker) (r : StopSettlementReceiptV1) : bool :=
  negb (match t_entries t !! sr_TaskName r with
        | Some current => sameStopSettlementRuntimeIdentity current r
        | None => false
        end) || bool_decide (is_Some (t_stopSettlements t !! sr_TaskName r)).

Definition install_receipt (t : DaemonRuntimeTracker) (r : StopSettlementReceiptV1) : DaemonRuntimeTracker :=
  t <| t_stopSettlements ::= insert (sr_TaskName r) r |> <| t_stopSettlementEpoch ::= Z.max (sr_Epoch r) |>.

Definition install_batch (t : DaemonRuntimeTracker) (receipts : list StopSettlementReceiptV1)
    : DaemonRuntimeTracker * res (list StopSettlementReceiptV1) :=
  if existsb (mirror_conflict t) receipts
  then (t <| t_stopSettlementIntegrityErr := "durable stop batch mirror not installed" |>,
        Err (errors_New "stop batch raced runtime generation"))
  else (foldl install_receipt t receipts, Ok receipts).

Definition BeginStopSettlementBatch (t : DaemonRuntimeTracker) (path : string) (i : io)
    (disk : option SupervisorStateFile) (command : stop_batch) (descriptorPorts : gmap string Z)
    (interleave : DaemonRuntimeTracker -> DaemonRuntimeTracker)
    : DaemonRuntimeTracker * option SupervisorStateFile * res (list StopSettlementReceiptV1) :=
  if is_blank path then (t, disk, Err (errors_New "empty supervisor state path"))
  else if negb (sb_ProtocolVersion command =? 1) || is_blank (sb_BatchID command) ||
          bool_decide (sb_Targets command = [])
  then (t, disk, Err (errors_New "invalid stop batch v1"))
  else
    match StopSettlementIntegrityError t with
    | Some e => (t, disk, Err e)
    | None =>
        match admit_targets t descriptorPorts [] (sb_Targets command) with
        | Err e => (t, disk, Err e)
        | Ok admitted =>
            if u64_max - t_stopSettlementEpoch t <? Z.of_nat (length admitted)
            then (t, disk, Err (errors_New "stop settlement epoch overflow"))
            else
              let '(r, disk') := MutateSupervisorState path i disk
                (begin_mutation (sb_BatchID command) (t_stopSettlementEpoch t) admitted) in
              let t := interleave t in
              match r with
              | Err e => (t, disk', Err (wrapf "persist stop batch" e))
              | Ok receipts =>
                  let '(t, out) := install_batch t receipts in (t, disk', out)
              end
        end
    end.

(** ** Advancing and removing a receipt *)
Definition settlement_current (rows : gmap string StopSettlementReceiptV1) (expected : StopSettlementReceiptV1) : bool :=
  match rows !! sr_TaskName expected with
  | Some current => sameStopSettlementRevision current expected
  | None => false
  end.

Definition replace_mutation (expected : StopSettlementReceiptV1) (next : option StopSettlementReceiptV1)
    (file : SupervisorStateFile) : res (SupervisorStateFile * unit) :=
  if negb (settlement_current (sf_StopSettlements file) expected)
  then Err (errors_New "stale or absent durable stop settlement receipt")
  else
    let? file := advanceStopSettlementMapMetadata
      (file <| sf_StopSettlements ::= partial_alter (fun _ => next) (sr_TaskName expected) |>) in
    Ok (file, tt).

Definition AdvanceStopSettlement (t : DaemonRuntimeTracker) (path : string) (i : io)
    (disk : option SupervisorStateFile) (expected : StopSettlementReceiptV1) (phase failureClass failureDetail : string)
    (interleave : DaemonRuntimeTracker -> DaemonRuntimeTracker)
    : DaemonRuntimeTracker * option SupervisorStateFile * res StopSettlementReceiptV1 :=
  if is_blank path then (t, disk, Err (errors_New "empty supervisor state path"))
  else if negb (validStopSettlementReceipt expected) || (phase =s "")
  then (t, disk, Err (errors_New "invalid stop settlement transition"))
  else if negb (settlement_current (t_stopSettlements t) expected)
  then (t, disk, Err (errors_New "stale or absent stop settlement receipt"))
  else
    match nextStopSettlementReceipt expected phase failureClass failureDetail with
    | Err e => (t, disk, Err e)
    | Ok next =>
        if sameStopSettlementRevision next expected then (t, disk, Ok expected)
        else
          let '(r, disk') := MutateSupervisorState path i disk (replace_mutation expected (Some next)) in
          let t := interleave t in
          match r with
          | Err e => (t, disk', Err (wrapf "persist stop settlement transition" e))
          | Ok _ =>
              if negb (settlement_current (t_stopSettlements t) expected)
              then (t <| t_stopSettlementIntegrityErr := "durable stop settlement transition mirror not installed" |>,
                    disk', Err (errors_New "stop settlement changed during durable transition"))
              else (t <| t_stopSettlements ::= insert (sr_TaskName expected) next |>, disk', Ok next)
          end
    end.

Definition RemoveStopSettlement (t : DaemonRuntimeTracker) (path : string) (i : io)
    (disk : option SupervisorStateFile) (expected : StopSettlementReceiptV1)
    (interleave : DaemonRuntimeTracker -> DaemonRuntimeTracker)
    : DaemonRuntimeTracker * option SupervisorStateFile * res unit :=
  if is_blank path then (t, disk, Err (errors_New "empty supervisor state path"))
  else if negb (validStopSettlementReceipt expected) || negb (sr_Phase expected =s StopSettlementPhasePortReleased)
  then (t, disk, Err (errors_New "stop settlement removal requires an exact port-released receipt"))
  else if negb (settlement_current (t_stopSettlements t) expected)
  then (t, disk, Err (errors_New "stale or absent stop settlement receipt"))
  else
    let '(r, disk') := MutateSupervisorState path i disk (replace_mutation expected None) in
    let t := interleave t in
    match r with
    | Err e => (t, disk', Err (wrapf "persist stop settlement removal" e))
    | Ok _ =>
        if negb (settlement_current (t_stopSettlements t) expected)
        then (t <| t_stopSettlementIntegrityErr := "durable stop settlement removal mirror not installed" |>,
              disk', Err (errors_New "stop settlement changed during durable removal"))
        else (t <| t_stopSettlements ::= delete (sr_TaskName expected) |>, disk', Ok tt)
    end.
End Settlement.

(** ** Receipts *)

(** What every durable receipt satisfies: it is valid, filed under its own
    canonical task name, and a failed one can resume only at a live phase. *)
Definition receipt_ok (k : string) (r : StopSettlementReceiptV1) : Prop :=
  is_canonical k /\ sr_TaskName r = k /\ validStopSettlementReceipt r = true /\
  is_u64 (sr_Revision r) /\ is_u64 (sr_Attempt r) /\
  (sr_Phase r = StopSettlementPhaseFailed ->
   sr_ResumePhase r = StopSettlementPhaseStopRequested \/ sr_ResumePhase r = StopSettlementPhaseExitObserved \/
   sr_ResumePhase r = StopSettlementPhasePortReleased).

(** The abstract life cycle of a settlement: phase and, while failed, the
    phase to resume. *)
Inductive phase_step : StopSettlementReceiptV1 -> StopSettlementReceiptV1 -> Prop :=
| step_exit a b : sr_Phase a = "stop_requested" -> sr_Phase b = "exit_observed" ->
    sr_Attempt b = sr_Attempt a -> phase_step a b
| step_release a b : sr_Phase a = "exit_observed" -> sr_Phase b = "port_released" ->
    sr_Attempt b = sr_Attempt a -> phase_step a b
| step_fail a b : sr_Phase a <> "failed" -> sr_Phase b = "failed" -> sr_ResumePhase b = sr_Phase a ->
    FailureClass_Valid (sr_FailureClass b) = true -> sr_Attempt b = sr_Attempt a -> phase_step a b
| step_resume a b : sr_Phase a = "failed" -> sr_Phase b = sr_ResumePhase a -> sr_FailureClass b = "" ->
    sr_FailureDetail b = "" -> sr_Attempt b = sr_Attempt a + 1 -> phase_step a b.

Lemma valid_phase r : validStopSettlementReceipt r = true ->
  sr_Phase r = StopSettlementPhaseFailed \/ sr_Phase r = StopSettlementPhaseStopRequested \/
  sr_Phase r = StopSettlementPhaseExitObserved \/ sr_Phase r = StopSettlementPhasePortReleased.
Proof.
  unfold validStopSettlementReceipt. rewrite !andb_true_iff. intros [_ H].
  destruct (String.eqb_spec (sr_Phase r) StopSettlementPhaseFailed); [by left|right].
  case_match eqn:E; [|done]. breflect. tauto.
Qed.

Lemma valid_live_clean r : validStopSettlementReceipt r = true -> sr_Phase r <> StopSettlementPhaseFailed ->
  sr_FailureClass r = "" /\ sr_FailureDetail r = "" /\ sr_ResumePhase r = "".
Proof.
  unfold validStopSettlementReceipt. rewrite !andb_true_iff. intros [_ H] Hp.
  rewrite (proj2 (str_eqb_false _ _) Hp) in H. case_match; [|done]. breflect. tauto.
Qed.

(** Validity of a receipt whose phase part was rewritten and whose counters
    stayed nonzero. *)
Lemma valid_change r r' :
  validStopSettlementReceipt r = true -> sameStopSettlementToken r' r = true ->
  sr_Revision r' <> 0 -> sr_Attempt r' <> 0 ->
  (if sr_Phase r' =s StopSettlementPhaseFailed then
     FailureClass_Valid (sr_FailureClass r') && negb (is_blank (sr_FailureDetail r')) &&
     (if sr_Mode r' =s "port_fence"
      then (sr_ResumePhase r' =s StopSettlementPhaseExitObserved) || (sr_ResumePhase r' =s StopSettlementPhasePortReleased)
      else negb (sr_ResumePhase r' =s ""))
   else if (sr_Phase r' =s StopSettlementPhaseStopRequested) || (sr_Phase r' =s StopSettlementPhaseExitObserved) ||
           (sr_Phase r' =s StopSettlementPhasePortReleased) then
     (sr_FailureClass r' =s "") && (sr_FailureDetail r' =s "") && (sr_ResumePhase r' =s "") &&
     (negb (sr_Mode r' =s "port_fence") || (sr_Phase r' =s StopSettlementPhaseExitObserved) ||
      (sr_Phase r' =s StopSettlementPhasePortReleased))
   else false) = true ->
  validStopSettlementReceipt r' = true.
Proof.
  unfold sameStopSettlementToken. rewrite !andb_true_iff, !Z.eqb_eq, !str_eqb_true.
  intros Hv Ht Hrev Hatt Hphase. destruct_and!. unfold validStopSettlementReceipt in *.
  rewrite !andb_true_iff in Hv. destruct_and!. rewrite Hphase, andb_true_r.
  replace (sr_Revision r' =? 0) with false by (symmetry; by apply Z.eqb_neq).
  replace (sr_Attempt r' =? 0) with false by (symmetry; by apply Z.eqb_neq).
  replace (sr_Version r') with (sr_Version r) by done. replace (sr_BatchID r') with (sr_BatchID r) by done.
  replace (sr_TaskName r') with (sr_TaskName r) by done. replace (sr_Epoch r') with (sr_Epoch r) by done.
  replace (sr_PID r') with (sr_PID r) by done. replace (sr_StartedAt r') with (sr_StartedAt r) by done.
  replace (sr_PIDGeneration r') with (sr_PIDGeneration r) by done.
  replace (sr_BatchIndex r') with (sr_BatchIndex r) by done. replace (sr_Mode r') with (sr_Mode r) by done.
  replace (sr_Port r') with (sr_Port r) by done. replace (sr_OperationID r') with (sr_OperationID r) by done.
  apply andb_true_iff; split; [apply andb_true_iff; split|]; try done.
  breflect. tauto.
Qed.

Lemma token_refl r : sameStopSettlementToken r r = true.
Proof. unfold sameStopSettlementToken. by rewrite !Z.eqb_refl, !str_eqb_refl. Qed.

Lemma u64_next x : is_u64 x -> x < u64_max -> u64_add x 1 = x + 1 /\ is_u64 (x + 1) /\ x + 1 <> 0.
Proof.
  unfold is_u64, u64_max, u64_modulus. intros. split; [apply u64_add_small; unfold u64_modulus; lia|lia].
Qed.

Lemma valid_counters r : validStopSettlementReceipt r = true -> sr_Revision r <> 0 /\ sr_Attempt r <> 0.
Proof. unfold validStopSettlementReceipt. rewrite !andb_true_iff. intros H. destruct_and!. breflect. tauto. Qed.

(** The receipts the three branches of [nextStopSettlementReceipt] build. *)
Definition failed_receipt (r : StopSettlementReceiptV1) (fc fd : string) : StopSettlementReceiptV1 :=
  r <| sr_Revision ::= fun r => u64_add r 1 |> <| sr_Phase := StopSettlementPhaseFailed |>
    <| sr_FailureClass := fc |> <| sr_FailureDetail := trim_space fd |> <| sr_ResumePhase := sr_Phase r |>.
Definition resumed_receipt (r : StopSettlementReceiptV1) : StopSettlementReceiptV1 :=
  r <| sr_Revision ::= fun r => u64_add r 1 |> <| sr_Attempt ::= fun r => u64_add r 1 |>
    <| sr_Phase := sr_ResumePhase r |> <| sr_FailureClass := "" |> <| sr_FailureDetail := "" |>
    <| sr_ResumePhase := "" |>.
Definition advanced_receipt (r : StopSettlementReceiptV1) (phase : string) : StopSettlementReceiptV1 :=
  r <| sr_Revision ::= fun r => u64_add r 1 |> <| sr_Phase := phase |> <| sr_FailureClass := "" |>
    <| sr_FailureDetail := "" |>.

Lemma next_receipt_cases r phase fc fd n :
  nextStopSettlementReceipt r phase fc fd = Ok n ->
  n = r \/
  (phase = StopSettlementPhaseFailed /\ sr_Phase r <> StopSettlementPhaseFailed /\ FailureClass_Valid fc = true /\
   n = failed_receipt r fc fd) \/
  (sr_Phase r = StopSettlementPhaseFailed /\ phase = sr_ResumePhase r /\ n = resumed_receipt r) \/
  (phase <> StopSettlementPhaseFailed /\ sr_Phase r <> StopSettlementPhaseFailed /\
   phase_step_illegal (sr_Phase r) phase = false /\ n = advanced_receipt r phase /\
   validStopSettlementReceipt n = true).
Proof.
  unfold nextStopSettlementReceipt. case_match; [intros [= <-]; by left|].
  destruct (String.eqb_spec phase StopSettlementPhaseFailed) as [->|Hnf].
  - case_match eqn:E; [done|]. intros [= <-]. right. left. breflect. tauto.
  - destruct (String.eqb_spec (sr_Phase r) StopSettlementPhaseFailed) as [Hrf|Hrf].
    + destruct (String.eqb_spec phase (sr_ResumePhase r)) as [->|]; simpl; [|done]. intros [= <-]. tauto.
    + case_match; [done|]. case_match eqn:Hval; [done|]. intros [= <-]. right. right. right.
      apply negb_false_iff in Hval. tauto.
Qed.

Ltac token := unfold sameStopSettlementToken; simpl; by rewrite !Z.eqb_refl, !str_eqb_refl.

Lemma failed_receipt_ok k r fc fd :
  receipt_ok k r -> sr_Revision r < u64_max -> sr_Phase r <> StopSettlementPhaseFailed ->
  FailureClass_Valid fc = true -> is_blank fd = false -> receipt_ok k (failed_receipt r fc fd).
Proof.
  intros (Hk&Htn&Hv&Hrev&Hatt&_) Hr Hrf Hfc Hfd.
  destruct (u64_next _ Hrev Hr) as (Er&Hr'&Hr0). destruct (valid_counters r Hv) as [_ Ha0].
  assert (sr_Phase r = StopSettlementPhaseStopRequested \/ sr_Phase r = StopSettlementPhaseExitObserved \/
    sr_Phase r = StopSettlementPhasePortReleased) as Hlive by (destruct (valid_phase r Hv); tauto).
  unfold receipt_ok, failed_receipt. simpl. rewrite Er. split_and!; try done.
  apply (valid_change r); simpl; rewrite ?Er; try done; [token|].
  rewrite Hfc, is_blank_trim, Hfd. simpl.
  case_match eqn:Em; [|by destruct Hlive as [->|[->| ->]]].
  destruct Hlive as [E|[->| ->]]; [|done..].
  unfold validStopSettlementReceipt in Hv. rewrite !andb_true_iff in Hv. destruct Hv as [_ Hv].
  rewrite E, Em in Hv. simpl in Hv. by rewrite andb_false_r in Hv.
Qed.

Lemma resumed_receipt_ok k r :
  receipt_ok k r -> sr_Revision r < u64_max -> sr_Attempt r < u64_max ->
  sr_Phase r = StopSettlementPhaseFailed -> receipt_ok k (resumed_receipt r).
Proof.
  intros (Hk&Htn&Hv&Hrev&Hatt&Hres) Hr Ha Hrf. specialize (Hres Hrf).
  destruct (u64_next _ Hrev Hr) as (Er&Hr'&Hr0). destruct (u64_next _ Hatt Ha) as (Ea&Ha'&Ha0).
  unfold receipt_ok, resumed_receipt. simpl. rewrite Er, Ea.
  split_and!; try done; [|by destruct Hres as [->|[->| ->]]].
  apply (valid_change r); simpl; rewrite ?Er, ?Ea; try done; [token|].
  unfold validStopSettlementReceipt in Hv. rewrite !andb_true_iff in Hv. destruct Hv as [_ Hv].
  rewrite Hrf in Hv. simpl in Hv. rewrite !andb_true_iff in Hv. destruct Hv as [_ Hv].
  destruct (sr_Mode r =s "port_fence"); destruct Hres as [E|[E|E]]; rewrite E in *; done.
Qed.

Lemma next_receipt_step k r phase fc fd n :
  receipt_ok k r -> sr_Revision r < u64_max -> sr_Attempt r < u64_max ->
  (phase = StopSettlementPhaseFailed -> is_blank fd = false) ->
  nextStopSettlementReceipt r phase fc fd = Ok n ->
  n = r \/
  (sameStopSettlementToken n r = true /\ sr_Revision n = sr_Revision r + 1 /\ phase_step r n /\ receipt_ok k n).
Proof.
  intros Hok Hr Ha Hfd Hn. pose proof Hok as (Hk&Htn&Hv&Hrev&Hatt&Hres).
  destruct (u64_next _ Hrev Hr) as (Er&Hr'&Hr0).
  destruct (next_receipt_cases _ _ _ _ _ Hn) as [->|[(->&Hrf&Hfc&->)|[(Hrf&->&->)|(Hnf&Hrf&Hill&->&Hval)]]];
    [by left|right..].
  - split; [token|]. split; [done|]. split; [by apply step_fail|by apply failed_receipt_ok; auto].
  - split; [token|]. split; [done|]. split; [|by apply resumed_receipt_ok].
    apply step_resume; try done. simpl. by apply u64_next.
  - split; [token|]. split; [done|]. split.
    + unfold phase_step_illegal in Hill. breflect.
      destruct (valid_phase r Hv) as [?|[E|[E|E]]]; [done| | |]; rewrite E in Hill.
      * apply step_exit; simpl; try done. naive_solver.
      * apply step_release; simpl; try done. naive_solver.
      * naive_solver.
    + unfold receipt_ok, advanced_receipt in *. simpl in *. rewrite Er in *. by split_and!.
Qed.

(** ** Batches *)

(** The receipts of a batch: one per target, in order, with consecutive
    epochs. *)
Fixpoint batch_receipts (batchID : string) (epoch i : Z) (admitted : list (StopBatchTargetV1 * DaemonRuntimeEntry))
    : list StopSettlementReceiptV1 :=
  match admitted with
  | [] => []
  | (target, entry) :: rest =>
      batch_receipt batchID (epoch + 1) i target entry :: batch_receipts batchID (epoch + 1) (i + 1) rest
  end.

Definition insert_receipts (rs : list StopSettlementReceiptV1) (rows : gmap string StopSettlementReceiptV1) :=
  foldl (fun m r => <[sr_TaskName r := r]> m) rows rs.

Lemma batch_rows_spec admitted id epoch i rows rs e' rows' :
  0 <= epoch -> epoch + Z.of_nat (length admitted) <= u64_max ->
  batch_rows id epoch i admitted rows = Ok (rs, e', rows') ->
  rs = batch_receipts id epoch i admitted /\ e' = epoch + Z.of_nat (length admitted) /\
  rows' = insert_receipts rs rows /\ Forall (fun r => rows !! sr_TaskName r = None) rs.
Proof.
  revert epoch i rows rs e' rows'. induction admitted as [|[target entry] rest IH]; intros epoch i rows rs e' rows' H0 Hmax; simpl.
  { intros [= <- <- <-]. split_and!; try done. lia. }
  case_match eqn:Hf; [done|]. rewrite let_ok. intros ([[rs1 e1] rows1]&Hrest&[= <- <- <-]). simpl in *.
  rewrite u64_add_small in Hrest by (unfold u64_max, u64_modulus in *; lia).
  apply IH in Hrest as (->&->&->&Hall); [|lia|lia].
  apply bool_decide_eq_false, eq_None_not_Some in Hf.
  rewrite u64_add_small by (unfold u64_max, u64_modulus in *; lia).
  split_and!; [done|lia|done|]. constructor; [done|].
  eapply Forall_impl; [exact Hall|]. simpl. intros r Hr. destruct (decide (sr_TaskName r = canonicalSupervisorTaskName (tg_TaskName target))) as [E|E].
  - by rewrite E, lookup_insert_eq in Hr.
  - by rewrite lookup_insert_ne in Hr.
Qed.

Lemma admit_target_ok t ports seen target e :
  admit_target t ports seen target = Ok e ->
  is_canonical (tg_TaskName target) /\ 0 < tg_ExpectedPort target <= 65535 /\ tg_TaskName target ∉ seen /\
  ports !! tg_TaskName target = Some (tg_ExpectedPort target) /\ t_entries t !! tg_TaskName target = Some e /\
  stopSettlementAdmissionEntry (Some e) = true /\ t_stopSettlements t !! tg_TaskName target = None.
Proof.
  unfold admit_target. case_match eqn:E1; [done|]. case_match eqn:E2; [done|]. case_match eqn:E3; [done|].
  case_match eqn:E4; [|done]. case_match eqn:E5; [done|]. case_match eqn:E6; [done|]. intros [= <-].
  apply orb_false_iff in E1 as [[Hc Hp1]%orb_false_iff Hp2]. apply negb_false_iff, str_eqb_true in Hc.
  rewrite <- Hc in *. apply negb_false_iff, bool_decide_eq_true in E3. apply negb_false_iff in E5.
  apply bool_decide_eq_false, eq_None_not_Some in E6. breflect. split_and!; try done.
  intros Hin. assert (existsb (String.eqb (tg_TaskName target)) seen = true) as Hx; [|congruence].
  apply existsb_exists. exists (tg_TaskName target). split; [by apply list_elem_of_In|apply str_eqb_refl].
Qed.

(** A batch is admitted only if every target is: canonical, distinct, with
    its descriptor's port, its generation live or its port fenced, and no
    receipt pending. *)
Lemma admit_targets_ok t ports seen targets admitted :
  admit_targets t ports seen targets = Ok admitted ->
  admitted.*1 = targets /\ NoDup (map tg_TaskName targets) /\
  Forall (fun te => is_canonical (tg_TaskName te.1) /\ 0 < tg_ExpectedPort te.1 <= 65535 /\
    tg_TaskName te.1 ∉ seen /\ ports !! tg_TaskName te.1 = Some (tg_ExpectedPort te.1) /\
    t_entries t !! tg_TaskName te.1 = Some te.2 /\ stopSettlementAdmissionEntry (Some te.2) = true /\
    t_stopSettlements t !! tg_TaskName te.1 = None) admitted.
Proof.
  revert seen admitted. induction targets as [|tg rest IH]; intros seen admitted; simpl.
  { intros [= <-]. split_and!; [done|constructor|constructor]. }
  rewrite let_ok. intros (e&He&H). rewrite let_ok in H. destruct H as (more&Hmore&[= <-]).
  apply admit_target_ok in He. destruct (IH _ _ Hmore) as (Hfst&Hnd&Hall). simpl.
  split_and!; [by f_equal| |constructor; [exact He|]].
  - constructor; [|done]. rewrite <- Hfst. intros Hin.
    apply list_elem_of_fmap in Hin as (tg'&E&Hin). apply list_elem_of_fmap in Hin as ([tg2 e2]&->&Hin).
    rewrite Forall_forall in Hall. destruct (Hall _ Hin) as (_&_&Hn&_). apply Hn. simpl in *. rewrite E. left.
  - eapply Forall_impl; [exact Hall|]. simpl. set_solver.
Qed.

Lemma format_nonempty t : format_range t -> FormatRFC3339Nano t <> "".
Proof. intros H E. pose proof (Parse_Format t H) as P. by rewrite E in P. Qed.

Lemma batch_receipt_ok id epoch i target entry :
  id <> "" -> 0 < epoch -> 0 <= i -> is_canonical (tg_TaskName target) -> tg_TaskName target <> "" ->
  0 < tg_ExpectedPort target <= 65535 -> entry_wf entry -> 0 <= te_PIDGeneration entry ->
  stopSettlementAdmissionEntry (Some entry) = true ->
  receipt_ok (tg_TaskName target) (batch_receipt id epoch i target entry).
Proof.
  intros Hid He Hi Hc Hn Hp (Hpid&_&Hrange&_) Hgen Hadm.
  pose proof (format_nonempty _ Hrange) as Hf. pose proof (Parse_Format _ Hrange) as Hparse.
  unfold receipt_ok, batch_receipt. generalize dependent (FormatRFC3339Nano (te_StartedAt entry)). intros w Hf Hparse.
  cbn [sr_TaskName sr_Revision sr_Attempt sr_Phase sr_ResumePhase]. rewrite Hc. split_and!; try done.
  2: { destruct (te_CurrentPID entry =? 0); done. }
  unfold validStopSettlementReceipt, valid_modes. cbn [sr_Version sr_BatchID sr_TaskName sr_Epoch sr_BatchIndex sr_Mode sr_Port sr_Revision
    sr_Attempt sr_OperationID sr_PID sr_StartedAt sr_PIDGeneration sr_Phase sr_FailureClass sr_FailureDetail sr_ResumePhase].
  apply str_eqb_false in Hid as ->, Hn as ->, Hf.
  replace (epoch =? 0) with false by (symmetry; apply Z.eqb_neq; lia).
  replace (i <? 0) with false by (symmetry; apply Z.ltb_ge; lia).
  replace (tg_ExpectedPort target <=? 0) with false by (symmetry; apply Z.leb_gt; lia).
  replace (65535 <? tg_ExpectedPort target) with false by (symmetry; apply Z.ltb_ge; lia).
  destruct (Z.eqb_spec (te_CurrentPID entry) 0) as [E0|E0].
  - rewrite E0. apply Z.leb_le in Hgen as ->. done.
  - destruct Hpid as [?|(_&Hpos&Hst)]; [done|]. apply Z.ltb_lt in Hpos.
    unfold stopSettlementAdmissionEntry in Hadm. rewrite Hpos in Hadm |- *. apply andb_true_iff in Hadm as [-> _]. rewrite Hf, Hparse. done.
Qed.

Lemma batch_receipts_lookup id epoch i admitted j r :
  batch_receipts id epoch i admitted !! j = Some r ->
  exists target entry, admitted !! j = Some (target, entry) /\
    r = batch_receipt id (epoch + 1 + Z.of_nat j) (i + Z.of_nat j) target entry.
Proof.
  revert epoch i j. induction admitted as [|[target entry] rest IH]; intros epoch i j; simpl; [done|].
  destruct j as [|j]; simpl.
  - intros [= <-]. exists target, entry. split; [done|]. f_equal; lia.
  - intros H. destruct (IH _ _ _ H) as (tg&e&Hl&->). exists tg, e. split; [done|]. f_equal; lia.
Qed.

Lemma batch_receipts_names id epoch i admitted :
  Forall (fun te => is_canonical (tg_TaskName te.1)) admitted ->
  map sr_TaskName (batch_receipts id epoch i admitted) = map tg_TaskName (admitted.*1).
Proof.
  intros H. revert epoch i. induction H as [|[target entry] rest Hc _ IH]; intros epoch i; simpl; [done|].
  f_equal; [exact Hc|apply IH].
Qed.

Lemma batch_receipts_length id epoch i admitted : length (batch_receipts id epoch i admitted) = length admitted.
Proof. revert epoch i. induction admitted as [|[] ? IH]; intros; simpl; [done|]. by rewrite IH. Qed.

Section SettlementFacts.
Context `{Digest}.

Definition rows_of (disk : option SupervisorStateFile) : gmap string StopSettlementReceiptV1 :=
  match disk with Some f => sf_StopSettlements f | None => ∅ end.
Definition epoch_of (disk : option SupervisorStateFile) : Z :=
  match disk with Some f => sf_StopSettlementEpoch f | None => 0 end.

Lemma normalize_rows f : sf_StopSettlements (normalizeSupervisorStateForMutation f) = sf_StopSettlements f.
Proof. unfold normalizeSupervisorStateForMutation. by case_match. Qed.
Lemma normalize_epoch f : sf_StopSettlementEpoch (normalizeSupervisorStateForMutation f) = sf_StopSettlementEpoch f.
Proof. unfold normalizeSupervisorStateForMutation. by case_match. Qed.
Lemma default_rows disk : sf_StopSettlements (normalizeSupervisorStateForMutation (default empty_state_file disk)) = rows_of disk.
Proof. rewrite normalize_rows. by destruct disk. Qed.
Lemma default_epoch disk : sf_StopSettlementEpoch (normalizeSupervisorStateForMutation (default empty_state_file disk)) = epoch_of disk.
Proof. rewrite normalize_epoch. by destruct disk. Qed.

Lemma advance_meta_Ok f f' :
  advanceStopSettlementMapMetadata f = Ok f' ->
  sf_StopSettlements f' = sf_StopSettlements f /\ sf_StopSettlementEpoch f' = sf_StopSettlementEpoch f /\
  sf_Daemons f' = sf_Daemons f /\ sf_StopSettlementMapGeneration f <> u64_max /\
  sf_StopSettlementMapGeneration f' = u64_add (sf_StopSettlementMapGeneration f) 1 /\
  sf_StopSettlementDigest f' =
    map_digest (sf_StopSettlementEpoch f') (sf_StopSettlementMapGeneration f') (sf_StopSettlements f').
Proof.
  unfold advanceStopSettlementMapMetadata. case_match eqn:E; [done|]. intros [= <-]. breflect. done.
Qed.

(** What the durable half of a batch does. *)
Lemma begin_mutation_Ok id known admitted f f' rs :
  0 <= known -> 
  begin_mutation id known admitted f = Ok (f', rs) ->
  let epoch := Z.max known (sf_StopSettlementEpoch f) in
  epoch + Z.of_nat (length admitted) <= u64_max /\
  rs = batch_receipts id epoch 0 admitted /\ Forall (fun r => sf_StopSettlements f !! sr_TaskName r = None) rs /\
  sf_StopSettlements f' = insert_receipts rs (sf_StopSettlements f) /\
  sf_StopSettlementEpoch f' = epoch + Z.of_nat (length admitted) /\ sf_Daemons f' = sf_Daemons f /\
  sf_StopSettlementMapGeneration f <> u64_max /\
  sf_StopSettlementMapGeneration f' = u64_add (sf_StopSettlementMapGeneration f) 1 /\
  sf_StopSettlementDigest f' =
    map_digest (sf_StopSettlementEpoch f') (sf_StopSettlementMapGeneration f') (sf_StopSettlements f').
Proof.
  intros Hk E epoch. unfold begin_mutation in E. fold epoch in E.
  destruct (Z.ltb_spec (u64_max - epoch) (Z.of_nat (length admitted))) as [|Hle]; [done|].
  apply let_ok in E as ([[rs1 e1] rows1]&Hrows&E). apply let_ok in E as (f1&Hmeta&E). simplify_eq/=.
  apply batch_rows_spec in Hrows as (->&->&->&Hall); [|lia|lia].
  apply advance_meta_Ok in Hmeta as (H1&H2&H3&H4&H5&H6). simpl in *.
  split; [lia|]. split_and!; congruence.
Qed.

Lemma install_batch_fields t rs :
  let t' := foldl install_receipt t rs in
  t_stopSettlements t' = insert_receipts rs (t_stopSettlements t) /\
  t_stopSettlementIntegrityErr t' = t_stopSettlementIntegrityErr t /\ t_entries t' = t_entries t /\
  t_stopSettlementEpoch t <= t_stopSettlementEpoch t' /\
  (forall m, t_stopSettlementEpoch t <= m -> Forall (fun r => sr_Epoch r <= m) rs -> t_stopSettlementEpoch t' <= m).
Proof.
  revert t. induction rs as [|r rs IH]; intros t; simpl; [split_and!; try done; lia|].
  destruct (IH (install_receipt t r)) as (H1&H2&H3&H4&H5). simpl in *.
  split_and!; try done; [lia|]. intros m Hm Hall. apply Forall_cons in Hall as [Hr Hall]. apply H5; [lia|done].
Qed.

(** The outcomes of [BeginStopSettlementBatch] past its guards. *)
Lemma Begin_cases t path i disk cmd ports inter t' disk' out :
  BeginStopSettlementBatch t path i disk cmd ports inter = (t', disk', out) ->
  (t' = t /\ disk' = disk /\ is_ok out = false) \/
  exists admitted r, is_blank (sb_BatchID cmd) = false /\ t_stopSettlementIntegrityErr t = "" /\
    admit_targets t ports [] (sb_Targets cmd) = Ok admitted /\
    MutateSupervisorState path i disk (begin_mutation (sb_BatchID cmd) (t_stopSettlementEpoch t) admitted) = (r, disk') /\
    match r with
    | Err e => t' = inter t /\ is_ok out = false
    | Ok rs => install_batch (inter t) rs = (t', out)
    end.
Proof.
  unfold BeginStopSettlementBatch.
  case_match; [intros [= <- <- <-]; by left|]. case_match eqn:Eg; [intros [= <- <- <-]; by left|].
  unfold StopSettlementIntegrityError.
  destruct (t_stopSettlementIntegrityErr t =s "") eqn:Ei; [|intros [= <- <- <-]; by left].
  destruct (admit_targets _ _ _ _) as [admitted|] eqn:Ea; [|intros [= <- <- <-]; by left].
  destruct (u64_max - t_stopSettlementEpoch t <? _); [intros [= <- <- <-]; by left|].
  destruct (MutateSupervisorState _ _ _ _) as [r d1] eqn:Em. intros E. right. exists admitted, r.
  apply orb_false_iff in Eg as [[_ Hb]%orb_false_iff _].
  apply str_eqb_true in Ei.
  destruct r as [rs|e].
  - destruct (install_batch (inter t) rs) as [t1 o1] eqn:Einst. simplify_eq. done.
  - simplify_eq. done.
Qed.

Lemma install_batch_cases t rs t' out :
  install_batch t rs = (t', out) ->
  (existsb (mirror_conflict t) rs = false /\ out = Ok rs /\ t' = foldl install_receipt t rs) \/
  (is_ok out = false /\ t_stopSettlementIntegrityErr t' <> "" /\ t_stopSettlements t' = t_stopSettlements t /\
   t_entries t' = t_entries t /\ t_stopSettlementEpoch t' = t_stopSettlementEpoch t).
Proof. unfold install_batch. case_match eqn:E; intros [= <- <-]; [by right|by left]. Qed.

(** An accepted stop batch is installed whole.  There is one receipt
    per target, in target order, with consecutive epochs above every epoch
    the tracker or the file has ever seen; no target had a receipt before,
    and exactly these receipts are added to the file and to the mirror. *)
Theorem begin_batch_installs t path i disk cmd ports inter t' disk' rs :
  0 <= t_stopSettlementEpoch t ->
  BeginStopSettlementBatch t path i disk cmd ports inter = (t', disk', Ok rs) ->
  let epoch := Z.max (t_stopSettlementEpoch t) (epoch_of disk) in
  map sr_TaskName rs = map tg_TaskName (sb_Targets cmd) /\ NoDup (map sr_TaskName rs) /\
  (forall j r, rs !! j = Some r ->
     sr_Epoch r = epoch + 1 + Z.of_nat j /\ sr_BatchIndex r = Z.of_nat j /\ sr_BatchID r = sb_BatchID cmd) /\
  Forall (fun r => rows_of disk !! sr_TaskName r = None) rs /\
  rows_of disk' = insert_receipts rs (rows_of disk) /\
  epoch_of disk' = epoch + Z.of_nat (length (sb_Targets cmd)) /\
  t_stopSettlements t' = insert_receipts rs (t_stopSettlements (inter t)).
Proof.
  intros H0 H1 epoch. apply Begin_cases in H1 as [(_&_&?)|(admitted&r&_&_&Ha&Hm&Hr)]; [done|].
  destruct r as [rs1|]; [|naive_solver].
  apply install_batch_cases in Hr as [(_&Hr&->)|(?&_)]; [|done]. injection Hr as <-.
  apply Mutate_Ok in Hm as (_&_&f&Hf&->). apply begin_mutation_Ok in Hf; [|done]. simpl in Hf.
  rewrite default_epoch, default_rows in Hf. fold epoch in Hf.
  destruct Hf as (_&Hrs&Hfresh&Hrows&Hepoch&_).
  apply admit_targets_ok in Ha as (Hfst&Hnd&Hall).
  assert (map sr_TaskName rs = map tg_TaskName (sb_Targets cmd)) as Hnames.
  { rewrite Hrs, batch_receipts_names; [by rewrite Hfst|]. eapply Forall_impl; [exact Hall|]. by intros ? [? _]. }
  split_and!; try done.
  - by rewrite Hnames.
  - intros j r Hj. rewrite Hrs in Hj. apply batch_receipts_lookup in Hj as (tg&e&_&->). simpl. split_and!; [lia|lia|done].
  - simpl. by rewrite normalize_rows.
  - simpl. rewrite normalize_epoch, Hepoch, <- Hfst, length_fmap. done.
  - by apply install_batch_fields.
Qed.

(** A refused stop batch installs nothing.  The mirror gains no
    receipt; and the file is untouched too, unless its writer failed after
    replacing it, or the runtime raced the admission, in which case the
    integrity fence is up and blocks every later batch. *)
Theorem begin_batch_refused t path i disk cmd ports inter t' disk' e :
  BeginStopSettlementBatch t path i disk cmd ports inter = (t', disk', Err e) ->
  (forall t, t_stopSettlements (inter t) = t_stopSettlements t) ->
  t_stopSettlements t' = t_stopSettlements t /\
  (disk' = disk \/ (exists e', i = io_fail_after e') \/
   (t_stopSettlementIntegrityErr t' <> "" /\
    forall path2 i2 disk2 cmd2 ports2 inter2,
      is_ok (BeginStopSettlementBatch t' path2 i2 disk2 cmd2 ports2 inter2).2 = false)).
Proof.
  intros H1 Hinter. apply Begin_cases in H1 as [(->&->&_)|(admitted&r&_&_&Ha&Hm&Hr)]; [auto|].
  destruct r as [rs1|e1].
  - apply install_batch_cases in Hr as [(_&?&_)|(_&Hint&Hrows&_)]; [done|]. split; [by rewrite Hrows|].
    right. right. split; [done|]. intros. unfold BeginStopSettlementBatch, StopSettlementIntegrityError.
    apply str_eqb_false in Hint as ->. destruct (is_blank path2); [done|].
    by destruct (negb (sb_ProtocolVersion cmd2 =? 1) || is_blank (sb_BatchID cmd2) || bool_decide (sb_Targets cmd2 = [])).
  - destruct Hr as [-> _]. split; [done|]. apply Mutate_Err in Hm as [->|[[? ->] _]]; eauto.
Qed.
End SettlementFacts.

(** ** Witnesses *)
Section BatchWitnesses.
#[local] Existing Instance ideal_digest.

Definition b_tracker : DaemonRuntimeTracker := apply_op (OpMarkSpawned memory_task 4242 noon) NewDaemonRuntimeTracker.
Definition b_command : stop_batch := mkStopBatch 1 "batch-1" [mkTarget memory_task 9123].
Definition b_begin := BeginStopSettlementBatch b_tracker "state.json" io_ok None b_command {[ memory_task := 9123 ]} (fun t => t).
Definition b_raced := BeginStopSettlementBatch b_tracker "state.json" io_ok None b_command {[ memory_task := 9123 ]}
  (fun t => MarkExited t memory_task).

Definition b_rs : list StopSettlementReceiptV1 := match b_begin.2 with Ok rs => rs | Err _ => [] end.

Lemma begin_batch_installs_witness : map sr_TaskName b_rs = [memory_task] /\ epoch_of b_begin.1.2 = 1.
Proof.
  assert (0 <= t_stopSettlementEpoch b_tracker) as H0 by (vm_compute; congruence).
  assert (BeginStopSettlementBatch b_tracker "state.json" io_ok None b_command {[ memory_task := 9123 ]} (fun t => t) =
    (b_begin.1.1, b_begin.1.2, Ok b_rs)) as E by (vm_compute; reflexivity).
  pose proof (begin_batch_installs _ _ _ _ _ _ _ _ _ _ H0 E) as (H1&_&_&_&_&H2&_).
  split; [rewrite H1; reflexivity|]. rewrite H2. vm_compute. reflexivity.
Defined.

Lemma begin_batch_refused_witness :
  t_stopSettlements b_raced.1.1 = ∅ /\ is_ok b_raced.2 = false.
Proof.
  split; [|vm_compute; reflexivity].
  assert (BeginStopSettlementBatch b_tracker "state.json" io_ok None b_command {[ memory_task := 9123 ]}
    (fun t => MarkExited t memory_task) =
    (b_raced.1.1, b_raced.1.2, Err (errors_New "stop batch raced runtime generation"))) as E by (vm_compute; reflexivity).
  assert (forall t, t_stopSettlements (MarkExited t memory_task) = t_stopSettlements t) as Hf
    by (intros t; apply (apply_op_frame (OpMarkExited memory_task) t)).
  pose proof (begin_batch_refused _ _ _ _ _ _ _ _ _ _ E Hf) as [H _]. rewrite H. vm_compute. reflexivity.
Defined.
End BatchWitnesses.
