(* ===== verification/Recovery.v ===== *)
(** * Persistence and crash recovery of the tracker

    [HydrateFromState] after [PersistTo] restores exactly the durable part
    of every entry, and, for any interleaving of lifecycle marks, stop
    batches, settlement transitions, removals, persists and restarts, the
    receipts in memory and on disk agree, so a crash at any point loses no
    pending stop. *)
From S2P Require Import Prelude GoTime StateFile Readiness Tracker Lifecycle StopSettlement.
Open Scope Z_scope.

(** What survives a restart: PID, start time, generation and the sidecars;
    the state collapses to running or idle, the restart count and the last
    error are forgotten. *)
Definition durable_view (e : DaemonRuntimeEntry) : DaemonRuntimeEntry :=
  mkEntry (supervisorStateFromRuntimeState (te_State e)) (te_CurrentPID e) (te_StartedAt e)
    (te_PIDGeneration e) 0 "" (te_OrphanPID e) (te_JobProtection e)
    (te_SpawnHoldReason e) (te_SpawnHoldPath e) None.

Lemma hydrate_persist_entry e :
  format_range (te_StartedAt e) -> hydrate_entry (persist_entry e) = durable_view e.
Proof.
  intros Hr. unfold hydrate_entry, persist_entry, durable_view. simpl.
  assert (runtimeStateFromSupervisorState (supervisorStateFromRuntimeState (te_State e)) =
    supervisorStateFromRuntimeState (te_State e)) as ->.
  { unfold supervisorStateFromRuntimeState. by case_match. }
  assert ((if (if IsZero (te_StartedAt e) then "" else FormatRFC3339Nano (te_StartedAt e)) =s ""
           then zero_time
           else default zero_time (ParseRFC3339Nano
             (if IsZero (te_StartedAt e) then "" else FormatRFC3339Nano (te_StartedAt e)))) = te_StartedAt e) as ->; [|done].
  unfold IsZero. destruct (Z.eqb_spec (te_StartedAt e) zero_time) as [->|]; [done|].
  pose proof (format_nonempty _ Hr) as Hf. apply str_eqb_false in Hf as ->. by rewrite Parse_Format.
Qed.

Lemma hydrate_receipts_ok l integrity rows :
  (forall kv, kv ∈ l -> receipt_ok kv.1 kv.2) ->
  foldl hydrate_receipt (integrity, rows) l =
  (integrity, foldl (fun m (kv : string * StopSettlementReceiptV1) => <[canonicalSupervisorTaskName kv.1 := kv.2]> m) rows l).
Proof.
  revert rows. induction l as [|[k r] l IH]; intros rows Hok; simpl; [done|].
  destruct (Hok (k, r)) as (Hk&Hn&Hv&_); [left|]. simpl in *.
  rewrite Hn, Hv, Hk, str_eqb_refl. simpl. apply IH. intros kv Hin. apply Hok. by right.
Qed.

Definition rows_ok (m : gmap string StopSettlementReceiptV1) : Prop := map_Forall receipt_ok m.
Definition daemons_ok (m : gmap string SupervisorDaemonState) : Prop :=
  map_Forall (fun k d => is_canonical k /\ entry_wf (hydrate_entry d)) m.

Section Recovery.
Context `{DigestLaws}.

(** The integrity metadata of a file: never written, or consistent. *)
Definition meta_ok (f : SupervisorStateFile) : Prop :=
  (sf_StopSettlementMapGeneration f = 0 /\ sf_StopSettlementDigest f = "" /\ sf_StopSettlements f = ∅) \/
  (0 < sf_StopSettlementMapGeneration f /\
   sf_StopSettlementDigest f =
     map_digest (sf_StopSettlementEpoch f) (sf_StopSettlementMapGeneration f) (sf_StopSettlements f)).

Lemma meta_ok_integrity f : meta_ok f -> hydrate_integrity f = "".
Proof.
  unfold hydrate_integrity. intros [(->&->&->)|[Hg Hd]].
  - rewrite bool_decide_eq_true_2 by done. done.
  - case_match; [|done]. rewrite Hd, str_eqb_refl.
    assert (sf_StopSettlementMapGeneration f =? 0 = false) as -> by (apply Z.eqb_neq; lia).
    by rewrite (proj2 (str_eqb_false _ _) (map_digest_nonempty _ _ _)).
Qed.

(** Hydrating a fresh tracker from a well-formed file. *)
Lemma hydrate_fresh f :
  rows_ok (sf_StopSettlements f) -> daemons_ok (sf_Daemons f) -> meta_ok f -> 0 <= sf_StopSettlementEpoch f ->
  let t := HydrateFromState NewDaemonRuntimeTracker f in
  t_stopSettlementIntegrityErr t = "" /\ t_stopSettlements t = sf_StopSettlements f /\
  t_stopSettlementEpoch t = sf_StopSettlementEpoch f /\
  (forall k, t_entries t !! k = hydrate_entry <$> sf_Daemons f !! k) /\ tracker_wf t.
Proof.
  intros Hr Hd Hm He. unfold HydrateFromState. simpl.
  rewrite hydrate_receipts_ok by (intros [k r] Hin; apply elem_of_map_to_list in Hin; by apply Hr in Hin).
  rewrite meta_ok_integrity by done. cbn.
  assert (forall k, foldl (fun es kv => <[canonicalSupervisorTaskName kv.1 := hydrate_entry kv.2]> es) (∅ : gmap string DaemonRuntimeEntry)
    (map_to_list (sf_Daemons f)) !! k = hydrate_entry <$> sf_Daemons f !! k) as Hes.
  { intros k. rewrite (foldl_insert_map hydrate_entry canonicalSupervisorTaskName).
    - by destruct (sf_Daemons f !! k).
    - intros k' d Hk'. by apply Hd in Hk' as [? _]. }
  split_and!; try done.
  - apply map_eq. intros k.
    rewrite (foldl_insert_map (fun r => r) canonicalSupervisorTaskName).
    + by destruct (sf_StopSettlements f !! k).
    + intros k' r Hk'. by apply Hr in Hk' as [? _].
  - lia.
  - intros k e. simpl. rewrite Hes. intros (d&Hk&->)%fmap_Some. by apply Hd in Hk.
Qed.

(** ** The supervisor's durable system: a tracker and its state file *)
Record sys := mkSys { tr : DaemonRuntimeTracker; dk : option SupervisorStateFile }.

Definition start : sys := mkSys NewDaemonRuntimeTracker None.

(** I/O that fails does so before the file is replaced. *)
Definition io_clean (i : io) : Prop := match i with io_fail_after _ => False | _ => True end.

(** No target of a stop command has the empty task name. *)
Definition named_targets (cmd : stop_batch) : Prop := Forall (fun tg => tg_TaskName tg <> "") (sb_Targets cmd).

(** No generation in the tracker has wrapped around. *)
Definition unwrapped (t : DaemonRuntimeTracker) : Prop := map_Forall (fun _ e => 0 <= te_PIDGeneration e) (t_entries t).

Inductive sys_step : sys -> sys -> Prop :=
| step_mark op t d : op_ok op -> sys_step (mkSys t d) (mkSys (apply_op op t) d)
| step_begin path i cmd ports ops t d t' d' r :
    io_clean i -> Forall op_ok ops -> named_targets cmd -> unwrapped t ->
    BeginStopSettlementBatch t path i d cmd ports (apply_ops ops) = (t', d', r) ->
    sys_step (mkSys t d) (mkSys t' d')
| step_advance path i expected phase fc fd ops t d t' d' r :
    io_clean i -> Forall op_ok ops ->
    (phase = StopSettlementPhaseFailed -> is_blank fd = false) ->
    AdvanceStopSettlement t path i d expected phase fc fd (apply_ops ops) = (t', d', r) ->
    sys_step (mkSys t d) (mkSys t' d')
| step_remove path i expected ops t d t' d' r :
    io_clean i -> Forall op_ok ops ->
    RemoveStopSettlement t path i d expected (apply_ops ops) = (t', d', r) ->
    sys_step (mkSys t d) (mkSys t' d')
| step_persist path i t d r d' :
    io_clean i -> PersistTo t path i d = (r, d') -> sys_step (mkSys t d) (mkSys t d')
| step_restart t d t' :
    loadDaemonRuntimeTrackerFromStatePath io_ok d = (t', None) -> sys_step (mkSys t d) (mkSys t' d).

Inductive reachable : sys -> Prop :=
| reach_start : reachable start
| reach_step s s' : reachable s -> sys_step s s' -> reachable s'.

(** ** The invariant *)

(** Every increment of a receipt's counters is a write of the file, and the
    file's generation counter refuses to wrap; so the former never do. *)
Definition rows_bounded (gen : Z) (m : gmap string StopSettlementReceiptV1) : Prop :=
  map_Forall (fun _ r => sr_Revision r <= gen /\ sr_Attempt r <= gen) m.

Lemma rows_bounded_le gen gen' m : gen <= gen' -> rows_bounded gen m -> rows_bounded gen' m.
Proof. intros Hle Hb k r Hk. apply Hb in Hk. lia. Qed.

Definition disk_ok (d : option SupervisorStateFile) : Prop :=
  match d with
  | None => True
  | Some f =>
      rows_ok (sf_StopSettlements f) /\ daemons_ok (sf_Daemons f) /\ meta_ok f /\
      0 <= sf_StopSettlementEpoch f <= u64_max /\ is_u64 (sf_StopSettlementMapGeneration f) /\
      rows_bounded (sf_StopSettlementMapGeneration f) (sf_StopSettlements f)
  end.

Definition sys_inv (s : sys) : Prop :=
  tracker_wf (tr s) /\ disk_ok (dk s) /\
  0 <= t_stopSettlementEpoch (tr s) <= epoch_of (dk s) /\
  (t_stopSettlementIntegrityErr (tr s) = "" -> t_stopSettlements (tr s) = rows_of (dk s)).

Lemma apply_ops_frame ops t :
  let t' := apply_ops ops t in
  t_stopSettlements t' = t_stopSettlements t /\ t_stopSettlementEpoch t' = t_stopSettlementEpoch t /\
  t_stopSettlementIntegrityErr t' = t_stopSettlementIntegrityErr t.
Proof.
  unfold apply_ops. revert t. induction ops as [|op ops IH]; intros t; simpl; [done|].
  destruct (IH (apply_op op t)) as (H1&H2&H3), (apply_op_frame op t) as (H4&H5&H6&_). split_and!; congruence.
Qed.

Lemma inv_ops ops t d : Forall op_ok ops -> sys_inv (mkSys t d) -> sys_inv (mkSys (apply_ops ops t) d).
Proof.
  intros Hops (Hwf&Hd&He&Hrows). destruct (apply_ops_frame ops t) as (H1&H2&H3).
  unfold sys_inv in *. simpl in *. rewrite H1, H2, H3. split_and!; try done; try lia.
  unfold apply_ops. clear -Hops Hwf. revert t Hwf. induction Hops; intros t Hwf; simpl; auto using apply_op_wf.
Qed.

Lemma insert_receipts_all (R : string -> StopSettlementReceiptV1 -> Prop) rs m :
  map_Forall R m -> Forall (fun r => R (sr_TaskName r) r) rs -> map_Forall R (insert_receipts rs m).
Proof.
  unfold insert_receipts. intros Hm Hrs. revert m Hm. induction Hrs; intros m Hm; simpl; [done|].
  apply IHHrs. by apply map_Forall_insert_2.
Qed.

Lemma meta_advanced f f' :
  is_u64 (sf_StopSettlementMapGeneration f) -> sf_StopSettlementMapGeneration f <> u64_max ->
  sf_StopSettlementMapGeneration f' = u64_add (sf_StopSettlementMapGeneration f) 1 ->
  sf_StopSettlementDigest f' = map_digest (sf_StopSettlementEpoch f') (sf_StopSettlementMapGeneration f') (sf_StopSettlements f') ->
  meta_ok f' /\ is_u64 (sf_StopSettlementMapGeneration f') /\
  sf_StopSettlementMapGeneration f' = sf_StopSettlementMapGeneration f + 1 /\ 0 <= sf_StopSettlementMapGeneration f < u64_max.
Proof.
  intros Hu Hne Hg Hd. assert (sf_StopSettlementMapGeneration f < u64_max) by (unfold is_u64, u64_max, u64_modulus in *; lia).
  destruct (u64_next _ Hu H1) as (E&Hu'&_). rewrite E in Hg. split_and!; [right; split; [|done]|by rewrite Hg|done|..]; unfold is_u64 in Hu; lia.
Qed.

Lemma normalize_daemons f : sf_Daemons (normalizeSupervisorStateForMutation f) = sf_Daemons f.
Proof. unfold normalizeSupervisorStateForMutation. by case_match. Qed.

(** The file a mutation starts from, when the file on disk is well formed. *)
Lemma default_disk_ok d : disk_ok d ->
  disk_ok (Some (normalizeSupervisorStateForMutation (default empty_state_file d))).
Proof.
  intros Hd. assert (disk_ok (Some (default empty_state_file d))) as Hd'.
  { destruct d as [f|]; [done|]. simpl. split_and!; try done; try by apply map_Forall_empty. by left. }
  unfold normalizeSupervisorStateForMutation. by case_match.
Qed.

Lemma normalize_disk_ok f : disk_ok (Some f) -> disk_ok (Some (normalizeSupervisorStateForMutation f)).
Proof. unfold normalizeSupervisorStateForMutation. by case_match. Qed.

Lemma begin_receipts_ok t ports targets admitted id epoch :
  tracker_wf t -> unwrapped t -> Forall (fun tg => tg_TaskName tg <> "") targets -> is_blank id = false -> 0 <= epoch ->
  admit_targets t ports [] targets = Ok admitted ->
  Forall (fun r => receipt_ok (sr_TaskName r) r) (batch_receipts id epoch 0 admitted).
Proof.
  intros Hwf Hun Hnames Hid He Ha. apply admit_targets_ok in Ha as (Htg&_&Hall).
  apply Forall_lookup. intros j r Hj. apply batch_receipts_lookup in Hj as (tg&e&Hl&->).
  eapply Forall_lookup in Hall as (Hc&Hp&_&_&Hent&Hadm&_); [|exact Hl]. simpl in *.
  pose proof (Hun _ _ Hent) as Hgen. apply Hwf in Hent as (_&Hwfe).
  assert (tg_TaskName tg <> "") as Hne.
  { refine (Forall_lookup_1 (fun tg => tg_TaskName tg <> "") targets j tg Hnames _). rewrite <- Htg, list_lookup_fmap, Hl. done. }
  change (sr_TaskName (batch_receipt id (epoch + 1 + Z.of_nat j) (Z.of_nat j) tg e))
    with (canonicalSupervisorTaskName (tg_TaskName tg)). rewrite Hc.
  apply batch_receipt_ok; try done; [by apply is_blank_false_ne|lia|lia].
Qed.

Lemma batch_epochs_le id epoch admitted :
  Forall (fun r => sr_Epoch r <= epoch + Z.of_nat (length admitted)) (batch_receipts id epoch 0 admitted).
Proof.
  apply Forall_lookup. intros j r Hj. pose proof (lookup_lt_Some _ _ _ Hj) as Hlt.
  rewrite batch_receipts_length in Hlt. apply batch_receipts_lookup in Hj as (tg&e&_&->). simpl. lia.
Qed.

Lemma batch_fresh id epoch i admitted gen :
  1 <= gen -> Forall (fun r => sr_Revision r <= gen /\ sr_Attempt r <= gen) (batch_receipts id epoch i admitted).
Proof.
  intros Hg. apply Forall_lookup. intros j r Hj. apply batch_receipts_lookup in Hj as (tg&e&_&->). by simpl.
Qed.

Lemma inv_begin t path i d cmd ports ops t' d' r :
  io_clean i -> Forall op_ok ops -> named_targets cmd -> unwrapped t -> sys_inv (mkSys t d) ->
  BeginStopSettlementBatch t path i d cmd ports (apply_ops ops) = (t', d', r) -> sys_inv (mkSys t' d').
Proof.
  intros Hi Hops Hnames Hun Hinv Hb. pose proof (inv_ops ops t d Hops Hinv) as Hinv2.
  apply Begin_cases in Hb as [(->&->&_)|(admitted&q&Hid&_&Ha&Hm&Hq)]; [done|].
  destruct q as [rs|e].
  2: { destruct Hq as [-> _]. by apply Mutate_Err in Hm as [->|[[? ->] _]]. }
  destruct Hinv as (Hwf&Hd&He&Hrows). simpl in *.
  apply Mutate_Ok in Hm as (_&_&f&Hf&->). apply begin_mutation_Ok in Hf; [|lia]. cbn zeta in Hf.
  rewrite default_epoch, default_rows in Hf.
  replace (Z.max (t_stopSettlementEpoch t) (epoch_of d)) with (epoch_of d) in Hf by lia.
  destruct Hf as (Hmax&Hrs&_&Hfrows&Hfep&Hfd&Hgne&Hg&Hdig).
  pose proof (default_disk_ok d Hd) as (Hr0&Hd0&_&_&Hg0&Hb0).
  assert (Forall (fun r => receipt_ok (sr_TaskName r) r) rs) as Hrok by (subst rs; eapply begin_receipts_ok; eauto; lia).
  destruct (meta_advanced _ _ Hg0 Hgne Hg Hdig) as (Hmeta&Hg1&Hg2&Hg3).
  assert (disk_ok (Some (normalizeSupervisorStateForMutation f))) as Hdok.
  { apply normalize_disk_ok. simpl. rewrite default_rows in Hr0, Hb0. rewrite Hfrows, Hfd, Hfep.
    split_and!; try done; try lia; [by apply insert_receipts_all|].
    rewrite Hg2. apply insert_receipts_all; [by eapply rows_bounded_le; [|exact Hb0]; lia|].
    subst rs. apply batch_fresh. lia. }
  destruct Hinv2 as (Hwf2&_&He2&Hrows2). simpl in *.
  unfold sys_inv. simpl tr. simpl dk. simpl epoch_of. simpl rows_of.
  rewrite normalize_epoch, normalize_rows, Hfep, Hfrows.
  apply install_batch_cases in Hq as [(_&_&->)|(_&Herr&_&Hent&Hep)].
  - destruct (install_batch_fields (apply_ops ops t) rs) as (I1&I2&I3&I4&I5).
    split_and!; [by unfold tracker_wf; rewrite I3|done|lia| |].
    + apply I5; [lia|]. subst rs. apply batch_epochs_le.
    + rewrite I1, I2. intros E. by rewrite Hrows2.
  - split_and!; [by unfold tracker_wf; rewrite Hent|done|lia|lia|by intros ?].
Qed.

(** Replacing or deleting one row of the file. *)
Lemma replace_mutation_Ok expected next f f' u :
  replace_mutation expected next f = Ok (f', u) ->
  settlement_current (sf_StopSettlements f) expected = true /\
  sf_StopSettlements f' = partial_alter (fun _ => next) (sr_TaskName expected) (sf_StopSettlements f) /\
  sf_StopSettlementEpoch f' = sf_StopSettlementEpoch f /\ sf_Daemons f' = sf_Daemons f /\
  sf_StopSettlementMapGeneration f <> u64_max /\
  sf_StopSettlementMapGeneration f' = u64_add (sf_StopSettlementMapGeneration f) 1 /\
  sf_StopSettlementDigest f' =
    map_digest (sf_StopSettlementEpoch f') (sf_StopSettlementMapGeneration f') (sf_StopSettlements f').
Proof.
  unfold replace_mutation. destruct (settlement_current _ _); simpl; [|done]. rewrite let_ok.
  intros (f1&Hmeta&[= <-]). apply advance_meta_Ok in Hmeta as (I1&I2&I3&I4&I5&I6). simpl in *.
  split_and!; congruence.
Qed.

Lemma settlement_current_spec m expected :
  settlement_current m expected = true <-> m !! sr_TaskName expected = Some expected.
Proof.
  unfold settlement_current, sameStopSettlementRevision. destruct (m !! sr_TaskName expected) as [c|]; [|done].
  rewrite str_eqb_true. split; [intros E%receipt_digest_inj; by subst|by intros [= ->]].
Qed.

(** The disk after a successful replacement. *)
Lemma replace_disk path i d expected next u d' :
  disk_ok d ->
  (receipt_ok (sr_TaskName expected) expected -> sr_Revision expected < u64_max -> sr_Attempt expected < u64_max ->
   forall r, next = Some r -> receipt_ok (sr_TaskName expected) r /\ sr_Revision r <= sr_Revision expected + 1 /\
     sr_Attempt r <= sr_Attempt expected + 1) ->
  MutateSupervisorState path i d (replace_mutation expected next) = (Ok u, d') ->
  rows_of d !! sr_TaskName expected = Some expected /\
  (receipt_ok (sr_TaskName expected) expected /\ sr_Revision expected < u64_max /\ sr_Attempt expected < u64_max) /\
  disk_ok d' /\ epoch_of d' = epoch_of d /\
  rows_of d' = partial_alter (fun _ => next) (sr_TaskName expected) (rows_of d).
Proof.
  intros Hd Hnext Hm. apply Mutate_Ok in Hm as (_&_&f&Hf&->).
  apply replace_mutation_Ok in Hf as (Hcur&Hrows&Hep&Hda&Hgne&Hg&Hdig).
  pose proof (default_disk_ok d Hd) as (Hr0&Hd0&_&He0&Hg0&Hb0).
  rewrite default_rows, ?default_epoch in *. apply settlement_current_spec in Hcur.
  destruct (meta_advanced _ _ Hg0 Hgne Hg Hdig) as (Hmeta&Hg1&Hg2&Hg3).
  pose proof (Hb0 _ _ Hcur) as [Hb1 Hb2]. pose proof (Hr0 _ _ Hcur) as Hexp.
  assert (sr_Revision expected < u64_max /\ sr_Attempt expected < u64_max) as [Hx1 Hx2] by lia.
  specialize (Hnext Hexp Hx1 Hx2). split; [done|]. split; [done|]. split; [|split].
  - apply normalize_disk_ok. simpl. rewrite Hrows, Hep, Hda. split_and!; try done; try lia;
      intros k r; (destruct (decide (sr_TaskName expected = k)) as [<-|Hne];
        [rewrite lookup_partial_alter_eq; intros Hn; apply Hnext in Hn as (?&?&?); try done; lia|];
        rewrite lookup_partial_alter_ne by done; intros Hk); [by apply Hr0|apply Hb0 in Hk; lia].
  - simpl. by rewrite normalize_epoch.
  - simpl. by rewrite normalize_rows.
Qed.

Lemma durable_view_wf e : entry_wf e -> entry_wf (durable_view e).
Proof.
  intros (Hpid&Hgen&Hr&_). unfold entry_wf, durable_view. simpl. split_and!; try done.
  destruct Hpid as [?|(Hs&?&?)]; [by left|right]. rewrite Hs. done.
Qed.

(** The next receipt of a transition whose counters do not wrap. *)
Lemma next_within expected phase fc fd next :
  (phase = StopSettlementPhaseFailed -> is_blank fd = false) ->
  nextStopSettlementReceipt expected phase fc fd = Ok next ->
  receipt_ok (sr_TaskName expected) expected -> sr_Revision expected < u64_max -> sr_Attempt expected < u64_max ->
  forall r, Some next = Some r -> receipt_ok (sr_TaskName expected) r /\ sr_Revision r <= sr_Revision expected + 1 /\
     sr_Attempt r <= sr_Attempt expected + 1.
Proof.
  intros Hfd En Hexp Hrev Hatt r [= <-].
  destruct (next_receipt_step _ _ _ _ _ _ Hexp Hrev Hatt Hfd En) as [->|(_&Hr&Hs&?)]; [split_and!; [done|lia..]|].
  split_and!; [done|lia|]. inversion Hs; lia.
Qed.

Lemma inv_advance t path i d expected phase fc fd ops t' d' r :
  io_clean i -> Forall op_ok ops -> (phase = StopSettlementPhaseFailed -> is_blank fd = false) -> sys_inv (mkSys t d) ->
  AdvanceStopSettlement t path i d expected phase fc fd (apply_ops ops) = (t', d', r) -> sys_inv (mkSys t' d').
Proof.
  intros Hi Hops Hfd Hinv. pose proof (inv_ops ops t d Hops Hinv) as Hinv2.
  unfold AdvanceStopSettlement.
  case_match; [by intros [= <- <- _]|]. case_match; [by intros [= <- <- _]|]. case_match; [by intros [= <- <- _]|].
  destruct (nextStopSettlementReceipt _ _ _ _) as [next|] eqn:En; [|by intros [= <- <- _]].
  case_match; [by intros [= <- <- _]|].
  destruct (MutateSupervisorState _ _ _ _) as [q d1] eqn:Em. destruct q as [u|e].
  2: { intros [= <- <- _]. by apply Mutate_Err in Em as [->|[[? ->] _]]. }
  destruct Hinv as (Hwf&Hd&He&Hrows). simpl in *.
  apply replace_disk in Em as (_&_&Hd1&Hep1&Hrows1); [|done|by eapply next_within].
  destruct Hinv2 as (Hwf2&_&He2&Hrows2). simpl in *.
  case_match; intros [= <- <- _]; unfold sys_inv; simpl; rewrite Hep1; split_and!; try done; try lia.
  intros E. by rewrite Hrows2, Hrows1.
Qed.

Lemma inv_remove t path i d expected ops t' d' r :
  io_clean i -> Forall op_ok ops -> sys_inv (mkSys t d) ->
  RemoveStopSettlement t path i d expected (apply_ops ops) = (t', d', r) -> sys_inv (mkSys t' d').
Proof.
  intros Hi Hops Hinv. pose proof (inv_ops ops t d Hops Hinv) as Hinv2. unfold RemoveStopSettlement.
  case_match; [by intros [= <- <- _]|]. case_match; [by intros [= <- <- _]|]. case_match; [by intros [= <- <- _]|].
  destruct (MutateSupervisorState _ _ _ _) as [q d1] eqn:Em. destruct q as [u|e].
  2: { intros [= <- <- _]. by apply Mutate_Err in Em as [->|[[? ->] _]]. }
  destruct Hinv as (Hwf&Hd&He&Hrows). simpl in *.
  apply replace_disk in Em as (_&_&Hd1&Hep1&Hrows1); [|done|done].
  destruct Hinv2 as (Hwf2&_&He2&Hrows2). simpl in *.
  case_match; intros [= <- <- _]; unfold sys_inv; simpl; rewrite Hep1; split_and!; try done; try lia.
  intros E. by rewrite Hrows2, Hrows1.
Qed.

Lemma persist_daemons_ok t : tracker_wf t -> daemons_ok (persist_entry <$> t_entries t).
Proof.
  intros Hwf k d. rewrite lookup_fmap. intros (e&Hk&->)%fmap_Some. apply Hwf in Hk as (Hc&He).
  split_and!; [done..|]. rewrite hydrate_persist_entry by apply He. by apply durable_view_wf.
Qed.

Lemma persist_mutation_Ok t f f' u :
  persist_mutation t f = Ok (f', u) -> t_stopSettlementEpoch t <= sf_StopSettlementEpoch f ->
  sf_Daemons f' = persist_entry <$> t_entries t /\ sf_StopSettlementEpoch f' = sf_StopSettlementEpoch f /\
  ((t_stopSettlementIntegrityErr t <> "" /\ sf_StopSettlements f' = sf_StopSettlements f /\
    sf_StopSettlementMapGeneration f' = sf_StopSettlementMapGeneration f /\
    sf_StopSettlementDigest f' = sf_StopSettlementDigest f) \/
   (t_stopSettlementIntegrityErr t = "" /\ sf_StopSettlements f' = t_stopSettlements t /\
    sf_StopSettlementMapGeneration f <> u64_max /\
    sf_StopSettlementMapGeneration f' = u64_add (sf_StopSettlementMapGeneration f) 1 /\
    sf_StopSettlementDigest f' =
      map_digest (sf_StopSettlementEpoch f') (sf_StopSettlementMapGeneration f') (sf_StopSettlements f'))).
Proof.
  unfold persist_mutation. intros E Hle. destruct (String.eqb_spec (t_stopSettlementIntegrityErr t) "") as [Hi|Hi]; simpl in E.
  - apply let_ok in E as (f1&Hmeta&[= <-]). apply advance_meta_Ok in Hmeta as (I1&I2&I3&I4&I5&I6). simpl in *.
    split_and!; [done|rewrite I2; lia|]. right. split_and!; congruence.
  - injection E as <-. simpl. split_and!; [done|lia|]. by left.
Qed.

Lemma inv_persist t path i d r d' :
  io_clean i -> sys_inv (mkSys t d) -> PersistTo t path i d = (r, d') ->
  sys_inv (mkSys t d') /\
  (is_ok r = true -> exists f, d' = Some f /\ sf_Daemons f = persist_entry <$> t_entries t).
Proof.
  intros Hi Hinv Hp. unfold PersistTo in Hp. destruct r as [u|e].
  2: { apply Mutate_Err in Hp as [->|[[? ->] _]]; [|done]. by split. }
  destruct Hinv as (Hwf&Hd&He&Hrows). simpl in *.
  apply Mutate_Ok in Hp as (_&_&f&Hf&->). pose proof (default_disk_ok d Hd) as (Hr0&_&Hm0&He0&Hg0&Hb0).
  apply persist_mutation_Ok in Hf; [|rewrite default_epoch; lia]. rewrite default_epoch, default_rows in *.
  destruct Hf as (Hda&Hep&Hcase).
  assert (disk_ok (Some f) /\ sf_StopSettlements f = (if decide (t_stopSettlementIntegrityErr t = "") then t_stopSettlements t else rows_of d)) as [Hok Hrf].
  { destruct Hcase as [(Hne&E1&E2&E3)|(Hi0&E1&Hgne&E2&E3)].
    - rewrite decide_False by done. split; [|done]. simpl. rewrite E1, Hda, Hep, E2. split_and!; try done; try lia.
      + by apply persist_daemons_ok.
      + unfold meta_ok in *. rewrite E1, E2, E3, Hep, default_epoch, default_rows in *. exact Hm0.
    - rewrite decide_True by done. split; [|done]. simpl. destruct (meta_advanced _ _ Hg0 Hgne E2 E3) as (Hmeta&Hg1&Hg2&_).
      rewrite E1, Hda, Hep, Hrows by done. split_and!; try done; try lia; [by apply persist_daemons_ok|].
      rewrite Hg2. eapply rows_bounded_le; [|exact Hb0]. lia. }
  split.
  - unfold sys_inv. simpl tr. simpl dk. simpl epoch_of. simpl rows_of.
    rewrite normalize_epoch, normalize_rows, Hep, Hrf.
    split_and!; [done|by apply normalize_disk_ok|lia|lia|]. intros Hi0. by rewrite decide_True by done.
  - intros _. eexists. split; [done|]. by rewrite normalize_daemons.
Qed.

Lemma inv_restart t d t' :
  sys_inv (mkSys t d) -> loadDaemonRuntimeTrackerFromStatePath io_ok d = (t', None) -> sys_inv (mkSys t' d).
Proof.
  intros (_&Hd&_&_). unfold loadDaemonRuntimeTrackerFromStatePath. destruct d as [f|]; simpl in *.
  - intros [= <-]. pose proof Hd as (Hr&Hda&Hm&He&_).
    destruct (hydrate_fresh f Hr Hda Hm ltac:(lia)) as (E1&E2&E3&_&Hwf).
    unfold sys_inv. simpl tr. simpl dk. simpl epoch_of. simpl rows_of. rewrite E2, E3.
    split_and!; [done|exact Hd|lia|lia|done].
  - intros [= <-]. by split_and!.
Qed.

Lemma reachable_inv s : reachable s -> sys_inv s.
Proof.
  induction 1 as [|s s' _ IH Hstep].
  - by split_and!.
  - destruct Hstep.
    + apply (inv_ops [op]); [|done]. by constructor; [|constructor].
    + by eapply inv_begin.
    + by eapply inv_advance.
    + by eapply inv_remove.
    + by eapply inv_persist.
    + by eapply inv_restart.
Qed.

(** Persisting and reloading.  From any reachable state, once a persist
    has succeeded, reloading the file into a fresh tracker yields exactly the
    durable view of every entry (PID, start time to the nanosecond,
    generation, orphan, job protection, spawn hold), the same settlement
    epoch or a later one, and no integrity fence. *)
Theorem hydrate_persist_round_trip t d path i d' :
  reachable (mkSys t d) -> io_clean i -> PersistTo t path i d = (Ok tt, d') ->
  exists t2, loadDaemonRuntimeTrackerFromStatePath io_ok d' = (t2, None) /\
    (forall k, t_entries t2 !! k = durable_view <$> t_entries t !! k) /\
    t_stopSettlementIntegrityErr t2 = "" /\ t_stopSettlementEpoch t <= t_stopSettlementEpoch t2.
Proof.
  intros Hreach Hi Hp. pose proof (reachable_inv _ Hreach) as Hinv.
  destruct (inv_persist _ _ _ _ _ _ Hi Hinv Hp) as [(_&Hd&He&_) Hex].
  destruct (Hex eq_refl) as (f&->&Hda). simpl in Hd, He. pose proof Hd as (Hr&Hdo&Hm&He0&_).
  exists (HydrateFromState NewDaemonRuntimeTracker f). split; [done|].
  destruct (hydrate_fresh f Hr Hdo Hm ltac:(lia)) as (I1&I2&I3&I4&_). rewrite I1, I3.
  split_and!; [|done|lia]. intros k. rewrite I4, Hda, lookup_fmap.
  destruct (t_entries t !! k) as [e|] eqn:Hk; simpl; [|done]. f_equal.
  destruct Hinv as (Hwf&_). apply hydrate_persist_entry. by apply Hwf in Hk as (_&_&_&?&_).
Qed.

Lemma inv_recovers s :
  sys_inv s -> t_stopSettlementIntegrityErr (tr s) = "" ->
  exists t2, loadDaemonRuntimeTrackerFromStatePath io_ok (dk s) = (t2, None) /\
    t_stopSettlements t2 = t_stopSettlements (tr s) /\
    t_stopSettlementIntegrityErr t2 = "" /\ t_stopSettlementEpoch (tr s) <= t_stopSettlementEpoch t2 /\
    map_Forall (fun k r => sr_TaskName r = k /\ validStopSettlementReceipt r = true) (t_stopSettlements t2).
Proof.
  intros (_&Hd&He&Hrows) Hint. specialize (Hrows Hint).
  destruct (dk s) as [f|].
  - simpl in Hd, He, Hrows. destruct Hd as (Hr&Hdo&Hm&He0&_).
    exists (HydrateFromState NewDaemonRuntimeTracker f). split; [done|].
    destruct (hydrate_fresh f Hr Hdo Hm ltac:(lia)) as (I1&I2&I3&_&_). rewrite I1, I2, I3, Hrows.
    split_and!; [done|done|lia|]. intros k r Hk. by apply Hr in Hk as (_&?&?&_).
  - simpl in He, Hrows. exists NewDaemonRuntimeTracker. rewrite Hrows. simpl. split_and!; try done. lia.
Qed.

(** The life of one receipt.  An advance that succeeds either changes
    nothing or takes one step of the phase diagram stop_requested ->
    exit_observed -> port_released, into failure from any of them, or back
    from failure to the phase it failed in (a new attempt); it keeps the
    receipt's identity, bumps its revision by one, leaves it valid, and
    writes the same receipt to the file and to the mirror. *)
Theorem advance_follows_phases s path i expected phase fc fd ops t' d' n :
  reachable s -> io_clean i -> (phase = StopSettlementPhaseFailed -> is_blank fd = false) ->
  t_stopSettlementIntegrityErr (tr s) = "" ->
  AdvanceStopSettlement (tr s) path i (dk s) expected phase fc fd (apply_ops ops) = (t', d', Ok n) ->
  (n = expected /\ d' = dk s /\ t' = tr s) \/
  (sameStopSettlementToken n expected = true /\ sr_Revision n = sr_Revision expected + 1 /\
   phase_step expected n /\ receipt_ok (sr_TaskName expected) n /\
   rows_of d' = <[sr_TaskName expected := n]> (rows_of (dk s)) /\
   t_stopSettlements t' = <[sr_TaskName expected := n]> (t_stopSettlements (tr s))).
Proof.
  intros Hreach Hi Hfd Hint. destruct s as [t d]. pose proof (reachable_inv _ Hreach) as (_&Hd&_&Hrows).
  simpl in *. specialize (Hrows Hint). unfold AdvanceStopSettlement.
  case_match; [done|]. case_match; [done|]. case_match; [done|].
  destruct (nextStopSettlementReceipt _ _ _ _) as [next|] eqn:En; [|done].
  case_match; [intros [= <- <- <-]; by left|].
  destruct (MutateSupervisorState _ _ _ _) as [q d1] eqn:Em. destruct q as [u|e]; [|done].
  case_match; [done|]. intros [= <- <- <-]. right.
  apply replace_disk in Em as (Hcur&(Hexp&Hrev&Hatt)&_&_&Hr1); [|done|by eapply next_within].
  destruct (next_receipt_step _ _ _ _ _ _ Hexp Hrev Hatt Hfd En) as [->|(Htok&Hrv&Hps&Hok)].
  { unfold sameStopSettlementRevision in *. rewrite str_eqb_refl in *. done. }
  destruct (apply_ops_frame ops t) as (I1&_&_). split_and!; try done. simpl. by rewrite I1.
Qed.

(** A stop is forgotten only when its port is free.  A removal that
    succeeds was given exactly the receipt on file, in phase port_released;
    afterwards neither the file nor the mirror holds one for that task, and
    every other receipt is untouched. *)
Theorem remove_only_released s path i expected ops t' d' :
  reachable s -> io_clean i ->
  RemoveStopSettlement (tr s) path i (dk s) expected (apply_ops ops) = (t', d', Ok tt) ->
  sr_Phase expected = "port_released" /\ rows_of (dk s) !! sr_TaskName expected = Some expected /\
  rows_of d' = delete (sr_TaskName expected) (rows_of (dk s)) /\
  t_stopSettlements t' = delete (sr_TaskName expected) (t_stopSettlements (tr s)).
Proof.
  intros Hreach Hi. destruct s as [t d]. pose proof (reachable_inv _ Hreach) as (_&Hd&_&_). simpl in *.
  unfold RemoveStopSettlement. case_match; [done|]. case_match eqn:Eg; [done|]. case_match; [done|].
  destruct (MutateSupervisorState _ _ _ _) as [q d1] eqn:Em. destruct q as [u|e]; [|done].
  case_match; [done|]. intros [= <- <-].
  apply replace_disk in Em as (Hcur&_&_&_&Hr1); [|done|done].
  destruct (apply_ops_frame ops t) as (I1&_&_). apply orb_false_iff in Eg as [_ Ep].
  apply negb_false_iff, str_eqb_true in Ep. split_and!; try done. simpl. by rewrite I1.
Qed.
End Recovery.

(** ** Witnesses: one stop from request to removal *)
Section Witnesses.
#[local] Existing Instance ideal_digest.
#[local] Existing Instance ideal_digest_laws.

Definition w_spawned : sys := mkSys (apply_op (OpMarkSpawned memory_task 4242 noon) NewDaemonRuntimeTracker) None.
Definition w_command : stop_batch := mkStopBatch 1 "batch-1" [mkTarget memory_task 9123].
Definition w_ports : gmap string Z := {[ memory_task := 9123 ]}.
Definition w_begin := BeginStopSettlementBatch (tr w_spawned) "state.json" io_ok (dk w_spawned) w_command w_ports (apply_ops []).
Definition w_requested : sys := mkSys w_begin.1.1 w_begin.1.2.
Definition w_receipt : StopSettlementReceiptV1 :=
  batch_receipt "batch-1" 1 0 (mkTarget memory_task 9123) (entry_at (tr w_spawned) memory_task).
Definition w_exit := AdvanceStopSettlement (tr w_requested) "state.json" io_ok (dk w_requested) w_receipt
  "exit_observed" "" "" (apply_ops [OpMarkExited memory_task]).
Definition w_exited : sys := mkSys w_exit.1.1 w_exit.1.2.
Definition w_receipt2 : StopSettlementReceiptV1 := default zero_receipt (t_stopSettlements (tr w_exited) !! memory_task).
Definition w_release := AdvanceStopSettlement (tr w_exited) "state.json" io_ok (dk w_exited) w_receipt2
  "port_released" "" "" (apply_ops []).
Definition w_released : sys := mkSys w_release.1.1 w_release.1.2.
Definition w_receipt3 : StopSettlementReceiptV1 := default zero_receipt (t_stopSettlements (tr w_released) !! memory_task).
Definition w_removal := RemoveStopSettlement (tr w_released) "state.json" io_ok (dk w_released) w_receipt3 (apply_ops []).
Definition w_persist := PersistTo (tr w_spawned) "state.json" io_ok (dk w_spawned).

Lemma pair3_eta {A B C} (p : A * B * C) : p = (p.1.1, p.1.2, p.2).
Proof. by destruct p as [[]]. Qed.

Lemma w_spawned_reachable : reachable w_spawned.
Proof. eapply reach_step; [apply reach_start|]. apply step_mark, op_ok_spawn. Qed.
Lemma w_requested_reachable : reachable w_requested.
Proof.
  eapply reach_step; [apply w_spawned_reachable|].
  eapply (step_begin "state.json" io_ok w_command w_ports []); [done|constructor|by repeat constructor| |apply pair3_eta].
  apply map_Forall_insert_2; [done|apply map_Forall_empty].
Qed.
Lemma w_exited_reachable : reachable w_exited.
Proof.
  eapply reach_step; [apply w_requested_reachable|].
  eapply (step_advance "state.json" io_ok w_receipt "exit_observed" "" "" [OpMarkExited memory_task]);
    [done|repeat constructor; done|done|]. apply pair3_eta.
Qed.
Lemma w_released_reachable : reachable w_released.
Proof.
  eapply reach_step; [apply w_exited_reachable|].
  eapply (step_advance "state.json" io_ok w_receipt2 "port_released" "" "" []);
    [done|constructor|done|]. apply pair3_eta.
Qed.

Lemma hydrate_persist_witness :
  exists t2, loadDaemonRuntimeTrackerFromStatePath io_ok w_persist.2 = (t2, None) /\
    t_stopSettlementIntegrityErr t2 = "".
Proof.
  assert (PersistTo (tr w_spawned) "state.json" io_ok (dk w_spawned) = (Ok tt, w_persist.2)) as E
    by (vm_compute; reflexivity).
  pose proof (hydrate_persist_round_trip (tr w_spawned) (dk w_spawned) "state.json" io_ok w_persist.2 w_spawned_reachable I E) as (t2&H1&_&H2&_).
  exists t2. split; [exact H1|exact H2].
Defined.

Lemma advance_follows_phases_witness : w_receipt2 = w_receipt \/ phase_step w_receipt w_receipt2.
Proof.
  assert (AdvanceStopSettlement (tr w_requested) "state.json" io_ok (dk w_requested) w_receipt
    "exit_observed" "" "" (apply_ops [OpMarkExited memory_task]) = (tr w_exited, dk w_exited, Ok w_receipt2)) as E
    by (vm_compute; reflexivity).
  assert (t_stopSettlementIntegrityErr (tr w_requested) = "") as E3 by (vm_compute; reflexivity).
  assert ("exit_observed" = StopSettlementPhaseFailed -> is_blank "" = false) as E4 by discriminate.
  pose proof (advance_follows_phases w_requested "state.json" io_ok w_receipt "exit_observed" "" ""
    [OpMarkExited memory_task] _ _ _ w_requested_reachable I E4 E3 E)
    as [(H&_)|(_&_&H&_)]; [left; exact H|right; exact H].
Defined.

Lemma remove_only_released_witness : sr_Phase w_receipt3 = "port_released" /\ rows_of w_removal.1.2 = ∅.
Proof.
  assert (RemoveStopSettlement (tr w_released) "state.json" io_ok (dk w_released) w_receipt3 (apply_ops []) =
    (w_removal.1.1, w_removal.1.2, Ok tt)) as E by (vm_compute; reflexivity).
  pose proof (remove_only_released w_released "state.json" io_ok w_receipt3 [] _ _ w_released_reachable I E) as (H1&_&H2&_).
  split; [exact H1|]. rewrite H2. vm_compute. reflexivity.
Defined.
End Witnesses.
