(* ===== verification/Backoff.v ===== *)
(** * Restart delays ([cli/supervisor_controller.go], 404-505 and 4545-4696)

    The exponential respawn ladder, its upward jitter and the cooldown
    ladder of quarantine parole: durations are nanoseconds, arithmetic on
    them is 64-bit, and the one floating-point product of the jitter is
    rounded the way binary64 rounds it. *)
From S2P Require Import Prelude GoTime.
Open Scope Z_scope.

(** A result of [int64] arithmetic. *)
Definition wrap_i64 (z : Z) : Z := (z + 2 ^ 63) mod 2 ^ 64 - 2 ^ 63.

Definition respawnBackoffStep : duration := 1 * Second.
Definition respawnBackoffMax : duration := 60 * Second.
Definition respawnFailureWindow : duration := 30 * Minute.
Definition respawnQuarantineThreshold : Z := 10.
Definition respawnBackoffJitterMax : duration := 10 * Second.

Definition computeRespawnBackoff (failures : Z) : duration :=
  if failures <=? 0 then 0
  else
    let n := failures - 1 in
    let n := if 30 <? n then 30 else n in
    let d := wrap_i64 (Z.shiftl 1 n * respawnBackoffStep) in
    if (respawnBackoffMax <? d) || (d <=? 0) then respawnBackoffMax else d.

(** [n] rounded to 53 significant bits, ties to even: the significand of
    the binary64 nearest to [n], and to [n] scaled by any power of two. *)
Definition round_sig (n : Z) : Z :=
  let bits := Z.log2 n + 1 in
  if bits <=? 53 then n
  else
    let s := 2 ^ (bits - 53) in
    let q := n / s in
    let r := n mod s in
    (if (s <? 2 * r) || ((2 * r =? s) && Z.odd q) then q + 1 else q) * s.

(** [jitteredRespawnBackoff(base, m / 2^53)].  [rand.Float64] returns
    exactly such multiples; [float64(base) * 0.5] is exact for the
    durations below 2^53 ns (three months) the callers pass. *)
Definition jitteredRespawnBackoff (base : duration) (m : Z) : duration :=
  if base <=? 0 then base
  else
    let m := if m <? 0 then 0 else m in
    let m := if 2 ^ 53 <? m then 2 ^ 53 else m in
    let span := base / 2 in
    let span := if respawnBackoffJitterMax <? span then respawnBackoffJitterMax else span in
    base + round_sig (span * m) / 2 ^ 53.

Definition quarantineParoleBaseDelay : duration := 15 * Minute.
Definition quarantineParoleMaxDelay : duration := 2 * Hour.
Definition quarantineParoleStabilizeDwell : duration := 2 * Minute.

Fixpoint double_below_max (attempts : nat) (d : duration) : duration :=
  match attempts with
  | O => d
  | S n => if d <? quarantineParoleMaxDelay then double_below_max n (d * 2) else d
  end.

Definition quarantineParoleDelay (attempts : Z) : duration :=
  let attempts := if attempts <? 0 then 0 else attempts in
  let d := double_below_max (Z.to_nat attempts) quarantineParoleBaseDelay in
  if quarantineParoleMaxDelay <? d then quarantineParoleMaxDelay else d.

(** ** The ladder *)
Lemma ladder_step n :
  0 <= n <= 30 ->
  let d := wrap_i64 (Z.shiftl 1 n * respawnBackoffStep) in
  (if (respawnBackoffMax <? d) || (d <=? 0) then respawnBackoffMax else d) =
  Z.min (2 ^ n * Second) (60 * Second).
Proof.
  intros Hn d. assert (d = 2 ^ n * Second) as ->.
  { unfold d, wrap_i64, respawnBackoffStep. rewrite Z.shiftl_1_l, Z.mul_1_l.
    assert (0 < 2 ^ n <= 2 ^ 30) by (split; [apply Z.pow_pos_nonneg; lia|apply Z.pow_le_mono_r; lia]).
    rewrite Z.mod_small; unfold Second, Millisecond in *; lia. }
  assert (0 < 2 ^ n) by (apply Z.pow_pos_nonneg; lia).
  unfold respawnBackoffMax. case_match; breflect; unfold Second, Millisecond in *; lia.
Qed.

Lemma computeRespawnBackoff_closed f :
  computeRespawnBackoff f = if f <=? 0 then 0 else Z.min (2 ^ (f - 1) * Second) (60 * Second).
Proof.
  unfold computeRespawnBackoff. destruct (f <=? 0) eqn:E; [done|]. breflect.
  destruct (30 <? f - 1) eqn:E2; breflect; [|apply ladder_step; lia].
  rewrite ladder_step by lia.
  assert (2 ^ 30 <= 2 ^ (f - 1)) by (apply Z.pow_le_mono_r; lia). unfold Second, Millisecond. lia.
Qed.

(** ** Rounding *)
Lemma round_sig_nonneg n : 0 <= n -> 0 <= round_sig n.
Proof.
  intros Hn. unfold round_sig. destruct (Z.log2 n + 1 <=? 53) eqn:E; [done|]. breflect.
  assert (0 < 2 ^ (Z.log2 n + 1 - 53)) by (apply Z.pow_pos_nonneg; lia).
  assert (0 <= n / 2 ^ (Z.log2 n + 1 - 53)) by (apply Z.div_pos; lia).
  case_match; nia.
Qed.

(** Rounding to a multiple of [s] never passes a multiple of [s]. *)
Lemma round_to_multiple_le n s k (up : bool) :
  0 < s -> n <= k * s -> (up = true -> 0 < n mod s) ->
  (if up then n / s + 1 else n / s) * s <= k * s.
Proof.
  intros Hs Hn Hup. pose proof (Z.div_mod n s ltac:(lia)) as Hd.
  pose proof (Z.mod_pos_bound n s Hs). apply Z.mul_le_mono_nonneg_r; [lia|].
  assert (n / s <= k) by nia. destruct up; [|done]. specialize (Hup eq_refl).
  assert (n / s <> k) by nia. lia.
Qed.

Lemma round_sig_le n a : 0 <= n -> 0 <= a < 2 ^ 53 -> n <= a * 2 ^ 53 -> round_sig n <= a * 2 ^ 53.
Proof.
  intros Hn Ha Hle. unfold round_sig. destruct (Z.log2 n + 1 <=? 53) eqn:E; [done|]. breflect.
  set (b := Z.log2 n + 1 - 53). assert (0 <= b <= 53).
  { split; [lia|]. subst b.
    destruct (Z.eq_dec n 0) as [->|]; [simpl in *; lia|].
    assert (Z.log2 n < 106); [|lia]. apply Z.log2_lt_pow2; [lia|].
    apply Z.le_lt_trans with (1 := Hle). change (2 ^ 106) with (2 ^ 53 * 2 ^ 53). nia. }
  replace (a * 2 ^ 53) with (a * 2 ^ (53 - b) * 2 ^ b)
    by (rewrite <- Z.mul_assoc, <- Z.pow_add_r by lia; do 2 f_equal; lia).
  assert (0 < 2 ^ b) by (apply Z.pow_pos_nonneg; lia).
  apply (round_to_multiple_le n (2 ^ b) _ ((2 ^ b <? 2 * (n mod 2 ^ b)) || ((2 * (n mod 2 ^ b) =? 2 ^ b) && Z.odd (n / 2 ^ b)))).
  - done.
  - rewrite <- Z.mul_assoc, <- Z.pow_add_r by lia. by replace (53 - b + b) with 53 by lia.
  - intros Hup. breflect. lia.
Qed.

Lemma jitter_bounds base m :
  0 <= base < 2 ^ 53 ->
  base <= jitteredRespawnBackoff base m <= base + Z.min (base / 2) respawnBackoffJitterMax.
Proof.
  intros Hb. unfold jitteredRespawnBackoff.
  assert (0 <= base / 2 <= base) by (split; [apply Z.div_pos; lia|apply Z.div_le_upper_bound; lia]).
  assert (0 <= respawnBackoffJitterMax) by (unfold respawnBackoffJitterMax, Second, Millisecond; lia).
  destruct (base <=? 0) eqn:E; breflect; [lia|].
  set (m1 := if m <? 0 then 0 else m). set (m2 := if 2 ^ 53 <? m1 then 2 ^ 53 else m1).
  assert (0 <= m2 <= 2 ^ 53).
  { subst m2 m1. destruct (m <? 0) eqn:?, (2 ^ 53 <? _) eqn:?; breflect; lia. }
  replace (if respawnBackoffJitterMax <? base / 2 then respawnBackoffJitterMax else base / 2)
    with (Z.min (base / 2) respawnBackoffJitterMax)
    by (destruct (respawnBackoffJitterMax <? base / 2) eqn:?; breflect; lia).
  set (span := Z.min (base / 2) respawnBackoffJitterMax) in *.
  assert (0 <= span < 2 ^ 53) by lia.
  assert (0 <= round_sig (span * m2)) by (apply round_sig_nonneg; nia).
  assert (round_sig (span * m2) <= span * 2 ^ 53) by (apply round_sig_le; [nia|lia|nia]).
  assert (0 <= round_sig (span * m2) / 2 ^ 53) by (apply Z.div_pos; lia).
  assert (round_sig (span * m2) / 2 ^ 53 <= span) by (apply Z.div_le_upper_bound; lia).
  lia.
Qed.

(** The respawn delay.  After [failures] crashes in the window the base
    delay is 2^(failures-1) seconds, capped at a minute, and nothing when
    there was none; whatever the random fraction, the armed delay is never
    shorter than the base, longer by at most half of it and by at most ten
    seconds, hence never above 70 seconds. *)
Theorem respawn_delay_bounds failures m :
  let base := computeRespawnBackoff failures in
  let armed := jitteredRespawnBackoff base m in
  base = (if failures <=? 0 then 0 else Z.min (2 ^ (failures - 1) * Second) (60 * Second)) /\
  base <= armed <= base + Z.min (base / 2) (10 * Second) /\ armed <= 70 * Second.
Proof.
  intros base armed. split; [apply computeRespawnBackoff_closed|].
  assert (0 <= base <= 60 * Second).
  { subst base. rewrite computeRespawnBackoff_closed. case_match; unfold Second, Millisecond; [lia|].
    assert (0 <= 2 ^ (failures - 1)) by (apply Z.pow_nonneg; lia). lia. }
  pose proof (jitter_bounds base m) as Hj. fold armed in Hj. unfold respawnBackoffJitterMax in Hj.
  unfold Second, Millisecond in *. lia.
Qed.

(** ** Parole *)
Lemma double_below_max_spec n d :
  0 < d -> Z.min (double_below_max n d) quarantineParoleMaxDelay = Z.min (d * 2 ^ Z.of_nat n) quarantineParoleMaxDelay.
Proof.
  revert d. induction n as [|n IH]; intros d Hd; [by rewrite Z.mul_1_r|].
  cbn [double_below_max]. assert (d * 2 ^ Z.of_nat (S n) = d * 2 * 2 ^ Z.of_nat n) as ->
    by (rewrite Nat2Z.inj_succ, Z.pow_succ_r by lia; lia).
  destruct (d <? quarantineParoleMaxDelay) eqn:E; breflect; [apply IH; lia|].
  assert (0 < 2 ^ Z.of_nat n) by (apply Z.pow_pos_nonneg; lia). nia.
Qed.

(** The parole cooldown doubles from fifteen minutes with every attempt
    and stays at two hours once it has reached them, for any attempt count. *)
Theorem parole_delay_ladder attempts :
  quarantineParoleDelay attempts = Z.min (15 * Minute * 2 ^ Z.max 0 attempts) (2 * Hour).
Proof.
  assert ((if attempts <? 0 then 0 else attempts) = Z.max 0 attempts) as Ha
    by (destruct (attempts <? 0) eqn:E; breflect; lia).
  unfold quarantineParoleDelay. cbv zeta. rewrite Ha.
  pose proof (double_below_max_spec (Z.to_nat (Z.max 0 attempts)) quarantineParoleBaseDelay ltac:(done)) as Hd.
  rewrite Z2Nat.id in Hd by lia.
  change (15 * Minute) with quarantineParoleBaseDelay. change (2 * Hour) with quarantineParoleMaxDelay.
  rewrite <- Hd. generalize (double_below_max (Z.to_nat (0 `max` attempts)) quarantineParoleBaseDelay).
  generalize quarantineParoleMaxDelay. intros a b. destruct (Z.ltb_spec a b); lia.
Qed.
