(* ===== verification/EventLoop.v ===== *)
(** * The event loop ([api/supervisor_event_loop.go])

    Two bounded FIFO channels, one consumer.  External producers use [ch];
    handlers post follow-up events to [selfCh], which is drained before
    [ch] is read.  A channel is the list of its buffered events; the
    consumer goroutine and the producers interleave as a step relation. *)
From S2P Require Import Prelude.

Section EventLoop.
Context {E W : Type}.

Record EventLoop := mkLoop { el_capacity : nat; el_ch : list E; el_self : list E }.
#[global] Instance el_ch_set : Setter el_ch := fun f r => mkLoop (el_capacity r) (f (el_ch r)) (el_self r).
#[global] Instance el_self_set : Setter el_self := fun f r => mkLoop (el_capacity r) (el_ch r) (f (el_self r)).

Definition NewEventLoop (capacity : nat) : EventLoop :=
  mkLoop (if Nat.ltb capacity 16 then 16 else capacity) [] [].

(** [Post]: [None] is the send that blocks on a full buffer. *)
Definition Post (l : EventLoop) (e : E) : option EventLoop :=
  if Nat.ltb (length (el_ch l)) (el_capacity l) then Some (l <| el_ch ::= fun q => q ++ [e] |>) else None.

Definition TryPost (l : EventLoop) (e : E) : EventLoop * bool :=
  match Post l e with Some l' => (l', true) | None => (l, false) end.

Definition PostSelf (l : EventLoop) (e : E) : EventLoop * bool :=
  if Nat.ltb (length (el_self l)) (el_capacity l) then (l <| el_self ::= fun q => q ++ [e] |>, true) else (l, false).

(** [PostCtx] as a select: with a free slot and a cancelled context ready
    at once, either case may be taken. *)
Inductive PostCtx (l : EventLoop) (e : E) : EventLoop * option error -> Prop :=
| PostCtx_sent l' : Post l e = Some l' -> PostCtx l e (l', None)
| PostCtx_done err : PostCtx l e (l, Some err).

(** A handler runs on the loop goroutine; it returns or panics. *)
Inductive handled :=
| Done (w : W) (l : EventLoop)
| Panicked (w : W) (l : EventLoop).
Definition Handler := E -> W -> EventLoop -> handled.

Definition RegisterHandler (hs : list Handler) (h : Handler) : list Handler := hs ++ [h].

(** The handlers run in registration order until one panics. *)
Fixpoint run_handlers (hs : list Handler) (e : E) (w : W) (l : EventLoop) : handled :=
  match hs with
  | [] => Done w l
  | h :: rest =>
      match h e w l with
      | Done w l => run_handlers rest e w l
      | Panicked w l => Panicked w l
      end
  end.

(** [dispatch]: the installed observer sees a panic, which is then raised
    again; [observed] are the events it was called with. *)
Definition dispatch (onPanic : bool) (hs : list Handler) (e : E) (w : W) (l : EventLoop) : handled * list E :=
  match run_handlers hs e w l with
  | Done w l => (Done w l, [])
  | Panicked w l => (Panicked w l, if onPanic then [e] else [])
  end.

(** ** [Run] *)
Inductive phase := Draining | Waiting | Returned | Crashed.
Inductive channel := FromSelf | FromExternal.

(** [ru_posted] is every event put on [ch] and [ru_trace] every dispatch,
    with the channel it came from and what the self channel still held. *)
Record run := mkRun {
  ru_phase : phase; ru_loop : EventLoop; ru_world : W; ru_observed : list E;
  ru_posted : list E; ru_trace : list (channel * E * list E);
}.

(** Take [e] off a channel (leaving [l]) and dispatch it. *)
Definition run_dispatch (onPanic : bool) (hs : list Handler) (from : channel) (r : run) (l : EventLoop) (e : E) : run :=
  let trace := ru_trace r ++ [(from, e, el_self (ru_loop r))] in
  match dispatch onPanic hs e (ru_world r) l with
  | (Done w l, obs) => mkRun Draining l w (ru_observed r ++ obs) (ru_posted r) trace
  | (Panicked w l, obs) => mkRun Crashed l w (ru_observed r ++ obs) (ru_posted r) trace
  end.

Inductive run_step (onPanic : bool) (hs : list Handler) : run -> run -> Prop :=
| run_drain r e q : ru_phase r = Draining -> el_self (ru_loop r) = e :: q ->
    run_step onPanic hs r (run_dispatch onPanic hs FromSelf r (ru_loop r <| el_self := q |>) e)
| run_drained r : ru_phase r = Draining -> el_self (ru_loop r) = [] ->
    run_step onPanic hs r (mkRun Waiting (ru_loop r) (ru_world r) (ru_observed r) (ru_posted r) (ru_trace r))
| run_select_self r e q : ru_phase r = Waiting -> el_self (ru_loop r) = e :: q ->
    run_step onPanic hs r (run_dispatch onPanic hs FromSelf r (ru_loop r <| el_self := q |>) e)
| run_select_ch r e q : ru_phase r = Waiting -> el_ch (ru_loop r) = e :: q ->
    run_step onPanic hs r (run_dispatch onPanic hs FromExternal r (ru_loop r <| el_ch := q |>) e)
| run_select_done r : ru_phase r = Waiting ->
    run_step onPanic hs r (mkRun Returned (ru_loop r) (ru_world r) (ru_observed r) (ru_posted r) (ru_trace r))
| run_post r e l : ru_phase r <> Crashed -> Post (ru_loop r) e = Some l ->
    run_step onPanic hs r (mkRun (ru_phase r) l (ru_world r) (ru_observed r) (ru_posted r ++ [e]) (ru_trace r)).

(** A handler posts to itself and leaves [ch] to the producers. *)
Definition handler_ok (h : Handler) : Prop :=
  forall e w l w' l', (h e w l = Done w' l' \/ h e w l = Panicked w' l') ->
    el_capacity l' = el_capacity l /\ el_ch l' = el_ch l /\
    (exists posts, el_self l' = el_self l ++ posts) /\
    (length (el_self l) <= el_capacity l -> length (el_self l') <= el_capacity l)%nat.

Definition from_channel (c : channel) (t : channel * E * list E) : bool :=
  match c, t.1.1 with
  | FromSelf, FromSelf | FromExternal, FromExternal => true
  | _, _ => false
  end.
Definition events_from (c : channel) (r : run) : list E :=
  map (fun t => t.1.2) (List.filter (from_channel c) (ru_trace r)).

Definition start_run (capacity : nat) (w : W) : run := mkRun Draining (NewEventLoop capacity) w [] [] [].
Inductive runs (onPanic : bool) (hs : list Handler) (r0 : run) : run -> Prop :=
| runs_start : runs onPanic hs r0 r0
| runs_more r r' : runs onPanic hs r0 r -> run_step onPanic hs r r' -> runs onPanic hs r0 r'.

(** ** Invariants *)
Definition loop_wf (l : EventLoop) : Prop :=
  (length (el_ch l) <= el_capacity l /\ length (el_self l) <= el_capacity l)%nat.

Definition run_inv (r : run) : Prop :=
  loop_wf (ru_loop r) /\
  (ru_phase r = Waiting -> el_self (ru_loop r) = []) /\
  events_from FromExternal r ++ el_ch (ru_loop r) = ru_posted r /\
  Forall (fun t => t.1.1 = FromExternal -> t.2 = []) (ru_trace r).

Lemma Post_spec l e l' :
  Post l e = Some l' ->
  l' = l <| el_ch ::= fun q => q ++ [e] |> /\ (length (el_ch l) < el_capacity l)%nat.
Proof. unfold Post. destruct (Nat.ltb_spec (length (el_ch l)) (el_capacity l)); [|done]. intros [= <-]. done. Qed.

Lemma PostSelf_spec l e :
  PostSelf l e = (l, false) \/
  (PostSelf l e = (l <| el_self ::= fun q => q ++ [e] |>, true) /\ (length (el_self l) < el_capacity l)%nat).
Proof. unfold PostSelf. destruct (Nat.ltb_spec (length (el_self l)) (el_capacity l)); eauto. Qed.

Lemma run_handlers_ok hs : Forall handler_ok hs -> handler_ok (run_handlers hs).
Proof.
  intros H e w l w' l'. revert w l.
  induction H as [|h hs Hh _ IH]; intros w l; simpl.
  - intros [[= <- <-]|]; [|done]. split_and!; [done|done|exists []; by rewrite app_nil_r|done].
  - intros Hr. destruct (h e w l) as [w1 l1|w1 l1] eqn:Eh.
    + destruct (Hh _ _ _ _ _ (or_introl Eh)) as (H1&H2&[p1 H3]&H4).
      destruct (IH _ _ Hr) as (K1&K2&[p2 K3]&K4).
      split_and!; [congruence|congruence|exists (p1 ++ p2); by rewrite K3, H3, app_assoc|].
      intros Hl. specialize (H4 Hl). rewrite H1 in K4. auto.
    + destruct Hr as [|[= <- <-]]; [done|]. eapply Hh. by right.
Qed.

Lemma events_from_app c t (tr : list (channel * E * list E)) :
  map (fun t : channel * E * list E => t.1.2) (List.filter (from_channel c) (tr ++ [t])) =
  map (fun t => t.1.2) (List.filter (from_channel c) tr) ++ (if from_channel c t then [t.1.2] else []).
Proof. rewrite List.filter_app, map_app. simpl. by destruct (from_channel c t). Qed.

(** What a dispatch does to the run, panic or not. *)
Lemma run_dispatch_spec onPanic hs from r l e :
  Forall handler_ok hs ->
  let r' := run_dispatch onPanic hs from r l e in
  el_capacity (ru_loop r') = el_capacity l /\ el_ch (ru_loop r') = el_ch l /\
  ((length (el_self l) <= el_capacity l)%nat -> (length (el_self (ru_loop r')) <= el_capacity l)%nat) /\
  ru_posted r' = ru_posted r /\ ru_trace r' = ru_trace r ++ [(from, e, el_self (ru_loop r))] /\
  (ru_phase r' = Draining \/ ru_phase r' = Crashed).
Proof.
  intros H. unfold run_dispatch, dispatch.
  pose proof (run_handlers_ok hs H) as Hok.
  destruct (run_handlers hs e (ru_world r) l) as [w1 l1|w1 l1] eqn:Eh; simpl;
    (destruct (Hok e (ru_world r) l w1 l1 ltac:(auto)) as (H1&H2&_&H4); split_and!; auto).
Qed.

Lemma run_dispatch_inv onPanic hs from r l e :
  Forall handler_ok hs -> loop_wf l ->
  events_from FromExternal r ++ (if from_channel FromExternal (from, e, []) then [e] else []) ++ el_ch l = ru_posted r ->
  Forall (fun t => t.1.1 = FromExternal -> t.2 = []) (ru_trace r) ->
  (from = FromExternal -> el_self (ru_loop r) = []) ->
  run_inv (run_dispatch onPanic hs from r l e).
Proof.
  intros H [Hc Hs] Hf Ht Hself. destruct (run_dispatch_spec onPanic hs from r l e H) as (D1&D2&D3&D4&D5&D6).
  unfold run_inv, loop_wf. rewrite D1, D2, D4. split_and!; auto.
  - by destruct D6 as [->| ->].
  - unfold events_from in *. rewrite D5, events_from_app, <- Hf, <- app_assoc. done.
  - rewrite D5. apply Forall_app. split; [done|]. by constructor.
Qed.

Lemma run_step_inv onPanic hs r r' :
  Forall handler_ok hs -> run_step onPanic hs r r' -> run_inv r -> run_inv r'.
Proof.
  intros H Hstep (Hwf&Hw&Hf&Ht).
  destruct Hstep as [r e q Hp Hq|r Hp Hq|r e q Hp Hq|r e q Hp Hq|r Hp|r e l Hp Hl].
  - apply run_dispatch_inv; try done. destruct Hwf as [Hc Hs]. rewrite Hq in Hs. split; simpl in *; lia.
  - by repeat split; try apply Hwf.
  - apply run_dispatch_inv; try done. destruct Hwf as [Hc Hs]. rewrite Hq in Hs. split; simpl in *; lia.
  - apply run_dispatch_inv; try done.
    + destruct Hwf as [Hc Hs]. rewrite Hq in Hc. split; simpl in *; lia.
    + rewrite <- Hf, Hq. done.
    + auto.
  - by repeat split; try apply Hwf.
  - destruct (Post_spec _ _ _ Hl) as [-> Hlt]. destruct Hwf as [Hc Hs]. unfold run_inv, loop_wf. simpl.
    rewrite length_app. simpl. split_and!; [lia|done|auto| |done].
    unfold events_from in *. simpl. by rewrite app_assoc, Hf.
Qed.

Lemma start_run_inv capacity w : run_inv (start_run capacity w).
Proof. unfold run_inv, loop_wf. simpl. split_and!; [lia|lia|done|done|constructor]. Qed.

(** C35: the loop's ordering contract, for every interleaving of producers
    and consumer.  External events are dispatched exactly in the order they
    were posted, none lost and none duplicated (those not yet dispatched are
    the buffer); and none is dispatched while an event that a handler posted
    to itself is still waiting. *)
Theorem loop_fifo_self_first onPanic hs capacity w r :
  Forall handler_ok hs -> runs onPanic hs (start_run capacity w) r ->
  events_from FromExternal r ++ el_ch (ru_loop r) = ru_posted r /\
  Forall (fun t => t.1.1 = FromExternal -> t.2 = []) (ru_trace r) /\ loop_wf (ru_loop r).
Proof.
  intros H Hr. assert (run_inv r) as (?&_&?&?); [|done].
  induction Hr as [|r r' Hr IH Hs]; [apply start_run_inv|]. eapply run_step_inv; eauto.
Qed.

(** A panic is raised again: the run never leaves [Crashed], so no event
    is handled by a half-applied transition; the observer saw the event. *)
Lemma crashed_stays onPanic hs r r' : run_step onPanic hs r r' -> ru_phase r <> Crashed.
Proof. destruct 1; congruence. Qed.
End EventLoop.
Arguments EventLoop : clear implicits.
Arguments Handler : clear implicits.
Arguments run : clear implicits.

(** ** Witness: a handler that answers every even number with the odd one *)
Section Witness.
Definition echo_handler : Handler nat unit := fun e w l =>
  if Nat.even e then Done w (PostSelf l (S e)).1 else Done w l.

Lemma echo_handler_ok : handler_ok echo_handler.
Proof.
  intros e w l w' l'. unfold echo_handler. destruct (Nat.even e).
  - destruct (PostSelf_spec l (S e)) as [->|[-> Hlt]]; simpl; intros [[= _ <-]|]; try done.
    + split_and!; [done|done|exists []; by rewrite app_nil_r|done].
    + simpl. split_and!; [done|done|eauto|]. rewrite length_app. simpl. lia.
  - intros [[= _ <-]|]; [|done]. split_and!; [done|done|exists []; by rewrite app_nil_r|done].
Qed.

(** Two events are posted; the first is dispatched, then the second would
    be next, but the self-post of the first comes before it. *)
Lemma loop_fifo_self_first_witness :
  exists r, runs false [echo_handler] (start_run 0 tt) r /\ events_from FromExternal r = [2; 4] /\
    events_from FromSelf r = [3].
Proof.
  assert (exists r, runs false [echo_handler] (start_run 0 tt) r /\
    events_from FromExternal r = [2; 4] /\ events_from FromSelf r = [3] /\ ru_posted r = [2; 4] /\ el_ch (ru_loop r) = [])
    as (r&Hr&He&Hs&Hp&Hc).
  { eexists. split; [|split_and!].
    - eapply runs_more; [eapply runs_more; [eapply runs_more; [eapply runs_more; [eapply runs_more;
        [eapply runs_more; [eapply runs_more; [apply runs_start|]|]|]|]|]|]|].
      + apply (run_post _ _ _ 2); [done|reflexivity].
      + apply (run_post _ _ _ 4); [done|reflexivity].
      + apply run_drained; reflexivity.
      + eapply run_select_ch; reflexivity.
      + eapply run_drain; reflexivity.
      + apply run_drained; reflexivity.
      + eapply run_select_ch; reflexivity.
    - reflexivity.
    - reflexivity.
    - reflexivity.
    - reflexivity. }
  exists r. split; [exact Hr|]. split; [|exact Hs].
  destruct (loop_fifo_self_first false [echo_handler] 0 tt r
    (Forall_cons_2 _ _ _ echo_handler_ok (Forall_nil_2 _)) Hr) as (H1&_&_).
  rewrite Hc, app_nil_r in H1. rewrite H1. exact Hp.
Defined.
End Witness.
