(* ===== verification/Termination.v ===== *)
(** * Terminating a daemon ([cli/termination_outcome.go])

    What the supervisor may conclude from an attempt to terminate a
    process.  The operating-system calls are function variables in the
    source and a record of answers here; a call is recorded in the order
    in which it is made, so that safety can speak about the sequence. *)
From S2P Require Import Prelude GoTime StateFile Intent Tracker.
Open Scope Z_scope.

Record terminationExpectedTuple := mkExpected {
  ex_CanonicalTaskName : string; ex_PID : Z; ex_StartedAt : string; ex_PIDGeneration : Z; ex_Valid : bool;
}.

Inductive terminationOutcomeKind :=
| TargetAbsent | Uncertain | AlreadyExited | IdentityMismatch | TermFailed | Committed | Terminated.

Record terminationOutcome := mkTermOutcome {
  to_Kind : terminationOutcomeKind; to_Expected : terminationExpectedTuple;
  to_Cause : option error; to_CleanupError : option error;
}.

Definition AllowsSynthetic (o : terminationOutcome) : bool :=
  ex_Valid (to_Expected o) &&
  match to_Kind o with AlreadyExited | Terminated => true | _ => false end.

Definition legacyError (o : terminationOutcome) : option error :=
  match to_Kind o with
  | AlreadyExited | Terminated => None
  | Committed =>
      match to_Cause o with
      | Some e => Some (wrapf "termination committed but exit was not observed" e)
      | None => Some (errors_New "termination committed but exit was not observed")
      end
  | IdentityMismatch => None
  | TargetAbsent =>
      match to_Cause o with Some e => Some e | None => Some (errors_New "termination target absent") end
  | Uncertain => to_Cause o
  | TermFailed =>
      match to_Cause o with Some e => Some e | None => Some (errors_New "termination outcome uncertain") end
  end.

Definition terminationExpectedTupleForTask (t : DaemonRuntimeTracker) (taskName : string) : terminationExpectedTuple :=
  let name := canonicalSupervisorTaskName taskName in
  match Get t name with
  | Some entry =>
      if (te_CurrentPID entry <=? 0) || (te_PIDGeneration entry <=? 0) || IsZero (te_StartedAt entry)
      then mkExpected name 0 "" 0 false
      else mkExpected name (te_CurrentPID entry) (FormatRFC3339Nano (te_StartedAt entry)) (te_PIDGeneration entry) true
  | None => mkExpected name 0 "" 0 false
  end.

Definition ErrProcessIdentityMismatch : error := sentinel "process.ErrProcessIdentityMismatch" "process identity mismatch".
Definition ErrProcessAlreadyExited : error := sentinel "process.ErrProcessAlreadyExited" "process already exited".
Definition errTerminateTargetGone : error :=
  sentinel "errTerminateTargetGone" "supervise: terminate target already gone".

(** A nil return of an untyped callback is never promoted to an exit. *)
Definition terminationOutcomeFromLegacy (expected : terminationExpectedTuple) (err : option error) : terminationOutcome :=
  match err with
  | None =>
      mkTermOutcome Uncertain
        (mkExpected (ex_CanonicalTaskName expected) (ex_PID expected) (ex_StartedAt expected)
           (ex_PIDGeneration expected) false) None None
  | Some e =>
      if errors_Is e ErrProcessIdentityMismatch then mkTermOutcome IdentityMismatch expected (Some e) None
      else if errors_Is e ErrProcessAlreadyExited || errors_Is e errTerminateTargetGone
      then mkTermOutcome AlreadyExited expected (Some e) None
      else mkTermOutcome TermFailed expected (Some e) None
  end.

Definition terminationTupleMatchesReceipt (tuple : terminationExpectedTuple) (r : StopSettlementReceiptV1) : bool :=
  ex_Valid tuple && (ex_CanonicalTaskName tuple =s sr_TaskName r) && (ex_PID tuple =? sr_PID r) &&
  (ex_StartedAt tuple =s sr_StartedAt r) && (ex_PIDGeneration tuple =? sr_PIDGeneration r).

(** ** The production terminator *)
Record runningProcessIdentity := mkRunning { rp_PID : Z; rp_PIDGeneration : Z; rp_StartedAt : string }.

Inductive PIDState := PIDStateAlive | PIDStateDead | PIDStateUnknown.

Record PIDIdentityProof := mkProof {
  pp_PID : Z; pp_ExecutablePath : string; pp_CommandLine : string; pp_StartedAt : string; pp_StartTolerance : duration;
}.

Inductive os_call :=
| CallQuery (pid : Z) | CallHold (pid : Z) | CallVerify (p : PIDIdentityProof)
| CallTerminate (p : PIDIdentityProof) | CallAlive (pid : Z) | CallKill (p : PIDIdentityProof).

(** The answers of the operating system during one termination: those to a
    repeated question by when it is asked, and the polls of the grace period
    in their order. *)
Record process_env := mkProcessEnv {
  pe_windows : bool;
  pe_identity_exe : string -> string;
  pe_query : Z -> res PIDState;
  pe_verify : PIDIdentityProof -> option error;
  pe_terminate : PIDIdentityProof -> option error;
  pe_polls : list bool;
  pe_late_verify : PIDIdentityProof -> option error;
  pe_kill : PIDIdentityProof -> option error;
  pe_requery : Z -> res PIDState;
  pe_hold : Z -> option error;
  pe_held_verify : PIDIdentityProof -> option error;
  pe_held_terminate : PIDIdentityProof -> bool * option error;
  pe_held_close : option error;
}.

Record term_result := mkTermResult {
  tm_tracker : DaemonRuntimeTracker; tm_persist : bool; tm_calls : list os_call;
  tm_events : list string; tm_outcome : terminationOutcome;
}.

(** [markTerminationOutcomeExited]; the flag says that the tracker is
    persisted afterwards. *)
Definition markTerminationOutcomeExited (t : DaemonRuntimeTracker) (expected : terminationExpectedTuple)
    : DaemonRuntimeTracker * bool :=
  if negb (ex_Valid expected) then (t, false)
  else MarkExitedIfCurrent t (ex_CanonicalTaskName expected) (ex_PIDGeneration expected).

Definition terminationOutcomeFromVerification (expected : terminationExpectedTuple) (err : error)
    : list string * terminationOutcome :=
  if errors_Is err ErrProcessAlreadyExited
  then (["daemon-terminate-already-exited"], mkTermOutcome AlreadyExited expected (Some err) None)
  else if errors_Is err ErrProcessIdentityMismatch
  then (["daemon-terminate-aborted-pid-reuse"], mkTermOutcome IdentityMismatch expected (Some err) None)
  else (["daemon-terminate-failed"], mkTermOutcome TermFailed expected (Some err) None).

(** A refused verification of a held process: only its proven exit is
    recorded. *)
Definition held_refused (t : DaemonRuntimeTracker) (expected : terminationExpectedTuple) (calls : list os_call)
    (events : list string) (err : error) : term_result :=
  let '(evs, o) := terminationOutcomeFromVerification expected err in
  match to_Kind o with
  | AlreadyExited =>
      let '(t, p) := markTerminationOutcomeExited t expected in mkTermResult t p calls (events ++ evs) o
  | _ => mkTermResult t false calls (events ++ evs) o
  end.

Definition with_cleanup (env : process_env) (r : term_result) : term_result :=
  match pe_held_close env with
  | None => r
  | Some e =>
      let o := tm_outcome r in
      mkTermResult (tm_tracker r) (tm_persist r) (tm_calls r) (tm_events r)
        (mkTermOutcome (to_Kind o) (to_Expected o) (to_Cause o) (Some e))
  end.

Definition terminateProductionWindows (env : process_env) (t : DaemonRuntimeTracker)
    (expected : terminationExpectedTuple) (proof : PIDIdentityProof) (calls : list os_call) : term_result :=
  let calls := calls ++ [CallHold (pp_PID proof)] in
  match pe_hold env (pp_PID proof) with
  | Some err =>
      let '(evs, o) := terminationOutcomeFromVerification expected err in mkTermResult t false calls evs o
  | None =>
      with_cleanup env
        (let calls := calls ++ [CallVerify proof] in
         match pe_held_verify env proof with
         | Some err => held_refused t expected calls [] err
         | None =>
             let calls := calls ++ [CallTerminate proof] in
             let events := ["daemon-terminate-requested"] in
             match pe_held_terminate env proof with
             | (false, err) => held_refused t expected calls events (default (errors_New "") err)
             | (true, Some err) => mkTermResult t false calls events (mkTermOutcome Committed expected (Some err) None)
             | (true, None) =>
                 let '(t, p) := markTerminationOutcomeExited t expected in
                 mkTermResult t p calls (events ++ ["daemon-terminated"]) (mkTermOutcome Terminated expected None None)
             end
         end)
  end.

(** [finishProductionTerminate]: the grace period after the signal, which
    has room for twenty polls at most, then a second verification and the
    signal that cannot be caught. *)
Definition productionTerminateGracePeriod : duration := 2 * Second.
Definition productionTerminatePollPeriod : duration := 100 * Millisecond.
Definition grace_polls : nat := Z.to_nat (productionTerminateGracePeriod / productionTerminatePollPeriod).
Fixpoint poll_until_gone (pid : Z) (alive : list bool) : list os_call * bool :=
  match alive with
  | [] => ([], false)
  | true :: alive => let r := poll_until_gone pid alive in (CallAlive pid :: r.1, r.2)
  | false :: _ => ([CallAlive pid], true)
  end.
Definition finishProductionTerminate (env : process_env) (proof : PIDIdentityProof)
    : list os_call * list string * option error :=
  let '(polls, gone) := poll_until_gone (pp_PID proof) (take grace_polls (pe_polls env)) in
  if gone then (polls, [], None)
  else
    match pe_late_verify env proof with
    | Some err =>
        if errors_Is err ErrProcessAlreadyExited
        then (polls ++ [CallVerify proof], ["daemon-terminate-already-exited"], None)
        else (polls ++ [CallVerify proof], ["daemon-terminate-escalation-aborted-pid-reuse"],
              Some (wrapf "terminate escalation aborted" err))
    | None =>
        let calls := polls ++ [CallVerify proof; CallKill proof] in
        match pe_kill env proof with
        | Some err =>
            if errors_Is err ErrProcessAlreadyExited
            then (calls, ["daemon-terminate-escalated"; "daemon-terminate-already-exited"], None)
            else (calls, ["daemon-terminate-escalated"], Some (wrapf "send SIGKILL after SIGTERM timeout" err))
        | None => (calls, ["daemon-terminate-escalated"], None)
        end
    end.

Definition terminateProductionPosix (env : process_env) (t : DaemonRuntimeTracker)
    (expected : terminationExpectedTuple) (proof : PIDIdentityProof) (calls : list os_call) : term_result :=
  let calls := calls ++ [CallVerify proof] in
  match pe_verify env proof with
  | Some err => let '(evs, o) := terminationOutcomeFromVerification expected err in mkTermResult t false calls evs o
  | None =>
      let calls := calls ++ [CallTerminate proof] in
      let events := ["daemon-terminate-requested"] in
      match pe_terminate env proof with
      | Some err =>
          let '(evs, o) := terminationOutcomeFromVerification expected err in
          mkTermResult t false calls (events ++ evs) o
      | None =>
          let '(finish, escalation, err) := finishProductionTerminate env proof in
          let calls := calls ++ finish in
          let events := events ++ escalation in
          match err with
          | Some err =>
              mkTermResult t false calls (events ++ ["daemon-terminate-failed"])
                (mkTermOutcome TermFailed expected (Some err) None)
          | None =>
              let calls := calls ++ [CallQuery (pp_PID proof)] in
              match pe_requery env (pp_PID proof) with
              | Ok PIDStateDead =>
                  let '(t, p) := markTerminationOutcomeExited t expected in
                  mkTermResult t p calls events (mkTermOutcome Terminated expected None None)
              | Ok _ =>
                  mkTermResult t false calls events
                    (mkTermOutcome Committed expected (Some (errors_New "PID not observed dead after termination")) None)
              | Err e =>
                  mkTermResult t false calls events
                    (mkTermOutcome Committed expected (Some (wrapf "re-query PID after termination" e)) None)
              end
          end
      end
  end.

(** The identity the terminator aims at: the expected one, or else the
    process found running when the supervisor started. *)
Definition term_target (runningPIDs : gmap string runningProcessIdentity) (d : SupervisorDaemon)
    (expected : terminationExpectedTuple) : Z * string :=
  if ex_Valid expected then (ex_PID expected, ex_StartedAt expected)
  else
    let first := default (mkRunning 0 0 "") (runningPIDs !! ex_CanonicalTaskName expected) in
    let target := if rp_PID first <=? 0 then default (mkRunning 0 0 "") (runningPIDs !! sd_TaskName d) else first in
    (rp_PID target, rp_StartedAt target).

Definition makeProductionTerminationOutcomeFn (env : process_env)
    (runningPIDs : gmap string runningProcessIdentity) (t : DaemonRuntimeTracker) (d : SupervisorDaemon)
    (expected0 : terminationExpectedTuple) : term_result :=
  let expected :=
    if ex_CanonicalTaskName expected0 =s ""
    then mkExpected (canonicalSupervisorTaskName (sd_TaskName d)) (ex_PID expected0) (ex_StartedAt expected0)
           (ex_PIDGeneration expected0) (ex_Valid expected0)
    else expected0 in
  let '(pid, startedAt) := term_target runningPIDs d expected in
  if pid <=? 0
  then mkTermResult t false [] []
         (mkTermOutcome TargetAbsent expected (Some (errors_New "no running PID recorded for task")) None)
  else
    let calls := [CallQuery pid] in
    match pe_query env pid with
    | Err e =>
        mkTermResult t false calls ["daemon-terminate-failed"]
          (mkTermOutcome Uncertain expected (Some (wrapf "query PID state" e)) None)
    | Ok PIDStateUnknown =>
        mkTermResult t false calls ["daemon-terminate-failed"]
          (mkTermOutcome Uncertain expected (Some (errors_New "query PID state returned unknown")) None)
    | Ok PIDStateDead =>
        let '(t, p) := markTerminationOutcomeExited t expected in
        mkTermResult t p calls ["daemon-terminate-already-exited"] (mkTermOutcome AlreadyExited expected None None)
    | Ok PIDStateAlive =>
        let proof := mkProof pid (pe_identity_exe env (sd_Command d)) "" startedAt 0 in
        if startedAt =s ""
        then mkTermResult t false calls ["daemon-terminate-failed"]
               (mkTermOutcome Uncertain expected (Some (errors_New "missing started_at")) None)
        else if pe_windows env then terminateProductionWindows env t expected proof calls
        else terminateProductionPosix env t expected proof calls
    end.

(** ** Safety *)
#[local] Arguments errors_Is : simpl never.
#[local] Arguments markTerminationOutcomeExited : simpl never.
#[local] Arguments MarkExitedIfCurrent : simpl never.

(** What counts as having observed that the process is gone. *)
Definition exit_observed (env : process_env) (proof : PIDIdentityProof) : Prop :=
  pe_query env (pp_PID proof) = Ok PIDStateDead \/ pe_requery env (pp_PID proof) = Ok PIDStateDead \/
  pe_held_terminate env proof = (true, None) \/
  exists e, errors_Is e ErrProcessAlreadyExited = true /\
    (pe_hold env (pp_PID proof) = Some e \/ pe_held_verify env proof = Some e \/
     pe_held_terminate env proof = (false, Some e) \/ pe_verify env proof = Some e \/ pe_terminate env proof = Some e).

Definition is_exit (o : terminationOutcome) : bool :=
  match to_Kind o with AlreadyExited | Terminated => true | _ => false end.

(** A kill, and what the verification just before it answered. *)
Definition kill_of (k : os_call) : option PIDIdentityProof :=
  match k with CallTerminate p | CallKill p => Some p | _ => None end.
Definition verdict (env : process_env) (k : os_call) (p : PIDIdentityProof) : option error :=
  match k with
  | CallKill _ => pe_late_verify env p
  | _ => if pe_windows env then pe_held_verify env p else pe_verify env p
  end.
Definition verified (env : process_env) (proof : PIDIdentityProof) (before : list os_call) (k : os_call) : Prop :=
  forall p, kill_of k = Some p -> p = proof /\ verdict env k p = None /\ exists earlier, before = earlier ++ [CallVerify p].
(** Every call of [more], which come after [before], is no kill or verified. *)
Fixpoint kills_verified (env : process_env) (proof : PIDIdentityProof) (before more : list os_call) : Prop :=
  match more with
  | [] => True
  | k :: more => verified env proof before k /\ kills_verified env proof (before ++ [k]) more
  end.
Lemma kills_verified_app env proof before l1 l2 :
  kills_verified env proof before (l1 ++ l2) <-> kills_verified env proof before l1 /\ kills_verified env proof (before ++ l1) l2.
Proof.
  revert before. induction l1 as [|k l1 IH]; intros before; cbn; [rewrite app_nil_r; tauto|].
  rewrite IH, <- app_assoc. tauto.
Qed.
Lemma no_kills_verified env proof before l : Forall (fun k => kill_of k = None) l -> kills_verified env proof before l.
Proof.
  intros H. revert before. induction H as [|k l Hk _ IH]; intros before; [done|]. split; [|apply IH]. intros p. by rewrite Hk.
Qed.
Lemma kills_verified_in env proof more :
  kills_verified env proof [] more ->
  forall pre k post p, more = pre ++ k :: post -> kill_of k = Some p ->
    p = proof /\ verdict env k p = None /\ exists earlier, pre = earlier ++ [CallVerify p].
Proof. intros H pre k post p -> Hk. apply kills_verified_app in H as [_ [H _]]. by apply H. Qed.

(** The safety of one attempt at [proof]: it kills only what it has just
    verified, concludes an exit only from an observation, and moves the
    tracker only by recording that exit for the expected generation. *)
Definition term_safe (env : process_env) (t : DaemonRuntimeTracker) (expected : terminationExpectedTuple)
    (proof : PIDIdentityProof) (calls : list os_call) (r : term_result) : Prop :=
  (exists more, tm_calls r = calls ++ more /\ kills_verified env proof calls more) /\
  (is_exit (tm_outcome r) = true -> exit_observed env proof) /\
  to_Expected (tm_outcome r) = expected /\
  (tm_tracker r = t \/
   (is_exit (tm_outcome r) = true /\ ex_Valid expected = true /\
    tm_tracker r = (MarkExitedIfCurrent t (ex_CanonicalTaskName expected) (ex_PIDGeneration expected)).1)).

Lemma from_verification_exit expected err :
  is_exit (terminationOutcomeFromVerification expected err).2 = errors_Is err ErrProcessAlreadyExited /\
  to_Expected (terminationOutcomeFromVerification expected err).2 = expected.
Proof.
  unfold terminationOutcomeFromVerification.
  destruct (errors_Is err ErrProcessAlreadyExited); [split; reflexivity|].
  destruct (errors_Is err ErrProcessIdentityMismatch); split; reflexivity.
Qed.

Lemma mark_exited_safe t expected :
  (markTerminationOutcomeExited t expected).1 = t \/
  (ex_Valid expected = true /\ (markTerminationOutcomeExited t expected).1 =
     (MarkExitedIfCurrent t (ex_CanonicalTaskName expected) (ex_PIDGeneration expected)).1).
Proof. unfold markTerminationOutcomeExited. destruct (ex_Valid expected); simpl; auto. Qed.

(** An attempt is safe when its calls and its conclusion are. *)
Lemma safe_calls env t expected proof calls more r :
  tm_calls r = calls ++ more -> kills_verified env proof calls more ->
  (is_exit (tm_outcome r) = true -> exit_observed env proof) -> to_Expected (tm_outcome r) = expected ->
  (tm_tracker r = t \/ (is_exit (tm_outcome r) = true /\ ex_Valid expected = true /\
    tm_tracker r = (MarkExitedIfCurrent t (ex_CanonicalTaskName expected) (ex_PIDGeneration expected)).1)) ->
  term_safe env t expected proof calls r.
Proof. intros Hc Hk He Hx Ht. split; [by exists more|done]. Qed.

Lemma held_refused_spec t expected calls events err :
  let r := held_refused t expected calls events err in
  tm_calls r = calls /\ is_exit (tm_outcome r) = errors_Is err ErrProcessAlreadyExited /\
  to_Expected (tm_outcome r) = expected /\
  (tm_tracker r = t \/ (is_exit (tm_outcome r) = true /\ ex_Valid expected = true /\
    tm_tracker r = (MarkExitedIfCurrent t (ex_CanonicalTaskName expected) (ex_PIDGeneration expected)).1)).
Proof.
  unfold held_refused, terminationOutcomeFromVerification.
  destruct (errors_Is err ErrProcessAlreadyExited); simpl;
    [|destruct (errors_Is err ErrProcessIdentityMismatch); simpl; auto].
  pose proof (mark_exited_safe t expected) as Hm. destruct (markTerminationOutcomeExited t expected) as [t1 p1].
  simpl in *. split_and!; try done. destruct Hm as [|[]]; auto.
Qed.

Lemma with_cleanup_safe env t expected proof calls r :
  term_safe env t expected proof calls r -> term_safe env t expected proof calls (with_cleanup env r).
Proof. unfold with_cleanup. by destruct (pe_held_close env). Qed.

Ltac no_kills := apply no_kills_verified; repeat constructor.
(** The verification, and the kill that follows it. *)
Lemma verified_kill env proof before k :
  kill_of k = Some proof -> verdict env k proof = None -> kills_verified env proof before [CallVerify proof; k].
Proof. intros Hk Hv. split; [done|]. split; [|done]. intros p. rewrite Hk. intros [= <-]. split_and!; [done..|by exists before]. Qed.

Lemma windows_safe env t expected proof calls :
  pe_windows env = true -> term_safe env t expected proof calls (terminateProductionWindows env t expected proof calls).
Proof.
  intros Hw. unfold terminateProductionWindows. destruct (pe_hold env (pp_PID proof)) as [e|] eqn:Eh.
  - pose proof (from_verification_exit expected e) as [Hx He].
    destruct (terminationOutcomeFromVerification expected e) as [evs o]. simpl in *.
    eapply safe_calls; simpl; [reflexivity|no_kills| |done|auto].
    rewrite Hx. intros ?. unfold exit_observed. do 3 right. eauto.
  - apply with_cleanup_safe. destruct (pe_held_verify env proof) as [e|] eqn:Ev.
    + destruct (held_refused_spec t expected ((calls ++ [CallHold (pp_PID proof)]) ++ [CallVerify proof]) [] e) as (Hc&Hx&He&Ht).
      eapply safe_calls; [rewrite Hc, <- app_assoc; reflexivity|no_kills| |done|done].
      rewrite Hx. intros ?. unfold exit_observed. do 3 right. eauto.
    + assert (Hk : kills_verified env proof calls [CallHold (pp_PID proof); CallVerify proof; CallTerminate proof]).
      { split; [by intros p|]. apply verified_kill; [done|]. cbn. by rewrite Hw. }
      destruct (pe_held_terminate env proof) as [[] err] eqn:Et; [destruct err as [e|]|].
      * eapply safe_calls; [simpl; rewrite <- !app_assoc; reflexivity|exact Hk|done|done|by left].
      * pose proof (mark_exited_safe t expected) as Hm.
        destruct (markTerminationOutcomeExited t expected) as [t1 p1]. simpl in Hm.
        eapply safe_calls; [simpl; rewrite <- !app_assoc; reflexivity|exact Hk| |done|].
        -- intros _. unfold exit_observed. auto.
        -- simpl. destruct Hm as [|[]]; auto.
      * set (calls3 := ((calls ++ [CallHold (pp_PID proof)]) ++ [CallVerify proof]) ++ [CallTerminate proof]).
        destruct (held_refused_spec t expected calls3 ["daemon-terminate-requested"] (default (errors_New "") err))
          as (Hc&Hx&He&Ht).
        eapply safe_calls; [rewrite Hc; unfold calls3; rewrite <- !app_assoc; reflexivity|exact Hk| |done|done].
        rewrite Hx. destruct err as [e|]; [|done]. intros ?. unfold exit_observed. do 3 right. exists e. auto.
Qed.

Lemma polls_no_kill pid alive : Forall (fun k => kill_of k = None) (poll_until_gone pid alive).1.
Proof. induction alive as [|[] alive IH]; cbn; [constructor|by constructor|by repeat constructor]. Qed.
Lemma finish_verified env proof before : kills_verified env proof before (finishProductionTerminate env proof).1.1.
Proof.
  unfold finishProductionTerminate. set (alive := take _ _). pose proof (polls_no_kill (pp_PID proof) alive) as Hp.
  destruct (poll_until_gone _ alive) as [polls gone]. cbn in Hp. destruct gone; [by apply no_kills_verified|].
  assert (Hl : forall l, kills_verified env proof (before ++ polls) l -> kills_verified env proof before (polls ++ l)).
  { intros l Hl. apply kills_verified_app. split; [by apply no_kills_verified|done]. }
  destruct (pe_late_verify env proof) as [err|] eqn:Ev; [destruct (errors_Is err _); apply Hl; no_kills|].
  assert (kills_verified env proof (before ++ polls) [CallVerify proof; CallKill proof]) as Hk by by apply verified_kill.
  destruct (pe_kill env proof) as [err|]; [destruct (errors_Is err _)|]; by apply Hl.
Qed.
Lemma posix_safe env t expected proof calls :
  pe_windows env = false -> term_safe env t expected proof calls (terminateProductionPosix env t expected proof calls).
Proof.
  intros Hw. unfold terminateProductionPosix. destruct (pe_verify env proof) as [e|] eqn:Ev.
  - pose proof (from_verification_exit expected e) as [Hx He].
    destruct (terminationOutcomeFromVerification expected e) as [evs o]. simpl in *.
    eapply safe_calls; simpl; [reflexivity|no_kills| |done|auto].
    rewrite Hx. intros ?. unfold exit_observed. do 3 right. exists e. auto 10.
  - assert (Hk : kills_verified env proof calls [CallVerify proof; CallTerminate proof]).
    { apply verified_kill; [done|]. cbn. by rewrite Hw. }
    destruct (pe_terminate env proof) as [e|] eqn:Et.
    { pose proof (from_verification_exit expected e) as [Hx He].
      destruct (terminationOutcomeFromVerification expected e) as [evs o]. simpl in Hx, He.
      eapply safe_calls; [simpl; rewrite <- !app_assoc; reflexivity|exact Hk| |done|by left].
      simpl. rewrite Hx. intros ?. unfold exit_observed. do 3 right. exists e. auto 10. }
    pose proof (finish_verified env proof) as Hf. destruct (finishProductionTerminate env proof) as [[finish escalation] err]. cbn in Hf.
    assert (Hkf : forall l, Forall (fun k => kill_of k = None) l ->
      kills_verified env proof calls ([CallVerify proof; CallTerminate proof] ++ finish ++ l)).
    { intros l Hl. apply kills_verified_app. split; [exact Hk|]. apply kills_verified_app. split; [apply Hf|by apply no_kills_verified]. }
    destruct err as [e|].
    { eapply safe_calls; [simpl; rewrite <- !app_assoc; reflexivity| |done|done|by left].
      rewrite <- (app_nil_r finish). by apply (Hkf []). }
    destruct (pe_requery env (pp_PID proof)) as [st|e] eqn:Er; [destruct st|].
    1,3,4: eapply safe_calls; [simpl; rewrite <- !app_assoc; reflexivity|by apply Hkf; repeat constructor|done|done|by left].
    pose proof (mark_exited_safe t expected) as Hm.
    destruct (markTerminationOutcomeExited t expected) as [t1 p1]. simpl in Hm.
    eapply safe_calls; [simpl; rewrite <- !app_assoc; reflexivity|by apply Hkf; repeat constructor| |done|].
    + intros _. unfold exit_observed. auto.
    + simpl. destruct Hm as [|[]]; auto.
Qed.

(** The expected tuple with its task name filled in. *)
Definition named_tuple (d : SupervisorDaemon) (expected : terminationExpectedTuple) : terminationExpectedTuple :=
  if ex_CanonicalTaskName expected =s ""
  then mkExpected (canonicalSupervisorTaskName (sd_TaskName d)) (ex_PID expected) (ex_StartedAt expected)
         (ex_PIDGeneration expected) (ex_Valid expected)
  else expected.

(** C6: terminating is safe against PID reuse and never invents an exit.
    On either platform a process is signalled or killed, at first or after
    the grace period, only if it was alive, carries a start time, and the
    call just before verified its identity (PID, executable and start time
    of the expected process) with success; the outcome is an exit only if
    the process was seen dead or the system reported it gone; and the
    tracker changes only by recording that exit for the expected
    generation. *)
Theorem terminate_only_verified env running t d expected0 :
  let expected := named_tuple d expected0 in
  let target := term_target running d expected in
  let proof := mkProof target.1 (pe_identity_exe env (sd_Command d)) "" target.2 0 in
  let r := makeProductionTerminationOutcomeFn env running t d expected0 in
  (forall pre k post p, tm_calls r = pre ++ k :: post -> kill_of k = Some p ->
     p = proof /\ 0 < pp_PID p /\ pp_StartedAt p <> "" /\ pe_query env (pp_PID p) = Ok PIDStateAlive /\
     verdict env k p = None /\ exists earlier, pre = earlier ++ [CallVerify p]) /\
  (is_exit (tm_outcome r) = true -> exit_observed env proof) /\
  (tm_tracker r = t \/
   (is_exit (tm_outcome r) = true /\ ex_Valid expected = true /\
    tm_tracker r = (MarkExitedIfCurrent t (ex_CanonicalTaskName expected) (ex_PIDGeneration expected)).1)).
Proof.
  intros expected target proof r. subst r. unfold makeProductionTerminationOutcomeFn. fold (named_tuple d expected0).
  fold expected. fold target. destruct target as [pid startedAt] eqn:Etarget. cbv zeta. cbn [fst snd] in proof. fold proof.
  assert (Hnone : forall c, Forall (fun k => kill_of k = None) c -> forall pre k post p, c = pre ++ k :: post -> kill_of k <> Some p).
  { intros c Hc pre k post p -> Hk. apply Forall_app in Hc as [_ Hc]. inversion Hc. congruence. }
  destruct (Z.leb_spec pid 0) as [|Hpid]; [split_and!; [by intros [] k post p Hp|done|auto]|].
  destruct (pe_query env pid) as [st|e] eqn:Eq; [destruct st|].
  2: { pose proof (mark_exited_safe t expected) as Hm. destruct (markTerminationOutcomeExited t expected) as [t1 p1].
    simpl in *. split_and!; [intros pre k post p Hp Hk; exfalso; eapply Hnone; [|exact Hp|exact Hk]; repeat constructor| |].
    - intros _. unfold exit_observed. auto.
    - destruct Hm as [|[]]; auto. }
  2,3: simpl; split_and!; [intros pre k post p Hp Hk; exfalso; eapply Hnone; [|exact Hp|exact Hk]; repeat constructor|done|by left].
  destruct (startedAt =s "") eqn:Es.
  { simpl. split_and!; [intros pre k post p Hp Hk; exfalso; eapply Hnone; [|exact Hp|exact Hk]; repeat constructor|done|by left]. }
  breflect.
  assert (term_safe env t expected proof [CallQuery pid]
    (if pe_windows env then terminateProductionWindows env t expected proof [CallQuery pid]
     else terminateProductionPosix env t expected proof [CallQuery pid])) as ((more&Hc&Hk)&Hx&_&Ht)
    by (destruct (pe_windows env) eqn:Hw; [by apply windows_safe|by apply posix_safe]).
  split_and!; [|done|done]. intros pre k post p Hp Hkp. rewrite Hc in Hp.
  assert (Hall : kills_verified env proof [] ([CallQuery pid] ++ more)) by (split; [by intros q|exact Hk]).
  destruct (kills_verified_in _ _ _ Hall pre k post p Hp Hkp) as (->&Hv&He). by split_and!.
Qed.
