(* ===== verification/CommandLine.v ===== *)
(** * CommandLine: what a process was started as.

    [process/windows_command_line.go] and the argument matching of
    [daemonrecovery/classifier.go]: the tokenizer of Windows command lines,
    the effective value of a flag, and the rule by which the command line of
    a live process names one descriptor. *)
From S2P Require Import Prelude GoTime Intent Descriptor.

(** ** The tokenizer *)
Definition quote_char : ascii := "034"%char.
Definition is_blank_byte (a : ascii) : bool := Ascii.eqb a " " || Ascii.eqb a "009".

(** [appendWindowsBackslashes] *)
Fixpoint backslashes (count : nat) : string :=
  match count with O => "" | S n => String backslash (backslashes n) end.
Definition appendWindowsBackslashes (out : string) (count : nat) : string := out +:+ backslashes count.

(** The loop of [readNextWindowsArg] from its state. *)
Fixpoint read_arg (commandLine out : string) (inQuote : bool) (slashCount : nat) : string * string :=
  match commandLine with
  | "" => (appendWindowsBackslashes out slashCount, "")
  | String char rest =>
      if is_blank_byte char && negb inQuote then (appendWindowsBackslashes out slashCount, rest)
      else if Ascii.eqb char quote_char then
        let out := appendWindowsBackslashes out (Nat.div2 slashCount) in
        if Nat.even slashCount then
          match inQuote, rest with
          | true, String next rest' =>
              if Ascii.eqb next quote_char then read_arg rest' (out +:+ String char "") (negb inQuote) 0
              else read_arg rest out (negb inQuote) 0
          | _, _ => read_arg rest out (negb inQuote) 0
          end
        else read_arg rest (out +:+ String char "") inQuote 0
      else if Ascii.eqb char backslash then read_arg rest out inQuote (S slashCount)
      else read_arg rest (appendWindowsBackslashes out slashCount +:+ String char "") inQuote 0
  end.
Definition readNextWindowsArg (commandLine : string) : string * string := read_arg commandLine "" false 0.

(** The loop of [TokenizeWindowsCommandLine]; each round consumes a byte at
    least, so the length of the line is enough rounds. *)
Fixpoint tokenize (fuel : nat) (commandLine : string) : list string :=
  match fuel with
  | O => []
  | S n =>
      match commandLine with
      | "" => []
      | String c rest =>
          if is_blank_byte c then tokenize n rest
          else let '(arg, rest) := readNextWindowsArg commandLine in arg :: tokenize n rest
      end
  end.
Definition TokenizeWindowsCommandLine (commandLine : string) : list string :=
  tokenize (String.length commandLine) commandLine.

(** ** How Go writes a command line

    [os/exec] starts a process with its arguments escaped by
    [syscall.EscapeArg] and joined by blanks. *)
Fixpoint has_byte (p : ascii -> bool) (s : string) : bool :=
  match s with "" => false | String a s => p a || has_byte p s end.
Fixpoint escape_body (hasSpace : bool) (slashes : nat) (s : string) : string :=
  match s with
  | "" => if hasSpace then backslashes slashes +:+ String quote_char "" else ""
  | String c s =>
      if Ascii.eqb c backslash then String c (escape_body hasSpace (S slashes) s)
      else if Ascii.eqb c quote_char
      then backslashes slashes +:+ String backslash (String c (escape_body hasSpace 0 s))
      else String c (escape_body hasSpace 0 s)
  end.
Definition EscapeArg (s : string) : string :=
  if s =s "" then String quote_char (String quote_char "")
  else
    let hasSpace := has_byte is_blank_byte s in
    (if hasSpace then String quote_char "" else "") +:+ escape_body hasSpace 0 s.
Fixpoint makeCmdLine (args : list string) : string :=
  match args with
  | [] => ""
  | [a] => EscapeArg a
  | a :: args => EscapeArg a +:+ String " " (makeCmdLine args)
  end.

(** ** Flags *)

(** The loop of [parserEffectiveUniqueFlagValue]; [None] is the answer
    "no unique value". *)
Fixpoint flag_loop (flag : string) (tokens : list string) (found : option string) : option string :=
  match tokens with
  | [] => found
  | token :: rest =>
      if token =s "--" then found
      else if token =s flag then
        match rest with
        | [] => None
        | value :: rest => match found with Some _ => None | None => flag_loop flag rest (Some value) end
        end
      else if has_prefix (flag +:+ "=") token then
        match found with Some _ => None | None => flag_loop flag rest (Some (trim_prefix (flag +:+ "=") token)) end
      else flag_loop flag rest found
  end.
Definition parserEffectiveUniqueFlagValue (tokens : list string) (flag : string) : option string :=
  flag_loop flag tokens None.
Definition descriptorArgValue (d : SupervisorDaemon) (flag : string) : option string :=
  parserEffectiveUniqueFlagValue (sd_Args d) flag.
Definition CommandLineHasAdjacentTokenPair (tokens : list string) (flag value : string) : bool :=
  match parserEffectiveUniqueFlagValue tokens flag with Some effective => effective =s value | None => false end.

(** ** The task discriminator *)
Definition hasSubcommandAnchor (tokens : list string) (sub1 sub2 : string) : bool :=
  match tokens with _ :: t1 :: t2 :: _ => (t1 =s sub1) && (t2 =s sub2) | _ => false end.
Definition hasGlobalDaemonAnchor (tokens : list string) : bool :=
  match tokens with _ :: t1 :: t2 :: _ => (t1 =s "daemon") && has_prefix "-" t2 | _ => false end.

Definition CommandLineMatchesTaskArgv (tokens : list string) (d : SupervisorDaemon) : bool :=
  if IsSerenaProxyDescriptor d then
    let taskName := canonicalSupervisorTaskName (sd_TaskName d) in
    negb (taskName =s "") &&
    match parserEffectiveUniqueFlagValue (sd_Args d) "--task-name" with
    | Some descriptorTaskName =>
        (canonicalSupervisorTaskName descriptorTaskName =s taskName) &&
        hasSubcommandAnchor tokens "daemon" "serena-proxy" &&
        CommandLineHasAdjacentTokenPair tokens "--task-name" descriptorTaskName
    | None => false
    end
  else if IsWorkspaceLSPProxyDescriptor d then
    match descriptorArgValue d "--workspace", descriptorArgValue d "--language" with
    | Some workspace, Some language =>
        negb (workspace =s "") && negb (language =s "") &&
        hasSubcommandAnchor tokens "daemon" "workspace-proxy" &&
        CommandLineHasAdjacentTokenPair tokens "--workspace" workspace &&
        CommandLineHasAdjacentTokenPair tokens "--language" language
    | _, _ => false
    end
  else if DescriptorHasGlobalDaemonArgv d then
    match DescriptorServerDaemon d, descriptorArgValue d "--server", descriptorArgValue d "--daemon" with
    | Some (server, daemon), Some descriptorServer, Some descriptorDaemon =>
        negb (server =s "") && negb (daemon =s "") &&
        (descriptorServer =s server) && (descriptorDaemon =s daemon) &&
        hasGlobalDaemonAnchor tokens &&
        CommandLineHasAdjacentTokenPair tokens "--server" server &&
        CommandLineHasAdjacentTokenPair tokens "--daemon" daemon
    | _, _, _ => false
    end
  else false.

(** ** The tokenizer reads back what Go wrote *)
Lemma str_app_cons c (s t : string) : String c s +:+ t = String c (s +:+ t).
Proof. done. Qed.
Lemma str_app_nil_r (s : string) : s +:+ "" = s.
Proof. induction s as [|a s IH]; [done|]. by rewrite str_app_cons, IH. Qed.
Lemma str_app_assoc (s t u : string) : (s +:+ t) +:+ u = s +:+ (t +:+ u).
Proof. induction s as [|a s IH]; [done|]. by rewrite !str_app_cons, IH. Qed.
Lemma str_length_app (s t : string) : String.length (s +:+ t) = (String.length s + String.length t)%nat.
Proof. induction s as [|a s IH]; [done|]. rewrite str_app_cons. cbn [String.length]. by rewrite IH. Qed.
Lemma backslashes_S n : backslashes (S n) = backslashes n +:+ String backslash "".
Proof.
  induction n as [|n IH]; [done|]. cbn [backslashes] in *. by rewrite str_app_cons, <- IH.
Qed.

(** Where an argument ends in the line: at its end or at a blank. *)
Definition ends_arg (tail : string) : Prop := tail = "" \/ exists rest, tail = String " " rest.
Definition after_arg (tail : string) : string := match tail with "" => "" | String _ rest => rest end.

Lemma read_backslashes k s out q n :
  read_arg (backslashes k +:+ s) out q n = read_arg s out q (n + k)%nat.
Proof.
  revert n. induction k as [|k IH]; intros n; [by rewrite Nat.add_0_r|].
  change (backslashes (S k) +:+ s) with (String backslash (backslashes k +:+ s)). cbn [read_arg].
  change (is_blank_byte backslash && negb q) with false. change (Ascii.eqb backslash quote_char) with false.
  change (Ascii.eqb backslash backslash) with true. cbv iota. rewrite IH. f_equal. lia.
Qed.

Lemma read_end out n tail :
  ends_arg tail -> read_arg tail out false n = (appendWindowsBackslashes out n, after_arg tail).
Proof. by intros [->|[rest ->]]. Qed.

(** An even number of backslashes before a quote closes a quoted argument;
    an odd one makes the quote literal. *)
Lemma read_closing_quote out n tail :
  ends_arg tail ->
  read_arg (String quote_char tail) out true (2 * n) = (appendWindowsBackslashes out n, after_arg tail).
Proof.
  intros Ht. cbn [read_arg]. change (is_blank_byte quote_char && negb true) with false.
  change (Ascii.eqb quote_char quote_char) with true. cbv iota.
  rewrite Nat.div2_double. replace (Nat.even (2 * n)) with true by (symmetry; apply Nat.even_spec; by exists n).
  transitivity (read_arg tail (appendWindowsBackslashes out n) false 0).
  - by destruct Ht as [->|[rest ->]].
  - rewrite (read_end _ _ _ Ht). unfold appendWindowsBackslashes. cbn [backslashes]. by rewrite str_app_nil_r.
Qed.
Lemma read_literal_quote s out q n :
  read_arg (String quote_char s) out q (S (2 * n)) = read_arg s (out +:+ backslashes n +:+ String quote_char "") q 0.
Proof.
  cbn [read_arg]. change (is_blank_byte quote_char && negb q) with false.
  change (Ascii.eqb quote_char quote_char) with true. cbv iota.
  replace (Nat.even (S (2 * n))) with false by (rewrite Nat.even_succ; symmetry; rewrite <- Nat.negb_even; apply negb_false_iff, Nat.even_spec; by exists n).
  rewrite Nat.div2_succ_double. unfold appendWindowsBackslashes. by rewrite str_app_assoc.
Qed.

Lemma read_escape_body q s out n tail :
  ends_arg tail -> (has_byte is_blank_byte s = true -> q = true) ->
  read_arg (escape_body q n s +:+ tail) out q n = (out +:+ backslashes n +:+ s, after_arg tail).
Proof.
  intros Ht. revert out n. induction s as [|c s IH]; intros out n Hb.
  - rewrite str_app_nil_r. cbn [escape_body]. destruct q; [|by apply read_end].
    rewrite str_app_assoc, read_backslashes.
    replace (n + n)%nat with (2 * n)%nat by lia. by apply read_closing_quote.
  - cbn [has_byte] in Hb. rewrite orb_true_iff in Hb. cbn [escape_body].
    destruct (Ascii.eqb_spec c backslash) as [->|Hs].
    { change (String backslash (escape_body q (S n) s) +:+ tail) with (backslashes 1 +:+ (escape_body q (S n) s +:+ tail)).
      rewrite read_backslashes, Nat.add_1_r, IH by auto. by rewrite backslashes_S, str_app_assoc, str_app_cons. }
    destruct (Ascii.eqb_spec c quote_char) as [->|Hq].
    { rewrite str_app_assoc, read_backslashes.
      change (String backslash (String quote_char (escape_body q 0 s)) +:+ tail)
        with (backslashes 1 +:+ String quote_char (escape_body q 0 s +:+ tail)).
      rewrite read_backslashes. replace (n + n + 1)%nat with (S (2 * n)) by lia.
      rewrite read_literal_quote, IH by auto. cbn [backslashes]. by rewrite !str_app_assoc, str_app_cons. }
    rewrite str_app_cons. cbn [read_arg]. rewrite (proj2 (Ascii.eqb_neq _ _) Hq), (proj2 (Ascii.eqb_neq _ _) Hs).
    replace (is_blank_byte c && negb q) with false.
    + cbv iota. rewrite IH by auto. cbn [backslashes]. unfold appendWindowsBackslashes. by rewrite !str_app_assoc.
    + destruct (is_blank_byte c) eqn:E, q; try done. by specialize (Hb (or_introl eq_refl)).
Qed.

Lemma read_plain s out n tail :
  has_byte is_blank_byte s = false -> ends_arg tail ->
  read_arg (escape_body false n s +:+ tail) out false n = (out +:+ backslashes n +:+ s, after_arg tail).
Proof. intros Hb Ht. apply read_escape_body; [done|]. by rewrite Hb. Qed.

Lemma read_EscapeArg s tail : ends_arg tail -> readNextWindowsArg (EscapeArg s +:+ tail) = (s, after_arg tail).
Proof.
  intros Ht. unfold EscapeArg, readNextWindowsArg.
  destruct (s =s "") eqn:Es.
  { apply str_eqb_true in Es as ->. by destruct Ht as [->|[rest ->]]. }
  cbn zeta. destruct (has_byte is_blank_byte s) eqn:Hb.
  - transitivity (read_arg (escape_body true 0 s +:+ tail) "" true 0); [by rewrite str_app_assoc|].
    by rewrite read_escape_body.
  - transitivity (read_arg (escape_body false 0 s +:+ tail) "" false 0); [done|]. by rewrite read_plain.
Qed.

(** An escaped argument starts with a byte that begins a token. *)
Lemma EscapeArg_starts s : exists c t, EscapeArg s = String c t /\ is_blank_byte c = false.
Proof.
  unfold EscapeArg. destruct (s =s "") eqn:Es; [by eexists _, _|]. cbn zeta.
  destruct (has_byte is_blank_byte s) eqn:Hb; [by eexists _, _|].
  destruct s as [|c s]; [done|]. cbn [has_byte] in Hb. apply orb_false_iff in Hb as [Hc _].
  cbn [escape_body]. destruct (Ascii.eqb c backslash); [by eexists _, _|].
  destruct (Ascii.eqb c quote_char); by eexists _, _.
Qed.

Lemma tokenize_arg fuel s tail :
  ends_arg tail -> tokenize (S fuel) (EscapeArg s +:+ tail) = s :: tokenize fuel (after_arg tail).
Proof.
  intros Ht. pose proof (read_EscapeArg s tail Ht) as Hr.
  destruct (EscapeArg_starts s) as (c&t&He&Hc). rewrite He, str_app_cons in *. cbn [tokenize].
  by rewrite Hc, Hr.
Qed.

Lemma tokenize_cmdline fuel args :
  (length args <= fuel)%nat -> tokenize fuel (makeCmdLine args) = args.
Proof.
  revert fuel. induction args as [|a args IH]; intros fuel Hf; [by destruct fuel|].
  destruct fuel as [|fuel]; [cbn in Hf; lia|]. cbn in Hf.
  destruct args as [|b args].
  - cbn [makeCmdLine]. rewrite <- (str_app_nil_r (EscapeArg a)), tokenize_arg by (by left). by destruct fuel.
  - change (makeCmdLine (a :: b :: args)) with (EscapeArg a +:+ String " " (makeCmdLine (b :: args))).
    rewrite tokenize_arg by (right; eauto). cbn [after_arg]. rewrite IH; [done|cbn in *; lia].
Qed.

Lemma cmdline_length args : (length args <= String.length (makeCmdLine args))%nat.
Proof.
  induction args as [|a [|b args] IH]; [done| |].
  - cbn [makeCmdLine length]. destruct (EscapeArg_starts a) as (c&t&->&_). cbn [String.length]. lia.
  - change (makeCmdLine (a :: b :: args)) with (EscapeArg a +:+ String " " (makeCmdLine (b :: args))).
    rewrite str_length_app. cbn [String.length]. apply (Nat.le_trans _ (S (String.length (makeCmdLine (b :: args))))); [|lia].
    by apply le_n_S.
Qed.

Lemma tokenize_makeCmdLine args : TokenizeWindowsCommandLine (makeCmdLine args) = args.
Proof. apply tokenize_cmdline, cmdline_length. Qed.

(** ** One command line, one daemon *)

(** What a command line must name to be a child of [d]. *)
Definition argv_identity (d : SupervisorDaemon) : string * string * string :=
  let arg flag := default "" (descriptorArgValue d flag) in
  if IsSerenaProxyDescriptor d then ("serena-proxy", canonicalSupervisorTaskName (sd_TaskName d), "")
  else if IsWorkspaceLSPProxyDescriptor d then ("workspace-proxy", arg "--workspace", arg "--language")
  else ("daemon", arg "--server", arg "--daemon").

Lemma pair_value tokens flag v :
  CommandLineHasAdjacentTokenPair tokens flag v = true <-> parserEffectiveUniqueFlagValue tokens flag = Some v.
Proof.
  unfold CommandLineHasAdjacentTokenPair. destruct (parserEffectiveUniqueFlagValue tokens flag) as [e|]; [|by split].
  rewrite str_eqb_true. split; [by intros ->|by intros [= ->]].
Qed.

(** What [CommandLineMatchesTaskArgv] accepts, by the shape of the descriptor. *)
Definition argv_matches (tokens : list string) (d : SupervisorDaemon) : Prop :=
  let value flag v := parserEffectiveUniqueFlagValue tokens flag = Some v /\ descriptorArgValue d flag = Some v in
  if IsSerenaProxyDescriptor d then
    hasSubcommandAnchor tokens "daemon" "serena-proxy" = true /\ canonicalSupervisorTaskName (sd_TaskName d) <> "" /\
    exists t, value "--task-name" t /\ canonicalSupervisorTaskName t = canonicalSupervisorTaskName (sd_TaskName d)
  else if IsWorkspaceLSPProxyDescriptor d then
    hasSubcommandAnchor tokens "daemon" "workspace-proxy" = true /\
    exists w l, value "--workspace" w /\ value "--language" l /\ w <> "" /\ l <> ""
  else
    DescriptorHasGlobalDaemonArgv d = true /\ hasGlobalDaemonAnchor tokens = true /\
    exists s dm, value "--server" s /\ value "--daemon" dm /\ DescriptorServerDaemon d = Some (s, dm).

Lemma server_daemon_nonempty d s dm : DescriptorServerDaemon d = Some (s, dm) -> s <> "" /\ dm <> "".
Proof.
  unfold DescriptorServerDaemon. cbn zeta. intros H. do 3 (case_match; [done|]). simplify_eq. by breflect.
Qed.

Lemma CommandLineMatches_spec tokens d : CommandLineMatchesTaskArgv tokens d = true <-> argv_matches tokens d.
Proof.
  unfold CommandLineMatchesTaskArgv, argv_matches, descriptorArgValue. cbn zeta.
  destruct (IsSerenaProxyDescriptor d).
  { destruct (parserEffectiveUniqueFlagValue (sd_Args d) "--task-name") as [t|]; breflect; rewrite ?pair_value;
      naive_solver. }
  destruct (IsWorkspaceLSPProxyDescriptor d).
  { destruct (parserEffectiveUniqueFlagValue (sd_Args d) "--workspace") as [w|]; [|naive_solver].
    destruct (parserEffectiveUniqueFlagValue (sd_Args d) "--language") as [l|]; [|naive_solver].
    breflect. rewrite !pair_value. naive_solver. }
  destruct (DescriptorHasGlobalDaemonArgv d); [|naive_solver].
  destruct (DescriptorServerDaemon d) as [[s dm]|] eqn:Hd; [|naive_solver].
  apply server_daemon_nonempty in Hd as [??].
  destruct (parserEffectiveUniqueFlagValue (sd_Args d) "--server") as [s'|]; [|naive_solver].
  destruct (parserEffectiveUniqueFlagValue (sd_Args d) "--daemon") as [dm'|]; [|naive_solver].
  breflect. rewrite !pair_value. naive_solver.
Qed.

(** The anchors of the three shapes exclude each other, and a flag has one
    value: the tokens determine what they name. *)
Lemma argv_discriminates tokens d1 d2 :
  CommandLineMatchesTaskArgv tokens d1 = true -> CommandLineMatchesTaskArgv tokens d2 = true ->
  argv_identity d1 = argv_identity d2.
Proof.
  rewrite !CommandLineMatches_spec. unfold argv_matches, argv_identity.
  destruct tokens as [|t0 [|t1 [|t2 ts]]]; cbn [hasSubcommandAnchor hasGlobalDaemonAnchor];
    destruct (IsSerenaProxyDescriptor d1), (IsSerenaProxyDescriptor d2),
      (IsWorkspaceLSPProxyDescriptor d1), (IsWorkspaceLSPProxyDescriptor d2);
    intros H1 H2; breflect; decompose record H1; decompose record H2; simplify_eq; try done;
    repeat match goal with E : descriptorArgValue _ _ = Some _ |- _ => rewrite E; clear E end; congruence.
Qed.

(** A descriptor whose arguments name its own task. *)
Definition names_itself (d : SupervisorDaemon) : Prop :=
  if IsSerenaProxyDescriptor d then
    canonicalSupervisorTaskName (sd_TaskName d) <> "" /\
    exists t, descriptorArgValue d "--task-name" = Some t /\
      canonicalSupervisorTaskName t = canonicalSupervisorTaskName (sd_TaskName d)
  else if IsWorkspaceLSPProxyDescriptor d then
    exists w l, descriptorArgValue d "--workspace" = Some w /\ descriptorArgValue d "--language" = Some l /\ w <> "" /\ l <> ""
  else
    exists a rest s dm, sd_Args d = "daemon" :: a :: rest /\ has_prefix "-" a = true /\
      descriptorArgValue d "--server" = Some s /\ descriptorArgValue d "--daemon" = Some dm /\
      DescriptorServerDaemon d = Some (s, dm).

Lemma flag_value_skip exe flag args :
  has_prefix "-" exe = false -> has_prefix "-" flag = true ->
  parserEffectiveUniqueFlagValue (exe :: args) flag = parserEffectiveUniqueFlagValue args flag.
Proof.
  intros He Hf. unfold parserEffectiveUniqueFlagValue. cbn [flag_loop].
  rewrite (proj2 (str_eqb_false exe "--")) by (by intros ->).
  rewrite (proj2 (str_eqb_false exe flag)) by (intros ->; congruence).
  replace (has_prefix (flag +:+ "=") exe) with false; [done|].
  destruct flag as [|a flag], exe as [|b exe]; try done. cbn [has_prefix] in *. rewrite str_app_cons. cbn [has_prefix].
  rewrite !andb_true_r in *. apply Ascii.eqb_eq in Hf as <-. by rewrite He.
Qed.

Lemma shape_args kind d : is_daemon_kind kind d = true -> exists rest, sd_Args d = "daemon" :: kind :: rest.
Proof.
  unfold is_daemon_kind. destruct (sd_Args d) as [|a [|b rest]]; try done. breflect. intros [-> ->]. by exists rest.
Qed.

(** A supervisor recognises its own child: a process started with the
    arguments of a descriptor that names its own task matches it. *)
Lemma own_child_matches exe d :
  has_prefix "-" exe = false ->
  CommandLineMatchesTaskArgv (TokenizeWindowsCommandLine (makeCmdLine (exe :: sd_Args d))) d = true <-> names_itself d.
Proof.
  intros He. rewrite tokenize_makeCmdLine, CommandLineMatches_spec.
  unfold argv_matches, names_itself, descriptorArgValue. cbn zeta. rewrite !flag_value_skip by done.
  destruct (IsSerenaProxyDescriptor d) eqn:Hs.
  { destruct (shape_args _ _ Hs) as [rest E].
    assert (hasSubcommandAnchor (exe :: sd_Args d) "daemon" "serena-proxy" = true) as -> by (by rewrite E). naive_solver. }
  destruct (IsWorkspaceLSPProxyDescriptor d) eqn:Hw.
  { destruct (shape_args _ _ Hw) as [rest E].
    assert (hasSubcommandAnchor (exe :: sd_Args d) "daemon" "workspace-proxy" = true) as -> by (by rewrite E). naive_solver. }
  unfold DescriptorHasGlobalDaemonArgv, starts_with_daemon. rewrite Hs, Hw. cbn [negb]. rewrite !andb_true_r.
  destruct (sd_Args d) as [|a0 [|a1 rest]]; cbn [hasGlobalDaemonAnchor]; breflect; [naive_solver..|].
  split; [naive_solver|]. intros (?&?&s&dm&[= -> -> ->]&?&?&?&?). naive_solver.
Qed.

(** C36: the supervisor reads back what it started.  The command line that Go
    hands to a child, whatever bytes its arguments hold (blanks, quotes,
    backslashes, nothing at all), is tokenized into exactly these arguments;
    so a child started for a descriptor is recognised as that descriptor's,
    exactly if the descriptor's arguments name its own task; and no command
    line is recognised as the child of two descriptors that name different
    tasks. *)
Theorem command_line_round_trip exe d :
  has_prefix "-" exe = false ->
  let line := makeCmdLine (exe :: sd_Args d) in
  TokenizeWindowsCommandLine line = exe :: sd_Args d /\
  (CommandLineMatchesTaskArgv (TokenizeWindowsCommandLine line) d = true <-> names_itself d) /\
  forall d', names_itself d -> CommandLineMatchesTaskArgv (TokenizeWindowsCommandLine line) d' = true ->
    argv_identity d' = argv_identity d.
Proof.
  intros He line. pose proof (own_child_matches exe d He) as Hm.
  split_and!; [apply tokenize_makeCmdLine|done|]. intros d' Hd Hd'. eapply argv_discriminates; [done|by apply Hm].
Qed.

(** A serena proxy started from a path with a blank in it. *)
Definition serena_example : SupervisorDaemon :=
  mkDaemon None "serena b1" "serena" "" "mcphub"
    ["daemon"; "serena-proxy"; "--task-name"; bs "serena b1"; "--port=9200"] "" ∅ "" 9200 "" 0
    (Some (mkRuntimeSpec None 1 "uvx" [] ∅ 19150 9150 "")).
Definition exe_example : string := "C:\Program Files\mcphub.exe".

Lemma command_line_round_trip_witness :
  has_prefix "-" exe_example = false /\ names_itself serena_example /\
  CommandLineMatchesTaskArgv
    (TokenizeWindowsCommandLine (makeCmdLine (exe_example :: sd_Args serena_example))) serena_example = true.
Proof.
  split; [done|]. assert (names_itself serena_example) as Hn by (split; [done|by eexists]). split; [done|].
  by apply (command_line_round_trip exe_example serena_example).
Defined.
