(* ===== verification/Classifier.v ===== *)
(** * Classifier: whose child holds the port.

    [ClassifyPortOwner] of [daemonrecovery/classifier.go] and what surrounds
    it: the only authority for killing a process that is not tracked. *)
From S2P Require Import Prelude GoTime Intent Descriptor StateFile Tracker Termination CommandLine.
Open Scope Z_scope.

Inductive Verdict := VerdictOwnTask | VerdictForeign | VerdictUnverified.
#[global] Instance Verdict_eq_dec : EqDecision Verdict.
Proof. solve_decision. Defined.

(** [process.ProcessIdentity] *)
Record ProcessIdentity := mkIdentity {
  pi_PID : Z; pi_Basename : string; pi_CommandLine : string; pi_ExecutablePath : string; pi_CreationDateUnix : Z;
}.
Definition zero_identity : ProcessIdentity := mkIdentity 0 "" "" "" 0.

Record RuntimeEntry := mkRuntimeEntry { re_CurrentPID : Z; re_OrphanPID : Z }.

(** What the executable lookup asks the operating system: [os.Executable],
    [exec.LookPath], [filepath.Abs], [filepath.EvalSymlinks] ([None] is an
    error), [filepath.Clean] and [filepath.Base]. *)
Record exe_lookup := mkExeLookup {
  xl_executable : string;
  xl_lookPath : string -> option string;
  xl_abs : string -> option string;
  xl_evalSymlinks : string -> option string;
  xl_clean : string -> string;
  xl_base : string -> string;
}.

(** [process.HeldPIDGeneration]: its PID and how it verifies a proof. *)
Record ClassifierDependencies := mkDeps {
  cd_LookupIdentity : option (Z -> res ProcessIdentity);
  cd_ExecutableMatches : option (Z -> string -> bool);
  cd_Generation : option (Z * (PIDIdentityProof -> option error));
}.

(** [StartedAt]: [time.Unix(sec, 0).UTC().Format(time.RFC3339Nano)] *)
Definition StartedAt (id : ProcessIdentity) : string :=
  if pi_CreationDateUnix id <=? 0 then "" else FormatRFC3339Nano (pi_CreationDateUnix id * Second).

Definition KillProof (id : ProcessIdentity) : PIDIdentityProof :=
  let startedAt := StartedAt id in
  mkProof (pi_PID id) (pi_ExecutablePath id) (pi_CommandLine id) startedAt
    (if (0 <? pi_PID id) && negb (startedAt =s "") then Second else 0).

Definition expectedIdentityExecutable (x : exe_lookup) (command : string) : string :=
  let exe :=
    if command =s "" then xl_executable x
    else if xl_base x command =s command then default (xl_executable x) (xl_lookPath x command)
    else command in
  if exe =s "" then ""
  else
    let exe := default exe (xl_abs x exe) in
    let exe := default exe (xl_evalSymlinks x exe) in
    xl_clean x exe.

(** Whether another task is tracked with this process, live or orphaned. *)
Definition tracked_sibling (canon : string) (ownerPID : Z) (tracked : gmap string RuntimeEntry) : bool :=
  existsb (fun kv => negb (canonicalSupervisorTaskName kv.1 =s canon) &&
                     ((ownerPID =? re_CurrentPID kv.2) ||
                      (negb (re_OrphanPID kv.2 =? 0) && (ownerPID =? re_OrphanPID kv.2))))
    (map_to_list tracked).

(** The handle or image gate: whether the process runs [expectedExe], or the
    verdict that it does not. *)
Definition executable_gate (ownerPID : Z) (expectedExe : string) (id : ProcessIdentity) (deps : ClassifierDependencies)
    : option Verdict :=
  match cd_Generation deps with
  | Some (pid, verify) =>
      let k := KillProof id in
      let proof := mkProof (pp_PID k) expectedExe (pp_CommandLine k) (pp_StartedAt k) (pp_StartTolerance k) in
      if negb (pid =? ownerPID) then Some VerdictUnverified
      else match verify proof with Some _ => Some VerdictUnverified | None => None end
  | None =>
      match cd_ExecutableMatches deps with
      | Some matches => if matches ownerPID expectedExe then None else Some VerdictForeign
      | None => Some VerdictForeign
      end
  end.

Definition ClassifyPortOwner (x : exe_lookup) (d : SupervisorDaemon) (ownerPID selfPID : Z)
    (tracked : gmap string RuntimeEntry) (deps : ClassifierDependencies) : Verdict * ProcessIdentity :=
  let canon := canonicalSupervisorTaskName (sd_TaskName d) in
  if (ownerPID <=? 0) || (negb (selfPID =? 0) && (ownerPID =? selfPID)) then (VerdictUnverified, zero_identity)
  else if match tracked !! canon with Some e => ownerPID =? re_CurrentPID e | None => false end
  then (VerdictUnverified, zero_identity)
  else if tracked_sibling canon ownerPID tracked then (VerdictForeign, zero_identity)
  else
    match cd_LookupIdentity deps with
    | None => (VerdictUnverified, zero_identity)
    | Some lookup =>
        match lookup ownerPID with
        | Err _ => (VerdictUnverified, zero_identity)
        | Ok id =>
            if negb (pi_PID id =? ownerPID) then (VerdictUnverified, zero_identity)
            else
              let expectedExe := expectedIdentityExecutable x (sd_Command d) in
              if expectedExe =s "" then (VerdictForeign, id)
              else
                match executable_gate ownerPID expectedExe id deps with
                | Some v => (v, id)
                | None =>
                    if negb (CommandLineMatchesTaskArgv (TokenizeWindowsCommandLine (pi_CommandLine id)) d)
                    then (VerdictForeign, id) else (VerdictOwnTask, id)
                end
        end
    end.

(** ** Bounded audit fields *)
Definition eventFieldCap : nat := 2048.
(** [utf8.RuneStart]: not a continuation byte. *)
Definition RuneStart (a : ascii) : bool := negb (Nat.leb 128 (nat_of_ascii a) && Nat.ltb (nat_of_ascii a) 192).
Fixpoint rune_cut (value : string) (cut : nat) : nat :=
  match cut with
  | O => O
  | S n => match String.get cut value with
           | Some a => if RuneStart a then cut else rune_cut value n
           | None => cut
           end
  end.
(** the bytes of "…[truncated]" *)
Definition truncated_mark : string := String "226" (String "128" (String "166" "[truncated]")).
Definition BoundEventField (value : string) : string :=
  if Nat.leb (String.length value) eventFieldCap then value
  else substring 0 (rune_cut value eventFieldCap) value +:+ truncated_mark.

(** ** Properties *)

(** The process carries this binary, on the handle held or by its image. *)
Definition runs_executable (ownerPID : Z) (exe : string) (id : ProcessIdentity) (deps : ClassifierDependencies) : Prop :=
  match cd_Generation deps with
  | Some (pid, verify) =>
      pid = ownerPID /\
      verify (mkProof ownerPID exe (pi_CommandLine id) (StartedAt id) (pp_StartTolerance (KillProof id))) = None
  | None => exists matches, cd_ExecutableMatches deps = Some matches /\ matches ownerPID exe = true
  end.

(** No task has this process: neither the task itself as its current child,
    nor another as its child or its orphan. *)
Definition untracked (canon : string) (ownerPID : Z) (tracked : gmap string RuntimeEntry) : Prop :=
  (forall e, tracked !! canon = Some e -> re_CurrentPID e <> ownerPID) /\
  (forall k e, tracked !! k = Some e -> canonicalSupervisorTaskName k <> canon ->
     re_CurrentPID e <> ownerPID /\ (re_OrphanPID e = 0 \/ re_OrphanPID e <> ownerPID)).

Lemma tracked_sibling_false canon ownerPID tracked :
  tracked_sibling canon ownerPID tracked = false <->
  forall k e, tracked !! k = Some e -> canonicalSupervisorTaskName k <> canon ->
    re_CurrentPID e <> ownerPID /\ (re_OrphanPID e = 0 \/ re_OrphanPID e <> ownerPID).
Proof.
  unfold tracked_sibling. rewrite <- not_true_iff_false, existsb_exists. split.
  - intros H k e Hk Hc. rewrite <- elem_of_map_to_list, list_elem_of_In in Hk.
    assert (~ (re_CurrentPID e = ownerPID \/ (re_OrphanPID e <> 0 /\ re_OrphanPID e = ownerPID))) as Hn; [|lia].
    intros Hd. apply H. exists (k, e). split; [done|]. breflect. cbn. split; [done|]. lia.
  - intros H ([k e]&Hk%list_elem_of_In%elem_of_map_to_list&Hb). breflect. destruct Hb as [Hc Hd].
    destruct (H k e Hk Hc). cbn in *. lia.
Qed.

Lemma executable_gate_spec ownerPID exe id deps :
  pi_PID id = ownerPID -> executable_gate ownerPID exe id deps = None <-> runs_executable ownerPID exe id deps.
Proof.
  intros <-. unfold executable_gate, runs_executable. destruct (cd_Generation deps) as [[pid verify]|].
  - cbn zeta. change (pp_PID (KillProof id)) with (pi_PID id). change (pp_CommandLine (KillProof id)) with (pi_CommandLine id).
    change (pp_StartedAt (KillProof id)) with (StartedAt id).
    destruct (Z.eqb_spec pid (pi_PID id)); cbn; [|naive_solver]. case_match; naive_solver.
  - destruct (cd_ExecutableMatches deps) as [f|]; [|split; [done|by intros (?&?&?)]].
    destruct (f (pi_PID id) exe) eqn:Hf; split; try done; [by exists f|]. by intros (?&[= <-]&?%eq_true_false_abs).
Qed.

(** All the gates that a process must pass. *)
Record own_child (x : exe_lookup) (d : SupervisorDaemon) (ownerPID selfPID : Z)
    (tracked : gmap string RuntimeEntry) (deps : ClassifierDependencies) (id : ProcessIdentity) : Prop := mkOwn {
  own_positive : 0 < ownerPID;
  own_not_self : selfPID = 0 \/ ownerPID <> selfPID;
  own_untracked : untracked (canonicalSupervisorTaskName (sd_TaskName d)) ownerPID tracked;
  own_identity : exists lookup, cd_LookupIdentity deps = Some lookup /\ lookup ownerPID = Ok id;
  own_pid : pi_PID id = ownerPID;
  own_exe_known : expectedIdentityExecutable x (sd_Command d) <> "";
  own_exe : runs_executable ownerPID (expectedIdentityExecutable x (sd_Command d)) id deps;
  own_argv : CommandLineMatchesTaskArgv (TokenizeWindowsCommandLine (pi_CommandLine id)) d = true;
}.

Lemma ClassifyPortOwner_own x d ownerPID selfPID tracked deps id :
  ClassifyPortOwner x d ownerPID selfPID tracked deps = (VerdictOwnTask, id) <->
  own_child x d ownerPID selfPID tracked deps id.
Proof.
  unfold ClassifyPortOwner. set (canon := canonicalSupervisorTaskName (sd_TaskName d)). split.
  - destruct (_ || _) eqn:H1; [done|]. destruct (match tracked !! canon with Some _ => _ | None => _ end) eqn:H2; [done|].
    destruct (tracked_sibling _ _ _) eqn:H3; [done|]. rewrite tracked_sibling_false in H3.
    destruct (cd_LookupIdentity deps) as [lookup|] eqn:Hl; [|done]. destruct (lookup ownerPID) as [i|] eqn:Hi; [|done].
    destruct (negb (pi_PID i =? ownerPID)) eqn:H4; [done|]. breflect. destruct (_ =s "") eqn:H5; [done|].
    destruct (executable_gate _ _ _ _) eqn:H6.
    { intros [= -> _]. exfalso. clear -H6. unfold executable_gate in H6.
      destruct (cd_Generation deps) as [[? ?]|]; [|destruct (cd_ExecutableMatches deps)]; repeat case_match; done. }
    rewrite executable_gate_spec in H6 by done. destruct (negb (CommandLineMatchesTaskArgv _ _)) eqn:H7; [done|].
    intros [= ->]. breflect. split; try done; [lia|lia| |by eexists]. split; [|done].
    intros e He. fold canon in He. rewrite He in H2. by apply Z.eqb_neq, not_eq_sym in H2.
  - intros [Hp Hs [Ht Hsib] (lookup&Hl&Hi) Hpid He Hx Ha].
    replace (_ || _) with false by (symmetry; breflect; split; [lia|]; destruct (Z.eqb_spec selfPID 0); cbn; [by left|right; lia]).
    replace (match tracked !! canon with Some e => ownerPID =? re_CurrentPID e | None => false end) with false
      by (destruct (tracked !! canon) as [e|] eqn:E; [symmetry; apply Z.eqb_neq, not_eq_sym; by apply (Ht e)|done]).
    rewrite (proj2 (tracked_sibling_false canon ownerPID tracked) Hsib), Hl, Hi, Hpid, Z.eqb_refl. cbn [negb].
    rewrite (proj2 (str_eqb_false _ _) He), (proj2 (executable_gate_spec _ _ _ _ Hpid) Hx). by rewrite Ha.
Qed.

(** C9: what may be killed.  Outside the supervisor's own children a process
    is condemned exactly if it is a live process other than the supervisor,
    no task has it as its child or its orphan, its identity was just read,
    it runs the daemon's binary, and its command line names this very
    daemon; hence never for two daemons that name different tasks. *)
Theorem own_task_exactly x d ownerPID selfPID tracked deps id :
  (ClassifyPortOwner x d ownerPID selfPID tracked deps = (VerdictOwnTask, id) <->
   own_child x d ownerPID selfPID tracked deps id) /\
  (own_child x d ownerPID selfPID tracked deps id ->
   forall d' tracked' deps', own_child x d' ownerPID selfPID tracked' deps' id -> argv_identity d' = argv_identity d).
Proof.
  split; [apply ClassifyPortOwner_own|]. intros H d' tracked' deps' H'.
  eapply argv_discriminates; [apply (own_argv _ _ _ _ _ _ _ H')|apply (own_argv _ _ _ _ _ _ _ H)].
Qed.

(** The audit fields taken from a foreign process are bounded. *)
Lemma rune_cut_le value n : (rune_cut value n <= n)%nat.
Proof. induction n as [|n IH]; [done|]. cbn. case_match; [case_match|]; lia. Qed.
Lemma substring_length n s : (String.length (substring 0 n s) <= n)%nat.
Proof. revert s. induction n as [|n IH]; intros [|a s]; cbn; [lia..|]. specialize (IH s). lia. Qed.
Lemma BoundEventField_bounded value : (String.length (BoundEventField value) <= eventFieldCap + 14)%nat.
Proof.
  unfold BoundEventField. destruct (Nat.leb_spec (String.length value) eventFieldCap); [lia|].
  rewrite str_length_app. pose proof (substring_length (rune_cut value eventFieldCap) value).
  pose proof (rune_cut_le value eventFieldCap). change (String.length truncated_mark) with 14%nat. lia.
Qed.

(** ** A lost child on its own port *)
Definition own_identity_example : ProcessIdentity :=
  mkIdentity 4711 "mcphub.exe" (makeCmdLine (exe_example :: sd_Args serena_example)) exe_example 1751890000.
Definition exe_lookup_example : exe_lookup :=
  mkExeLookup exe_example (fun _ => Some exe_example) Some Some (fun p => p) (fun p => p).
Definition deps_example : ClassifierDependencies :=
  mkDeps (Some (fun _ => Ok own_identity_example)) (Some (fun pid exe => (pid =? 4711) && (exe =s exe_example))) None.
Definition tracked_example : gmap string RuntimeEntry :=
  {[ canonicalSupervisorTaskName "serena b1" := mkRuntimeEntry 4800 0; bs "memory" := mkRuntimeEntry 4712 0 ]}.

Example lost_child_condemned :
  ClassifyPortOwner exe_lookup_example serena_example 4711 100 tracked_example deps_example =
    (VerdictOwnTask, own_identity_example).
Proof. by vm_compute. Qed.
Example current_child_spared :
  (ClassifyPortOwner exe_lookup_example serena_example 4800 100 tracked_example deps_example).1 = VerdictUnverified.
Proof. by vm_compute. Qed.
Example sibling_spared :
  (ClassifyPortOwner exe_lookup_example serena_example 4712 100 tracked_example deps_example).1 = VerdictForeign.
Proof. by vm_compute. Qed.

Lemma own_task_exactly_witness :
  own_child exe_lookup_example serena_example 4711 100 tracked_example deps_example own_identity_example /\
  argv_identity serena_example = argv_identity serena_example.
Proof.
  assert (own_child exe_lookup_example serena_example 4711 100 tracked_example deps_example own_identity_example) as H.
  { apply own_task_exactly. by vm_compute. }
  split; [done|].
  by apply (proj2 (own_task_exactly exe_lookup_example serena_example 4711 100 tracked_example deps_example
    own_identity_example) H serena_example tracked_example deps_example).
Defined.
