(* ===== verification/Controller.v ===== *)
(** * The supervisor controller: its state ([cli/supervisor_controller.go])

    One goroutine, the event loop, owns the restart policy of every daemon.
    This file has the controller's state, the events it handles, the
    callbacks it is constructed with, and the primitive steps the handlers
    are built from.

    A handler is a function of the controller.  What it does to the outside
    (audit events, calls of the spawn and terminate callbacks, timers armed,
    replies sent) is appended to [c_effects]; what the outside answers is in
    [env], which also fixes the clock for the handling of one event. *)
From S2P Require Import Prelude GoTime StateMachine Intent Descriptor StateFile Readiness Tracker Lifecycle.
From S2P Require Import StopSettlement Backoff Termination.
Open Scope Z_scope.

(** ** Events *)
Record StopBatchCommandV1 := mkStopCommand {
  sc_batch : stop_batch; sc_IntentGeneration : Z;
  sc_SupervisorIntent : option SupervisorIntentFile; sc_UnifiedStops : option (gmap string DaemonIntent);
}.

Inductive LoopKind :=
| Ev (e : SMEvent)
| evOwnedChildWaitExit | evForeignTerminationExit
| evReapScan | evReapFollowup | evControllerBarrier | evStopBatch | evStopSettlementRecovery
| evParoleTick | evReallocApplied | evPreSpawnRealloc.

Inductive reallocOutcome := reallocOutcomeFailed | reallocOutcomeReallocated | reallocOutcomePoolExhausted.

(** The typed entries of the [map[string]any] body; a missing entry is the
    zero value the source's failed type assertion yields. *)
Record event_body := mkBody {
  b_pid : option Z; b_pid_generation : option Z; b_started_at : option string;
  b_exit_code : option Z; b_clean_exit : bool;
  b_reason : string; b_runtime_cleared : bool; b_require_running_intent : bool;
  b_idle_respawn_result : bool;
  b_terminate_descriptor : option SupervisorDaemon;
  b_reap_previous : option (gset string); b_reap_intent : option SupervisorIntentFile;
  b_reap_stops : option (gmap string DaemonIntent); b_done : bool;
  b_followup_generation : Z;
  b_stop_batch : option StopBatchCommandV1;
  b_realloc_outcome : reallocOutcome; b_realloc_new_port : Z; b_realloc_old_port : Z;
  b_realloc_attempt : Z; b_realloc_intent : option SupervisorIntentFile;
}.
Definition no_body : event_body :=
  mkBody None None None None false "" false false false None None None None false 0 None
    reallocOutcomeFailed 0 0 0 None.
Definition body_eta (r : event_body) : event_body :=
  mkBody (b_pid r) (b_pid_generation r) (b_started_at r) (b_exit_code r) (b_clean_exit r) (b_reason r)
    (b_runtime_cleared r) (b_require_running_intent r) (b_idle_respawn_result r) (b_terminate_descriptor r)
    (b_reap_previous r) (b_reap_intent r) (b_reap_stops r) (b_done r) (b_followup_generation r) (b_stop_batch r)
    (b_realloc_outcome r) (b_realloc_new_port r) (b_realloc_old_port r) (b_realloc_attempt r) (b_realloc_intent r).
#[global] Instance set_b_pid : Setter b_pid := ltac:(derive_setter body_eta b_pid).
#[global] Instance set_b_pid_generation : Setter b_pid_generation := ltac:(derive_setter body_eta b_pid_generation).
#[global] Instance set_b_started_at : Setter b_started_at := ltac:(derive_setter body_eta b_started_at).
#[global] Instance set_b_exit_code : Setter b_exit_code := ltac:(derive_setter body_eta b_exit_code).
#[global] Instance set_b_clean_exit : Setter b_clean_exit := ltac:(derive_setter body_eta b_clean_exit).
#[global] Instance set_b_require : Setter b_require_running_intent :=
  ltac:(derive_setter body_eta b_require_running_intent).
#[global] Instance set_b_stop_batch : Setter b_stop_batch := ltac:(derive_setter body_eta b_stop_batch).

Record LoopEvent := mkEvent { ev_Kind : LoopKind; ev_TaskName : string; ev_Body : event_body }.
Definition event (k : LoopKind) (task : string) : LoopEvent := mkEvent k task no_body.

(** ** Entries of the controller's maps *)
Record paroleEntry := mkParole { pa_attempts : Z; pa_nextAttemptAt : time; pa_healthySince : time }.
Record spawnHoldMarker := mkHoldMarker {
  hm_reasonID : string; hm_path : string; hm_firstAt : time; hm_lastEmit : time; hm_suppdRows : Z;
}.

(** ** Effects *)
Inductive effect :=
| Audit (severity event taskName : string)
| CallSpawn (d : SupervisorDaemon)
| CallTerm (d : SupervisorDaemon) (expected : terminationExpectedTuple)
| ArmTimer (taskName armKey : string) (gen : Z) (delay : duration)
| ArmReapTimer (taskName : string) (generation : Z) (delay : duration)
| ArmRecovery (taskName : string)
| SettleTarget (target : StopBatchTargetV1)
| ReplyIdleRespawn (err : option error)
| ReplyStopBatch (err : option error) (applicationErrors : list (string * string))
| CloseDone.

Record controller := mkController {
  (** [IntentCache]: the snapshot and its index by task name *)
  c_intent : option SupervisorIntentFile;
  c_daemonByTask : gmap string SupervisorDaemon;
  (** [daemonIntentCache] *)
  c_stops : gmap string DaemonIntent;
  c_tracker : DaemonRuntimeTracker;
  c_disk : option SupervisorStateFile;
  (** the fates of the coming writes of the state file; [io_ok] after that *)
  c_ios : list io;
  c_smStates : gmap string SMState;
  c_queuedActions : gmap string string;
  c_ownSpawned : gset string;
  c_reaperOutstanding : gset string;
  c_gateCleared : gset string;
  c_armEpoch : Z;
  c_armGen : gmap string Z;
  c_parole : gmap string paroleEntry;
  c_pendingReap : gmap string SupervisorDaemon;
  c_reapShadow : gmap string SupervisorDaemon;
  c_reapArmed : gmap string Z;
  c_reapTimers : gset string;
  c_reapGeneration : gmap string Z;
  c_reapDeferredTimer : gset string;
  c_reapDeferredStop : gset string;
  (** the port-gate and reallocation channels and their in-flight sets *)
  c_portGateCh : list (SupervisorDaemon * Z);
  c_portGateInFlight : gset string;
  c_reallocCh : list (SupervisorDaemon * Z);
  c_reallocInFlight : gset string;
  c_reallocDwell : gmap string time;
  c_reallocFailCount : gmap string Z;
  c_bindTerminal : gset string;
  c_spawnHolds : gmap string spawnHoldMarker;
  c_recoveryArmed : gset string;
  (** the event loop's self channel *)
  c_self : list LoopEvent;
  c_effects : list effect;
}.
Definition ctrl_eta (r : controller) : controller :=
  mkController (c_intent r) (c_daemonByTask r) (c_stops r) (c_tracker r) (c_disk r) (c_ios r) (c_smStates r)
    (c_queuedActions r) (c_ownSpawned r) (c_reaperOutstanding r) (c_gateCleared r) (c_armEpoch r) (c_armGen r)
    (c_parole r) (c_pendingReap r) (c_reapShadow r) (c_reapArmed r) (c_reapTimers r) (c_reapGeneration r)
    (c_reapDeferredTimer r) (c_reapDeferredStop r) (c_portGateCh r) (c_portGateInFlight r) (c_reallocCh r)
    (c_reallocInFlight r) (c_reallocDwell r) (c_reallocFailCount r) (c_bindTerminal r) (c_spawnHolds r)
    (c_recoveryArmed r) (c_self r) (c_effects r).
#[global] Instance set_c_intent : Setter c_intent := ltac:(derive_setter ctrl_eta c_intent).
#[global] Instance set_c_daemonByTask : Setter c_daemonByTask := ltac:(derive_setter ctrl_eta c_daemonByTask).
#[global] Instance set_c_stops : Setter c_stops := ltac:(derive_setter ctrl_eta c_stops).
#[global] Instance set_c_tracker : Setter c_tracker := ltac:(derive_setter ctrl_eta c_tracker).
#[global] Instance set_c_disk : Setter c_disk := ltac:(derive_setter ctrl_eta c_disk).
#[global] Instance set_c_ios : Setter c_ios := ltac:(derive_setter ctrl_eta c_ios).
#[global] Instance set_c_smStates : Setter c_smStates := ltac:(derive_setter ctrl_eta c_smStates).
#[global] Instance set_c_queuedActions : Setter c_queuedActions := ltac:(derive_setter ctrl_eta c_queuedActions).
#[global] Instance set_c_ownSpawned : Setter c_ownSpawned := ltac:(derive_setter ctrl_eta c_ownSpawned).
#[global] Instance set_c_reaperOutstanding : Setter c_reaperOutstanding := ltac:(derive_setter ctrl_eta c_reaperOutstanding).
#[global] Instance set_c_gateCleared : Setter c_gateCleared := ltac:(derive_setter ctrl_eta c_gateCleared).
#[global] Instance set_c_armEpoch : Setter c_armEpoch := ltac:(derive_setter ctrl_eta c_armEpoch).
#[global] Instance set_c_armGen : Setter c_armGen := ltac:(derive_setter ctrl_eta c_armGen).
#[global] Instance set_c_parole : Setter c_parole := ltac:(derive_setter ctrl_eta c_parole).
#[global] Instance set_c_pendingReap : Setter c_pendingReap := ltac:(derive_setter ctrl_eta c_pendingReap).
#[global] Instance set_c_reapShadow : Setter c_reapShadow := ltac:(derive_setter ctrl_eta c_reapShadow).
#[global] Instance set_c_reapArmed : Setter c_reapArmed := ltac:(derive_setter ctrl_eta c_reapArmed).
#[global] Instance set_c_reapTimers : Setter c_reapTimers := ltac:(derive_setter ctrl_eta c_reapTimers).
#[global] Instance set_c_reapGeneration : Setter c_reapGeneration := ltac:(derive_setter ctrl_eta c_reapGeneration).
#[global] Instance set_c_reapDeferredTimer : Setter c_reapDeferredTimer := ltac:(derive_setter ctrl_eta c_reapDeferredTimer).
#[global] Instance set_c_reapDeferredStop : Setter c_reapDeferredStop := ltac:(derive_setter ctrl_eta c_reapDeferredStop).
#[global] Instance set_c_portGateCh : Setter c_portGateCh := ltac:(derive_setter ctrl_eta c_portGateCh).
#[global] Instance set_c_portGateInFlight : Setter c_portGateInFlight := ltac:(derive_setter ctrl_eta c_portGateInFlight).
#[global] Instance set_c_reallocCh : Setter c_reallocCh := ltac:(derive_setter ctrl_eta c_reallocCh).
#[global] Instance set_c_reallocInFlight : Setter c_reallocInFlight := ltac:(derive_setter ctrl_eta c_reallocInFlight).
#[global] Instance set_c_reallocDwell : Setter c_reallocDwell := ltac:(derive_setter ctrl_eta c_reallocDwell).
#[global] Instance set_c_reallocFailCount : Setter c_reallocFailCount := ltac:(derive_setter ctrl_eta c_reallocFailCount).
#[global] Instance set_c_bindTerminal : Setter c_bindTerminal := ltac:(derive_setter ctrl_eta c_bindTerminal).
#[global] Instance set_c_spawnHolds : Setter c_spawnHolds := ltac:(derive_setter ctrl_eta c_spawnHolds).
#[global] Instance set_c_recoveryArmed : Setter c_recoveryArmed := ltac:(derive_setter ctrl_eta c_recoveryArmed).
#[global] Instance set_c_self : Setter c_self := ltac:(derive_setter ctrl_eta c_self).
#[global] Instance set_c_effects : Setter c_effects := ltac:(derive_setter ctrl_eta c_effects).

(** ** The outside *)

(** The spawn callback performs tracker operations of its own, may persist
    them, and returns an error or not. *)
Record spawn_result := mkSpawnResult { sp_ops : list tracker_op; sp_persist : bool; sp_err : option error }.

(** The terminate callbacks: [terminateOutcome], or the older [terminate]. *)
Inductive terminator :=
| TermNone
| TermLegacy (f : SupervisorDaemon -> list tracker_op * bool * option error)
| TermTyped (f : SupervisorDaemon -> terminationExpectedTuple -> list tracker_op * bool * terminationOutcome).

Inductive stat_result := StatOk | StatNotExist | StatOther.

Record env := mkEnv {
  e_statePath : string;
  e_failureWindow : duration;
  e_quarantineThreshold : Z;
  e_selfCapacity : nat;
  e_reapFollowupDelay : duration;
  (** the instant of this event; every [time.Now()] of its handling *)
  e_now : time;
  e_graceful : bool;
  (** the random fraction (over 2^53) of the arm with the given epoch *)
  e_jitter : Z -> Z;
  e_resolve : manifestPortDeadlineResolveFn;
  (** [portOwnerFn] and [portGateCh], wired together or not at all *)
  e_portOwner : option (Z -> res (option Z));
  (** [reallocCh] is wired *)
  e_reallocWired : bool;
  e_stat : string -> stat_result;
  e_isAbs : string -> bool;
  e_volumeRoot : string -> string;
  e_spawn : option (SupervisorDaemon -> spawn_result);
  e_terminate : terminator;
  (** [reapIntentReader] *)
  e_freshIntent : option (res (option SupervisorIntentFile));
  (** what other goroutines do to the tracker while a settlement writes *)
  e_interleave : list tracker_op;
}.

(** [retry later] sentinels of the spawn path *)
Definition errSpawnPreChild : error := sentinel "errSpawnPreChild" "supervise: spawn failed before child created".
Definition errSpawnJobProtectionRefused : error :=
  sentinel "errSpawnJobProtectionRefused" "supervise: per-spawn Job Object allocation failed".
Definition errSpawnHeldPortSquatter : error := sentinel "errSpawnHeldPortSquatter" "spawn deferred: intended port held".
Definition errSpawnHeldMissingPath : error :=
  sentinel "errSpawnHeldMissingPath" "spawn deferred: a path this daemon requires is absent".
Definition errIdleRespawnRefusedIntentStopped : error :=
  sentinel "errIdleRespawnRefusedIntentStopped" "idle respawn refused: daemon-intent says Desired=stopped".

Definition squatterForeignHoldDelay : duration := 30 * Second.
Definition portGateChCapacity : nat := 64.
Definition missingPathHoldDelay : duration := 30 * Second.
Definition missingPathEscalateAfter : duration := 2 * Minute.
Definition reallocationCap : Z := 3.
Definition reallocationStabilizeDwell : duration := 60 * Second.
Definition reallocChCapacity : nat := 64.
Definition reallocFailedEscalationBound : Z := 3.
Definition reapFollowupDefaultDelay : duration := 5 * Second.
Definition exitBindRefused : Z := 3.

(** ** Primitive steps *)
Definition emit (severity ev task : string) (c : controller) : controller :=
  c <| c_effects ::= fun l => l ++ [Audit severity ev task] |>.
Definition perform (e : effect) (c : controller) : controller := c <| c_effects ::= fun l => l ++ [e] |>.

Definition setSM (task : string) (s : SMState) (c : controller) : controller := c <| c_smStates ::= insert task s |>.
Definition setQueued (task a : string) (c : controller) : controller := c <| c_queuedActions ::= insert task a |>.
Definition mark (op : tracker_op) (c : controller) : controller := c <| c_tracker ::= apply_op op |>.
Definition marks (ops : list tracker_op) (c : controller) : controller := c <| c_tracker ::= apply_ops ops |>.

Definition next_io (c : controller) : io * controller :=
  match c_ios c with [] => (io_ok, c) | i :: rest => (i, c <| c_ios := rest |>) end.

(** [smStates.Load] with its default, as the handlers write it *)
Definition loadSM (c : controller) (task : string) : SMState := default StIdle (c_smStates c !! task).
Definition loadQueued (c : controller) (task : string) : string := default "" (c_queuedActions c !! task).

Definition GetSMState (c : controller) (task : string) : option SMState := c_smStates c !! task.
Definition getSMStateCanonical (c : controller) (task : string) : option SMState :=
  match GetSMState c task with
  | Some s => Some s
  | None =>
      let alt := toggleSupervisorTaskNameBackslash task in
      if alt =s task then None else GetSMState c alt
  end.
Definition smStateIs (c : controller) (task : string) (want : SMState) : bool :=
  bool_decide (getSMStateCanonical c (canonicalSupervisorTaskName task) = Some want).
Definition loadReapMarkerCanonical (m : gset string) (task : string) : bool :=
  bool_decide (task ∈ m) || bool_decide (toggleSupervisorTaskNameBackslash task ∈ m).

(** ** The intent caches *)
Definition index_daemons (ds : list SupervisorDaemon) : gmap string SupervisorDaemon :=
  foldl (fun m d => <[sd_TaskName d := d]> m) ∅ ds.
Definition IntentCache_Refresh (intent : option SupervisorIntentFile) (c : controller) : controller :=
  c <| c_intent := intent |>
    <| c_daemonByTask := match intent with Some f => index_daemons (si_Daemons f) | None => ∅ end |>.
Definition LookupCanonical (c : controller) (task : string) : option SupervisorDaemon :=
  match c_daemonByTask c !! task with
  | Some d => Some d
  | None =>
      let alt := if has_prefix (bs "") task then trim_prefix (bs "") task else bs task in
      c_daemonByTask c !! alt
  end.
Definition TaskNames (c : controller) : gset string :=
  list_to_set (map canonicalSupervisorTaskName (map_keys (c_daemonByTask c))).
Definition zero_intent : DaemonIntent := mkDaemonIntent "" "" zero_time.
Definition daemonIntent_Lookup (c : controller) (task : string) : DaemonIntent :=
  default zero_intent (c_stops c !! task).
Definition daemonIntent_Refresh (tasks : gmap string DaemonIntent) (c : controller) : controller :=
  c <| c_stops := tasks |>.

Definition lookupDescriptorWithShadow (c : controller) (task : string) : option SupervisorDaemon :=
  match LookupCanonical c task with
  | Some d => Some d
  | None => head (omap (fun key => c_reapShadow c !! key) (distinctTaskNameKeyForms task))
  end.

(** What the operator wants of a task now: the desired state with its
    default, and whether a stop is active. *)
Definition intent_now (E : env) (c : controller) (task : string) : string * bool :=
  let di := daemonIntent_Lookup c task in
  (if di_Desired di =s "" then IntentDesiredRunning else di_Desired di, (IsActiveStop di (e_now E)).1).

Section Controller.
Context `{Digest} (E : env).

Definition PostSelf (ev : LoopEvent) (c : controller) : controller * bool :=
  if Nat.ltb (length (c_self c)) (e_selfCapacity E) then (c <| c_self ::= fun q => q ++ [ev] |>, true) else (c, false).

Definition emitSelfChannelSaturated (task : string) (c : controller) : controller :=
  emit "error" "supervisor-self-channel-saturated" task c.

Definition persistDaemonRuntimeTracker (task : string) (c : controller) : controller * option error :=
  if e_statePath E =s "" then (c, None)
  else
    let '(i, c) := next_io c in
    let '(r, disk) := PersistTo (c_tracker c) (e_statePath E) i (c_disk c) in
    let c := c <| c_disk := disk |> in
    match r with
    | Ok _ => (c, None)
    | Err e => (emit "error" "daemon-runtime-state-persist-failed" (canonicalSupervisorTaskName task) c, Some e)
    end.
Definition persist (task : string) (c : controller) : controller := (persistDaemonRuntimeTracker task c).1.

(** [completeIdleRespawnEvent] *)
Definition completeIdleRespawnEvent (ev : LoopEvent) (err : option error) (c : controller) : controller :=
  if b_idle_respawn_result (ev_Body ev) then perform (ReplyIdleRespawn err) c else c.

(** ** Respawn timers *)
Definition nextRespawnArmGen (key : string) (c : controller) : controller * Z :=
  let gen := u64_add (c_armEpoch c) 1 in
  (c <| c_armEpoch := gen |> <| c_armGen ::= insert key gen |>, gen).

Definition armRespawnBackoffTimer (taskName : string) (backoff : duration) (c : controller) : controller * duration :=
  let armKey := canonicalSupervisorTaskName taskName in
  let '(c, gen) := nextRespawnArmGen armKey c in
  let delay := jitteredRespawnBackoff backoff (e_jitter E gen) in
  (perform (ArmTimer taskName armKey gen delay) c, delay).

(** The armed goroutine when its delay has elapsed: the event it posts, or
    the audit row of a stale or superseded timer. *)
Definition timer_elapsed (taskName armKey : string) (gen : Z) (c : controller) : controller * option LoopEvent :=
  match c_smStates c !! taskName with
  | Some s =>
      if bool_decide (s <> StBackoffWaiting) then (emit "debug" "daemon-respawn-timer-stale" taskName c, None)
      else if bool_decide (c_armGen c !! armKey = Some gen)
      then (emit "debug" "daemon-respawn-fired" taskName c, Some (event (Ev EvTimerDue) taskName))
      else (emit "debug" "daemon-respawn-timer-superseded" taskName c, None)
  | None =>
      if bool_decide (c_armGen c !! armKey = Some gen)
      then (emit "debug" "daemon-respawn-fired" taskName c, Some (event (Ev EvTimerDue) taskName))
      else (emit "debug" "daemon-respawn-timer-superseded" taskName c, None)
  end.

(** ** Parole bookkeeping *)
Definition recordQuarantineParoleEligible (task : string) (c : controller) : controller :=
  let key := canonicalSupervisorTaskName task in
  match c_parole c !! key with
  | Some _ => c
  | None => c <| c_parole ::= insert key (mkParole 0 (e_now E + quarantineParoleDelay 0) zero_time) |>
  end.
Definition clearQuarantineParole (task : string) (c : controller) : controller :=
  c <| c_parole ::= delete (canonicalSupervisorTaskName task) |>.

(** ** Holding a spawn *)
Definition holdSpawnInBackoff (d : SupervisorDaemon) (ev : LoopEvent) (rearm : duration) (why : error) (c : controller)
    : controller * option error :=
  let c := setSM (ev_TaskName ev) StBackoffWaiting c in
  let c := mark (OpMarkBackoff (ev_TaskName ev)) c in
  let c := persist (ev_TaskName ev) c in
  ((armRespawnBackoffTimer (sd_TaskName d) rearm c).1, Some why).
End Controller.
