(* ===== verification/SpawnGate.v ===== *)
(** * What may hold a spawn ([cli/supervise_prespawn_path_gate.go] and
      [cli/supervisor_controller.go], 4270-4545)

    Before a process is created two gates are passed: the paths the daemon
    needs exist, and its port is free.  A closed gate parks the daemon in
    backoff with a timer and does not consume its crash budget. *)
From S2P Require Import Prelude GoTime StateMachine Intent Descriptor StateFile Tracker Lifecycle Backoff Controller.
Open Scope Z_scope.

(** ** The path gate *)
Definition missingBinaryReasonID : string := "missing-binary".
Definition missingWorkspaceReasonID : string := "missing-workspace".
Definition unavailableBinaryReasonID : string := "unavailable-binary".
Definition unavailableWorkspaceReasonID : string := "unavailable-workspace".

Inductive spawnPathVerdict := spawnPathPresent | spawnPathAbsent | spawnPathIndeterminate | spawnPathUnavailable.

(** [strings.ReplaceAll(p, "/", `\`)] *)
Fixpoint slashes_to_backslashes (s : string) : string :=
  match s with
  | EmptyString => EmptyString
  | String a s' => String (if Ascii.eqb a "/" then backslash else a) (slashes_to_backslashes s')
  end.

Definition isNonLocalSpawnPath (p : string) : bool :=
  let q := slashes_to_backslashes p in
  let unc := bs (bs "") in
  if has_prefix (unc +:+ "?" +:+ bs ("UNC" +:+ bs "")) q || has_prefix (unc +:+ "." +:+ bs ("UNC" +:+ bs "")) q then true
  else if has_prefix (unc +:+ "?" +:+ bs "") q || has_prefix (unc +:+ "." +:+ bs "") q then false
  else has_prefix unc q.

(** [classifySpawnPath] and [spawnPathVolumeRoot]; [e_stat], [e_isAbs] and
    [e_volumeRoot] are the platform's. *)
Definition classifySpawnPath (E : env) (path : string) : spawnPathVerdict :=
  let p := trim_space path in
  if (p =s "") || isNonLocalSpawnPath p || negb (e_isAbs E p) then spawnPathIndeterminate
  else
    match e_stat E p with
    | StatOk => spawnPathPresent
    | StatNotExist =>
        let root := e_volumeRoot E p in
        if negb (root =s "") && match e_stat E root with StatOk => false | _ => true end
        then spawnPathUnavailable
        else spawnPathAbsent
    | StatOther => spawnPathIndeterminate
    end.

(** [spawnHoldEmitDecision]: whether to emit an audit row, its severity,
    how long the hold has lasted and how many rows were suppressed. *)
Definition spawnHoldEmitDecision (E : env) (task reasonID path : string) (c : controller)
    : controller * (bool * string * duration * Z) :=
  let key := canonicalSupervisorTaskName task in
  let now := e_now E in
  match c_spawnHolds c !! key with
  | Some prev =>
      if negb (hm_reasonID prev =s reasonID) || negb (hm_path prev =s path)
      then (c <| c_spawnHolds ::= insert key (mkHoldMarker reasonID path now now 0) |>, (true, "warn", 0, 0))
      else
        let held := time_Sub now (hm_firstAt prev) in
        if time_Sub now (hm_lastEmit prev) <? missingPathEscalateAfter
        then
          let n := hm_suppdRows prev + 1 in
          (c <| c_spawnHolds ::= insert key (mkHoldMarker reasonID path (hm_firstAt prev) (hm_lastEmit prev) n) |>,
           (false, "", held, n))
        else
          (c <| c_spawnHolds ::= insert key (mkHoldMarker reasonID path (hm_firstAt prev) now 0) |>,
           (true, "error", held, hm_suppdRows prev))
  | None => (c <| c_spawnHolds ::= insert key (mkHoldMarker reasonID path now now 0) |>, (true, "warn", 0, 0))
  end.

Definition with_port (d : SupervisorDaemon) (port : Z) : SupervisorDaemon :=
  mkDaemon (sd_PreparedRuntime d) (sd_TaskName d) (sd_Server d) (sd_Daemon d) (sd_Command d) (sd_Args d)
    (sd_WorkingDir d) (sd_Env d) (sd_Workspace d) port (sd_ManifestHash d) (sd_StartupBindDeadlineSeconds d)
    (sd_RuntimeSpec d).

Section Gates.
Context `{Digest} (E : env).

Definition recordSpawnHold (d : SupervisorDaemon) (reasonID path : string) (c : controller) : controller :=
  let c := mark (OpMarkSpawnHold (sd_TaskName d) reasonID path) c in
  let '(c, (row, severity, _, _)) := spawnHoldEmitDecision E (sd_TaskName d) reasonID path c in
  if row then emit severity "daemon-spawn-held-missing-path" (sd_TaskName d) c else c.

Definition clearSpawnHold (task : string) (c : controller) : controller :=
  let c := c <| c_spawnHolds ::= delete (canonicalSupervisorTaskName task) |> in
  let '(t, cleared) := ClearSpawnHold (c_tracker c) task in
  let c := c <| c_tracker := t |> in
  if cleared then persist E task c else c.

(** [preSpawnMissingPathHold]: the first probe that fails holds. *)
Definition preSpawnMissingPathHold (d : SupervisorDaemon) (ev : LoopEvent) (c : controller)
    : controller * option error :=
  let hold (reasonID path : string) :=
    holdSpawnInBackoff E d ev missingPathHoldDelay errSpawnHeldMissingPath (recordSpawnHold d reasonID path c) in
  match classifySpawnPath E (sd_Command d) with
  | spawnPathAbsent => hold missingBinaryReasonID (sd_Command d)
  | spawnPathUnavailable => hold unavailableBinaryReasonID (sd_Command d)
  | _ =>
      match classifySpawnPath E (sd_Workspace d) with
      | spawnPathAbsent => hold missingWorkspaceReasonID (sd_Workspace d)
      | spawnPathUnavailable => hold unavailableWorkspaceReasonID (sd_Workspace d)
      | _ => (clearSpawnHold (sd_TaskName d) c, None)
      end
  end.

(** ** The port gate *)

(** [tryDispatchPortGate]: at most one request per task is with the worker. *)
Definition tryDispatchPortGate (d : SupervisorDaemon) (ownerPID : Z) (c : controller) : controller :=
  let task := canonicalSupervisorTaskName (sd_TaskName d) in
  if bool_decide (task ∈ c_portGateInFlight c) then c
  else if Nat.ltb (length (c_portGateCh c)) portGateChCapacity
  then c <| c_portGateInFlight ::= union {[task]} |> <| c_portGateCh ::= fun q => q ++ [(d, ownerPID)] |>
  else emit "warn" "port-gate-dispatch-dropped" task c.

Definition preSpawnPortGateHold (d : SupervisorDaemon) (ev : LoopEvent) (c : controller) : controller * option error :=
  match e_portOwner E with
  | None => (c, None)
  | Some portOwner =>
      match EffectiveDaemonPort d (e_resolve E) with
      | None => (c, None)
      | Some port =>
          if port <=? 0 then (c, None)
          else
            match portOwner port with
            | Err _ | Ok None => (c, None)
            | Ok (Some ownerPID) =>
                let c := tryDispatchPortGate (with_port d port) ownerPID c in
                holdSpawnInBackoff E d ev squatterForeignHoldDelay errSpawnHeldPortSquatter c
            end
      end
  end.
End Gates.
