(* ===== verification/SideEffect.v ===== *)
(** * Side effects of a transition ([cli/supervisor_controller.go], 3420-4075)

    [executeSideEffect] carries out what [Transition] asked for in the new
    state: create the process, arm the backoff timer or quarantine,
    terminate. *)
From S2P Require Import Prelude GoTime StateMachine Intent Descriptor StateFile Readiness Tracker Lifecycle.
From S2P Require Import StopSettlement Backoff Termination Controller SpawnGate.
Open Scope Z_scope.

Section SideEffect.
Context `{Digest} (E : env).

(** ** Stop receipts *)

(** A settlement step of the controller: it consumes one state-file write
    and lets the other goroutines act in between. *)
Definition advance_receipt (receipt : StopSettlementReceiptV1) (phase failureClass failureDetail : string)
    (c : controller) : controller * res StopSettlementReceiptV1 :=
  let '(i, c) := next_io c in
  let '(t, disk, r) := AdvanceStopSettlement (c_tracker c) (e_statePath E) i (c_disk c) receipt phase failureClass
                         failureDetail (apply_ops (e_interleave E)) in
  (c <| c_tracker := t |> <| c_disk := disk |>, r).

Definition advanceExactStopReceiptExit (expected : terminationExpectedTuple) (c : controller) : controller * bool :=
  if negb (ex_Valid expected) then (c, false)
  else
    match StopSettlementReceipt (c_tracker c) (ex_CanonicalTaskName expected) with
    | None => (c, true)
    | Some receipt =>
        if is_blank (e_statePath E) then (c, false)
        else if negb (terminationTupleMatchesReceipt expected receipt) then (c, false)
        else if sr_Phase receipt =s StopSettlementPhaseExitObserved then (c, true)
        else if sr_Phase receipt =s StopSettlementPhaseStopRequested
        then let '(c, r) := advance_receipt receipt StopSettlementPhaseExitObserved "" "" c in (c, is_ok r)
        else (c, false)
    end.

Definition recordExactStopReceiptExit (ev : LoopEvent) (c : controller) : controller :=
  if is_blank (e_statePath E) then c
  else
    match ev_Kind ev, b_pid (ev_Body ev), b_pid_generation (ev_Body ev), b_started_at (ev_Body ev) with
    | (evOwnedChildWaitExit | evForeignTerminationExit), Some pid, Some generation, Some startedAt =>
        let expected := mkExpected (canonicalSupervisorTaskName (ev_TaskName ev)) pid startedAt generation true in
        let '(c, ok) := advanceExactStopReceiptExit expected c in
        if ok then c else emit "error" "stop-settlement-exit-record-failed" (ev_TaskName ev) c
    | _, _, _, _ => c
    end.

(** ** Backoff or quarantine *)
Definition handleBackoffWaiting (d : SupervisorDaemon) (ev : LoopEvent) (c : controller) : controller :=
  let task := sd_TaskName d in
  let '(t, failures) := RecordCrashAndCountInWindow (c_tracker c) task (e_now E) (e_failureWindow E) in
  let c := c <| c_tracker := t |> in
  if e_quarantineThreshold E <=? failures
  then
    let c := setSM task StQuarantined c in
    let c := recordQuarantineParoleEligible E task c in
    let c := mark (OpMarkQuarantined task) c in
    let c := persist E task c in
    emit "error" "daemon-quarantined" task c
  else
    let c := mark (OpMarkBackoff task) c in
    let c := persist E task c in
    let '(c, _) := armRespawnBackoffTimer E task (computeRespawnBackoff failures) c in
    emit "info" "daemon-respawn-scheduled" task c.

(** ** Creating the process *)

(** [admitCreateProcess] *)
Definition admitCreateProcess (task : string) (c : controller) : option error :=
  match StopSettlementIntegrityError (c_tracker c) with
  | Some e => Some e
  | None =>
      match StopSettlementReceipt (c_tracker c) (canonicalSupervisorTaskName task) with
      | Some _ => Some (errors_New "create-process denied until stop settlement is committed")
      | None => None
      end
  end.

(** The call of the spawn callback and what the loop does with its answer. *)
Definition run_spawn (d : SupervisorDaemon) (ev : LoopEvent) (spawn : SupervisorDaemon -> spawn_result)
    (c : controller) : controller * option error :=
  let c := perform (CallSpawn d) c in
  let r := spawn d in
  let c := marks (sp_ops r) c in
  let c := if sp_persist r then persist E (sd_TaskName d) c else c in
  match sp_err r with
  | None =>
      let c := c <| c_ownSpawned ::= union {[sd_TaskName d]} |> <| c_reaperOutstanding ::= union {[sd_TaskName d]} |> in
      let '(c, posted) := PostSelf E (event (Ev EvHealthOK) (sd_TaskName d)) c in
      (if posted then c else emitSelfChannelSaturated (sd_TaskName d) c, None)
  | Some e =>
      if errors_Is e errSpawnJobProtectionRefused
      then
        let c := setSM (ev_TaskName ev) StQuarantined c in
        let c := clearQuarantineParole (ev_TaskName ev) c in
        (emit "error" "daemon-quarantined" (sd_TaskName d) c, Some e)
      else if errors_Is e errSpawnPreChild
      then
        let '(c, posted) := PostSelf E (event (Ev EvChildExit) (sd_TaskName d)) c in
        (if posted then c else emitSelfChannelSaturated (sd_TaskName d) c, Some e)
      else (c, Some e)
  end.

Definition quarantine_legacy_serena (ev : LoopEvent) (c : controller) : controller * option error :=
  let task := ev_TaskName ev in
  let c := setSM task StQuarantined c in
  let c := clearQuarantineParole task c in
  let c := mark (OpMarkQuarantined task) c in
  let c := persist E task c in
  (emit "warn" "legacy-serena-descriptor-quarantined" task c,
   Some (errors_New "legacy serena-proxy descriptor carries no runtime_spec")).

Definition create_process (d : SupervisorDaemon) (ev : LoopEvent) (c : controller) : controller * option error :=
  match admitCreateProcess (ev_TaskName ev) c with
  | Some e => (c, Some e)
  | None =>
      if IsSerenaProxyDescriptor d && match sd_RuntimeSpec d with None => true | Some _ => false end
      then quarantine_legacy_serena ev c
      else
        match e_spawn E with
        | None => (c, Some (errors_New "spawn function unavailable"))
        | Some spawn =>
            match preSpawnMissingPathHold E d ev c with
            | (c, Some held) => (c, Some held)
            | (c, None) =>
                if bool_decide (ev_TaskName ev ∈ c_gateCleared c)
                then run_spawn d ev spawn (c <| c_gateCleared ::= fun s => s ∖ {[ev_TaskName ev]} |>)
                else
                  match preSpawnPortGateHold E d ev c with
                  | (c, Some held) => (c, Some held)
                  | (c, None) => run_spawn d ev spawn c
                  end
            end
        end
  end.

(** ** Terminating *)
Definition descriptorForTerminateSideEffect (d : SupervisorDaemon) (ev : LoopEvent) : SupervisorDaemon :=
  match ev_Kind ev, b_terminate_descriptor (ev_Body ev) with
  | Ev EvManualRestart, Some old => old
  | _, _ => d
  end.

Definition synthesizeForeignChildExit (d : SupervisorDaemon) (expected : terminationExpectedTuple) (c : controller)
    : controller :=
  let c := emit "info" "daemon-foreign-exit-synthesized" (sd_TaskName d) c in
  let body := no_body <| b_pid := Some (ex_PID expected) |> <| b_pid_generation := Some (ex_PIDGeneration expected) |>
                      <| b_started_at := Some (ex_StartedAt expected) |> in
  let '(c, posted) := PostSelf E (mkEvent evForeignTerminationExit (sd_TaskName d) body) c in
  if posted then c else emitSelfChannelSaturated (sd_TaskName d) c.

(** The call of whichever terminate callback is installed. *)
Definition call_terminate (d : SupervisorDaemon) (expected : terminationExpectedTuple) (c : controller)
    : controller * terminationOutcome :=
  let finish (ops : list tracker_op) (p : bool) (c : controller) :=
    let c := marks ops c in if p then persist E (sd_TaskName d) c else c in
  match e_terminate E with
  | TermTyped f => let '(ops, p, o) := f d expected in (finish ops p (perform (CallTerm d expected) c), o)
  | TermLegacy f =>
      let '(ops, p, err) := f d in
      (finish ops p (perform (CallTerm d expected) c), terminationOutcomeFromLegacy expected err)
  | TermNone => (c, mkTermOutcome TargetAbsent expected (Some (errors_New "terminate callback unavailable")) None)
  end.

Definition terminate_process (d : SupervisorDaemon) (ev : LoopEvent) (c : controller) : controller * option error :=
  let target := descriptorForTerminateSideEffect d ev in
  let expected := terminationExpectedTupleForTask (c_tracker c) (sd_TaskName target) in
  let '(c, outcome) := call_terminate target expected c in
  let owned := loadReapMarkerCanonical (c_ownSpawned c) (sd_TaskName d) in
  let reaperPending := loadReapMarkerCanonical (c_reaperOutstanding c) (sd_TaskName d) in
  let c := if AllowsSynthetic outcome && negb owned && negb reaperPending
           then synthesizeForeignChildExit d (to_Expected outcome) c else c in
  (c, legacyError outcome).

(** ** The dispatch on the new state *)
Definition executeSideEffect (side : string) (newState : SMState) (d : SupervisorDaemon) (ev : LoopEvent)
    (c : controller) : controller * option error :=
  match newState with
  | StSpawning => if str_contains side "create-process" then create_process d ev c else (c, None)
  | StBackoffWaiting => (handleBackoffWaiting d ev c, None)
  | StQuarantined =>
      let c := match ev_Kind ev with
               | Ev EvTimerDue => recordQuarantineParoleEligible E (sd_TaskName d) c
               | _ => c
               end in
      (emit "error" "daemon-quarantined" (sd_TaskName d) c, None)
  | StExiting => terminate_process d ev c
  | StRunning | StIdle => (c, None)
  end.
End SideEffect.
