(* ===== verification/Reap.v ===== *)
(** * Reaping removed daemons ([cli/supervisor_controller.go], 1080-2580)

    When a descriptor disappears from the intent its live daemon is not
    terminated at once: it is marked, kept routable through a shadow, and
    terminated only when a later look at the intent still does not have it.
    [sync.Map.Range] visits the entries present when it starts. *)
From S2P Require Import Prelude GoTime StateMachine Intent Descriptor StateFile Readiness Tracker Lifecycle.
From S2P Require Import StopSettlement Backoff Termination Controller SpawnGate SideEffect.
Open Scope Z_scope.

Definition emitReapEvent (severity ev task : string) (c : controller) : controller := emit severity ev task c.

(** ** The follow-up timer *)
Definition currentReapGeneration (c : controller) (task : string) : Z := default 0 (c_reapGeneration c !! task).
Definition bumpReapGeneration (task : string) (c : controller) : controller :=
  c <| c_reapGeneration ::= insert task (currentReapGeneration c task + 1) |>.
Definition stopReapTimer (task : string) (c : controller) : controller :=
  c <| c_reapTimers ::= fun s => s ∖ {[task]} |>.
Definition disarmReapFollowup (task : string) (c : controller) : controller :=
  let task := canonicalSupervisorTaskName task in
  stopReapTimer task (c <| c_reapArmed ::= delete task |>).

Definition smStateIsReapable (c : controller) (task : string) : bool :=
  match getSMStateCanonical c task with
  | Some (StSpawning | StRunning | StBackoffWaiting | StExiting) => true
  | _ => false
  end.

Definition taskNameSetFromIntent (intent : option SupervisorIntentFile) : gset string :=
  match intent with
  | None => ∅
  | Some f => list_to_set (map (fun d => canonicalSupervisorTaskName (sd_TaskName d)) (si_Daemons f))
  end.

Section Reap.
Context `{Digest} (E : env).

Definition armReapFollowup (task : string) (c : controller) : controller :=
  let task := canonicalSupervisorTaskName task in
  let generation := currentReapGeneration c task in
  let arm (c : controller) :=
    let delay := if e_reapFollowupDelay E <=? 0 then reapFollowupDefaultDelay else e_reapFollowupDelay E in
    let c := perform (ArmReapTimer task generation delay) (c <| c_reapArmed ::= insert task generation |>) in
    c <| c_reapTimers ::= union {[task]} |> in
  match c_reapArmed c !! task with
  | Some g => if g =? generation then c else arm (stopReapTimer task c)
  | None => arm c
  end.

Definition markPendingReap (task : string) (captured : SupervisorDaemon) (c : controller) : controller :=
  let task := canonicalSupervisorTaskName task in
  let c := c <| c_pendingReap ::= insert task captured |> <| c_reapShadow ::= insert task captured |> in
  let c := stopReapTimer task (bumpReapGeneration task c) in
  armReapFollowup task (c <| c_reapArmed ::= delete task |>).

Definition cancelPendingReap (task : string) (c : controller) : controller :=
  let task := canonicalSupervisorTaskName task in
  disarmReapFollowup task (c <| c_pendingReap ::= delete task |> <| c_reapShadow ::= delete task |>).

(** [clearRemovedTaskRuntime]: forget everything about a task, under both
    spellings of its name. *)
Definition clearRemovedTaskRuntime (task : string) (c : controller) : controller :=
  let task := canonicalSupervisorTaskName task in
  let bareKey := toggleSupervisorTaskNameBackslash task in
  let c := c <| c_smStates ::= delete task |> <| c_queuedActions ::= delete task |>
             <| c_gateCleared ::= fun s => s ∖ {[task]} |> in
  let c := c <| c_smStates ::= delete bareKey |> <| c_queuedActions ::= delete bareKey |>
             <| c_gateCleared ::= fun s => s ∖ {[bareKey]} |> in
  let c := c <| c_pendingReap ::= delete task |> <| c_reapShadow ::= delete task |> in
  let c := disarmReapFollowup task c in
  let c := c <| c_armGen ::= delete task |> <| c_reapDeferredTimer ::= fun s => s ∖ {[task]} |>
             <| c_reapDeferredStop ::= fun s => s ∖ {[task]} |>
             <| c_ownSpawned ::= fun s => s ∖ {[task; bareKey]} |> in
  let c := mark (OpRemove task) c in
  let c := if bareKey =s task then c else mark (OpRemove bareKey) c in
  let c := if e_statePath E =s "" then c
           else
             let c := persist E task c in
             if bareKey =s task then c else persist E bareKey c in
  emit "debug" "controller-removed-intent-state-cleared" task c.

(** ** A task that came back *)
Definition queueRespawnOnReapCancelIfNeeded (task : string) (c : controller) : controller :=
  let task := canonicalSupervisorTaskName task in
  match GetSMState c task with
  | Some StExiting =>
      if (IsActiveStop (daemonIntent_Lookup c task) (e_now E)).1 then c
      else emitReapEvent "info" "orphan-reap-cancel-respawn-queued" task (setQueued task "respawn" c)
  | Some StIdle =>
      if (IsActiveStop (daemonIntent_Lookup c task) (e_now E)).1 then c
      else
        let '(c, posted) := PostSelf E (event (Ev EvStart) task) c in
        if posted then emitReapEvent "info" "orphan-reap-cancel-idle-respawn-posted" task c
        else emitSelfChannelSaturated task c
  | _ => c
  end.

Definition replayDeferredBackoffTimerIfPending (task : string) (c : controller) : controller :=
  let task := canonicalSupervisorTaskName task in
  if bool_decide (task ∈ c_reapDeferredTimer c) then
    let c := c <| c_reapDeferredTimer ::= fun s => s ∖ {[task]} |> in
    let '(c, posted) := PostSelf E (event (Ev EvTimerDue) task) c in
    let c := if posted then c else emitSelfChannelSaturated task c in
    emitReapEvent "debug" "orphan-reap-backoff-timer-replayed" task c
  else c.

Definition clear_queued_stop (task key : string) (c : controller) : controller :=
  if bool_decide (c_queuedActions c !! key = Some "stop")
  then emitReapEvent "debug" "orphan-reap-deferred-stop-cleared" task (setQueued key "" c)
  else c.

Definition clearReapDeferredStopIfPending (task : string) (c : controller) : controller :=
  let task := canonicalSupervisorTaskName task in
  if bool_decide (task ∈ c_reapDeferredStop c) then
    let c := c <| c_reapDeferredStop ::= fun s => s ∖ {[task]} |> in
    if (IsActiveStop (daemonIntent_Lookup c task) (e_now E)).1
    then emitReapEvent "debug" "orphan-reap-deferred-stop-preserved" task c
    else foldl (fun c key => clear_queued_stop task key c) c (distinctTaskNameKeyForms task)
  else c.

(** ** Terminating a confirmed orphan *)
Inductive reapOutcome := reapTerminatedDead | reapDeferred | reapTerminateFailed.

(** The queued action a transition's side effect sets. *)
Definition apply_queued_side (task side : string) (c : controller) : controller :=
  if str_contains side "set queued_action=stop" then setQueued task "stop" c
  else if str_contains side "queued_action=respawn" then setQueued task "respawn" c
  else if str_contains side "queued_action=none" || str_contains side "clear queued_action" then setQueued task "" c
  else c.

Definition reap_key (c : controller) (task : string) : string :=
  match GetSMState c task with
  | Some _ => task
  | None =>
      let alt := toggleSupervisorTaskNameBackslash task in
      match GetSMState c alt with
      | Some _ => if alt =s task then task else alt
      | None => task
      end
  end.

(** What follows the side effect of the reap's transition. *)
Definition reap_settle (newState currentState : SMState) (smKey task : string) (sideErr : option error)
    (c : controller) : controller * reapOutcome :=
  match newState with
  | StExiting =>
      if match sideErr with Some e => negb (errors_Is e errTerminateTargetGone) | None => false end
      then
        let c := setSM smKey currentState c in
        (if bool_decide (c_queuedActions c !! smKey = Some "") then c <| c_queuedActions ::= delete smKey |> else c,
         reapTerminateFailed)
      else if loadReapMarkerCanonical (c_ownSpawned c) task || loadReapMarkerCanonical (c_reaperOutstanding c) task
      then (emitReapEvent "debug" "orphan-reap-await-own-reaper" task c, reapDeferred)
      else (c, reapTerminatedDead)
  | StSpawning => (c <| c_reapDeferredStop ::= union {[task]} |>, reapDeferred)
  | _ => (c, reapTerminatedDead)
  end.

Definition reapRemovedDaemon (d : SupervisorDaemon) (c : controller) : controller * reapOutcome :=
  let task := canonicalSupervisorTaskName (sd_TaskName d) in
  match getSMStateCanonical c task with
  | None => (c, reapTerminatedDead)
  | Some currentState =>
      let smKey := reap_key c task in
      if bool_decide (currentState = StExiting) then
        (if loadQueued c smKey =s "respawn"
         then emitReapEvent "info" "orphan-reap-cleared-stale-respawn" task (setQueued smKey "" c)
         else c, reapDeferred)
      else if negb (smStateIsReapable c task) then (c, reapTerminatedDead)
      else
        let ctx := mkSMContext IntentDesiredStopped true 0 (loadQueued c smKey) (e_graceful E) in
        let o := Transition currentState EvIntentUpdate ctx in
        if negb (matched o) then (c, reapTerminatedDead)
        else
          let c := emitReapEvent "info" "orphan-reap-terminate" task c in
          let c := apply_queued_side smKey (side o) c in
          let c := setSM smKey (newState o) c in
          let c := if bool_decide (newState o = StIdle) && negb (bool_decide (currentState = StIdle))
                   then mark (OpMarkExited (sd_TaskName d)) c else c in
          let c := persist E (sd_TaskName d) c in
          let '(c, sideErr) := executeSideEffect E (side o) (newState o) d (event (Ev EvIntentUpdate) task) c in
          reap_settle (newState o) currentState smKey task sideErr c
  end.

Definition resolveConfirmedReap (d : SupervisorDaemon) (c : controller) : controller :=
  let task := canonicalSupervisorTaskName (sd_TaskName d) in
  match reapRemovedDaemon d c with
  | (c, reapTerminatedDead) =>
      let c := c <| c_pendingReap ::= delete task |> <| c_reapShadow ::= delete task |> in
      clearRemovedTaskRuntime task (disarmReapFollowup task c)
  | (c, reapDeferred) => armReapFollowup task c
  | (c, reapTerminateFailed) => emitReapEvent "warn" "orphan-reap-terminate-failed" task (armReapFollowup task c)
  end.

(** ** Applying a snapshot of the intent *)

(** The descriptors to keep: of the tasks that are gone and not yet
    pending; a live one is shadowed at once. *)
Definition capture_step (next : gset string) (acc : controller * gmap string SupervisorDaemon) (task : string)
    : controller * gmap string SupervisorDaemon :=
  let '(c, captured) := acc in
  if bool_decide (task ∈ next) then acc
  else
    match c_pendingReap c !! task, LookupCanonical c task with
    | None, Some d =>
        (if smStateIsReapable c task then c <| c_reapShadow ::= insert task d |> else c, <[task := d]> captured)
    | _, _ => acc
    end.

(** Arm 1, one pending task: it reappeared, it settled by itself, or its
    absence is confirmed. *)
Definition pending_step (next : gset string) (acc : controller * list SupervisorDaemon)
    (entry : string * SupervisorDaemon) : controller * list SupervisorDaemon :=
  let '(c, confirmed) := acc in
  let task := entry.1 in
  if task =s "" then acc
  else if bool_decide (task ∈ next) then
    let c := queueRespawnOnReapCancelIfNeeded task c in
    let c := replayDeferredBackoffTimerIfPending task c in
    let c := clearReapDeferredStopIfPending task c in
    let c := cancelPendingReap task c in
    (emitReapEvent "debug" "orphan-reap-candidate-reappeared" task c, confirmed)
  else if negb (smStateIsReapable c task) then
    (emitReapEvent "debug" "orphan-reap-candidate-settled" task (clearRemovedTaskRuntime task c), confirmed)
  else (c, confirmed ++ [entry.2]).

(** Arm 2, one task that may just have gone. *)
Definition absent_step (next : gset string) (captured : gmap string SupervisorDaemon) (c : controller) (task : string)
    : controller :=
  if bool_decide (task ∈ next) then c
  else if bool_decide (is_Some (c_pendingReap c !! task)) then c
  else if negb (smStateIsReapable c task) then clearRemovedTaskRuntime task c
  else
    match captured !! task with
    | Some d => emitReapEvent "info" "orphan-reap-candidate-marked" task (markPendingReap task d c)
    | None => clearRemovedTaskRuntime task c
    end.

Definition applyReapSnapshot (previous : gset string) (updated : option SupervisorIntentFile)
    (stops : option (gmap string DaemonIntent)) (c : controller) : controller * list SupervisorDaemon :=
  let next := taskNameSetFromIntent updated in
  let universe := elements (previous ∪ TaskNames c) in
  let '(c, captured) := foldl (capture_step next) (c, ∅) universe in
  let c := IntentCache_Refresh updated c in
  let c := match stops with Some tasks => daemonIntent_Refresh tasks c | None => c end in
  let '(c, confirmed) := foldl (pending_step next) (c, []) (map_to_list (c_pendingReap c)) in
  (foldl (absent_step next captured) c universe, confirmed).

Definition handleReapScan (previous : gset string) (updated : option SupervisorIntentFile)
    (stops : option (gmap string DaemonIntent)) (c : controller) : controller :=
  let '(c, confirmed) := applyReapSnapshot previous updated stops c in
  foldl (fun c d => resolveConfirmedReap d c) c confirmed.

Fixpoint confirmReapForTask (task : string) (candidates : list SupervisorDaemon) (c : controller) : controller :=
  match candidates with
  | [] => c
  | d :: rest =>
      if canonicalSupervisorTaskName (sd_TaskName d) =s canonicalSupervisorTaskName task
      then resolveConfirmedReap d c else confirmReapForTask task rest c
  end.

(** [handleReapFollowup]: only the timer of the current window counts, and
    only a fresh read of the intent may confirm the absence. *)
Definition handleReapFollowup (task : string) (generation : Z) (c : controller) : controller :=
  let task := canonicalSupervisorTaskName task in
  match c_reapGeneration c !! task with
  | None => c
  | Some g =>
      if negb (g =? generation) then emitReapEvent "debug" "orphan-reap-followup-stale" task c
      else
        let c := stopReapTimer task (c <| c_reapArmed ::= delete task |>) in
        match c_pendingReap c !! task with
        | None => c
        | Some d =>
            match e_freshIntent E with
            | None | Some (Err _) =>
                emitReapEvent "warn" "orphan-reap-followup-fresh-read-failed" task (armReapFollowup task c)
            | Some (Ok fresh) =>
                if bool_decide (task ∈ taskNameSetFromIntent fresh) then
                  let '(c, candidates) :=
                    applyReapSnapshot (TaskNames c) fresh (Some (StopsAsDaemonIntentFile fresh)) c in
                  let c := confirmReapForTask task candidates c in
                  emitReapEvent "debug" "orphan-reap-candidate-reappeared" task c
                else if negb (smStateIsReapable c task) then
                  emitReapEvent "debug" "orphan-reap-candidate-settled" task (clearRemovedTaskRuntime task c)
                else resolveConfirmedReap d c
            end
        end
  end.

(** ** The producers of reap scans *)
Definition reap_scan_event (previous : gset string) (updated : SupervisorIntentFile)
    (stops : option (gmap string DaemonIntent)) (sync : bool) : LoopEvent :=
  mkEvent evReapScan ""
    (mkBody None None None None false "" false false false None (Some previous) (Some updated) stops sync 0 None
       reallocOutcomeFailed 0 0 0 None).

(** [refreshSupervisorIntent] and [refreshSupervisorIntentSync]: the event
    they post; the second also waits for its completion. *)
Definition refreshSupervisorIntent (updated : option SupervisorIntentFile) (stops : option (gmap string DaemonIntent))
    (sync : bool) (c : controller) : option LoopEvent :=
  match updated with
  | None => None
  | Some u => Some (reap_scan_event (TaskNames c) u stops sync)
  end.

(** ** Intent diffs of the stop watcher *)
Definition intent_changed (p n : DaemonIntent) : bool :=
  negb (di_Desired p =s di_Desired n) || negb (di_Reason p =s di_Reason n) || negb (di_UpdatedAt p =? di_UpdatedAt n).

(** [diffIntentSnapshots]: the changed, removed and added tasks. *)
Definition diffIntentSnapshots (previous updated : option (gmap string DaemonIntent)) : list string :=
  let prev := default ∅ previous in
  let next := default ∅ updated in
  List.filter (fun k => match prev !! k, next !! k with
                        | Some p, Some n => intent_changed p n
                        | _, _ => true
                        end) (map_keys prev) ++
  List.filter (fun k => match prev !! k with None => true | Some _ => false end) (map_keys next).
End Reap.
