(* ===== verification/Realloc.v ===== *)
(** * Self-healing a refused port ([cli/supervise_realloc.go])

    A daemon of the dynamic pool whose loopback bind is refused is moved to
    another port: it is held in backoff, a worker reallocates off the loop,
    and the result comes back as an event.  The reallocations of a task are
    capped per window and reset when it has been stable for a while. *)
From S2P Require Import Prelude GoTime StateMachine Intent Descriptor StateFile Readiness Tracker Lifecycle.
From S2P Require Import StopSettlement Backoff Termination Controller SpawnGate SideEffect Reap.
Open Scope Z_scope.

Definition supervisorEventIsBindRefusedExit (ev : LoopEvent) : bool :=
  match ev_Kind ev with
  | Ev EvChildExit => bool_decide (b_exit_code (ev_Body ev) = Some exitBindRefused)
  | _ => false
  end.

Definition bindRefusedPoolLabel (d : SupervisorDaemon) : string :=
  if IsSerenaProxyDescriptor d then "serena-dynamic"
  else if IsWorkspaceLSPProxyDescriptor d then "lsp-manifest"
  else "global-fixed".

Definition isDynamicPoolProxyDescriptor (d : SupervisorDaemon) : bool :=
  IsSerenaProxyDescriptor d || IsWorkspaceLSPProxyDescriptor d.

(** [emitBindAccessDenied], by severity *)
Definition emitBindAccessDenied (d : SupervisorDaemon) (reallocated : bool) (c : controller) : controller :=
  emit (if reallocated then "warn" else "error") "daemon-bind-access-denied"
    (canonicalSupervisorTaskName (sd_TaskName d)) c.

Definition emitBindAccessDeniedTerminalOnce (d : SupervisorDaemon) (c : controller) : controller :=
  let task := canonicalSupervisorTaskName (sd_TaskName d) in
  if bool_decide (task ∈ c_bindTerminal c) then c
  else emitBindAccessDenied d false (c <| c_bindTerminal ::= union {[task]} |>).

(** ** The stability dwell *)
Definition startReallocDwell (task : string) (c : controller) : controller :=
  c <| c_reallocDwell ::= insert (canonicalSupervisorTaskName task) zero_time |>.

Definition noteReallocDwellLeftRunning (task : string) (c : controller) : controller :=
  let task := canonicalSupervisorTaskName task in
  match c_reallocDwell c !! task with
  | Some _ => c <| c_reallocDwell ::= insert task zero_time |>
  | None => c
  end.

Section Realloc.
Context `{Digest} (E : env).

Definition dwell_step (c : controller) (entry : string * time) : controller :=
  let '(k, healthySince) := entry in
  let drop (c : controller) :=
    c <| c_bindTerminal ::= fun s => s ∖ {[k]} |> <| c_reallocFailCount ::= delete k |> <| c_reallocDwell ::= delete k |> in
  match getSMStateCanonical c k with
  | None => drop c
  | Some StRunning =>
      let since := if IsZero healthySince then e_now E else healthySince in
      let c := c <| c_reallocDwell ::= insert k since |> in
      if reallocationStabilizeDwell <=? time_Sub (e_now E) since then
        let c := mark (OpClearCrashes k) (mark (OpClearReallocations k) c) in
        emit "info" "daemon-realloc-stabilized" k (drop c)
      else c
  | Some _ => c <| c_reallocDwell ::= insert k zero_time |>
  end.

Definition runReallocDwellTick (c : controller) : controller :=
  foldl dwell_step c (map_to_list (c_reallocDwell c)).

(** ** Dispatch *)
Definition holdInBackoffNoTimer (task : string) (c : controller) : controller :=
  persist E task (mark (OpMarkBackoff task) (setSM task StBackoffWaiting c)).

Definition tryDispatchRealloc (d : SupervisorDaemon) (attempt : Z) (c : controller) : controller * bool :=
  if negb (e_reallocWired E) then (c, false)
  else
    let task := canonicalSupervisorTaskName (sd_TaskName d) in
    if bool_decide (task ∈ c_reallocInFlight c) then (c, true)
    else if Nat.ltb (length (c_reallocCh c)) reallocChCapacity
    then (c <| c_reallocInFlight ::= union {[task]} |> <| c_reallocCh ::= fun q => q ++ [(d, attempt)] |>, true)
    else (emit "warn" "realloc-dispatch-dropped" task c, false).

Definition dispatchDynamicPoolRealloc (d : SupervisorDaemon) (task : string) (c : controller) : controller * bool :=
  let inWindow := ReallocationCountInWindow (c_tracker c) task (e_now E) (e_failureWindow E) in
  if reallocationCap <=? inWindow then (c, false)
  else
    let c := startReallocDwell task c in
    let c := holdInBackoffNoTimer task c in
    let '(c, _) := tryDispatchRealloc d (inWindow + 1) c in
    ((armRespawnBackoffTimer E task squatterForeignHoldDelay c).1, true).

(** [maybeHandleBindRefusedExit]: whether the exit was handled here. *)
Definition maybeHandleBindRefusedExit (d : SupervisorDaemon) (ev : LoopEvent) (currentState : SMState)
    (c : controller) : controller * bool :=
  if negb (bool_decide (currentState = StRunning)) || negb (supervisorEventIsBindRefusedExit ev) then (c, false)
  else if bindRefusedPoolLabel d =s "global-fixed"
  then (emitBindAccessDeniedTerminalOnce d (startReallocDwell (sd_TaskName d) c), false)
  else
    match dispatchDynamicPoolRealloc d (ev_TaskName ev) c with
    | (c, true) => (c, true)
    | (c, false) => (emitBindAccessDeniedTerminalOnce d c, false)
    end.

Definition handlePreSpawnRealloc (ev : LoopEvent) (c : controller) : controller :=
  let task := canonicalSupervisorTaskName (ev_TaskName ev) in
  if negb (smStateIs c task StBackoffWaiting) then c
  else
    match lookupDescriptorWithShadow c task with
    | None => c
    | Some d => if negb (isDynamicPoolProxyDescriptor d) then c else (dispatchDynamicPoolRealloc d task c).1
    end.

(** ** The result of the worker *)
Inductive reallocSnapshotDisposition := reallocSnapshotUnorderable | reallocSnapshotIncomingNewer | reallocSnapshotIncomingStale.

Definition reallocSnapshotOrder (current incoming : option SupervisorIntentFile) : reallocSnapshotDisposition :=
  match incoming with
  | None => reallocSnapshotUnorderable
  | Some inc =>
      match current with
      | None => reallocSnapshotIncomingNewer
      | Some cur =>
          match ParseRFC3339Nano (si_UpdatedAt cur), ParseRFC3339Nano (si_UpdatedAt inc) with
          | Some curT, Some incT => if After incT curT then reallocSnapshotIncomingNewer else reallocSnapshotIncomingStale
          | _, _ => reallocSnapshotUnorderable
          end
      end
  end.

Definition patchCachedReallocatedPort (task : string) (newPort : Z) (c : controller) : controller :=
  if newPort <=? 0 then c
  else
    match CloneIntentWithReallocatedPort (c_intent c) task newPort with
    | Some patched => handleReapScan E (TaskNames c) (Some patched) None c
    | None => c
    end.

Definition incrReallocFailCount (task : string) (c : controller) : controller * Z :=
  let task := canonicalSupervisorTaskName task in
  let n := default 0 (c_reallocFailCount c !! task) + 1 in
  (c <| c_reallocFailCount ::= insert task n |>, n).

Definition quarantine_realloc (task : string) (c : controller) : controller :=
  let c := setSM task StQuarantined c in
  let c := recordQuarantineParoleEligible E task c in
  persist E task (mark (OpMarkQuarantined task) c).

Definition escalateReallocFailing (task : string) (d : SupervisorDaemon) (c : controller) : controller :=
  let c := c <| c_reallocFailCount ::= delete task |> in
  emit "error" "daemon-quarantined" task (emitBindAccessDenied d false (quarantine_realloc task c)).

Definition realloc_moved (ev : LoopEvent) (task : string) (c : controller) : controller :=
  let newPort := b_realloc_new_port (ev_Body ev) in
  let c := mark (OpRecordReallocation task (e_now E) (e_failureWindow E)) c in
  let c := c <| c_reallocFailCount ::= delete task |> in
  let carried := b_realloc_intent (ev_Body ev) in
  let c :=
    match reallocSnapshotOrder (c_intent c) carried with
    | reallocSnapshotIncomingNewer => handleReapScan E (TaskNames c) carried None c
    | reallocSnapshotIncomingStale =>
        emit "info" "realloc-stale-snapshot-skipped" task (patchCachedReallocatedPort task newPort c)
    | reallocSnapshotUnorderable => patchCachedReallocatedPort task newPort c
    end in
  if smStateIs c task StBackoffWaiting
  then match lookupDescriptorWithShadow c task with
       | Some _ => (armRespawnBackoffTimer E task respawnBackoffStep c).1
       | None => c
       end
  else c.

Definition realloc_exhausted (task : string) (c : controller) : controller :=
  if negb (smStateIs c task StBackoffWaiting) then c
  else
    let c := quarantine_realloc task c in
    let c := match lookupDescriptorWithShadow c task with
             | Some d => emitBindAccessDenied d false c
             | None => c
             end in
    emit "error" "daemon-quarantined" task c.

Definition realloc_failed (task : string) (c : controller) : controller :=
  if negb (smStateIs c task StBackoffWaiting) then c
  else
    match lookupDescriptorWithShadow c task with
    | None => c
    | Some d =>
        let '(c, n) := incrReallocFailCount task c in
        if reallocFailedEscalationBound <? n then escalateReallocFailing task d c
        else (armRespawnBackoffTimer E task squatterForeignHoldDelay c).1
    end.

Definition handleReallocApplied (ev : LoopEvent) (c : controller) : controller :=
  let task := canonicalSupervisorTaskName (ev_TaskName ev) in
  match b_realloc_outcome (ev_Body ev) with
  | reallocOutcomeReallocated => realloc_moved ev task c
  | reallocOutcomePoolExhausted => realloc_exhausted task c
  | reallocOutcomeFailed => realloc_failed task c
  end.

(** ** The worker *)
Definition ErrLockReleaseUnconfirmed : error := sentinel "api.ErrLockReleaseUnconfirmed" "lock release unconfirmed".
Definition ErrPortPoolExhausted : error := sentinel "api.ErrPortPoolExhausted" "port pool exhausted".

Definition realloc_result_outcome (newPort : Z) (err : option error) : reallocOutcome :=
  match err with
  | None => reallocOutcomeReallocated
  | Some e =>
      if (0 <? newPort) && errors_Is e ErrLockReleaseUnconfirmed then reallocOutcomeReallocated
      else if errors_Is e ErrPortPoolExhausted then reallocOutcomePoolExhausted
      else reallocOutcomeFailed
  end.

(** [handleReallocReq]: take one request, reallocate, read the intent back
    on success, and post the outcome.  [reallocFn] is the allocator. *)
Definition handleReallocReq (reallocFn : option (SupervisorDaemon -> Z * option error)) (c : controller)
    : option (controller * option LoopEvent) :=
  match c_reallocCh c with
  | [] => None
  | (d, attempt) :: rest =>
      let task := canonicalSupervisorTaskName (sd_TaskName d) in
      let c := c <| c_reallocCh := rest |> <| c_reallocInFlight ::= fun s => s ∖ {[task]} |> in
      match reallocFn with
      | None => Some (c, None)
      | Some f =>
          let '(newPort, err) := f d in
          let outcome := realloc_result_outcome newPort err in
          let moved := match outcome with reallocOutcomeReallocated => true | _ => false end in
          let fresh := if moved then match e_freshIntent E with Some (Ok i) => i | _ => None end else None in
          let c := if moved then emitBindAccessDenied d true c else c in
          Some (c, Some (mkEvent evReallocApplied task
            (mkBody None None None None false "" false false false None None None None false 0 None outcome newPort
               (default 0 (EffectiveDaemonPort d (e_resolve E))) attempt fresh)))
      end
  end.
End Realloc.
