(* ===== verification/StopBatch.v ===== *)
(** * Stop batches on the event loop ([cli/supervise_stop_batch.go] and
      [cli/supervise_target_settlement.go], 24-390)

    A stop command names its targets and carries the intent it was issued
    under.  The loop checks it as a whole, makes it durable as receipts, and
    only then drives each target to a stop; receipts left over by a crash or
    a failure are resumed by the recovery event. *)
From S2P Require Import Prelude GoTime StateMachine Intent Descriptor StateFile Readiness Tracker Lifecycle.
From S2P Require Import StopSettlement Backoff Termination Controller SpawnGate SideEffect.
Open Scope Z_scope.

Definition stopBatchPorts (cmd : StopBatchCommandV1) : gmap string Z :=
  foldl (fun m t => <[canonicalSupervisorTaskName (tg_TaskName t) := tg_ExpectedPort t]> m) ∅
    (sb_Targets (sc_batch cmd)).

Section StopBatch.
Context `{Digest} (E : env).

Definition is_active_stop (i : DaemonIntent) : bool := (IsActiveStop i (e_now E)).1.
Definition actively_stopped (i : DaemonIntent) : bool :=
  (di_Desired i =s IntentDesiredStopped) && is_active_stop i.

(** ** Which intent wins *)

(** [validateStopBatchIntentSelection]: an older command is acceptable only
    where the newer intent still stops every target. *)
Definition validateStopBatchIntentSelection (cmd : StopBatchCommandV1) (c : controller) : option error :=
  match c_intent c with
  | Some current =>
      if sc_IntentGeneration cmd <? si_IntentGeneration current then
        if forallb (fun t => match si_Stops current !! tg_TaskName t with
                             | Some stop => actively_stopped stop
                             | None => false
                             end) (sb_Targets (sc_batch cmd))
        then None
        else Some (errors_New "stop_batch command generation is older than current running intent")
      else None
  | None => None
  end.

Definition selectStopBatchIntent (cmd : StopBatchCommandV1) (c : controller) : controller * option error :=
  match validateStopBatchIntentSelection cmd c with
  | Some e => (c, Some e)
  | None =>
      if match c_intent c with Some current => sc_IntentGeneration cmd <? si_IntentGeneration current | None => false end
      then (c, None)
      else
        let c := IntentCache_Refresh (sc_SupervisorIntent cmd) c in
        (daemonIntent_Refresh (default ∅ (sc_UnifiedStops cmd)) c, None)
  end.

(** ** Preflight *)
Definition stop_context (c : controller) (task : string) : SMContext :=
  mkSMContext IntentDesiredStopped true
    (CrashCountInWindow (c_tracker c) task (e_now E) (e_failureWindow E)) (loadQueued c task) false.

Definition preflight_target (cmd : StopBatchCommandV1) (c : controller) (target : StopBatchTargetV1) : option error :=
  let task := tg_TaskName target in
  match FindSupervisorDaemonByTaskName (sc_SupervisorIntent cmd) task with
  | None => Some (errors_New "stop_batch descriptor absent")
  | Some d =>
      if negb (bool_decide (EffectiveDaemonPort d (e_resolve E) = Some (tg_ExpectedPort target)))
      then Some (errors_New "stop_batch descriptor port mismatch")
      else
        match default ∅ (sc_UnifiedStops cmd) !! task with
        | None => Some (errors_New "stop_batch snapshot has no active stopped intent")
        | Some stop =>
            if negb (actively_stopped stop) then Some (errors_New "stop_batch snapshot has no active stopped intent")
            else if negb (stopSettlementAdmissionEntry (Get (c_tracker c) task))
            then Some (errors_New "stop settlement requires running generation or idle port fence")
            else
              let o := Transition (loadSM c task) EvIntentUpdate (stop_context c task) in
              if negb (matched o) then Some (errors_New "stop_batch has no state transition")
              else if str_contains (side o) "terminate" && match e_terminate E with TermNone => true | _ => false end
              then Some (errors_New "stop_batch terminate implementation unavailable")
              else None
        end
  end.

Fixpoint preflight_targets (cmd : StopBatchCommandV1) (c : controller) (seen : list string)
    (targets : list StopBatchTargetV1) : option error :=
  match targets with
  | [] => None
  | target :: rest =>
      let task := tg_TaskName target in
      if negb (task =s canonicalSupervisorTaskName task) || (tg_ExpectedPort target <=? 0) || (65535 <? tg_ExpectedPort target)
      then Some (errors_New "invalid stop_batch target")
      else if existsb (String.eqb (canonicalSupervisorTaskName task)) seen
      then Some (errors_New "duplicate stop_batch target")
      else
        match preflight_target cmd c target with
        | Some e => Some e
        | None => preflight_targets cmd c (canonicalSupervisorTaskName task :: seen) rest
        end
  end.

Definition preflightStopBatch (cmd : StopBatchCommandV1) (c : controller) : option error :=
  if is_blank (e_statePath E) then Some (errors_New "stop_batch controller prerequisites unavailable")
  else
    match StopSettlementIntegrityError (c_tracker c) with
    | Some e => Some e
    | None =>
        match sc_SupervisorIntent cmd with
        | None => Some (errors_New "stop_batch intent generation does not match snapshot")
        | Some intent =>
            if negb (si_IntentGeneration intent =? sc_IntentGeneration cmd)
            then Some (errors_New "stop_batch intent generation does not match snapshot")
            else if negb (bool_decide (StopsAsDaemonIntentFile (sc_SupervisorIntent cmd) = default ∅ (sc_UnifiedStops cmd)))
            then Some (errors_New "stop_batch unified stops do not match supervisor intent snapshot")
            else
              match validateStopBatchIntentSelection cmd c with
              | Some e => Some e
              | None => preflight_targets cmd c [] (sb_Targets (sc_batch cmd))
              end
        end
    end.

(** ** Joining a batch that is already pending *)
Definition stopReceiptRecoveryIdentityMatches (r : StopSettlementReceiptV1) (phase : string) (entry : DaemonRuntimeEntry)
    : bool :=
  let gone := (te_State entry =s daemonRuntimeStateIdle) && (te_CurrentPID entry =? 0) &&
              (te_PIDGeneration entry =? sr_PIDGeneration r) in
  let after_exit := (phase =s StopSettlementPhaseExitObserved) || (phase =s StopSettlementPhasePortReleased) in
  if sr_Mode r =s "stop" then
    if phase =s StopSettlementPhaseStopRequested
    then (te_CurrentPID entry =? sr_PID r) && (te_PIDGeneration entry =? sr_PIDGeneration r) &&
         negb (IsZero (te_StartedAt entry)) && (FormatRFC3339Nano (te_StartedAt entry) =s sr_StartedAt r)
    else after_exit && gone
  else if sr_Mode r =s "port_fence" then after_exit && gone
  else false.

(** One target: [None] when it has no receipt. *)
Definition join_target (current : SupervisorIntentFile) (c : controller) (target : StopBatchTargetV1)
    : option (option error) :=
  let task := tg_TaskName target in
  match StopSettlementReceipt (c_tracker c) task with
  | None => None
  | Some receipt =>
      Some
        (if sr_Phase receipt =s StopSettlementPhaseFailed then Some (errors_New "stop settlement pending receipt failed")
         else if negb (sr_Port receipt =? tg_ExpectedPort target)
         then Some (errors_New "stop settlement pending receipt port mismatch")
         else
           match FindSupervisorDaemonByTaskName (Some current) task with
           | None => Some (errors_New "stop settlement pending descriptor absent")
           | Some d =>
               if negb (bool_decide (EffectiveDaemonPort d (e_resolve E) = Some (tg_ExpectedPort target)))
               then Some (errors_New "stop settlement pending current descriptor port mismatch")
               else
                 match si_Stops current !! task with
                 | None => Some (errors_New "stop settlement pending current intent is not actively stopped")
                 | Some stop =>
                     if negb (actively_stopped stop)
                     then Some (errors_New "stop settlement pending current intent is not actively stopped")
                     else
                       match Get (c_tracker c) task with
                       | None => Some (errors_New "stop settlement pending runtime generation mismatch")
                       | Some entry =>
                           if negb (stopReceiptRecoveryIdentityMatches receipt (sr_Phase receipt) entry)
                           then Some (errors_New "stop settlement pending runtime generation mismatch")
                           else None
                       end
                 end
           end)
  end.

Fixpoint join_targets (current : SupervisorIntentFile) (c : controller) (targets : list StopBatchTargetV1) : res nat :=
  match targets with
  | [] => Ok 0%nat
  | target :: rest =>
      match join_target current c target with
      | None => join_targets current c rest
      | Some (Some e) => Err e
      | Some None => let? n := join_targets current c rest in Ok (S n)
      end
  end.

Definition joinPendingStopBatch (cmd : StopBatchCommandV1) (c : controller) : res bool :=
  match c_intent c with
  | None => Err (errors_New "stop_batch current intent unavailable")
  | Some current =>
      let? n := join_targets current c (sb_Targets (sc_batch cmd)) in
      if Nat.eqb n 0 then Ok false
      else if Nat.eqb n (length (sb_Targets (sc_batch cmd))) then Ok true
      else Err (errors_New "stop settlement pending for only part of stop_batch")
  end.

(** ** Applying the stop *)
Definition applyAuthoritativeStopTransition (task : string) (descriptor : option SupervisorDaemon) (c : controller)
    : controller * option error :=
  match descriptor with
  | None => (c, Some (errors_New "stop_batch descriptor unavailable"))
  | Some d =>
      let currentState := loadSM c task in
      let o := Transition currentState EvIntentUpdate (stop_context c task) in
      if negb (matched o) then (c, Some (errors_New "stop_batch has no state transition"))
      else
        let c := if str_contains (side o) "queued_action=stop" then setQueued task "stop" c else c in
        let c := setSM task (newState o) c in
        let c := if bool_decide (newState o = StIdle) && negb (bool_decide (currentState = StIdle))
                 then mark (OpMarkExited task) c else c in
        let '(c, err) := if persistBefore o then persistDaemonRuntimeTracker E task c else (c, None) in
        match err with
        | Some e => (c, Some e)
        | None => executeSideEffect E (side o) (newState o) d (event (Ev EvIntentUpdate) task) c
        end
  end.

Definition armStopSettlementRecovery (task : string) (c : controller) : controller :=
  let key := canonicalSupervisorTaskName task in
  if bool_decide (key ∈ c_recoveryArmed c) then c
  else perform (ArmRecovery key) (c <| c_recoveryArmed ::= union {[key]} |>).

(** One admitted target: a failure is recorded in its receipt and retried. *)
Definition stop_target (cmd : StopBatchCommandV1) (acc : controller * list (string * string)) (target : StopBatchTargetV1)
    : controller * list (string * string) :=
  let '(c, errs) := acc in
  let task := tg_TaskName target in
  match applyAuthoritativeStopTransition task (FindSupervisorDaemonByTaskName (sc_SupervisorIntent cmd) task) c with
  | (c, None) => (c, errs)
  | (c, Some e) =>
      let '(c, detail) :=
        match StopSettlementReceipt (c_tracker c) task with
        | Some receipt =>
            if sr_Phase receipt =s StopSettlementPhaseFailed then (c, err_text e)
            else
              match advance_receipt E receipt StopSettlementPhaseFailed "termination_failed" (err_text e) c with
              | (c, Ok _) => (c, err_text e)
              | (c, Err pe) => (c, err_text e +:+ "; persist failure: " +:+ err_text pe)
              end
        | None => (c, err_text e)
        end in
      (armStopSettlementRecovery task c, errs ++ [(task, detail)])
  end.

Definition begin_batch (cmd : StopBatchCommandV1) (c : controller) : controller * res (list StopSettlementReceiptV1) :=
  let '(i, c) := next_io c in
  let '(t, disk, r) := BeginStopSettlementBatch (c_tracker c) (e_statePath E) i (c_disk c) (sc_batch cmd)
                         (stopBatchPorts cmd) (apply_ops (e_interleave E)) in
  (c <| c_tracker := t |> <| c_disk := disk |>, r).

(** [handleStopBatchOnLoop] *)
Definition handleStopBatchOnLoop (cmd : StopBatchCommandV1) (c : controller) : controller :=
  let refuse (e : error) (c : controller) := perform (ReplyStopBatch (Some e) []) c in
  if negb (sb_ProtocolVersion (sc_batch cmd) =? 1) || (sb_BatchID (sc_batch cmd) =s "") ||
     bool_decide (sb_Targets (sc_batch cmd) = []) || (sc_IntentGeneration cmd =? 0) ||
     bool_decide (sc_SupervisorIntent cmd = None) || bool_decide (sc_UnifiedStops cmd = None) || (e_statePath E =s "")
  then refuse (errors_New "invalid or unavailable stop_batch v1") c
  else
    match preflightStopBatch cmd c with
    | Some e => refuse e c
    | None =>
        match joinPendingStopBatch cmd c with
        | Err e => refuse e c
        | Ok true => perform (ReplyStopBatch None []) c
        | Ok false =>
            match selectStopBatchIntent cmd c with
            | (c, Some e) => refuse e c
            | (c, None) =>
                match begin_batch cmd c with
                | (c, Err e) => refuse e c
                | (c, Ok _) =>
                    let '(c, errs) := foldl (stop_target cmd) (c, []) (sb_Targets (sc_batch cmd)) in
                    perform (ReplyStopBatch None errs) c
                end
            end
        end
    end.

(** ** Recovering a receipt *)

(** [stopSettlementRetryPolicy]: the failures that are retried; the others
    wait for the operator. *)
Definition retryable_failure (failureClass : string) : bool :=
  existsb (String.eqb failureClass)
    ["process_alive"; "listener_alive"; "settlement_timeout"; "settlement_cancelled"; "termination_failed"].

(** A failed receipt is resumed before it is acted upon. *)
Definition resume_receipt (task : string) (receipt : StopSettlementReceiptV1) (c : controller)
    : controller * option StopSettlementReceiptV1 :=
  if negb (sr_Phase receipt =s StopSettlementPhaseFailed) then (c, Some receipt)
  else if negb (retryable_failure (sr_FailureClass receipt)) then (c, None)
  else
    match advance_receipt E receipt (sr_ResumePhase receipt) "" "" c with
    | (c, Err _) => (armStopSettlementRecovery task c, None)
    | (c, Ok resumed) => (c, Some resumed)
    end.

Definition drive_receipt (task : string) (d : SupervisorDaemon) (receipt : StopSettlementReceiptV1) (c : controller)
    : controller * option StopBatchTargetV1 :=
  let target := mkTarget (sr_TaskName receipt) (sr_Port receipt) in
  if (sr_Mode receipt =s "port_fence") || negb (sr_Phase receipt =s StopSettlementPhaseStopRequested) then (c, Some target)
  else
    match applyAuthoritativeStopTransition task (Some d) c with
    | (c, None) => (c, Some target)
    | (c, Some e) =>
        let c :=
          match StopSettlementReceipt (c_tracker c) task with
          | Some current =>
              if sr_Phase current =s StopSettlementPhaseFailed then c
              else (advance_receipt E current StopSettlementPhaseFailed "termination_failed" (err_text e) c).1
          | None => c
          end in
        (armStopSettlementRecovery task c, None)
    end.

Definition recoverStopReceiptOnLoop (task : string) (c : controller) : controller * option StopBatchTargetV1 :=
  if is_blank (e_statePath E) then (c, None)
  else
    match StopSettlementReceipt (c_tracker c) task, LookupCanonical c task, Get (c_tracker c) task with
    | Some receipt, Some d, Some entry =>
        let effectivePhase :=
          if sr_Phase receipt =s StopSettlementPhaseFailed then sr_ResumePhase receipt else sr_Phase receipt in
        if negb (bool_decide (EffectiveDaemonPort d (e_resolve E) = Some (sr_Port receipt))) ||
           negb (actively_stopped (daemonIntent_Lookup c task)) ||
           negb (stopReceiptRecoveryIdentityMatches receipt effectivePhase entry)
        then (c, None)
        else
          match resume_receipt task receipt c with
          | (c, None) => (c, None)
          | (c, Some receipt) => drive_receipt task d receipt c
          end
    | _, _, _ => (c, None)
    end.
End StopBatch.
