(* ===== verification/Loop.v ===== *)
(** * The controller's event handler ([cli/supervisor_controller.go], 560-720
      and 2590-3440)

    [handleLoopEvent] is the one place where the restart policy of a daemon
    changes: it routes the control events, filters stale and stopped ones,
    gathers the context, asks [Transition], and carries out the result. *)
From S2P Require Import Prelude GoTime StateMachine Intent Descriptor StateFile Readiness Tracker Lifecycle.
From S2P Require Import StopSettlement Backoff Termination Controller SpawnGate SideEffect Reap Realloc.
From S2P Require Import StopBatch.
Open Scope Z_scope.

Definition supervisorLivenessReasonNeedsRestart (reason : string) : bool :=
  existsb (String.eqb reason) ["port_unbound"; "port_owner_mismatch"; "port_owner_self"].

Definition supervisorLivenessRestartClearedRuntime (ev : LoopEvent) : bool :=
  match ev_Kind ev with
  | Ev EvManualRestart => b_runtime_cleared (ev_Body ev) && supervisorLivenessReasonNeedsRestart (b_reason (ev_Body ev))
  | _ => false
  end.

Definition supervisorEventIsCleanExit (ev : LoopEvent) : bool := b_clean_exit (ev_Body ev).

(** A descriptor under another task name *)
Definition with_task_name (d : SupervisorDaemon) (task : string) : SupervisorDaemon :=
  mkDaemon (sd_PreparedRuntime d) task (sd_Server d) (sd_Daemon d) (sd_Command d) (sd_Args d)
    (sd_WorkingDir d) (sd_Env d) (sd_Workspace d) (sd_Port d) (sd_ManifestHash d) (sd_StartupBindDeadlineSeconds d)
    (sd_RuntimeSpec d).

(** [gateCleared] is deleted under both spellings. *)
Definition drop_gate_cleared (task : string) (c : controller) : controller :=
  c <| c_gateCleared ::= fun s => s ∖ {[task; toggleSupervisorTaskNameBackslash task]} |>.

Section Loop.
Context `{Digest} (E : env).

(** ** Parole *)
Definition parole_step (c : controller) (entry : string * paroleEntry) : controller :=
  let '(k, p) := entry in
  let store (p : paroleEntry) (c : controller) := c <| c_parole ::= insert k p |> in
  match getSMStateCanonical c k with
  | None => c <| c_parole ::= delete k |>
  | Some StQuarantined =>
      let p := mkParole (pa_attempts p) (pa_nextAttemptAt p) zero_time in
      let c := store p c in
      if Before (e_now E) (pa_nextAttemptAt p) then c
      else
        let '(desired, activeStop) := intent_now E c k in
        if negb (desired =s IntentDesiredRunning) || activeStop then c
        else
          let ev := mkEvent (Ev EvManualRestart) k (no_body <| b_require_running_intent := true |>) in
          match PostSelf E ev c with
          | (c, false) => emit "info" "daemon-quarantine-parole-deferred" (canonicalSupervisorTaskName k) c
          | (c, true) =>
              let n := pa_attempts p + 1 in
              emit "info" "daemon-quarantine-parole-retry" (canonicalSupervisorTaskName k)
                (store (mkParole n (e_now E + quarantineParoleDelay n) zero_time) c)
          end
  | Some StRunning =>
      let since := if IsZero (pa_healthySince p) then e_now E else pa_healthySince p in
      if quarantineParoleStabilizeDwell <=? time_Sub (e_now E) since
      then emit "info" "daemon-quarantine-parole-cleared" (canonicalSupervisorTaskName k) (c <| c_parole ::= delete k |>)
      else store (mkParole (pa_attempts p) (pa_nextAttemptAt p) since) c
  | Some StIdle => c <| c_parole ::= delete k |>
  | Some _ => store (mkParole (pa_attempts p) (pa_nextAttemptAt p) zero_time) c
  end.

Definition runQuarantineParoleTick (c : controller) : controller :=
  if e_graceful E then c else foldl parole_step c (map_to_list (c_parole c)).

(** ** Filters in front of the state machine *)

(** An automatic restart of a task that is stopped by now. *)
Definition restart_refused_by_intent (ev : LoopEvent) (c : controller) : bool :=
  match ev_Kind ev with
  | Ev EvManualRestart =>
      b_require_running_intent (ev_Body ev) &&
      (let '(desired, activeStop) := intent_now E c (ev_TaskName ev) in
       negb (desired =s IntentDesiredRunning) || activeStop)
  | _ => false
  end.

(** The exit of a process that has been superseded. *)
Definition stale_child_exit (ev : LoopEvent) (c : controller) : bool :=
  match ev_Kind ev, b_pid_generation (ev_Body ev), Get (c_tracker c) (ev_TaskName ev) with
  | Ev EvChildExit, Some gen, Some entry => (0 <? gen) && (gen <? te_PIDGeneration entry)
  | _, _, _ => false
  end.

(** A timer of a task that waits to be reaped is remembered, not acted on. *)
Definition timer_deferred_by_reap (ev : LoopEvent) (currentState : SMState) (c : controller) : bool :=
  match ev_Kind ev, currentState with
  | Ev EvTimerDue, StBackoffWaiting => bool_decide (is_Some (c_pendingReap c !! ev_TaskName ev))
  | _, _ => false
  end.

Definition clean_exit_while_running (ev : LoopEvent) (currentState : SMState) : bool :=
  match ev_Kind ev, currentState with
  | Ev EvChildExit, StRunning => supervisorEventIsCleanExit ev
  | _, _ => false
  end.

(** A liveness restart that already killed the process. *)
Definition apply_cleared_runtime (ev : LoopEvent) (currentState : SMState) (c : controller) : controller * SMState :=
  if supervisorLivenessRestartClearedRuntime ev then
    let c := persist E (ev_TaskName ev) (mark (OpMarkExited (ev_TaskName ev)) c) in
    match currentState, Get (c_tracker c) (ev_TaskName ev) with
    | StRunning, Some entry =>
        (c, if (te_State entry =s daemonRuntimeStateIdle) && (te_CurrentPID entry =? 0) then StIdle else StRunning)
    | _, _ => (c, currentState)
    end
  else (c, currentState).

(** ** The transition *)
Definition sm_context (ev : LoopEvent) (c : controller) : SMContext :=
  let '(desired, activeStop) := intent_now E c (ev_TaskName ev) in
  mkSMContext desired activeStop (CrashCountInWindow (c_tracker c) (ev_TaskName ev) (e_now E) (e_failureWindow E))
    (loadQueued c (ev_TaskName ev)) (e_graceful E).

(** Everything between the transition and its side effect. *)
Definition commit_transition (task : string) (currentState : SMState) (o : outcome) (c : controller) : controller :=
  let c := if bool_decide (currentState = StRunning) && negb (bool_decide (newState o = StRunning))
           then noteReallocDwellLeftRunning task c else c in
  let c := setSM task (newState o) c in
  let c := if bool_decide (newState o = StSpawning) then c else c <| c_gateCleared ::= fun s => s ∖ {[task]} |> in
  let c := apply_queued_side task (side o) c in
  let c := if bool_decide (currentState = StExiting) &&
              (bool_decide (newState o = StIdle) || bool_decide (newState o = StSpawning))
           then setQueued task "" c else c in
  let c := if str_contains (side o) "reset failures"
           then
             mark (OpClearReallocations task) (mark (OpClearCrashes task) c)
               <| c_bindTerminal ::= fun s => s ∖ {[canonicalSupervisorTaskName task]} |>
               <| c_reallocFailCount ::= delete (canonicalSupervisorTaskName task) |>
           else c in
  let c := if bool_decide (newState o = StIdle) && negb (bool_decide (currentState = StIdle))
           then mark (OpMarkExited task) c else c in
  if persistBefore o then persist E task c else c.

(** What an idle-respawn request is answered. *)
Definition idle_respawn_error (side : string) (err : option error) : option error :=
  match err with
  | Some e => Some e
  | None =>
      if str_contains side "create-process" then None
      else if side =s "RESTART_REFUSED_INTENT_STOPPED" then Some errIdleRespawnRefusedIntentStopped
      else Some (errors_New ("idle respawn did not spawn: " +:+ side))
  end.

Definition run_transition (d : SupervisorDaemon) (ev : LoopEvent) (currentState : SMState) (k : SMEvent) (c : controller)
    : controller :=
  let o := Transition currentState k (sm_context ev c) in
  if negb (matched o) then
    let c := emit "debug" "controller-event-unhandled" (ev_TaskName ev) c in
    completeIdleRespawnEvent ev (Some (errors_New "no state-machine transition")) c
  else
    let c := commit_transition (ev_TaskName ev) currentState o c in
    let '(c, err) := executeSideEffect E (side o) (newState o) d ev c in
    completeIdleRespawnEvent ev (idle_respawn_error (side o) err) c.

(** A state-machine event of a task whose descriptor is known. *)
Definition handle_routed (d : SupervisorDaemon) (ev : LoopEvent) (k : SMEvent) (c : controller) : controller :=
  let task := ev_TaskName ev in
  let currentState := loadSM c task in
  if timer_deferred_by_reap ev currentState c then
    emitReapEvent "debug" "orphan-reap-backoff-timer-deferred" task (c <| c_reapDeferredTimer ::= union {[task]} |>)
  else if clean_exit_while_running ev currentState then
    emit "debug" "controller-clean-exit-ignored-running" task (setSM task StIdle (noteReallocDwellLeftRunning task c))
  else
    let '(c, currentState) := apply_cleared_runtime ev currentState c in
    match maybeHandleBindRefusedExit E d ev currentState c with
    | (c, true) => c
    | (c, false) => run_transition d ev currentState k c
    end.

(** A state-machine event, from the canonicalisation of its task on. *)
Definition handle_sm_event (k : SMEvent) (ev : LoopEvent) (c : controller) : controller :=
  let routeKey := canonicalSupervisorTaskName (ev_TaskName ev) in
  let ev := mkEvent (Ev k) routeKey (ev_Body ev) in
  if restart_refused_by_intent ev c then
    emit "info" "automatic-restart-skipped-stopped" routeKey (drop_gate_cleared routeKey c)
  else if stale_child_exit ev c then emit "info" "daemon-stale-exit-ignored" routeKey c
  else
    let c := if bool_decide (k = EvChildExit) then c <| c_reaperOutstanding ::= fun s => s ∖ {[routeKey]} |> else c in
    match lookupDescriptorWithShadow c routeKey with
    | None =>
        let c := drop_gate_cleared routeKey (emit "debug" "controller-event-orphan" routeKey c) in
        completeIdleRespawnEvent ev (Some (errors_New "task not found in controller intent cache")) c
    | Some resolved => handle_routed (with_task_name resolved routeKey) ev k c
    end.

(** [handleLoopEvent] *)
Definition handleLoopEvent (ev : LoopEvent) (c : controller) : controller :=
  match ev_Kind ev with
  | Ev k => handle_sm_event k ev c
  | evOwnedChildWaitExit | evForeignTerminationExit => handle_sm_event EvChildExit ev (recordExactStopReceiptExit E ev c)
  | evReapScan =>
      let c := handleReapScan E (default ∅ (b_reap_previous (ev_Body ev))) (b_reap_intent (ev_Body ev))
                 (b_reap_stops (ev_Body ev)) c in
      if b_done (ev_Body ev) then perform CloseDone c else c
  | evReapFollowup => handleReapFollowup E (ev_TaskName ev) (b_followup_generation (ev_Body ev)) c
  | evControllerBarrier => if b_done (ev_Body ev) then perform CloseDone c else c
  | evStopBatch =>
      match b_stop_batch (ev_Body ev) with
      | Some cmd => handleStopBatchOnLoop E cmd c
      | None => c
      end
  | evStopSettlementRecovery =>
      let c := c <| c_recoveryArmed ::= fun s => s ∖ {[canonicalSupervisorTaskName (ev_TaskName ev)]} |> in
      match recoverStopReceiptOnLoop E (ev_TaskName ev) c with
      | (c, Some target) => perform (SettleTarget target) c
      | (c, None) => c
      end
  | evParoleTick => runReallocDwellTick E (runQuarantineParoleTick c)
  | evReallocApplied => handleReallocApplied E ev c
  | evPreSpawnRealloc => handlePreSpawnRealloc E ev c
  end.
End Loop.
