(* ===== verification/Scenario.v ===== *)
(** * A small concrete supervisor

    Two daemons, an environment in which every probe succeeds, and the
    controller at its start; the witnesses of the controller's theorems run
    on it. *)
From S2P Require Import Prelude GoTime StateMachine Intent Descriptor StateFile Readiness Tracker Lifecycle.
From S2P Require Import StopSettlement Recovery Backoff Termination Controller SpawnGate SideEffect Reap.
From S2P Require Import Realloc StopBatch Loop.
Open Scope Z_scope.

Definition time_task : string := bs "mcp-local-hub-time-default".

Definition demo_daemon (task : string) (port : Z) : SupervisorDaemon :=
  mkDaemon None task "memory" "default" "/usr/bin/mcphub" ["daemon"; "--server"; "memory"; "--daemon"; "default"] "" ∅ ""
    port "" 0 None.
Definition demo_intent (gen : Z) (daemons : list SupervisorDaemon) (stops : gmap string DaemonIntent) : SupervisorIntentFile :=
  mkIntentFile 1 gen (FormatRFC3339Nano noon) daemons [] false "" stops ∅.

Definition demo_spawn (d : SupervisorDaemon) : spawn_result :=
  mkSpawnResult [OpMarkSpawned (sd_TaskName d) 4242 noon] true None.
Definition demo_term (d : SupervisorDaemon) (x : terminationExpectedTuple) : list tracker_op * bool * terminationOutcome :=
  ([OpMarkExited (sd_TaskName d)], true, mkTermOutcome Terminated x None None).

Definition demo_env : env :=
  mkEnv "state.json" (10 * Minute) 10 64 0 noon false (fun _ => 0) (fun _ _ => None) (Some (fun _ => Ok None)) true
    (fun _ => StatOk) (fun _ => true) (fun _ => "") (Some demo_spawn) (TermTyped demo_term) None [].
(** ... and one where every write fails before the file is replaced *)
Definition failing : list io := [io_fail_write (errors_New "disk full"); io_fail_open (errors_New "lock busy")].

Definition boot (t : DaemonRuntimeTracker) (d : option SupervisorStateFile) : controller :=
  mkController None ∅ ∅ t d [] ∅ ∅ ∅ ∅ ∅ 0 ∅ ∅ ∅ ∅ ∅ ∅ ∅ ∅ ∅ [] ∅ [] ∅ ∅ ∅ ∅ ∅ ∅ [] [].

Definition two_daemons : SupervisorIntentFile :=
  demo_intent 1 [demo_daemon memory_task 9123; demo_daemon time_task 9124] ∅.
Definition demo_start : controller := IntentCache_Refresh (Some two_daemons) (boot NewDaemonRuntimeTracker None).
(** Handle events in turn. *)
Definition demo_run `{Digest} (evs : list LoopEvent) (c : controller) : controller :=
  foldl (fun c ev => handleLoopEvent demo_env ev c) c evs.

(** The environment's callbacks behave. *)
Lemma demo_op_ok d : op_ok (OpMarkSpawned (sd_TaskName d) 4242 noon).
Proof. split_and!; [lia|unfold format_range, noon; vm_compute; split; congruence|done]. Qed.

Definition spawned_names (l : list effect) : list string :=
  omap (fun e => match e with CallSpawn d => Some (sd_TaskName d) | _ => None end) l.
Definition terminated_names (l : list effect) : list string :=
  omap (fun e => match e with CallTerm d _ => Some (sd_TaskName d) | _ => None end) l.

(** The intent arrives as a reap scan; then an operator's stop of the memory
    server arrives with the next generation of the intent. *)
Definition demo_stop : DaemonIntent := mkDaemonIntent IntentDesiredStopped "operator" noon.
Definition demo_load : LoopEvent := reap_scan_event ∅ two_daemons (Some ∅) false.
Definition stop_command : StopBatchCommandV1 :=
  mkStopCommand (mkStopBatch 1 "batch-1" [mkTarget memory_task 9123]) 2
    (Some (demo_intent 2 (si_Daemons two_daemons) {[ memory_task := demo_stop ]})) (Some {[ memory_task := demo_stop ]}).
Definition demo_stop_batch : LoopEvent :=
  mkEvent evStopBatch "" (no_body <| b_stop_batch := Some stop_command |>).
Definition demo_boot : controller := boot NewDaemonRuntimeTracker None.
Definition demo_day : list LoopEvent :=
  [demo_load; event (Ev EvStart) memory_task; event (Ev EvHealthOK) memory_task; demo_stop_batch].

Section Examples.
#[local] Existing Instance ideal_digest.

(** A start event creates the process, and the health report makes it run. *)
Example demo_starts :
  let c := demo_run [event (Ev EvStart) memory_task; event (Ev EvHealthOK) memory_task] demo_start in
  spawned_names (c_effects c) = [memory_task] /\ c_smStates c !! memory_task = Some StRunning /\
  te_CurrentPID (entry_at (c_tracker c) memory_task) = 4242.
Proof. vm_compute. done. Qed.

(** A day: loaded, started, healthy, stopped; the receipt is pending and the
    process was terminated once. *)
Example demo_day_stops :
  let c := demo_run demo_day demo_boot in
  spawned_names (c_effects c) = [memory_task] /\ terminated_names (c_effects c) = [memory_task] /\
  (sr_Phase <$> (t_stopSettlements (c_tracker c) !! memory_task)) = Some "stop_requested" /\
  c_smStates c !! memory_task = Some StExiting.
Proof. vm_compute. done. Qed.
End Examples.
