(* ===== verification/Settle.v ===== *)
(** * Settle: from a stopped process to a removed receipt.

    [settleStopBatchTargets] and [finalizeStoppedSettlementReceipt] of
    [cli/supervise_target_settlement.go].  They run on their own goroutines,
    beside the loop: the polling is a function of what each round observes,
    and the finalization is a program of tracker calls that other
    goroutines may interleave with. *)
From S2P Require Import Prelude GoTime StateMachine Intent Descriptor StateFile Readiness Tracker Lifecycle.
From S2P Require Import StopSettlement Recovery Backoff Termination Controller SpawnGate StopBatch Scenario.
Open Scope Z_scope.

(** ** Results *)
Definition StoppedSettlementStopped : string := "stopped".
Definition StoppedSettlementIncomplete : string := "incomplete".
Definition StoppedSettlementFailed : string := "failed".
Definition ReasonStopped : string := "stopped".
Definition ReasonSettlementTimeout : string := "settlement_timeout".
Definition ReasonSettlementCancelled : string := "settlement_cancelled".
Definition ReasonProcessAlive : string := "process_alive".
Definition ReasonListenerAlive : string := "listener_alive".
Definition ReasonIdentityUnverified : string := "identity_unverified".

Record StoppedSettlement := mkSettlement {
  ss_TaskName : string; ss_State : string; ss_Reason : string;
  ss_CurrentPID : Z; ss_PIDGeneration : Z; ss_Error : string;
}.
Definition with_error (msg : string) (r : StoppedSettlement) : StoppedSettlement :=
  mkSettlement (ss_TaskName r) (ss_State r) (ss_Reason r) (ss_CurrentPID r) (ss_PIDGeneration r) msg.
Definition incomplete (task : string) (gen : Z) (msg : string) : StoppedSettlement :=
  mkSettlement task StoppedSettlementIncomplete ReasonIdentityUnverified 0 gen msg.

Definition stopSettlementFailureForResult (r : StoppedSettlement) : string :=
  if ss_Reason r =s ReasonProcessAlive then "process_alive"
  else if ss_Reason r =s ReasonListenerAlive then "listener_alive"
  else if ss_Reason r =s ReasonSettlementTimeout then "settlement_timeout"
  else if ss_Reason r =s ReasonSettlementCancelled then "settlement_cancelled"
  else "identity_unverified".

Definition context_Canceled : error := sentinel "context.Canceled" "context canceled".
Definition stoppedSettlementContextResult (base : StoppedSettlement) (err : error) : StoppedSettlement :=
  mkSettlement (ss_TaskName base) StoppedSettlementIncomplete
    (if errors_Is err context_Canceled then ReasonSettlementCancelled else ReasonSettlementTimeout)
    (ss_CurrentPID base) (ss_PIDGeneration base) (err_text err).

(** ** Polling *)

(** The descriptor of a target, with its resolved port, or the final result. *)
Definition observeStopBatchTarget (resolve : manifestPortDeadlineResolveFn) (c : controller) (target : StopBatchTargetV1)
    : SupervisorDaemon + StoppedSettlement :=
  let failed (msg : string) :=
    mkSettlement (tg_TaskName target) StoppedSettlementFailed ReasonIdentityUnverified 0 0 msg in
  if (tg_TaskName target =s "") || (tg_ExpectedPort target <=? 0) || (65535 <? tg_ExpectedPort target)
  then inr (failed "invalid stopped settlement target")
  else
    match LookupCanonical c (tg_TaskName target) with
    | None => inr (failed "task descriptor absent from supervisor intent")
    | Some d =>
        match EffectiveDaemonPort d resolve with
        | Some port =>
            if negb (port =? tg_ExpectedPort target) ||
               negb (canonicalSupervisorTaskName (sd_TaskName d) =s canonicalSupervisorTaskName (tg_TaskName target))
            then inr (failed "task descriptor does not match requested stop generation")
            else inl (with_port d port)
        | None => inr (failed "task descriptor does not match requested stop generation")
        end
    end.

(** What one round of polling observes: the snapshot of the port owners, the
    two reads of the tracker for a task, and how the wait after it ends. *)
Record settle_round := mkRound {
  rd_owners : res (gmap Z Z);
  rd_gets : string -> option DaemonRuntimeEntry * option DaemonRuntimeEntry;
  rd_wait : option error;
}.

Record settle_row := mkRow {
  rw_target : StopBatchTargetV1; rw_port : Z; rw_pending : bool; rw_result : StoppedSettlement;
}.

(** One pending target in one round. *)
Definition settle_target (rd : settle_round) (row : settle_row) : settle_row :=
  if negb (rw_pending row) then row
  else
    let task := tg_TaskName (rw_target row) in
    let keep (r : StoppedSettlement) := mkRow (rw_target row) (rw_port row) true r in
    match rd_gets rd task with
    | (None, _) => keep (with_error "runtime generation not observed" (rw_result row))
    | (Some before, None) => keep (with_error "runtime generation replaced during stop settlement" (rw_result row))
    | (Some before, Some after) =>
        if negb (te_PIDGeneration after =? te_PIDGeneration before)
        then keep (with_error "runtime generation replaced during stop settlement" (rw_result row))
        else if negb (te_CurrentPID after =? 0) ||
                (negb (te_State after =s daemonRuntimeStateIdle) && negb (te_State after =s daemonRuntimeStateQuarantine))
        then keep (mkSettlement task StoppedSettlementFailed ReasonProcessAlive (te_CurrentPID after)
                     (te_PIDGeneration after) "controller runtime has not reached idle")
        else
          match rd_owners rd with
          | Err e => keep (incomplete task (te_PIDGeneration after) ("probe stopped listener: " +:+ err_text e))
          | Ok owners =>
              match owners !! rw_port row with
              | Some ownerPID =>
                  if 0 <? ownerPID
                  then keep (mkSettlement task StoppedSettlementFailed ReasonListenerAlive ownerPID
                               (te_PIDGeneration after) "expected listener remains bound")
                  else mkRow (rw_target row) (rw_port row) false
                         (mkSettlement task StoppedSettlementStopped ReasonStopped 0 (te_PIDGeneration after) "")
              | None => mkRow (rw_target row) (rw_port row) false
                          (mkSettlement task StoppedSettlementStopped ReasonStopped 0 (te_PIDGeneration after) "")
              end
          end
    end.

Definition settle_timeout (err : error) (row : settle_row) : settle_row :=
  if rw_pending row && negb (ss_State (rw_result row) =s StoppedSettlementFailed)
  then mkRow (rw_target row) (rw_port row) (rw_pending row) (stoppedSettlementContextResult (rw_result row) err)
  else row.

(** The polling loop over the rounds that happen; [None]: it is still
    polling after them. *)
Fixpoint settle_rounds (rounds : list settle_round) (rows : list settle_row) : option (list settle_row) :=
  if negb (existsb rw_pending rows) then Some rows
  else
    match rounds with
    | [] => None
    | rd :: rest =>
        let rows := List.map (settle_target rd) rows in
        if negb (existsb rw_pending rows) then Some rows
        else
          match rd_wait rd with
          | Some err => Some (List.map (settle_timeout err) rows)
          | None => settle_rounds rest rows
          end
    end.

Definition start_row (resolve : manifestPortDeadlineResolveFn) (c : controller) (target : StopBatchTargetV1) : settle_row :=
  match observeStopBatchTarget resolve c target with
  | inl d => mkRow target (sd_Port d) true (incomplete (tg_TaskName target) 0 "")
  | inr r => mkRow target 0 false r
  end.

(** [settleStopBatchTargets] up to its deferred finalization: [barrier] is
    how the wait for the loop's barrier ends. *)
Definition observe_stop_batch (resolve : manifestPortDeadlineResolveFn) (c : controller) (barrier : option error)
    (rounds : list settle_round) (targets : list StopBatchTargetV1)
    : option (list (StopBatchTargetV1 * StoppedSettlement)) :=
  let blank (target : StopBatchTargetV1) := incomplete (tg_TaskName target) 0 "" in
  match targets with
  | [] => Some []
  | _ =>
      match barrier with
      | Some err => Some (List.map (fun t => (t, stoppedSettlementContextResult (blank t) err)) targets)
      | None =>
          option_map (List.map (fun row => (rw_target row, rw_result row)))
            (settle_rounds rounds (List.map (start_row resolve c) targets))
      end
  end.

(** ** Finalization *)

(** A goroutine's sequence of calls on the tracker, each atomic. *)
Inductive sprog :=
| SRet (r : StoppedSettlement)
| SReceipt (task : string) (k : option StopSettlementReceiptV1 -> sprog)
| SAdvance (expected : StopSettlementReceiptV1) (phase failureClass failureDetail : string)
    (k : res StopSettlementReceiptV1 -> sprog)
| SRemove (expected : StopSettlementReceiptV1) (k : res unit -> sprog)
| SArm (task : string) (k : sprog).

Definition finalizeStoppedSettlementReceipt (statePath : string) (target : StopBatchTargetV1)
    (result : StoppedSettlement) : sprog :=
  let task := tg_TaskName target in
  let report_failure (gen : Z) (msg : string) (err : error) : sprog :=
    SArm task (SRet (incomplete task gen (msg +:+ err_text err))) in
  (** the receipt may be gone: another stop committed the same removal *)
  let unless_gone (otherwise : sprog) : sprog :=
    SReceipt task (fun pending => match pending with None => SRet result | Some _ => otherwise end) in
  let gen := ss_PIDGeneration result in
  if is_blank statePath then SRet result
  else
    SReceipt (canonicalSupervisorTaskName task) (fun pending =>
      match pending with
      | None => SRet result
      | Some receipt =>
          if ss_State result =s StoppedSettlementFailed then
            if sr_Phase receipt =s StopSettlementPhaseFailed then SArm task (SRet result)
            else
              SAdvance receipt StopSettlementPhaseFailed (stopSettlementFailureForResult result) (ss_Error result)
                (fun r => match r with
                          | Err e => report_failure 0 "persist failed stop settlement: " e
                          | Ok _ => SArm task (SRet result)
                          end)
          else if negb (ss_State result =s StoppedSettlementStopped) || negb (ss_Reason result =s ReasonStopped)
          then SRet result
          else if sr_Phase receipt =s StopSettlementPhasePortReleased then
            SRemove receipt (fun r =>
              match r with
              | Ok _ => SRet result
              | Err e => unless_gone (report_failure gen "commit recovered stop settlement: " e)
              end)
          else if negb (sr_Phase receipt =s StopSettlementPhaseExitObserved)
          then SRet (incomplete task gen "stop receipt has no exact child-exit observation")
          else
            SAdvance receipt StopSettlementPhasePortReleased "" "" (fun r =>
              match r with
              | Err e =>
                  let failed := report_failure gen "persist released stop listener: " e in
                  SReceipt task (fun current =>
                    match current with
                    | None => SRet result
                    | Some current =>
                        if sr_Phase current =s StopSettlementPhasePortReleased then
                          SRemove current (fun r =>
                            match r with
                            | Ok _ => SRet result
                            | Err _ => unless_gone failed
                            end)
                        else failed
                    end)
              | Ok released =>
                  SRemove released (fun r =>
                    match r with
                    | Ok _ => SRet result
                    | Err e => unless_gone (report_failure gen "commit stop settlement: " e)
                    end)
              end)
      end).

Section Settle.
Context `{Digest}.

(** One step: a call of the program, or anything another goroutine does. *)
Inductive settle_step (path : string) : sys * sprog -> sys * sprog -> Prop :=
| settle_receipt s task k :
    settle_step path (s, SReceipt task k) (s, k (StopSettlementReceipt (tr s) task))
| settle_advance t d expected phase fc fd k i ops t' d' r :
    io_clean i -> Forall op_ok ops ->
    AdvanceStopSettlement t path i d expected phase fc fd (apply_ops ops) = (t', d', r) ->
    settle_step path (mkSys t d, SAdvance expected phase fc fd k) (mkSys t' d', k r)
| settle_remove t d expected k i ops t' d' r :
    io_clean i -> Forall op_ok ops ->
    RemoveStopSettlement t path i d expected (apply_ops ops) = (t', d', r) ->
    settle_step path (mkSys t d, SRemove expected k) (mkSys t' d', k r)
| settle_arm s task k : settle_step path (s, SArm task k) (s, k)
| settle_other s s' p : sys_step s s' -> settle_step path (s, p) (s', p).

(** The same program alone, with writes that succeed. *)
Fixpoint settle_alone (path : string) (p : sprog) (s : sys) : sys * StoppedSettlement :=
  match p with
  | SRet r => (s, r)
  | SReceipt task k => settle_alone path (k (StopSettlementReceipt (tr s) task)) s
  | SAdvance expected phase fc fd k =>
      let '(t, d, r) := AdvanceStopSettlement (tr s) path io_ok (dk s) expected phase fc fd (apply_ops []) in
      settle_alone path (k r) (mkSys t d)
  | SRemove expected k =>
      let '(t, d, r) := RemoveStopSettlement (tr s) path io_ok (dk s) expected (apply_ops []) in
      settle_alone path (k r) (mkSys t d)
  | SArm _ k => settle_alone path k s
  end.

(** The deferred loop over the targets of the batch. *)
Fixpoint finalize_all (path : string) (observed : list (StopBatchTargetV1 * StoppedSettlement)) (s : sys)
    : sys * list StoppedSettlement :=
  match observed with
  | [] => (s, [])
  | (target, result) :: rest =>
      let '(s, r) := settle_alone path (finalizeStoppedSettlementReceipt path target result) s in
      let '(s, rs) := finalize_all path rest s in
      (s, r :: rs)
  end.
End Settle.

(** ** Properties *)

(** *** Polling *)

(** What makes a round final for a target: the process is gone and its port
    is not held. *)
Definition settled_in (rd : settle_round) (port : Z) (task : string) : Prop :=
  exists before after owners, rd_gets rd task = (Some before, Some after) /\
    te_PIDGeneration after = te_PIDGeneration before /\ te_CurrentPID after = 0 /\
    (te_State after = daemonRuntimeStateIdle \/ te_State after = daemonRuntimeStateQuarantine) /\
    rd_owners rd = Ok owners /\ (forall pid, owners !! port = Some pid -> pid <= 0).

Definition stopped_result (r : StoppedSettlement) : Prop :=
  ss_State r = StoppedSettlementStopped /\ ss_Reason r = ReasonStopped.

(** A row is pending, or its target is stopped on the evidence of some round
    in [rounds]. *)
Definition row_ok (rounds : list settle_round) (row : settle_row) : Prop :=
  rw_pending row = true \/
  (stopped_result (rw_result row) /\ ss_TaskName (rw_result row) = tg_TaskName (rw_target row) /\
   exists rd, rd ∈ rounds /\ settled_in rd (rw_port row) (tg_TaskName (rw_target row))).

Lemma settle_target_ok seen rd row :
  row_ok seen row -> row_ok (seen ++ [rd]) (settle_target rd row).
Proof.
  unfold settle_target, row_ok. intros Hr. destruct (negb (rw_pending row)) eqn:Hp.
  { right. breflect. destruct Hr as [?|(Hs&Ht&rd'&Hin&Hse)]; [congruence|].
    split_and!; [done|done|]. exists rd'. split; [apply elem_of_app; by left|done]. }
  destruct (rd_gets rd _) as [[before|] [after|]] eqn:Hg; try by left.
  destruct (negb (te_PIDGeneration after =? _)) eqn:H1; [by left|].
  destruct (_ || _) eqn:H2; [by left|]. destruct (rd_owners rd) as [owners|] eqn:Ho; [|by left].
  assert ((forall pid, owners !! rw_port row = Some pid -> pid <= 0) ->
    exists rd', rd' ∈ seen ++ [rd] /\ settled_in rd' (rw_port row) (tg_TaskName (rw_target row))) as Hd.
  { intros Hf. exists rd. split; [apply elem_of_app; right; by left|]. exists before, after, owners. breflect.
    split_and!; [done|done|tauto| |done|done]. destruct H2 as [_ [?|?]]; auto. }
  destruct (owners !! rw_port row) as [pid|] eqn:Hpid.
  - destruct (Z.ltb_spec 0 pid); [by left|]. right. split_and!; [done|done|]. apply Hd. intros ? [= <-]. lia.
  - right. split_and!; [done|done|]. by apply Hd.
Qed.

Lemma settle_target_final rd row :
  settled_in rd (rw_port row) (tg_TaskName (rw_target row)) -> rw_pending (settle_target rd row) = false.
Proof.
  intros (before&after&owners&Hg&Hgen&Hpid&Hst&Ho&Hport). unfold settle_target.
  destruct (rw_pending row) eqn:Hp; [|done]. cbn [negb]. rewrite Hg, Hgen, Z.eqb_refl, Hpid, Ho. cbn [negb orb].
  replace (_ && _) with false by (destruct Hst as [-> | ->]; done).
  destruct (owners !! rw_port row) as [pid|]; [|done]. specialize (Hport pid eq_refl).
  by destruct (Z.ltb_spec 0 pid); [lia|].
Qed.

Lemma settle_target_frame rd row :
  rw_target (settle_target rd row) = rw_target row /\ rw_port (settle_target rd row) = rw_port row.
Proof. unfold settle_target. repeat case_match; done. Qed.

(** The loop returns at the latest in a round in which every target is
    settled, and then every target is stopped. *)
Lemma settle_rounds_final early final later seen rows :
  Forall (fun rd => rd_wait rd = None) early ->
  Forall (fun row => row_ok seen row /\ settled_in final (rw_port row) (tg_TaskName (rw_target row))) rows ->
  exists rows', settle_rounds (early ++ final :: later) rows = Some rows' /\
    rw_target <$> rows' = rw_target <$> rows /\
    Forall (fun row => rw_pending row = false /\ row_ok (seen ++ early ++ [final]) row) rows'.
Proof.
  assert (forall rows, existsb rw_pending rows = false -> Forall (fun row => rw_pending row = false) rows) as Hnone.
  { intros l Hl. apply Forall_forall. intros row Hrow. apply not_true_iff_false. intros Hp.
    apply not_true_iff_false in Hl. apply Hl. apply existsb_exists. exists row. by rewrite <- list_elem_of_In. }
  assert (forall rd l, rw_target <$> List.map (settle_target rd) l = rw_target <$> l) as Htargets.
  { intros rd l. induction l as [|row l IHl]; [done|]. cbn. f_equal; [apply settle_target_frame|done]. }
  assert (forall seen more rows, Forall (row_ok seen) rows -> Forall (row_ok (seen ++ more)) rows) as Hmore.
  { intros sn more l Hl. eapply Forall_impl; [exact Hl|]. intros row [?|(?&?&rd&?&?)]; [by left|right].
    split_and!; [done|done|]. exists rd. split; [apply elem_of_app; by left|done]. }
  revert seen rows. induction early as [|rd early IH]; intros seen rows He Hrows; cbn [app settle_rounds].
  - apply Forall_and in Hrows as [Hok Hfin].
    destruct (existsb rw_pending rows) eqn:Hp; cbn [negb].
    + assert (existsb rw_pending (List.map (settle_target final) rows) = false) as Hd.
      { apply not_true_iff_false. rewrite existsb_exists. intros (r&(row&<-&Hrow)%in_map_iff&Hpr).
        rewrite Forall_forall in Hfin. rewrite settle_target_final in Hpr; [done|].
        apply Hfin. by apply list_elem_of_In. }
      rewrite Hd. eexists. split; [done|]. split; [apply Htargets|].
      apply Forall_and. split; [by apply Hnone|]. apply List.Forall_map.
      eapply Forall_impl; [exact Hok|]. intros row Hr. cbn. by apply settle_target_ok.
    + eexists. split; [done|]. split; [done|]. apply Forall_and. split; [by apply Hnone|]. by apply Hmore.
  - apply Forall_cons in He as [Hw He].
    destruct (existsb rw_pending rows) eqn:Hp; cbn [negb].
    2: { eexists. split; [done|]. split; [done|]. apply Forall_and in Hrows as [Hok _]. apply Forall_and.
         split; [by apply Hnone|]. by apply Hmore. }
    assert (Forall (fun row => row_ok (seen ++ [rd]) row /\ settled_in final (rw_port row) (tg_TaskName (rw_target row)))
      (List.map (settle_target rd) rows)) as Hrows'.
    { apply List.Forall_map. eapply Forall_impl; [exact Hrows|]. intros row [Hok Hf]. cbn.
      destruct (settle_target_frame rd row) as [-> ->]. split; [by apply settle_target_ok|done]. }
    assert (rw_target <$> List.map (settle_target rd) rows = rw_target <$> rows) as Ht.
    { apply Htargets. }
    destruct (existsb rw_pending (List.map (settle_target rd) rows)) eqn:Hp2; cbn [negb].
    + rewrite Hw. destruct (IH (seen ++ [rd]) _ He Hrows') as (rows'&E&T&F). exists rows'. rewrite E, T, Ht.
      split_and!; [done|done|]. by rewrite <- app_assoc in F.
    + eexists. split; [done|]. split; [done|]. apply Forall_and in Hrows' as [Hok _]. apply Forall_and.
      split; [by apply Hnone|]. apply (Hmore _ (early ++ [final])) in Hok. by rewrite <- app_assoc in Hok.
Qed.

Section Properties.
Context `{DigestLaws}.

(** *** Finalization, interleaved with the rest of the supervisor *)

(** Receipts in memory are filed under the task they name, fence or not. *)
Definition keyed (t : DaemonRuntimeTracker) : Prop := map_Forall (fun k r => sr_TaskName r = k) (t_stopSettlements t).

Lemma keyed_ops ops t : keyed t -> keyed (apply_ops ops t).
Proof. unfold keyed. by destruct (apply_ops_frame ops t) as [-> _]. Qed.

Lemma next_receipt_name r phase fc fd n : nextStopSettlementReceipt r phase fc fd = Ok n -> sr_TaskName n = sr_TaskName r.
Proof. intros [->|[(_&_&_&->)|[(_&_&->)|(_&_&_&->&_)]]]%next_receipt_cases; done. Qed.

Lemma advance_keyed t path i d expected phase fc fd ops t' d' r :
  keyed t -> AdvanceStopSettlement t path i d expected phase fc fd (apply_ops ops) = (t', d', r) ->
  keyed t' /\ (forall n, r = Ok n -> sr_TaskName n = sr_TaskName expected).
Proof.
  intros Hk. pose proof (keyed_ops ops t Hk) as Hk2. unfold AdvanceStopSettlement.
  case_match; [by intros [= <- <- <-]|]. case_match; [by intros [= <- <- <-]|]. case_match; [by intros [= <- <- <-]|].
  destruct (nextStopSettlementReceipt _ _ _ _) as [next|] eqn:En; [|by intros [= <- <- <-]].
  apply next_receipt_name in En.
  case_match; [by intros [= <- <- <-]; split; [|intros n [= <-]]|].
  destruct (MutateSupervisorState _ _ _ _) as [[u|e] d1]; [|by intros [= <- <- <-]].
  case_match; intros [= <- <- <-]; [done|]. split; [|by intros n [= <-]].
  unfold keyed. simpl. by apply map_Forall_insert_2.
Qed.

Lemma remove_keyed t path i d expected ops t' d' r :
  keyed t -> RemoveStopSettlement t path i d expected (apply_ops ops) = (t', d', r) ->
  keyed t' /\ (r = Ok tt -> t_stopSettlements t' !! sr_TaskName expected = None).
Proof.
  intros Hk. pose proof (keyed_ops ops t Hk) as Hk2. unfold RemoveStopSettlement.
  case_match; [by intros [= <- <- <-]|]. case_match; [by intros [= <- <- <-]|]. case_match; [by intros [= <- <- <-]|].
  destruct (MutateSupervisorState _ _ _ _) as [[u|e] d1]; [|by intros [= <- <- <-]].
  case_match; intros [= <- <- <-]; [done|]. split; [by apply map_Forall_delete|].
  intros _. apply lookup_delete_eq.
Qed.

Lemma reachable_keyed s : reachable s -> keyed (tr s).
Proof.
  induction 1 as [|s s' Hr IH Hstep]; [by intros ??|]. destruct Hstep; simpl in *.
  - by apply (keyed_ops [op]).
  - pose proof (keyed_ops ops t IH) as Hk. match goal with Hb : BeginStopSettlementBatch _ _ _ _ _ _ _ = _ |- _ => apply Begin_cases in Hb as Hc end.
    destruct Hc as [(->&_)|(adm&q&_&_&_&_&Hq)]; [done|].
    destruct q as [rs|e]; [|by destruct Hq as [-> _]].
    apply install_batch_cases in Hq as [(_&_&->)|(_&_&E&_)]; [|by unfold keyed; rewrite E].
    unfold keyed. destruct (install_batch_fields (apply_ops ops t) rs) as [-> _].
    apply (insert_receipts_all (fun k r => sr_TaskName r = k)); [done|]. by apply Forall_forall.
  - by eapply advance_keyed.
  - by eapply remove_keyed.
  - done.
  - apply reachable_inv in Hr as (_&Hd&_). simpl in Hd.
    unfold loadDaemonRuntimeTrackerFromStatePath in *. destruct d as [f|]; simplify_eq/=; [|by intros ??].
    destruct Hd as (Hrows&Hda&Hm&He&_). destruct (hydrate_fresh f Hrows Hda Hm ltac:(lia)) as (_&E&_).
    unfold keyed. rewrite E. intros k r Hk. by apply Hrows in Hk as (_&?&_).
Qed.

(** The program reports [result] only on a path on which the receipt filed
    under [k] was seen absent ([gone]). *)
Fixpoint commits (k : string) (result : StoppedSettlement) (gone : bool) (p : sprog) : Prop :=
  match p with
  | SRet r => r = result -> gone = true
  | SReceipt task next =>
      canonicalSupervisorTaskName task = k /\ commits k result true (next None) /\
      forall r, sr_TaskName r = k -> commits k result gone (next (Some r))
  | SAdvance expected phase fc fd next =>
      sr_TaskName expected = k /\ phase <> StopSettlementPhaseFailed /\
      (forall n, sr_TaskName n = k -> commits k result gone (next (Ok n))) /\
      (forall e, commits k result gone (next (Err e)))
  | SRemove expected next =>
      sr_TaskName expected = k /\ commits k result true (next (Ok tt)) /\
      (forall e, commits k result gone (next (Err e)))
  | SArm _ next => commits k result gone next
  end.

Lemma finalize_commits path target result :
  is_blank path = false -> stopped_result result ->
  commits (canonicalSupervisorTaskName (tg_TaskName target)) result false
    (finalizeStoppedSettlementReceipt path target result).
Proof.
  intros Hpath (Hs&Hr). unfold finalizeStoppedSettlementReceipt. rewrite Hpath, Hs, Hr. simpl.
  assert (forall gen msg, incomplete (tg_TaskName target) gen msg = result -> false = true) as Hne.
  { intros gen msg E. subst result. discriminate Hs. }
  split; [apply canonical_idem|]. split; [done|]. intros r Hk.
  destruct (_ =s StopSettlementPhasePortReleased).
  { simpl. repeat split; eauto. }
  destruct (negb _); [simpl; eauto|]. simpl. split; [done|]. split; [done|]. split; [by repeat split; eauto|].
  intros e. split; [done|]. split; [done|]. intros cur Hcur.
  destruct (_ =s _); simpl; repeat split; eauto.
Qed.

(** One step keeps the promise, and is a step of the durable system. *)
Lemma settle_step_commits path k result s p s' p' gone :
  reachable s -> settle_step path (s, p) (s', p') -> commits k result gone p ->
  (s' = s \/ sys_step s s') /\
  exists gone', commits k result gone' p' /\
    (gone' = gone \/ (t_stopSettlements (tr s') !! k = None)).
Proof.
  intros Hreach Hstep Hp. pose proof (reachable_keyed s Hreach) as Hk. inversion Hstep; subst; simpl in *.
  - destruct Hp as (E&Hnone&Hsome). split; [by left|]. unfold StopSettlementReceipt. rewrite E.
    destruct (t_stopSettlements (tr s') !! k) as [r|] eqn:El; [|by exists true; auto].
    exists gone. split; [apply Hsome; by apply Hk in El|by left].
  - destruct Hp as (E&Hph&Hok&Herr). split; [right; by eapply step_advance|].
    match goal with Hadv : AdvanceStopSettlement _ _ _ _ _ _ _ _ _ = _ |- _ =>
      destruct (advance_keyed _ _ _ _ _ _ _ _ _ _ _ _ Hk Hadv) as [_ Hn] end.
    exists gone. split; [|by left]. destruct r as [n|e]; [|done]. apply Hok. by rewrite (Hn n eq_refl).
  - destruct Hp as (<-&Hok&Herr). split; [right; by eapply step_remove|].
    match goal with Hrm : RemoveStopSettlement _ _ _ _ _ _ = _ |- _ =>
      destruct (remove_keyed _ _ _ _ _ _ _ _ _ Hk Hrm) as [_ Hn] end.
    destruct r as [[]|e]; [exists true; auto|exists gone; auto].
  - split; [by left|]. eauto.
  - split; [by right|]. eauto.
Qed.

(** C4: a stop is reported only once it is durable.  Whatever the rest of the
    supervisor does between the calls of the finalization (lifecycle marks,
    other stop batches before a PID generation has wrapped, transitions,
    removals, persists, crashes and restarts) and whichever of its own writes fail, the run moves tracker
    and file only by steps of the durable system, and if it reports the
    target stopped, then at some moment of the run no receipt for the task
    was pending. *)
Theorem stopped_means_committed path target result s s' :
  is_blank path = false -> stopped_result result -> reachable s ->
  rtc (settle_step path) (s, finalizeStoppedSettlementReceipt path target result) (s', SRet result) ->
  exists s1, rtc sys_step s s1 /\ rtc sys_step s1 s' /\
    t_stopSettlements (tr s1) !! canonicalSupervisorTaskName (tg_TaskName target) = None.
Proof.
  intros Hpath Hres Hreach Hrun. set (k := canonicalSupervisorTaskName (tg_TaskName target)).
  pose proof (finalize_commits path target result Hpath Hres) as Hp. fold k in Hp.
  remember (s, finalizeStoppedSettlementReceipt path target result) as c0 eqn:E0.
  assert (forall c, rtc (settle_step path) c (s', SRet result) -> forall gone s2 p, c = (s2, p) -> reachable s2 ->
    rtc sys_step s s2 -> commits k result gone p ->
    (gone = true -> exists s1, rtc sys_step s s1 /\ rtc sys_step s1 s2 /\ t_stopSettlements (tr s1) !! k = None) ->
    exists s1, rtc sys_step s s1 /\ rtc sys_step s1 s' /\ t_stopSettlements (tr s1) !! k = None) as Hgen.
  { clear -H0. intros c Hc. remember (s', SRet result) as cf eqn:Ef. induction Hc as [c|c c2 cf Hstep _ IH]; intros gone s2 p -> Hr Hs Hp Hg.
    - injection Ef as -> ->. apply Hg. by apply Hp.
    - destruct c2 as [s3 p3]. destruct (settle_step_commits _ _ _ _ _ _ _ _ Hr Hstep Hp) as (Hs3&gone'&Hp3&Hg3).
      assert (rtc sys_step s2 s3) as H23 by (destruct Hs3 as [->|?]; [done|by apply rtc_once]).
      eapply (IH Ef gone' s3 p3); [done| |by etrans|done|].
      + destruct Hs3 as [->|?]; [done|by eapply reach_step].
      + intros Hgt. destruct Hg3 as [->|Hnone]; [|exists s3; split_and!; [by etrans|done|done]].
        destruct (Hg Hgt) as (s1&?&?&?). exists s1. split_and!; [done|by etrans|done]. }
  subst c0. eapply (Hgen _ Hrun false); done.
Qed.

(** A receipt whose port is already released needs one removal. *)
Lemma committing_run path target result s s' r :
  is_blank path = false -> stopped_result result ->
  t_stopSettlements (tr s) !! canonicalSupervisorTaskName (tg_TaskName target) = Some r ->
  sr_Phase r = StopSettlementPhasePortReleased ->
  RemoveStopSettlement (tr s) path io_ok (dk s) r (apply_ops []) = (tr s', dk s', Ok tt) ->
  rtc (settle_step path) (s, finalizeStoppedSettlementReceipt path target result) (s', SRet result).
Proof.
  intros Hpath (Hs&Hr) Hrow Hph Hrm. unfold finalizeStoppedSettlementReceipt. rewrite Hpath.
  eapply rtc_l; [apply settle_receipt|]. unfold StopSettlementReceipt at 1.
  rewrite (canonical_idem (tg_TaskName target) : canonicalSupervisorTaskName _ = _), Hrow, Hs, Hr, Hph. cbn.
  eapply rtc_l; [|apply rtc_refl]. destruct s, s'.
  exact (settle_remove path _ _ r _ io_ok [] _ _ _ I (List.Forall_nil _) Hrm).
Qed.

(** *** Finalization that runs alone *)
Definition map_generation (d : option SupervisorStateFile) : Z :=
  match d with Some f => sf_StopSettlementMapGeneration f | None => 0 end.

Lemma replace_succeeds path d expected next :
  is_blank path = false -> rows_of d !! sr_TaskName expected = Some expected ->
  0 <= map_generation d < u64_max ->
  exists d', MutateSupervisorState path io_ok d (replace_mutation expected next) = (Ok tt, d') /\
    map_generation d' = map_generation d + 1.
Proof.
  intros Hpath Hrow Hgen. unfold MutateSupervisorState, prepareSupervisorStateMutation, replace_mutation.
  rewrite Hpath, default_rows, (proj2 (settlement_current_spec _ _) Hrow). simpl.
  assert (forall f, sf_StopSettlementMapGeneration (normalizeSupervisorStateForMutation f) = sf_StopSettlementMapGeneration f) as Hn
    by (intros f; unfold normalizeSupervisorStateForMutation; by case_match).
  assert (sf_StopSettlementMapGeneration (normalizeSupervisorStateForMutation (default empty_state_file d)) = map_generation d) as Hd
    by (rewrite Hn; by destruct d).
  unfold advanceStopSettlementMapMetadata. simpl. rewrite Hd, (proj2 (Z.eqb_neq _ _)) by lia. simpl.
  eexists. split; [done|]. simpl. rewrite Hn. simpl. rewrite Hd. apply u64_add_small; unfold u64_max, u64_modulus in *; lia.
Qed.

(** A pending receipt, in a state without a fence. *)
Definition pending_at (s : sys) (r : StopSettlementReceiptV1) : Prop :=
  sys_inv s /\ t_stopSettlementIntegrityErr (tr s) = "" /\ t_stopSettlements (tr s) !! sr_TaskName r = Some r.

Lemma pending_row s r : pending_at s r ->
  rows_of (dk s) !! sr_TaskName r = Some r /\ receipt_ok (sr_TaskName r) r /\
  0 <= map_generation (dk s) /\ sr_Revision r <= map_generation (dk s).
Proof.
  intros ((_&Hd&_&Hrows)&Hf&Hr). specialize (Hrows Hf). rewrite Hrows in Hr. split; [done|].
  destruct s as [t [f|]]; simpl in *; [|by rewrite lookup_empty in Hr].
  destruct Hd as (Hok&_&_&_&Hu&Hb). apply Hb in Hr as Hb1. unfold is_u64 in Hu. split_and!; [by apply Hok|lia|lia].
Qed.

Lemma advance_alone path s r :
  is_blank path = false -> pending_at s r -> sr_Phase r = StopSettlementPhaseExitObserved ->
  map_generation (dk s) < u64_max ->
  exists s' n, AdvanceStopSettlement (tr s) path io_ok (dk s) r StopSettlementPhasePortReleased "" "" (apply_ops [])
      = (tr s', dk s', Ok n) /\
    pending_at s' n /\ sr_TaskName n = sr_TaskName r /\ sr_Phase n = StopSettlementPhasePortReleased /\
    t_stopSettlements (tr s') = <[sr_TaskName r := n]> (t_stopSettlements (tr s)) /\
    map_generation (dk s') = map_generation (dk s) + 1.
Proof.
  intros Hpath Hp Hph Hgen. destruct (pending_row s r Hp) as (Hrow&Hok&Hg0&Hrev). destruct Hp as (Hinv&Hf&Hr).
  destruct Hok as (Hk&_&Hv&Hu&_&_). destruct (valid_counters r Hv) as [_ Ha0].
  destruct (u64_next (sr_Revision r) Hu ltac:(lia)) as (Er&_&Hr0).
  destruct (valid_live_clean r Hv ltac:(rewrite Hph; done)) as (Efc&Efd&Ers).
  assert (validStopSettlementReceipt (advanced_receipt r StopSettlementPhasePortReleased) = true) as Hvn.
  { apply (valid_change r); simpl; rewrite ?Er; try done; [token|]. rewrite Ers. simpl. by rewrite orb_true_r. }
  assert (nextStopSettlementReceipt r StopSettlementPhasePortReleased "" "" =
    Ok (advanced_receipt r StopSettlementPhasePortReleased)) as En.
  { unfold nextStopSettlementReceipt. rewrite Hph. unfold advanced_receipt in *.
    cbn -[validStopSettlementReceipt] in Hvn |- *. by rewrite Hvn. }
  assert (sameStopSettlementRevision (advanced_receipt r StopSettlementPhasePortReleased) r = false) as Hsame.
  { unfold sameStopSettlementRevision. apply str_eqb_false. intros E%receipt_digest_inj.
    apply (f_equal sr_Phase) in E. rewrite Hph in E. done. }
  destruct (replace_succeeds path (dk s) r (Some (advanced_receipt r StopSettlementPhasePortReleased)) Hpath Hrow ltac:(lia))
    as (d'&Em&Eg).
  assert (AdvanceStopSettlement (tr s) path io_ok (dk s) r StopSettlementPhasePortReleased "" "" (apply_ops []) =
    (tr s <| t_stopSettlements ::= insert (sr_TaskName r) (advanced_receipt r StopSettlementPhasePortReleased) |>, d',
     Ok (advanced_receipt r StopSettlementPhasePortReleased))) as E.
  { unfold AdvanceStopSettlement. rewrite Hpath, Hv, (proj2 (settlement_current_spec _ _) Hr), En, Hsame, Em. simpl.
    by rewrite (proj2 (settlement_current_spec _ _) Hr). }
  exists (mkSys (tr s <| t_stopSettlements ::= insert (sr_TaskName r) (advanced_receipt r StopSettlementPhasePortReleased) |>) d').
  eexists. split; [exact E|]. split_and!; try done. split_and!; [|done|].
  - destruct s. by eapply inv_advance in E.
  - simpl. apply lookup_insert_eq.
Qed.

Lemma remove_alone path s r :
  is_blank path = false -> pending_at s r -> sr_Phase r = StopSettlementPhasePortReleased ->
  map_generation (dk s) < u64_max ->
  exists s', RemoveStopSettlement (tr s) path io_ok (dk s) r (apply_ops []) = (tr s', dk s', Ok tt) /\
    sys_inv s' /\ t_stopSettlementIntegrityErr (tr s') = "" /\
    t_stopSettlements (tr s') = delete (sr_TaskName r) (t_stopSettlements (tr s)) /\
    map_generation (dk s') = map_generation (dk s) + 1.
Proof.
  intros Hpath Hp Hph Hgen. destruct (pending_row s r Hp) as (Hrow&(_&_&Hv&_)&Hg0&_). destruct Hp as (Hinv&Hf&Hr).
  destruct (replace_succeeds path (dk s) r None Hpath Hrow ltac:(lia)) as (d'&Em&Eg).
  assert (RemoveStopSettlement (tr s) path io_ok (dk s) r (apply_ops []) =
    (tr s <| t_stopSettlements ::= delete (sr_TaskName r) |>, d', Ok tt)) as E.
  { unfold RemoveStopSettlement. rewrite Hpath, Hv, Hph, (proj2 (settlement_current_spec _ _) Hr), Em. simpl.
    by rewrite (proj2 (settlement_current_spec _ _) Hr). }
  exists (mkSys (tr s <| t_stopSettlements ::= delete (sr_TaskName r) |>) d').
  split; [exact E|]. split_and!; try done. destruct s. by eapply inv_remove in E.
Qed.

(** A receipt that a settled target lets through. *)
Definition commitable (s : sys) (k : string) : Prop :=
  forall r, t_stopSettlements (tr s) !! k = Some r ->
  sr_Phase r = StopSettlementPhaseExitObserved \/ sr_Phase r = StopSettlementPhasePortReleased.

Lemma finalize_alone path target result s :
  is_blank path = false -> stopped_result result -> sys_inv s -> t_stopSettlementIntegrityErr (tr s) = "" ->
  commitable s (canonicalSupervisorTaskName (tg_TaskName target)) -> map_generation (dk s) + 2 <= u64_max ->
  exists s', settle_alone path (finalizeStoppedSettlementReceipt path target result) s = (s', result) /\
    sys_inv s' /\ t_stopSettlementIntegrityErr (tr s') = "" /\
    t_stopSettlements (tr s') = delete (canonicalSupervisorTaskName (tg_TaskName target)) (t_stopSettlements (tr s)) /\
    map_generation (dk s') <= map_generation (dk s) + 2.
Proof.
  intros Hpath (Hs&Hr) Hinv Hf Hc Hgen. set (k := canonicalSupervisorTaskName (tg_TaskName target)) in *.
  unfold finalizeStoppedSettlementReceipt. rewrite Hpath. cbn [settle_alone].
  unfold StopSettlementReceipt at 1. rewrite (canonical_idem (tg_TaskName target) : canonicalSupervisorTaskName _ = _). fold k.
  destruct (t_stopSettlements (tr s) !! k) as [r|] eqn:El.
  2: { exists s. split_and!; try done; [by rewrite delete_id|lia]. }
  assert (sr_TaskName r = k) as Hk.
  { pose proof Hinv as (_&Hd&_&Hrows). rewrite (Hrows Hf) in El. destruct s as [t [f|]]; simpl in *; [|by rewrite lookup_empty in El].
    destruct Hd as [Hd _]. by apply Hd in El as (_&?&_). }
  assert (pending_at s r) as Hp by (split_and!; [done|done|by rewrite Hk]).
  destruct (Hc r El) as [Hph|Hph]; rewrite Hs, Hr, Hph; cbn.
  - destruct (advance_alone path s r Hpath Hp Hph ltac:(lia)) as (s1&n&E1&Hp1&Hn1&Hph1&Hm1&Hg1). rewrite E1. cbn.
    replace (mkSys (tr s1) (dk s1)) with s1 by (by destruct s1).
    destruct (remove_alone path s1 n Hpath Hp1 Hph1 ltac:(lia)) as (s2&E2&Hi2&Hf2&Hm2&Hg2). rewrite E2.
    exists s2. split; [by destruct s2|]. split_and!; try done; [|lia]. rewrite Hm2, Hm1, Hn1, Hk. apply delete_insert_eq.
  - destruct (remove_alone path s r Hpath Hp Hph ltac:(lia)) as (s2&E2&Hi2&Hf2&Hm2&Hg2). rewrite E2.
    exists s2. split; [by destruct s2|]. split_and!; try done; [|lia]. by rewrite Hm2, Hk.
Qed.

Lemma finalize_all_alone path observed s :
  is_blank path = false -> Forall (fun o => stopped_result o.2) observed ->
  sys_inv s -> t_stopSettlementIntegrityErr (tr s) = "" ->
  Forall (fun o => commitable s (canonicalSupervisorTaskName (tg_TaskName o.1))) observed ->
  map_generation (dk s) + 2 * Z.of_nat (length observed) <= u64_max ->
  exists s', finalize_all path observed s = (s', observed.*2) /\ t_stopSettlementIntegrityErr (tr s') = "" /\
    (forall k, t_stopSettlements (tr s') !! k =
       if decide (k ∈ (fun o => canonicalSupervisorTaskName (tg_TaskName o.1)) <$> observed) then None
       else t_stopSettlements (tr s) !! k).
Proof.
  intros Hpath. revert s. induction observed as [|[target result] rest IH]; intros s Hst Hinv Hf Hc Hgen.
  { exists s. split_and!; try done. }
  apply Forall_cons in Hst as [Hr Hst]. apply Forall_cons in Hc as [Hc1 Hc]. cbn [length] in Hgen. cbn in Hr, Hc1.
  destruct (finalize_alone path target result s Hpath Hr Hinv Hf Hc1 ltac:(lia)) as (s1&E1&Hi1&Hf1&Hm1&Hg1).
  destruct (IH s1 Hst Hi1 Hf1) as (s2&E2&Hf2&Hm2); [|lia|].
  { eapply Forall_impl; [exact Hc|]. intros o Ho r. rewrite Hm1. intros [_ Hl]%lookup_delete_Some. by apply Ho. }
  exists s2. cbn [finalize_all]. rewrite E1, E2. split; [done|]. split; [done|]. intros k. rewrite Hm2, Hm1, fmap_cons.
  cbn [fst]. repeat case_decide; try done; try (rewrite elem_of_cons in *; tauto).
  - rewrite elem_of_cons in *. destruct (decide (k = canonicalSupervisorTaskName (tg_TaskName target))) as [->|Hne];
      [by rewrite lookup_delete_eq|tauto].
  - rewrite elem_of_cons in *. by rewrite lookup_delete_ne by (intros <-; tauto).
Qed.

(** C5: a stop batch completes.  Suppose every target names a daemon of the
    intent at its expected port, every receipt of a target is at
    exit_observed or port_released, the loop's barrier is passed, no wait of
    the polling before the last round fails, no integrity fence is up, and the
    file's generation counter has room for two writes per target.  As soon as
    one round observes every target settled (process gone, controller idle or
    quarantined, port not held), the batch returns, every target is reported
    stopped on the evidence of some round, and, alone with a state file whose
    path is not blank and whose writes succeed, the finalization removes the
    receipts of the targets, keeps all others and raises no integrity
    fence. *)
Theorem settlement_completes resolve c path s targets early final later :
  is_blank path = false -> reachable s -> t_stopSettlementIntegrityErr (tr s) = "" ->
  Forall (fun tg => exists d, observeStopBatchTarget resolve c tg = inl d /\
    settled_in final (sd_Port d) (tg_TaskName tg) /\
    commitable s (canonicalSupervisorTaskName (tg_TaskName tg))) targets ->
  Forall (fun rd => rd_wait rd = None) early ->
  map_generation (dk s) + 2 * Z.of_nat (length targets) <= u64_max ->
  exists observed s',
    observe_stop_batch resolve c None (early ++ final :: later) targets = Some observed /\
    observed.*1 = targets /\
    Forall (fun o => stopped_result o.2 /\ ss_TaskName o.2 = tg_TaskName o.1) observed /\
    finalize_all path observed s = (s', observed.*2) /\ t_stopSettlementIntegrityErr (tr s') = "" /\
    (forall k, t_stopSettlements (tr s') !! k =
       if decide (k ∈ (fun tg => canonicalSupervisorTaskName (tg_TaskName tg)) <$> targets) then None
       else t_stopSettlements (tr s) !! k).
Proof.
  intros Hpath Hreach Hf Htargets Hearly Hgen. pose proof (reachable_inv _ Hreach) as Hinv.
  assert (exists observed, observe_stop_batch resolve c None (early ++ final :: later) targets = Some observed /\
    observed.*1 = targets /\ Forall (fun o => stopped_result o.2 /\ ss_TaskName o.2 = tg_TaskName o.1) observed)
    as (observed&Eo&E1&Hall).
  { destruct targets as [|tg0 rest] eqn:Et; [by exists []|]. rewrite <- Et in *. unfold observe_stop_batch.
    destruct (settle_rounds_final early final later [] (List.map (start_row resolve c) targets) Hearly) as (rows&Er&Hrt&Hok).
    { apply List.Forall_map. eapply Forall_impl; [exact Htargets|]. intros tg (d&Hd&Hs&_). unfold start_row.
      rewrite Hd. split; [by left|done]. }
    exists ((fun row => (rw_target row, rw_result row)) <$> rows). rewrite Er. rewrite Et at 1. split; [done|]. split.
    - rewrite <- list_fmap_compose. etrans; [exact Hrt|]. rewrite <- list_fmap_compose. clear -Htargets.
      induction Htargets as [|tg l (d&Hd&_) _ IH]; [done|]. cbn. f_equal; [|exact IH]. unfold start_row. by rewrite Hd.
    - apply Forall_fmap. eapply Forall_impl; [exact Hok|]. cbn. intros row [Hp [?|(?&?&_)]]; [congruence|done]. }
  destruct (finalize_all_alone path observed s Hpath) as (s'&E2&Hf2&Hm2); try done.
  - eapply Forall_impl; [exact Hall|]. by intros o [? _].
  - apply Forall_forall. intros o Ho. rewrite Forall_forall in Htargets.
    destruct (Htargets o.1) as (_&_&_&?); [|done]. rewrite <- E1. by apply list_elem_of_fmap_2.
  - rewrite <- E1, length_fmap in Hgen. done.
  - exists observed, s'. split_and!; try done. intros k. rewrite Hm2.
    replace ((fun o => canonicalSupervisorTaskName (tg_TaskName o.1)) <$> observed)
      with ((fun tg => canonicalSupervisorTaskName (tg_TaskName tg)) <$> observed.*1)
      by (by rewrite <- list_fmap_compose). by rewrite E1.
Qed.
End Properties.

(** ** Witnesses: the settlement of the stop of [Recovery]'s witnesses *)
Section Witnesses.
#[local] Existing Instance ideal_digest.
#[local] Existing Instance ideal_digest_laws.

Definition w_target : StopBatchTargetV1 := mkTarget memory_task 9123.
Definition w_result : StoppedSettlement := mkSettlement memory_task StoppedSettlementStopped ReasonStopped 0 1 "".
Definition w_round (owner : Z) : settle_round :=
  mkRound (Ok {[ 9123 := owner ]}) (fun k => (t_entries (tr w_exited) !! k, t_entries (tr w_exited) !! k)) None.

Lemma stopped_means_committed_witness :
  exists s1, rtc sys_step w_released s1 /\ t_stopSettlements (tr s1) !! memory_task = None.
Proof.
  assert (stopped_result w_result) as Hr by (split; reflexivity).
  pose (s' := mkSys w_removal.1.1 w_removal.1.2).
  assert (rtc (settle_step "state.json") (w_released, finalizeStoppedSettlementReceipt "state.json" w_target w_result)
    (s', SRet w_result)) as Hrun.
  { apply (committing_run _ _ _ _ _ w_receipt3); [reflexivity|exact Hr|vm_compute; reflexivity..]. }
  destruct (stopped_means_committed "state.json" w_target w_result w_released s' eq_refl Hr w_released_reachable Hrun)
    as (s1&H1&_&H2).
  exists s1. split; [exact H1|]. rewrite <- H2. reflexivity.
Defined.

Lemma settlement_completes_witness :
  exists observed s',
    observe_stop_batch (fun _ _ => None) demo_start None [w_round 77; w_round 0] [w_target] = Some observed /\
    finalize_all "state.json" observed w_exited = (s', observed.*2) /\
    t_stopSettlements (tr s') !! memory_task = None.
Proof.
  assert (t_stopSettlementIntegrityErr (tr w_exited) = "") as Hf by (vm_compute; reflexivity).
  assert (map_generation (dk w_exited) + 2 * Z.of_nat 1 <= u64_max) as Hg by (vm_compute; discriminate).
  assert (Forall (fun rd => rd_wait rd = None) [w_round 77]) as He by (repeat constructor).
  destruct (settlement_completes (fun _ _ => None) demo_start "state.json" w_exited [w_target] [w_round 77] (w_round 0) []
    eq_refl w_exited_reachable Hf) as (observed&s'&E1&_&_&E2&_&Hm); [|exact He|exact Hg|].
  - constructor; [|constructor]. destruct (observeStopBatchTarget (fun _ _ => None) demo_start w_target) as [d|] eqn:Ed;
      [|vm_compute in Ed; discriminate].
    exists d. split; [reflexivity|]. split.
    + assert (sd_Port d = 9123) as -> by (vm_compute in Ed; injection Ed as <-; reflexivity).
      exists (entry_at (tr w_exited) memory_task), (entry_at (tr w_exited) memory_task), {[ 9123 := 0 ]}.
      split; [vm_compute; reflexivity|]. split; [reflexivity|]. split; [vm_compute; reflexivity|].
      split; [left; vm_compute; reflexivity|]. split; [reflexivity|].
      intros pid Hp. rewrite lookup_singleton_eq in Hp. injection Hp as <-. discriminate.
    + intros r Hr. left. assert (Some (sr_Phase r) = Some StopSettlementPhaseExitObserved) as Er.
      { etrans; [symmetry; exact (f_equal (option_map sr_Phase) Hr)|]. vm_compute. reflexivity. }
      injection Er as Er. exact Er.
  - exists observed, s'. split; [exact E1|]. split; [exact E2|]. rewrite Hm. reflexivity.
Defined.
End Witnesses.
