(* ===== verification/Trace.v ===== *)
(** * Trace: programs that talk to a changing world.

    An operation whose environment answers, and changes, between its steps is
    an interaction tree over its calls.  Here is the little that is needed to
    reason about its finite traces: what a run of a bind and of a loop is
    made of, that every call is of a kind, that a run has a bounded number of
    calls under a clock that does not go back, and a way to play programs
    against a concrete world, one alone or several interleaved. *)
From S2P Require Import Prelude GoTime.
From ITree Require Import ITree.
Open Scope Z_scope.

Notation "'call!' x := e 'in' k" := (Vis e (fun x => k))
  (at level 10, x pattern, e at level 100, k at level 200) : go_scope.
Notation "'do!' e 'in' k" := (Vis e (fun _ => k)) (at level 10, e at level 100, k at level 200) : go_scope.

(** A call with its answer. *)
Inductive ev {E : Type -> Type} : Type := Log (X : Type) (e : E X) (x : X).
Arguments ev E : clear implicits.
Arguments Log {E X} e x.

Section Trace.
Context {E : Type -> Type}.
Notation ev := (ev E).

(** The traces of a program under arbitrary answers: [Some a] when it has
    returned [a], [None] when it is stopped on the way. *)
Inductive trace {A : Type} : itree' E A -> list ev -> option A -> Prop :=
| trace_stop t : trace t [] None
| trace_ret a : trace (RetF a) [] (Some a)
| trace_tau u tr o : trace (observe u) tr o -> trace (TauF u) tr o
| trace_vis X (e : E X) k x tr o : trace (observe (k x)) tr o -> trace (VisF e k) (Log e x :: tr) o.
Definition runs {A} (p : itree E A) (tr : list ev) (o : option A) : Prop := trace (observe p) tr o.

Lemma trace_inv {A} (t : itree' E A) tr o :
  trace t tr o ->
  (tr = [] /\ o = None) \/
  match t with
  | RetF a => tr = [] /\ o = Some a
  | TauF u => trace (observe u) tr o
  | VisF e k => exists x tr', tr = Log e x :: tr' /\ trace (observe (k x)) tr' o
  end.
Proof. destruct 1; eauto 8. Qed.

Lemma runs_ret {A} (a : A) tr o : runs (Ret a) tr o -> tr = [] /\ (o = None \/ o = Some a).
Proof. intros [[-> ->]|[-> ->]]%trace_inv; auto. Qed.

Lemma runs_vis {A X} (e : E X) (k : X -> itree E A) tr o :
  runs (Vis e k) tr o -> (tr = [] /\ o = None) \/ exists x tr', tr = Log e x :: tr' /\ runs (k x) tr' o.
Proof. exact (trace_inv _ tr o). Qed.

Lemma observe_bind {A B} (t : itree E A) (k : A -> itree E B) :
  observe (ITree.bind t k) =
  match observe t with
  | RetF a => observe (k a)
  | TauF u => TauF (ITree.bind u k)
  | VisF e c => VisF e (fun x => ITree.bind (c x) k)
  end.
Proof.
  change (observe (ITree.bind t k)) with (observe
    match observe t with
    | RetF r => k r
    | TauF u => Tau (ITree.bind u k)
    | VisF e h => Vis e (fun x => ITree.bind (h x) k)
    end).
  by destruct (observe t).
Qed.

Lemma runs_bind {A B} (t : itree E A) (k : A -> itree E B) tr o :
  runs (ITree.bind t k) tr o ->
  (o = None /\ runs t tr None) \/
  exists a tr1 tr2, tr = tr1 ++ tr2 /\ runs t tr1 (Some a) /\ runs (k a) tr2 o.
Proof.
  unfold runs. intros H. remember (observe (ITree.bind t k)) as s eqn:Es. revert t Es.
  induction H as [s|a|u tr o H IH|X e k' x tr o H IH]; intros t Es.
  1: { left. split; [done|apply trace_stop]. }
  all: destruct (observe t) as [b|u'|Y e2 k2] eqn:Et;
    rewrite observe_bind, Et in Es; [right; exists b, []|try discriminate..].
  - exists []. split; [done|]. split; [apply trace_ret|]. rewrite <- Es. apply trace_ret.
  - exists tr. split; [done|]. split; [apply trace_ret|]. rewrite <- Es. by apply trace_tau.
  - injection Es as ->. destruct (IH u' eq_refl) as [[-> Hu]|(a&tr1&tr2&->&H1&H2)].
    + left. split; [done|by apply trace_tau].
    + right. exists a, tr1, tr2. split; [done|]. split; [by apply trace_tau|done].
  - exists (Log e x :: tr). split; [done|]. split; [apply trace_ret|]. rewrite <- Es.
    by apply trace_vis.
  - pose (P := fun s : itree' E B => match s with
      | VisF e0 k0 => exists x0, Log e x = Log e0 x0 /\ forall t, observe (k0 x0) = observe (ITree.bind t k) ->
          (o = None /\ trace (observe t) tr None) \/
          exists a tr1 tr2, tr = tr1 ++ tr2 /\ trace (observe t) tr1 (Some a) /\ trace (observe (k a)) tr2 o
      | _ => True
      end).
    assert (P (VisF e k')) as HP by (exists x; split; [done|exact IH]). rewrite Es in HP. destruct HP as (x0&->&Hx).
    destruct (Hx (k2 x0) eq_refl) as [[-> Hu]|(a&tr1&tr2&->&H1&H2)].
    + left. split; [done|by apply trace_vis].
    + right. exists a, (Log e2 x0 :: tr1), tr2. split; [done|]. split; [by apply trace_vis|done].
Qed.

(** A loop runs its body, and then returns or loops. *)
Lemma runs_iter {A B} (body : A -> itree E (A + B)) i tr o :
  runs (ITree.iter body i) tr o ->
  (o = None /\ runs (body i) tr None) \/
  exists r tr1 tr2, tr = tr1 ++ tr2 /\ runs (body i) tr1 (Some r) /\
    match r with
    | inl j => runs (ITree.iter body j) tr2 o
    | inr b => tr2 = [] /\ (o = None \/ o = Some b)
    end.
Proof.
  intros H. apply (runs_bind (body i) (fun lr => match lr with
    | inl l => Tau (ITree.iter body l) | inr r => Ret r end)) in H as [?|(r&tr1&tr2&->&H1&H2)]; [by left|].
  destruct r as [j|b]; [|right; exists (inr b), tr1, tr2; split; [done|]; split; [done|by apply runs_ret]].
  apply trace_inv in H2 as [[-> ->]|H2].
  - right. exists (inl j), tr1, []. split; [done|]. split; [done|]. apply trace_stop.
  - right. exists (inl j), tr1, tr2. by split_and!.
Qed.

(** Runs that have returned. *)
Lemma returns_ret {A} (a b : A) tr : runs (Ret a) tr (Some b) -> tr = [] /\ b = a.
Proof. by intros [-> [?|[= ->]]]%runs_ret. Qed.
Lemma returns_vis {A X} (e : E X) (k : X -> itree E A) tr b :
  runs (Vis e k) tr (Some b) -> exists x tr', tr = Log e x :: tr' /\ runs (k x) tr' (Some b).
Proof. by intros [[_ ?]|?]%runs_vis. Qed.
Lemma returns_bind {A B} (t : itree E A) (k : A -> itree E B) tr b :
  runs (ITree.bind t k) tr (Some b) ->
  exists a tr1 tr2, tr = tr1 ++ tr2 /\ runs t tr1 (Some a) /\ runs (k a) tr2 (Some b).
Proof. by intros [[? _]|?]%runs_bind. Qed.

(** The rounds of a loop that has returned. *)
Inductive finishes {A B} (body : A -> itree E (A + B)) : A -> list ev -> B -> Prop :=
| finish_last i tr b : runs (body i) tr (Some (inr b)) -> finishes body i tr b
| finish_round i j tr1 tr2 b :
    runs (body i) tr1 (Some (inl j)) -> finishes body j tr2 b -> finishes body i (tr1 ++ tr2) b.

Lemma returns_iter {A B} (body : A -> itree E (A + B)) i tr b :
  runs (ITree.iter body i) tr (Some b) -> finishes body i tr b.
Proof.
  intros H. set (k := fun lr : A + B => match lr with inl l => Tau (ITree.iter body l) | inr r => Ret r end).
  set (rest := fun (r : A + B) tr => match r with inl j => finishes body j tr b | inr b' => tr = [] /\ b' = b end).
  set (splits := fun (t : itree E (A + B)) tr => exists r tr1 tr2,
    tr = tr1 ++ tr2 /\ trace (observe t) tr1 (Some r) /\ rest r tr2).
  assert (forall t tr, splits t tr -> forall j, t = body j -> finishes body j tr b) as Hf.
  { intros t tr' ([j'|b']&tr1&tr2&->&Ht&Hr) j ->; cbn in Hr; [by eapply finish_round|].
    destruct Hr as [-> ->]. rewrite app_nil_r. by apply finish_last. }
  remember (Some b) as o eqn:Eo.
  assert (forall s tr o, trace s tr o -> o = Some b -> forall t, s = observe (ITree.bind t k) -> splits t tr) as Hg;
    [|eapply Hf; [exact (Hg _ _ _ H Eo (body i) eq_refl)|done]].
  clear -Hf. induction 1 as [s|b'|u tr o H IH|X e c x tr o H IH]; intros Eo t Es; [done|..].
  - injection Eo as ->. rewrite observe_bind in Es. destruct (observe t) as [[j|r]|u'|] eqn:Et; try discriminate.
    injection Es as ->. exists (inr r), [], []. split; [done|]. split; [rewrite Et; apply trace_ret|done].
  - rewrite observe_bind in Es. destruct (observe t) as [[j|r]|u'|] eqn:Et; try discriminate; injection Es as ->.
    + exists (inl j), [], tr. split; [done|]. split; [rewrite Et; apply trace_ret|].
      by eapply Hf; [apply (IH Eo (body j))|].
    + destruct (IH Eo u' eq_refl) as (r&tr1&tr2&->&Ht&Hr). exists r, tr1, tr2.
      split; [done|]. split; [rewrite Et; by apply trace_tau|done].
  - rewrite observe_bind in Es. destruct (observe t) as [[j|r]|u'|Y e2 k2] eqn:Et; try discriminate.
    pose (Q := fun s : itree' E B => match s with
      | VisF e0 k0 => exists x0, Log e x = Log e0 x0 /\ forall t, observe (k0 x0) = observe (ITree.bind t k) -> splits t tr
      | _ => True
      end).
    assert (Q (VisF e c)) as HQ by (exists x; split; [done|exact (IH Eo)]). rewrite Es in HQ. destruct HQ as (x0&->&Hx).
    destruct (Hx (k2 x0) eq_refl) as (r&tr1&tr2&->&Ht&Hr). exists r, (Log e2 x0 :: tr1), tr2.
    split; [done|]. split; [rewrite Et; by apply trace_vis|done].
Qed.

Fixpoint emit_all {A} (es : list (E unit)) (k : itree E A) : itree E A :=
  match es with [] => k | e :: es => do! e in emit_all es k end.

Lemma emit_all_result {A} es (k : itree E A) tr a :
  runs (emit_all es k) tr (Some a) -> exists tr', runs k tr' (Some a).
Proof.
  revert tr. induction es as [|e es IH]; intros tr; cbn [emit_all]; [eauto|].
  intros [[_ ?]|(x&tr'&->&H)]%runs_vis; [done|]. by apply IH in H.
Qed.
Lemma emit_all_log {A} es (k : itree E A) tr a :
  runs (emit_all es k) tr (Some a) -> exists tr', tr = ((fun e => Log e tt) <$> es) ++ tr' /\ runs k tr' (Some a).
Proof.
  revert tr. induction es as [|e es IH]; intros tr; cbn [emit_all]; [by eauto|].
  intros [[_ ?]|([]&tr'&->&H)]%runs_vis; [done|]. apply IH in H as (tr''&->&H). by exists tr''.
Qed.
(** *** Every call of the program is of a kind *)
Definition only {A} (P : ev -> Prop) (p : itree E A) : Prop := forall tr o, runs p tr o -> Forall P tr.

Section Only.
Context (P : ev -> Prop).

Lemma only_ret {A} (a : A) : only P (Ret a).
Proof. by intros tr o [-> _]%runs_ret. Qed.
Lemma only_vis {A X} (e : E X) (k : X -> itree E A) :
  (forall x, P (Log e x)) -> (forall x, only P (k x)) -> only P (Vis e k).
Proof. intros He Hk tr o [[-> _]|(x&tr'&->&H)]%runs_vis; [done|]. constructor; [done|by eapply Hk]. Qed.
Lemma only_bind {A B} (t : itree E A) (k : A -> itree E B) :
  only P t -> (forall a, only P (k a)) -> only P (ITree.bind t k).
Proof.
  intros Ht Hk tr o [[_ H]|(a&tr1&tr2&->&H1&H2)]%runs_bind; [by eapply Ht|].
  apply Forall_app. split; [by eapply Ht|by eapply Hk].
Qed.
Lemma only_iter {A B} (body : A -> itree E (A + B)) i : (forall j, only P (body j)) -> only P (ITree.iter body i).
Proof.
  intros Hb tr o H. set (k := fun lr : A + B => match lr with inl l => Tau (ITree.iter body l) | inr r => Ret r end).
  assert (forall s tr o, trace s tr o -> forall t, only P t -> s = observe (ITree.bind t k) -> Forall P tr) as Hg;
    [|by eapply (Hg _ _ _ H (body i))].
  clear -Hb. induction 1 as [s|b|u tr o H IH|X e c x tr o H IH]; intros t Ht Es; [done..| |].
  - rewrite observe_bind in Es. destruct (observe t) as [[j|r]|u'|] eqn:Et; try discriminate; injection Es as ->.
    + by apply (IH (body j)).
    + apply (IH u'); [|done]. intros tr' o' Hr. apply (Ht tr' o'). unfold runs. rewrite Et. by apply trace_tau.
  - rewrite observe_bind in Es. destruct (observe t) as [[j|r]|u'|Y e2 k2] eqn:Et; try discriminate.
    pose (Q := fun s : itree' E B => match s with
      | VisF e0 k0 => exists x0, Log e x = Log e0 x0 /\ forall t, only P t -> observe (k0 x0) =
          observe (ITree.bind t k) -> Forall P tr
      | _ => True
      end).
    assert (Q (VisF e c)) as HQ by (exists x; split; [done|exact IH]). rewrite Es in HQ. destruct HQ as (x0&->&Hx).
    assert (forall tr' o', runs (k2 x0) tr' o' -> Forall P (Log e2 x0 :: tr')) as Hk.
    { intros tr' o' Hr. apply (Ht _ o'). unfold runs. rewrite Et. by apply trace_vis. }
    constructor; [by destruct (Forall_cons_1 _ _ _ (Hk [] None (trace_stop _)))|].
    apply (Hx (k2 x0)); [|done]. intros tr' o' Hr. by eapply Forall_cons_1, Hk.
Qed.
Lemma only_match {A X} (o : option X) (f : X -> itree E A) (d : itree E A) :
  (forall x, only P (f x)) -> only P d -> only P (match o with Some x => f x | None => d end).
Proof. by destruct o. Qed.
Lemma only_if {A} (b : bool) (t u : itree E A) : only P t -> only P u -> only P (if b then t else u).
Proof. by destruct b. Qed.
End Only.

Lemma only_weaken {A} (P Q : ev -> Prop) (p : itree E A) : (forall l, P l -> Q l) -> only P p -> only Q p.
Proof. intros Hi Hp tr o H. eapply Forall_impl; [by eapply Hp|done]. Qed.
Lemma emit_all_only {A} (P : ev -> Prop) es (k : itree E A) :
  (forall e, e ∈ es -> P (Log e tt)) -> only P k -> only P (emit_all es k).
Proof.
  intros He Hk. induction es as [|e es IH]; [done|]. cbn. apply only_vis; [intros []; apply He; left|].
  intros _. apply IH. intros e' ?. apply He. by right.
Qed.
End Trace.

(** *** Every call of a run is justified by the calls before it *)
Section Guarded.
Context {E : Type -> Type} (G : list (ev E) -> ev E -> Prop).
Definition guarded {A} (before : list (ev E)) (p : itree E A) : Prop :=
  forall tr o, runs p tr o -> forall pre l post, tr = pre ++ l :: post -> G (before ++ pre) l.

Lemma guarded_ret {A} before (a : A) : guarded before (Ret a).
Proof. by intros tr o [-> _]%runs_ret [|? pre] l post. Qed.
Lemma guarded_vis {A X} before (e : E X) (k : X -> itree E A) :
  (forall x, G before (Log e x)) -> (forall x, guarded (before ++ [Log e x]) (k x)) -> guarded before (Vis e k).
Proof.
  intros He Hk tr o [[-> _]|(x&tr'&->&H)]%runs_vis pre l post Etr; [by destruct pre|].
  destruct pre as [|l0 pre]; injection Etr as <- Etr; [by rewrite app_nil_r|].
  rewrite cons_middle, app_assoc. by eapply (Hk x).
Qed.
Lemma guarded_bind {A B} before (t : itree E A) (k : A -> itree E B) :
  guarded before t -> (forall a tr, runs t tr (Some a) -> guarded (before ++ tr) (k a)) ->
  guarded before (ITree.bind t k).
Proof.
  intros Ht Hk tr o [[_ H]|(a&tr1&tr2&->&H1&H2)]%runs_bind pre l post Etr; [by eapply Ht|].
  apply app_eq_app in Etr as (m&[[-> Em]|[-> Em]]).
  - destruct m as [|l0 m]; cbn in Em.
    + rewrite app_nil_r in H1. rewrite <- (app_nil_r pre), app_assoc. by eapply (Hk a).
    + injection Em as <- ->. by eapply Ht.
  - rewrite app_assoc. by eapply (Hk a).
Qed.
(** A program all of whose calls need no justification. *)
Lemma guarded_only {A} (P : ev E -> Prop) before (p : itree E A) :
  (forall b l, P l -> G b l) -> only P p -> guarded before p.
Proof. intros Hi Hp tr o H pre l post ->. apply Hi. by apply Hp, Forall_app in H as [_ [? _]%Forall_cons]. Qed.
End Guarded.

(** Steps through a run that has returned: the calls it made, the branches
    it took. *)
Ltac step_returns H :=
  lazymatch type of H with
  | runs (Ret _) _ _ => apply returns_ret in H as [-> H]; try discriminate H; simplify_eq
  | runs (Vis _ _) _ _ => let x := fresh "x" in let t := fresh "tr" in apply returns_vis in H as (x&t&->&H)
  | runs (match ?x with _ => _ end) _ _ => let Hx := fresh "Hx" in destruct x eqn:Hx
  | runs _ _ _ => progress cbv beta iota zeta in H
  end.

(** Walks down a program: every call is checked, every branch is taken. *)
Ltac walk_only :=
  repeat lazymatch goal with
  | |- only _ (Ret _) => apply only_ret
  | |- only _ (Vis _ _) => apply only_vis; [by intros ?|intros ?]
  | |- only _ (ITree.bind _ _) => apply only_bind; [|intros ?]
  | |- only _ (ITree.iter _ _) => apply only_iter; intros ?
  | |- only _ (match ?x with _ => _ end) => destruct x
  | |- only _ (let '_ := ?x in _) => destruct x
  | |- only _ _ => progress cbv beta iota zeta
  end.

(** ** Time *)

(** What the calls of a program say of a clock: whether a call with its
    answer is possible at [now], and a lower bound of the clock after it. *)
Class Clock (E : Type -> Type) := {
  tells_time : time -> ev E -> Prop;
  clock_after : time -> ev E -> time;
}.

Section Bounds.
Context {E : Type -> Type} {CE : Clock E}.
Fixpoint clocked (now : time) (tr : list (ev E)) : Prop :=
  match tr with [] => True | l :: tr => tells_time now l /\ clocked (clock_after now l) tr end.

Lemma clocked_app now tr1 tr2 :
  clocked now (tr1 ++ tr2) -> clocked now tr1 /\ clocked (foldl clock_after now tr1) tr2.
Proof. revert now. induction tr1 as [|l tr1 IH]; intros now; cbn; [done|]. intros [Ht [H1 H2]%IH]. by split. Qed.

(** Under such a clock no run of the program has more than [n] calls. *)
Definition bounded {A} (n : nat) (p : itree E A) : Prop :=
  forall now tr o, runs p tr o -> clocked now tr -> (length tr <= n)%nat.

Lemma bounded_ret {A} n (a : A) : bounded n (Ret a).
Proof. intros now tr o [-> _]%runs_ret _. cbn. lia. Qed.
Lemma bounded_vis {A X} n (e : E X) (k : X -> itree E A) : (forall x, bounded n (k x)) -> bounded (S n) (Vis e k).
Proof.
  intros Hk now tr o [[-> _]|(x&tr'&->&H)]%runs_vis; [cbn; lia|]. intros [_ Hc]. cbn.
  specialize (Hk x _ _ _ H Hc). lia.
Qed.
Lemma bounded_bind {A B} n m (t : itree E A) (k : A -> itree E B) :
  bounded n t -> (forall a, bounded m (k a)) -> bounded (n + m) (ITree.bind t k).
Proof.
  intros Ht Hk now tr o [[_ H]|(a&tr1&tr2&->&H1&H2)]%runs_bind.
  - intros Hc. specialize (Ht _ _ _ H Hc). lia.
  - intros [Hc1 Hc2]%clocked_app. rewrite length_app. specialize (Ht _ _ _ H1 Hc1).
    specialize (Hk a _ _ _ H2 Hc2). lia.
Qed.
Lemma bounded_le {A} n m (p : itree E A) : (n <= m)%nat -> bounded n p -> bounded m p.
Proof. intros Hle Hp now tr o H Hc. specialize (Hp _ _ _ H Hc). lia. Qed.
Lemma bounded_emit_all {A} n es (k : itree E A) : bounded n k -> bounded (length es + n) (emit_all es k).
Proof. intros Hk. induction es as [|e es IH]; [done|]. by apply bounded_vis. Qed.

(** A loop every continuing round of which takes place before [deadline] and
    [interval] of the clock makes at most one round per interval. *)
Lemma bounded_poll {A B} (body : A -> itree E (A + B)) n interval deadline m i now tr o :
  (forall j, bounded n (body j)) ->
  (forall i j now tr, runs (body i) tr (Some (inl j)) -> clocked now tr ->
     now < deadline /\ now + interval <= foldl clock_after now tr) ->
  deadline - now <= Z.of_nat m * interval -> runs (ITree.iter body i) tr o -> clocked now tr ->
  (length tr <= n * m + n)%nat.
Proof.
  intros Hb Hs. revert i now tr. induction m as [|m IH]; intros i now tr Hm H Hc;
    apply runs_iter in H as [[_ H]|([j|b]&tr1&tr2&->&H1&H2)]; try (pose proof (Hb _ _ _ _ H Hc); lia);
    apply clocked_app in Hc as [Hc1 Hc2]; pose proof (Hb _ _ _ _ H1 Hc1); rewrite length_app;
    try (destruct H2 as [-> _]; cbn; lia); destruct (Hs _ _ _ _ H1 Hc1) as [Hd Hi]; [lia|].
  rewrite Nat2Z.inj_succ, Z.mul_succ_l in Hm.
  assert (length tr2 <= n * m + n)%nat; [|lia]. by apply (IH j (foldl clock_after now tr1)); [lia|..].
Qed.

(** Rounds of a wait of [timeout] that polls every [interval]. *)
Definition wait_rounds (interval timeout : duration) : nat := Z.to_nat (timeout / interval + 1).
Lemma wait_rounds_enough interval timeout :
  0 < interval -> 0 <= timeout -> timeout <= Z.of_nat (wait_rounds interval timeout) * interval.
Proof.
  intros Hi Ht. unfold wait_rounds. pose proof (Z.div_pos _ _ Ht Hi). pose proof (Z.mod_pos_bound timeout interval Hi).
  rewrite Z2Nat.id by lia. pose proof (Z.div_mod timeout interval ltac:(lia)). lia.
Qed.
Lemma wait_rounds_le interval b b' : 0 < interval -> b <= b' -> (wait_rounds interval b <= wait_rounds interval b')%nat.
Proof. intros Hi Hb. unfold wait_rounds. pose proof (Z.div_le_mono b b' interval Hi Hb). lia. Qed.
End Bounds.

Ltac walk_bounded :=
  repeat lazymatch goal with
  | |- bounded _ (Ret _) => apply bounded_ret
  | |- bounded _ (Vis _ _) => apply bounded_vis; intros ?
  | |- bounded _ (match ?x with _ => _ end) => destruct x
  | |- bounded _ _ => progress cbv beta iota zeta
  end.

(** ** Playing a program against a world *)
Section Play.
Context {E : Type -> Type} {A S : Type}.

(** Answer the calls with a handler, for [n] steps at most. *)
Fixpoint play (n : nat) (h : forall X, E X -> S -> X * S) (s : S) (p : itree E A) : list (ev E) * option A :=
  match n with
  | O => ([], None)
  | Datatypes.S n =>
      match observe p with
      | RetF a => ([], Some a)
      | TauF u => play n h s u
      | VisF e k => let xs := h _ e s in let r := play n h xs.2 (k xs.1) in (Log e xs.1 :: r.1, r.2)
      end
  end.
Lemma play_runs n (h : forall X, E X -> S -> X * S) s (p : itree E A) : runs p (play n h s p).1 (play n h s p).2.
Proof.
  revert s p. induction n as [|n IH]; intros s p; [apply trace_stop|]. cbn [play]. unfold runs in *.
  destruct (observe p) as [a|u|X e k]; [apply trace_ret|apply trace_tau, IH|apply trace_vis, IH].
Qed.
End Play.

(** *** Programs that end whatever is answered *)
Section Ends.
Context {E : Type -> Type}.
(** No path of the program has more than [n] calls and silent steps. *)
Fixpoint ends {A} (n : nat) (p : itree E A) : Prop :=
  match observe p, n with
  | RetF _, _ => True
  | TauF u, Datatypes.S n => ends n u
  | VisF _ k, Datatypes.S n => forall x, ends n (k x)
  | _, O => False
  end.
Lemma ends_observe {A} n (p q : itree E A) : observe p = observe q -> ends n p -> ends n q.
Proof. intros Ho. by destruct n; cbn; rewrite Ho. Qed.
Lemma ends_le {A} n m (p : itree E A) : (n <= m)%nat -> ends n p -> ends m p.
Proof.
  revert m p. induction n as [|n IH]; intros m p Hle; destruct m as [|m]; cbn; try lia; destruct (observe p); try done.
  - apply IH. lia.
  - intros H x. apply IH; [lia|apply H].
Qed.
Lemma ends_ret {A} n (a : A) : ends n (Ret a).
Proof. by destruct n. Qed.
Lemma ends_vis {A X} n (e : E X) (k : X -> itree E A) : (forall x, ends n (k x)) -> ends (Datatypes.S n) (Vis e k).
Proof. done. Qed.
Lemma ends_bind {A B} n m (t : itree E A) (k : A -> itree E B) :
  ends n t -> (forall a, ends m (k a)) -> ends (n + m) (ITree.bind t k).
Proof.
  intros Ht Hk. revert t Ht. induction n as [|n IH]; intros t Ht; cbn in Ht.
  - destruct (observe t) as [a|u|X e c] eqn:Eo; [|done..]. apply (ends_observe _ (k a)); [|apply Hk].
    by rewrite observe_bind, Eo.
  - destruct (observe t) as [a|u|X e c] eqn:Eo.
    + apply (ends_le m); [lia|]. apply (ends_observe _ (k a)); [|apply Hk]. by rewrite observe_bind, Eo.
    + cbn. rewrite observe_bind, Eo. by apply IH.
    + cbn. rewrite observe_bind, Eo. intros x. apply IH, Ht.
Qed.
(** Such a program returns in any world. *)
Lemma ends_returns {A S} n (p : itree E A) (h : forall X, E X -> S -> X * S) s :
  ends n p -> exists a, (play (Datatypes.S n) h s p).2 = Some a.
Proof.
  revert s p. induction n as [|n IH]; intros s p; cbn [ends]; destruct (observe p) as [a|u|X e k] eqn:Eo; try done.
  - intros _. exists a. cbn. by rewrite Eo.
  - intros _. exists a. cbn. by rewrite Eo.
  - intros H. destruct (IH s u H) as [a Ha]. exists a. cbn [play]. by rewrite Eo.
  - intros H. destruct (IH (h _ e s).2 (k (h _ e s).1) (H _)) as [a Ha]. exists a. cbn [play]. rewrite Eo. exact Ha.
Qed.
End Ends.

Ltac walk_ends :=
  repeat lazymatch goal with
  | |- ends _ (Ret _) => apply ends_ret
  | |- ends _ (Vis _ _) => apply ends_vis; intros ?
  | |- ends _ (match ?x with _ => _ end) => destruct x
  | |- ends _ _ => progress cbv beta iota zeta
  end.

(** ** Interleavings

    A log of who made which step; the steps of one. *)
Section Own.
Context {E : Type -> Type}.
Notation log := (list (nat * ev E)).
Definition own (i : nat) (l : log) : list (ev E) := (filter (fun x => x.1 = i) l).*2.
Lemma own_app i l1 l2 : own i (l1 ++ l2) = own i l1 ++ own i l2.
Proof. unfold own. by rewrite filter_app, fmap_app. Qed.
Lemma own_snoc i past j l : own i (past ++ [(j, l)]) = own i past ++ (if decide (j = i) then [l] else []).
Proof. rewrite own_app. f_equal. unfold own. cbn. by case_decide. Qed.
Lemma own_here past i l : own i (past ++ [(i, l)]) = own i past ++ [l].
Proof. rewrite own_snoc. by rewrite decide_True. Qed.
Lemma own_prefix i past l : own i past `prefix_of` own i (past ++ [l]).
Proof. rewrite own_app. by eexists. Qed.
Lemma own_in i past l : l ∈ own i past -> (i, l) ∈ past.
Proof. unfold own. intros ([i' l']&->&H)%list_elem_of_fmap. apply list_elem_of_filter in H as [? H]. cbn in *. by subst. Qed.
Lemma in_own i past l : (i, l) ∈ past -> l ∈ own i past.
Proof. intros H. unfold own. apply list_elem_of_fmap. exists (i, l). split; [done|]. by apply list_elem_of_filter. Qed.
Lemma own_mono i past l x : l ∈ own i past -> l ∈ own i (past ++ [x]).
Proof. rewrite own_app. set_solver. Qed.
End Own.
#[global] Arguments own : simpl never.

(** Playing programs against each other: at every turn one of them makes its
    next step, answered by the world and by what is left of a script, or the
    world moves by itself. *)
Section Interleave.
Context {E : Type -> Type} {A W S M : Type}.
Context (program : nat -> itree E A).
Context (serve : list (nat * ev E) -> W -> forall X, E X -> S -> X * W * S) (move : M -> W -> W).

(** What is left of the programs that have stepped. *)
Record board := mkBoard { b_left : gmap nat (itree E A); b_world : W; b_log : list (nat * ev E); b_script : S }.
Inductive turn := Step (i : nat) | Move (m : M).
Definition left_of (b : board) (i : nat) : itree E A := default (program i) (b_left b !! i).
Definition take_turn (b : board) (t : turn) : board :=
  match t with
  | Step i =>
      match observe (left_of b i) with
      | RetF _ => b
      | TauF u => mkBoard (<[i := u]> (b_left b)) (b_world b) (b_log b) (b_script b)
      | VisF e k =>
          let '(x, w, sc) := serve (b_log b) (b_world b) _ e (b_script b) in
          mkBoard (<[i := k x]> (b_left b)) w (b_log b ++ [(i, Log e x)]) sc
      end
  | Move m => mkBoard (b_left b) (move m (b_world b)) (b_log b) (b_script b)
  end.
Definition play_all (w : W) (sc : S) (turns : list turn) : board := foldl take_turn (mkBoard ∅ w [] sc) turns.
(** What a program has returned. *)
Definition returned (b : board) (i : nat) : option A := match observe (left_of b i) with RetF a => Some a | _ => None end.

Context (ok : list (nat * ev E) -> W -> Prop).
Context (step_ok : forall past w i X (e : E X) sc,
  ok past w -> let r := serve past w X e sc in runs (program i) (own i past ++ [Log e r.1.1]) None ->
  ok (past ++ [(i, Log e r.1.1)]) r.1.2).
Context (move_ok : forall past w m, ok past w -> ok past (move m w)).
Definition board_ok (b : board) : Prop :=
  ok (b_log b) (b_world b) /\ forall i tr o, runs (left_of b i) tr o -> runs (program i) (own i (b_log b) ++ tr) o.
Lemma turn_ok b t : board_ok b -> board_ok (take_turn b t).
Proof using step_ok move_ok.
  intros [Hr Hl]. destruct t as [i|m]; cbn [take_turn]; [|split; [by apply move_ok|exact Hl]].
  pose proof (Hl i) as Hi. unfold runs at 1 in Hi. destruct (observe (left_of b i)) as [r|u|X e k] eqn:Eo; [done| |].
  - split; [done|]. intros j tr o. unfold left_of at 1. cbn. destruct (decide (j = i)) as [->|Hne].
    + rewrite lookup_insert_eq. cbn. intros H. apply Hi. by apply trace_tau.
    + rewrite lookup_insert_ne by done. apply Hl.
  - assert (Hs : forall x, runs (program i) (own i (b_log b) ++ [Log e x]) None) by (intros x; apply Hi, trace_vis, trace_stop).
    pose proof (step_ok (b_log b) (b_world b) i X e (b_script b) Hr (Hs _)) as Ha.
    destruct (serve (b_log b) (b_world b) X e (b_script b)) as [[x w] sc]. split; cbn; [exact Ha|].
    intros j tr o. unfold left_of at 1. cbn. destruct (decide (j = i)) as [->|Hne].
    + rewrite lookup_insert_eq, own_here, <- app_assoc. intros H. apply Hi. by apply trace_vis.
    + rewrite lookup_insert_ne, own_snoc, decide_False, app_nil_r by done. apply Hl.
Qed.
Lemma play_board w sc turns : ok [] w -> board_ok (play_all w sc turns).
Proof using step_ok move_ok.
  intros H0. unfold play_all. assert (board_ok (mkBoard ∅ w [] sc)) as Hb by (by split).
  revert Hb. generalize (mkBoard ∅ w [] sc) as b. induction turns as [|t turns IH]; intros b Hb; [done|]. by apply IH, turn_ok.
Qed.
Lemma play_log w sc turns : ok [] w -> ok (b_log (play_all w sc turns)) (b_world (play_all w sc turns)).
Proof using step_ok move_ok. intros H. by apply play_board. Qed.
Lemma returned_runs w sc turns i a :
  ok [] w -> returned (play_all w sc turns) i = Some a -> runs (program i) (own i (b_log (play_all w sc turns))) (Some a).
Proof using step_ok move_ok.
  intros [_ Hl]%(play_board w sc turns). unfold returned. specialize (Hl i [] (Some a)).
  rewrite app_nil_r in Hl. unfold runs at 1 in Hl. destruct (observe (left_of _ i)) as [a'| |]; intros [=]. subst. apply Hl, trace_ret.
Qed.
End Interleave.
Arguments Step {M} i.
Arguments Move {M} m.
