(* ===== verification/Ports.v ===== *)
(** * Ports: allocation of loopback ports
      ([api/port_alloc.go], [api/global_port_alloc.go], and
      [AllocateSerenaPort] of [api/workspace_registry.go]).

    A port is free when the registry has not handed it out, the system has
    not excluded it, and nothing listens on it; the allocators return the
    lowest free port of their pool. *)
From S2P Require Import Prelude.
Open Scope Z_scope.

Record PortPool := mkPool { Start : Z; End : Z }.
Record tcpPortRange := mkRange { rg_start : Z; rg_end : Z }.

#[global] Instance tcpPortRange_eq_dec : EqDecision tcpPortRange.
Proof. solve_decision. Defined.

Definition ErrPortPoolExhausted : error := sentinel "ErrPortPoolExhausted" "port pool exhausted".

(** ** Ranges *)
Definition contains (r : tcpPortRange) (port : Z) : bool := (rg_start r <=? port) && (port <=? rg_end r).
Definition portInRanges (port : Z) (ranges : list tcpPortRange) : bool := existsb (fun r => contains r port) ranges.

(** The order [mergeTCPPortRanges] sorts by. *)
Definition range_le (a b : tcpPortRange) : Prop :=
  rg_start a < rg_start b \/ (rg_start a = rg_start b /\ rg_end a <= rg_end b).
#[global] Instance range_le_dec : RelDecision range_le.
Proof. intros a b. unfold range_le. apply _. Defined.
#[global] Instance range_le_total : Total range_le.
Proof. intros a b. unfold range_le. lia. Qed.
#[global] Instance range_le_trans : Transitive range_le.
Proof. intros a b c. unfold range_le. lia. Qed.

(** One range of the sorted list; [out] is the output so far, last first. *)
Definition merge_step (out : list tcpPortRange) (r : tcpPortRange) : list tcpPortRange :=
  if rg_end r <? rg_start r then out
  else
    match out with
    | [] => [r]
    | last :: rest =>
        if rg_end last + 1 <? rg_start r then r :: out
        else if rg_end last <? rg_end r then mkRange (rg_start last) (rg_end r) :: rest
        else out
    end.
Definition mergeTCPPortRanges (ranges : list tcpPortRange) : list tcpPortRange :=
  rev (foldl merge_step [] (merge_sort range_le ranges)).

Definition clip (pool : PortPool) (r : tcpPortRange) : option tcpPortRange :=
  if (rg_end r <? Start pool) || (End pool <? rg_start r) then None
  else
    Some (mkRange (if rg_start r <? Start pool then Start pool else rg_start r)
            (if End pool <? rg_end r then End pool else rg_end r)).
Definition excludedRangesInPool (pool : PortPool) (ranges : list tcpPortRange) : list tcpPortRange :=
  mergeTCPPortRanges (omap (clip pool) ranges).

Definition countPortsInRanges (ranges : list tcpPortRange) : Z :=
  foldl (fun count r => count + (rg_end r - rg_start r + 1)) 0 ranges.
Definition countTakenPortsInPool (taken : gset Z) (pool : PortPool) : Z :=
  Z.of_nat (size (filter (fun port => Start pool <= port <= End pool) taken)).

(** ** Allocation *)

(** The numbers an exhausted pool is reported with. *)
Record exhaustion := mkExhaustion {
  xh_total : Z; xh_excluded : Z; xh_usable : Z; xh_registry : Z; xh_occupied : Z;
  xh_ranges : list tcpPortRange; xh_queryErr : option error;
}.
Inductive allocation := Allocated (port : Z) | InvalidPool | PortPoolExhausted (x : exhaustion).

Definition pool_ports (pool : PortPool) : list Z := seqZ (Start pool) (End pool - Start pool + 1).

(** The loop of [AllocatePort]: the port, or how many ports other processes
    hold. *)
Fixpoint scan_pool (taken : gset Z) (excluded : list tcpPortRange) (available : Z -> bool) (ports : list Z)
    (occupiedByProcess : Z) : Z + Z :=
  match ports with
  | [] => inr occupiedByProcess
  | p :: ports =>
      if bool_decide (p ∈ taken) then scan_pool taken excluded available ports occupiedByProcess
      else if portInRanges p excluded then scan_pool taken excluded available ports occupiedByProcess
      else if negb (available p) then scan_pool taken excluded available ports (occupiedByProcess + 1)
      else inl p
  end.

(** [osExcluded] is the answer of [excludedTCPPortRanges]: the ranges, and
    the error of the query. *)
Definition AllocatePort (taken : gset Z) (pool : PortPool) (osExcluded : list tcpPortRange * option error)
    (available : Z -> bool) : allocation :=
  if (Start pool <=? 0) || (End pool <? Start pool) then InvalidPool
  else
    let excludedInPool := excludedRangesInPool pool osExcluded.1 in
    match scan_pool taken excludedInPool available (pool_ports pool) 0 with
    | inl p => Allocated p
    | inr occupied =>
        let total := End pool - Start pool + 1 in
        let excludedCount := countPortsInRanges excludedInPool in
        PortPoolExhausted
          (mkExhaustion total excludedCount (total - excludedCount) (countTakenPortsInPool taken pool) occupied
             excludedInPool osExcluded.2)
    end.

(** [Registry.AllocateSerenaPort]: no probe. *)
Definition AllocateSerenaPort (taken : gset Z) (pool : PortPool) : res Z :=
  if (Start pool <=? 0) || (End pool <? Start pool) then Err (errors_New "AllocateSerenaPort: invalid port pool")
  else
    match List.find (fun p => negb (bool_decide (p ∈ taken))) (pool_ports pool) with
    | Some p => Ok p
    | None => Err (wrapf "pool fully allocated" ErrPortPoolExhausted)
    end.

Definition globalDaemonBandStart : Z := 9300.
Definition globalDaemonBandEnd : Z := 9399.
Definition PortInGlobalDaemonBand (port : Z) : bool := (globalDaemonBandStart <=? port) && (port <=? globalDaemonBandEnd).
Definition AllocateSingleGlobalPort (taken : gset Z) (available : Z -> bool) : res Z :=
  match List.find (fun p => negb (bool_decide (p ∈ taken)) && available p)
          (pool_ports (mkPool globalDaemonBandStart globalDaemonBandEnd)) with
  | Some p => Ok p
  | None => Err (wrapf "hub global band fully claimed" ErrPortPoolExhausted)
  end.

(** ** Merging *)

(** A merged list, last first: its ranges are not empty, and each ends at
    least one port before the next starts. *)
Fixpoint merged (out : list tcpPortRange) : Prop :=
  match out with
  | [] => True
  | r :: rest =>
      rg_start r <= rg_end r /\ match rest with [] => True | r' :: _ => rg_end r' + 1 < rg_start r end /\ merged rest
  end.

Lemma contains_spec r p : contains r p = true <-> rg_start r <= p <= rg_end r.
Proof. unfold contains. breflect. done. Qed.
Lemma portInRanges_spec p l : portInRanges p l = true <-> exists r, r ∈ l /\ rg_start r <= p <= rg_end r.
Proof.
  unfold portInRanges. rewrite existsb_exists. split; intros (r&Hr&Hp); exists r;
    rewrite list_elem_of_In, contains_spec in *; done.
Qed.
Lemma portInRanges_cons p r l : portInRanges p (r :: l) = contains r p || portInRanges p l.
Proof. done. Qed.
Lemma portInRanges_perm p l l' : l ≡ₚ l' -> portInRanges p l = portInRanges p l'.
Proof.
  intros E. apply eq_true_iff_eq. rewrite !portInRanges_spec. by setoid_rewrite E.
Qed.

Lemma merge_step_merged out r :
  merged out -> match out with [] => True | last :: _ => rg_start last <= rg_start r end -> merged (merge_step out r).
Proof.
  unfold merge_step. intros Hm Hs. destruct (Z.ltb_spec (rg_end r) (rg_start r)); [done|].
  destruct out as [|last rest]; [by cbn; split; [lia|]|]. destruct Hm as (H1&H2&H3).
  destruct (Z.ltb_spec (rg_end last + 1) (rg_start r)); [cbn; split_and!; try done; lia|].
  destruct (Z.ltb_spec (rg_end last) (rg_end r)); cbn; [|done].
  split_and!; [lia| |done]. destruct rest; [done|lia].
Qed.
Lemma merge_step_in out r p :
  match out with [] => True | last :: _ => rg_start last <= rg_start r end ->
  portInRanges p (merge_step out r) = portInRanges p out || contains r p.
Proof.
  unfold merge_step. intros Hs. apply eq_true_iff_eq. rewrite orb_true_iff, contains_spec.
  destruct (Z.ltb_spec (rg_end r) (rg_start r)); [intuition lia|].
  destruct out as [|last rest]; [rewrite portInRanges_cons, orb_true_iff, contains_spec; cbn; intuition|].
  destruct (Z.ltb_spec (rg_end last + 1) (rg_start r));
    [rewrite portInRanges_cons, orb_true_iff, contains_spec; intuition|].
  rewrite portInRanges_cons, orb_true_iff, contains_spec.
  destruct (Z.ltb_spec (rg_end last) (rg_end r)); rewrite portInRanges_cons, orb_true_iff, contains_spec; cbn;
    intuition lia.
Qed.
Lemma merge_step_last out r last rest :
  match out with [] => True | last :: _ => rg_start last <= rg_start r end ->
  merge_step out r = last :: rest -> rg_start last <= rg_start r.
Proof.
  unfold merge_step. intros Hs. destruct out as [|l o]; repeat case_match; intros [= <- <-]; cbn; lia.
Qed.

Lemma merge_fold out l :
  merged out -> Sorted range_le l ->
  match out, l with last :: _, r :: _ => rg_start last <= rg_start r | _, _ => True end ->
  merged (foldl merge_step out l) /\
  forall p, portInRanges p (foldl merge_step out l) = portInRanges p out || portInRanges p l.
Proof.
  revert out. induction l as [|r l IH]; intros out Hm Hl Hs; [split; [done|]; intros p; by rewrite orb_false_r|].
  assert (match out with [] => True | last :: _ => rg_start last <= rg_start r end) as Hs' by (by destruct out).
  cbn [foldl]. apply Sorted_inv in Hl as [Hl Hh].
  destruct (IH (merge_step out r)) as [H1 H2]; [by apply merge_step_merged|done| |].
  { destruct (merge_step out r) as [|last rest] eqn:E; [done|]. destruct l as [|r' l]; [done|].
    apply merge_step_last in E; [|done]. apply HdRel_inv in Hh. unfold range_le in Hh. lia. }
  split; [done|]. intros p. rewrite H2, merge_step_in, portInRanges_cons by done. by rewrite orb_assoc.
Qed.

(** Merging keeps the ports and separates the ranges. *)
Lemma merge_ranges_exact ranges :
  merged (rev (mergeTCPPortRanges ranges)) /\
  forall p, portInRanges p (mergeTCPPortRanges ranges) = portInRanges p ranges.
Proof.
  unfold mergeTCPPortRanges. rewrite rev_involutive.
  destruct (merge_fold [] (merge_sort range_le ranges) I (Sorted_merge_sort _ _)) as [H1 H2]; [done|].
  split; [done|]. intros p. rewrite (portInRanges_perm p _ (foldl merge_step [] (merge_sort range_le ranges)));
    [|by rewrite <- Permutation_rev]. rewrite H2. cbn. apply portInRanges_perm, merge_sort_Permutation.
Qed.

(** ** Counting *)

(** How many ports of [lo .. hi] satisfy [f]. *)
Definition count_ports (f : Z -> bool) (lo hi : Z) : Z :=
  Z.of_nat (length (List.filter f (seqZ lo (hi - lo + 1)))).

Lemma elem_of_pool pool p : p ∈ pool_ports pool <-> Start pool <= p <= End pool.
Proof. unfold pool_ports. rewrite elem_of_seqZ. lia. Qed.

Lemma count_ext f g lo hi : (forall p, lo <= p <= hi -> f p = g p) -> count_ports f lo hi = count_ports g lo hi.
Proof.
  intros E. unfold count_ports. do 2 f_equal. apply filter_ext_in. intros p Hp.
  apply list_elem_of_In, elem_of_seqZ in Hp. apply E. lia.
Qed.
Lemma count_split f lo mid hi : lo <= mid + 1 -> mid <= hi -> count_ports f lo hi = count_ports f lo mid + count_ports f (mid + 1) hi.
Proof.
  intros H1 H2. unfold count_ports. replace (hi - lo + 1) with ((mid - lo + 1) + (hi - mid)) by lia.
  rewrite seqZ_app by lia. rewrite List.filter_app, length_app, Nat2Z.inj_add.
  replace (lo + (mid - lo + 1)) with (mid + 1) by lia. by replace (hi - (mid + 1) + 1) with (hi - mid) by lia.
Qed.
Lemma count_none f lo hi : (forall p, lo <= p <= hi -> f p = false) -> count_ports f lo hi = 0.
Proof.
  intros E. rewrite (count_ext f (fun _ => false)) by done. unfold count_ports.
  by induction (seqZ lo (hi - lo + 1)) as [|x l IH].
Qed.
Lemma count_all f lo hi : lo <= hi + 1 -> (forall p, lo <= p <= hi -> f p = true) -> count_ports f lo hi = hi - lo + 1.
Proof.
  intros Hl E. rewrite (count_ext f (fun _ => true)) by done. unfold count_ports.
  rewrite List.filter_true, length_seqZ. lia.
Qed.
Lemma count_negb f lo hi : lo <= hi + 1 -> count_ports (fun p => negb (f p)) lo hi = hi - lo + 1 - count_ports f lo hi.
Proof.
  intros Hl. unfold count_ports. pose proof (List.filter_length f (seqZ lo (hi - lo + 1))) as E.
  rewrite length_seqZ in E. lia.
Qed.

Lemma count_ranges_app l r : countPortsInRanges (l ++ [r]) = countPortsInRanges l + (rg_end r - rg_start r + 1).
Proof. unfold countPortsInRanges. by rewrite foldl_app. Qed.

(** Merged ranges inside a pool hold as many ports as their lengths say. *)
Lemma count_merged out lo hi :
  merged out -> Forall (fun r => lo <= rg_start r /\ rg_end r <= hi) out ->
  countPortsInRanges (rev out) = count_ports (fun p => portInRanges p out) lo hi.
Proof.
  revert hi. induction out as [|r out IH]; intros hi Hm Hin; [symmetry; by apply count_none|].
  destruct Hm as (Hr&Hs&Hm). apply Forall_cons in Hin as [[Hlo Hhi] Hin]. cbn [rev]. rewrite count_ranges_app.
  assert (forall p, portInRanges p out = true -> p < rg_start r) as Hbelow.
  { intros p Hp. destruct out as [|r' out]; [done|]. clear IH.
    assert (forall r' out, merged (r' :: out) -> portInRanges p (r' :: out) = true -> p <= rg_end r') as Hle.
    { clear. intros r out. revert r. induction out as [|r' out IH]; intros r (Hr&Hs&Hm) Hp.
      - rewrite portInRanges_cons, orb_true_iff, contains_spec in Hp. cbn in Hp. intuition lia.
      - rewrite portInRanges_cons, orb_true_iff, contains_spec in Hp. destruct Hp as [?|Hp]; [lia|].
        specialize (IH r' Hm Hp). lia. }
    specialize (Hle r' out Hm Hp). lia. }
  rewrite (IH (rg_start r - 1) Hm).
  2: { destruct out as [|r' out]; [done|]. clear IH Hbelow. rewrite Forall_forall in Hin |- *. intros q Hq. split; [by apply Hin|].
    assert (forall r' out, merged (r' :: out) -> q ∈ r' :: out -> rg_end q <= rg_end r') as Hle.
    { clear. intros r out. revert r. induction out as [|r' out IH]; intros r (Hr&Hs&Hm) Hq.
      - apply list_elem_of_singleton in Hq. subst. lia.
      - apply elem_of_cons in Hq as [->|Hq]; [lia|]. specialize (IH r' Hm Hq). destruct Hm. lia. }
    specialize (Hle r' out Hm Hq). lia. }
  rewrite (count_split _ lo (rg_start r - 1) hi), (count_split _ (rg_start r - 1 + 1) (rg_end r) hi) by lia.
  rewrite (count_ext (fun p => portInRanges p (r :: out)) (fun p => portInRanges p out) lo (rg_start r - 1)).
  2: { intros p Hp. rewrite portInRanges_cons. replace (contains r p) with false; [done|].
       symmetry. apply not_true_iff_false. rewrite contains_spec. lia. }
  rewrite (count_all _ (rg_start r - 1 + 1) (rg_end r)), (count_none _ (rg_end r + 1) hi); [lia| |lia|].
  - intros p Hp. rewrite portInRanges_cons. apply orb_false_iff. split.
    + apply not_true_iff_false. rewrite contains_spec. lia.
    + apply not_true_iff_false. intros H%Hbelow. lia.
  - intros p Hp. rewrite portInRanges_cons. apply orb_true_iff. left. apply contains_spec. lia.
Qed.

(** ** Exclusion *)
Lemma clip_spec pool ranges p :
  portInRanges p (omap (clip pool) ranges) = (Start pool <=? p) && (p <=? End pool) && portInRanges p ranges.
Proof.
  apply eq_true_iff_eq. rewrite !andb_true_iff, !portInRanges_spec, !Z.leb_le.
  setoid_rewrite list_elem_of_omap. unfold clip. split.
  - intros (r&(q&Hq&E)&Hp). repeat (case_match; breflect); simplify_eq/=;
      (split; [lia|]; exists q; split; [done|lia]).
  - intros [Hp (q&Hq&Hpq)].
    destruct ((rg_end q <? Start pool) || (End pool <? rg_start q)) eqn:E; [breflect; lia|].
    eexists. split; [exists q; split; [done|by rewrite E]|]. cbn. repeat case_match; breflect; lia.
Qed.
Lemma excluded_spec pool ranges p :
  portInRanges p (excludedRangesInPool pool ranges) = (Start pool <=? p) && (p <=? End pool) && portInRanges p ranges.
Proof. unfold excludedRangesInPool. by rewrite (proj2 (merge_ranges_exact _)), clip_spec. Qed.

(** Merged ranges have both ends among their ports, so they lie in the pool. *)
Lemma excluded_count pool ranges :
  countPortsInRanges (excludedRangesInPool pool ranges) =
  count_ports (fun p => portInRanges p ranges) (Start pool) (End pool).
Proof.
  destruct (merge_ranges_exact (omap (clip pool) ranges)) as [Hm _].
  fold (excludedRangesInPool pool ranges) in Hm. set (l := excludedRangesInPool pool ranges) in *.
  rewrite <- (rev_involutive l). rewrite (count_merged _ (Start pool) (End pool) Hm).
  - apply count_ext. intros p Hp. rewrite (portInRanges_perm p _ l) by (by rewrite <- Permutation_rev).
    unfold l. rewrite excluded_spec. destruct (portInRanges p ranges); [|by rewrite andb_false_r].
    rewrite andb_true_r. apply andb_true_iff. rewrite !Z.leb_le. done.
  - assert (forall r, r ∈ rev l -> rg_start r <= rg_end r) as Hne.
    { clear -Hm. induction (rev l) as [|q o IH]; intros r Hr; [by apply elem_of_nil in Hr|].
      destruct Hm as (?&_&?). apply elem_of_cons in Hr as [->|Hr]; [done|by apply IH]. }
    apply Forall_forall. intros r Hr. specialize (Hne r Hr).
    assert (forall p, rg_start r <= p <= rg_end r -> portInRanges p l = true) as Hp.
    { intros p Hp. apply portInRanges_spec. exists r. split; [|done].
      rewrite list_elem_of_In in Hr |- *. by apply in_rev. }
    pose proof (Hp (rg_start r) ltac:(lia)) as E1. pose proof (Hp (rg_end r) ltac:(lia)) as E2.
    unfold l in E1, E2. rewrite excluded_spec, !andb_true_iff, !Z.leb_le in E1, E2. lia.
Qed.

(** ** Properties *)

(** A port a daemon can be given. *)
Definition free (taken : gset Z) (osExcluded : list tcpPortRange) (available : Z -> bool) (p : Z) : Prop :=
  p ∉ taken /\ portInRanges p osExcluded = false /\ available p = true.

Lemma scan_pool_spec taken excluded available ports n :
  match scan_pool taken excluded available ports n with
  | inl p => exists before after, ports = before ++ p :: after /\ free taken excluded available p /\
               Forall (fun q => ~ free taken excluded available q) before
  | inr occupied => Forall (fun q => ~ free taken excluded available q) ports /\
      occupied = n + Z.of_nat (length (List.filter (fun p => negb (bool_decide (p ∈ taken) || portInRanges p excluded)) ports))
  end.
Proof.
  revert n. induction ports as [|p ports IH]; intros n; cbn [scan_pool]; [split; [done|cbn; lia]|].
  assert (forall m d, ~ free taken excluded available p ->
    (if negb (bool_decide (p ∈ taken) || portInRanges p excluded) then 1 else 0) = d -> m = n + d ->
    match scan_pool taken excluded available ports m with
    | inl q => exists before after, p :: ports = before ++ q :: after /\ free taken excluded available q /\
                 Forall (fun q => ~ free taken excluded available q) before
    | inr occupied => Forall (fun q => ~ free taken excluded available q) (p :: ports) /\
        occupied = n + Z.of_nat (length (List.filter (fun p => negb (bool_decide (p ∈ taken) || portInRanges p excluded)) (p :: ports)))
    end) as Hskip.
  { intros m d Hp Hd ->. specialize (IH (n + d)).
    destruct (scan_pool taken excluded available ports (n + d)) as [q|occ].
    - destruct IH as (before&after&->&Hq&Hb). exists (p :: before), after. split_and!; [done|done|by constructor].
    - destruct IH as [Hf ->]. split; [by constructor|]. cbn [List.filter].
      destruct (negb _); cbn [length]; lia. }
  unfold free in *. destruct (bool_decide (p ∈ taken)) eqn:Ht.
  { apply (Hskip n 0); [|done|lia]. apply bool_decide_eq_true in Ht. by intros [? _]. }
  destruct (portInRanges p excluded) eqn:Hx; [apply (Hskip n 0); [by intros (_&?&_)|done|lia]|].
  destruct (available p) eqn:Ha; cbn [negb].
  - exists [], ports. apply bool_decide_eq_false in Ht. by split_and!.
  - apply (Hskip (n + 1) 1); [by intros (_&_&?)|done|lia].
Qed.

(** A port is handed out exactly when it is the lowest one of the pool
    that is neither registered, nor excluded by the system, nor in use, for
    whatever ranges the system reports, overlapping, adjacent, inverted or out
    of the pool; and an exhausted pool is reported with the exact numbers of
    its usable ports and of those other processes hold. *)
Theorem allocate_port_lowest taken pool osExcluded available :
  let free := free taken osExcluded.1 available in
  match AllocatePort taken pool osExcluded available with
  | Allocated p => Start pool <= p <= End pool /\ free p /\ forall q, Start pool <= q < p -> ~ free q
  | InvalidPool => Start pool <= 0 \/ End pool < Start pool
  | PortPoolExhausted x =>
      (forall q, Start pool <= q <= End pool -> ~ free q) /\
      xh_usable x = count_ports (fun p => negb (portInRanges p osExcluded.1)) (Start pool) (End pool) /\
      xh_excluded x = xh_total x - xh_usable x /\
      xh_occupied x = count_ports (fun p => negb (bool_decide (p ∈ taken) || portInRanges p osExcluded.1)) (Start pool) (End pool)
  end.
Proof.
  cbv zeta. unfold AllocatePort. destruct ((Start pool <=? 0) || (End pool <? Start pool)) eqn:Hv; [breflect; lia|].
  breflect. pose proof (scan_pool_spec taken (excludedRangesInPool pool osExcluded.1) available (pool_ports pool) 0) as Hs.
  assert (forall q, Start pool <= q <= End pool ->
    portInRanges q (excludedRangesInPool pool osExcluded.1) = portInRanges q osExcluded.1) as Hx.
  { intros q Hq. rewrite excluded_spec. destruct (portInRanges q osExcluded.1); [|by rewrite andb_false_r].
    rewrite andb_true_r. apply andb_true_iff. by rewrite !Z.leb_le. }
  assert (forall q, Start pool <= q <= End pool ->
    free taken (excludedRangesInPool pool osExcluded.1) available q <-> free taken osExcluded.1 available q) as Hfree.
  { intros q Hq. unfold free. by rewrite Hx. }
  destruct (scan_pool _ _ _ _ _) as [p|occupied].
  - destruct Hs as (before&after&E&Hp&Hb).
    assert (Start pool <= p <= End pool) as Hin by (apply elem_of_pool; rewrite E; set_solver).
    split; [done|]. split; [by apply Hfree|]. intros q Hq. rewrite <- Hfree by lia.
    rewrite Forall_forall in Hb. apply Hb. apply (list_elem_of_lookup_2 _ (Z.to_nat (q - Start pool))).
    assert (pool_ports pool !! length before = Some p) as Ep by (rewrite E; by apply list_lookup_middle).
    apply lookup_seqZ in Ep as [Ep _].
    rewrite <- (lookup_app_l before (p :: after)) by lia. rewrite <- E. apply lookup_seqZ. lia.
  - destruct Hs as [Hf ->]. cbn [xh_usable xh_excluded xh_total xh_occupied].
    rewrite excluded_count, count_negb by lia. split; [|split_and!; [lia..|]].
    + intros q Hq. rewrite <- Hfree by done. rewrite Forall_forall in Hf. by apply Hf, elem_of_pool.
    + apply (count_ext (fun p => negb (bool_decide (p ∈ taken) || portInRanges p (excludedRangesInPool pool osExcluded.1)))).
      intros p Hp. by rewrite Hx.
Qed.

Lemma find_lowest f lo hi p :
  List.find f (seqZ lo (hi - lo + 1)) = Some p -> lo <= p <= hi /\ f p = true /\ forall q, lo <= q < p -> f q = false.
Proof.
  intros Hf. assert (exists before after, seqZ lo (hi - lo + 1) = before ++ p :: after /\ f p = true /\
    Forall (fun q => f q = false) before) as (before&after&E&Hp&Hb).
  { revert Hf. induction (seqZ lo (hi - lo + 1)) as [|x l IH]; [done|]. cbn.
    destruct (f x) eqn:Ex; [intros [= ->]; by exists [], l|].
    intros (b&a&->&?&?)%IH. exists (x :: b), a. split_and!; [done|done|by constructor]. }
  assert (seqZ lo (hi - lo + 1) !! length before = Some p) as Ep by (rewrite E; by apply list_lookup_middle).
  apply lookup_seqZ in Ep as [Ep Hl]. split; [lia|]. split; [done|]. intros q Hq. rewrite Forall_forall in Hb.
  apply Hb. apply (list_elem_of_lookup_2 _ (Z.to_nat (q - lo))).
  rewrite <- (lookup_app_l before (p :: after)) by lia. rewrite <- E. apply lookup_seqZ. lia.
Qed.

(** A pool without a probe, and the band of the marketplace. *)
Lemma allocate_serena_lowest taken pool p :
  AllocateSerenaPort taken pool = Ok p ->
  Start pool <= p <= End pool /\ 0 < p /\ p ∉ taken /\ forall q, Start pool <= q < p -> q ∈ taken.
Proof.
  unfold AllocateSerenaPort. destruct (_ || _) eqn:Hv; [done|]. breflect.
  destruct (List.find _ _) as [q|] eqn:Hf; [|done]. intros [= ->]. apply find_lowest in Hf as (H1&H2&H3). breflect.
  split_and!; [lia..|done|]. intros q Hq. apply H3 in Hq. by breflect.
Qed.
Lemma allocate_global_in_band taken available p :
  AllocateSingleGlobalPort taken available = Ok p ->
  PortInGlobalDaemonBand p = true /\ p <> 9125 /\ free taken [] available p /\
  forall q, globalDaemonBandStart <= q < p -> ~ free taken [] available q.
Proof.
  unfold AllocateSingleGlobalPort, PortInGlobalDaemonBand, free. destruct (List.find _ _) as [q|] eqn:Hf; [|done].
  intros [= ->]. apply find_lowest in Hf as (H1&H2&H3). cbn in H1. breflect.
  unfold globalDaemonBandStart, globalDaemonBandEnd in *. split_and!; try done; [lia..|tauto|tauto|].
  intros r Hr (?&_&Ha). apply H3 in Hr. breflect. rewrite Ha in Hr. destruct Hr; [by breflect|done].
Qed.

(** The language servers' pool, with three registered ports, ranges the
    system reports out of order, and one port in use. *)
Example allocation_example :
  AllocatePort {[9400; 9401; 9405]} (mkPool 9400 9410)
    ([mkRange 9406 9408; mkRange 9402 9403; mkRange 9403 9403; mkRange 9300 9250], None) (fun p => negb (p =? 9404))
  = Allocated 9409.
Proof. vm_compute. reflexivity. Qed.
Example exhaustion_example :
  AllocatePort {[9400]} (mkPool 9400 9403) ([mkRange 9402 9500; mkRange 9401 9401], None) (fun _ => true)
  = PortPoolExhausted (mkExhaustion 4 3 1 1 0 [mkRange 9401 9403] None).
Proof. vm_compute. reflexivity. Qed.
