(* ===== verification/Registry.v ===== *)
(** * Registry: the workspace registry ([api/workspace_registry.go]).

    [workspaces.yaml] lists the daemons of every workspace, one row for each
    workspace and language.  Its writers are several processes; each reads,
    changes and rewrites the file under the file's lock, so an operation is a
    function of the rows on disk, and of what goes wrong. *)
From S2P Require Import Prelude GoTime Intent Descriptor Ports.
Open Scope Z_scope.

Definition LifecycleConfigured : string := "configured".
Definition LifecycleStarting : string := "starting".
Definition LifecycleActive : string := "active".
Definition LifecycleMissing : string := "missing".
Definition LifecycleFailed : string := "failed".
Definition SerenaLanguageSentinel : string := "@serena".
Definition MaxLastErrorBytes : nat := 200.

Record WorkspaceEntry := mkEntry {
  we_WorkspaceKey : string; we_WorkspacePath : string; we_Language : string; we_Backend : string; we_Port : Z;
  we_TaskName : string; we_ClientEntries : gmap string string; we_WeeklyRefresh : bool;
  we_Lifecycle : string; we_LastMaterializedAt : time; we_LastToolsCallAt : time; we_LastError : string;
  we_RegisteredAt : time; we_RegisteredVia : string; we_Languages : list string;
  we_PendingSerenaRemoval : bool; we_PendingSerenaRemovalAt : time; we_PendingSerenaRemovalGeneration : string;
}.
Definition entry_eta (e : WorkspaceEntry) : WorkspaceEntry :=
  mkEntry (we_WorkspaceKey e) (we_WorkspacePath e) (we_Language e) (we_Backend e) (we_Port e) (we_TaskName e)
    (we_ClientEntries e) (we_WeeklyRefresh e) (we_Lifecycle e) (we_LastMaterializedAt e) (we_LastToolsCallAt e)
    (we_LastError e) (we_RegisteredAt e) (we_RegisteredVia e) (we_Languages e) (we_PendingSerenaRemoval e)
    (we_PendingSerenaRemovalAt e) (we_PendingSerenaRemovalGeneration e).
#[global] Instance set_we_Lifecycle : Setter we_Lifecycle := ltac:(derive_setter entry_eta we_Lifecycle).
#[global] Instance set_we_LastMaterializedAt : Setter we_LastMaterializedAt :=
  ltac:(derive_setter entry_eta we_LastMaterializedAt).
#[global] Instance set_we_LastToolsCallAt : Setter we_LastToolsCallAt := ltac:(derive_setter entry_eta we_LastToolsCallAt).
#[global] Instance set_we_LastError : Setter we_LastError := ltac:(derive_setter entry_eta we_LastError).
#[global] Instance set_we_RegisteredAt : Setter we_RegisteredAt := ltac:(derive_setter entry_eta we_RegisteredAt).
#[global] Instance set_we_PendingSerenaRemoval : Setter we_PendingSerenaRemoval :=
  ltac:(derive_setter entry_eta we_PendingSerenaRemoval).
#[global] Instance set_we_PendingSerenaRemovalAt : Setter we_PendingSerenaRemovalAt :=
  ltac:(derive_setter entry_eta we_PendingSerenaRemovalAt).
#[global] Instance set_we_PendingSerenaRemovalGeneration : Setter we_PendingSerenaRemovalGeneration :=
  ltac:(derive_setter entry_eta we_PendingSerenaRemovalGeneration).

(** The rows of the file, in their order. *)
Notation rows := (list WorkspaceEntry).

(** ** Rows *)
Definition is_row (workspaceKey language : string) (e : WorkspaceEntry) : bool :=
  (we_WorkspaceKey e =s workspaceKey) && (we_Language e =s language).
Fixpoint Put (r : rows) (e : WorkspaceEntry) : rows :=
  match r with
  | [] => [e]
  | w :: r => if is_row (we_WorkspaceKey e) (we_Language e) w then e :: r else w :: Put r e
  end.
Definition Get (r : rows) (workspaceKey language : string) : option WorkspaceEntry :=
  List.find (is_row workspaceKey language) r.
Definition Remove (r : rows) (workspaceKey language : string) : rows :=
  List.filter (fun e => negb (is_row workspaceKey language e)) r.

Definition AllocatedPorts (r : rows) : gset Z :=
  list_to_set (List.filter (fun p => 0 <? p) (List.map we_Port r)).
Definition ListByWorkspace (r : rows) (workspaceKey : string) : rows :=
  List.filter (fun e => we_WorkspaceKey e =s workspaceKey) r.
Definition PutLSP (r : rows) (e : WorkspaceEntry) : res rows :=
  if has_prefix "@" (we_Language e) then Err (errors_New "PutLSP: language is reserved") else Ok (Put r e).
Definition PutSerena (r : rows) (e : WorkspaceEntry) : res rows :=
  if negb (we_Language e =s SerenaLanguageSentinel) then Err (errors_New "PutSerena: language must be @serena exactly")
  else Ok (Put r e).
Definition SerenaEntries (r : rows) : rows := List.filter (fun e => we_Language e =s SerenaLanguageSentinel) r.
Definition LSPEntries (r : rows) : rows := List.filter (fun e => negb (we_Language e =s SerenaLanguageSentinel)) r.
Definition GetSerena (r : rows) (workspaceKey : string) : option WorkspaceEntry := Get r workspaceKey SerenaLanguageSentinel.
Definition ListByWorkspaceLSP (r : rows) (workspaceKey : string) : rows :=
  List.filter (fun e => (we_WorkspaceKey e =s workspaceKey) && negb (we_Language e =s SerenaLanguageSentinel)) r.
Definition RemoveSerena (r : rows) (workspaceKey : string) : rows := Remove r workspaceKey SerenaLanguageSentinel.

(** Whether [RemoveByBackend] drops a row of the workspace. *)
Definition dropped_by (backendFilter : string) (e : WorkspaceEntry) : bool :=
  let serena := we_Language e =s SerenaLanguageSentinel in
  if backendFilter =s "" then negb serena
  else if backendFilter =s "all" then true
  else if backendFilter =s "serena" then serena
  else negb serena && ((we_Backend e =s backendFilter) || (we_Language e =s backendFilter)).
Definition RemoveByBackend (r : rows) (workspaceKey backendFilter : string) : rows * Z :=
  let drop e := (we_WorkspaceKey e =s workspaceKey) && dropped_by backendFilter e in
  (List.filter (fun e => negb (drop e)) r, Z.of_nat (length (List.filter drop r))).

(** ** The file *)

(** What goes wrong in one operation: the lock, the read, the write and
    whether the rename had happened, the release of the lock. *)
Record registry_io := mkRegistryIo {
  ri_lock : option error; ri_load : option error; ri_save : option error; ri_renamed : bool; ri_release : option error;
}.
Definition registry_ok : registry_io := mkRegistryIo None None None false None.

Definition Save (i : registry_io) (disk r : rows) : rows * option error :=
  match ri_save i with
  | None => (r, None)
  | Some e => (if ri_renamed i then r else disk, Some e)
  end.

(** [Lock], [Load], the body, and the deferred release joined to its error;
    [lost] is what is returned when the lock or the read fails. *)
Definition locked {A} (i : registry_io) (disk : rows) (lost : A) (body : rows -> rows * A * option error)
    : rows * A * option error :=
  match ri_lock i with
  | Some e => (disk, lost, Some e)
  | None =>
      let '(disk', a, err) :=
        match ri_load i with
        | Some e => (disk, lost, Some e)
        | None => body disk
        end in
      (disk', a, join_err err (wrapf "release registry lock" <$> ri_release i))
  end.

(** *** Lifecycle *)
Definition PutLifecycleWithTimestamps (i : registry_io) (disk : rows) (workspaceKey language state lastError : string)
    (materializedAt toolsCallAt : time) : rows * unit * option error :=
  locked i disk tt (fun r =>
    match Get r workspaceKey language with
    | None => (r, tt, None)
    | Some e =>
        let e := e <| we_Lifecycle := state |>
                   <| we_LastError := if Nat.ltb MaxLastErrorBytes (String.length lastError)
                                      then substring 0 MaxLastErrorBytes lastError else lastError |> in
        let e := if IsZero materializedAt then e else e <| we_LastMaterializedAt := materializedAt |> in
        let e := if IsZero toolsCallAt then e else e <| we_LastToolsCallAt := toolsCallAt |> in
        let '(disk, err) := Save i r (Put r e) in (disk, tt, err)
    end).
Definition PutLifecycle (i : registry_io) (disk : rows) (workspaceKey language state lastError : string)
    : rows * unit * option error :=
  PutLifecycleWithTimestamps i disk workspaceKey language state lastError zero_time zero_time.
Definition PutLastToolsCallAt (i : registry_io) (disk : rows) (workspaceKey language : string) (toolsCallAt : time)
    : rows * unit * option error :=
  if IsZero toolsCallAt then (disk, tt, None)
  else
    locked i disk tt (fun r =>
      match Get r workspaceKey language with
      | None => (r, tt, None)
      | Some e => let '(disk, err) := Save i r (Put r (e <| we_LastToolsCallAt := toolsCallAt |>)) in (disk, tt, err)
      end).

(** *** Pending removal *)
Definition ErrSerenaPendingRemovalRollbackConflict : error :=
  sentinel "ErrSerenaPendingRemovalRollbackConflict" "serena pending-removal rollback ownership conflict".
Definition ErrSerenaPendingRemovalTargetAbsent : error :=
  sentinel "ErrSerenaPendingRemovalTargetAbsent" "serena pending-removal target absent".

Record serenaPendingRemovalTuple := mkTuple { pt_pending : bool; pt_at : time; pt_generation : string }.
#[global] Instance serenaPendingRemovalTuple_eq_dec : EqDecision serenaPendingRemovalTuple.
Proof. solve_decision. Defined.
Definition serenaPendingRemovalTupleFor (e : WorkspaceEntry) : serenaPendingRemovalTuple :=
  mkTuple (we_PendingSerenaRemoval e) (we_PendingSerenaRemovalAt e) (we_PendingSerenaRemovalGeneration e).
Definition with_tuple (t : serenaPendingRemovalTuple) (e : WorkspaceEntry) : WorkspaceEntry :=
  e <| we_PendingSerenaRemoval := pt_pending t |> <| we_PendingSerenaRemovalAt := pt_at t |>
    <| we_PendingSerenaRemovalGeneration := pt_generation t |>.

Definition is_hex_digit (a : ascii) : bool :=
  let n := nat_of_ascii a in
  (Nat.leb 48 n && Nat.leb n 57) || (Nat.leb 65 n && Nat.leb n 70) || (Nat.leb 97 n && Nat.leb n 102).
Definition validSerenaRemovalFenceGeneration (generation : string) : bool :=
  Nat.eqb (String.length generation) 32 && forallb is_hex_digit (list_ascii_of_string generation).
Definition dedupeWorkspaceKeys (wsKey legacyWSKey : string) : list string :=
  wsKey :: (if negb (legacyWSKey =s "") && negb (legacyWSKey =s wsKey) then [legacyWSKey] else []).

(** What the returned [rollback] closes over. *)
Record rollback_owner := mkOwner { ro_before : gmap string serenaPendingRemovalTuple; ro_attempt : serenaPendingRemovalTuple }.

Definition stage_step (attempt : serenaPendingRemovalTuple) (acc : rows * gmap string serenaPendingRemovalTuple)
    (key : string) : rows * gmap string serenaPendingRemovalTuple :=
  let '(r, before) := acc in
  match GetSerena r key with
  | None => acc
  | Some e => (Put r (with_tuple attempt e), <[key := serenaPendingRemovalTupleFor e]> before)
  end.
Definition BeginSerenaPendingRemoval (i : registry_io) (now : time) (disk : rows) (wsKey legacyWSKey generation : string)
    : rows * option rollback_owner * option error :=
  if negb (generation =s "") && negb (validSerenaRemovalFenceGeneration generation)
  then (disk, None, Some (errors_New "begin pending serena removal generation: malformed generation"))
  else
    locked i disk None (fun r =>
      let attempt := mkTuple true now generation in
      let '(r', before) := foldl (stage_step attempt) (r, ∅) (dedupeWorkspaceKeys wsKey legacyWSKey) in
      if bool_decide (before = ∅) then (r, None, Some ErrSerenaPendingRemovalTargetAbsent)
      else let '(disk, err) := Save i r r' in (disk, Some (mkOwner before attempt), err)).

Definition rollback_step (attempt : serenaPendingRemovalTuple) (acc : rows * bool * option error)
    (entry : string * serenaPendingRemovalTuple) : rows * bool * option error :=
  let '(r, changed, conflicts) := acc in
  let '(key, prior) := entry in
  match GetSerena r key with
  | None => acc
  | Some e =>
      let got := serenaPendingRemovalTupleFor e in
      if bool_decide (got = attempt) then (Put r (with_tuple prior e), true, conflicts)
      else if bool_decide (got = prior) then acc
      else (r, changed, join_err conflicts (Some ErrSerenaPendingRemovalRollbackConflict))
  end.
Definition rollback (i : registry_io) (o : rollback_owner) (disk : rows) : rows * unit * option error :=
  locked i disk tt (fun r =>
    let '(r', changed, conflicts) := foldl (rollback_step (ro_attempt o)) (r, false, None) (map_to_list (ro_before o)) in
    if changed : bool then let '(disk, err) := Save i r r' in (disk, tt, join_err conflicts err) else (r, tt, conflicts)).

(** *** Removal with a verdict on an uncertain write *)

(** [RemoveSerenaRowsAndSave] on the loaded rows [r]; [reload] is the error
    of reading the file back.  The verdict is (removed, committed). *)
Definition RemoveSerenaRowsAndSave (i : registry_io) (reload : option error) (disk r : rows) (workspaceKeys : list string)
    : rows * (Z * bool) * option error :=
  let '(r', removed) :=
    foldl (fun (acc : rows * Z) key => let '(r, n) := RemoveByBackend acc.1 key "serena" in (r, acc.2 + n)) (r, 0) workspaceKeys in
  match Save i disk r' with
  | (disk, None) => (disk, (removed, true), None)
  | (disk, Some e) =>
      match reload with
      | Some loadErr => (disk, (0, false), Some (errors_Join e (wrapf "re-read registry" loadErr)))
      | None =>
          if existsb (fun key => match GetSerena disk key with Some _ => true | None => false end) workspaceKeys
          then (disk, (0, false), Some e)
          else (disk, (removed, true), Some e)
      end
  end.

(** *** Activity *)
Definition ErrSerenaActivityTargetStale : error :=
  sentinel "ErrSerenaActivityTargetStale" "serena activity target stale".

Record SerenaActivityCommitRequestV1 := mkActivityRequest {
  ar_ProtocolVersion : Z; ar_WorkspaceKey : string; ar_WorkspacePath : string; ar_TaskName : string;
  ar_ExpectedPort : Z; ar_RegisteredAt : time; ar_LegacyGenerationUnspecified : bool; ar_ActivityAt : time;
}.
Record SerenaActivityCommitReceiptV1 := mkActivityReceipt {
  ac_WorkspaceKey : string; ac_TaskName : string; ac_RegisteredAt : time; ac_LegacyGenerationRepaired : bool;
  ac_ActivityAt : time; ac_State : string;
}.

Definition valid_activity_request (q : SerenaActivityCommitRequestV1) : bool :=
  negb (negb (ar_ProtocolVersion q =? 1) || (ar_WorkspaceKey q =s "") || (ar_WorkspacePath q =s "") ||
        (ar_TaskName q =s "") || (ar_ExpectedPort q <=? 0) || IsZero (ar_ActivityAt q) ||
        (ar_LegacyGenerationUnspecified q && negb (IsZero (ar_RegisteredAt q))) ||
        (negb (ar_LegacyGenerationUnspecified q) && IsZero (ar_RegisteredAt q))).

Definition serenaActivityTargetMatches (e : WorkspaceEntry) (q : SerenaActivityCommitRequestV1) : bool :=
  (we_Language e =s SerenaLanguageSentinel) && (we_Backend e =s SerenaServerName) &&
  (we_WorkspaceKey e =s ar_WorkspaceKey q) && (we_WorkspacePath e =s ar_WorkspacePath q) &&
  (we_TaskName e =s ar_TaskName q) && (we_Port e =? ar_ExpectedPort q) &&
  ((ar_LegacyGenerationUnspecified q && IsZero (we_RegisteredAt e)) ||
   (negb (ar_LegacyGenerationUnspecified q) && (we_RegisteredAt e =? ar_RegisteredAt q))).
Definition serenaActivityIntentMatches (intent : option SupervisorIntentFile) (q : SerenaActivityCommitRequestV1) : bool :=
  match intent with
  | None => false
  | Some f =>
      existsb (fun d => (canonicalIntentTaskKey (sd_TaskName d) =s canonicalIntentTaskKey (ar_TaskName q)) &&
                        (sd_Workspace d =s ar_WorkspacePath q) && (sd_Port d =? ar_ExpectedPort q)) (si_Daemons f)
  end.

(** What [CommitSerenaActivity] reads besides the registry: the lock of the
    intent file, its two readings, its release, the clock. *)
Record activity_io := mkActivityIo {
  ai_intentLock : option error; ai_intent : res (option SupervisorIntentFile);
  ai_intentAgain : res (option SupervisorIntentFile); ai_intentRelease : option error; ai_now : time;
}.

(** The body, under both locks. *)
Definition commit_activity (i : registry_io) (a : activity_io) (q : SerenaActivityCommitRequestV1) (r : rows)
    : rows * option SerenaActivityCommitReceiptV1 * option error :=
  let fail (e : error) := (r, None, Some e) in
  match Get r (ar_WorkspaceKey q) SerenaLanguageSentinel with
  | None => fail ErrSerenaActivityTargetStale
  | Some entry =>
      if negb (serenaActivityTargetMatches entry q) then fail ErrSerenaActivityTargetStale
      else
        match ai_intent a with
        | Err e => fail (wrapf "read supervisor intent" e)
        | Ok intent =>
            if negb (serenaActivityIntentMatches intent q) then fail ErrSerenaActivityTargetStale
            else
              let repaired := IsZero (we_RegisteredAt entry) in
              if repaired && IsZero (ai_now a) then fail (errors_New "supervisor activity clock returned zero generation")
              else
                let entry := if repaired then entry <| we_RegisteredAt := ai_now a |> else entry in
                let receipt (state : string) :=
                  mkActivityReceipt (ar_WorkspaceKey q) (ar_TaskName q) (we_RegisteredAt entry) repaired
                    (ar_ActivityAt q) state in
                let save (e : WorkspaceEntry) (state : string) :=
                  match Save i r (Put r e) with
                  | (disk, Some err) => (disk, None, Some err)
                  | (disk, None) => (disk, Some (receipt state), None)
                  end in
                if negb (IsZero (we_LastToolsCallAt entry)) && negb (Before (we_LastToolsCallAt entry) (ar_ActivityAt q))
                then if repaired then save entry "already_committed" else (r, Some (receipt "already_committed"), None)
                else
                  match ai_intentAgain a with
                  | Err e => fail (wrapf "re-read supervisor intent" e)
                  | Ok intent =>
                      if negb (serenaActivityIntentMatches intent q) then fail ErrSerenaActivityTargetStale
                      else save (entry <| we_LastToolsCallAt := ar_ActivityAt q |>) "committed"
                  end
        end
  end.
Definition CommitSerenaActivity (i : registry_io) (a : activity_io) (disk : rows) (q : SerenaActivityCommitRequestV1)
    : rows * option SerenaActivityCommitReceiptV1 * option error :=
  if negb (valid_activity_request q)
  then (disk, None, Some (errors_New "supervisor IPC commit_serena_activity: invalid request"))
  else
    match ri_lock i with
    | Some e => (disk, None, Some e)
    | None =>
        let '(disk', receipt, err) :=
          match ai_intentLock a with
          | Some e => (disk, None, Some (wrapf "lock supervisor intent" e))
          | None =>
              let '(disk', receipt, err) :=
                match ri_load i with
                | Some e => (disk, None, Some e)
                | None => commit_activity i a q disk
                end in
              (disk', receipt, join_err err (wrapf "release supervisor-intent lock" <$> ai_intentRelease a))
          end in
        (disk', receipt, join_err err (wrapf "commit serena activity: release registry lock" <$> ri_release i))
    end.

(** ** Rows as a map *)
Definition row_key (e : WorkspaceEntry) : string * string := (we_WorkspaceKey e, we_Language e).
Definition row_keys (r : rows) : list (string * string) := List.map row_key r.

Lemma is_row_spec k l e : is_row k l e = true <-> row_key e = (k, l).
Proof. unfold is_row, row_key. breflect. split; [by intros [-> ->]|by intros [= -> ->]]. Qed.
Lemma is_row_self e : is_row (we_WorkspaceKey e) (we_Language e) e = true.
Proof. by apply is_row_spec. Qed.
Lemma is_row_other k l e : row_key e <> (k, l) -> is_row k l e = false.
Proof. intros H. apply not_true_iff_false. by rewrite is_row_spec. Qed.

Lemma Get_Some r k l e : Get r k l = Some e -> e ∈ r /\ row_key e = (k, l).
Proof. intros [Hin Hk]%List.find_some. by rewrite list_elem_of_In, <- is_row_spec. Qed.
Lemma Get_is_Some r k l : is_Some (Get r k l) <-> (k, l) ∈ row_keys r.
Proof.
  unfold row_keys. rewrite list_elem_of_fmap. split.
  - intros [e [Hin <-]%Get_Some]. by exists e.
  - intros (e&E&Hin). unfold Get. destruct (List.find _ _) as [e'|] eqn:Hf; [by exists e'|].
    apply list_elem_of_In in Hin. pose proof (List.find_none _ _ Hf _ Hin) as Hn. cbn in Hn.
    assert (is_row k l e = true) as Ht by by apply is_row_spec. congruence.
Qed.

Lemma Get_Put r e k l : Get (Put r e) k l = if decide (row_key e = (k, l)) then Some e else Get r k l.
Proof.
  induction r as [|w r IH]; cbn [Put Get List.find].
  - case_decide as D; [by rewrite (proj2 (is_row_spec _ _ _) D)|by rewrite is_row_other].
  - destruct (is_row (we_WorkspaceKey e) (we_Language e) w) eqn:Hw; cbn [List.find].
    + apply is_row_spec in Hw. case_decide as D; [by rewrite (proj2 (is_row_spec _ _ _) D)|].
      rewrite is_row_other by done. by rewrite is_row_other by (rewrite Hw; done).
    + destruct (is_row k l w) eqn:Hkl; [|exact IH]. case_decide as D; [|done].
      apply is_row_spec in Hkl. rewrite <- D in Hkl. apply is_row_spec in Hkl. congruence.
Qed.
Lemma Put_present r e : row_key e ∈ row_keys r -> row_keys (Put r e) = row_keys r.
Proof.
  induction r as [|w r IH]; [by intros ?%elem_of_nil|]. cbn. intros H.
  destruct (is_row _ _ w) eqn:Hw; cbn; [apply is_row_spec in Hw; by rewrite Hw|].
  f_equal. apply IH. apply elem_of_cons in H as [H|H]; [|done].
  symmetry in H. apply is_row_spec in H. congruence.
Qed.
Lemma Put_absent r e : row_key e ∉ row_keys r -> Put r e = r ++ [e].
Proof.
  induction r as [|w r IH]; [done|]. cbn. intros [H1 H2]%not_elem_of_cons. rewrite is_row_other by done. by rewrite IH.
Qed.
Lemma Put_Get r e k l : Get r k l = Some e -> Put r e = r.
Proof.
  intros H. pose proof (Get_Some _ _ _ _ H) as [_ E]. revert H. unfold Get. induction r as [|w r IH]; [done|].
  cbn. assert (is_row (we_WorkspaceKey e) (we_Language e) w = is_row k l w) as -> by (by injection E as -> ->).
  destruct (is_row k l w); [by intros [= ->]|]. intros H. by rewrite IH.
Qed.
Lemma Put_Put r e e' : row_key e = row_key e' -> Put (Put r e) e' = Put r e'.
Proof.
  intros E. injection E as E1 E2. induction r as [|w r IH]; cbn.
  - by rewrite <- E1, <- E2, is_row_self.
  - rewrite <- E1, <- E2 in *. destruct (is_row _ _ w) eqn:Hw; cbn; rewrite <- ?E1, <- ?E2, ?is_row_self, ?Hw; [done|].
    by rewrite IH.
Qed.
Lemma Put_comm r a b :
  row_key a <> row_key b -> row_key a ∈ row_keys r -> row_key b ∈ row_keys r -> Put (Put r a) b = Put (Put r b) a.
Proof.
  intros Hne. induction r as [|w r IH]; [by intros ?%elem_of_nil|]. cbn. intros Ha Hb.
  destruct (is_row (we_WorkspaceKey a) _ w) eqn:Wa, (is_row (we_WorkspaceKey b) _ w) eqn:Wb; cbn;
    rewrite ?Wa, ?Wb, ?is_row_self; try done.
  - apply is_row_spec in Wa, Wb. destruct Hne. unfold row_key in *. congruence.
  - rewrite (is_row_other _ _ a) by done. done.
  - rewrite (is_row_other _ _ b) by done. done.
  - f_equal. apply IH.
    + apply elem_of_cons in Ha as [E|?]; [|done]. symmetry in E. apply is_row_spec in E. congruence.
    + apply elem_of_cons in Hb as [E|?]; [|done]. symmetry in E. apply is_row_spec in E. congruence.
Qed.

(** Two registries with the same keys, each once, and the same rows are equal. *)
Lemma rows_ext r r' :
  NoDup (row_keys r) -> row_keys r = row_keys r' -> (forall k l, Get r k l = Get r' k l) -> r = r'.
Proof.
  revert r'. induction r as [|w r IH]; intros [|w' r'] Hn E Hg; try done. injection E as Ek El Er.
  cbn in Hn. apply NoDup_cons in Hn as [Hw Hn].
  assert (forall w l, row_key w ∉ row_keys l -> Get l (we_WorkspaceKey w) (we_Language w) = None) as Hnone.
  { intros v l Hv. destruct (Get l _ _) eqn:Hs; [|done]. destruct Hv. apply Get_is_Some. eauto. }
  assert (row_key w = row_key w') as Ew by (unfold row_key; congruence).
  assert (w = w') as <-.
  { specialize (Hg (we_WorkspaceKey w) (we_Language w)). cbn in Hg. rewrite is_row_self in Hg.
    rewrite Ek, El, is_row_self in Hg. congruence. }
  f_equal. apply IH; [done|done|]. intros k l. specialize (Hg k l). cbn in Hg.
  destruct (is_row k l w) eqn:Hk; [|done]. apply is_row_spec in Hk. injection Hk as <- <-.
  rewrite !Hnone; [done| |done]. by rewrite <- Er.
Qed.

(** *** Well-formed registries *)

(** A key occurs once, and only the sentinel begins with its reserved
    character. *)
Record registry_wf (r : rows) : Prop := mkWf {
  wf_keys : NoDup (row_keys r);
  wf_languages : Forall (fun e => has_prefix "@" (we_Language e) = true -> we_Language e = SerenaLanguageSentinel) r;
}.

Lemma Put_wf r e :
  registry_wf r -> (has_prefix "@" (we_Language e) = true -> we_Language e = SerenaLanguageSentinel) -> registry_wf (Put r e).
Proof.
  intros [Hk Hl] He. split.
  - destruct (decide (row_key e ∈ row_keys r)) as [Hin|Hin]; [by rewrite Put_present|].
    rewrite Put_absent by done. unfold row_keys. rewrite List.map_app. apply NoDup_app. split; [done|].
    split; [|apply NoDup_singleton]. intros x Hx ->%list_elem_of_singleton. done.
  - clear Hk. induction Hl as [|w r Hw Hl IH]; cbn; [by constructor|]. case_match; by constructor.
Qed.
Lemma Put_same_language r e e' k l :
  registry_wf r -> Get r k l = Some e -> row_key e' = row_key e -> registry_wf (Put r e').
Proof.
  intros Hwf [Hin _]%Get_Some E. apply Put_wf; [done|]. destruct Hwf as [_ Hl]. rewrite Forall_forall in Hl.
  injection E as _ ->. by apply Hl.
Qed.
Lemma filter_wf f r : registry_wf r -> registry_wf (List.filter f r).
Proof.
  intros [Hk Hl]. split.
  - clear Hl. induction r as [|w r IH]; [done|]. cbn in *. apply NoDup_cons in Hk as [Hw Hk].
    case_match; [|by apply IH]. cbn. apply NoDup_cons. split; [|by apply IH].
    intros (e&E&Hin)%list_elem_of_fmap. apply Hw. apply list_elem_of_fmap. exists e. split; [done|].
    apply list_elem_of_In in Hin. apply list_elem_of_In. by apply List.filter_In in Hin as [? _].
  - rewrite Forall_forall in *. intros e He. apply Hl. apply list_elem_of_In in He. apply list_elem_of_In.
    by apply List.filter_In in He as [? _].
Qed.

(** An operation under the lock leaves the file as it was, or as its body
    left it. *)
Lemma locked_cases {A} i disk (lost : A) body :
  (locked i disk lost body).1.1 = disk \/ (locked i disk lost body).1.1 = (body disk).1.1.
Proof. unfold locked. destruct (ri_lock i); [by left|]. destruct (ri_load i); [by left|]. destruct (body disk) as [[? ?] ?]. by right. Qed.
Lemma Save_cases i disk r : (Save i disk r).1 = disk \/ (Save i disk r).1 = r.
Proof. unfold Save. repeat case_match; auto. Qed.
Lemma locked_wf {A} i disk (lost : A) body :
  registry_wf disk -> registry_wf (body disk).1.1 -> registry_wf (locked i disk lost body).1.1.
Proof. intros ??. by destruct (locked_cases i disk lost body) as [-> | ->]. Qed.
Lemma save_wf i disk r : registry_wf disk -> registry_wf r -> registry_wf (Save i disk r).1.
Proof. intros ??. by destruct (Save_cases i disk r) as [-> | ->]. Qed.

Lemma stage_fold_wf attempt keys acc :
  registry_wf acc.1 -> registry_wf (foldl (stage_step attempt) acc keys).1.
Proof.
  revert acc. induction keys as [|k keys IH]; intros [r b] Hr; [done|]. cbn. apply IH.
  destruct (GetSerena r k) as [e|] eqn:Hg; [|done]. cbn. by eapply Put_same_language.
Qed.
Lemma rollback_fold_wf attempt l acc :
  registry_wf acc.1.1 -> registry_wf (foldl (rollback_step attempt) acc l).1.1.
Proof.
  revert acc. induction l as [|[k prior] l IH]; intros [[r c] x] Hr; [done|]. cbn. apply IH.
  destruct (GetSerena r k) as [e|] eqn:Hg; [|done]. repeat case_bool_decide; try done. by eapply Put_same_language.
Qed.
Lemma commit_activity_wf i a q r : registry_wf r -> registry_wf (commit_activity i a q r).1.1.
Proof.
  intros Hr. unfold commit_activity. destruct (Get r _ _) as [e|] eqn:Hg; [|done].
  assert (forall e' d o, row_key e' = row_key e -> Save i r (Put r e') = (d, o) -> registry_wf d) as Hs.
  { intros e' d o E Es. replace d with (Save i r (Put r e')).1 by (by rewrite Es). apply save_wf; [done|].
    by eapply Put_same_language. }
  repeat case_match; try done; (eapply Hs; [|eassumption]; done).
Qed.

(** Rows edited where they are: each edit is of the row at an index. *)
Definition edit_rows (edits : list (nat * (WorkspaceEntry -> WorkspaceEntry))) (r : rows) : rows :=
  foldl (fun r ed => alter ed.2 ed.1 r) r edits.
Definition keeps_key (f : WorkspaceEntry -> WorkspaceEntry) : Prop := forall e, row_key (f e) = row_key e.

(** Everything the processes that share the registry do to its file.  The
    writers that are not modelled edit rows in place and keep their keys: the
    weekly-refresh membership of [UpdateWeeklyRefreshMembership], the port
    that [ReallocateDynamicPoolPort] moves and moves back, the lifecycle of
    the slot that a lazy proxy reserves. *)
Inductive registry_step : rows -> rows -> Prop :=
| step_put_lsp r e r' : PutLSP r e = Ok r' -> registry_step r r'
| step_put_serena r e r' : PutSerena r e = Ok r' -> registry_step r r'
| step_remove r k l : registry_step r (Remove r k l)
| step_remove_backend r k b : registry_step r (RemoveByBackend r k b).1
| step_remove_save i reload r ks : registry_step r (RemoveSerenaRowsAndSave i reload r r ks).1.1
| step_lifecycle i r k l st err m t : registry_step r (PutLifecycleWithTimestamps i r k l st err m t).1.1
| step_tools_call i r k l t : registry_step r (PutLastToolsCallAt i r k l t).1.1
| step_begin_removal i now r k lk g : registry_step r (BeginSerenaPendingRemoval i now r k lk g).1.1
| step_rollback i o r : registry_step r (rollback i o r).1.1
| step_activity i a r q : registry_step r (CommitSerenaActivity i a r q).1.1
| step_edit i edits r : Forall (fun ed => keeps_key ed.2) edits -> registry_step r (Save i r (edit_rows edits r)).1.

Lemma registry_wf_keys r r' : row_keys r' = row_keys r -> registry_wf r -> registry_wf r'.
Proof.
  intros E [Hk Hl]. split; [by rewrite E|]. rewrite Forall_forall in *. intros e He.
  assert (row_key e ∈ row_keys r) as (e0&Ee&He0)%list_elem_of_fmap by (rewrite <- E; by apply (list_elem_of_fmap_2 row_key)).
  injection Ee as _ ->. by apply Hl.
Qed.
Lemma alter_row_keys f n (r : rows) : keeps_key f -> row_keys (alter f n r) = row_keys r.
Proof.
  intros Hf. revert n. induction r as [|e r IH]; intros [|n]; [done..| |].
  - unfold row_keys. cbn. by rewrite Hf.
  - change (row_key e :: row_keys (alter f n r) = row_key e :: row_keys r). by rewrite IH.
Qed.
Lemma edit_rows_wf edits r : Forall (fun ed => keeps_key ed.2) edits -> registry_wf r -> registry_wf (edit_rows edits r).
Proof.
  intros Hf. revert r. induction Hf as [|[n f] edits Hf _ IH]; intros r Hr; [done|]. cbn. apply IH.
  apply (registry_wf_keys r); [|done]. by apply alter_row_keys.
Qed.

Lemma remove_fold_wf ks acc :
  registry_wf acc.1 ->
  registry_wf (foldl (fun (acc : rows * Z) key => let '(r, n) := RemoveByBackend acc.1 key "serena" in (r, acc.2 + n)) acc ks).1.
Proof. revert acc. induction ks as [|k ks IH]; intros acc Hr; [done|]. cbn. apply IH. cbn. by apply filter_wf. Qed.

Lemma registry_step_wf r r' : registry_wf r -> registry_step r r' -> registry_wf r'.
Proof.
  intros Hwf Hs. destruct Hs.
  - unfold PutLSP in *. destruct (has_prefix "@" _) eqn:Hp; simplify_eq. apply Put_wf; [done|congruence].
  - unfold PutSerena in *. destruct (_ =s _) eqn:Hp; simplify_eq/=. breflect. by apply Put_wf.
  - by apply filter_wf.
  - by apply filter_wf.
  - unfold RemoveSerenaRowsAndSave. pose proof (remove_fold_wf ks (r, 0) Hwf) as Hf.
    destruct (foldl _ _ ks) as [r' n]. pose proof (save_wf i r r' Hwf Hf) as Hw. destruct (Save i r r') as [d [e|]]; [|done].
    repeat case_match; done.
  - unfold PutLifecycleWithTimestamps. apply locked_wf; [done|]. destruct (Get r k l) as [e|] eqn:Hg; [|done].
    match goal with |- context [Put r ?x] => pose proof (save_wf i r (Put r x) Hwf) as Hw; destruct (Save i r (Put r x)) end.
    apply Hw. eapply Put_same_language; [done..|]. repeat case_match; done.
  - unfold PutLastToolsCallAt. case_match; [done|]. apply locked_wf; [done|]. destruct (Get r k l) as [e|] eqn:Hg; [|done].
    match goal with |- context [Put r ?x] => pose proof (save_wf i r (Put r x) Hwf) as Hw; destruct (Save i r (Put r x)) end.
    apply Hw. by eapply Put_same_language.
  - unfold BeginSerenaPendingRemoval. case_match; [done|]. apply locked_wf; [done|].
    pose proof (stage_fold_wf (mkTuple true now g) (dedupeWorkspaceKeys k lk) (r, ∅) Hwf) as Hf.
    destruct (foldl _ _ _) as [r' b]. case_bool_decide; [done|]. pose proof (save_wf i r r' Hwf Hf) as Hw.
    by destruct (Save i r r').
  - unfold rollback. apply locked_wf; [done|].
    pose proof (rollback_fold_wf (ro_attempt o) (map_to_list (ro_before o)) (r, false, None) Hwf) as Hf.
    destruct (foldl _ _ _) as [[r' c] x]. destruct c; [|done]. pose proof (save_wf i r r' Hwf Hf) as Hw.
    by destruct (Save i r r').
  - unfold CommitSerenaActivity. case_match; [done|]. destruct (ri_lock i), (ai_intentLock a), (ri_load i); try done.
    pose proof (commit_activity_wf i a q r Hwf) as Hw. by destruct (commit_activity i a q r) as [[? ?] ?].
  - by apply save_wf, edit_rows_wf.
Qed.

(** C33: the registry keeps its primary key.  From an empty file, whatever
    the processes do and whatever writes, locks and releases fail, no two rows
    have the same workspace and language, and no language server's row takes
    the reserved name of a Serena row. *)
Theorem registry_keys_invariant r : rtc registry_step [] r -> registry_wf r.
Proof.
  assert (forall r0, registry_wf r0 -> rtc registry_step r0 r -> registry_wf r) as Hs.
  { induction 2 as [|a b c Hab _ IH]; [done|]. apply IH. by eapply registry_step_wf. }
  apply Hs. split; [apply NoDup_nil_2|constructor].
Qed.

(** *** Pending removal *)
Lemma with_tuple_key t e : row_key (with_tuple t e) = row_key e.
Proof. done. Qed.
Lemma tuple_with_tuple t e : serenaPendingRemovalTupleFor (with_tuple t e) = t.
Proof. by destruct t. Qed.
Lemma with_tuple_self e : with_tuple (serenaPendingRemovalTupleFor e) e = e.
Proof. by destruct e. Qed.
Lemma with_tuple_twice t t' e : with_tuple t (with_tuple t' e) = with_tuple t e.
Proof. by destruct e. Qed.

Lemma GetSerena_key r k e : GetSerena r k = Some e -> row_key e = (k, SerenaLanguageSentinel).
Proof. by intros [_ ?]%Get_Some. Qed.

(** Staging marks the Serena rows of the keys and remembers their tuples. *)
Lemma stage_fold attempt keys r b r' before :
  NoDup keys -> (forall k, k ∈ keys -> b !! k = None) -> foldl (stage_step attempt) (r, b) keys = (r', before) ->
  row_keys r' = row_keys r /\
  (forall k l, Get r' k l = if decide (l = SerenaLanguageSentinel /\ k ∈ keys)
                            then with_tuple attempt <$> Get r k l else Get r k l) /\
  (forall k, before !! k = if decide (k ∈ keys) then serenaPendingRemovalTupleFor <$> GetSerena r k else b !! k).
Proof.
  revert r b. induction keys as [|key keys IH]; intros r b Hn Hb.
  { intros [= -> ->]. split_and!; [done|intros k l; by rewrite decide_False by set_solver|done]. }
  apply NoDup_cons in Hn as [Hkey Hn]. cbn [foldl stage_step]. destruct (GetSerena r key) as [e|] eqn:Hg; intros Hf.
  - pose proof (GetSerena_key _ _ _ Hg) as Ek.
    apply IH in Hf as (H1&H2&H3); [|done|intros k Hk; rewrite lookup_insert_ne by set_solver; apply Hb; set_solver].
    assert (forall k l, Get (Put r (with_tuple attempt e)) k l =
      if decide (k = key /\ l = SerenaLanguageSentinel) then Some (with_tuple attempt e) else Get r k l) as Hp.
    { intros k l. rewrite Get_Put, with_tuple_key, Ek. do 2 case_decide; naive_solver. }
    split_and!.
    + rewrite H1. apply Put_present. rewrite with_tuple_key, Ek. apply Get_is_Some. by exists e.
    + intros k l. rewrite H2, Hp. destruct (decide (k = key)) as [->|Hne].
      * destruct (decide (l = SerenaLanguageSentinel)) as [->|Hl].
        -- rewrite decide_False by tauto. rewrite decide_True by done. rewrite decide_True by set_solver.
           unfold GetSerena in Hg. by rewrite Hg.
        -- by rewrite !decide_False by tauto.
      * rewrite (decide_False (P := k = key /\ _)) by tauto.
        destruct (decide (l = SerenaLanguageSentinel /\ k ∈ keys)) as [?|?];
          [rewrite decide_True by set_solver|rewrite decide_False by set_solver]; done.
    + intros k. rewrite H3. unfold GetSerena. rewrite Hp. destruct (decide (k = key)) as [->|Hne].
      * rewrite decide_False by done. rewrite decide_True by set_solver. rewrite lookup_insert_eq.
        unfold GetSerena in Hg. by rewrite Hg.
      * rewrite (decide_False (P := k = key /\ _)) by tauto. rewrite lookup_insert_ne by done.
        destruct (decide (k ∈ keys)); [rewrite decide_True by set_solver|rewrite decide_False by set_solver]; done.
  - apply IH in Hf as (H1&H2&H3); [|done|intros k Hk; apply Hb; set_solver]. split_and!; [done|..].
    + intros k l. rewrite H2. destruct (decide (k = key)) as [->|Hne].
      * rewrite decide_False by tauto. case_decide as D; [|done]. destruct D as [-> _]. unfold GetSerena in Hg. by rewrite Hg.
      * destruct (decide (l = SerenaLanguageSentinel /\ k ∈ keys));
          [rewrite decide_True by set_solver|rewrite decide_False by set_solver]; done.
    + intros k. rewrite H3. destruct (decide (k = key)) as [->|Hne].
      * rewrite decide_False by done. rewrite decide_True by set_solver. rewrite Hg. apply Hb. set_solver.
      * destruct (decide (k ∈ keys)); [rewrite decide_True by set_solver|rewrite decide_False by set_solver]; done.
Qed.

(** What a rollback makes of a row of its key, and whether the tuple of the
    row belongs to a later writer. *)
Definition restored (attempt prior : serenaPendingRemovalTuple) (l : string) (e : WorkspaceEntry) : WorkspaceEntry :=
  if decide (l = SerenaLanguageSentinel /\ serenaPendingRemovalTupleFor e = attempt) then with_tuple prior e else e.
Definition foreign_tuple (attempt prior : serenaPendingRemovalTuple) (r : rows) (k : string) : Prop :=
  exists e, GetSerena r k = Some e /\ serenaPendingRemovalTupleFor e <> attempt /\ serenaPendingRemovalTupleFor e <> prior.

Lemma rollback_step_spec attempt r c x key prior r' c' x' :
  rollback_step attempt (r, c, x) (key, prior) = (r', c', x') ->
  row_keys r' = row_keys r /\
  (forall k l, Get r' k l = if decide (k = key) then restored attempt prior l <$> Get r k l else Get r k l) /\
  (c' = false -> c = false /\ r' = r) /\ (x' = None <-> x = None /\ ~ foreign_tuple attempt prior r key).
Proof.
  unfold rollback_step, foreign_tuple, restored. destruct (GetSerena r key) as [e|] eqn:Hg.
  2: { intros [= <- <- <-]. split_and!; [done| |done|].
       - intros k l. case_decide as D; [|done]. subst k. destruct (Get r key l) as [w|] eqn:Hw; [|done]. cbn.
         rewrite decide_False; [done|]. intros [-> _]. unfold GetSerena in Hg. congruence.
       - split; [intros ->; split; [done|]|by intros [? _]]. by intros (?&?&_). }
  pose proof (GetSerena_key _ _ _ Hg) as Ek. unfold GetSerena in Hg.
  assert (serenaPendingRemovalTupleFor e <> attempt -> forall k l, Get r k l =
    if decide (k = key) then (fun w => if decide (l = SerenaLanguageSentinel /\ serenaPendingRemovalTupleFor w = attempt)
                                       then with_tuple prior w else w) <$> Get r k l else Get r k l) as Hsame.
  { intros Ha k l. case_decide as D; [|done]. subst k. destruct (Get r key l) as [w|] eqn:Hw; [|done]. cbn.
    rewrite decide_False; [done|]. intros [-> ?]. congruence. }
  case_bool_decide as Ha; [|case_bool_decide as Hp]; intros [= <- <- <-].
  - split_and!; [|intros k l; rewrite Get_Put, with_tuple_key, Ek|done|].
    + apply Put_present. rewrite with_tuple_key, Ek. apply Get_is_Some. by exists e.
    + destruct (decide (k = key)) as [->|Hne]; [|by rewrite decide_False by congruence].
      destruct (decide (l = SerenaLanguageSentinel)) as [->|Hl]; [rewrite decide_True by done; rewrite Hg; cbn; by rewrite decide_True|].
      rewrite decide_False by congruence. destruct (Get r key l); [|done]. cbn. by rewrite decide_False by tauto.
    + split; [intros ->; split; [done|]; intros (w&Hw&?&?); congruence|by intros [? _]].
  - split_and!; [done|by apply Hsame|done|].
    split; [intros ->; split; [done|]; intros (w&Hw&?&?); congruence|by intros [? _]].
  - split_and!; [done|by apply Hsame|done|]. rewrite join_err_none. split; [by intros [_ ?]|].
    intros [_ []]. by exists e.
Qed.

Lemma rollback_fold attempt l r r' c0 c x0 x :
  NoDup l.*1 -> foldl (rollback_step attempt) (r, c0, x0) l = (r', c, x) ->
  row_keys r' = row_keys r /\
  (forall k lang, k ∉ l.*1 -> Get r' k lang = Get r k lang) /\
  (forall k prior lang, (k, prior) ∈ l -> Get r' k lang = restored attempt prior lang <$> Get r k lang) /\
  (c = false -> c0 = false /\ r' = r) /\
  (x = None <-> x0 = None /\ forall k prior, (k, prior) ∈ l -> ~ foreign_tuple attempt prior r k).
Proof.
  revert r c0 x0. induction l as [|[key prior] l IH]; intros r c0 x0 Hn.
  { intros [= -> -> ->]. split_and!; [done..|by intros ??? ?%elem_of_nil|done|].
    split; [intros ->; split; [done|by intros ?? ?%elem_of_nil]|by intros [? _]]. }
  cbn [foldl]. cbn [fmap list_fmap fst] in Hn. apply NoDup_cons in Hn as [Hkey Hn].
  destruct (rollback_step attempt (r, c0, x0) (key, prior)) as [[r1 c1] x1] eqn:Hstep.
  apply rollback_step_spec in Hstep as (S1&S2&S3&S4). intros (H1&H2&H3&H4&H5)%IH; [|done].
  assert (forall k p, (k, p) ∈ l -> k <> key) as Hne.
  { intros k p Hk ->. apply Hkey. apply list_elem_of_fmap. by exists (key, p). }
  split_and!.
  - congruence.
  - intros k lang Hk. cbn in Hk. apply not_elem_of_cons in Hk as [Hk1 Hk2]. rewrite H2, S2 by done. by rewrite decide_False.
  - intros k p lang [[= -> ->]|Hk]%elem_of_cons; [rewrite H2, S2 by done; by rewrite decide_True|].
    rewrite (H3 k p lang Hk), S2. by rewrite decide_False by eauto.
  - intros E. destruct (H4 E) as [E1 ->]. by apply S3 in E1.
  - rewrite H5, S4. clear -S2 Hne.
    assert (forall k p, (k, p) ∈ l -> foreign_tuple attempt p r1 k <-> foreign_tuple attempt p r k) as Hf.
    { intros k p Hk. unfold foreign_tuple, GetSerena. by rewrite S2, decide_False by eauto. }
    split.
    + intros [[-> Hfk] Hl]. split; [done|]. intros k p [[= -> ->]|Hk]%elem_of_cons; [done|]. rewrite <- Hf by done. by apply Hl.
    + intros [-> Hl]. split; [split; [done|]; apply Hl; left|]. intros k p Hk. rewrite Hf by done. apply Hl. by right.
Qed.

Lemma dedupe_NoDup k k' : NoDup (dedupeWorkspaceKeys k k').
Proof.
  unfold dedupeWorkspaceKeys. destruct (negb (k' =s "") && negb (k' =s k)) eqn:E; [|apply NoDup_singleton].
  breflect. apply NoDup_cons. split; [|apply NoDup_singleton]. intros ?%list_elem_of_singleton. naive_solver.
Qed.

(** What an undone attempt is: its owner remembers exactly the Serena rows
    it has marked, and the file holds the marks or was not written. *)
Lemma begin_spec i now disk k k' generation disk1 o err :
  BeginSerenaPendingRemoval i now disk k k' generation = (disk1, Some o, err) ->
  row_keys disk1 = row_keys disk /\ pt_pending (ro_attempt o) = true /\ pt_generation (ro_attempt o) = generation /\
  (forall key, ro_before o !! key = if decide (key ∈ dedupeWorkspaceKeys k k')
                                    then serenaPendingRemovalTupleFor <$> GetSerena disk key else None) /\
  (disk1 = disk \/
   forall key l, Get disk1 key l = if decide (l = SerenaLanguageSentinel /\ key ∈ dedupeWorkspaceKeys k k')
                                   then with_tuple (ro_attempt o) <$> Get disk key l else Get disk key l).
Proof.
  unfold BeginSerenaPendingRemoval, locked. case_match; [done|]. destruct (ri_lock i); [done|]. destruct (ri_load i); [done|].
  destruct (foldl _ _ _) as [r' before] eqn:Hf. apply stage_fold in Hf as (H1&H2&H3); [|apply dedupe_NoDup|done].
  case_bool_decide; [done|]. pose proof (Save_cases i disk r') as Hs. destruct (Save i disk r') as [d e]. cbn in Hs.
  intros [= -> <- _]. split_and!; [by destruct Hs as [-> | ->]|done|done| |].
  - intros key. cbn. rewrite H3. by rewrite lookup_empty.
  - destruct Hs as [-> | ->]; [by left|]. right. apply H2.
Qed.

(** An attempt to remove a workspace owns its marks and nothing else.
    Undoing it with no other writer in between gives the file back, byte for
    byte, even when the write of the attempt had an uncertain end.  With any
    other writers in between, undoing changes a row only if it still carries
    the marks of this attempt, and then restores exactly the marks it had; it
    brings no deleted row back; every other row stays; and it reports a
    conflict exactly when some row was marked by somebody else. *)
Theorem pending_removal_ownership i now disk wsKey legacyWSKey generation disk1 o err other :
  registry_wf disk ->
  BeginSerenaPendingRemoval i now disk wsKey legacyWSKey generation = (disk1, Some o, err) ->
  rollback registry_ok o disk1 = (disk, tt, None) /\
  exists undone conflict, rollback registry_ok o other = (undone, tt, conflict) /\
    row_keys undone = row_keys other /\
    (forall k l, Get undone k l = match ro_before o !! k with
                                  | Some prior => restored (ro_attempt o) prior l <$> Get other k l
                                  | None => Get other k l
                                  end) /\
    (conflict = None <-> forall k prior, ro_before o !! k = Some prior -> ~ foreign_tuple (ro_attempt o) prior other k).
Proof.
  intros Hwf (K1&_&_&K2&K3)%begin_spec.
  assert (forall other, exists undone conflict, rollback registry_ok o other = (undone, tt, conflict) /\
    row_keys undone = row_keys other /\
    (forall k l, Get undone k l = match ro_before o !! k with
                                  | Some prior => restored (ro_attempt o) prior l <$> Get other k l
                                  | None => Get other k l
                                  end) /\
    (conflict = None <-> forall k prior, ro_before o !! k = Some prior -> ~ foreign_tuple (ro_attempt o) prior other k)) as Hr.
  { intros file. unfold rollback, locked. cbn [ri_lock ri_load registry_ok].
    destruct (foldl _ _ _) as [[r' c] x] eqn:Hf. apply rollback_fold in Hf as (H1&H2&H3&H4&H5); [|apply NoDup_fst_map_to_list].
    exists r', x. split_and!; [|done| |].
    - destruct c; cbn; rewrite !join_err_none_r; [done|]. by destruct (H4 eq_refl) as [_ ->].
    - intros k l. destruct (ro_before o !! k) as [prior|] eqn:Hk; [by apply H3, elem_of_map_to_list|].
      apply H2. intros ([k2 p]&->&Hp)%list_elem_of_fmap. apply elem_of_map_to_list in Hp. cbn in Hk. congruence.
    - rewrite H5. setoid_rewrite elem_of_map_to_list. naive_solver. }
  split; [|apply Hr]. destruct (Hr disk1) as (undone&conflict&->&U1&U2&U3). clear Hr other.
  assert (forall k prior, ro_before o !! k = Some prior ->
    exists e, GetSerena disk k = Some e /\ prior = serenaPendingRemovalTupleFor e /\
      (GetSerena disk1 k = Some e \/ GetSerena disk1 k = Some (with_tuple (ro_attempt o) e))) as Hown.
  { intros k prior Hk. rewrite K2 in Hk. case_decide as D; [|done]. destruct (GetSerena disk k) as [e|] eqn:He; [|done].
    injection Hk as <-. exists e. split_and!; [done..|]. destruct K3 as [->|K3]; [by left|]. right.
    unfold GetSerena in *. rewrite K3, decide_True by done. by rewrite He. }
  assert (conflict = None) as ->.
  { apply U3. intros k prior (e&He&->&Hd)%Hown (w&Hw&Ha&Hp). destruct Hd as [Hd|Hd]; rewrite Hd in Hw; injection Hw as <-; [done|].
    by rewrite tuple_with_tuple in Ha. }
  assert (undone = disk) as ->; [|done]. apply rows_ext; [rewrite U1, K1; apply Hwf|by rewrite U1|]. intros k l. rewrite U2.
  destruct (ro_before o !! k) as [prior|] eqn:Hk; [apply Hown in Hk as (e&He&->&Hd)|].
  - destruct (decide (l = SerenaLanguageSentinel)) as [->|Hl].
    + unfold GetSerena in *. rewrite He. unfold restored.
      destruct Hd as [-> | ->]; cbn [fmap option_fmap option_map];
        [case_decide; by rewrite ?with_tuple_self|].
      rewrite tuple_with_tuple, decide_True by done. by rewrite with_tuple_twice, with_tuple_self.
    + destruct K3 as [->|K3]; [|rewrite K3, decide_False by tauto]; (destruct (Get disk k l); [|done]); cbn; unfold restored;
        by rewrite decide_False by tauto.
  - destruct K3 as [->|K3]; [done|]. rewrite K3. case_decide as D; [|done]. destruct D as [-> D].
    rewrite K2, decide_True in Hk by done. unfold GetSerena in Hk. by destruct (Get disk k _).
Qed.

(** *** Activity *)
Lemma valid_request_spec q :
  valid_activity_request q = true ->
  IsZero (ar_ActivityAt q) = false /\
  forall registered, IsZero registered = false ->
    valid_activity_request (mkActivityRequest 1 (ar_WorkspaceKey q) (ar_WorkspacePath q) (ar_TaskName q)
      (ar_ExpectedPort q) registered false (ar_ActivityAt q)) = true.
Proof.
  unfold valid_activity_request. rewrite negb_true_iff, !orb_false_iff. intros H.
  destruct H as (((((((?&E1)&E2)&E3)&E4)&E5)&?)&?). split; [done|]. intros registered Hr. cbn. by rewrite E1, E2, E3, E4, E5, Hr.
Qed.

(** The row of a workspace after an accepted commit: nothing but its
    activity, which did not go back, and a missing generation have changed. *)
Definition activity_row (q : SerenaActivityCommitRequestV1) (e e' : WorkspaceEntry) : Prop :=
  exists registered called, e' = e <| we_RegisteredAt := registered |> <| we_LastToolsCallAt := called |> /\
    IsZero registered = false /\ (IsZero (we_RegisteredAt e) = false -> registered = we_RegisteredAt e) /\
    IsZero called = false /\ ar_ActivityAt q <= called /\
    (IsZero (we_LastToolsCallAt e) = false -> we_LastToolsCallAt e <= called).

Lemma commit_activity_spec i a q r r' receipt err :
  IsZero (ar_ActivityAt q) = false -> commit_activity i a q r = (r', receipt, err) ->
  match receipt with
  | None => err <> None /\ (r' = r \/ (ri_save i <> None /\ ri_renamed i = true))
  | Some rc =>
      exists e e' intent, GetSerena r (ar_WorkspaceKey q) = Some e /\ serenaActivityTargetMatches e q = true /\
        ai_intent a = Ok intent /\ serenaActivityIntentMatches intent q = true /\
        activity_row q e e' /\ ac_RegisteredAt rc = we_RegisteredAt e' /\ r' = Put r e'
  end.
Proof.
  intros Hact. unfold commit_activity, GetSerena. destruct (Get r _ _) as [e|] eqn:Hg; [|by intros [= <- <- <-]; auto].
  destruct (serenaActivityTargetMatches e q) eqn:Ht; cbn [negb]; [|by intros [= <- <- <-]; auto].
  destruct (ai_intent a) as [intent|e1]; [|by intros [= <- <- <-]; auto].
  destruct (serenaActivityIntentMatches intent q) eqn:Hi; cbn [negb]; [|by intros [= <- <- <-]; auto].
  destruct (IsZero (we_RegisteredAt e) && IsZero (ai_now a)) eqn:Hz; [by intros [= <- <- <-]; auto|].
  set (entry := if IsZero (we_RegisteredAt e) then _ else e).
  assert (exists reg, entry = e <| we_RegisteredAt := reg |> /\ IsZero reg = false /\
    (IsZero (we_RegisteredAt e) = false -> reg = we_RegisteredAt e)) as (reg&Ee&Hreg&Hsame).
  { unfold entry. destruct (IsZero (we_RegisteredAt e)) eqn:Hzr; [by exists (ai_now a)|].
    exists (we_RegisteredAt e). split_and!; [by destruct e|done|done]. }
  assert (we_LastToolsCallAt entry = we_LastToolsCallAt e) as El by by rewrite Ee.
  assert (forall called state, IsZero called = false -> ar_ActivityAt q <= called -> (IsZero (we_LastToolsCallAt e) = false -> we_LastToolsCallAt e <= called) ->
    match Save i r (Put r (entry <| we_LastToolsCallAt := called |>)) with
    | (disk, Some err) => (disk, None, Some err)
    | (disk, None) => (disk, Some (mkActivityReceipt (ar_WorkspaceKey q) (ar_TaskName q) (we_RegisteredAt entry)
                         (IsZero (we_RegisteredAt e)) (ar_ActivityAt q) state), None)
    end = (r', receipt, err) ->
    match receipt with
    | None => err <> None /\ (r' = r \/ (ri_save i <> None /\ ri_renamed i = true))
    | Some rc =>
        exists e0 e' intent0, Some e = Some e0 /\ serenaActivityTargetMatches e0 q = true /\
          Ok intent = Ok intent0 /\ serenaActivityIntentMatches intent0 q = true /\
          activity_row q e0 e' /\ ac_RegisteredAt rc = we_RegisteredAt e' /\ r' = Put r e'
    end) as Hsave.
  { intros called state H0 H1 H2. unfold Save. destruct (ri_save i) eqn:Hsv.
    - intros [= <- <- <-]. split; [done|]. destruct (ri_renamed i); [by right|by left].
    - intros [= <- <- <-]. exists e, (entry <| we_LastToolsCallAt := called |>), intent.
      split_and!; [done..| |by rewrite Ee|done]. exists reg, called. by rewrite Ee. }
  destruct (negb (IsZero (we_LastToolsCallAt entry)) && negb (Before (we_LastToolsCallAt entry) (ar_ActivityAt q))) eqn:Hb.
  - rewrite El in Hb. apply andb_true_iff in Hb as [Hl Hb]. apply negb_true_iff in Hl. unfold Before in Hb. apply negb_true_iff, Z.ltb_ge in Hb.
    assert (entry <| we_LastToolsCallAt := we_LastToolsCallAt e |> = entry) as Eid by (rewrite Ee; by destruct e).
    destruct (IsZero (we_RegisteredAt e)) eqn:Hzr.
    + specialize (Hsave (we_LastToolsCallAt e) "already_committed" Hl Hb ltac:(done)). by rewrite Eid in Hsave.
    + intros [= <- <- <-]. exists e, e, intent. split_and!; [done..| |done|by rewrite (Put_Get r e _ _ Hg)].
      exists (we_RegisteredAt e), (we_LastToolsCallAt e). by split_and!; [destruct e|..].
  - destruct (ai_intentAgain a) as [again|e2]; [|by intros [= <- <- <-]; auto].
    destruct (serenaActivityIntentMatches again q); cbn [negb]; [|by intros [= <- <- <-]; auto].
    apply (Hsave (ar_ActivityAt q) "committed"); [done..|]. intros Hnz. rewrite El, Hnz in Hb. unfold Before in Hb. cbn in Hb.
    apply negb_false_iff, Z.ltb_lt in Hb. lia.
Qed.

Lemma commit_spec i a disk q disk' receipt err :
  CommitSerenaActivity i a disk q = (disk', receipt, err) ->
  (receipt = None /\ disk' = disk /\ err <> None) \/
  (valid_activity_request q = true /\ exists err', commit_activity i a q disk = (disk', receipt, err') /\ (err' <> None -> err <> None)).
Proof.
  unfold CommitSerenaActivity. destruct (valid_activity_request q); cbn [negb]; [|intros [= <- <- <-]; by left].
  destruct (ri_lock i); [intros [= <- <- <-]; by left|].
  assert (forall a b, a <> None -> join_err a b <> None) as Hj by (intros [?|] [?|]; done).
  destruct (ai_intentLock a); [intros [= <- <- <-]; left; by destruct (ri_release i)|].
  destruct (ri_load i); [intros [= <- <- <-]; left; by destruct (ri_release i), (ai_intentRelease a)|].
  destruct (commit_activity i a q disk) as [[d rc] e]. intros [= <- <- <-]. right. split; [done|]. exists e.
  split; [done|]. intros He. by apply Hj, Hj.
Qed.

(** The activity of a workspace is recorded for the generation it belongs
    to.  A receipt is given only when, under both locks, the row is the very
    generation the request names and the supervisor's intent has its daemon;
    then that row records an activity at least as late as the request's and
    as its own before, keeps its generation (or gets one if it had none), and
    no other row changes.  Without a receipt the file is untouched, unless
    the rewrite itself had an uncertain end.  Asking again for the generation
    of the receipt changes nothing. *)
Theorem activity_exactly_committed i a disk q disk' receipt err :
  CommitSerenaActivity i a disk q = (disk', receipt, err) ->
  match receipt with
  | None => err <> None /\ (disk' = disk \/ (ri_save i <> None /\ ri_renamed i = true))
  | Some rc =>
      exists e e' intent, GetSerena disk (ar_WorkspaceKey q) = Some e /\ serenaActivityTargetMatches e q = true /\
        ai_intent a = Ok intent /\ serenaActivityIntentMatches intent q = true /\
        activity_row q e e' /\ ac_RegisteredAt rc = we_RegisteredAt e' /\
        row_keys disk' = row_keys disk /\
        (forall k l, Get disk' k l = if decide ((k, l) = row_key e) then Some e' else Get disk k l) /\
        forall a', ai_intentLock a' = None -> ai_intentRelease a' = None -> ai_intent a' = Ok intent ->
          exists again, CommitSerenaActivity registry_ok a' disk'
            (mkActivityRequest 1 (ar_WorkspaceKey q) (ar_WorkspacePath q) (ar_TaskName q) (ar_ExpectedPort q)
               (ac_RegisteredAt rc) false (ar_ActivityAt q)) = (disk', Some again, None) /\
            ac_State again = "already_committed"
  end.
Proof.
  intros [(->&->&He)|(Hv&err'&Hc&He)]%commit_spec; [auto|]. destruct (valid_request_spec q Hv) as [Hact Hvalid].
  apply commit_activity_spec in Hc; [|done]. destruct receipt as [rc|]; [|by destruct Hc; auto].
  destruct Hc as (e&e'&intent&Hg&Hm&Hi&Him&Hrow&Hrc&->). exists e, e', intent.
  pose proof (GetSerena_key _ _ _ Hg) as Ek. pose proof Hrow as (reg&called&Ee&Hreg&Hsame&Hcall&Hle&Hmono).
  assert (row_key e' = row_key e) as Ek' by by rewrite Ee.
  assert (forall k l, Get (Put disk e') k l = if decide ((k, l) = row_key e) then Some e' else Get disk k l) as Hget.
  { intros k l. rewrite Get_Put, Ek'. do 2 case_decide; congruence. }
  split_and!; [done..| |done|]; [apply Put_present; rewrite Ek', Ek; apply Get_is_Some; by exists e|].
  intros a' Hl Hrel Hin. unfold CommitSerenaActivity. rewrite Hvalid by (rewrite Hrc, Ee; done). cbn [negb registry_ok ri_lock ri_load].
  rewrite Hl, Hrel. unfold commit_activity. cbn [ar_WorkspaceKey ar_ActivityAt]. rewrite Hget, decide_True by done.
  assert (serenaActivityTargetMatches e' (mkActivityRequest 1 (ar_WorkspaceKey q) (ar_WorkspacePath q) (ar_TaskName q)
    (ar_ExpectedPort q) (ac_RegisteredAt rc) false (ar_ActivityAt q)) = true) as ->.
  { unfold serenaActivityTargetMatches in *. rewrite Hrc, Ee. cbn in *. apply andb_true_iff in Hm as [-> _].
    by rewrite Z.eqb_refl. }
  rewrite Hin. replace (serenaActivityIntentMatches intent _) with true by (symmetry; exact Him). cbn [negb].
  rewrite Ee. cbn. rewrite Hreg. cbn. rewrite Hcall. cbn. unfold Before. replace (called <? ar_ActivityAt q) with false
    by (symmetry; apply Z.ltb_ge; lia). cbn. eexists. split; reflexivity.
Qed.

(** ** A registry *)
Definition a_morning : time := 1751890000 * Second.
Definition serena_row : WorkspaceEntry :=
  mkEntry "0f3a9c12" "C:\src\hub" SerenaLanguageSentinel SerenaServerName 9151 "\mcp-local-hub-serena-0f3a9c12" ∅ false
    "" zero_time zero_time "" a_morning "manual" ["go"] false zero_time "".
Definition go_row : WorkspaceEntry :=
  mkEntry "0f3a9c12" "C:\src\hub" "go" "gopls-mcp" 9400 "\mcp-local-hub-lsp-0f3a9c12-go" ∅ true
    "configured" zero_time zero_time "" zero_time "" [] false zero_time "".
Definition demo_registry : rows := [go_row; serena_row].
Definition pool_intent : SupervisorIntentFile :=
  mkIntentFile 1 1 "" [mkDaemon None "mcp-local-hub-serena-0f3a9c12" "serena" "" "mcphub.exe" [] "" ∅ "C:\src\hub" 9151 "" 0 None]
    [] false "" ∅ ∅.

Lemma demo_reached : rtc registry_step [] demo_registry.
Proof.
  eapply rtc_l; [apply (step_put_lsp [] go_row); reflexivity|].
  eapply rtc_l; [apply (step_put_serena [go_row] serena_row); reflexivity|]. apply rtc_refl.
Qed.

Lemma registry_keys_invariant_witness : rtc registry_step [] demo_registry /\ registry_wf demo_registry.
Proof. split; [exact demo_reached|]. exact (registry_keys_invariant demo_registry demo_reached). Defined.

(** The attempt fails to release its lock, and the proxy of the language
    server writes in between; a second removal takes the marks over. *)
Definition flaky_registry : registry_io := mkRegistryIo None None None false (Some (errors_New "unlock failed")).
Definition demo_attempt := BeginSerenaPendingRemoval flaky_registry (a_morning + Hour) demo_registry "0f3a9c12" "" "".
Definition taken_over : rows :=
  (BeginSerenaPendingRemoval registry_ok (a_morning + 2 * Hour)
     (PutLifecycle registry_ok demo_attempt.1.1 "0f3a9c12" "go" LifecycleActive "").1.1 "0f3a9c12" "" "").1.1.

Lemma pending_removal_ownership_witness :
  exists o err, demo_attempt = (demo_attempt.1.1, Some o, Some err) /\ demo_attempt.1.1 <> demo_registry /\
    rollback registry_ok o demo_attempt.1.1 = (demo_registry, tt, None) /\
    rollback registry_ok o taken_over = (taken_over, tt, Some ErrSerenaPendingRemovalRollbackConflict).
Proof.
  assert (registry_wf demo_registry) as Hwf.
  { split; [apply NoDup_cons; split; [set_solver|apply NoDup_singleton]|repeat constructor; by intros ?]. }
  do 2 eexists. split; [vm_compute; reflexivity|]. split; [vm_compute; discriminate|].
  split; [|vm_compute; reflexivity].
  exact (proj1 (pending_removal_ownership flaky_registry (a_morning + Hour) demo_registry "0f3a9c12" "" "" _ _ _
    demo_registry Hwf ltac:(vm_compute; reflexivity))).
Defined.

Definition demo_request : SerenaActivityCommitRequestV1 :=
  mkActivityRequest 1 "0f3a9c12" "C:\src\hub" "\mcp-local-hub-serena-0f3a9c12" 9151 a_morning false (a_morning + Hour).
Definition demo_activity : activity_io :=
  mkActivityIo None (Ok (Some pool_intent)) (Ok (Some pool_intent)) None (a_morning + 2 * Hour).

Lemma activity_exactly_committed_witness :
  exists disk' rc, CommitSerenaActivity registry_ok demo_activity demo_registry demo_request = (disk', Some rc, None) /\
    ac_State rc = "committed" /\
    exists again, CommitSerenaActivity registry_ok demo_activity disk'
      (mkActivityRequest 1 "0f3a9c12" "C:\src\hub" "\mcp-local-hub-serena-0f3a9c12" 9151 (ac_RegisteredAt rc) false
         (a_morning + Hour)) = (disk', Some again, None) /\ ac_State again = "already_committed".
Proof.
  assert (exists disk' rc, CommitSerenaActivity registry_ok demo_activity demo_registry demo_request = (disk', Some rc, None) /\
    ac_State rc = "committed") as (disk'&rc&E&Es) by (do 2 eexists; split; vm_compute; reflexivity).
  exists disk', rc. split; [exact E|]. split; [exact Es|].
  destruct (activity_exactly_committed _ _ _ _ _ _ _ E) as (e&e'&intent&_&_&Hi&_&_&_&_&_&Hagain).
  injection Hi as <-. exact (Hagain demo_activity eq_refl eq_refl eq_refl).
Defined.
