(* ===== verification/Recover.v ===== *)
(** * Recover: the operator's recovery of one daemon.

    [ExecuteWithDependencies] of [daemonrecovery/recovery.go]: find who holds
    the port of a daemon, kill it if it is the daemon's own lost child, and
    force a respawn.  The operation talks to the outside all along, and the
    outside changes under it, so it is an interaction tree: every call of a
    dependency is an event, answered arbitrarily.  What is said of the
    operation is said of its traces. *)
From S2P Require Import Prelude GoTime Intent Descriptor StateFile Tracker Lifecycle Backoff Termination Controller SpawnGate CommandLine Classifier Scenario Settle Trace.
From ITree Require Import ITree.
Open Scope Z_scope.

(** ** Results *)
Definition PortOwnerReaped : string := "reaped".
Definition PortOwnerAlreadyExited : string := "already_exited".
Definition PortOwnerTerminationUnconfirmed : string := "termination_unconfirmed".
Definition PortOwnerUnbound : string := "unbound".
Definition PortOwnerTrackedChild : string := "tracked_child".
Definition PortOwnerPortUnresolvable : string := "port_unresolvable".
Definition PortOwnerProbeUnavailable : string := "probe_unavailable".

Definition PortWaitNotRequired : string := "not_required".
Definition PortWaitReleased : string := "released".
Definition PortWaitStillBound : string := "still_bound".
Definition PortWaitProbeUnavailable : string := "probe_unavailable".

Definition AuditHandoffNotRequired : string := "not_required".
Definition AuditHandoffDurable : string := "durable".
Definition AuditHandoffReleasePending : string := "release_pending".
Definition AuditHandoffReleaseUnconfirmed : string := "release_unconfirmed".

Record Result := mkResult {
  rr_TaskName : string; rr_Reaped : bool; rr_PortOwnerCheck : string; rr_PortWaitOutcome : string;
  rr_AuditHandoff : string; rr_TerminationCommitted : bool;
}.
Definition no_result : Result := mkResult "" false "" "" "" false.

Inductive FailureKind :=
| FailureInvalidArgs | FailureConfirmationRequired | FailureStateRead | FailureUnknownTask | FailureRefusedPortOwner
| FailureRespawnFailed | FailureSupervisorUnavailable | FailureRequestCanceled | FailureBoundaryProbeTimeout
| FailureRespawnBudgetInsufficient | FailureAuditDurability.

Record ReapCandidate := mkCandidate {
  rc_TaskName : string; rc_Port : Z; rc_PID : Z; rc_Verdict : Verdict; rc_Identity : ProcessIdentity;
}.

(** [api.RespawnResult] *)
Record RespawnResult := mkRespawn { rs_Success : bool; rs_Code : string }.

Record OperationError := mkOpError {
  oe_Kind : FailureKind; oe_TaskName : string; oe_Cause : option error; oe_KnownTasks : list string;
  oe_Candidate : option ReapCandidate; oe_Respawn : option RespawnResult;
}.

Definition ErrSupervisorTrackedChild : error :=
  sentinel "ErrSupervisorTrackedChild" "target is a supervisor-tracked child".
Definition ErrInsufficientRespawnBudget : error :=
  sentinel "ErrInsufficientRespawnBudget" "insufficient budget to reserve a post-termination respawn".
Definition ErrRespawnSetupFailure : error :=
  sentinel "ErrRespawnSetupFailure" "supervisor IPC respawn: local setup failure".
Definition context_DeadlineExceeded : error := sentinel "context.DeadlineExceeded" "context deadline exceeded".
Definition ErrSupervisorEventReleaseFailed : error := sentinel "ErrSupervisorEventReleaseFailed" "event release failed".
Definition ErrSupervisorEventEmitTimeout : error := sentinel "ErrSupervisorEventEmitTimeout" "event emit timeout".

Inductive NotificationKind :=
| NotificationPortUnresolvable | NotificationProbeUnavailable | NotificationTrackedChild | NotificationReapCandidate
| NotificationReaped | NotificationTerminationUnconfirmed | NotificationAlreadyExited | NotificationPortWaitTimeout.

(** ** The calls *)

(** The context a call runs under: the caller's, the one of the port wait,
    and the one reserved for the respawn after a committed kill; the last two
    are not cancelled with the first. *)
Inductive call_context := CallerContext | WaitContext (budget : duration) | FinishContext (reserve : duration).

(** What the system answers while a held process is classified: the lookup
    of a PID, the test of its executable, the verification of the held one. *)
Record process_view := mkView {
  pv_lookup : Z -> res ProcessIdentity;
  pv_executable_matches : Z -> string -> bool;
  pv_verify : PIDIdentityProof -> option error;
}.

Inductive lock_state := EventLockReleased | EventLockOutstanding | EventLockStranded | EventLockOther.

Inductive recE : Type -> Type :=
| CStateDir : recE (res string)
| CReadIntent (dir : string) : recE (res (option SupervisorIntentFile))
| CReadState (dir : string) : recE (res (option SupervisorStateFile))
| CContextErr : recE (option error)
| CPortOwner (c : call_context) (port : Z) : recE (Z * bool * option error)
| CHoldProcess (pid : Z) : recE (res Z)
| CSelfPID : recE Z
| CProcessView (pid : Z) : recE process_view
| CConfirmReap (candidate : ReapCandidate) : recE bool
| CVerifyIdentity (proof : PIDIdentityProof) : recE (option error)
| CProbeSupervisor : recE (option error)
| CNow : recE time
| CTerminate : recE (bool * option error)
| COnTerminationCommitted : recE unit
| CSleep (c : call_context) (d : duration) : recE (option error)
| CPrepareAudit (event : string) (ts : time) : recE (option error)
| CEmitPrepared (budget : duration) : recE (bool * option error)
| CWaitPending : recE (option error)
| CLockState : recE lock_state
| CPersistHandoff (remaining : duration) (replay : bool) : recE (option error)
| CRespawn (c : call_context) (taskName : string) (force : bool) : recE (RespawnResult * option error)
| CAudit (event : string) : recE unit
| CNotify (kind : NotificationKind) (taskName : string) : recE unit.

Record Options := mkOptions { op_Confirmed : bool; op_ConfirmReap : bool }.

(** The rest of [Dependencies]: the durations, whether the identity lookup
    exists on this platform, and the resolvers of ports and executables. *)
Record Dependencies := mkDependencies {
  dp_LookupIdentity : bool;
  dp_PortPollInterval : duration; dp_PortWaitTimeout : duration; dp_PostKillTimeout : duration;
  dp_RespawnReserve : duration; dp_AuditEmitTimeout : duration;
  dp_resolve : manifestPortDeadlineResolveFn; dp_exe : exe_lookup;
}.

Definition defaultPortPollInterval : duration := 250 * Millisecond.
Definition defaultPortWaitTimeout : duration := 10 * Second.
Definition defaultPostKillFinishTimeout : duration := 30 * Second.
Definition defaultCommittedAuditTimeout : duration := 2 * Second.
Definition defaultRespawnReserve : duration := 20 * Second.

Definition with_defaults (D : Dependencies) : Dependencies :=
  let or_default (d default : duration) := if d <=? 0 then default else d in
  mkDependencies (dp_LookupIdentity D)
    (or_default (dp_PortPollInterval D) defaultPortPollInterval)
    (or_default (dp_PortWaitTimeout D) defaultPortWaitTimeout)
    (or_default (dp_PostKillTimeout D) defaultPostKillFinishTimeout)
    (or_default (dp_RespawnReserve D) defaultRespawnReserve)
    (or_default (dp_AuditEmitTimeout D) defaultCommittedAuditTimeout)
    (dp_resolve D) (dp_exe D).

(** ** Pure parts *)
Definition LivenessTaskName : string := bs "mcp-local-hub-liveness".
Definition isMaintenanceTaskName (name : string) : bool :=
  has_suffix "-watchdog" name || (name =s LivenessTaskName) || (name =s "mcp-local-hub-liveness") ||
  has_suffix "-weekly-refresh" name.

Definition knownTaskNames (intent : SupervisorIntentFile) : list string :=
  sort_strings (List.map (fun d => canonicalSupervisorTaskName (sd_TaskName d)) (si_Daemons intent)).
Definition findDescriptor (intent : SupervisorIntentFile) (normalized : string) : option SupervisorDaemon :=
  List.find (fun d => canonicalSupervisorTaskName (sd_TaskName d) =s normalized) (si_Daemons intent).

(** [trackedEntries] on what was read. *)
Definition trackedEntries (state : option SupervisorStateFile) (targetTask : string) : res (gmap string RuntimeEntry) :=
  match state with
  | None => Err (errors_New "supervisor state is nil")
  | Some file =>
      let tracked :=
        foldl (fun m (kv : string * SupervisorDaemonState) =>
                 <[canonicalSupervisorTaskName kv.1 := mkRuntimeEntry (ds_CurrentPID kv.2) (ds_OrphanPID kv.2)]> m)
          ∅ (map_to_list (sf_Daemons file)) in
      match tracked !! targetTask with
      | None => Err (errors_New "supervisor state is missing target row")
      | Some _ => Ok tracked
      end
  end.

Definition boundedPortWaitBudget (configuredWait totalPostKill respawnReserve elapsed : duration) : duration :=
  let available := wrap_i64 (wrap_i64 (totalPostKill - respawnReserve) - elapsed) in
  if available <=? 0 then 0 else if configuredWait <? available then configuredWait else available.

(** ** The operation *)
Notation operation := (itree recE (Result * option OperationError)).

Definition failure (kind : FailureKind) (task : string) (cause : option error) (candidate : option ReapCandidate)
    : Result * option OperationError :=
  (no_result, Some (mkOpError kind task cause [] candidate None)).
(** A refusal is audited and kills nothing. *)
Definition refused (event task : string) (cause : option error) (candidate : ReapCandidate) : operation :=
  do! CAudit event in Ret (failure FailureRefusedPortOwner task cause (Some candidate)).

Definition canceledOperationError (result : Result) (task : string) (cause : error) (candidate : option ReapCandidate)
    (boundaryProbe : bool) : operation :=
  let kind :=
    if errors_Is cause context_DeadlineExceeded && boundaryProbe then FailureBoundaryProbeTimeout
    else FailureRequestCanceled in
  do! CAudit "daemon-recovery-canceled" in Ret (result, Some (mkOpError kind task (Some cause) [] candidate None)).

(** [if err := ctx.Err(); err != nil { return ..., canceledOperationError(...) }] *)
Definition unless_canceled (task : string) (candidate : option ReapCandidate) (boundaryProbe : bool) (k : operation)
    : operation :=
  call! err := CContextErr in
  match err with
  | Some cause => canceledOperationError no_result task cause candidate boundaryProbe
  | None => k
  end.

(** *** Waiting for the port *)

(** One round of the loop of [waitForPortFree]. *)
Definition wait_round (c : call_context) (port : Z) (interval : duration) (deadline : time) (outcome : string)
    : itree recE (string + (string * option error)) :=
  call! now := CNow in
  if negb (Before now deadline) then Ret (inr (outcome, Some (errors_New "port remained bound")))
  else
    call! (_, bound, err) := CPortOwner c port in
    match err, (bound : bool) with
    | None, false => Ret (inr (PortWaitReleased, None))
    | _, _ =>
        let outcome := match err with Some _ => PortWaitProbeUnavailable | None => PortWaitStillBound end in
        call! err := CSleep c interval in
        match err with
        | Some err => Ret (inr (outcome, Some err))
        | None => Ret (inl outcome)
        end
    end.
Definition waitForPortFree (c : call_context) (port : Z) (interval timeout : duration)
    : itree recE (string * option error) :=
  call! now := CNow in ITree.iter (wait_round c port interval (now + timeout)) PortWaitStillBound.

(** *** The audit of a committed kill *)
Record committedAuditFinalizer := mkFinalizer {
  fz_prepareErr : option error; fz_attempted : bool; fz_pending : bool; fz_emitErr : option error; fz_deadline : time;
}.
Definition handoff : itree recE string :=
  call! s := CLockState in
  Ret (match s with
       | EventLockReleased => AuditHandoffDurable
       | EventLockOutstanding => AuditHandoffReleasePending
       | EventLockStranded | EventLockOther => AuditHandoffReleaseUnconfirmed
       end).
Definition persist_handoff (f : committedAuditFinalizer) (replay : bool) : itree recE (string * option error) :=
  call! now := CNow in
  let remaining := time_Sub (fz_deadline f) now in
  let report (err : option error) :=
    ITree.map (fun h => (h, wrapf "persist committed recovery audit handoff" <$> err)) handoff in
  if remaining <=? 0 then report (Some context_DeadlineExceeded)
  else call! err := CPersistHandoff remaining replay in report err.
Definition finalize (f : option committedAuditFinalizer) : itree recE (string * option error) :=
  match f with
  | None => Ret (AuditHandoffNotRequired, None)
  | Some f =>
      match fz_prepareErr f with
      | Some e => Ret (AuditHandoffNotRequired, Some (wrapf "prepare committed recovery audit" e))
      | None =>
          let durable := ITree.map (fun h => (h, None)) handoff in
          if negb (fz_attempted f) then persist_handoff f true
          else if fz_pending f then
            call! waitErr := CWaitPending in
            match waitErr with
            | None => durable
            | Some e =>
                persist_handoff f
                  (negb (errors_Is e ErrSupervisorEventReleaseFailed || errors_Is e ErrSupervisorEventEmitTimeout))
            end
          else
            match fz_emitErr f with
            | None => durable
            | Some e => persist_handoff f (negb (errors_Is e ErrSupervisorEventReleaseFailed))
            end
      end
  end.

(** *** The respawn *)

(** What the port check has established by the time of the respawn. *)
Record progress := mkProgress {
  pr_check : string; pr_reaped : bool; pr_wait : string; pr_committed : bool; pr_context : call_context;
  pr_audits : list string; pr_notes : list NotificationKind; pr_audit : option committedAuditFinalizer;
}.
Definition unharmed (check : string) (audits : list string) : progress :=
  mkProgress check false PortWaitNotRequired false CallerContext audits [] None.

Definition respawn_outcome (task : string) (pr : progress) (respawn : RespawnResult) (respawnErr : option error)
    (auditHandoff : string) (auditErr : option error) : operation :=
  let result := mkResult task (pr_reaped pr) (pr_check pr) (pr_wait pr) auditHandoff (pr_committed pr) in
  let fail (kind : FailureKind) (cause : option error) (r : option RespawnResult) : operation :=
    Ret (result, Some (mkOpError kind task cause [] None r)) in
  match auditErr with
  | Some e =>
      fail FailureAuditDurability (Some (match respawnErr with Some r => errors_Join e r | None => e end)) (Some respawn)
  | None =>
      match respawnErr with
      | Some e =>
          if negb (pr_committed pr) && (errors_Is e context_Canceled || errors_Is e context_DeadlineExceeded)
          then canceledOperationError result task e None false
          else if errors_Is e ErrRespawnSetupFailure then fail FailureStateRead (Some e) None
          else fail FailureSupervisorUnavailable (Some e) None
      | None =>
          if rs_Code respawn =s "SUPERVISOR_UNAVAILABLE" then fail FailureSupervisorUnavailable None (Some respawn)
          else if negb (rs_Success respawn) then fail FailureRespawnFailed None (Some respawn)
          else Ret (result, None)
      end
  end.

Definition force_respawn (task : string) (pr : progress) : operation :=
  call! (respawn, respawnErr) := CRespawn (pr_context pr) task true in
  ITree.bind (finalize (pr_audit pr)) (fun h =>
    emit_all (List.map CAudit (pr_audits pr))
      (emit_all (List.map (fun n => CNotify n task) (pr_notes pr))
         (respawn_outcome task pr respawn respawnErr h.1 h.2))).

Definition finish (task : string) (pr : progress) : operation :=
  if pr_committed pr then force_respawn task pr else unless_canceled task None false (force_respawn task pr).

(** *** The kill *)

(** After a committed termination. *)
Definition after_kill (D : Dependencies) (task : string) (port : Z) (started : time) (terminateErr : option error)
    : operation :=
  do! COnTerminationCommitted in
  let event :=
    match terminateErr with
    | None => "daemon-port-squatter-reaped"
    | Some _ => "daemon-port-squatter-termination-unconfirmed"
    end in
  call! prepareErr := CPrepareAudit event started in
  call! now := CNow in
  let budget (wait : duration) (now : time) :=
    boundedPortWaitBudget wait (dp_PostKillTimeout D) (dp_RespawnReserve D) (time_Sub now started) in
  let auditBudget := budget (dp_AuditEmitTimeout D) now in
  let deadline := started + dp_PostKillTimeout D in
  ITree.bind
    (match prepareErr with
     | None =>
         if 0 <? auditBudget
         then call! (pending, emitErr) := CEmitPrepared auditBudget in Ret (mkFinalizer None true pending emitErr deadline)
         else Ret (mkFinalizer None false false None deadline)
     | Some _ => Ret (mkFinalizer prepareErr false false None deadline)
     end)
    (fun audit =>
       call! now := CNow in
       let waitBudget := budget (dp_PortWaitTimeout D) now in
       ITree.bind
         (if 0 <? waitBudget
          then waitForPortFree (WaitContext waitBudget) port (dp_PortPollInterval D) waitBudget
          else Ret (PortWaitProbeUnavailable, Some (errors_New "port release wait skipped")))
         (fun wait =>
            let notes :=
              (if terminateErr then [NotificationTerminationUnconfirmed] else [NotificationReaped]) ++
              (if wait.2 then [NotificationPortWaitTimeout] else []) in
            finish task
              (mkProgress (if terminateErr then PortOwnerTerminationUnconfirmed else PortOwnerReaped)
                 (if terminateErr then false else true) wait.1 true
                 (FinishContext (dp_RespawnReserve D)) [] notes (Some audit)))).

Definition terminate (D : Dependencies) (task : string) (port : Z) (candidate : ReapCandidate) : operation :=
  call! started := CNow in
  call! (committed, terminateErr) := CTerminate in
  if committed : bool then after_kill D task port started terminateErr
  else
    match terminateErr with
    | Some e =>
        if errors_Is e ErrProcessAlreadyExited then
          do! CNotify NotificationAlreadyExited task in
          finish task (unharmed PortOwnerAlreadyExited ["daemon-port-squatter-already-exited"])
        else refused "daemon-port-squatter-reap-failed" task (Some e) candidate
    | None =>
        refused "daemon-port-squatter-reap-failed" task
          (Some (errors_New "process termination returned without committing or reporting an error")) candidate
    end.

(** The supervisor must answer, and in time, before anything is killed. *)
Definition reserve_respawn (D : Dependencies) (task : string) (port : Z) (candidate : ReapCandidate) : operation :=
  unless_canceled task (Some candidate) false (
  call! probeStarted := CNow in
  call! probeErr := CProbeSupervisor in
  unless_canceled task (Some candidate) false
    (match probeErr with
     | Some e =>
         do! CAudit "daemon-recovery-supervisor-unavailable" in
         Ret (failure FailureSupervisorUnavailable task (Some e) (Some candidate))
     | None =>
         call! now := CNow in
         if wrap_i64 (dp_PostKillTimeout D - time_Sub now probeStarted) <=? dp_RespawnReserve D then
           do! CAudit "daemon-recovery-budget-insufficient" in
           Ret (failure FailureRespawnBudgetInsufficient task (Some ErrInsufficientRespawnBudget) (Some candidate))
         else terminate D task port candidate
     end)).

(** The port and the state file are read again just before the kill. *)
Definition boundary (D : Dependencies) (task dir : string) (port : Z) (candidate : ReapCandidate) : operation :=
  let refuse (event : string) (cause : option error) := refused event task cause candidate in
  let ownerPID := rc_PID candidate in
  call! (boundaryPID, stillBound, boundaryErr) := CPortOwner CallerContext port in
  unless_canceled task (Some candidate) true
    (match boundaryErr with
     | Some e =>
         if errors_Is e context_Canceled || errors_Is e context_DeadlineExceeded
         then canceledOperationError no_result task e (Some candidate) true
         else refuse "daemon-port-squatter-unverified" (Some e)
     | None =>
         if negb stillBound then finish task (unharmed PortOwnerUnbound [])
         else if negb (boundaryPID =? ownerPID) then
           refuse "daemon-port-squatter-unverified" (Some (errors_New "port owner changed"))
         else if boundaryPID <=? 0 then refuse "daemon-port-squatter-unverified" None
         else
           call! state := CReadState dir in
           match (let? file := state in trackedEntries file task) with
           | Err e => Ret (failure FailureStateRead task (Some e) None)
           | Ok tracked =>
               if re_CurrentPID (default (mkRuntimeEntry 0 0) (tracked !! task)) =? ownerPID
               then refuse "daemon-port-squatter-tracked-child" (Some ErrSupervisorTrackedChild)
               else reserve_respawn D task port candidate
           end
     end).

(** Classify the owner of the port while its process is held. *)
Definition classify_held (D : Dependencies) (o : Options) (task dir : string) (d : SupervisorDaemon) (ownerPID : Z)
    (tracked : gmap string RuntimeEntry) (generation : Z) : operation :=
  let port := sd_Port d in
  call! self := CSelfPID in
  call! view := CProcessView ownerPID in
  let '(verdict, identity) :=
    ClassifyPortOwner (dp_exe D) d ownerPID self tracked
      (mkDeps (Some (pv_lookup view)) (Some (pv_executable_matches view)) (Some (generation, pv_verify view))) in
  let candidate := mkCandidate task port ownerPID verdict identity in
  unless_canceled task (Some candidate) false
    (match verdict with
     | VerdictForeign => refused "daemon-port-squatter-foreign" task None candidate
     | VerdictUnverified => refused "daemon-port-squatter-unverified" task None candidate
     | VerdictOwnTask =>
         do! CNotify NotificationReapCandidate task in
         let confirmed : operation :=
           call! verifyErr := CVerifyIdentity (KillProof identity) in
           match verifyErr with
           | Some e => refused "daemon-port-squatter-unverified" task (Some e) candidate
           | None => unless_canceled task (Some candidate) false (boundary D task dir port candidate)
           end in
         if op_Confirmed o then confirmed
         else
           call! yes := CConfirmReap candidate in
           if yes : bool then confirmed
           else refused "daemon-port-squatter-confirmation-declined" task None candidate
     end).

(** The owner of the daemon's port. *)
Definition check_port (D : Dependencies) (o : Options) (task dir : string) (d : SupervisorDaemon)
    (tracked : gmap string RuntimeEntry) : operation :=
  let port := sd_Port d in
  call! (ownerPID, bound, probeErr) := CPortOwner CallerContext port in
  let unverified := mkCandidate task port ownerPID VerdictUnverified zero_identity in
  unless_canceled task None false
    (match probeErr with
     | Some _ => do! CNotify NotificationProbeUnavailable task in finish task (unharmed PortOwnerProbeUnavailable [])
     | None =>
         if negb bound then finish task (unharmed PortOwnerUnbound [])
         else if ownerPID <=? 0 then refused "daemon-port-squatter-unverified" task None unverified
         else if match tracked !! task with Some e => ownerPID =? re_CurrentPID e | None => false end then
           do! CNotify NotificationTrackedChild task in finish task (unharmed PortOwnerTrackedChild [])
         else if negb (dp_LookupIdentity D) then refused "daemon-port-squatter-unverified" task None unverified
         else
           unless_canceled task None false
             (call! held := CHoldProcess ownerPID in
              match held with
              | Err e => refused "daemon-port-squatter-unverified" task (Some e) unverified
              | Ok generation => classify_held D o task dir d ownerPID tracked generation
              end)
     end).

Definition recover_daemon (D : Dependencies) (o : Options) (task : string) : operation :=
  call! dir := CStateDir in
  match dir with
  | Err e => Ret (failure FailureStateRead task (Some e) None)
  | Ok dir =>
      call! intent := CReadIntent dir in
      match intent with
      | Err e => Ret (failure FailureStateRead task (Some e) None)
      | Ok None => Ret (failure FailureStateRead task (Some (errors_New "supervisor intent is nil")) None)
      | Ok (Some intent) =>
          match findDescriptor intent task with
          | None => Ret (no_result, Some (mkOpError FailureUnknownTask task None (knownTaskNames intent) None None))
          | Some d =>
              call! state := CReadState dir in
              match (let? file := state in trackedEntries file task) with
              | Err e => Ret (failure FailureStateRead task (Some e) None)
              | Ok tracked =>
                  match EffectiveDaemonPort d (dp_resolve D) with
                  | Some port =>
                      if 0 <? port then check_port D o task dir (with_port d port) tracked
                      else
                        do! CNotify NotificationPortUnresolvable task in
                        finish task (unharmed PortOwnerPortUnresolvable [])
                  | None =>
                      do! CNotify NotificationPortUnresolvable task in
                      finish task (unharmed PortOwnerPortUnresolvable [])
                  end
              end
          end
      end
  end.

Definition ExecuteWithDependencies (taskName : string) (o : Options) (D : Dependencies) : operation :=
  let normalized := canonicalSupervisorTaskName (trim_space taskName) in
  if (normalized =s "") || isMaintenanceTaskName normalized then Ret (failure FailureInvalidArgs normalized None None)
  else if negb (op_Confirmed o) && negb (op_ConfirmReap o)
  then Ret (failure FailureConfirmationRequired normalized None None)
  else
    let D := with_defaults D in
    if dp_PostKillTimeout D <=? dp_RespawnReserve D
    then Ret (failure FailureRespawnBudgetInsufficient normalized (Some ErrInsufficientRespawnBudget) None)
    else recover_daemon D o normalized.

(** ** Traces *)

Notation ev := (Trace.ev recE).
Definition kill_of (l : ev) : option (bool * option error) :=
  match l with
  | Log e x => match e in recE Y return Y -> option (bool * option error) with
               | CTerminate => Some
               | _ => fun _ => None
               end x
  end.
Definition respawn_of (l : ev) : option (call_context * string * bool * (RespawnResult * option error)) :=
  match l with
  | Log e x =>
      match e in recE Y return Y -> option (call_context * string * bool * (RespawnResult * option error)) with
      | CRespawn c task force => fun r => Some (c, task, force, r)
      | _ => fun _ => None
      end x
  end.
(** Every termination of the trace, and every respawn. *)
Definition kills (tr : list ev) : list (bool * option error) := omap kill_of tr.
Definition respawns (tr : list ev) := omap respawn_of tr.

(** ** What every trace of a program satisfies *)

Definition no_kill (l : ev) : Prop := kill_of l = None.
Definition no_act (l : ev) : Prop := kill_of l = None /\ respawn_of l = None.

Lemma canceled_quiet r task cause candidate b : only no_act (canceledOperationError r task cause candidate b).
Proof. unfold canceledOperationError. walk_only. Qed.
Lemma refused_quiet event task cause candidate : only no_act (refused event task cause candidate).
Proof. unfold refused. walk_only. Qed.
Lemma wait_quiet c port interval timeout : only no_act (waitForPortFree c port interval timeout).
Proof. unfold waitForPortFree, wait_round. walk_only. Qed.
Lemma handoff_quiet : only no_act handoff.
Proof. unfold handoff. walk_only. Qed.
Lemma finalize_quiet f : only no_act (finalize f).
Proof.
  unfold finalize, persist_handoff, ITree.map.
  repeat first [apply handoff_quiet | progress walk_only].
Qed.
Lemma outcome_quiet task pr respawn respawnErr h err : only no_act (respawn_outcome task pr respawn respawnErr h err).
Proof. unfold respawn_outcome. repeat first [apply canceled_quiet | progress walk_only]. Qed.

Lemma only_no_kill {A} (p : itree recE A) : only no_act p -> only no_kill p.
Proof. apply only_weaken. by intros l [? _]. Qed.
Create HintDb quiet.
#[local] Hint Resolve canceled_quiet refused_quiet wait_quiet handoff_quiet finalize_quiet outcome_quiet : quiet.

Lemma emits_quiet {A} audits notes task (k : itree recE A) :
  only no_act k -> only no_act (emit_all (List.map CAudit audits) (emit_all (List.map (fun n => CNotify n task) notes) k)).
Proof.
  intros Hk. apply emit_all_only; [|apply emit_all_only; [|done]];
    intros e (x&->&_)%list_elem_of_fmap; done.
Qed.

Lemma force_respawn_harmless task pr : only no_kill (force_respawn task pr).
Proof.
  unfold force_respawn. walk_only; apply only_no_kill; [apply finalize_quiet|]. apply emits_quiet, outcome_quiet.
Qed.
Lemma finish_harmless task pr : only no_kill (finish task pr).
Proof.
  unfold finish, unless_canceled. destruct (pr_committed pr); [apply force_respawn_harmless|].
  apply only_vis; [done|]. intros [cause|]; [apply only_no_kill, canceled_quiet|apply force_respawn_harmless].
Qed.
Lemma after_kill_harmless D task port started err : only no_kill (after_kill D task port started err).
Proof.
  unfold after_kill.
  repeat first [apply finish_harmless | apply only_no_kill, wait_quiet | progress walk_only].
Qed.

(** *** What has happened before a kill *)

(** A termination in any trace of [p] comes after a run that, continuing
    [before], satisfies [G], and no other follows it. *)
Definition guards {A} (G : list ev -> Prop) (before : list ev) (p : itree recE A) : Prop :=
  forall tr o, runs p tr o -> forall l x r, tr = l ++ Log CTerminate x :: r -> G (before ++ l) /\ kills r = [].

Lemma no_kill_kills tr : Forall no_kill tr -> kills tr = [].
Proof. induction 1 as [|l tr Hl _ IH]; [done|]. unfold kills in *. cbn [omap list_omap]. by rewrite Hl. Qed.

Section Guards.
Context {A : Type} (G : list ev -> Prop).

Lemma guards_harmless before (p : itree recE A) : only no_kill p -> guards G before p.
Proof.
  intros Hp tr o H l x r ->. apply Hp in H. apply Forall_app in H as [_ H]. by apply Forall_cons_1 in H as [? _].
Qed.
Lemma guards_vis before {X} (e : recE X) (k : X -> itree recE A) :
  (forall x, no_kill (Log e x)) -> (forall x, guards G (before ++ [Log e x]) (k x)) -> guards G before (Vis e k).
Proof.
  intros He Hk tr o [[-> _]|(y&tr'&->&H)]%runs_vis l x r Er; [by destruct l|].
  destruct l as [|z l].
  - assert (Some (kill_of (Log e y)) = Some (Some x)) as E by exact (f_equal (fun tr => option_map kill_of (head tr)) Er).
    by rewrite (He y : kill_of (Log e y) = None) in E.
  - injection Er as <- ->. destruct (Hk y _ _ H l x r eq_refl) as [Hg Hr]. split; [|done].
    by rewrite <- app_assoc in Hg.
Qed.
Lemma guards_kill before (k : bool * option error -> itree recE A) :
  G before -> (forall x, only no_kill (k x)) -> guards G before (Vis CTerminate k).
Proof.
  intros Hg Hk tr o [[-> _]|(y&tr'&->&H)]%runs_vis l x r Er; [by destruct l|]. apply Hk in H.
  destruct l as [|z l].
  - apply (f_equal tail) in Er. cbn in Er. subst. rewrite app_nil_r. split; [done|by apply no_kill_kills].
  - injection Er as _ ->. apply Forall_app in H as [_ H]. by apply Forall_cons_1 in H as [? _].
Qed.
End Guards.

(** Everything that has happened, in order, when the process of [pid] is
    killed: it holds the port of the daemon before and after it was
    classified, is not the tracked child of the daemon in either reading of
    the state file, was verified as held against its fresh identity, the
    operator has confirmed, the caller has not cancelled at any of the points
    in between, and the supervisor has answered with time to spare for the
    respawn. *)
Definition kill_log (o : Options) (task dir : string) (intent : SupervisorIntentFile) (port pid : Z)
    (state state' : option SupervisorStateFile) (generation self : Z) (view : process_view) (identity : ProcessIdentity)
    (probed answered killed : time) : list ev :=
  [Log CStateDir (Ok dir); Log (CReadIntent dir) (Ok (Some intent)); Log (CReadState dir) (Ok state);
   Log (CPortOwner CallerContext port) (pid, true, None); Log CContextErr None;
   Log CContextErr None; Log (CHoldProcess pid) (Ok generation); Log CSelfPID self;
   Log (CProcessView pid) view; Log CContextErr None; Log (CNotify NotificationReapCandidate task) tt] ++
  (if op_Confirmed o then [] else [Log (CConfirmReap (mkCandidate task port pid VerdictOwnTask identity)) true]) ++
  [Log (CVerifyIdentity (KillProof identity)) None; Log CContextErr None;
   Log (CPortOwner CallerContext port) (pid, true, None); Log CContextErr None;
   Log (CReadState dir) (Ok state'); Log CContextErr None;
   Log CNow probed; Log CProbeSupervisor None; Log CContextErr None; Log CNow answered; Log CNow killed].

Inductive kill_evidence (D : Dependencies) (o : Options) (task : string) (before : list ev) : Prop :=
| evidence dir intent d port pid state tracked state' tracked' generation self view identity probed answered killed :
    before = kill_log o task dir intent port pid state state' generation self view identity probed answered killed ->
    findDescriptor intent task = Some d -> EffectiveDaemonPort d (dp_resolve D) = Some port -> 0 < port -> 0 < pid ->
    trackedEntries state task = Ok tracked -> re_CurrentPID <$> tracked !! task <> Some pid ->
    ClassifyPortOwner (dp_exe D) (with_port d port) pid self tracked
      (mkDeps (Some (pv_lookup view)) (Some (pv_executable_matches view)) (Some (generation, pv_verify view)))
      = (VerdictOwnTask, identity) ->
    trackedEntries state' task = Ok tracked' -> re_CurrentPID <$> tracked' !! task <> Some pid ->
    dp_RespawnReserve D < wrap_i64 (dp_PostKillTimeout D - time_Sub answered probed) ->
    kill_evidence D o task before.

Ltac walk_guards :=
  repeat lazymatch goal with
  | |- guards _ _ (Ret _) => apply guards_harmless, only_ret
  | |- guards _ _ (refused _ _ _ _) => apply guards_harmless, only_no_kill, refused_quiet
  | |- guards _ _ (canceledOperationError _ _ _ _ _) => apply guards_harmless, only_no_kill, canceled_quiet
  | |- guards _ _ (finish _ _) => apply guards_harmless, finish_harmless
  | |- guards _ _ (unless_canceled _ _ _ _) => unfold unless_canceled
  | |- guards _ _ (Vis _ _) => apply guards_vis; [by intros ?|intros ?]
  | |- guards _ _ (match ?x with _ => _ end) => let E := fresh "E" in destruct x eqn:E; simplify_eq
  | |- guards _ _ _ => progress (cbv beta iota zeta)
  end.

Lemma terminate_guarded G before D task port candidate :
  (forall killed, G (before ++ [Log CNow killed])) -> guards G before (terminate D task port candidate).
Proof.
  intros HG. unfold terminate. apply guards_vis; [by intros ?|]. intros started. apply guards_kill; [apply HG|].
  intros [[] [e|]]; [apply after_kill_harmless..| |apply only_no_kill, refused_quiet].
  destruct (errors_Is e _); [|apply only_no_kill, refused_quiet].
  apply only_vis; [by intros ?|]. intros _. apply finish_harmless.
Qed.

Lemma not_current tracked task pid :
  match tracked !! task with Some e => pid =? re_CurrentPID e | None => false end = false ->
  re_CurrentPID <$> (tracked : gmap string RuntimeEntry) !! task <> Some pid.
Proof. destruct (tracked !! task) as [e|]; [|done]. cbn. intros E [= E']. breflect. congruence. Qed.
Lemma not_current_default tracked task pid :
  re_CurrentPID (default (mkRuntimeEntry 0 0) (tracked !! task)) =? pid = false ->
  re_CurrentPID <$> (tracked : gmap string RuntimeEntry) !! task <> Some pid.
Proof. destruct (tracked !! task) as [e|]; [|done]. cbn. intros E [= E']. breflect. congruence. Qed.

Lemma recover_guarded D o task : guards (kill_evidence D o task) [] (recover_daemon D o task).
Proof.
  unfold recover_daemon, check_port, classify_held, boundary, reserve_respawn. walk_guards;
    try (apply guards_harmless, only_vis; [by intros ?|intros []; apply finish_harmless]).
  all: apply terminate_guarded; intros killed.
  all: repeat match goal with
    | H : (let? file := ?x in _) = Ok _ |- _ => destruct x as [?|]; [|discriminate H]; cbn in H
    | H : negb ?b = false |- _ => apply negb_false_iff in H
    | H : (_ =? _) = true |- _ => apply Z.eqb_eq in H
    | H : (_ <=? _) = false |- _ => apply Z.leb_gt in H
    | H : (0 <? _) = true |- _ => apply Z.ltb_lt in H
    | H : match _ with _ => _ end = false |- _ => apply not_current in H
    | H : (re_CurrentPID _ =? _) = false |- _ => apply not_current_default in H
    | x : () |- _ => destruct x
    end; cbn in *; subst.
  all: match goal with H : op_Confirmed ?q = _ |- _ => eapply evidence; [unfold kill_log; rewrite H; reflexivity|eassumption..] end.
Qed.

(** C7: nothing is killed on stale evidence.  Whatever the answers of the
    file system, the operating system, the operator and the supervisor, and
    however they change during the operation, a recovery terminates a process
    at most once, and only when everything before it in the run is exactly
    the sequence of [kill_evidence]. *)
Theorem recovery_kill_guarded taskName o D tr out before answer after :
  runs (ExecuteWithDependencies taskName o D) tr out -> tr = before ++ Log CTerminate answer :: after ->
  kill_evidence (with_defaults D) o (canonicalSupervisorTaskName (trim_space taskName)) before /\ kills after = [].
Proof.
  unfold ExecuteWithDependencies. cbv zeta. intros Hrun ->. revert Hrun. case_match; [by intros [? _]%runs_ret; destruct before|].
  case_match; [by intros [? _]%runs_ret; destruct before|]. case_match; [by intros [? _]%runs_ret; destruct before|].
  intros Hrun. by apply (recover_guarded _ _ _ _ _ Hrun before answer after).
Qed.

(** *** How a recovery ends *)

(** What the result says of the kills and respawns of the run. *)
Record concluded (reserve : duration) (task : string) (ks : list (bool * option error))
    (rs : list (call_context * string * bool * (RespawnResult * option error))) (r : Result * option OperationError)
    : Prop := mkConcluded {
  co_kills : (length ks <= 1)%nat;
  co_committed : rr_TerminationCommitted r.1 = existsb fst ks;
  co_reaped : rr_Reaped r.1 = existsb (fun k => k.1 && match k.2 with None => true | Some _ => false end) ks;
  co_respawned : existsb fst ks = true -> exists a, rs = [(FinishContext reserve, task, true, a)];
  co_respawns : (length rs <= 1)%nat;
  co_success : r.2 = None -> exists c a, rs = [(c, task, true, (a, None))] /\ rs_Success a = true;
}.

Section Outcome.
Context (reserve : duration) (task : string).

Definition outcome (ks : list (bool * option error)) (p : operation) : Prop :=
  forall tr r, runs p tr (Some r) -> concluded reserve task (ks ++ kills tr) (respawns tr) r.

Lemma quiet_events tr : Forall no_act tr -> kills tr = [] /\ respawns tr = [].
Proof.
  induction 1 as [|l tr [H1 H2] _ [IH1 IH2]]; [done|]. unfold kills, respawns in *. cbn [omap list_omap].
  by rewrite H1, H2.
Qed.

Lemma outcome_vis ks {X} (e : recE X) (k : X -> operation) :
  (forall x, no_act (Log e x)) -> (forall x, outcome ks (k x)) -> outcome ks (Vis e k).
Proof.
  intros He Hk tr r [[_ ?]|(x&tr'&->&H)]%runs_vis; [done|]. destruct (He x) as [H1 H2]. apply Hk in H.
  unfold kills, respawns in *. cbn [omap list_omap]. by rewrite H1, H2.
Qed.
Lemma outcome_bind ks {B} (t : itree recE B) (k : B -> operation) :
  only no_act t -> (forall b, outcome ks (k b)) -> outcome ks (ITree.bind t k).
Proof.
  intros Ht Hk tr r [[? _]|(b&tr1&tr2&->&H1&H2)]%runs_bind; [done|]. apply Ht, quiet_events in H1 as [E1 E2].
  apply Hk in H2. unfold kills, respawns in *. by rewrite !omap_app, E1, E2.
Qed.
(** A failure without a committed kill. *)
Lemma outcome_failed ks (p : operation) :
  only no_act p -> (length ks <= 1)%nat -> existsb fst ks = false ->
  (forall tr r, runs p tr (Some r) -> r.1 = no_result /\ r.2 <> None) -> outcome ks p.
Proof.
  intros Hq Hl Hk Hr tr r H. pose proof (Hq _ _ H) as [-> ->]%quiet_events. destruct (Hr _ _ H) as [E1 E2].
  rewrite app_nil_r. split; [done|by rewrite E1, Hk| |by rewrite Hk|cbn; lia|done].
  rewrite E1. destruct ks as [|[[] e] [|k ks]]; cbn in *; first [done | lia].
Qed.
Lemma failed_ret (a : Result * option OperationError) : a.1 = no_result -> a.2 <> None ->
  forall tr r, runs (Ret a : operation) tr (Some r) -> r.1 = no_result /\ r.2 <> None.
Proof. by intros ? ? tr r [_ [?|[= ->]]]%runs_ret. Qed.
Lemma failed_audit {X} (e : recE X) (a : Result * option OperationError) : a.1 = no_result -> a.2 <> None ->
  forall tr r, runs (do! e in Ret a : operation) tr (Some r) -> r.1 = no_result /\ r.2 <> None.
Proof. intros ? ? tr r [[_ ?]|(x&tr'&->&H)]%runs_vis; [done|]. by eapply failed_ret. Qed.

Lemma outcome_refused ks event cause candidate :
  (length ks <= 1)%nat -> existsb fst ks = false -> outcome ks (refused event task cause candidate).
Proof. intros. apply outcome_failed; [apply refused_quiet|done..|]. by apply failed_audit. Qed.
Lemma outcome_canceled cause candidate b : outcome [] (canceledOperationError no_result task cause candidate b).
Proof. apply outcome_failed; [apply canceled_quiet|cbn; lia|done|]. by apply failed_audit. Qed.

(** The respawn and what is made of its answer. *)
Lemma respawn_result pr respawn respawnErr h err tr r :
  runs (respawn_outcome task pr respawn respawnErr h err) tr (Some r) ->
  rr_TerminationCommitted r.1 = pr_committed pr /\ rr_Reaped r.1 = pr_reaped pr /\
  (r.2 = None -> respawnErr = None /\ rs_Success respawn = true).
Proof.
  unfold respawn_outcome, canceledOperationError. intros H.
  repeat (case_match || (apply runs_vis in H as [[_ ?]|(?&?&->&H)]; [done|]));
    apply runs_ret in H as [_ [?|[= ->]]]; try done.
  split_and!; [done|done|]. intros _. split; [done|]. by destruct (rs_Success respawn).
Qed.

Definition pr_ok (ks : list (bool * option error)) (pr : progress) : Prop :=
  (length ks <= 1)%nat /\ pr_committed pr = existsb fst ks /\
  pr_reaped pr = existsb (fun k => k.1 && match k.2 with None => true | Some _ => false end) ks /\
  (pr_committed pr = true -> pr_context pr = FinishContext reserve).

Lemma force_respawn_outcome ks pr : pr_ok ks pr -> outcome ks (force_respawn task pr).
Proof.
  intros (Hl&Hc&Hr&Hx) tr r [[_ ?]|([respawn respawnErr]&tr'&->&H)]%runs_vis; [done|].
  assert (kills tr' = [] /\ respawns tr' = []) as [E1 E2].
  { apply quiet_events. refine (only_bind _ _ _ (finalize_quiet _) _ _ _ H). intros h.
    apply emits_quiet, outcome_quiet. }
  apply runs_bind in H as [[? _]|(h&tr1&tr2&->&_&H)]; [done|].
  apply emit_all_result in H as [tr3 H]. apply emit_all_result in H as [tr4 H].
  apply respawn_result in H as (R1&R2&R3).
  assert (kills (Log (CRespawn (pr_context pr) task true) (respawn, respawnErr) :: tr1 ++ tr2) = []) as -> by exact E1.
  assert (respawns (Log (CRespawn (pr_context pr) task true) (respawn, respawnErr) :: tr1 ++ tr2) =
    [(pr_context pr, task, true, (respawn, respawnErr))]) as ->.
  { unfold respawns in *. cbn [omap list_omap respawn_of]. by rewrite E2. }
  rewrite app_nil_r. split; [done|congruence|congruence| |cbn; lia|].
  - rewrite <- Hc. intros Ht. rewrite (Hx Ht). by eexists.
  - intros [-> Hs]%R3. by eexists _, respawn.
Qed.

Lemma finish_outcome ks pr :
  pr_ok ks pr -> (pr_committed pr = false -> ks = [] \/ exists e, ks = [(false, e)]) -> outcome ks (finish task pr).
Proof.
  intros Hp Hks. unfold finish, unless_canceled. destruct (pr_committed pr) eqn:Hc; [by apply force_respawn_outcome|].
  apply outcome_vis; [done|]. intros [cause|]; [|by apply force_respawn_outcome].
  apply outcome_failed; [apply canceled_quiet|apply Hp| |by apply failed_audit]. destruct Hp as (_&E&_). congruence.
Qed.

Lemma unharmed_outcome check audits : outcome [] (finish task (unharmed check audits)).
Proof. apply finish_outcome; [by split_and!; [cbn; lia|..]|by left]. Qed.

Lemma terminate_outcome D port candidate :
  dp_RespawnReserve D = reserve -> outcome [] (terminate D task port candidate).
Proof.
  intros Hres. unfold terminate. apply outcome_vis; [done|]. intros started tr r [[_ ?]|([committed err]&tr'&->&H)]%runs_vis; [done|].
  assert (kills (Log CTerminate (committed, err) :: tr') = [(committed, err)] ++ kills tr' /\
    respawns (Log CTerminate (committed, err) :: tr') = respawns tr') as [-> ->] by done.
  rewrite app_nil_l. revert tr' r H. change (outcome [(committed, err)] (if committed : bool
    then after_kill D task port started err else
      match err with
      | Some e =>
          if errors_Is e ErrProcessAlreadyExited then
            do! CNotify NotificationAlreadyExited task in
            finish task (unharmed PortOwnerAlreadyExited ["daemon-port-squatter-already-exited"])
          else refused "daemon-port-squatter-reap-failed" task (Some e) candidate
      | None =>
          refused "daemon-port-squatter-reap-failed" task
            (Some (errors_New "process termination returned without committing or reporting an error")) candidate
      end)).
  destruct committed.
  - unfold after_kill. apply outcome_vis; [done|]. intros _. apply outcome_vis; [done|]. intros prepareErr.
    apply outcome_vis; [done|]. intros now. cbv zeta. apply outcome_bind; [walk_only|]. intros audit.
    apply outcome_vis; [done|]. intros now2. apply outcome_bind; [case_match; [apply wait_quiet|apply only_ret]|].
    intros wait. apply finish_outcome; [|done]. split_and!; [cbn; lia|done|by destruct err|by rewrite Hres].
  - destruct err as [e|]; [|apply outcome_refused; [cbn; lia|done]].
    case_match; [|apply outcome_refused; [cbn; lia|done]].
    apply outcome_vis; [done|]. intros _. apply finish_outcome; [by split_and!; [cbn; lia|..]|right; eauto].
Qed.
End Outcome.

Ltac walk_outcome :=
  repeat lazymatch goal with
  | |- outcome _ _ _ (Ret _) => apply outcome_failed; [apply only_ret|cbn; lia|done|by apply failed_ret]
  | |- outcome _ _ _ (refused _ _ _ _) => apply outcome_refused; [cbn; lia|done]
  | |- outcome _ _ _ (canceledOperationError _ _ _ _ _) => apply outcome_canceled
  | |- outcome _ _ _ (finish _ _) => apply unharmed_outcome
  | |- outcome _ _ _ (terminate _ _ _ _) => apply terminate_outcome
  | |- outcome _ _ _ (unless_canceled _ _ _ _) => unfold unless_canceled
  | |- outcome _ _ _ (Vis _ _) => apply outcome_vis; [by intros ?|intros ?]
  | |- outcome _ _ _ (match ?x with _ => _ end) => destruct x
  | |- outcome _ _ _ _ => progress cbv beta iota zeta
  end.

Lemma recover_outcome D o task : outcome (dp_RespawnReserve D) task [] (recover_daemon D o task).
Proof. unfold recover_daemon, check_port, classify_held, boundary, reserve_respawn. by walk_outcome. Qed.

(** C8: a recovery leaves no daemon killed and forgotten.  However it ends,
    its result says exactly whether a kill was committed and whether the exit
    was confirmed; there was at most one kill and one respawn; after a
    committed kill the respawn was requested, under its own reserved context
    that the caller cannot cancel; and success is reported only when the
    supervisor has respawned the daemon. *)
Theorem recovery_concluded taskName o D tr r :
  runs (ExecuteWithDependencies taskName o D) tr (Some r) ->
  concluded (dp_RespawnReserve (with_defaults D)) (canonicalSupervisorTaskName (trim_space taskName))
    (kills tr) (respawns tr) r.
Proof.
  revert tr r. set (task := canonicalSupervisorTaskName (trim_space taskName)).
  enough (outcome (dp_RespawnReserve (with_defaults D)) task [] (ExecuteWithDependencies taskName o D)) as Ho by exact Ho.
  unfold ExecuteWithDependencies. fold task. cbv zeta.
  case_match; [walk_outcome|]. case_match; [walk_outcome|]. case_match; [walk_outcome|]. apply recover_outcome.
Qed.

(** *** A recovery comes to an end *)

(** The clock of a recovery: readings never go back, and a sleep that is not
    cut short takes its time. *)
#[export] Instance recover_clock : Clock recE := {
  tells_time now l :=
    match l with
    | Log e x => match e in recE Y return Y -> Prop with CNow => fun t => now <= t | _ => fun _ => True end x
    end;
  clock_after now l :=
    match l with
    | Log e x =>
        match e in recE Y return Y -> time with
        | CNow => fun t => t
        | CSleep _ d => fun err => match err with None => now + d | Some _ => now end
        | _ => fun _ => now
        end x
    end;
}.

Ltac walk_recover :=
  repeat first
    [ progress walk_bounded
    | lazymatch goal with
      | |- bounded _ (unless_canceled _ _ _ _) => unfold unless_canceled
      | |- bounded _ (canceledOperationError _ _ _ _ _) => unfold canceledOperationError
      | |- bounded _ (refused _ _ _ _) => unfold refused
      end ].

Lemma wait_round_bounded c port interval deadline outcome : bounded 3 (wait_round c port interval deadline outcome).
Proof. unfold wait_round. walk_recover. Qed.

(** A round that goes on took place before the deadline, and slept. *)
Lemma wait_round_sleeps c port interval deadline outcome j now tr :
  runs (wait_round c port interval deadline outcome) tr (Some (inl j)) -> clocked now tr ->
  now < deadline /\ now + interval <= foldl clock_after now tr.
Proof.
  unfold wait_round. intros [[_ ?]|(t&tr1&->&H)]%runs_vis; [done|]. intros [Ht Hc]. cbn in Ht.
  destruct (Before t deadline) eqn:Hb; cbn [negb] in H; [|by apply runs_ret in H as [_ [?|?]]].
  unfold Before in Hb. apply Z.ltb_lt in Hb. apply runs_vis in H as [[_ ?]|([[pid bound] err]&tr2&->&H)]; [done|].
  assert (forall out, runs (call! err := CSleep c interval in match err with
      | Some err => Ret (inr (out, Some err)) | None => Ret (inl out) end) tr2 (Some (inl j)) ->
    now < deadline /\ now + interval <= foldl clock_after t tr2) as Hs.
  { intros out [[_ ?]|([e|]&tr3&->&H3)]%runs_vis; [done|by apply runs_ret in H3 as [_ [?|?]]|].
    apply runs_ret in H3 as [-> _]. cbn. lia. }
  destruct err as [e|], bound; [by eapply Hs..|by apply runs_ret in H as [_ [?|?]]].
Qed.

Lemma wait_bounded c port interval timeout :
  0 < interval -> 0 <= timeout -> bounded (4 + 3 * wait_rounds interval timeout) (waitForPortFree c port interval timeout).
Proof.
  intros Hi Ht now tr o [[-> _]|(t&tr'&->&H)]%runs_vis; [cbn; lia|]. intros [_ Hc]. cbn in Hc.
  pose proof (wait_rounds_enough interval timeout Hi Ht).
  pose proof (bounded_poll _ 3 interval (t + timeout) (wait_rounds interval timeout) _ t tr' o
    (wait_round_bounded c port interval _) (wait_round_sleeps c port interval _) ltac:(lia) H Hc). cbn [length]. lia.
Qed.

Lemma budget_le wait total reserve elapsed :
  0 < boundedPortWaitBudget wait total reserve elapsed -> boundedPortWaitBudget wait total reserve elapsed <= wait.
Proof. unfold boundedPortWaitBudget. cbv zeta. repeat case_match; breflect; lia. Qed.

Lemma finalize_bounded f : bounded 4 (finalize f).
Proof.
  assert (bounded 1 handoff) as Hh by (unfold handoff; walk_recover).
  assert (forall B (g : string -> B), bounded 1 (ITree.map g handoff)) as Hm.
  { intros B g. apply (bounded_bind 1 0); [done|]. intros a. apply bounded_ret. }
  assert (forall f replay, bounded 3 (persist_handoff f replay)) as Hp.
  { intros f' replay. unfold persist_handoff. walk_recover; (eapply bounded_le; [|apply Hm]; lia). }
  unfold finalize. walk_recover; (eapply bounded_le; [|first [apply Hm|apply Hp]]; lia).
Qed.

Lemma respawn_outcome_bounded task pr respawn err h aerr : bounded 1 (respawn_outcome task pr respawn err h aerr).
Proof. unfold respawn_outcome. walk_recover. Qed.

Lemma finish_bounded task pr n :
  (7 + length (pr_audits pr) + length (pr_notes pr) <= n)%nat -> bounded n (finish task pr).
Proof.
  intros Hn. eapply bounded_le; [exact Hn|].
  assert (bounded (6 + length (pr_audits pr) + length (pr_notes pr)) (force_respawn task pr)) as Hf.
  { apply (bounded_le (S (4 + (length (List.map CAudit (pr_audits pr)) +
      (length (List.map (fun n => CNotify n task) (pr_notes pr)) + 1)))%nat)); [rewrite !length_map; lia|].
    unfold force_respawn. apply bounded_vis. intros [respawn err]. apply bounded_bind; [apply finalize_bounded|].
    intros h. apply bounded_emit_all, bounded_emit_all, respawn_outcome_bounded. }
  unfold finish. destruct (pr_committed pr); [eapply bounded_le; [|exact Hf]; lia|].
  cbn [Nat.add]. walk_recover. exact Hf.
Qed.

Lemma after_kill_bounded D task port started err :
  0 < dp_PortPollInterval D ->
  bounded (20 + 3 * wait_rounds (dp_PortPollInterval D) (dp_PortWaitTimeout D)) (after_kill D task port started err).
Proof.
  intros Hi. set (w := wait_rounds _ _). apply (bounded_le (3 + (1 + (1 + ((4 + 3 * w) + 9))))%nat); [lia|].
  unfold after_kill. walk_recover. apply bounded_bind; [walk_recover|]. intros audit.
  apply bounded_vis. intros now2. apply bounded_bind; [|intros wait; apply finish_bounded; cbn;
    repeat case_match; cbn; lia].
  set (b := boundedPortWaitBudget _ _ _ _). destruct (Z.ltb_spec 0 b) as [Hb|]; [|apply bounded_ret].
  eapply bounded_le; [|apply wait_bounded; [done|lia]].
  pose proof (wait_rounds_le (dp_PortPollInterval D) b (dp_PortWaitTimeout D) Hi (budget_le _ _ _ _ Hb)). unfold w. lia.
Qed.

Lemma recover_bounded D o task :
  0 < dp_PortPollInterval D ->
  bounded (60 + 3 * wait_rounds (dp_PortPollInterval D) (dp_PortWaitTimeout D)) (recover_daemon D o task).
Proof.
  intros Hi. pose proof (after_kill_bounded D task) as Hk.
  assert (forall n check audits, (8 <= n)%nat -> (length audits <= 1)%nat -> bounded n (finish task (unharmed check audits))) as Hfin.
  { intros n check audits Hn Ha. apply finish_bounded. cbn. lia. }
  set (w := wait_rounds _ _) in *. cbn [Nat.add].
  unfold recover_daemon, check_port, classify_held, boundary, reserve_respawn, terminate. walk_recover;
    first [apply Hfin; cbn; lia | eapply bounded_le; [|by apply Hk]; lia].
Qed.

(** A recovery comes to an end.  Under a clock that does not go back
    and sleeps that take their time, no run of a recovery makes more than
    sixty calls and three for every poll interval of the configured wait;
    with the production timings that is 183. *)
Theorem recovery_terminates taskName o D now tr out :
  runs (ExecuteWithDependencies taskName o D) tr out -> clocked now tr ->
  (length tr <= 60 + 3 * wait_rounds (dp_PortPollInterval (with_defaults D)) (dp_PortWaitTimeout (with_defaults D)))%nat.
Proof.
  assert (0 < dp_PortPollInterval (with_defaults D)) as Hi.
  { unfold with_defaults. cbn. destruct (Z.leb_spec (dp_PortPollInterval D) 0); [reflexivity|done]. }
  set (n := (60 + 3 * _)%nat). enough (bounded n (ExecuteWithDependencies taskName o D)) as Hb by apply Hb.
  unfold ExecuteWithDependencies. walk_recover. by apply recover_bounded.
Qed.

(** ** A recovery of a lost child *)

Definition serena_task : string := canonicalSupervisorTaskName "serena b1".
Definition serena_state : SupervisorStateFile :=
  empty_state_file <| sf_Daemons := {[ serena_task := mkDaemonState "running" 4800 7 "" 0 None "" "" ]} |>.
Definition serena_intent : SupervisorIntentFile := demo_intent 1 [serena_example] ∅.

(** The world of the example: a clock, and whether the lost child is dead;
    its port is released a second after. *)
Record world := mkWorld { wo_now : time; wo_killed : option time }.
Definition demo_world (X : Type) (e : recE X) (w : world) : X * world :=
  let w' := mkWorld (wo_now w + 100 * Millisecond) (wo_killed w) in
  match e in recE Y return Y * world with
  | CStateDir => (Ok "state", w')
  | CReadIntent _ => (Ok (Some serena_intent), w')
  | CReadState _ => (Ok (Some serena_state), w')
  | CContextErr => (None, w')
  | CPortOwner _ _ =>
      (match wo_killed w with
       | Some t => if wo_now w <? t + Second then (4711, true, None) else (0, false, None)
       | None => (4711, true, None)
       end, w')
  | CHoldProcess pid => (Ok pid, w')
  | CSelfPID => (100, w')
  | CProcessView _ => (mkView (fun _ => Ok own_identity_example) (fun _ _ => true) (fun _ => None), w')
  | CConfirmReap _ => (true, w')
  | CVerifyIdentity _ => (None, w')
  | CProbeSupervisor => (None, w')
  | CNow => (wo_now w, w)
  | CTerminate => ((true, None), mkWorld (wo_now w') (Some (wo_now w)))
  | COnTerminationCommitted => (tt, w')
  | CSleep _ d => (None, mkWorld (wo_now w + d) (wo_killed w))
  | CPrepareAudit _ _ => (None, w')
  | CEmitPrepared _ => ((false, None), w')
  | CWaitPending => (None, w')
  | CLockState => (EventLockReleased, w')
  | CPersistHandoff _ _ => (None, w')
  | CRespawn _ _ _ => ((mkRespawn true "", None), w')
  | CAudit _ => (tt, w')
  | CNotify _ _ => (tt, w')
  end.
Definition demo_dependencies : Dependencies := mkDependencies true 0 0 0 0 0 (fun _ _ => None) exe_lookup_example.
Definition demo_options : Options := mkOptions false true.
Definition demo_operation : operation := ExecuteWithDependencies "serena b1" demo_options demo_dependencies.
Definition demo_recovery := play 100 demo_world (mkWorld noon None) demo_operation.

Example recovery_succeeds :
  demo_recovery.2 = Some (mkResult serena_task true "reaped" "released" "durable" true, None) /\
  kills demo_recovery.1 = [(true, None)] /\ length demo_recovery.1 = 41%nat.
Proof. vm_compute. done. Qed.

Lemma demo_runs : runs demo_operation demo_recovery.1 demo_recovery.2.
Proof. apply play_runs. Qed.

Lemma recovery_kill_guarded_witness :
  demo_recovery.1 = take 23 demo_recovery.1 ++ Log CTerminate (true, None) :: drop 24 demo_recovery.1 /\
  kill_evidence (with_defaults demo_dependencies) demo_options serena_task (take 23 demo_recovery.1).
Proof.
  assert (demo_recovery.1 = take 23 demo_recovery.1 ++ Log CTerminate (true, None) :: drop 24 demo_recovery.1) as E
    by (vm_compute; reflexivity).
  split; [exact E|].
  exact (proj1 (recovery_kill_guarded "serena b1" demo_options demo_dependencies _ _ _ _ _ demo_runs E)).
Defined.

Lemma recovery_concluded_witness :
  existsb fst (kills demo_recovery.1) = true /\
  exists a, respawns demo_recovery.1 = [(FinishContext defaultRespawnReserve, serena_task, true, a)].
Proof.
  assert (existsb fst (kills demo_recovery.1) = true) as Hk by (vm_compute; reflexivity). split; [exact Hk|].
  assert (exists r, runs demo_operation demo_recovery.1 (Some r)) as [r Hr].
  { assert (demo_recovery.2 = Some (default (no_result, None) demo_recovery.2)) as E by (vm_compute; reflexivity).
    eexists. rewrite <- E. exact demo_runs. }
  exact (co_respawned _ _ _ _ _ (recovery_concluded "serena b1" demo_options demo_dependencies _ r Hr) Hk).
Defined.

Lemma recovery_terminates_witness : clocked noon demo_recovery.1 /\ (length demo_recovery.1 <= 183)%nat.
Proof.
  assert (clocked noon demo_recovery.1) as Hc by (vm_compute; repeat split; discriminate). split; [exact Hc|].
  exact (recovery_terminates "serena b1" demo_options demo_dependencies noon _ _ demo_runs Hc).
Defined.
