(* ===== verification/Squatter.v ===== *)
(** * Squatter: reaping a disowned child that holds a daemon's port.

    [cli/supervise_squatter.go]: the rate limiter, the two triggers that
    classify a port owner and kill it if it is verified as the daemon's own
    lost child, and the worker behind the pre-spawn port gate
    ([handlePortGateReq] of [cli/supervisor_controller.go]). *)
From S2P Require Import Prelude GoTime StateMachine Intent Descriptor StateFile Tracker Lifecycle Backoff Termination.
From S2P Require Import CommandLine Classifier Controller SpawnGate Realloc Loop Scenario.
Open Scope Z_scope.

(** ** The rate limiter *)
Definition squatterLookupMinInterval : duration := 30 * Second.
Definition squatterMaxReapsPerTaskWindow : nat := 3.
Definition squatterMaxGlobalReapsPerWindow : nat := 10.

Record squatterReapLimiter := mkLimiter {
  lm_window : duration;
  lm_lastLookup : gmap string time;
  lm_reapAttempts : gmap string (list time);
  lm_globalReaps : list time;
}.
#[global] Instance lm_lastLookup_set : Setter lm_lastLookup :=
  fun f r => mkLimiter (lm_window r) (f (lm_lastLookup r)) (lm_reapAttempts r) (lm_globalReaps r).
#[global] Instance lm_reapAttempts_set : Setter lm_reapAttempts :=
  fun f r => mkLimiter (lm_window r) (lm_lastLookup r) (f (lm_reapAttempts r)) (lm_globalReaps r).
#[global] Instance lm_globalReaps_set : Setter lm_globalReaps :=
  fun f r => mkLimiter (lm_window r) (lm_lastLookup r) (lm_reapAttempts r) (f (lm_globalReaps r)).

Definition newSquatterReapLimiter : squatterReapLimiter := mkLimiter respawnFailureWindow ∅ ∅ [].

(** The methods accept a nil limiter, which limits nothing. *)
Definition allowLookup (l : option squatterReapLimiter) (task : string) (now : time) : bool :=
  match l with
  | None => true
  | Some l => match lm_lastLookup l !! task with
              | None => true
              | Some last => squatterLookupMinInterval <=? time_Sub now last
              end
  end.
Definition recordLookup (l : option squatterReapLimiter) (task : string) (now : time) : option squatterReapLimiter :=
  (fun l => l <| lm_lastLookup ::= insert task now |>) <$> l.

Definition pruneAbsent (l : option squatterReapLimiter) (seen : gset string) : option squatterReapLimiter :=
  (fun l => l <| lm_lastLookup ::= filter (fun kv => kv.1 ∈ seen) |>
              <| lm_reapAttempts ::= filter (fun kv => kv.1 ∈ seen) |>) <$> l.

Definition attempts_of (l : squatterReapLimiter) (task : string) : list time := default [] (lm_reapAttempts l !! task).

Definition pruneWindow (l : squatterReapLimiter) (task : string) (now : time) : squatterReapLimiter :=
  let cutoff := now - lm_window l in
  let kept := kept_after cutoff (attempts_of l task) in
  l <| lm_reapAttempts ::= match kept with [] => delete task | _ => insert task kept end |>
    <| lm_globalReaps ::= kept_after cutoff |>.

Definition allowReap (l : option squatterReapLimiter) (task : string) (now : time) : option squatterReapLimiter * bool :=
  match l with
  | None => (None, true)
  | Some l =>
      let l := pruneWindow l task now in
      (Some l,
       if Nat.leb squatterMaxGlobalReapsPerWindow (length (lm_globalReaps l)) then false
       else Nat.ltb (length (attempts_of l task)) squatterMaxReapsPerTaskWindow)
  end.
Definition recordReap (l : option squatterReapLimiter) (task : string) (now : time) : option squatterReapLimiter :=
  (fun l => l <| lm_reapAttempts ::= insert task (attempts_of l task ++ [now]) |>
              <| lm_globalReaps ::= fun g => g ++ [now] |>) <$> l.

(** ** The triggers *)
Inductive squatter_effect :=
| SqAudit (event source taskName : string)
| SqKill (d : SupervisorDaemon) (proof : PIDIdentityProof).

Definition squatterSourceSweep : string := "sweep".
Definition squatterSourcePreSpawn : string := "prespawn".
Definition squatterSourceQuarantineSweep : string := "quarantine-sweep".

(** What a trigger reads and calls: the executable lookup, the probes of the
    classifier, the kill primitive ([squatterTerminatePIDFn]) and this
    process's PID ([supervisorSelfPIDFn]). *)
Record squatter_env := mkSquatterEnv {
  sq_exe : exe_lookup;
  sq_deps : ClassifierDependencies;
  sq_kill : PIDIdentityProof -> option error;
  sq_selfPID : Z;
}.

Definition shared_tracked (tracked : gmap string DaemonRuntimeEntry) : gmap string RuntimeEntry :=
  (fun e => mkRuntimeEntry (te_CurrentPID e) (te_OrphanPID e)) <$> tracked.

Section Triggers.
Variable Q : squatter_env.

Definition classifyPortSquatter (d : SupervisorDaemon) (ownerPID : Z) (tracked : gmap string DaemonRuntimeEntry)
    : Verdict * ProcessIdentity :=
  ClassifyPortOwner (sq_exe Q) d ownerPID (sq_selfPID Q) (shared_tracked tracked)
    (mkDeps (cd_LookupIdentity (sq_deps Q)) (cd_ExecutableMatches (sq_deps Q)) None).

(** [makeProductionSquatterReapFn] *)
Definition production_reap (d : SupervisorDaemon) (proof : PIDIdentityProof) : list squatter_effect * option error :=
  ([SqAudit "daemon-port-squatter-reap-requested" squatterSourceSweep (canonicalSupervisorTaskName (sd_TaskName d));
    SqKill d proof], sq_kill Q proof).

Inductive squatterAutoOutcome :=
| squatterAutoForeign | squatterAutoUnverified | squatterAutoReaped | squatterAutoReapFailed | squatterAutoRateLimited.

(** The common part of [reapSquatterForAutomaticTrigger] and
    [handleSquatterMismatchOnSweep]: they differ in the capability that
    kills. *)
Definition classify_and_reap (reapFn : SupervisorDaemon -> PIDIdentityProof -> list squatter_effect * option error)
    (d : SupervisorDaemon) (ownerPID : Z) (tracked : gmap string DaemonRuntimeEntry) (source : string) (now : time)
    (l : option squatterReapLimiter) : option squatterReapLimiter * list squatter_effect * squatterAutoOutcome :=
  let task := canonicalSupervisorTaskName (sd_TaskName d) in
  let audit ev := SqAudit ev source task in
  if negb (allowLookup l task now) then (l, [audit "daemon-port-squatter-unverified"], squatterAutoRateLimited)
  else
    let l := recordLookup l task now in
    match classifyPortSquatter d ownerPID tracked with
    | (VerdictForeign, _) => (l, [audit "daemon-port-squatter-foreign"], squatterAutoForeign)
    | (VerdictUnverified, _) => (l, [audit "daemon-port-squatter-unverified"], squatterAutoUnverified)
    | (VerdictOwnTask, id) =>
        match allowReap l task now with
        | (l, false) => (l, [audit "daemon-port-squatter-unverified"], squatterAutoRateLimited)
        | (l, true) =>
            let l := recordReap l task now in
            match reapFn d (KillProof id) with
            | (effs, None) => (l, effs ++ [audit "daemon-port-squatter-reaped"], squatterAutoReaped)
            | (effs, Some err) =>
                if errors_Is err ErrProcessAlreadyExited
                then (l, effs ++ [audit "daemon-port-squatter-already-exited"], squatterAutoReaped)
                else (l, effs ++ [audit "daemon-port-squatter-reap-failed"], squatterAutoReapFailed)
            end
        end
    end.

Definition reapSquatterForAutomaticTrigger (d : SupervisorDaemon) (ownerPID : Z)
    (tracked : gmap string DaemonRuntimeEntry) (source : string) (now : time) (l : option squatterReapLimiter)
    : option squatterReapLimiter * list squatter_effect * squatterAutoOutcome :=
  classify_and_reap (fun d proof => ([SqKill d proof], sq_kill Q proof)) d ownerPID tracked source now l.

Inductive squatterSweepOutcome := squatterSweepObserveOnly | squatterSweepReapedFallThrough.

(** [reap] is the [squatterSweepReaper] of the sweep: its limiter and its
    reap function, or nothing. *)
Definition handleSquatterMismatchOnSweep
    (reapFn : option (SupervisorDaemon -> PIDIdentityProof -> list squatter_effect * option error))
    (d : SupervisorDaemon) (ownerPID : Z) (tracked : gmap string DaemonRuntimeEntry) (now : time)
    (l : option squatterReapLimiter) : option squatterReapLimiter * list squatter_effect * squatterSweepOutcome :=
  match reapFn with
  | None => (l, [SqAudit "daemon-port-squatter-unverified" squatterSourceSweep
                   (canonicalSupervisorTaskName (sd_TaskName d))], squatterSweepObserveOnly)
  | Some reapFn =>
      let '(l, effs, o) := classify_and_reap reapFn d ownerPID tracked squatterSourceSweep now l in
      (l, effs, match o with squatterAutoReaped => squatterSweepReapedFallThrough | _ => squatterSweepObserveOnly end)
  end.
End Triggers.

(** ** The worker of the port gate *)
Section Worker.
Variable E : env.
Variable Q : squatter_env.

(** [handlePortGateReq]'s re-probe: the request is stale unless the same
    owner still holds the port. *)
Definition port_gate_stale (d : SupervisorDaemon) (ownerPID : Z) : bool :=
  match e_portOwner E with
  | None => false
  | Some portOwner =>
      match EffectiveDaemonPort d (e_resolve E) with
      | None => false
      | Some port =>
          if port <=? 0 then false
          else match portOwner port with Ok (Some now) => negb (now =? ownerPID) | _ => true end
      end
  end.

Definition automatic_restart (task : string) : LoopEvent :=
  mkEvent (Ev EvManualRestart) task (no_body <| b_require_running_intent := true |>).

(** [handlePortGateReq]: the limiter, the effects, the controller's shared
    maps and the event it posts to the loop, if any. *)
Definition handlePortGateReq (d : SupervisorDaemon) (ownerPID : Z) (l : option squatterReapLimiter) (c : controller)
    : option squatterReapLimiter * list squatter_effect * controller * option LoopEvent :=
  let task := canonicalSupervisorTaskName (sd_TaskName d) in
  let finish (c : controller) := c <| c_portGateInFlight ::= fun s => s ∖ {[task]} |> in
  if port_gate_stale d ownerPID then (l, [SqAudit "port-gate-stale-drop" "restart-policy" task], finish c, None)
  else
    let '(l, effs, o) :=
      reapSquatterForAutomaticTrigger Q d ownerPID (Snapshot (c_tracker c)) squatterSourcePreSpawn (e_now E) l in
    match o with
    | squatterAutoReaped => (l, effs, finish c, Some (automatic_restart task))
    | squatterAutoUnverified =>
        if ownerPID <=? 0 then (l, effs, finish c, None)
        else (l, effs, finish (c <| c_gateCleared ::= union {[task]} |>), Some (automatic_restart task))
    | squatterAutoForeign =>
        (l, effs, finish c, if isDynamicPoolProxyDescriptor d then Some (event evPreSpawnRealloc task) else None)
    | squatterAutoReapFailed | squatterAutoRateLimited => (l, effs, finish c, None)
    end.

(** One round of [runPortGateWorker]: the oldest request of the channel. *)
Definition port_gate_round (l : option squatterReapLimiter) (c : controller)
    : option (option squatterReapLimiter * list squatter_effect * controller * option LoopEvent) :=
  match c_portGateCh c with
  | [] => None
  | (d, ownerPID) :: rest => Some (handlePortGateReq d ownerPID l (c <| c_portGateCh := rest |>))
  end.
End Worker.

(** ** Properties *)

(** *** Nothing is killed but a verified lost child *)
Definition kills (effs : list squatter_effect) : list (SupervisorDaemon * PIDIdentityProof) :=
  omap (fun e => match e with SqKill d p => Some (d, p) | SqAudit _ _ _ => None end) effs.

(** The process that a trigger may kill for [d]. *)
Definition condemned (Q : squatter_env) (d : SupervisorDaemon) (ownerPID : Z)
    (tracked : gmap string DaemonRuntimeEntry) (proof : PIDIdentityProof) : Prop :=
  exists id, proof = KillProof id /\ pp_PID proof = ownerPID /\
    own_child (sq_exe Q) d ownerPID (sq_selfPID Q) (shared_tracked tracked)
      (mkDeps (cd_LookupIdentity (sq_deps Q)) (cd_ExecutableMatches (sq_deps Q)) None) id.

(** A capability that kills what it is asked to, once, and reports it. *)
Definition kills_once (Q : squatter_env)
    (reapFn : SupervisorDaemon -> PIDIdentityProof -> list squatter_effect * option error) : Prop :=
  forall d p, kills (reapFn d p).1 = [(d, p)] /\ (reapFn d p).2 = sq_kill Q p.

Lemma kills_app a b : kills (a ++ b) = kills a ++ kills b.
Proof. unfold kills. apply omap_app. Qed.

Lemma trigger_kills Q reapFn d ownerPID tracked source now l :
  kills_once Q reapFn ->
  let '(_, effs, o) := classify_and_reap Q reapFn d ownerPID tracked source now l in
  (kills effs = [] /\ o <> squatterAutoReaped /\ o <> squatterAutoReapFailed) \/
  exists proof, kills effs = [(d, proof)] /\ condemned Q d ownerPID tracked proof /\
    (o = squatterAutoReaped \/ o = squatterAutoReapFailed) /\
    (o = squatterAutoReaped <->
       (sq_kill Q proof = None \/ exists e, sq_kill Q proof = Some e /\ errors_Is e ErrProcessAlreadyExited = true)).
Proof.
  intros Hk. unfold classify_and_reap. destruct (negb (allowLookup _ _ _)); [by left|].
  destruct (classifyPortSquatter _ _ _ _) as [v id] eqn:Hc. destruct v; [|by left|by left].
  destruct (allowReap _ _ _) as [l' ok]. destruct ok; [|by left].
  apply ClassifyPortOwner_own in Hc. destruct (Hk d (KillProof id)) as [Hk1 Hk2].
  destruct (reapFn d (KillProof id)) as [effs r]. cbn [fst snd] in Hk1, Hk2. subst r.
  assert (condemned Q d ownerPID tracked (KillProof id)) as Hd.
  { exists id. split_and!; [done| |done]. apply (own_pid _ _ _ _ _ _ _ Hc). }
  destruct (sq_kill Q (KillProof id)) as [err|] eqn:Hr;
    [destruct (errors_Is err ErrProcessAlreadyExited) eqn:He|];
    right; exists (KillProof id); rewrite kills_app, Hk1, Hr; (split; [done|]); (split; [done|]);
    (split; [naive_solver|]).
  - split; [right; eauto|done].
  - split; [done|]. intros [?|(e&[= <-]&?)]; congruence.
  - split; [by left|done].
Qed.

(** *** The kill budget

    The limiter over the life of its goroutine, with the log of the kills
    that were made: triggers of any kind at times that do not go back, and
    the prunes of the sweep, which keep some tasks. *)
Record budget := mkBudget { bu_limiter : squatterReapLimiter; bu_log : list (string * time); bu_clock : time }.
Definition kill_times (b : budget) : list time := (bu_log b).*2.
Definition kill_times_of (task : string) (b : budget) : list time :=
  (List.filter (fun e => e.1 =s task) (bu_log b)).*2.

Inductive budget_step (Q : squatter_env) (keeps : gset string -> Prop) : budget -> budget -> Prop :=
| budget_trigger b reapFn d ownerPID tracked source now l' effs o :
    kills_once Q reapFn -> bu_clock b <= now ->
    classify_and_reap Q reapFn d ownerPID tracked source now (Some (bu_limiter b)) = (Some l', effs, o) ->
    budget_step Q keeps b
      (mkBudget l' (bu_log b ++ ((fun _ => (canonicalSupervisorTaskName (sd_TaskName d), now)) <$> kills effs)) now)
| budget_prune b seen l' :
    keeps seen -> pruneAbsent (Some (bu_limiter b)) seen = Some l' ->
    budget_step Q keeps b (mkBudget l' (bu_log b) (bu_clock b)).

(** The two counts of the limiter agree with the log, from now on. *)
Definition budget_inv (tasks : string -> Prop) (b : budget) : Prop :=
  let l := bu_limiter b in
  let recent t := kept_after (t - lm_window l) in
  0 < lm_window l /\
  (forall t, bu_clock b <= t -> recent t (kill_times b) = recent t (lm_globalReaps l)) /\
  (length (recent (bu_clock b) (kill_times b)) <= squatterMaxGlobalReapsPerWindow)%nat /\
  forall k, tasks k ->
    (forall t, bu_clock b <= t -> recent t (kill_times_of k b) = recent t (attempts_of l k)) /\
    (length (recent (bu_clock b) (kill_times_of k b)) <= squatterMaxReapsPerTaskWindow)%nat.

Definition same_reaps (l l' : squatterReapLimiter) : Prop :=
  lm_window l' = lm_window l /\ lm_globalReaps l' = lm_globalReaps l /\ lm_reapAttempts l' = lm_reapAttempts l.

Lemma trigger_limiter Q reapFn d ownerPID tracked source now l :
  kills_once Q reapFn ->
  let k := canonicalSupervisorTaskName (sd_TaskName d) in
  let pruned := pruneWindow l k now in
  exists l' effs o, classify_and_reap Q reapFn d ownerPID tracked source now (Some l) = (Some l', effs, o) /\
    ((kills effs = [] /\ (same_reaps l l' \/ same_reaps pruned l')) \/
     (length (kills effs) = 1%nat /\
      (length (lm_globalReaps pruned) < squatterMaxGlobalReapsPerWindow)%nat /\
      (length (attempts_of pruned k) < squatterMaxReapsPerTaskWindow)%nat /\
      same_reaps (pruned <| lm_reapAttempts ::= insert k (attempts_of pruned k ++ [now]) |>
                         <| lm_globalReaps ::= fun g => g ++ [now] |>) l')).
Proof.
  intros Hk k pruned. unfold classify_and_reap. fold k.
  destruct (negb (allowLookup (Some l) k now)); [by do 3 eexists; split; [done|]; left; split; [done|]; left|].
  cbn [recordLookup fmap option_fmap option_map].
  destruct (classifyPortSquatter _ _ _ _) as [v id]. destruct v;
    [|by do 3 eexists; split; [done|]; left; split; [done|]; left..].
  unfold allowReap. destruct (Nat.leb_spec squatterMaxGlobalReapsPerWindow
    (length (lm_globalReaps (pruneWindow (l <| lm_lastLookup ::= insert k now |>) k now)))) as [|Hg];
    [by do 3 eexists; split; [done|]; left; split; [done|]; right|].
  destruct (Nat.ltb_spec (length (attempts_of (pruneWindow (l <| lm_lastLookup ::= insert k now |>) k now) k))
    squatterMaxReapsPerTaskWindow) as [Ha|];
    [|by do 3 eexists; split; [done|]; left; split; [done|]; right].
  destruct (Hk d (KillProof id)) as [Hk1 Hk2]. destruct (reapFn d (KillProof id)) as [effs r]. cbn [fst snd] in Hk1, Hk2.
  destruct r as [err|]; [destruct (errors_Is err _)|]; do 3 eexists; (split; [done|]); right; rewrite kills_app, Hk1;
    done.
Qed.

Lemma pruneWindow_globals l k now : lm_globalReaps (pruneWindow l k now) = kept_after (now - lm_window l) (lm_globalReaps l).
Proof. done. Qed.
Lemma pruneWindow_attempts l k now j :
  attempts_of (pruneWindow l k now) j =
    if decide (j = k) then kept_after (now - lm_window l) (attempts_of l k) else attempts_of l j.
Proof.
  unfold pruneWindow, attempts_of at 1. cbn zeta.
  change (lm_reapAttempts (?r <| lm_globalReaps ::= ?f |>)) with (lm_reapAttempts r).
  change (lm_reapAttempts (?r <| lm_reapAttempts ::= ?f |>)) with (f (lm_reapAttempts r)).
  destruct (decide (j = k)) as [->|Hj]; destruct (kept_after _ _); by simplify_map_eq.
Qed.

(** The part of the invariant about one list: the log, the limiter's list
    and the cap. *)
Definition counted (w : duration) (cap : nat) (clock : time) (log held : list time) : Prop :=
  (forall t, clock <= t -> kept_after (t - w) log = kept_after (t - w) held) /\
  (length (kept_after (clock - w) log) <= cap)%nat.

Lemma kept_after_fewer c d l : d <= c -> (length (kept_after c l) <= length (kept_after d l))%nat.
Proof. intros. rewrite <- (kept_after_kept c d) by done. apply List.filter_length_le. Qed.

Lemma counted_later w cap clock now log held :
  clock <= now -> counted w cap clock log held -> counted w cap now log held.
Proof.
  intros Hn [H1 H2]. split; [intros t ?; apply H1; lia|].
  etransitivity; [apply (kept_after_fewer _ (clock - w)); lia|done].
Qed.

Lemma counted_pruned w cap now log held :
  counted w cap now log held -> counted w cap now log (kept_after (now - w) held).
Proof. intros [H1 H2]. split; [|done]. intros t Ht. rewrite kept_after_kept by lia. by apply H1. Qed.

Lemma counted_snoc w cap now log held :
  0 < w -> counted w cap now log held -> (length (kept_after (now - w) held) < cap)%nat ->
  counted w cap now (log ++ [now]) (kept_after (now - w) held ++ [now]).
Proof.
  intros Hw [H1 H2] Hl. split.
  - intros t Ht. rewrite !kept_after_app, kept_after_kept by lia. by rewrite H1.
  - rewrite kept_after_app, length_app, H1 by lia.
    assert (length (kept_after (now - w) [now]) <= 1)%nat by apply (List.filter_length_le _ [now]). lia.
Qed.

Lemma budget_inv_counted tasks b :
  budget_inv tasks b <->
  0 < lm_window (bu_limiter b) /\
  counted (lm_window (bu_limiter b)) squatterMaxGlobalReapsPerWindow (bu_clock b) (kill_times b) (lm_globalReaps (bu_limiter b)) /\
  forall k, tasks k ->
    counted (lm_window (bu_limiter b)) squatterMaxReapsPerTaskWindow (bu_clock b) (kill_times_of k b)
      (attempts_of (bu_limiter b) k).
Proof. unfold budget_inv, counted. naive_solver. Qed.

Lemma budget_step_window Q keeps b b' :
  budget_step Q keeps b b' -> lm_window (bu_limiter b') = lm_window (bu_limiter b).
Proof.
  intros [? reapFn d o tr src now l' effs oc Hk _ Hc|? seen l' _ [= <-]]; [|done].
  destruct (trigger_limiter Q reapFn d o tr src now (bu_limiter b0) Hk) as (l1&effs1&o1&Heq&Hcase).
  rewrite Hc in Heq. injection Heq as <- <- <-. cbn [bu_limiter]. by destruct Hcase as [[_ [[-> _]|[-> _]]]|(_&_&_&->&_)].
Qed.

Lemma budget_step_inv Q keeps tasks b b' :
  (forall seen k, keeps seen -> tasks k -> k ∈ seen) ->
  budget_step Q keeps b b' -> budget_inv tasks b -> budget_inv tasks b'.
Proof.
  intros Hkeep Hs. rewrite !budget_inv_counted. intros (Hw&Hg&Ht). destruct Hs as [b reapFn d o tr src now l' effs oc Hk Hn Hc|b seen l' Hseen Hp].
  - apply (counted_later _ _ _ now) in Hg; [|done].
    assert (forall k, tasks k -> counted (lm_window (bu_limiter b)) squatterMaxReapsPerTaskWindow now (kill_times_of k b)
      (attempts_of (bu_limiter b) k)) as Ht' by (intros k Hk'; by apply (counted_later _ _ (bu_clock b)); [|apply Ht]).
    clear Ht. destruct (trigger_limiter Q reapFn d o tr src now (bu_limiter b) Hk) as (l1&effs1&o1&Heq&Hcase).
    rewrite Hc in Heq. injection Heq as <- <- <-. set (k := canonicalSupervisorTaskName (sd_TaskName d)) in *.
    destruct Hcase as [[-> [(W&G&A)|(W&G&A)]]|(Hlen&Hlg&Hla&W&G&A)]; cbn [bu_limiter bu_clock].
    + rewrite W, G. unfold kill_times, kill_times_of, attempts_of in *. cbn [bu_log fmap list_fmap]. rewrite app_nil_r, A. done.
    + rewrite W, G, pruneWindow_globals. change (lm_window (pruneWindow _ _ _)) with (lm_window (bu_limiter b)).
      unfold kill_times, kill_times_of in *. cbn [bu_log fmap list_fmap]. rewrite app_nil_r. split_and!; [done|by apply counted_pruned|].
      intros j Hj. unfold attempts_of. rewrite A. fold (attempts_of (pruneWindow (bu_limiter b) k now) j).
      rewrite pruneWindow_attempts. destruct (decide (j = k)) as [->|]; [apply counted_pruned|]; by apply Ht'.
    + destruct (kills effs) as [|x [|? ?]]; [done| |done]. rewrite W, G.
      change (lm_window (_ <| lm_globalReaps ::= _ |>)) with (lm_window (bu_limiter b)).
      change (lm_globalReaps (?r <| lm_globalReaps ::= ?f |>)) with (f (lm_globalReaps (pruneWindow (bu_limiter b) k now))).
      rewrite pruneWindow_globals in *. split_and!; [done| |].
      { unfold kill_times. cbn [bu_log]. rewrite fmap_app. by apply counted_snoc. }
      intros j Hj. unfold attempts_of. rewrite A.
      change (lm_reapAttempts (?r <| lm_globalReaps ::= ?f |>)) with (lm_reapAttempts r).
      change (lm_reapAttempts (?r <| lm_reapAttempts ::= ?f |>)) with (f (lm_reapAttempts r)). cbv beta.
      unfold kill_times_of. cbn [bu_log]. rewrite List.filter_app, fmap_app. cbn [fmap list_fmap List.filter fst].
      destruct (decide (j = k)) as [->|Hne].
      * rewrite lookup_insert_eq, str_eqb_refl. cbn [default]. rewrite pruneWindow_attempts, decide_True in * by done.
        apply counted_snoc; [done|by apply Ht'|done].
      * rewrite lookup_insert_ne, (proj2 (str_eqb_false k j)), app_nil_r by done.
        fold (attempts_of (pruneWindow (bu_limiter b) k now) j). rewrite pruneWindow_attempts, decide_False by done.
        by apply Ht'.
  - injection Hp as <-. cbn [bu_limiter bu_clock]. split_and!; [done|done|]. intros k Hk.
    replace (attempts_of _ k) with (attempts_of (bu_limiter b) k); [by apply Ht|].
    unfold attempts_of.
    change (lm_reapAttempts (?r <| lm_reapAttempts ::= ?f |>)) with (f (lm_reapAttempts r)). cbv beta.
    change (lm_reapAttempts (?r <| lm_lastLookup ::= ?f |>)) with (lm_reapAttempts r).
    rewrite map_lookup_filter. destruct (lm_reapAttempts (bu_limiter b) !! k); [|done]. cbn.
    by rewrite option_guard_True by by apply (Hkeep seen).
Qed.

(** The kill budget.  In the life of the limiter, whatever is triggered
    and in whatever order the tasks come, no more than ten processes are
    killed in any failure window, and no more than three for a task that
    the sweeps have kept. *)
Theorem reap_budget Q keeps t0 b t k :
  rtc (budget_step Q keeps) (mkBudget newSquatterReapLimiter [] t0) b -> bu_clock b <= t ->
  (length (kept_after (t - respawnFailureWindow) (kill_times b)) <= 10)%nat /\
  ((forall seen, keeps seen -> k ∈ seen) ->
   (length (kept_after (t - respawnFailureWindow) (kill_times_of k b)) <= 3)%nat).
Proof.
  intros Hr Ht.
  assert (forall tasks, (forall seen j, keeps seen -> tasks j -> j ∈ seen) ->
    budget_inv tasks b /\ lm_window (bu_limiter b) = respawnFailureWindow) as H.
  { intros tasks Hk. remember (mkBudget newSquatterReapLimiter [] t0) as b0.
    assert (budget_inv tasks b0 /\ lm_window (bu_limiter b0) = respawnFailureWindow) as H0.
    { subst b0. split; [|done]. apply budget_inv_counted. split_and!; [done|by split; [|cbn; lia]|].
      intros j _. split; [done|]. cbn. lia. }
    clear Heqb0. induction Hr as [|b0 b1 b2 Hs _ IH]; [done|]. apply IH; [done|].
    destruct H0 as [H0 Hw]. split; [by eapply budget_step_inv|]. rewrite <- Hw. by eapply budget_step_window. }
  assert (forall cap held log, counted respawnFailureWindow cap (bu_clock b) log held ->
    (length (kept_after (t - respawnFailureWindow) log) <= cap)%nat) as Hc.
  { intros cap held log Hl. by apply (counted_later _ _ _ t) in Hl as [_ ?]. }
  split.
  - destruct (H (fun _ => False)) as [Hi Hw]; [done|]. apply budget_inv_counted in Hi as (_&Hg&_).
    rewrite Hw in Hg. by eapply Hc.
  - intros Hk. destruct (H (eq k)) as [Hi Hw]; [by intros ? ? ? <-; apply Hk|]. apply budget_inv_counted in Hi as (_&_&Hi).
    rewrite Hw in Hi. eapply Hc. by apply Hi.
Qed.

(** A sweep in which the task is neither running nor quarantined forgets the
    kills made for it: the cap per task does not bind across it. *)
Lemma prune_resets_task_budget l seen task now :
  task ∉ seen -> (length (kept_after (now - lm_window l) (lm_globalReaps l)) < squatterMaxGlobalReapsPerWindow)%nat ->
  (allowReap (pruneAbsent (Some l) seen) task now).2 = true.
Proof.
  intros Hn Hg. cbn [pruneAbsent fmap option_fmap option_map allowReap snd]. rewrite pruneWindow_globals.
  change (lm_window (_ <| lm_reapAttempts ::= _ |>)) with (lm_window l).
  change (lm_globalReaps (_ <| lm_reapAttempts ::= _ |>)) with (lm_globalReaps l).
  destruct (Nat.leb_spec squatterMaxGlobalReapsPerWindow (length (kept_after (now - lm_window l) (lm_globalReaps l)))); [lia|].
  rewrite pruneWindow_attempts, decide_True by done. unfold attempts_of.
  change (lm_reapAttempts (?r <| lm_reapAttempts ::= ?f |>)) with (f (lm_reapAttempts r)). cbv beta.
  rewrite (proj2 (map_lookup_filter_None _ _ _)); [done|]. by right.
Qed.

(** *** The port-gate worker *)
Definition request_task (r : SupervisorDaemon * Z) : string := canonicalSupervisorTaskName (sd_TaskName r.1).

(** The channel is bounded, holds a task once, and only tasks in flight. *)
Definition gate_wf (c : controller) : Prop :=
  NoDup (request_task <$> c_portGateCh c) /\
  (forall r, r ∈ c_portGateCh c -> request_task r ∈ c_portGateInFlight c) /\
  (length (c_portGateCh c) <= portGateChCapacity)%nat.

Lemma tryDispatch_wf d ownerPID c : gate_wf c -> gate_wf (tryDispatchPortGate d ownerPID c).
Proof.
  intros (Hn&Hf&Hl). unfold tryDispatchPortGate. cbn zeta.
  case_bool_decide as Hin; [done|]. destruct (Nat.ltb_spec (length (c_portGateCh c)) portGateChCapacity); [|done].
  unfold gate_wf.
  change (c_portGateCh (_ <| c_portGateInFlight ::= _ |> <| c_portGateCh ::= ?f |>)) with (f (c_portGateCh c)).
  change (c_portGateInFlight (_ <| c_portGateInFlight ::= ?f |> <| c_portGateCh ::= _ |>)) with (f (c_portGateInFlight c)).
  cbv beta. split_and!.
  - rewrite fmap_app, NoDup_app. split_and!; [done| |apply NoDup_singleton].
    intros k (r&->&Hr)%list_elem_of_fmap Heq%list_elem_of_singleton. apply Hf in Hr. by rewrite Heq in Hr.
  - intros r [Hr| ->%list_elem_of_singleton]%elem_of_app; [|set_solver]. apply Hf in Hr. set_solver.
  - rewrite length_app. cbn. lia.
Qed.

Lemma auto_kills_once Q : kills_once Q (fun d proof => ([SqKill d proof], sq_kill Q proof)).
Proof. done. Qed.
Lemma production_kills_once Q : kills_once Q (production_reap Q).
Proof. done. Qed.

(** What a round of the worker may do for the request it took. *)
Record round_ok (E : env) (Q : squatter_env) (c : controller) (d : SupervisorDaemon) (ownerPID : Z)
    (effs : list squatter_effect) (c' : controller) (posted : option LoopEvent) : Prop := mkRoundOk {
  ro_frame : c_tracker c' = c_tracker c /\ c_disk c' = c_disk c /\ c_smStates c' = c_smStates c /\ c_effects c' = c_effects c;
  ro_done : request_task (d, ownerPID) ∉ c_portGateInFlight c';
  ro_kills : forall d' p, In (d', p) (kills effs) ->
    d' = d /\ port_gate_stale E d ownerPID = false /\ condemned Q d ownerPID (Snapshot (c_tracker c)) p;
  ro_one : (length (kills effs) <= 1)%nat;
  ro_cleared : c_gateCleared c' = c_gateCleared c \/
    (c_gateCleared c' = {[request_task (d, ownerPID)]} ∪ c_gateCleared c /\ 0 < ownerPID /\ kills effs = []);
  ro_posted : posted = None \/ posted = Some (automatic_restart (request_task (d, ownerPID))) \/
    (posted = Some (event evPreSpawnRealloc (request_task (d, ownerPID))) /\ isDynamicPoolProxyDescriptor d = true /\
     kills effs = []);
}.

Lemma handlePortGateReq_ok E Q d ownerPID l c :
  let '(_, effs, c', posted) := handlePortGateReq E Q d ownerPID l c in
  round_ok E Q c d ownerPID effs c' posted /\ c_portGateCh c' = c_portGateCh c /\
  c_portGateInFlight c' = c_portGateInFlight c ∖ {[request_task (d, ownerPID)]}.
Proof.
  unfold handlePortGateReq. change (canonicalSupervisorTaskName (sd_TaskName d)) with (request_task (d, ownerPID)).
  destruct (port_gate_stale E d ownerPID) eqn:Hs.
  { split_and!; [|done|done]. split; try done; [|cbn; lia|by left|by left].
    change (request_task (d, ownerPID) ∉ c_portGateInFlight c ∖ {[request_task (d, ownerPID)]}). set_solver. }
  unfold reapSquatterForAutomaticTrigger.
  pose proof (trigger_kills Q _ d ownerPID (Snapshot (c_tracker c)) squatterSourcePreSpawn (e_now E) l (auto_kills_once Q)) as Hk.
  destruct (classify_and_reap _ _ _ _ _ _ _ _) as [[l' effs] o].
  assert ((forall d' p, In (d', p) (kills effs) -> d' = d /\ port_gate_stale E d ownerPID = false /\
            condemned Q d ownerPID (Snapshot (c_tracker c)) p) /\ (length (kills effs) <= 1)%nat) as [Hin Hone].
  { destruct Hk as [(->&_&_)|(p&->&Hp&_)]; [split; [done|cbn; lia]|]. split; [|done].
    intros d' p' [[= <- <-]|[]]. done. }
  assert (forall m : gset string, request_task (d, ownerPID) ∉ m ∖ {[request_task (d, ownerPID)]}) as Hni by set_solver.
  assert (o <> squatterAutoReaped -> o <> squatterAutoReapFailed -> kills effs = []) as Hnil.
  { intros H1 H2. destruct Hk as [(?&_)|(p&_&_&[->| ->]&_)]; done. }
  destruct o.
  - specialize (Hnil ltac:(done) ltac:(done)). destruct (isDynamicPoolProxyDescriptor d) eqn:Hd;
      (split_and!; [split; try done; try apply Hni; eauto|done|done]).
  - specialize (Hnil ltac:(done) ltac:(done)). destruct (Z.leb_spec ownerPID 0);
      (split_and!; [split; try done; try apply Hni; eauto|done|done]).
  - split_and!; [split; try done; try apply Hni; eauto|done|done].
  - split_and!; [split; try done; try apply Hni; eauto|done|done].
  - split_and!; [split; try done; try apply Hni; eauto|done|done].
Qed.

(** C11: the worker of the port gate.  The gate's channel stays bounded, with
    one request per task, all of them in flight, whatever is dispatched to
    it; and a round of the worker takes the oldest request and kills at most
    one process, which still owned the port when it looked again and is
    verified as the lost child of this very daemon; it lets the next spawn
    pass the gate only if it killed nothing and the owner is some process it
    could not verify; and what it asks of the loop is a restart that the
    operator's intent is checked for again, or a move to another port for a
    dynamic-pool daemon whose port a foreign process holds. *)
Theorem port_gate_worker E Q l c d ownerPID rest l' effs c' posted :
  gate_wf c -> c_portGateCh c = (d, ownerPID) :: rest ->
  port_gate_round E Q l c = Some (l', effs, c', posted) ->
  round_ok E Q c d ownerPID effs c' posted /\ c_portGateCh c' = rest /\ gate_wf c' /\
  forall d2 owner2, gate_wf (tryDispatchPortGate d2 owner2 c').
Proof.
  intros (Hn&Hf&Hl) Hc Hr. unfold port_gate_round in Hr. rewrite Hc in *. injection Hr as Hr.
  pose proof (handlePortGateReq_ok E Q d ownerPID l (c <| c_portGateCh := rest |>)) as H. rewrite Hr in H.
  destruct H as ([F D K O C P]&Hch&Hin). assert (gate_wf c') as Hwf.
  { unfold gate_wf. rewrite Hch, Hin. cbn [fmap list_fmap] in Hn. apply NoDup_cons in Hn as [Hni Hn].
    split_and!; [done| |cbn in *; lia]. intros r Hr'. apply elem_of_difference. split; [apply Hf; by right|].
    intros Heq%elem_of_singleton. apply Hni. rewrite <- Heq. by apply list_elem_of_fmap_2. }
  split_and!; [|done|done|]; [|by intros; apply tryDispatch_wf].
  destruct F as (F1&F2&F3&F4). by split.
Qed.

(** ** Examples: a lost child on the port of a serena proxy *)
Definition squatter_example : squatter_env := mkSquatterEnv exe_lookup_example deps_example (fun _ => None) 100.
Definition squatted_env : env :=
  mkEnv "state.json" (10 * Minute) 10 64 0 noon false (fun _ => 0) (fun _ _ => None) (Some (fun _ => Ok (Some 4711)))
    true (fun _ => StatOk) (fun _ => true) (fun _ => "") (Some demo_spawn) (TermTyped demo_term) None [].
Definition squatted : controller := tryDispatchPortGate serena_example 4711 demo_start.

Example squatter_reaped :
  let '(l, effs, c, posted) :=
    default (None, [], squatted, None) (port_gate_round squatted_env squatter_example (Some newSquatterReapLimiter) squatted) in
  kills effs = [(serena_example, KillProof own_identity_example)] /\
  posted = Some (automatic_restart (canonicalSupervisorTaskName "serena b1")) /\
  c_portGateCh c = [] /\ (lm_globalReaps <$> l) = Some [noon].
Proof. vm_compute. done. Qed.

Lemma squatted_wf : gate_wf squatted.
Proof. apply tryDispatch_wf. split; [apply NoDup_nil_2|]. split; [|cbn; lia]. intros r H. by apply not_elem_of_nil in H. Qed.

Lemma port_gate_worker_witness : exists l' effs c' posted,
  port_gate_round squatted_env squatter_example (Some newSquatterReapLimiter) squatted = Some (l', effs, c', posted) /\
  round_ok squatted_env squatter_example squatted serena_example 4711 effs c' posted.
Proof.
  do 4 eexists. split; [by vm_compute|].
  eapply (port_gate_worker squatted_env squatter_example (Some newSquatterReapLimiter) squatted serena_example 4711 []);
    [apply squatted_wf|by vm_compute|by vm_compute].
Defined.

Definition one_kill : budget :=
  mkBudget (default newSquatterReapLimiter (classify_and_reap squatter_example (production_reap squatter_example)
      serena_example 4711 ∅ squatterSourceSweep noon (Some newSquatterReapLimiter)).1.1)
    [(canonicalSupervisorTaskName "serena b1", noon)] noon.
Lemma one_kill_step :
  budget_step squatter_example (fun _ => False) (mkBudget newSquatterReapLimiter [] noon) one_kill.
Proof.
  pose proof (budget_trigger squatter_example (fun _ => False) (mkBudget newSquatterReapLimiter [] noon)
    (production_reap squatter_example) serena_example 4711 ∅ squatterSourceSweep noon (bu_limiter one_kill)
    (classify_and_reap squatter_example (production_reap squatter_example)
      serena_example 4711 ∅ squatterSourceSweep noon (Some newSquatterReapLimiter)).1.2 squatterAutoReaped
    (production_kills_once _)) as H.
  replace one_kill with (mkBudget (bu_limiter one_kill) (bu_log one_kill) noon) by done.
  replace (bu_log one_kill) with (bu_log (mkBudget newSquatterReapLimiter [] noon) ++
    ((fun _ => (canonicalSupervisorTaskName (sd_TaskName serena_example), noon)) <$>
      kills (classify_and_reap squatter_example (production_reap squatter_example)
      serena_example 4711 ∅ squatterSourceSweep noon (Some newSquatterReapLimiter)).1.2)) by (by vm_compute).
  apply H; [cbn; lia|by vm_compute].
Qed.

Lemma reap_budget_witness :
  kill_times one_kill = [noon] /\
  (length (kept_after (noon - respawnFailureWindow) (kill_times one_kill)) <= 10)%nat.
Proof.
  split; [done|].
  apply (reap_budget squatter_example (fun _ => False) noon one_kill noon "").
  - eapply rtc_l; [apply one_kill_step|apply rtc_refl].
  - cbn. lia.
Defined.
