(* ===== verification/Steps.v ===== *)
(** * The controller as a transition system

    Every handler of the controller is a composition of a few kinds of
    atomic steps.  A handler's lemma says that its result is reached by such
    steps; the theorems about effects and about the durable state follow
    from what one step can do, by induction over the steps. *)
From S2P Require Import Prelude GoTime StateMachine Intent Descriptor StateFile Readiness Tracker Lifecycle.
From S2P Require Import StopSettlement Recovery Backoff Termination Controller SpawnGate SideEffect StopBatch.
Open Scope Z_scope.

(** The effects that touch a process. *)
Definition calls_out (e : effect) : bool := match e with CallSpawn _ | CallTerm _ _ => true | _ => false end.

(** An error whose message is not blank. *)
Definition named_error (e : error) : Prop := is_blank (err_text e) = false.
Definition named_opt (o : option error) : Prop := match o with Some e => named_error e | None => True end.

(** What the callbacks and the other goroutines guarantee: their tracker
    operations are well formed and their errors say something. *)
Definition term_ok (T : terminator) : Prop :=
  match T with
  | TermNone => True
  | TermLegacy f => forall d, Forall op_ok (f d).1.1 /\ named_opt (f d).2
  | TermTyped f => forall d x, Forall op_ok (f d x).1.1 /\ named_opt (to_Cause (f d x).2)
  end.
Record env_ok (E : env) : Prop := mkEnvOk {
  ok_interleave : Forall op_ok (e_interleave E);
  ok_spawn : forall f d, e_spawn E = Some f -> Forall op_ok (sp_ops (f d));
  ok_term : term_ok (e_terminate E);
}.

(** Bookkeeping: no effect, no tracker operation, no write; passes of the
    port gate are only ever used up. *)
Record silent (c c' : controller) : Prop := mkSilent {
  silent_tracker : c_tracker c' = c_tracker c;
  silent_disk : c_disk c' = c_disk c;
  silent_ios : c_ios c' = c_ios c;
  silent_effects : c_effects c' = c_effects c;
  silent_gate : c_gateCleared c' ⊆ c_gateCleared c;
}.

Section Steps.
Context `{Digest} (E : env).
(** The calls and the stop batches the steps may contain. *)
Variable P : effect -> Prop.
Variable Q : StopBatchCommandV1 -> DaemonRuntimeTracker -> Prop.

Inductive cstep : controller -> controller -> Prop :=
| cs_silent c c' : silent c c' -> cstep c c'
| cs_effect e c : (calls_out e = true -> P e) -> cstep c (perform e c)
| cs_mark op c : (env_ok E -> op_ok op) -> cstep c (mark op c)
| cs_persist task c : cstep c (persist E task c)
| cs_begin cmd c : Q cmd (c_tracker c) -> cstep c (begin_batch E cmd c).1
| cs_advance k r phase fc fd c :
    t_stopSettlements (c_tracker c) !! k = Some r ->
    (env_ok E -> phase = StopSettlementPhaseFailed -> sr_Phase r <> StopSettlementPhaseFailed -> is_blank fd = false) ->
    cstep c (advance_receipt E r phase fc fd c).1.

Definition steps : controller -> controller -> Prop := rtc cstep.

Lemma steps_refl c : steps c c.
Proof. apply rtc_refl. Qed.
Lemma steps_snoc c1 c2 c3 : steps c1 c2 -> cstep c2 c3 -> steps c1 c3.
Proof. apply rtc_r. Qed.

Lemma steps_trans c1 c2 c3 : steps c1 c2 -> steps c2 c3 -> steps c1 c3.
Proof. intros H12 H23. by transitivity c2. Qed.

(** ** The primitives, in the form the automation chains backwards *)
Lemma steps_silent c1 c2 c3 : silent c2 c3 -> steps c1 c2 -> steps c1 c3.
Proof. intros Hs H12. eapply steps_snoc; [exact H12|]. by apply cs_silent. Qed.
Lemma steps_emit c0 c s e t : steps c0 c -> steps c0 (emit s e t c).
Proof. intros H0. eapply steps_snoc; [exact H0|]. by apply (cs_effect (Audit s e t)). Qed.
Lemma steps_perform c0 c e : (calls_out e = true -> P e) -> steps c0 c -> steps c0 (perform e c).
Proof. intros He H0. eapply steps_snoc; [exact H0|]. by apply cs_effect. Qed.
Lemma steps_mark c0 c op : (env_ok E -> op_ok op) -> steps c0 c -> steps c0 (mark op c).
Proof. intros Ho H0. eapply steps_snoc; [exact H0|]. by apply cs_mark. Qed.
Lemma steps_persist c0 c task : steps c0 c -> steps c0 (persist E task c).
Proof. intros H0. eapply steps_snoc; [exact H0|]. apply cs_persist. Qed.
Lemma steps_persist_pair c0 c task : steps c0 c -> steps c0 (persistDaemonRuntimeTracker E task c).1.
Proof. apply steps_persist. Qed.
Lemma steps_begin c0 c cmd : Q cmd (c_tracker c) -> steps c0 c -> steps c0 (begin_batch E cmd c).1.
Proof. intros Hq H0. eapply steps_snoc; [exact H0|]. by apply cs_begin. Qed.
Lemma steps_advance c0 c k r phase fc fd :
  t_stopSettlements (c_tracker c) !! k = Some r ->
  (env_ok E -> phase = StopSettlementPhaseFailed -> sr_Phase r <> StopSettlementPhaseFailed -> is_blank fd = false) ->
  steps c0 c -> steps c0 (advance_receipt E r phase fc fd c).1.
Proof. intros Hk Hfd H0. eapply steps_snoc; [exact H0|]. by eapply cs_advance. Qed.

Lemma steps_marks c0 c ops : (env_ok E -> Forall op_ok ops) -> steps c0 c -> steps c0 (marks ops c).
Proof.
  intros Hops H0. assert (forall t, marks ops c = c <| c_tracker := apply_ops ops (c_tracker c) |>) as _ by done.
  revert c Hops H0. induction ops as [|op ops IH]; intros c Hops H0.
  - by apply (steps_silent c0 c).
  - change (marks (op :: ops) c) with (marks ops (mark op c)). apply IH.
    + intros Ho. apply Hops in Ho. by inversion Ho.
    + apply steps_mark; [|done]. intros Ho. apply Hops in Ho. by inversion Ho.
Qed.

(** Folding steps over a list. *)
Lemma steps_foldl {A} (f : controller -> A -> controller) l c0 c :
  (forall c x, x ∈ l -> steps c0 c -> steps c0 (f c x)) -> steps c0 c -> steps c0 (foldl f c l).
Proof.
  revert c. induction l as [|x l IH]; intros c Hf H0; simpl; [done|].
  apply IH; [intros; apply Hf; [by right|done]|]. apply Hf; [by left|done].
Qed.
Lemma steps_foldl_pair {A B} (f : controller * B -> A -> controller * B) l c0 p :
  (forall c b x, x ∈ l -> steps c0 c -> steps c0 (f (c, b) x).1) -> steps c0 p.1 -> steps c0 (foldl f p l).1.
Proof.
  revert p. induction l as [|x l IH]; intros [c b] Hf H0; simpl; [done|].
  apply IH; [intros; apply Hf; [by right|done]|]. apply Hf; [by left|done].
Qed.
End Steps.

Lemma gate_used_up (s X : gset string) : s ∖ X ⊆ s.
Proof. set_solver. Qed.

Create HintDb steps discriminated.
#[export] Hint Constants Opaque : steps.
#[export] Hint Resolve steps_refl steps_emit steps_mark steps_persist steps_persist_pair steps_marks : steps.
#[export] Hint Extern 1 (steps _ _ _ _ (perform _ _)) => apply steps_perform; [try done|] : steps.
#[export] Hint Extern 2 (steps _ _ _ _ (set_field _ ?c)) =>
  apply (steps_silent _ _ _ _ c);
    [let c' := fresh "c" in generalize c; intros c'; split;
     [reflexivity | reflexivity | reflexivity | reflexivity | first [reflexivity | apply gate_used_up]] |] : steps.
#[export] Hint Extern 3 (steps _ _ _ _ (match ?m with _ => _ end)) =>
  lazymatch type of m with (controller * _)%type => fail | _ => destruct m end : steps.
#[export] Hint Extern 1 (env_ok _ -> op_ok _) => by intros _ : steps.

(** Read a binding [let (c, x) := m in k] off the lemma about [m.1], split
    the other matches, and chain the step lemmas. *)
Ltac steps_bind m :=
  lazymatch type of m with
  | (controller * _)%type =>
      lazymatch goal with
      | |- steps ?E ?P ?Q ?c0 _ =>
          let Hs := fresh "Hs" in let c := fresh "c" in let x := fresh "x" in let Hm := fresh "Hm" in
          assert (steps E P Q c0 m.1) as Hs; [|destruct m as [c x] eqn:Hm; cbn [fst snd] in Hs |- *]
      end
  | _ => let Hm := fresh "Hm" in destruct m eqn:Hm; cbn [fst snd]
  end.
Ltac steps_tac :=
  intros; repeat first
    [ progress cbn [fst snd]
    | solve [eauto 1000 with steps]
    | lazymatch goal with
      | |- steps _ _ _ _ (match ?m with _ => _ end) => steps_bind m
      | |- steps _ _ _ _ (match ?m with _ => _ end).1 => steps_bind m
      | |- steps _ _ _ _ (if ?b then _ else _) => let Hb := fresh "Hb" in destruct b eqn:Hb
      end ].
