(* ===== verification/HandlerSteps.v ===== *)
(** * Every handler is made of steps

    One lemma per function of the controller, each in the form the
    automation of [Steps] chains: what a function does to the controller is
    a sequence of steps, with the calls it may make spelled out by [P]. *)
From S2P Require Import Prelude GoTime StateMachine Intent Descriptor StateFile Readiness Tracker Lifecycle.
From S2P Require Import StopSettlement Recovery Backoff Termination Controller SpawnGate SideEffect Reap.
From S2P Require Import Realloc StopBatch Loop Steps.
Open Scope Z_scope.

Section HandlerSteps.
Context `{Digest} (E : env) (P : effect -> Prop) (Q : StopBatchCommandV1 -> DaemonRuntimeTracker -> Prop).
Notation steps := (steps E P Q).

(** ** Bookkeeping *)
Lemma steps_setSM c0 c t s : steps c0 c -> steps c0 (setSM t s c).
Proof. unfold setSM. steps_tac. Qed.
Lemma steps_setQueued c0 c t s : steps c0 c -> steps c0 (setQueued t s c).
Proof. unfold setQueued. steps_tac. Qed.
#[local] Hint Resolve steps_setSM steps_setQueued : steps.
Lemma steps_PostSelf c0 c ev : steps c0 c -> steps c0 (PostSelf E ev c).1.
Proof. unfold PostSelf. steps_tac. Qed.
Lemma steps_saturated c0 c t : steps c0 c -> steps c0 (emitSelfChannelSaturated t c).
Proof. unfold emitSelfChannelSaturated. steps_tac. Qed.
Lemma steps_completeIdle c0 c ev err : steps c0 c -> steps c0 (completeIdleRespawnEvent ev err c).
Proof. unfold completeIdleRespawnEvent. steps_tac. Qed.
Lemma steps_armTimer c0 c t d : steps c0 c -> steps c0 (armRespawnBackoffTimer E t d c).1.
Proof. unfold armRespawnBackoffTimer, nextRespawnArmGen. steps_tac. Qed.
Lemma steps_parole_eligible c0 c t : steps c0 c -> steps c0 (recordQuarantineParoleEligible E t c).
Proof. unfold recordQuarantineParoleEligible. steps_tac. Qed.
Lemma steps_clearParole c0 c t : steps c0 c -> steps c0 (clearQuarantineParole t c).
Proof. unfold clearQuarantineParole. steps_tac. Qed.
#[local] Hint Resolve steps_PostSelf steps_saturated steps_completeIdle steps_armTimer steps_parole_eligible steps_clearParole : steps.
Lemma steps_holdSpawn c0 c d ev r w : steps c0 c -> steps c0 (holdSpawnInBackoff E d ev r w c).1.
Proof. unfold holdSpawnInBackoff. steps_tac. Qed.
#[local] Hint Resolve steps_holdSpawn : steps.

(** ** The spawn gates *)
Lemma steps_recordHold c0 c d r p : steps c0 c -> steps c0 (recordSpawnHold E d r p c).
Proof. unfold recordSpawnHold, spawnHoldEmitDecision. steps_tac. Qed.
Lemma steps_clearHold c0 c t : steps c0 c -> steps c0 (clearSpawnHold E t c).
Proof.
  intros H0. unfold clearSpawnHold. set (c1 := c <| c_spawnHolds ::= _ |>).
  assert (steps c0 (mark (OpClearSpawnHold t) c1)) as Hs
    by (apply steps_mark; [by intros _|]; unfold c1; eauto 1000 with steps).
  unfold mark in Hs. change (apply_op (OpClearSpawnHold t)) with (fun u => (ClearSpawnHold u t).1) in Hs.
  change (set_field (proj := c_tracker) (fun u => (ClearSpawnHold u t).1) c1)
    with (c1 <| c_tracker := (ClearSpawnHold (c_tracker c1) t).1 |>) in Hs.
  destruct (ClearSpawnHold (c_tracker c1) t) as [t' cl]. simpl in Hs. steps_tac.
Qed.
#[local] Hint Resolve steps_recordHold steps_clearHold : steps.
Lemma steps_pathGate c0 c d ev : steps c0 c -> steps c0 (preSpawnMissingPathHold E d ev c).1.
Proof. unfold preSpawnMissingPathHold. steps_tac. Qed.
Lemma steps_dispatchPortGate c0 c d o : steps c0 c -> steps c0 (tryDispatchPortGate d o c).
Proof. unfold tryDispatchPortGate. steps_tac. Qed.
#[local] Hint Resolve steps_pathGate steps_dispatchPortGate : steps.
Lemma steps_portGate c0 c d ev : steps c0 c -> steps c0 (preSpawnPortGateHold E d ev c).1.
Proof. unfold preSpawnPortGateHold. steps_tac. Qed.
#[local] Hint Resolve steps_portGate : steps.

(** ** Side effects *)
Lemma steps_advance_exit c0 c x : steps c0 c -> steps c0 (advanceExactStopReceiptExit E x c).1.
Proof.
  unfold advanceExactStopReceiptExit, StopSettlementReceipt. intros H0.
  destruct (negb _); [done|]. destruct (t_stopSettlements _ !! _) as [r|] eqn:Hr; [|done].
  assert (steps c0 (advance_receipt E r StopSettlementPhaseExitObserved "" "" c).1)
    as Hs by (eapply steps_advance; [exact Hr|done|done]).
  steps_tac.
Qed.
#[local] Hint Resolve steps_advance_exit : steps.
Lemma steps_recordExit c0 c ev : steps c0 c -> steps c0 (recordExactStopReceiptExit E ev c).
Proof. unfold recordExactStopReceiptExit. steps_tac. Qed.
Lemma steps_backoff c0 c d ev : steps c0 c -> steps c0 (handleBackoffWaiting E d ev c).
Proof.
  intros H0. unfold handleBackoffWaiting.
  set (op := OpRecordCrash (sd_TaskName d) (e_now E) (e_failureWindow E)).
  assert (steps c0 (mark op c)) as Hs by (apply steps_mark; [by intros _|done]).
  change (mark op c) with (c <| c_tracker := (RecordCrashAndCountInWindow (c_tracker c) (sd_TaskName d) (e_now E) (e_failureWindow E)).1 |>) in Hs.
  destruct (RecordCrashAndCountInWindow _ _ _ _) as [t n]. simpl in Hs. steps_tac.
Qed.
#[local] Hint Resolve steps_recordExit steps_backoff : steps.
Lemma steps_legacySerena c0 c ev : steps c0 c -> steps c0 (quarantine_legacy_serena E ev c).1.
Proof. unfold quarantine_legacy_serena. steps_tac. Qed.
#[local] Hint Resolve steps_legacySerena : steps.

(** The spawn callback is called at most once, and only past the gates. *)
Lemma steps_spawn_answer c0 c d ev spawn :
  e_spawn E = Some spawn ->
  steps c0 (perform (CallSpawn d) c) -> steps c0 (run_spawn E d ev spawn c).1.
Proof.
  intros He H0. unfold run_spawn.
  assert (steps c0 (marks (sp_ops (spawn d)) (perform (CallSpawn d) c))) as Hm.
  { apply steps_marks; [|done]. intros Ho. by eapply ok_spawn. }
  steps_tac.
Qed.

Lemma steps_synth c0 c d x : steps c0 c -> steps c0 (synthesizeForeignChildExit E d x c).
Proof. unfold synthesizeForeignChildExit. steps_tac. Qed.
#[local] Hint Resolve steps_synth : steps.
Lemma steps_call_terminate c0 c d x :
  P (CallTerm d x) -> steps c0 c -> steps c0 (call_terminate E d x c).1.
Proof.
  intros Hp H0. unfold call_terminate. destruct (e_terminate E) as [|f|f] eqn:Ht; [done| |].
  - destruct (f d) as [[ops p] err] eqn:Hf. simpl.
    assert (steps c0 (marks ops (perform (CallTerm d x) c))).
    { apply steps_marks; [|by apply steps_perform]. intros Ho. pose proof (ok_term _ Ho) as Hk.
      rewrite Ht in Hk. specialize (Hk d). rewrite Hf in Hk. apply Hk. }
    steps_tac.
  - destruct (f d x) as [[ops p] o] eqn:Hf. simpl.
    assert (steps c0 (marks ops (perform (CallTerm d x) c))).
    { apply steps_marks; [|by apply steps_perform]. intros Ho. pose proof (ok_term _ Ho) as Hk.
      rewrite Ht in Hk. specialize (Hk d x). rewrite Hf in Hk. apply Hk. }
    steps_tac.
Qed.
Lemma steps_terminate c0 c d ev :
  (forall x, P (CallTerm (descriptorForTerminateSideEffect d ev) x)) ->
  steps c0 c -> steps c0 (terminate_process E d ev c).1.
Proof.
  intros Hp H0. unfold terminate_process.
  pose proof (fun x => steps_call_terminate c0 c _ x (Hp x) H0) as Hc. steps_tac.
Qed.
#[local] Hint Resolve steps_terminate : steps.

(** A side effect that does not create a process. *)
Lemma steps_execute c0 c sd st d ev :
  (st = StSpawning -> str_contains sd "create-process" = false) ->
  (st = StExiting -> forall x, P (CallTerm (descriptorForTerminateSideEffect d ev) x)) ->
  steps c0 c -> steps c0 (executeSideEffect E sd st d ev c).1.
Proof.
  intros Hsp Hterm H0. destruct st; unfold executeSideEffect; try (by steps_tac).
  by rewrite Hsp.
Qed.

(** ** Reaping *)
Lemma steps_emitReap c0 c s e t : steps c0 c -> steps c0 (emitReapEvent s e t c).
Proof. apply steps_emit. Qed.
Lemma steps_disarm c0 c t : steps c0 c -> steps c0 (disarmReapFollowup t c).
Proof. unfold disarmReapFollowup, stopReapTimer. steps_tac. Qed.
Lemma steps_armReap c0 c t : steps c0 c -> steps c0 (armReapFollowup E t c).
Proof. unfold armReapFollowup, stopReapTimer. steps_tac. Qed.
#[local] Hint Resolve steps_emitReap steps_disarm steps_armReap : steps.
Lemma steps_markPending c0 c t d : steps c0 c -> steps c0 (markPendingReap E t d c).
Proof. unfold markPendingReap, stopReapTimer, bumpReapGeneration. steps_tac. Qed.
Lemma steps_cancelPending c0 c t : steps c0 c -> steps c0 (cancelPendingReap t c).
Proof. unfold cancelPendingReap. steps_tac. Qed.
Lemma steps_clearRemoved c0 c t : steps c0 c -> steps c0 (clearRemovedTaskRuntime E t c).
Proof. unfold clearRemovedTaskRuntime. steps_tac. Qed.
Lemma steps_queueRespawn c0 c t : steps c0 c -> steps c0 (queueRespawnOnReapCancelIfNeeded E t c).
Proof. unfold queueRespawnOnReapCancelIfNeeded. steps_tac. Qed.
Lemma steps_replayTimer c0 c t : steps c0 c -> steps c0 (replayDeferredBackoffTimerIfPending E t c).
Proof. unfold replayDeferredBackoffTimerIfPending. steps_tac. Qed.
Lemma steps_clearQueuedStop c0 c t k : steps c0 c -> steps c0 (clear_queued_stop t k c).
Proof. unfold clear_queued_stop. steps_tac. Qed.
#[local] Hint Resolve steps_markPending steps_cancelPending steps_clearRemoved steps_queueRespawn steps_replayTimer
  steps_clearQueuedStop : steps.
Lemma steps_clearDeferredStop c0 c t : steps c0 c -> steps c0 (clearReapDeferredStopIfPending E t c).
Proof.
  unfold clearReapDeferredStopIfPending. intros H0. case_match; [|done]. case_match; [eauto 1000 with steps|].
  apply steps_foldl; eauto 1000 with steps.
Qed.
Lemma steps_queuedSide c0 c t sd : steps c0 c -> steps c0 (apply_queued_side t sd c).
Proof. unfold apply_queued_side. steps_tac. Qed.
#[local] Hint Resolve steps_clearDeferredStop steps_queuedSide : steps.
Lemma steps_settle c0 c ns cs k t err : steps c0 c -> steps c0 (reap_settle ns cs k t err c).1.
Proof. unfold reap_settle. steps_tac. Qed.
#[local] Hint Resolve steps_settle : steps.

(** A stopped intent never asks for a process. *)
Lemma stopped_no_create s k n q g :
  str_contains (side (Transition s EvIntentUpdate (mkSMContext IntentDesiredStopped k n q g))) "create-process" = false.
Proof. destruct s, k; try reflexivity; by destruct g. Qed.

Lemma steps_reapRemoved c0 c d :
  (forall x, P (CallTerm d x)) -> steps c0 c -> steps c0 (reapRemovedDaemon E d c).1.
Proof.
  intros Hp H0. unfold reapRemovedDaemon. cbn zeta.
  destruct (getSMStateCanonical c _) as [cur|]; [|done]. destruct (bool_decide _); [steps_tac|].
  destruct (negb (smStateIsReapable _ _)); [done|]. destruct (negb (matched _)); [done|].
  set (o := Transition cur EvIntentUpdate _).
  match goal with |- context [executeSideEffect E _ _ d ?ev ?c1] =>
    assert (steps c0 c1) as H1; [repeat case_match; eauto 1000 with steps|];
    pose proof (steps_execute c0 c1 (side o) (newState o) d ev (fun _ => stopped_no_create _ _ _ _ _) (fun _ => Hp) H1) as H2
  end.
  steps_tac.
Qed.
#[local] Hint Resolve steps_reapRemoved : steps.
Lemma steps_resolve c0 c d : (forall x, P (CallTerm d x)) -> steps c0 c -> steps c0 (resolveConfirmedReap E d c).
Proof. unfold resolveConfirmedReap. steps_tac. Qed.

Lemma steps_snapshot c0 c prev upd stops : steps c0 c -> steps c0 (applyReapSnapshot E prev upd stops c).1.
Proof.
  intros H0. unfold applyReapSnapshot. cbn zeta.
  set (next := taskNameSetFromIntent upd). set (universe := elements _).
  assert (steps c0 (foldl (capture_step next) (c, ∅) universe).1) as H1.
  { apply steps_foldl_pair; [|done]. intros c1 b x _ Hc. unfold capture_step. steps_tac. }
  destruct (foldl (capture_step next) _ _) as [c1 captured]. simpl in H1.
  match goal with |- context [foldl (pending_step E next) (?c2, []) ?l] =>
    assert (steps c0 (foldl (pending_step E next) (c2, []) l).1) as H3 end.
  { apply steps_foldl_pair; [|unfold IntentCache_Refresh, daemonIntent_Refresh; simpl; eauto 1000 with steps].
    intros c2 b x _ Hc. unfold pending_step. steps_tac. }
  destruct (foldl (pending_step E next) _ _) as [c3 confirmed]. simpl in *.
  apply steps_foldl; [|done]. intros c2 x _ Hc. unfold absent_step. steps_tac.
Qed.
#[local] Hint Resolve steps_snapshot : steps.

Lemma steps_reapScan c0 c prev upd stops :
  (forall d x, d ∈ (applyReapSnapshot E prev upd stops c).2 -> P (CallTerm d x)) ->
  steps c0 c -> steps c0 (handleReapScan E prev upd stops c).
Proof.
  intros Hp H0. unfold handleReapScan. pose proof (steps_snapshot c0 c prev upd stops H0) as H1.
  destruct (applyReapSnapshot _ _ _ _ _) as [c1 l]. simpl in *.
  apply steps_foldl; [|done]. intros c2 d Hd Hc. apply steps_resolve; eauto.
Qed.

(** Only a task that was pending before and is absent now is confirmed. *)
Lemma capture_pending next l p : c_pendingReap (foldl (capture_step next) p l).1 = c_pendingReap p.1.
Proof.
  revert p. induction l as [|x l IH]; intros [c b]; simpl; [done|]. rewrite IH.
  unfold capture_step. by repeat case_match.
Qed.
Lemma pending_confirmed next l p d :
  d ∈ (foldl (pending_step E next) p l).2 -> d ∈ p.2 \/ exists k, (k, d) ∈ l /\ k ∉ next.
Proof.
  revert p. induction l as [|[k e] l IH]; intros [c b] Hd; simpl in *; [by left|].
  apply IH in Hd as [Hd|(k'&Hk&Hn)]; [|right; exists k'; split; [by right|done]].
  unfold pending_step in Hd. simpl in Hd.
  destruct (k =s ""); [by left|]. destruct (bool_decide_reflect (k ∈ next)) as [|Hn]; [by left|].
  destruct (negb _); [by left|]. simpl in Hd. apply elem_of_app in Hd as [Hd|Hd]; [by left|].
  apply list_elem_of_singleton in Hd as ->. right. exists k. split; [by left|done].
Qed.
Lemma snapshot_confirmed prev upd stops c d :
  d ∈ (applyReapSnapshot E prev upd stops c).2 ->
  exists k, c_pendingReap c !! k = Some d /\ k ∉ taskNameSetFromIntent upd.
Proof.
  unfold applyReapSnapshot. cbn zeta. set (universe := elements _).
  pose proof (capture_pending (taskNameSetFromIntent upd) universe (c, ∅)) as Hc.
  destruct (foldl (capture_step _) _ _) as [c1 captured]. simpl in Hc.
  match goal with |- context [foldl (pending_step E ?n) ?p ?l] =>
    pose proof (pending_confirmed n l p d) as Hp; destruct (foldl (pending_step E n) p l) as [c3 confirmed] end.
  simpl in *. intros Hd. destruct (Hp Hd) as [Hn|(k&Hk&Hn)]; [by apply not_elem_of_nil in Hn|].
  exists k. split; [|done]. apply elem_of_map_to_list in Hk. rewrite <- Hc, <- Hk.
  by destruct stops.
Qed.

(** A daemon pending to be reaped that an intent does not have. *)
Definition absent_pending (c : controller) (look : option SupervisorIntentFile) (d : SupervisorDaemon) : Prop :=
  exists k, c_pendingReap c !! k = Some d /\ k ∉ taskNameSetFromIntent look.

(** A handler that may terminate only pending daemons. *)
Definition may_reap (c : controller) : Prop := forall k d x, c_pendingReap c !! k = Some d -> P (CallTerm d x).

Lemma steps_reapScan_absent c prev upd stops :
  (forall d x, absent_pending c upd d -> P (CallTerm d x)) -> steps c (handleReapScan E prev upd stops c).
Proof.
  intros Hp. apply steps_reapScan; [|apply steps_refl]. intros d x Hd%snapshot_confirmed. by apply Hp.
Qed.
Lemma steps_reapScan_pending c prev upd stops : may_reap c -> steps c (handleReapScan E prev upd stops c).
Proof. intros Hp. apply steps_reapScan_absent. intros d x (k&Hk&_). eauto. Qed.
Lemma steps_confirmReap c0 c t l :
  (forall d x, d ∈ l -> P (CallTerm d x)) -> steps c0 c -> steps c0 (confirmReapForTask E t l c).
Proof.
  induction l as [|d l IH]; intros Hp H0; simpl; [done|]. case_match.
  - apply steps_resolve; [|done]. intros x. apply Hp. by left.
  - apply IH; [|done]. intros d' x Hd. apply Hp. by right.
Qed.
Lemma steps_followup c t g : may_reap c -> steps c (handleReapFollowup E t g c).
Proof.
  intros Hp. pose proof (steps_refl E P Q c) as H0. unfold handleReapFollowup, stopReapTimer. cbn zeta.
  set (task := canonicalSupervisorTaskName t). destruct (c_reapGeneration c !! task); [|done].
  case_match; [steps_tac|].
  set (c1 := c <| c_reapArmed ::= _ |> <| c_reapTimers ::= _ |>).
  assert (steps c c1) as Hc1 by (unfold c1; eauto 1000 with steps).
  change (c_pendingReap c1) with (c_pendingReap c). destruct (c_pendingReap c !! task) as [d|] eqn:Hd; [|done].
  destruct (e_freshIntent E) as [[fresh|e]|]; [|steps_tac..]. case_match; [|case_match; [steps_tac|]].
  - pose proof (snapshot_confirmed (TaskNames c1) fresh (Some (StopsAsDaemonIntentFile fresh)) c1) as Hs.
    pose proof (steps_snapshot c c1 (TaskNames c1) fresh (Some (StopsAsDaemonIntentFile fresh)) Hc1) as Hc2.
    destruct (applyReapSnapshot _ _ _ _ _) as [c2 l]. apply steps_emit, steps_confirmReap; [|done].
    intros d' x (k&Hk&_)%Hs. by eapply Hp.
  - apply steps_resolve; [|done]. intros x. by eapply Hp.
Qed.

(** ** Reallocation *)
#[local] Hint Resolve steps_setSM steps_setQueued steps_PostSelf steps_saturated steps_armTimer steps_parole_eligible
  steps_emitReap steps_completeIdle : steps.
Lemma steps_bindDenied c0 c d b : steps c0 c -> steps c0 (emitBindAccessDenied d b c).
Proof. unfold emitBindAccessDenied. steps_tac. Qed.
#[local] Hint Resolve steps_bindDenied : steps.
Lemma steps_bindTerminal c0 c d : steps c0 c -> steps c0 (emitBindAccessDeniedTerminalOnce d c).
Proof. unfold emitBindAccessDeniedTerminalOnce. steps_tac. Qed.
Lemma steps_startDwell c0 c t : steps c0 c -> steps c0 (startReallocDwell t c).
Proof. unfold startReallocDwell. steps_tac. Qed.
Lemma steps_leftRunning c0 c t : steps c0 c -> steps c0 (noteReallocDwellLeftRunning t c).
Proof. unfold noteReallocDwellLeftRunning. steps_tac. Qed.
Lemma steps_holdNoTimer c0 c t : steps c0 c -> steps c0 (holdInBackoffNoTimer E t c).
Proof. unfold holdInBackoffNoTimer. steps_tac. Qed.
Lemma steps_dispatchRealloc c0 c d n : steps c0 c -> steps c0 (tryDispatchRealloc E d n c).1.
Proof. unfold tryDispatchRealloc. steps_tac. Qed.
#[local] Hint Resolve steps_bindTerminal steps_startDwell steps_leftRunning steps_holdNoTimer steps_dispatchRealloc : steps.
Lemma steps_dispatchPool c0 c d t : steps c0 c -> steps c0 (dispatchDynamicPoolRealloc E d t c).1.
Proof. unfold dispatchDynamicPoolRealloc. steps_tac. Qed.
#[local] Hint Resolve steps_dispatchPool : steps.
Lemma steps_bindRefused c0 c d ev s : steps c0 c -> steps c0 (maybeHandleBindRefusedExit E d ev s c).1.
Proof. unfold maybeHandleBindRefusedExit. steps_tac. Qed.
Lemma steps_preSpawnRealloc c0 c ev : steps c0 c -> steps c0 (handlePreSpawnRealloc E ev c).
Proof. unfold handlePreSpawnRealloc. steps_tac. Qed.
Lemma steps_dwellTick c0 c : steps c0 c -> steps c0 (runReallocDwellTick E c).
Proof.
  intros H0. unfold runReallocDwellTick. apply steps_foldl; [|done]. intros c1 [k since] _ Hc.
  unfold dwell_step. steps_tac.
Qed.
Lemma steps_quarantineRealloc c0 c t : steps c0 c -> steps c0 (quarantine_realloc E t c).
Proof. unfold quarantine_realloc. steps_tac. Qed.
(** The intent the result of a reallocation is compared with: the one it
    carries if that is newer than the cached one, and else the cached one
    with the new port. *)
Definition realloc_intent (ev : LoopEvent) (c : controller) : option SupervisorIntentFile :=
  match reallocSnapshotOrder (c_intent c) (b_realloc_intent (ev_Body ev)) with
  | reallocSnapshotIncomingNewer => b_realloc_intent (ev_Body ev)
  | _ =>
      if b_realloc_new_port (ev_Body ev) <=? 0 then None
      else CloneIntentWithReallocatedPort (c_intent c) (canonicalSupervisorTaskName (ev_TaskName ev)) (b_realloc_new_port (ev_Body ev))
  end.
Definition realloc_look (ev : LoopEvent) (c : controller) (d : SupervisorDaemon) : Prop :=
  exists look, realloc_intent ev c = Some look /\ absent_pending c (Some look) d.
Lemma steps_patchPort c t n :
  (forall look d x, 0 < n -> CloneIntentWithReallocatedPort (c_intent c) t n = Some look -> absent_pending c (Some look) d -> P (CallTerm d x)) ->
  steps c (patchCachedReallocatedPort E t n c).
Proof.
  intros Hp. unfold patchCachedReallocatedPort. destruct (Z.leb_spec n 0); [apply steps_refl|].
  destruct (CloneIntentWithReallocatedPort _ _ _) as [look|] eqn:El; [|apply steps_refl].
  apply steps_reapScan_absent. intros d x. by apply (Hp look).
Qed.
#[local] Hint Resolve steps_bindRefused steps_quarantineRealloc : steps.
Lemma steps_reallocApplied c ev :
  (forall d x, realloc_look ev c d -> P (CallTerm d x)) -> steps c (handleReallocApplied E ev c).
Proof.
  intros Hp. pose proof (steps_refl E P Q c) as H0. unfold handleReallocApplied.
  destruct (b_realloc_outcome _).
  - unfold realloc_failed, incrReallocFailCount, escalateReallocFailing. steps_tac.
  - unfold realloc_moved. cbn zeta.
    set (c1 := set_field (proj := c_reallocFailCount) _ (mark _ c)).
    assert (steps c c1) as Hc1 by (unfold c1; steps_tac).
    match goal with |- steps c (if smStateIs ?c2 _ _ then _ else _) => set (c3 := c2) end.
    assert (steps c c3) as Hc3; [|steps_tac].
    unfold realloc_look, realloc_intent in Hp. change (c_intent c1) with (c_intent c) in c3.
    assert (Hpatch : (forall t n, t = canonicalSupervisorTaskName (ev_TaskName ev) -> n = b_realloc_new_port (ev_Body ev) ->
      reallocSnapshotOrder (c_intent c) (b_realloc_intent (ev_Body ev)) <> reallocSnapshotIncomingNewer ->
      steps c (patchCachedReallocatedPort E t n c1))).
    { intros t n -> -> Hn. eapply steps_trans; [exact Hc1|]. apply steps_patchPort. intros look d x Hpos El Hd. apply Hp. exists look.
      split; [|exact Hd]. rewrite (proj2 (Z.leb_gt _ _) Hpos). by destruct (reallocSnapshotOrder _ _). }
    unfold c3. destruct (reallocSnapshotOrder _ _) eqn:Eo; [by apply Hpatch| |by apply steps_emit, Hpatch].
    eapply steps_trans; [exact Hc1|]. apply steps_reapScan_absent. intros d x Hd. apply Hp.
    destruct (b_realloc_intent (ev_Body ev)) as [look|] eqn:Eb; [|done]. by exists look.
  - unfold realloc_exhausted. steps_tac.
Qed.

(** ** Stop batches *)
Lemma persist_error_named t c e : (persistDaemonRuntimeTracker E t c).2 = Some e -> named_error e.
Proof.
  unfold persistDaemonRuntimeTracker, next_io. case_match; [done|].
  destruct (c_ios c) as [|i l]; simpl;
    match goal with |- context [PersistTo ?a ?b ?i ?d] => destruct (PersistTo a b i d) as [r disk] eqn:Hp end;
    destruct r as [u|e1]; simpl; try done; intros [= <-]; (eapply Mutate_Err_text; [|exact Hp]);
    intros f e2; unfold persist_mutation, advanceStopSettlementMapMetadata; repeat case_match; intros; by simplify_eq.
Qed.

Lemma wrap_named msg e : is_blank msg = false -> named_error (wrapf msg e).
Proof.
  unfold named_error. rewrite !is_blank_spec. simpl.
  induction msg as [|a msg IH]; simpl; [done|]. destruct (is_space a); simpl; [apply IH|done].
Qed.
Lemma legacy_error_named o : named_opt (to_Cause o) -> named_opt (legacyError o).
Proof.
  unfold legacyError. destruct (to_Kind o), (to_Cause o); simpl; try done; intros _; by apply wrap_named.
Qed.
Lemma call_terminate_named d x c : env_ok E -> named_opt (to_Cause (call_terminate E d x c).2).
Proof.
  intros Ho. pose proof (ok_term _ Ho) as Ht. unfold call_terminate. destruct (e_terminate E) as [|f|f]; [done| |].
  - specialize (Ht d). destruct (f d) as [[ops p] err]. simpl in *. destruct Ht as [_ Ht].
    unfold terminationOutcomeFromLegacy. repeat case_match; simplify_eq/=; done.
  - specialize (Ht d x). destruct (f d x) as [[ops p] o]. simpl in *. apply Ht.
Qed.
Lemma terminate_named d ev c : env_ok E -> named_opt (terminate_process E d ev c).2.
Proof.
  intros Ho. unfold terminate_process. cbn zeta.
  match goal with |- context [call_terminate E ?a ?b ?c] => pose proof (call_terminate_named a b c Ho) as Hc;
    destruct (call_terminate E a b c) as [c1 o] end.
  by apply legacy_error_named.
Qed.
Lemma apply_stop_named t od c : env_ok E -> named_opt (applyAuthoritativeStopTransition E t od c).2.
Proof.
  intros Ho. unfold applyAuthoritativeStopTransition. destruct od as [d|]; [|done]. cbn zeta.
  destruct (negb _); [done|]. set (o := Transition _ _ _).
  match goal with |- context [if persistBefore o then persistDaemonRuntimeTracker E t ?c else _] =>
    pose proof (persist_error_named t c) as Hp end.
  destruct (persistBefore o); [destruct (persistDaemonRuntimeTracker E t _) as [c1 [e|]]; [by apply Hp|]|];
    unfold executeSideEffect; destruct (newState o); try done;
    try (by apply terminate_named);
    (destruct (str_contains (side o) "create-process") eqn:Hs; [|done]);
    unfold o, stop_context in Hs; by rewrite stopped_no_create in Hs.
Qed.

Lemma steps_applyStop c0 c t od :
  (forall d x, od = Some d -> P (CallTerm d x)) -> steps c0 c -> steps c0 (applyAuthoritativeStopTransition E t od c).1.
Proof.
  intros Hp H0. unfold applyAuthoritativeStopTransition. destruct od as [d|]; [|done]. cbn zeta.
  destruct (negb _); [done|]. set (o := Transition _ _ _).
  match goal with |- context [if persistBefore o then persistDaemonRuntimeTracker E t ?c1 else _] =>
    assert (steps c0 c1) as Hc1; [repeat case_match; eauto 1000 with steps|]; set (c2 := c1) in * end.
  assert (forall c3, steps c0 c3 ->
    steps c0 (executeSideEffect E (side o) (newState o) d (event (Ev EvIntentUpdate) t) c3).1) as Hx.
  { intros c3 Hc3. apply steps_execute; [|eauto|done]. intros _. apply stopped_no_create. }
  destruct (persistBefore o); [|by apply Hx].
  pose proof (steps_persist_pair E P Q c0 c2 t Hc1) as Hc3.
  destruct (persistDaemonRuntimeTracker E t c2) as [c4 [e|]]; [done|by apply Hx].
Qed.
Lemma steps_armRecovery c0 c t : steps c0 c -> steps c0 (armStopSettlementRecovery t c).
Proof. unfold armStopSettlementRecovery. steps_tac. Qed.
#[local] Hint Resolve steps_armRecovery : steps.

(** Recording a failure in the receipt of a task. *)
Lemma steps_fail_receipt c0 c t r o :
  (env_ok E -> named_opt o) -> StopSettlementReceipt (c_tracker c) t = Some r ->
  steps c0 c -> forall e, o = Some e ->
  steps c0 (advance_receipt E r StopSettlementPhaseFailed "termination_failed" (err_text e) c).1.
Proof. intros Ho Hr H0 e ->. eapply steps_advance; [exact Hr| |done]. intros Hok _ _. by apply Ho. Qed.

Lemma steps_stopTarget cmd c0 c errs tg :
  (forall d x, FindSupervisorDaemonByTaskName (sc_SupervisorIntent cmd) (tg_TaskName tg) = Some d -> P (CallTerm d x)) ->
  steps c0 c -> steps c0 (stop_target E cmd (c, errs) tg).1.
Proof.
  intros Hp H0. unfold stop_target.
  pose proof (steps_applyStop c0 c (tg_TaskName tg) _ Hp H0) as Ha.
  pose proof (apply_stop_named (tg_TaskName tg) (FindSupervisorDaemonByTaskName (sc_SupervisorIntent cmd) (tg_TaskName tg)) c) as Hn.
  destruct (applyAuthoritativeStopTransition _ _ _ _) as [c1 oe]. simpl in *.
  destruct oe as [e|]; [|done].
  destruct (StopSettlementReceipt (c_tracker c1) (tg_TaskName tg)) as [r|] eqn:Hr; [|simpl; steps_tac].
  pose proof (steps_fail_receipt c0 c1 _ r _ Hn Hr Ha e eq_refl) as Hf. steps_tac.
Qed.

(** The calls of a stop command. *)
Definition may_stop (cmd : StopBatchCommandV1) (t : DaemonRuntimeTracker) : Prop :=
  Q cmd t /\ forall tg d x, tg ∈ sb_Targets (sc_batch cmd) ->
    FindSupervisorDaemonByTaskName (sc_SupervisorIntent cmd) (tg_TaskName tg) = Some d -> P (CallTerm d x).

Lemma select_tracker cmd c : c_tracker (selectStopBatchIntent E cmd c).1 = c_tracker c.
Proof. unfold selectStopBatchIntent, IntentCache_Refresh, daemonIntent_Refresh. repeat case_match; done. Qed.
Lemma steps_stopBatch c0 c cmd : may_stop cmd (c_tracker c) -> steps c0 c -> steps c0 (handleStopBatchOnLoop E cmd c).
Proof.
  intros [Hq Hp] H0. unfold handleStopBatchOnLoop. cbn zeta. case_match; [steps_tac|].
  destruct (preflightStopBatch E cmd c); [steps_tac|]. destruct (joinPendingStopBatch E cmd c) as [[]|]; [steps_tac| |steps_tac].
  assert (steps c0 (selectStopBatchIntent E cmd c).1) as Hs
    by (unfold selectStopBatchIntent, IntentCache_Refresh, daemonIntent_Refresh; steps_tac).
  rewrite <- (select_tracker cmd c) in Hq.
  destruct (selectStopBatchIntent E cmd c) as [c1 [e|]]; simpl in Hs, Hq; [steps_tac|].
  pose proof (steps_begin E P Q c0 c1 cmd Hq Hs) as Hb.
  destruct (begin_batch E cmd c1) as [c2 [rs|e]]; simpl in Hb; [|steps_tac].
  assert (steps c0 (foldl (stop_target E cmd) (c2, []) (sb_Targets (sc_batch cmd))).1) as Hf.
  { apply steps_foldl_pair; [|done]. intros c3 errs tg Htg Hc3. apply steps_stopTarget; [|done]. intros d x. by apply Hp. }
  steps_tac.
Qed.

Lemma steps_recover c t :
  (forall d x, LookupCanonical c t = Some d -> P (CallTerm d x)) -> steps c (recoverStopReceiptOnLoop E t c).1.
Proof.
  intros Hp. pose proof (steps_refl E P Q c) as H0. unfold recoverStopReceiptOnLoop.
  case_match; [done|]. destruct (StopSettlementReceipt (c_tracker c) t) as [r|] eqn:Hr; [|done].
  destruct (LookupCanonical c t) as [d|] eqn:Hd; [|done]. destruct (Get _ _); [|done]. case_match; [done|].
  assert (steps c (resume_receipt E t r c).1) as Hres.
  { unfold resume_receipt. destruct (String.eqb_spec (sr_Phase r) StopSettlementPhaseFailed) as [Hph|]; [|done].
    cbn [negb]. destruct (negb (retryable_failure _)); [done|].
    assert (steps c (advance_receipt E r (sr_ResumePhase r) "" "" c).1) as Ha
      by (eapply steps_advance; [exact Hr| |done]; by intros _ _ []).
    steps_tac. }
  destruct (resume_receipt E t r c) as [c1 [r1|]]; simpl in Hres; [|done].
  unfold drive_receipt. destruct ((sr_Mode r1 =s "port_fence") || _); [done|].
  assert (steps c (applyAuthoritativeStopTransition E t (Some d) c1).1) as Ha
    by (apply steps_applyStop; [intros d1 x [= <-]; by apply Hp|exact Hres]).
  pose proof (apply_stop_named t (Some d) c1) as Hn.
  destruct (applyAuthoritativeStopTransition E t (Some d) c1) as [c2 [e|]]; simpl in Ha, Hn; [|done].
  apply steps_armRecovery. destruct (StopSettlementReceipt (c_tracker c2) t) as [r2|] eqn:Hr2; [|done].
  simpl. destruct (sr_Phase r2 =s StopSettlementPhaseFailed); [exact Ha|].
  by apply (steps_fail_receipt c c2 t r2 (Some e)).
Qed.

(** ** The loop *)
Lemma steps_parole c0 c : steps c0 c -> steps c0 (runQuarantineParoleTick E c).
Proof.
  intros H0. unfold runQuarantineParoleTick. case_match; [done|]. apply steps_foldl; [|done].
  intros c1 [k p] _ Hc. unfold parole_step. steps_tac.
Qed.
Lemma steps_cleared c0 c ev s : steps c0 c -> steps c0 (apply_cleared_runtime E ev s c).1.
Proof. unfold apply_cleared_runtime. steps_tac. Qed.
Lemma steps_dropGate c0 c t : steps c0 c -> steps c0 (drop_gate_cleared t c).
Proof. unfold drop_gate_cleared. steps_tac. Qed.
Lemma steps_commit c0 c t s o : steps c0 c -> steps c0 (commit_transition E t s o c).
Proof. unfold commit_transition. steps_tac. Qed.
End HandlerSteps.
