(* ===== verification/SpawnSafety.v ===== *)
(** * When a process is created

    The safety of the spawn path: whatever event the loop handles, a process
    is created only past every gate, and at most one per event.  Also what
    any sequence of steps does to the effects, the receipts and the fence. *)
From S2P Require Import Prelude GoTime StateMachine Intent Descriptor StateFile Readiness Tracker Lifecycle.
From S2P Require Import StopSettlement Recovery Backoff Termination Controller SpawnGate SideEffect Reap.
From S2P Require Import Realloc StopBatch Loop Steps HandlerSteps Scenario.
Open Scope Z_scope.

(** ** What steps preserve *)
Section Consequences.
Context `{Digest} (E : env) (P : effect -> Prop) (Q : StopBatchCommandV1 -> DaemonRuntimeTracker -> Prop).

(** The calls among the new effects are permitted ones. *)
Definition extends (c c' : controller) : Prop :=
  exists l, c_effects c' = c_effects c ++ l /\ Forall (fun e => calls_out e = true -> P e) l.

Lemma extends_refl c : extends c c.
Proof. exists []. by rewrite app_nil_r. Qed.
Lemma extends_trans a b c : extends a b -> extends b c -> extends a c.
Proof.
  intros (l&El&Hl) (m&Em&Hm). exists (l ++ m). rewrite Em, El, app_assoc. split; [done|]. by apply Forall_app.
Qed.

(** A receipt, a fence or a used-up pass does not go away. *)
Definition keeps (c c' : controller) : Prop :=
  (forall k, t_stopSettlements (c_tracker c') !! k = None -> t_stopSettlements (c_tracker c) !! k = None) /\
  (t_stopSettlementIntegrityErr (c_tracker c') = "" -> t_stopSettlementIntegrityErr (c_tracker c) = "") /\
  c_gateCleared c' ⊆ c_gateCleared c.

Lemma keeps_refl c : keeps c c.
Proof. by split_and!. Qed.
Lemma keeps_trans a b c : keeps a b -> keeps b c -> keeps a c.
Proof. intros (A1&A2&A3) (B1&B2&B3). split_and!; [auto|auto|by etrans]. Qed.

Lemma persist_frame t c :
  c_tracker (persist E t c) = c_tracker c /\ c_gateCleared (persist E t c) = c_gateCleared c /\
  exists l, c_effects (persist E t c) = c_effects c ++ l /\ Forall (fun e => calls_out e = false) l.
Proof.
  unfold persist, persistDaemonRuntimeTracker, next_io.
  destruct (e_statePath E =s ""); [split_and!; [done..|exists []; by rewrite app_nil_r]|].
  destruct (c_ios c) as [|i l0]; simpl;
    match goal with |- context [PersistTo ?a ?b ?i ?d] => destruct (PersistTo a b i d) as [[u|e] disk] end; simpl;
    (split_and!; [done..|]);
    first [exists []; by rewrite app_nil_r | eexists; split; [reflexivity|by repeat constructor]].
Qed.

(** The tracker operations in between and the outcome of one write. *)
Lemma begin_frame cmd c :
  let c' := (begin_batch E cmd c).1 in
  c_effects c' = c_effects c /\ c_gateCleared c' = c_gateCleared c /\
  exists i d, BeginStopSettlementBatch (c_tracker c) (e_statePath E) i (c_disk c) (sc_batch cmd) (stopBatchPorts cmd)
    (apply_ops (e_interleave E)) = (c_tracker c', c_disk c', d) /\ (c_ios c = i :: c_ios c' \/ i = io_ok /\ c_ios c' = c_ios c).
Proof.
  unfold begin_batch, next_io. destruct (c_ios c) as [|i l] eqn:Hi; simpl;
    match goal with |- context [BeginStopSettlementBatch ?a ?b ?i ?d ?x ?y ?z] =>
      destruct (BeginStopSettlementBatch a b i d x y z) as [[t disk] r] eqn:Hb end; simpl;
    (split_and!; [done..|]); eexists _, _; (split; [exact Hb|]); auto.
Qed.
Lemma advance_frame r phase fc fd c :
  let c' := (advance_receipt E r phase fc fd c).1 in
  c_effects c' = c_effects c /\ c_gateCleared c' = c_gateCleared c /\
  exists i o, AdvanceStopSettlement (c_tracker c) (e_statePath E) i (c_disk c) r phase fc fd
    (apply_ops (e_interleave E)) = (c_tracker c', c_disk c', o) /\ (c_ios c = i :: c_ios c' \/ i = io_ok /\ c_ios c' = c_ios c).
Proof.
  unfold advance_receipt, next_io. destruct (c_ios c) as [|i l] eqn:Hi; simpl;
    match goal with |- context [AdvanceStopSettlement ?a ?b ?i ?d ?x ?y ?z ?w ?v] =>
      destruct (AdvanceStopSettlement a b i d x y z w v) as [[t disk] o] eqn:Hb end; simpl;
    (split_and!; [done..|]); eexists _, _; (split; [exact Hb|]); auto.
Qed.

(** The tracker of a settlement step. *)
Definition tracker_keeps (t t' : DaemonRuntimeTracker) : Prop :=
  (forall k, t_stopSettlements t' !! k = None -> t_stopSettlements t !! k = None) /\
  (t_stopSettlementIntegrityErr t' = "" -> t_stopSettlementIntegrityErr t = "").

Lemma install_batch_lookup rs t k :
  t_stopSettlements (foldl install_receipt t rs) !! k = None -> t_stopSettlements t !! k = None.
Proof.
  revert t. induction rs as [|r rs IH]; intros t; simpl; [done|]. intros Hk%IH. simpl in Hk.
  by apply lookup_insert_None in Hk as [? _].
Qed.
Lemma ops_keep ops t : tracker_keeps t (apply_ops ops t).
Proof. destruct (apply_ops_frame ops t) as (I1&_&I3). split; [intros k; by rewrite I1|by rewrite I3]. Qed.
Lemma begin_keeps t path i d cmd ports ops t' d' o :
  BeginStopSettlementBatch t path i d cmd ports (apply_ops ops) = (t', d', o) -> tracker_keeps t t'.
Proof.
  pose proof (ops_keep ops t) as [K1 K2].
  intros [(->&_)|(adm&[rs|e]&_&_&_&_&Hq)]%Begin_cases; [done| |by destruct Hq as [-> _]].
  apply install_batch_cases in Hq as [(_&_&->)|(_&He&Hs&_)].
  - destruct (install_batch_fields (apply_ops ops t) rs) as (_&I2&_).
    split; [intros k Hk; by eapply K1, install_batch_lookup|by rewrite I2].
  - split; [by rewrite Hs|by intros ?].
Qed.
Lemma advance_keeps t path i d r phase fc fd ops t' d' o :
  AdvanceStopSettlement t path i d r phase fc fd (apply_ops ops) = (t', d', o) -> tracker_keeps t t'.
Proof.
  pose proof (ops_keep ops t) as [K1 K2]. unfold AdvanceStopSettlement.
  case_match; [by intros [= <- _ _]|]. case_match; [by intros [= <- _ _]|]. case_match; [by intros [= <- _ _]|].
  destruct (nextStopSettlementReceipt _ _ _ _) as [next|]; [|by intros [= <- _ _]].
  case_match; [by intros [= <- _ _]|]. destruct (MutateSupervisorState _ _ _ _) as [[u|e] d1]; [|by intros [= <- _ _]].
  case_match; intros [= <- _ _]; (split; simpl; [|done]); [done|].
  intros k [Hk _]%lookup_insert_None. by apply K1.
Qed.

Lemma cstep_keeps c c' : cstep E P Q c c' -> keeps c c' /\ extends c c'.
Proof.
  destruct 1 as [c c' [Ht _ _ He Hg]|e c He|op c _|t c|cmd c _|k r phase fc fd c _ _].
  - split; [split_and!; by rewrite ?Ht|]. exists []. by rewrite app_nil_r.
  - split; [by split_and!|]. exists [e]. split; [done|]. by constructor.
  - destruct (apply_op_frame op (c_tracker c)) as (A1&_&A3&_). split; [|exists []; by rewrite app_nil_r].
    split_and!; [|intros; by rewrite <- A3|done]. intros k. simpl. by rewrite A1.
  - destruct (persist_frame t c) as (A1&A2&l&A3&A4). split; [split_and!; by rewrite ?A1, ?A2|].
    exists l. split; [done|]. eapply Forall_impl; [exact A4|]. intros e He1 He2. congruence.
  - destruct (begin_frame cmd c) as (A1&A2&i&o&[K1 K2]%begin_keeps&_). split; [|exists []; by rewrite app_nil_r].
    split_and!; [done|done|by rewrite A2].
  - destruct (advance_frame r phase fc fd c) as (A1&A2&i&o&[K1 K2]%advance_keeps&_). split; [|exists []; by rewrite app_nil_r].
    split_and!; [done|done|by rewrite A2].
Qed.

Lemma steps_keep c c' : steps E P Q c c' -> keeps c c' /\ extends c c'.
Proof.
  induction 1 as [c|a b c Hab _ [IH1 IH2]]; [split; [apply keeps_refl|apply extends_refl]|].
  apply cstep_keeps in Hab as [A1 A2]. split; [by eapply keeps_trans|by eapply extends_trans].
Qed.
End Consequences.

(** ** The gates in front of [CallSpawn] *)
Section Spawn.
Context `{Digest} (E : env).

Definition path_open (p : string) : Prop :=
  match classifySpawnPath E p with spawnPathAbsent | spawnPathUnavailable => False | _ => True end.
Definition port_free (d : SupervisorDaemon) : Prop :=
  match e_portOwner E, EffectiveDaemonPort d (e_resolve E) with
  | Some owner, Some port => 0 < port -> forall pid, owner port <> Ok (Some pid)
  | _, _ => True
  end.

Record may_create (task : string) (d : SupervisorDaemon) (c : controller) : Prop := mkMayCreate {
  mc_fence : t_stopSettlementIntegrityErr (c_tracker c) = "";
  mc_receipt : t_stopSettlements (c_tracker c) !! canonicalSupervisorTaskName task = None;
  mc_runtime : IsSerenaProxyDescriptor d = true -> sd_RuntimeSpec d <> None;
  mc_command : path_open (sd_Command d);
  mc_workspace : path_open (sd_Workspace d);
  mc_port : task ∈ c_gateCleared c \/ port_free d;
}.

Lemma may_create_back P Q task d c c' : steps E P Q c c' -> may_create task d c' -> may_create task d c.
Proof.
  intros [(K1&K2&K3) _]%steps_keep [M1 M2 M3 M4 M5 M6]. split; auto.
  destruct M6 as [M6|M6]; [left; by apply K3|by right].
Qed.

Lemma admit_None task c :
  admitCreateProcess task c = None ->
  t_stopSettlementIntegrityErr (c_tracker c) = "" /\
  t_stopSettlements (c_tracker c) !! canonicalSupervisorTaskName task = None.
Proof.
  unfold admitCreateProcess, StopSettlementIntegrityError, StopSettlementReceipt.
  destruct (String.eqb_spec (t_stopSettlementIntegrityErr (c_tracker c)) ""); [|done].
  rewrite canonical_idem. by destruct (_ !! _).
Qed.

Lemma path_gate_open d ev c c1 :
  preSpawnMissingPathHold E d ev c = (c1, None) -> path_open (sd_Command d) /\ path_open (sd_Workspace d).
Proof.
  unfold preSpawnMissingPathHold, path_open, holdSpawnInBackoff.
  destruct (classifySpawnPath E (sd_Command d)), (classifySpawnPath E (sd_Workspace d)); simpl; intros E1; try done;
    by simplify_eq.
Qed.
Lemma port_gate_open d ev c c1 : preSpawnPortGateHold E d ev c = (c1, None) -> c1 = c /\ port_free d.
Proof.
  unfold preSpawnPortGateHold, port_free, holdSpawnInBackoff. destruct (e_portOwner E) as [owner|]; [|by intros [= <-]].
  destruct (EffectiveDaemonPort d (e_resolve E)) as [port|]; [|by intros [= <-]].
  destruct (Z.leb_spec port 0); [intros [= <-]; split; [done|lia]|].
  destruct (owner port) as [[pid|]|e]; [done|intros [= <-]; done..].
Qed.

(** Creating a process: nothing is called, or the gates were open and the
    rest is the call and its aftermath. *)
Lemma create_process_cases P Q d ev c :
  let c' := (create_process E d ev c).1 in
  steps E P Q c c' \/
  exists spawn c1, e_spawn E = Some spawn /\ steps E P Q c c1 /\ may_create (ev_TaskName ev) d c /\
    c' = (run_spawn E d ev spawn c1).1.
Proof.
  intros c'. subst c'. pose proof (steps_refl E P Q c) as H0. unfold create_process.
  destruct (admitCreateProcess _ _) eqn:Ha; [by left|]. apply admit_None in Ha as [Hf Hr].
  destruct (IsSerenaProxyDescriptor d && _) eqn:Hs; [left; by apply steps_legacySerena|].
  assert (IsSerenaProxyDescriptor d = true -> sd_RuntimeSpec d <> None) as Hrt.
  { intros Hd Hn. by rewrite Hd, Hn in Hs. }
  destruct (e_spawn E) as [spawn|] eqn:Hsp; [|by left].
  pose proof (steps_pathGate E P Q c c d ev H0) as Hp. pose proof (path_gate_open d ev c) as Hpo.
  destruct (preSpawnMissingPathHold E d ev c) as [c1 [e|]]; simpl in Hp; [by left|].
  destruct (Hpo c1 eq_refl) as [Hcmd Hws].
  assert (c_gateCleared c1 ⊆ c_gateCleared c) as Hg by (by apply steps_keep in Hp as [(_&_&?) _]).
  case_bool_decide as Hgc.
  - right. eexists spawn, _. split_and!; [done| | |reflexivity]; [eauto 20 with steps|].
    split; auto.
  - pose proof (steps_portGate E P Q c c1 d ev Hp) as Hpg. pose proof (port_gate_open d ev c1) as Hpf.
    destruct (preSpawnPortGateHold E d ev c1) as [c2 [e|]]; simpl in Hpg; [by left|].
    destruct (Hpf c2 eq_refl) as [-> Hfree]. right. eexists spawn, _. split_and!; [done..| |reflexivity]. split; auto.
Qed.

(** ** One event *)

(** Every call but the creation of a process. *)
Definition no_spawn (e : effect) : Prop := match e with CallSpawn _ => False | _ => True end.
(** The stop batch of an event, begun on the tracker the event found. *)
Definition batch_of (ev : LoopEvent) (c : controller) (cmd : StopBatchCommandV1) (t : DaemonRuntimeTracker) : Prop :=
  b_stop_batch (ev_Body ev) = Some cmd /\ t = c_tracker c.

(** What handling an event of a task with descriptor [d] amounts to. *)
Definition one_spawn (Q : StopBatchCommandV1 -> DaemonRuntimeTracker -> Prop) (task : string) (d : SupervisorDaemon) (c c' : controller) : Prop :=
  steps E no_spawn Q c c' \/
  exists c1, steps E no_spawn Q c c1 /\ may_create task d c /\ steps E no_spawn Q (perform (CallSpawn d) c1) c'.

Lemma one_spawn_after Q task d c0 c c' :
  steps E no_spawn Q c0 c -> one_spawn Q task d c c' -> one_spawn Q task d c0 c'.
Proof.
  intros H0 [H1|(c1&H1&H2&H3)]; [left; by eapply steps_trans|right].
  exists c1. split_and!; [by eapply steps_trans|by eapply may_create_back|done].
Qed.
Lemma one_spawn_before Q task d c c' c2 :
  one_spawn Q task d c c' -> steps E no_spawn Q c' c2 -> one_spawn Q task d c c2.
Proof.
  intros [H1|(c1&H1&H2&H3)] H5; [left; by eapply steps_trans|right].
  exists c1. split_and!; [done..|]. by eapply steps_trans.
Qed.

Lemma execute_one_spawn Q sd st d ev c :
  one_spawn Q (ev_TaskName ev) d c (executeSideEffect E sd st d ev c).1.
Proof.
  destruct (decide (st = StSpawning /\ str_contains sd "create-process" = true)) as [[-> Hs]|Hn].
  - unfold executeSideEffect. rewrite Hs.
    destruct (create_process_cases no_spawn Q d ev c) as [Hq|(spawn&c1&He&H1&H2&->)]; [by left|right].
    exists c1. split_and!; [done|done|]. apply steps_spawn_answer; [done|apply steps_refl].
  - left. apply steps_execute; [|done|apply steps_refl]. intros ->. destruct (str_contains sd _); tauto.
Qed.

Lemma run_one_spawn Q d ev s k c : one_spawn Q (ev_TaskName ev) d c (run_transition E d ev s k c).
Proof.
  pose proof (steps_refl E no_spawn Q c) as H0. unfold run_transition. cbn zeta. set (o := Transition _ _ _).
  destruct (negb _); [left; by apply steps_completeIdle, steps_emit|].
  pose proof (steps_commit E no_spawn Q c c (ev_TaskName ev) s o H0) as Hc.
  pose proof (execute_one_spawn Q (side o) (newState o) d ev (commit_transition E (ev_TaskName ev) s o c)) as Hx.
  destruct (executeSideEffect _ _ _ _ _ _) as [c1 err]. simpl in Hx.
  eapply one_spawn_after; [exact Hc|]. eapply one_spawn_before; [exact Hx|].
  apply steps_completeIdle, steps_refl.
Qed.

Lemma routed_one_spawn Q d ev k c : one_spawn Q (ev_TaskName ev) d c (handle_routed E d ev k c).
Proof.
  pose proof (steps_refl E no_spawn Q c) as H0. unfold handle_routed. cbn zeta.
  destruct (timer_deferred_by_reap _ _ _); [left; apply steps_emit; eauto 20 with steps|].
  destruct (clean_exit_while_running _ _); [left; by apply steps_emit, steps_setSM, steps_leftRunning|].
  pose proof (steps_cleared E no_spawn Q c c ev (loadSM c (ev_TaskName ev)) H0) as Hc.
  destruct (apply_cleared_runtime E ev _ c) as [c1 s]. simpl in Hc.
  pose proof (steps_bindRefused E no_spawn Q c c1 d ev s Hc) as Hb.
  destruct (maybeHandleBindRefusedExit E d ev s c1) as [c2 []]; simpl in Hb; [by left|].
  eapply one_spawn_after; [exact Hb|apply run_one_spawn].
Qed.

Lemma sm_event_one_spawn Q k ev c :
  steps E no_spawn Q c (handle_sm_event E k ev c) \/
  exists d, lookupDescriptorWithShadow c (canonicalSupervisorTaskName (ev_TaskName ev)) = Some d /\
    one_spawn Q (canonicalSupervisorTaskName (ev_TaskName ev)) (with_task_name d (canonicalSupervisorTaskName (ev_TaskName ev)))
      c (handle_sm_event E k ev c).
Proof.
  pose proof (steps_refl E no_spawn Q c) as H0. unfold handle_sm_event. cbn zeta.
  set (task := canonicalSupervisorTaskName (ev_TaskName ev)). set (ev' := mkEvent (Ev k) task (ev_Body ev)).
  destruct (restart_refused_by_intent E ev' c); [left; by apply steps_emit, steps_dropGate|].
  destruct (stale_child_exit ev' c); [left; by apply steps_emit|].
  set (c1 := if bool_decide (k = EvChildExit) then _ else c).
  assert (steps E no_spawn Q c c1) as Hc by (unfold c1; case_match; eauto 20 with steps).
  assert (lookupDescriptorWithShadow c1 task = lookupDescriptorWithShadow c task) as -> by (unfold c1; by case_match).
  destruct (lookupDescriptorWithShadow c task) as [d|] eqn:Hd; [|left; by apply steps_completeIdle, steps_dropGate, steps_emit].
  right. exists d. split; [done|]. eapply one_spawn_after; [exact Hc|]. apply (routed_one_spawn Q _ ev').
Qed.

Lemma advance_receipt_caches r phase fc fd c :
  let c' := (advance_receipt E r phase fc fd c).1 in
  c_daemonByTask c' = c_daemonByTask c /\ c_reapShadow c' = c_reapShadow c.
Proof.
  unfold advance_receipt, next_io. destruct (c_ios c); simpl; by destruct (AdvanceStopSettlement _ _ _ _ _ _ _ _ _) as [[??]?].
Qed.
Lemma record_exit_lookup ev c task :
  lookupDescriptorWithShadow (recordExactStopReceiptExit E ev c) task = lookupDescriptorWithShadow c task.
Proof.
  assert (forall x, lookupDescriptorWithShadow (advanceExactStopReceiptExit E x c).1 task = lookupDescriptorWithShadow c task) as Hx.
  { intros x. unfold advanceExactStopReceiptExit. destruct (negb _); [done|].
    destruct (StopSettlementReceipt _ _) as [r|]; [|done]. repeat (case_match; try done).
    pose proof (advance_receipt_caches r StopSettlementPhaseExitObserved "" "" c) as [A1 A2].
    destruct (advance_receipt _ _ _ _ _ _) as [c1 o]. simplify_eq/=. unfold lookupDescriptorWithShadow, LookupCanonical.
    by rewrite A1, A2. }
  unfold recordExactStopReceiptExit. case_match; [done|]. repeat (case_match; try done);
    match goal with H : advanceExactStopReceiptExit E ?x c = _ |- _ => specialize (Hx x); by rewrite H in Hx end.
Qed.

(** The whole event: without a creation, or with exactly one. *)
Lemma event_one_spawn ev c :
  let task := canonicalSupervisorTaskName (ev_TaskName ev) in
  steps E no_spawn (batch_of ev c) c (handleLoopEvent E ev c) \/
  exists d, lookupDescriptorWithShadow c task = Some d /\
    one_spawn (batch_of ev c) task (with_task_name d task) c (handleLoopEvent E ev c).
Proof.
  intros task. pose proof (steps_refl E no_spawn (batch_of ev c) c) as H0. unfold handleLoopEvent.
  assert (forall c, may_reap no_spawn c) as Hreap by done.
  destruct (ev_Kind ev) as [k| | | | | | | | | |] eqn:Hk.
  - apply sm_event_one_spawn.
  - pose proof (steps_recordExit E no_spawn (batch_of ev c) c c ev H0) as Hr.
    destruct (sm_event_one_spawn (batch_of ev c) EvChildExit ev (recordExactStopReceiptExit E ev c)) as [Hs|(d&Hd&Hs)];
      [left; by eapply steps_trans|right]. rewrite record_exit_lookup in Hd.
    exists d. split; [done|]. by eapply one_spawn_after.
  - pose proof (steps_recordExit E no_spawn (batch_of ev c) c c ev H0) as Hr.
    destruct (sm_event_one_spawn (batch_of ev c) EvChildExit ev (recordExactStopReceiptExit E ev c)) as [Hs|(d&Hd&Hs)];
      [left; by eapply steps_trans|right]. rewrite record_exit_lookup in Hd.
    exists d. split; [done|]. by eapply one_spawn_after.
  - left. case_match; [apply steps_perform; [done|]|]; by apply steps_reapScan_pending.
  - left. by apply steps_followup.
  - left. case_match; eauto 20 with steps.
  - left. destruct (b_stop_batch (ev_Body ev)) eqn:Hb; [|done]. apply steps_stopBatch; [|done]. by split.
  - left. set (c1 := c <| c_recoveryArmed ::= _ |>).
    assert (steps E no_spawn (batch_of ev c) c c1) as Hc by (unfold c1; eauto 20 with steps).
    pose proof (steps_recover E no_spawn (batch_of ev c) c1 (ev_TaskName ev) ltac:(done)) as Hr.
    destruct (recoverStopReceiptOnLoop _ _ _) as [c2 [t|]]; simpl in Hr; [apply steps_perform; [done|]|];
      by eapply steps_trans.
  - left. by apply steps_dwellTick, steps_parole.
  - left. by apply steps_reallocApplied.
  - left. by apply steps_preSpawnRealloc.
Qed.

Definition is_spawn (e : effect) : bool := match e with CallSpawn _ => true | _ => false end.
Lemma no_spawn_filter l : Forall (fun e => calls_out e = true -> no_spawn e) l -> List.filter is_spawn l = [].
Proof. induction 1 as [|e l He _ IH]; simpl; [done|]. destruct e; try done. by destruct He. Qed.

(** C2: a process is created only past every gate.  Whatever event the loop
    handles in whatever state, it appends some effects; among them at most
    one creates a process, and then: no integrity fence is up and the task
    has no stop receipt, its descriptor is known (in the intent or in the
    reap shadow), a serena proxy has its runtime spec, neither the binary nor
    the workspace is missing, and the port is free unless the task holds a
    pass of the port gate. *)
Theorem spawn_gates ev c :
  exists l, c_effects (handleLoopEvent E ev c) = c_effects c ++ l /\
    (List.filter is_spawn l = [] \/
     exists d, let task := canonicalSupervisorTaskName (ev_TaskName ev) in
       let d' := with_task_name d task in
       List.filter is_spawn l = [CallSpawn d'] /\ lookupDescriptorWithShadow c task = Some d /\
       StopSettlementIntegrityError (c_tracker c) = None /\ StopSettlementReceipt (c_tracker c) task = None /\
       (IsSerenaProxyDescriptor d' = true -> sd_RuntimeSpec d' <> None) /\
       path_open (sd_Command d') /\ path_open (sd_Workspace d') /\ (task ∈ c_gateCleared c \/ port_free d')).
Proof.
  destruct (event_one_spawn ev c) as [Hs|(d&Hd&[Hs|(c1&H1&[M1 M2 M3 M4 M5 M6]&H3)])].
  - apply steps_keep in Hs as [_ (l&Hl&Hf)]. exists l. split; [done|]. left. by apply no_spawn_filter.
  - apply steps_keep in Hs as [_ (l&Hl&Hf)]. exists l. split; [done|]. left. by apply no_spawn_filter.
  - apply steps_keep in H1 as [_ (l1&Hl1&Hf1)]. apply steps_keep in H3 as [_ (l2&Hl2&Hf2)].
    simpl in Hl2. rewrite Hl1, <- !app_assoc in Hl2. eexists. split; [exact Hl2|]. right. exists d. cbn zeta.
    unfold StopSettlementIntegrityError, StopSettlementReceipt. rewrite M1, str_eqb_refl. split_and!; try done.
    rewrite List.filter_app. simpl. by rewrite !no_spawn_filter.
Qed.
End Spawn.

(** ** Witness *)
Section Witnesses.
#[local] Existing Instance ideal_digest.

(** The start event of the demo supervisor creates one process. *)
Lemma spawn_gates_witness :
  exists l, c_effects (handleLoopEvent demo_env (event (Ev EvStart) memory_task) demo_start) = c_effects demo_start ++ l /\
    length (List.filter is_spawn l) = 1%nat /\ StopSettlementReceipt (c_tracker demo_start) memory_task = None.
Proof.
  pose proof (spawn_gates demo_env (event (Ev EvStart) memory_task) demo_start) as (l&Hl&[Hn|(d&Hd&_&_&Hr&_)]).
  - exfalso. assert (l = c_effects (handleLoopEvent demo_env (event (Ev EvStart) memory_task) demo_start)) as -> by exact (eq_sym Hl).
    vm_compute in Hn. discriminate.
  - exists l. split; [exact Hl|]. rewrite Hd. split; [reflexivity|exact Hr].
Defined.
End Witnesses.
