(* ===== verification/Durable.v ===== *)
(** * The controller implements the durable system

    [Recovery] proves the crash safety of an abstract system: a tracker and
    its state file under marks, stop batches, receipt transitions, removals,
    persists and restarts.  Here the real event handler is shown to be an
    implementation of it: whatever event it handles, the tracker and the
    file move by steps of that system. *)
From S2P Require Import Prelude GoTime StateMachine Intent Descriptor StateFile Readiness Tracker Lifecycle.
From S2P Require Import StopSettlement Recovery Backoff Termination Controller SpawnGate SideEffect Reap.
From S2P Require Import Realloc StopBatch Loop Steps HandlerSteps SpawnSafety Scenario.
Open Scope Z_scope.

Definition durable (c : controller) : sys := mkSys (c_tracker c) (c_disk c).

Section Durable.
Context `{Digest} `{!DigestLaws}.

(** What is assumed of one event: the callbacks behave, the writes fail only
    before the file is replaced, a stop command names its targets and comes
    before any generation has wrapped around. *)
Record event_ok (E : env) (ev : LoopEvent) (c : controller) : Prop := mkEventOk {
  eo_env : env_ok E;
  eo_ios : Forall io_clean (c_ios c);
  eo_cmd : forall cmd, b_stop_batch (ev_Body ev) = Some cmd -> named_targets (sc_batch cmd) /\ unwrapped (c_tracker c);
}.

Lemma event_steps E ev c : steps E (fun _ => True) (batch_of ev c) c (handleLoopEvent E ev c).
Proof.
  assert (forall a b, steps E no_spawn (batch_of ev c) a b -> steps E (fun _ => True) (batch_of ev c) a b) as Hw.
  { intros c1 c2. apply rtc_subrel. intros a b Hab. destruct Hab; by econstructor. }
  destruct (event_one_spawn E ev c) as [Hs|(d&_&[Hs|(c1&H1&_&H3)])]; [by apply Hw..|].
  eapply steps_trans; [apply Hw, H1|]. eapply steps_trans; [|apply Hw, H3].
  apply steps_perform; [done|apply steps_refl].
Qed.

(** Failing a failed receipt again changes nothing. *)
Lemma advance_failed_again t path i d r fc fd inter t' d' o :
  sr_Phase r = StopSettlementPhaseFailed ->
  AdvanceStopSettlement t path i d r StopSettlementPhaseFailed fc fd inter = (t', d', o) -> t' = t /\ d' = d.
Proof.
  intros Hph. unfold AdvanceStopSettlement, nextStopSettlementReceipt. rewrite Hph, str_eqb_refl. cbn [orb andb].
  destruct (is_blank path); [by intros [= <- <- _]|]. destruct (_ || _); [by intros [= <- <- _]|].
  destruct (negb _); [by intros [= <- <- _]|]. destruct (_ && _); [|by intros [= <- <- _]].
  unfold sameStopSettlementRevision. rewrite str_eqb_refl. by intros [= <- <- _].
Qed.

Lemma next_clean i (ios ios' : list io) :
  Forall io_clean ios -> ios = i :: ios' \/ i = io_ok /\ ios' = ios -> io_clean i /\ Forall io_clean ios'.
Proof. intros Hc [->|[-> ->]]; [by inversion Hc|done]. Qed.

Lemma cstep_durable E P Q c c' :
  env_ok E -> (forall cmd t, Q cmd t -> named_targets (sc_batch cmd) /\ unwrapped t) -> Forall io_clean (c_ios c) ->
  cstep E P Q c c' ->
  rtc sys_step (durable c) (durable c') /\ Forall io_clean (c_ios c').
Proof.
  intros Ho HQ Hc Hs. destruct Hs as [c c' [Ht Hd Hi _ _]|e c _|op c Hop|t c|cmd c Hcmd|k r phase fc fd c Hk Hfd].
  - unfold durable. rewrite Ht, Hd, Hi. by split.
  - by split.
  - split; [|done]. apply rtc_once, step_mark. by apply Hop.
  - unfold persist, persistDaemonRuntimeTracker, next_io. destruct (e_statePath E =s ""); [by split|].
    destruct (c_ios c) as [|i l] eqn:Hi; simpl.
    + destruct (PersistTo _ _ io_ok _) as [[u|e] disk] eqn:Hp; simpl; rewrite Hi; (split; [|done]);
        eapply rtc_once, step_persist; try exact Hp; done.
    + inversion Hc. destruct (PersistTo _ _ i _) as [[u|e] disk] eqn:Hp; simpl; (split; [|done]);
        eapply rtc_once, step_persist; try exact Hp; done.
  - destruct (begin_frame E cmd c) as (_&_&i&o&Hb&Hi). apply next_clean in Hi as [Hi1 Hi2]; [|done].
    split; [|done]. apply HQ in Hcmd as [Hn Hu].
    eapply rtc_once, step_begin; [exact Hi1|by apply ok_interleave|exact Hn|exact Hu|exact Hb].
  - destruct (advance_frame E r phase fc fd c) as (_&_&i&o&Hb&Hi). apply next_clean in Hi as [Hi1 Hi2]; [|done].
    split; [|done]. destruct (decide (phase = StopSettlementPhaseFailed /\ sr_Phase r = StopSettlementPhaseFailed)) as [[-> Hph]|Hn].
    + apply advance_failed_again in Hb as [Ht Hd]; [|done]. unfold durable. by rewrite Ht, Hd.
    + eapply rtc_once, step_advance; [exact Hi1|by apply ok_interleave| |exact Hb].
      intros Hp. apply Hfd; [done|done|]. intros Hph. by apply Hn.
Qed.

Lemma steps_durable E P Q c c' :
  env_ok E -> (forall cmd t, Q cmd t -> named_targets (sc_batch cmd) /\ unwrapped t) ->
  steps E P Q c c' -> Forall io_clean (c_ios c) ->
  rtc sys_step (durable c) (durable c') /\ Forall io_clean (c_ios c').
Proof.
  intros Ho HQ. induction 1 as [c|a b c Hab _ IH]; intros Hc; [done|].
  destruct (cstep_durable _ _ _ _ _ Ho HQ Hc Hab) as [Hr Hc']. destruct (IH Hc') as [Hr2 Hc2].
  split; [by etrans|done].
Qed.

(** The controller implements the durable system.  Handling any event,
    with any callbacks that behave and any pattern of writes failing before
    the file is replaced, moves the tracker and the state file by steps of
    the durable system. *)
Lemma handler_refines_durable E ev c :
  event_ok E ev c ->
  rtc sys_step (durable c) (durable (handleLoopEvent E ev c)) /\ Forall io_clean (c_ios (handleLoopEvent E ev c)).
Proof.
  intros [Ho Hi Hc]. eapply steps_durable; [done| |apply event_steps|done]. intros cmd t [Hb ->]. by apply Hc.
Qed.

(** The life of a supervisor: its loop handles events, other goroutines
    (settlement workers, the readiness and spawn callbacks) act on the
    tracker and the file in between, and it crashes and starts again from
    the file.  The fates of the writes of each event are arbitrary. *)
Inductive life : controller -> Prop :=
| life_boot : life (boot NewDaemonRuntimeTracker None)
| life_event E ev ios c : life c -> event_ok E ev (c <| c_ios := ios |>) -> life (handleLoopEvent E ev (c <| c_ios := ios |>))
| life_other c t d : life c -> sys_step (durable c) (mkSys t d) -> life (c <| c_tracker := t |> <| c_disk := d |>)
| life_restart c t : life c -> loadDaemonRuntimeTrackerFromStatePath io_ok (c_disk c) = (t, None) -> life (boot t (c_disk c)).

Lemma reachable_rtc s s' : reachable s -> rtc sys_step s s' -> reachable s'.
Proof. intros Hr Hs. induction Hs as [s|a b c Hab _ IH]; [done|]. apply IH. by eapply reach_step. Qed.

Lemma life_reachable c : life c -> reachable (durable c).
Proof.
  induction 1 as [|E ev ios c _ IH Hok|c t d _ IH Hs|c t _ IH Hl].
  - apply reach_start.
  - eapply reachable_rtc; [exact IH|]. by apply (proj1 (handler_refines_durable E ev (c <| c_ios := ios |>) Hok)).
  - by eapply reach_step.
  - eapply reach_step; [exact IH|]. by apply step_restart.
Qed.

(** C1: the supervisor loses no stop.  At every point of its life, through
    any events, concurrent tracker operations, crashes, restarts and writes
    that fail, restarting from the file on disk restores exactly the stop
    receipts held in memory, all of them valid, and raises no fence, unless
    an integrity fence is up already.  It is assumed that a write that fails
    does so before it has replaced the file, that the callbacks report spawns
    and errors as they should, that a stop command names its targets, and
    that none comes after a PID generation has wrapped around. *)
Theorem supervisor_crash_safe c :
  life c -> t_stopSettlementIntegrityErr (c_tracker c) = "" ->
  exists t2, loadDaemonRuntimeTrackerFromStatePath io_ok (c_disk c) = (t2, None) /\
    t_stopSettlements t2 = t_stopSettlements (c_tracker c) /\ t_stopSettlementIntegrityErr t2 = "" /\
    map_Forall (fun k r => sr_TaskName r = k /\ validStopSettlementReceipt r = true) (t_stopSettlements t2).
Proof.
  intros Hl Hf. destruct (inv_recovers (durable c) (reachable_inv _ (life_reachable c Hl)) Hf) as (t2&H1&H2&H3&_&H4).
  by exists t2.
Qed.
End Durable.

(** ** Witnesses *)
Section Witnesses.
#[local] Existing Instance ideal_digest.
#[local] Existing Instance ideal_digest_laws.

Lemma demo_env_ok : env_ok demo_env.
Proof.
  split; [constructor| |].
  - intros f d [= <-]. constructor; [apply demo_op_ok|constructor].
  - intros d x. split; [by repeat constructor|done].
Qed.
Lemma demo_event_ok ev c :
  Forall io_clean (c_ios c) -> b_stop_batch (ev_Body ev) = None -> event_ok demo_env ev c.
Proof. intros Hi Hb. split; [apply demo_env_ok|done|]. intros cmd. by rewrite Hb. Qed.

(** A day of the demo supervisor, up to the pending stop. *)
Definition w_life (n : nat) : controller := demo_run (take n demo_day) demo_boot.

Lemma life_demo_event ev c :
  life c -> c_ios c = [] -> (forall cmd, b_stop_batch (ev_Body ev) = Some cmd -> named_targets (sc_batch cmd) /\ unwrapped (c_tracker c)) ->
  life (handleLoopEvent demo_env ev c).
Proof.
  intros Hl Hi Hc. assert (c = c <| c_ios := [] |>) as -> by (destruct c; simpl in *; by subst).
  apply life_event; [exact Hl|]. split; [apply demo_env_ok|constructor|exact Hc].
Qed.
Lemma w_life_life : life (w_life 4).
Proof.
  apply (life_demo_event demo_stop_batch (w_life 3)); [|by vm_compute|].
  - apply (life_demo_event _ (w_life 2)); [|by vm_compute|done].
    apply (life_demo_event _ (w_life 1)); [|by vm_compute|done].
    apply (life_demo_event _ (w_life 0)); [constructor|by vm_compute|done].
  - intros cmd [= <-]. split; [by repeat constructor|]. apply (bool_decide_unpack _). vm_compute. exact I.
Qed.
Lemma supervisor_crash_safe_witness :
  exists t2, loadDaemonRuntimeTrackerFromStatePath io_ok (c_disk (w_life 4)) = (t2, None) /\
    t_stopSettlements t2 = t_stopSettlements (c_tracker (w_life 4)) /\
    map_keys (t_stopSettlements (c_tracker (w_life 4))) = [memory_task].
Proof.
  assert (t_stopSettlementIntegrityErr (c_tracker (w_life 4)) = "") as Hf by (vm_compute; reflexivity).
  destruct (supervisor_crash_safe (w_life 4) w_life_life Hf) as (t2&H1&H2&_).
  exists t2. split; [exact H1|split; [exact H2|vm_compute; reflexivity]].
Defined.

(** The assumption on writes is needed: when the directory cannot be synced
    after the file has been replaced, the stop is refused, and its receipt
    is in the file all the same. *)
Definition w_late : controller :=
  handleLoopEvent demo_env demo_stop_batch (w_life 3 <| c_ios := [io_fail_after (errors_New "sync")] |>).
Example late_failure_keeps_refused_stop :
  map_keys (t_stopSettlements (c_tracker w_late)) = [] /\ map_keys (rows_of (c_disk w_late)) = [memory_task].
Proof. vm_compute. done. Qed.
End Witnesses.
