(* ===== verification/TerminateSafety.v ===== *)
(** * When a process is terminated

    Terminating is as guarded as creating: an event may terminate only the
    daemon it is about, a daemon that was pending to be reaped before the
    event and is absent from the intent at the second look, or the targets
    of a stop command. *)
From S2P Require Import Prelude GoTime StateMachine Intent Descriptor StateFile Readiness Tracker Lifecycle.
From S2P Require Import StopSettlement Recovery Backoff Termination Controller SpawnGate SideEffect Reap.
From S2P Require Import Realloc StopBatch Loop Steps HandlerSteps SpawnSafety Scenario.
Open Scope Z_scope.

Section Terminate.
Context `{Digest} (E : env).

(** ** State-machine events, with creations allowed *)
Section Allowed.
Variable P : effect -> Prop.
Variable Q : StopBatchCommandV1 -> DaemonRuntimeTracker -> Prop.
Hypothesis Hspawn : forall d, P (CallSpawn d).

Lemma steps_create d ev c : steps E P Q c (create_process E d ev c).1.
Proof.
  destruct (create_process_cases E P Q d ev c) as [Hs|(spawn&c1&He&H1&_&->)]; [done|].
  apply steps_spawn_answer; [done|]. apply steps_perform; [by intros _|done].
Qed.
Lemma steps_execute_any c0 c sd st d ev :
  (forall x, P (CallTerm (descriptorForTerminateSideEffect d ev) x)) ->
  steps E P Q c0 c -> steps E P Q c0 (executeSideEffect E sd st d ev c).1.
Proof.
  intros Hterm H0. destruct (decide (st = StSpawning /\ str_contains sd "create-process" = true)) as [[-> Hs]|Hn].
  - unfold executeSideEffect. rewrite Hs. eapply steps_trans; [exact H0|apply steps_create].
  - apply steps_execute; [|done|done]. intros ->. destruct (str_contains sd _); tauto.
Qed.
Lemma steps_run c0 c d ev s k :
  (forall x, P (CallTerm (descriptorForTerminateSideEffect d ev) x)) ->
  steps E P Q c0 c -> steps E P Q c0 (run_transition E d ev s k c).
Proof.
  intros Hterm H0. unfold run_transition. cbn zeta. set (o := Transition _ _ _).
  destruct (negb _); [by apply steps_completeIdle, steps_emit|].
  pose proof (steps_execute_any c0 (commit_transition E (ev_TaskName ev) s o c) (side o) (newState o) d ev Hterm
    (steps_commit E P Q c0 c (ev_TaskName ev) s o H0)) as Hx.
  destruct (executeSideEffect _ _ _ _ _ _) as [c1 err]. by apply steps_completeIdle.
Qed.
Lemma steps_routed c0 c d ev k :
  (forall x, P (CallTerm (descriptorForTerminateSideEffect d ev) x)) ->
  steps E P Q c0 c -> steps E P Q c0 (handle_routed E d ev k c).
Proof.
  intros Hterm H0. unfold handle_routed. cbn zeta.
  destruct (timer_deferred_by_reap _ _ _); [apply steps_emit; eauto 20 with steps|].
  destruct (clean_exit_while_running _ _); [by apply steps_emit, steps_setSM, steps_leftRunning|].
  pose proof (steps_cleared E P Q c0 c ev (loadSM c (ev_TaskName ev)) H0) as Hc.
  destruct (apply_cleared_runtime E ev _ c) as [c1 s]. simpl in Hc.
  pose proof (steps_bindRefused E P Q c0 c1 d ev s Hc) as Hb.
  destruct (maybeHandleBindRefusedExit E d ev s c1) as [c2 []]; [done|by apply steps_run].
Qed.

(** The descriptor a state-machine event may terminate. *)
Definition event_target (ev : LoopEvent) (c : controller) (d : SupervisorDaemon) : Prop :=
  (ev_Kind ev = Ev EvManualRestart /\ b_terminate_descriptor (ev_Body ev) = Some d) \/
  exists d0, lookupDescriptorWithShadow c (canonicalSupervisorTaskName (ev_TaskName ev)) = Some d0 /\
    d = with_task_name d0 (canonicalSupervisorTaskName (ev_TaskName ev)).

Lemma steps_sm_event k ev c :
  (forall d x, (k = EvManualRestart /\ b_terminate_descriptor (ev_Body ev) = Some d) \/
     (exists d0, lookupDescriptorWithShadow c (canonicalSupervisorTaskName (ev_TaskName ev)) = Some d0 /\
        d = with_task_name d0 (canonicalSupervisorTaskName (ev_TaskName ev))) -> P (CallTerm d x)) ->
  steps E P Q c (handle_sm_event E k ev c).
Proof.
  intros Hp. pose proof (steps_refl E P Q c) as H0. unfold handle_sm_event. cbn zeta.
  set (task := canonicalSupervisorTaskName (ev_TaskName ev)) in *. set (ev' := mkEvent (Ev k) task (ev_Body ev)).
  destruct (restart_refused_by_intent E ev' c); [by apply steps_emit, steps_dropGate|].
  destruct (stale_child_exit ev' c); [by apply steps_emit|].
  set (c1 := if bool_decide (k = EvChildExit) then _ else c).
  assert (steps E P Q c c1) as Hc by (unfold c1; case_match; eauto 20 with steps).
  assert (lookupDescriptorWithShadow c1 task = lookupDescriptorWithShadow c task) as -> by (unfold c1; by case_match).
  destruct (lookupDescriptorWithShadow c task) as [d|] eqn:Hd; [|by apply steps_completeIdle, steps_dropGate, steps_emit].
  apply steps_routed; [|done]. intros x. apply Hp. unfold descriptorForTerminateSideEffect. simpl.
  destruct k; try (right; by exists d). destruct (b_terminate_descriptor (ev_Body ev)) eqn:Hb; [by left|right; by exists d].
Qed.
End Allowed.

(** ** What an event may terminate *)
Definition may_terminate (ev : LoopEvent) (c : controller) (d : SupervisorDaemon) : Prop :=
  match ev_Kind ev with
  | Ev _ | evOwnedChildWaitExit | evForeignTerminationExit => event_target ev c d
  | evReapScan => absent_pending c (b_reap_intent (ev_Body ev)) d
  | evReapFollowup => exists fresh, e_freshIntent E = Some (Ok fresh) /\ absent_pending c fresh d
  | evReallocApplied => realloc_look ev c d
  | evStopBatch =>
      exists cmd tg, b_stop_batch (ev_Body ev) = Some cmd /\ tg ∈ sb_Targets (sc_batch cmd) /\
        FindSupervisorDaemonByTaskName (sc_SupervisorIntent cmd) (tg_TaskName tg) = Some d
  | evStopSettlementRecovery =>
      LookupCanonical c (ev_TaskName ev) = Some d /\ is_Some (StopSettlementReceipt (c_tracker c) (ev_TaskName ev))
  | evControllerBarrier | evParoleTick | evPreSpawnRealloc => False
  end.
Definition permitted (ev : LoopEvent) (c : controller) (e : effect) : Prop :=
  match e with CallTerm d _ => may_terminate ev c d | _ => True end.

Lemma record_exit_caches ev c P Q :
  steps E P Q c (recordExactStopReceiptExit E ev c).
Proof. apply steps_recordExit, steps_refl. Qed.

(** The follow-up terminates only when the fresh intent lacks the task. *)
Lemma steps_followup_fresh P Q c t g :
  (forall fresh d x, e_freshIntent E = Some (Ok fresh) -> absent_pending c fresh d -> P (CallTerm d x)) ->
  steps E P Q c (handleReapFollowup E t g c).
Proof.
  intros Hp. pose proof (steps_refl E P Q c) as H0. unfold handleReapFollowup, stopReapTimer. cbn zeta.
  set (task := canonicalSupervisorTaskName t). destruct (c_reapGeneration c !! task); [|done].
  destruct (negb _); [by apply steps_emit|].
  set (c1 := c <| c_reapArmed ::= _ |> <| c_reapTimers ::= _ |>).
  assert (steps E P Q c c1) as Hc1 by (unfold c1; eauto 1000 with steps).
  change (c_pendingReap c1) with (c_pendingReap c). destruct (c_pendingReap c !! task) as [d|] eqn:Hd; [|done].
  destruct (e_freshIntent E) as [[fresh|e]|]; [|by apply steps_emit, steps_armReap..].
  case_bool_decide as Hin; [|destruct (negb _); [by apply steps_emit, steps_clearRemoved|]].
  - pose proof (snapshot_confirmed E (TaskNames c1) fresh (Some (StopsAsDaemonIntentFile fresh)) c1) as Hs.
    pose proof (steps_snapshot E P Q c c1 (TaskNames c1) fresh (Some (StopsAsDaemonIntentFile fresh)) Hc1) as Hc2.
    destruct (applyReapSnapshot _ _ _ _ _) as [c2 l]. apply steps_emit, steps_confirmReap; [|done].
    intros d' x Hk%Hs. by eapply Hp.
  - apply steps_resolve; [|done]. intros x. eapply Hp; [done|]. by exists task.
Qed.

Lemma steps_permitted ev c : steps E (permitted ev c) (batch_of ev c) c (handleLoopEvent E ev c).
Proof.
  pose proof (steps_refl E (permitted ev c) (batch_of ev c) c) as H0. unfold handleLoopEvent.
  destruct (ev_Kind ev) as [k| | | | | | | | | |] eqn:Hk.
  - apply steps_sm_event; [done|]. intros d x Hd. unfold permitted, may_terminate, event_target. rewrite Hk.
    destruct Hd as [[-> Hd]|Hd]; [by left|by right].
  - eapply steps_trans; [apply record_exit_caches|]. apply steps_sm_event; [done|]. intros d x [[? _]|Hd]; [done|].
    rewrite record_exit_lookup in Hd. unfold permitted, may_terminate, event_target. rewrite Hk. by right.
  - eapply steps_trans; [apply record_exit_caches|]. apply steps_sm_event; [done|]. intros d x [[? _]|Hd]; [done|].
    rewrite record_exit_lookup in Hd. unfold permitted, may_terminate, event_target. rewrite Hk. by right.
  - assert (forall d x, d ∈ (applyReapSnapshot E (default ∅ (b_reap_previous (ev_Body ev))) (b_reap_intent (ev_Body ev))
      (b_reap_stops (ev_Body ev)) c).2 -> permitted ev c (CallTerm d x)) as Hp.
    { intros d x Hd%snapshot_confirmed. unfold permitted, may_terminate. by rewrite Hk. }
    case_match; [apply steps_perform; [done|]|]; by apply steps_reapScan.
  - apply steps_followup_fresh. intros fresh d x Hf Hd. unfold permitted, may_terminate. rewrite Hk. by exists fresh.
  - case_match; eauto 20 with steps.
  - destruct (b_stop_batch (ev_Body ev)) as [cmd|] eqn:Hb; [|done]. apply steps_stopBatch; [|done]. split; [done|].
    intros tg d x Htg Hd. unfold permitted, may_terminate. rewrite Hk. by exists cmd, tg.
  - set (c1 := c <| c_recoveryArmed ::= _ |>).
    assert (steps E (permitted ev c) (batch_of ev c) c c1) as Hc by (unfold c1; eauto 20 with steps).
    destruct (StopSettlementReceipt (c_tracker c) (ev_TaskName ev)) as [r|] eqn:Hr.
    + pose proof (steps_recover E (permitted ev c) (batch_of ev c) c1 (ev_TaskName ev)) as Hs.
      destruct (recoverStopReceiptOnLoop _ _ _) as [c2 [t|]]; [apply steps_perform; [done|]|]; simpl in Hs;
        (eapply steps_trans; [exact Hc|apply Hs]); intros d x Hd; unfold permitted, may_terminate; rewrite Hk; by rewrite Hr.
    + unfold recoverStopReceiptOnLoop. change (c_tracker c1) with (c_tracker c). rewrite Hr. by destruct (is_blank _).
  - by apply steps_dwellTick, steps_parole.
  - apply steps_reallocApplied. intros d x Hd. unfold permitted, may_terminate. by rewrite Hk.
  - by apply steps_preSpawnRealloc.
Qed.

(** C3: a process is terminated only for a reason.  Whatever event the loop
    handles, the daemons it terminates are among: the one the event names
    (or, for a manual restart, the old descriptor it carries); the daemons
    that were pending to be reaped before the event and are absent from the
    intent looked at now (the one the event carries, the one read for a
    follow-up, or after a reallocation the newer of the carried and the
    cached one); the targets of the stop command; the task of the recovered
    stop receipt. *)
Theorem terminate_scope ev c :
  exists l, c_effects (handleLoopEvent E ev c) = c_effects c ++ l /\
    forall d x, CallTerm d x ∈ l -> may_terminate ev c d.
Proof.
  pose proof (steps_permitted ev c) as (_&l&Hl&Hf)%steps_keep. exists l. split; [done|].
  intros d x Hd. rewrite Forall_forall in Hf. by apply (Hf (CallTerm d x)).
Qed.
End Terminate.

(** ** Witness *)
Section Witnesses.
#[local] Existing Instance ideal_digest.

(** The stop batch of the demo day terminates its target. *)
Lemma terminate_scope_witness :
  exists l, c_effects (handleLoopEvent demo_env demo_stop_batch (demo_run (take 3 demo_day) demo_boot)) =
    c_effects (demo_run (take 3 demo_day) demo_boot) ++ l /\
    CallTerm (demo_daemon memory_task 9123) (mkExpected memory_task 4242 (FormatRFC3339Nano noon) 1 true) ∈ l /\
    may_terminate demo_env demo_stop_batch (demo_run (take 3 demo_day) demo_boot) (demo_daemon memory_task 9123).
Proof.
  pose proof (terminate_scope demo_env demo_stop_batch (demo_run (take 3 demo_day) demo_boot)) as (l&Hl&Ht).
  exists l. split; [exact Hl|].
  assert (Hin : CallTerm (demo_daemon memory_task 9123) (mkExpected memory_task 4242 (FormatRFC3339Nano noon) 1 true) ∈ l);
    [|split; [exact Hin|exact (Ht _ _ Hin)]].
  assert (c_effects (demo_run demo_day demo_boot) = c_effects (demo_run (take 3 demo_day) demo_boot) ++ l) as Hl' by exact Hl.
  assert (l = drop (length (c_effects (demo_run (take 3 demo_day) demo_boot))) (c_effects (demo_run demo_day demo_boot))) as ->
    by (rewrite Hl', drop_app_length; reflexivity).
  vm_compute. repeat first [left | right].
Defined.
End Witnesses.
