(* ===== verification/Policy.v ===== *)
(** * The restart policy

    What a crash leads to, which timers and restarts can still fire, and
    how often a port is moved. *)
From S2P Require Import Prelude GoTime StateMachine Intent Descriptor StateFile Readiness Tracker Lifecycle.
From S2P Require Import StopSettlement Recovery Backoff Termination Controller SpawnGate SideEffect Reap.
From S2P Require Import Realloc StopBatch Loop Steps HandlerSteps SpawnSafety Scenario.
Open Scope Z_scope.

Definition is_audit (e : effect) : bool := match e with Audit _ _ _ => true | _ => false end.
(** The effects that are not audit events. *)
Definition acts (c : controller) : list effect := List.filter (fun e => negb (is_audit e)) (c_effects c).

Lemma acts_audits l : Forall (fun e => is_audit e = true) l -> List.filter (fun e => negb (is_audit e)) l = [].
Proof. induction 1 as [|e l He _ IH]; simpl; [done|]. by rewrite He. Qed.

Section Policy.
Context `{Digest} (E : env).

(** A persist touches the file, the pending write fates and the audit log. *)
Lemma persist_form t c :
  exists ios d l, persist E t c = c <| c_ios := ios |> <| c_disk := d |> <| c_effects := c_effects c ++ l |> /\
    Forall (fun e => is_audit e = true) l.
Proof.
  unfold persist, persistDaemonRuntimeTracker, next_io.
  destruct (e_statePath E =s "").
  { exists (c_ios c), (c_disk c), []. rewrite app_nil_r. by destruct c. }
  destruct (c_ios c) as [|i l0] eqn:Hi; simpl;
    match goal with |- context [PersistTo ?a ?b ?i ?d] => destruct (PersistTo a b i d) as [[u|e] disk] end; simpl;
    [exists [], disk, [] | exists [], disk, [Audit "error" "daemon-runtime-state-persist-failed" (canonicalSupervisorTaskName t)]
    |exists l0, disk, [] | exists l0, disk, [Audit "error" "daemon-runtime-state-persist-failed" (canonicalSupervisorTaskName t)]];
    rewrite ?app_nil_r; destruct c; simpl in *; subst; by repeat constructor.
Qed.
Lemma acts_emit s e t c : acts (emit s e t c) = acts c.
Proof. unfold acts, emit. simpl. rewrite List.filter_app. simpl. by rewrite app_nil_r. Qed.
Lemma acts_perform e c : is_audit e = false -> acts (perform e c) = acts c ++ [e].
Proof. intros He. unfold acts, perform. simpl. rewrite List.filter_app. simpl. by rewrite He. Qed.
Lemma acts_persist t c : acts (persist E t c) = acts c.
Proof.
  destruct (persist_form t c) as (ios&d&l&->&Hl). unfold acts. simpl. by rewrite List.filter_app, (acts_audits l), app_nil_r.
Qed.
Lemma persist_fields t c :
  let c' := persist E t c in
  c_tracker c' = c_tracker c /\ c_smStates c' = c_smStates c /\ c_parole c' = c_parole c /\ c_armGen c' = c_armGen c /\
  c_armEpoch c' = c_armEpoch c /\ c_queuedActions c' = c_queuedActions c.
Proof. destruct (persist_form t c) as (ios&d&l&->&_). by split_and!. Qed.

(** ** Timers *)

(** The generation a timer was armed with is never above the epoch. *)
Definition arms_wf (c : controller) : Prop :=
  0 <= c_armEpoch c /\ map_Forall (fun _ g => 0 < g <= c_armEpoch c) (c_armGen c).

Lemma arm_fields t b c :
  c_armEpoch c < u64_max -> 0 <= c_armEpoch c ->
  let c' := (armRespawnBackoffTimer E t b c).1 in
  c_armEpoch c' = c_armEpoch c + 1 /\
  c_armGen c' = <[canonicalSupervisorTaskName t := c_armEpoch c + 1]> (c_armGen c) /\ c_smStates c' = c_smStates c.
Proof.
  intros Hlt H0. simpl. rewrite u64_add_small by (unfold u64_max, u64_modulus in *; lia). by split_and!.
Qed.

(** Only the last timer of a task fires.  As long as the 64-bit epoch
    has not wrapped, arming a timer keeps the arms well formed and
    invalidates every timer armed before for that task: such a timer posts
    no event, whatever state the task is in; and the new one posts its
    timer-due event if the task is still in backoff. *)
Theorem last_timer_fires t b c name g :
  arms_wf c -> c_armEpoch c < u64_max -> c_armGen c !! canonicalSupervisorTaskName t = Some g ->
  let key := canonicalSupervisorTaskName t in
  let c' := (armRespawnBackoffTimer E t b c).1 in
  arms_wf c' /\ (timer_elapsed name key g c').2 = None /\
  (c_smStates c !! name = Some StBackoffWaiting -> exists g', g' <> g /\
     In (ArmTimer t key g' (armRespawnBackoffTimer E t b c).2) (c_effects c') /\
     (timer_elapsed name key g' c').2 = Some (event (Ev EvTimerDue) name)).
Proof.
  intros [H0 Hw] Hlt Hg key c'. destruct (arm_fields t b c Hlt H0) as (A1&A2&A3). fold c' in A1, A2, A3.
  assert (c_armGen c' !! key = Some (c_armEpoch c + 1)) as Hk by (rewrite A2; apply lookup_insert_eq).
  pose proof (Hw _ _ Hg) as Hgle. simpl in Hgle. split_and!.
  - split; [lia|]. rewrite A1, A2. apply map_Forall_insert_2; [lia|]. intros k g' Hk'. apply Hw in Hk'. lia.
  - unfold timer_elapsed. rewrite Hk. destruct (c_smStates c' !! name) as [s|];
      [destruct (bool_decide (s <> _)); [done|]|]; rewrite bool_decide_eq_false_2 by (intros [= ?]; lia); done.
  - intros Hs. exists (c_armEpoch c + 1). split_and!; [lia| |].
    + unfold c', armRespawnBackoffTimer, nextRespawnArmGen, perform. simpl. apply List.in_app_iff. right. left.
      rewrite u64_add_small by (unfold u64_max, u64_modulus in *; lia). done.
    + unfold timer_elapsed. rewrite A3, Hs, Hk. rewrite (bool_decide_eq_true_2 (Some _ = Some _)) by done. done.
Qed.

(** ** Crashes *)
Lemma backoff_fields task c :
  let c' := mark (OpMarkBackoff task) c in
  te_State <$> (t_entries (c_tracker c') !! canonicalSupervisorTaskName task) = Some daemonRuntimeStateBackoff.
Proof. simpl. unfold MarkBackoff, put_entry. unfold_mark. repeat case_match; simpl; by rewrite lookup_insert_eq. Qed.
Lemma quarantine_fields task c :
  let c' := mark (OpMarkQuarantined task) c in
  te_State <$> (t_entries (c_tracker c') !! canonicalSupervisorTaskName task) = Some daemonRuntimeStateQuarantine.
Proof. simpl. unfold_mark. repeat case_match; simpl; by rewrite lookup_insert_eq. Qed.

(** How many crashes of the task are in the window once this one is added. *)
Definition crash_number (t : DaemonRuntimeTracker) (task : string) : Z :=
  CrashCountInWindow t task (e_now E) (e_failureWindow E) + 1.

Definition backed_off (task : string) (n : Z) (c c' : controller) : Prop :=
  te_State <$> (t_entries (c_tracker c') !! canonicalSupervisorTaskName task) = Some daemonRuntimeStateBackoff /\
  exists gen, c_armGen c' !! canonicalSupervisorTaskName task = Some gen /\
    acts c' = acts c ++ [ArmTimer task (canonicalSupervisorTaskName task) gen
                           (jitteredRespawnBackoff (computeRespawnBackoff n) (e_jitter E gen))].
Definition quarantined (task : string) (c c' : controller) : Prop :=
  c_smStates c' !! task = Some StQuarantined /\
  te_State <$> (t_entries (c_tracker c') !! canonicalSupervisorTaskName task) = Some daemonRuntimeStateQuarantine /\
  is_Some (c_parole c' !! canonicalSupervisorTaskName task) /\ acts c' = acts c.

Lemma parole_eligible t c :
  let c' := recordQuarantineParoleEligible E t c in
  is_Some (c_parole c' !! canonicalSupervisorTaskName t) /\ acts c' = acts c /\ c_smStates c' = c_smStates c /\
  c_tracker c' = c_tracker c.
Proof.
  unfold recordQuarantineParoleEligible. destruct (c_parole c !! _) eqn:Hp; simpl; [by rewrite Hp; eauto|].
  rewrite lookup_insert_eq. eauto.
Qed.

Lemma backoff_outcome d ev c :
  let n := crash_number (c_tracker c) (sd_TaskName d) in
  let c' := handleBackoffWaiting E d ev c in
  if e_quarantineThreshold E <=? n then quarantined (sd_TaskName d) c c'
  else backed_off (sd_TaskName d) n c c' /\ c_smStates c' = c_smStates c.
Proof.
  set (task := sd_TaskName d). cbn zeta. unfold handleBackoffWaiting. fold task.
  assert ((RecordCrashAndCountInWindow (c_tracker c) task (e_now E) (e_failureWindow E)).2 = crash_number (c_tracker c) task) as Hn.
  { unfold crash_number, CrashCountInWindow, RecordCrashAndCountInWindow. simpl. rewrite length_app. simpl. lia. }
  destruct (RecordCrashAndCountInWindow _ _ _ _) as [t n] eqn:Hr. simpl in Hn. subst n.
  set (c1 := c <| c_tracker := t |>). destruct (_ <=? _).
  - unfold quarantined. set (c2 := setSM task StQuarantined c1).
    destruct (parole_eligible task c2) as (P1&P2&P3&P4). set (c3 := recordQuarantineParoleEligible E task c2) in *.
    pose proof (persist_fields task (mark (OpMarkQuarantined task) c3)) as (F1&F2&F3&_&_&_). cbn zeta in *.
    rewrite acts_emit, acts_persist. unfold emit. cbn [c_smStates c_tracker c_parole set_field].
    change (c_smStates (set_field (proj := c_effects) _ ?x)) with (c_smStates x).
    split_and!; simpl; rewrite ?F1, ?F2, ?F3; simpl.
    + rewrite P3. simpl. apply lookup_insert_eq.
    + apply (quarantine_fields task c3).
    + done.
    + exact P2.
  - set (c2 := mark (OpMarkBackoff task) c1).
    pose proof (persist_fields task c2) as (F1&F2&F3&F4&F5&_). cbn zeta in *.
    unfold armRespawnBackoffTimer, nextRespawnArmGen. cbn zeta. split; [split|].
    + simpl. rewrite F1. apply (backoff_fields task c1).
    + eexists. split; [simpl; apply lookup_insert_eq|]. rewrite acts_emit, acts_perform by done. f_equal.
      change (acts (persist E task c2) = acts c). rewrite acts_persist. done.
    + simpl. by rewrite F2.
Qed.

(** The exit of the running process of a known task, neither superseded nor
    clean nor refused its port. *)
Record crash (ev : LoopEvent) (c : controller) : Prop := mkCrash {
  cr_kind : ev_Kind ev = Ev EvChildExit;
  cr_name : is_canonical (ev_TaskName ev);
  cr_known : is_Some (lookupDescriptorWithShadow c (ev_TaskName ev));
  cr_running : c_smStates c !! ev_TaskName ev = Some StRunning;
  cr_fresh : stale_child_exit ev c = false;
  cr_dirty : b_clean_exit (ev_Body ev) = false;
  cr_code : b_exit_code (ev_Body ev) <> Some exitBindRefused;
  cr_reply : b_idle_respawn_result (ev_Body ev) = false;
}.

Lemma left_running_fields task c :
  let c' := noteReallocDwellLeftRunning task c in
  c_tracker c' = c_tracker c /\ acts c' = acts c /\ c_smStates c' = c_smStates c.
Proof. unfold noteReallocDwellLeftRunning. by destruct (c_reallocDwell c !! _). Qed.

(** What a crash leads to.  When the running process of a known daemon
    exits by itself with an error, the crashes in the window, this one
    included, decide: from the threshold on the daemon is quarantined,
    recorded as such, eligible for parole, and nothing is armed or called;
    below it the daemon waits in backoff and exactly one timer is armed, for
    the delay of that many crashes. *)
Theorem crash_outcome ev c :
  crash ev c ->
  let task := ev_TaskName ev in
  let n := crash_number (c_tracker c) task in
  let c' := handleLoopEvent E ev c in
  if e_quarantineThreshold E <=? n then quarantined task c c'
  else backed_off task n c c' /\ c_smStates c' !! task = Some StBackoffWaiting.
Proof.
  intros [Hk Hn [d Hd] Hs Hf Hcl Hx Hre] task n c'. subst c'. unfold handleLoopEvent. rewrite Hk.
  unfold handle_sm_event. rewrite Hn. fold task in Hs, Hd, Hn |- *. cbn zeta.
  assert (mkEvent (Ev EvChildExit) task (ev_Body ev) = ev) as -> by (unfold task; destruct ev; simpl in *; by subst).
  assert (restart_refused_by_intent E ev c = false) as -> by (unfold restart_refused_by_intent; by rewrite Hk).
  rewrite Hf. rewrite bool_decide_eq_true_2 by done. set (c1 := c <| c_reaperOutstanding ::= _ |>).
  change (lookupDescriptorWithShadow c1 task) with (lookupDescriptorWithShadow c task). rewrite Hd.
  unfold handle_routed. cbn zeta. fold task.
  assert (loadSM c1 task = StRunning) as -> by (unfold loadSM; simpl; by rewrite Hs).
  assert (timer_deferred_by_reap ev StRunning c1 = false) as -> by (unfold timer_deferred_by_reap; by rewrite Hk).
  assert (clean_exit_while_running ev StRunning = false) as ->
    by (unfold clean_exit_while_running, supervisorEventIsCleanExit; by rewrite Hk).
  assert (apply_cleared_runtime E ev StRunning c1 = (c1, StRunning)) as ->
    by (unfold apply_cleared_runtime, supervisorLivenessRestartClearedRuntime; by rewrite Hk).
  assert (supervisorEventIsBindRefusedExit ev = false) as Hb
    by (unfold supervisorEventIsBindRefusedExit; rewrite Hk; by apply bool_decide_eq_false_2).
  unfold maybeHandleBindRefusedExit. rewrite Hb. cbn [negb orb]. rewrite orb_true_r.
  unfold run_transition. change (Transition StRunning EvChildExit (sm_context E ev c1)) with (row StBackoffWaiting "arm timer" true).
  cbn [matched negb row side newState]. cbn zeta. fold task. unfold executeSideEffect.
  unfold completeIdleRespawnEvent. rewrite Hre.
  set (c2 := setSM task StBackoffWaiting (noteReallocDwellLeftRunning task c1) <| c_gateCleared ::= fun s => s ∖ {[task]} |>).
  change (commit_transition E task StRunning (row StBackoffWaiting "arm timer" true) c1) with (persist E task c2).
  destruct (left_running_fields task c1) as (L1&L2&L3).
  pose proof (persist_fields task c2) as (F1&F2&_). cbn zeta in F1, F2.
  pose proof (backoff_outcome (with_task_name d task) ev (persist E task c2)) as Hbo. cbn zeta in Hbo.
  change (sd_TaskName (with_task_name d task)) with task in Hbo.
  assert (crash_number (c_tracker (persist E task c2)) task = n) as Hcn
    by (rewrite F1; unfold c2; simpl; by rewrite L1).
  assert (acts (persist E task c2) = acts c) as Ha by (rewrite acts_persist; exact L2).
  rewrite Hcn in Hbo. unfold quarantined, backed_off in *. rewrite Ha in Hbo. destruct (_ <=? _); [done|].
  destruct Hbo as [Hbo Hsm]. split; [done|]. rewrite Hsm, F2. unfold c2. simpl. rewrite L3. apply lookup_insert_eq.
Qed.

(** ** Events that must not do anything *)

(** A state-machine event as the filters see it. *)
Definition canonical_event (k : SMEvent) (ev : LoopEvent) : LoopEvent :=
  mkEvent (Ev k) (canonicalSupervisorTaskName (ev_TaskName ev)) (ev_Body ev).
Definition filtered (k : SMEvent) (ev : LoopEvent) (c : controller) : Prop :=
  restart_refused_by_intent E (canonical_event k ev) c = true \/ stale_child_exit (canonical_event k ev) c = true \/
  lookupDescriptorWithShadow c (canonicalSupervisorTaskName (ev_TaskName ev)) = None.

(** Nothing of a daemon's state moves; at most a waiting requester is told
    that it failed. *)
Record inert (c c' : controller) : Prop := mkInert {
  in_tracker : c_tracker c' = c_tracker c;
  in_disk : c_disk c' = c_disk c;
  in_states : c_smStates c' = c_smStates c;
  in_queued : c_queuedActions c' = c_queuedActions c;
  in_parole : c_parole c' = c_parole c;
  in_self : c_self c' = c_self c;
  in_acts : acts c' = acts c \/ exists e, acts c' = acts c ++ [ReplyIdleRespawn (Some e)];
}.

Lemma filtered_inert k ev c : ev_Kind ev = Ev k -> filtered k ev c -> inert c (handleLoopEvent E ev c).
Proof.
  intros Hk Hf. unfold handleLoopEvent. rewrite Hk. unfold handle_sm_event. cbn zeta.
  set (task := canonicalSupervisorTaskName (ev_TaskName ev)) in *. unfold filtered, canonical_event in Hf. fold task in Hf.
  destruct (restart_refused_by_intent E _ c) eqn:H1; [split; try done; left; by rewrite acts_emit|].
  destruct (stale_child_exit _ c) eqn:H2; [split; try done; left; by rewrite acts_emit|].
  destruct Hf as [?|[?|Hl]]; [done|done|]. set (c1 := if bool_decide (k = EvChildExit) then _ else c).
  assert (lookupDescriptorWithShadow c1 task = None) as -> by (unfold c1; by case_match).
  assert (acts c1 = acts c) as Ha by (unfold c1; by case_match).
  assert (acts (drop_gate_cleared task (emit "debug" "controller-event-orphan" task c1)) = acts c) as Ha2
    by (unfold drop_gate_cleared; rewrite <- Ha; apply acts_emit).
  unfold completeIdleRespawnEvent. simpl b_idle_respawn_result.
  destruct (b_idle_respawn_result (ev_Body ev)).
  - split; try (unfold c1; by case_match). right. eexists. rewrite acts_perform by done. by rewrite Ha2.
  - split; try (unfold c1; by case_match). by left.
Qed.

(** A filtered event is inert.  An automatic restart of a daemon that
    the operator has stopped in the meantime, the exit of a process that has
    been superseded, and an event of a task nobody knows change no state of
    any daemon, neither the tracker nor the file, arm and call nothing; at
    most a waiting requester is told that it failed. *)
Theorem filtered_event_inert k ev c : ev_Kind ev = Ev k -> filtered k ev c -> inert c (handleLoopEvent E ev c).
Proof. apply filtered_inert. Qed.

(** ** Parole *)

(** What a parole retry needs. *)
Definition parole_due (c : controller) (ev : LoopEvent) : Prop :=
  exists k p, c_parole c !! k = Some p /\ getSMStateCanonical c k = Some StQuarantined /\
    pa_nextAttemptAt p <= e_now E /\ intent_now E c k = (IntentDesiredRunning, false) /\
    ev = mkEvent (Ev EvManualRestart) k (no_body <| b_require_running_intent := true |>).

Record parole_rel (c c' : controller) : Prop := mkParoleRel {
  pr_sm : c_smStates c' = c_smStates c;
  pr_stops : c_stops c' = c_stops c;
  pr_tracker : c_tracker c' = c_tracker c;
  pr_acts : acts c' = acts c;
}.
Lemma parole_rel_emit c s e t : parole_rel c (emit s e t c).
Proof. split; try done. apply acts_emit. Qed.

Lemma parole_step_spec c k p :
  parole_rel c (parole_step E c (k, p)) /\
  (c_self (parole_step E c (k, p)) = c_self c \/
   exists ev, c_self (parole_step E c (k, p)) = c_self c ++ [ev] /\
     getSMStateCanonical c k = Some StQuarantined /\ pa_nextAttemptAt p <= e_now E /\
     intent_now E c k = (IntentDesiredRunning, false) /\
     ev = mkEvent (Ev EvManualRestart) k (no_body <| b_require_running_intent := true |>)).
Proof.
  unfold parole_step. destruct (getSMStateCanonical c k) as [[]|] eqn:Hs;
    try (split; [by split|by left]).
  - (* running *)
    destruct (_ <=? _); (split; [|by left]); [|by split]. split; try done. by rewrite acts_emit.
  - (* quarantined *)
    cbn zeta. cbn [pa_attempts pa_nextAttemptAt]. set (c1 := c <| c_parole ::= _ |>).
    unfold Before. destruct (Z.ltb_spec (e_now E) (pa_nextAttemptAt p)); [split; [by split|by left]|].
    change (intent_now E c1 k) with (intent_now E c k). destruct (intent_now E c k) as [desired active].
    destruct (String.eqb_spec desired IntentDesiredRunning) as [->|]; [|split; [by split|by left]].
    destruct active; [split; [by split|by left]|]. cbn [negb orb].
    unfold PostSelf. destruct (Nat.ltb _ _).
    + split.
      * split; try done. rewrite acts_emit. done.
      * right. eexists. split_and!; [reflexivity|done|done|done|done].
    + split; [|by left]. split; try done. by rewrite acts_emit.
Qed.

(** Parole never restarts a stopped daemon.  A parole tick changes no
    state of any daemon and calls nothing; every restart it posts is for a
    daemon that is on parole, still quarantined, due, and wanted running by
    the operator now; and it asks that this is checked again when the
    restart is handled. *)
Theorem parole_respects_stops c :
  let c' := runQuarantineParoleTick E c in
  c_smStates c' = c_smStates c /\ c_tracker c' = c_tracker c /\ acts c' = acts c /\
  exists posted, c_self c' = c_self c ++ posted /\ Forall (parole_due c) posted /\ (e_graceful E = false \/ posted = []).
Proof.
  unfold runQuarantineParoleTick. destruct (e_graceful E).
  { split_and!; try done. exists []. rewrite app_nil_r. split_and!; [done|done|by right]. }
  assert (forall l c1, (forall kp, kp ∈ l -> c_parole c !! kp.1 = Some kp.2) -> parole_rel c c1 ->
    exists posted, parole_rel c (foldl (parole_step E) c1 l) /\
      c_self (foldl (parole_step E) c1 l) = c_self c1 ++ posted /\ Forall (parole_due c) posted) as Hf.
  { induction l as [|[k p] l IH]; intros c1 Hin Hr; [exists []; by rewrite app_nil_r|].
    destruct (parole_step_spec c1 k p) as [Hr1 Hq].
    assert (parole_rel c (parole_step E c1 (k, p))) as Hr2.
    { destruct Hr, Hr1. split; congruence. }
    destruct (IH (parole_step E c1 (k, p))) as (posted&H1&H2&H3); [intros kp Hkp; apply Hin; by right|done|].
    cbn [foldl]. destruct Hq as [Hq|(ev&Hq&Q1&Q2&Q3&Q4)].
    - exists posted. by rewrite H2, Hq.
    - exists (ev :: posted). rewrite H2, Hq, <- app_assoc. split_and!; [done|done|]. constructor; [|done].
      exists k, p. split_and!; [by apply (Hin (k, p)); left| |done| |done].
      + unfold getSMStateCanonical, GetSMState in *. by rewrite <- (pr_sm _ _ Hr).
      + unfold intent_now, daemonIntent_Lookup in *. by rewrite <- (pr_stops _ _ Hr). }
  destruct (Hf (map_to_list (c_parole c)) c) as (posted&[R1 _ R3 R4]&H2&H3).
  - intros [k p] Hkp. by apply elem_of_map_to_list in Hkp.
  - by split.
  - split_and!; try done. exists posted. split_and!; [done|done|by left].
Qed.

(** ** Moving a port *)

(** Moving a port is capped.  A dynamic-pool daemon whose bind was
    refused is moved only while it has moved fewer than three times in the
    window; otherwise nothing happens.  If it is moved, it waits in backoff
    with exactly one timer armed, and at most one request joins the worker's
    bounded queue, none if one is in flight for the task already. *)
Theorem realloc_capped d task c :
  let n := ReallocationCountInWindow (c_tracker c) task (e_now E) (e_failureWindow E) in
  let c' := (dispatchDynamicPoolRealloc E d task c).1 in
  if (dispatchDynamicPoolRealloc E d task c).2 then
    n < 3 /\ c_smStates c' !! task = Some StBackoffWaiting /\
    (exists gen delay, acts c' = acts c ++ [ArmTimer task (canonicalSupervisorTaskName task) gen delay] /\ 30 * Second <= delay) /\
    (c_reallocCh c' = c_reallocCh c \/
     (c_reallocCh c' = c_reallocCh c ++ [(d, n + 1)] /\ (length (c_reallocCh c) < reallocChCapacity)%nat /\
      canonicalSupervisorTaskName (sd_TaskName d) ∉ c_reallocInFlight c))
  else 3 <= n /\ c' = c.
Proof.
  unfold dispatchDynamicPoolRealloc, reallocationCap. destruct (Z.leb_spec 3 (ReallocationCountInWindow (c_tracker c) task (e_now E) (e_failureWindow E))); [done|].
  set (c1 := startReallocDwell task c). set (n := ReallocationCountInWindow _ _ _ _) in *.
  set (c2 := mark (OpMarkBackoff task) (setSM task StBackoffWaiting c1)).
  change (holdInBackoffNoTimer E task c1) with (persist E task c2).
  destruct (persist_form task c2) as (ios&disk&l&Hp&Hl). pose proof (acts_persist task c2) as Ha.
  rewrite Hp in Ha |- *. set (c3 := c2 <| c_ios := ios |> <| c_disk := disk |> <| c_effects := c_effects c2 ++ l |>) in *.
  change (acts c2) with (acts c) in Ha.
  assert (c_smStates c3 !! task = Some StBackoffWaiting) as Hs by apply lookup_insert_eq.
  assert (exists c4 b, tryDispatchRealloc E d (n + 1) c3 = (c4, b) /\ acts c4 = acts c /\
    c_smStates c4 !! task = Some StBackoffWaiting /\
    (c_reallocCh c4 = c_reallocCh c \/
     (c_reallocCh c4 = c_reallocCh c ++ [(d, n + 1)] /\ (length (c_reallocCh c) < reallocChCapacity)%nat /\
      canonicalSupervisorTaskName (sd_TaskName d) ∉ c_reallocInFlight c))) as (c4&b&->&Ha4&Hs4&Hch).
  { unfold tryDispatchRealloc. destruct (negb (e_reallocWired E)); [by eexists _, _; split_and!; eauto|].
    case_bool_decide as Hin; [by eexists _, _; split_and!; eauto|].
    destruct (Nat.ltb_spec (length (c_reallocCh c3)) reallocChCapacity).
    - eexists _, _. split_and!; [done|exact Ha|exact Hs|]. right. by split_and!.
    - eexists _, _. split_and!; [done|by rewrite acts_emit|exact Hs|by left]. }
  unfold armRespawnBackoffTimer, nextRespawnArmGen. cbn [fst snd]. split_and!; [done|exact Hs4| |exact Hch].
  eexists _, _. rewrite acts_perform by done. change (acts (set_field (proj := c_armGen) _ ?x)) with (acts x). split.
  - f_equal. exact Ha4.
  - assert (0 <= squatterForeignHoldDelay < 2 ^ 53) as Hr by done.
    pose proof (jitter_bounds squatterForeignHoldDelay (e_jitter E (u64_add (c_armEpoch c4) 1)) Hr) as Hj.
    unfold squatterForeignHoldDelay in *. lia.
Qed.
End Policy.

(** ** Witnesses *)
Section Witnesses.
#[local] Existing Instance ideal_digest.

Definition w_running : controller := demo_run (take 3 demo_day) demo_boot.
Definition w_crash : LoopEvent := event (Ev EvChildExit) memory_task.
Lemma crash_outcome_witness :
  let c' := handleLoopEvent demo_env w_crash w_running in
  c_smStates c' !! memory_task = Some StBackoffWaiting /\ backed_off demo_env memory_task 1 w_running c'.
Proof.
  assert (crash w_crash w_running) as Hc.
  { split; try (vm_compute; reflexivity); [|vm_compute; discriminate].
    exists (demo_daemon memory_task 9123). vm_compute. reflexivity. }
  pose proof (crash_outcome demo_env w_crash w_running Hc) as Ho. cbn zeta in Ho.
  assert (crash_number demo_env (c_tracker w_running) (ev_TaskName w_crash) = 1) as Hn by (vm_compute; reflexivity).
  rewrite Hn in Ho. destruct Ho as [H1 H2]. split; [exact H2|exact H1].
Defined.

Definition w_armed : controller := (armRespawnBackoffTimer demo_env memory_task (1 * Second) demo_start).1.
Lemma last_timer_fires_witness :
  let c' := (armRespawnBackoffTimer demo_env memory_task (2 * Second) w_armed).1 in
  arms_wf c' /\ (timer_elapsed memory_task memory_task 1 c').2 = None.
Proof.
  assert (arms_wf w_armed) as Hw.
  { split; [vm_compute; discriminate|]. intros k g Hk. unfold w_armed in Hk. simpl in Hk.
    apply lookup_insert_Some in Hk as [[_ <-]|[_ Hk]]; [vm_compute; split; congruence|by rewrite lookup_empty in Hk]. }
  assert (c_armEpoch w_armed < u64_max) as Hlt by (vm_compute; reflexivity).
  assert (c_armGen w_armed !! canonicalSupervisorTaskName memory_task = Some 1) as Hg by (vm_compute; reflexivity).
  pose proof (last_timer_fires demo_env memory_task (2 * Second) w_armed memory_task 1 Hw Hlt Hg) as (H1&H2&_).
  split; [exact H1|exact H2].
Defined.

(** An automatic restart of a daemon the operator has stopped. *)
Definition w_stopped : controller := w_running <| c_stops := {[ memory_task := demo_stop ]} |>.
Definition w_restart : LoopEvent :=
  mkEvent (Ev EvManualRestart) memory_task (no_body <| b_require_running_intent := true |>).
Lemma filtered_event_inert_witness :
  c_smStates (handleLoopEvent demo_env w_restart w_stopped) !! memory_task = Some StRunning.
Proof.
  assert (filtered demo_env EvManualRestart w_restart w_stopped) as Hf by (left; vm_compute; reflexivity).
  pose proof (filtered_event_inert demo_env EvManualRestart w_restart w_stopped eq_refl Hf) as [_ _ H1 _ _ _ _].
  rewrite H1. vm_compute. reflexivity.
Defined.
End Witnesses.
