(* ===== verification/Reconcile.v ===== *)
(** * Reconcile: bringing the fleet to its intent
      ([cli/supervise_reconcile.go], [cli/supervise_reconcile_ipc.go],
      [api/register_supervisor.go], [api/hotswap_eligibility.go]).

    At start-up [Reconciler.Reconcile] compares the intent with what runs.
    Later, every [mcphub stop], [mcphub restart] and [mcphub reconcile
    --apply] lists the drift between intent, scheduler and state machine,
    swaps the controller's caches for the file just read, and posts one event
    for each daemon that has to move. *)
From S2P Require Import Prelude GoTime Ports Registry StateMachine Intent Descriptor StateFile Readiness Tracker Lifecycle.
From S2P Require Import StopSettlement Backoff Termination Controller SpawnGate SideEffect Reap Realloc StopBatch Loop.
From S2P Require Import Steps HandlerSteps SpawnSafety Scenario Policy.
Open Scope Z_scope.

Definition ReconcileActionPostEvIntentUpdate : string := "post_ev_intent_update".
Definition ReconcileActionNoOp : string := "no_op".
Definition ReconcileActionNeedsManualReview : string := "needs_manual_review".
Definition reconcileActionPostEvManualRestart : string := "post_ev_manual_restart".
Definition ReconcileSchedulerStateRunning : string := "running".
Definition ReconcileSchedulerStateStopped : string := "stopped".
Definition ReconcileSchedulerStateMissing : string := "missing".
Definition ReconcileIntentDesiredRunning : string := "running".
Definition ReconcileIntentDesiredStopped : string := "stopped".
Definition ReconcileIntentDesiredUnknown : string := "?".
Definition IntentReasonUninstalled : string := "uninstalled".

(** ** The row behind a language server's proxy *)

(** The file-system side of workspace keys: [CanonicalWorkspacePathForCleanup]
    and [CanonicalWorkspacePathLegacyCompat], which resolve symbolic links,
    and [WorkspaceKey], a SHA-256 prefix. *)
Record workspace_paths := mkPaths {
  wp_cleanup : string -> res string; wp_legacy : string -> res string; wp_key : string -> string;
}.

(** [reg] is the snapshot of [OpenLSPRegistryForReconcile], if any. *)
Definition LSPRegistryRowBacksDescriptorIn (wp : workspace_paths) (d : SupervisorDaemon) (reg : option (list WorkspaceEntry))
    : bool :=
  let lang := arg_value "--language" (sd_Args d) in
  if lang =s "" then true
  else
    let wsPath := arg_value "--workspace" (sd_Args d) in
    let wsPath := if wsPath =s "" then sd_Workspace d else wsPath in
    if wsPath =s "" then true
    else
      match reg with
      | None => true
      | Some r =>
          let found (path : res string) :=
            match path with Ok p => bool_decide (is_Some (Registry.Get r (wp_key wp p) lang)) | Err _ => false end in
          found (wp_cleanup wp wsPath) || found (wp_legacy wp wsPath)
      end.
Definition LSPRegistryRowBacksDescriptor (wp : workspace_paths) (open : option (list WorkspaceEntry)) (d : SupervisorDaemon)
    : bool := LSPRegistryRowBacksDescriptorIn wp d open.

(** ** Start-up: [Reconciler.Reconcile] *)
Inductive startup_step :=
| StartPosted (taskName : string)
| SpawnCalled (d : SupervisorDaemon)
| TerminateCalled (d : SupervisorDaemon)
| Warned (event taskName : string).

(** [running] holds the tasks that [currentRunning] maps to true; [hasRow] is
    [LSPRegistryHasRow]; [wired] says whether the event loop is. *)
Definition reconcile_daemon (wired : bool) (hasRow : option (SupervisorDaemon -> bool))
    (stops : option (gmap string DaemonIntent)) (running : gset string) (now : time) (d : SupervisorDaemon)
    : list startup_step :=
  let isStopped :=
    match stops with
    | None => false
    | Some tasks => match tasks !! sd_TaskName d with Some entry => (IsActiveStop entry now).1 | None => false end
    end in
  let running := bool_decide (sd_TaskName d ∈ running) in
  if IsSerenaProxyDescriptor d && bool_decide (sd_RuntimeSpec d = None) && negb running
  then [Warned "legacy-serena-descriptor-skipped" (sd_TaskName d)]
  else if match hasRow with Some f => IsWorkspaceLSPProxyDescriptor d && negb (f d) | None => false end
  then
    if running && isStopped then [TerminateCalled d]
    else Warned "orphaned-lsp-descriptor-skipped" (sd_TaskName d) :: (if running then [TerminateCalled d] else [])
  else if negb isStopped && negb running
  then [if wired then StartPosted (sd_TaskName d) else SpawnCalled d]
  else if isStopped && running then [TerminateCalled d]
  else [].
Definition Reconcile (wired : bool) (hasRow : option (SupervisorDaemon -> bool)) (intent : option SupervisorIntentFile)
    (stops : option (gmap string DaemonIntent)) (running : gset string) (now : time) : list startup_step :=
  match intent with
  | None => []
  | Some f => flat_map (reconcile_daemon wired hasRow stops running now) (si_Daemons f)
  end.

(** ** The request *)
Record ReconcileTarget := mkReconcileTarget {
  rt_WorkspaceKey : string; rt_WorkspacePath : string; rt_TaskName : string; rt_RegisteredAt : string; rt_ExpectedPort : Z;
}.
Record ReconcileArgs := mkReconcileArgs {
  ra_Apply : bool; ra_SettleTarget : option ReconcileTarget; ra_StopBatch : option StopBatchCommandV1;
}.

Definition canonicalTaskNameForReconcile (taskName : string) : string :=
  match taskName with
  | EmptyString => taskName
  | String a _ => if Ascii.eqb a backslash then taskName else bs taskName
  end.

Definition valid_port (port : Z) : bool := negb ((port <=? 0) || (65535 <? port)).
Definition check_settle_target (target : ReconcileTarget) : option error :=
  if is_blank (rt_WorkspaceKey target) || is_blank (rt_WorkspacePath target) || is_blank (rt_TaskName target)
  then Some (errors_New "settle_target requires workspace_key, workspace_path, and task_name")
  else if match ParseRFC3339Nano (rt_RegisteredAt target) with Some t => IsZero t | None => true end
  then Some (errors_New "settle_target registered_at must be a non-zero RFC3339Nano timestamp")
  else if negb (valid_port (rt_ExpectedPort target))
  then Some (errors_New "settle_target expected_port must be in 1..65535")
  else None.
Fixpoint check_batch_targets (seen : list string) (targets : list StopBatchTargetV1) : option error :=
  match targets with
  | [] => None
  | target :: rest =>
      if negb (tg_TaskName target =s canonicalTaskNameForReconcile (tg_TaskName target)) ||
         negb (valid_port (tg_ExpectedPort target))
      then Some (errors_New "stop_batch target must use canonical task_name and port in 1..65535")
      else if existsb (String.eqb (tg_TaskName target)) seen
      then Some (errors_New "stop_batch contains duplicate task_name")
      else check_batch_targets (tg_TaskName target :: seen) rest
  end.

(** [parseReconcileArgs] on the decoded arguments; without any it is a
    preview. *)
Definition parseReconcileArgs (raw : option (res ReconcileArgs)) : res ReconcileArgs :=
  match raw with
  | None => Ok (mkReconcileArgs false None None)
  | Some (Err e) => Err (wrapf "unmarshal args into ReconcileArgs" e)
  | Some (Ok args) =>
      let settle :=
        match ra_SettleTarget args with
        | None => None
        | Some target =>
            if negb (ra_Apply args) then Some (errors_New "settle_target requires apply=true") else check_settle_target target
        end in
      match settle with
      | Some e => Err e
      | None =>
          match ra_StopBatch args with
          | None => Ok args
          | Some cmd =>
              let batch := sc_batch cmd in
              if negb (ra_Apply args) then Err (errors_New "stop_batch requires apply=true")
              else if bool_decide (is_Some (ra_SettleTarget args))
              then Err (errors_New "stop_batch cannot be combined with legacy settlement arguments")
              else if negb (sb_ProtocolVersion batch =? 1) || is_blank (sb_BatchID batch) ||
                      match sb_Targets batch with [] => true | _ => false end
              then Err (errors_New "stop_batch requires protocol_version=1, batch_id, and targets")
              else match check_batch_targets [] (sb_Targets batch) with Some e => Err e | None => Ok args end
          end
      end
  end.

(** ** The drift of one daemon *)
Definition computeIntentDesired (taskName : string) (daemonIntent : gmap string DaemonIntent) (now : time) : string :=
  match match daemonIntent !! taskName with
        | Some entry => Some entry
        | None => daemonIntent !! trim_prefix (bs "") taskName
        end with
  | None => ReconcileIntentDesiredRunning
  | Some entry => if (IsActiveStop entry now).1 then ReconcileIntentDesiredStopped else ReconcileIntentDesiredRunning
  end.

Definition normalizeSchedulerState (raw : string) : string :=
  let s := to_lower (trim_space raw) in
  if s =s "running" then ReconcileSchedulerStateRunning
  else if existsb (String.eqb s) ["ready"; "idle"; "stopped"; "disabled"; "queued"; ""] then ReconcileSchedulerStateStopped
  else raw.
Definition lookupSchedulerState (schedByTask : gmap string string) (taskName : string) : string * bool :=
  match schedByTask !! taskName with
  | None => (ReconcileSchedulerStateMissing, false)
  | Some state => (normalizeSchedulerState state, true)
  end.

(** Equality of slices and maps; nil and empty are equal. *)
Definition equalStringSliceForReconcile (a b : list string) : bool := bool_decide (a = b).
Definition equalStringMapForReconcile (a b : gmap string string) : bool :=
  Nat.eqb (size a) (size b) &&
  forallb (fun kv => match b !! kv.1 with Some vb => kv.2 =s vb | None => false end) (map_to_list a).

Definition runtimeSpecSpawnDrift (oldSpec newSpec : option DaemonRuntimeSpec) : bool :=
  match oldSpec, newSpec with
  | None, None => false
  | Some o, Some n =>
      if negb (rs_ChildCommand o =s rs_ChildCommand n) then true
      else if negb (equalStringSliceForReconcile (rs_ChildArgs o) (rs_ChildArgs n)) then true
      else if negb (rs_UpstreamPort o =? rs_UpstreamPort n) then true
      else if negb (rs_ExternalPort o =? rs_ExternalPort n) then true
      else if negb (rs_WorkspacePath o =s rs_WorkspacePath n) then true
      else negb (equalStringMapForReconcile (rs_EnvRefs o) (rs_EnvRefs n))
  | _, _ => true
  end.
Definition supervisorDescriptorSpawnDrift (oldDescriptor newDescriptor : option SupervisorDaemon) : bool :=
  match oldDescriptor, newDescriptor with
  | Some o, Some n =>
      if negb (sd_Command o =s sd_Command n) then true
      else if negb (equalStringSliceForReconcile (sd_Args o) (sd_Args n)) then true
      else if negb (sd_Port o =? sd_Port n) then true
      else if negb (sd_Workspace o =s sd_Workspace n) then true
      else if negb (equalStringMapForReconcile (sd_Env o) (sd_Env n)) then true
      else runtimeSpecSpawnDrift (sd_RuntimeSpec o) (sd_RuntimeSpec n)
  | _, _ => false
  end.

Definition smStateIsLive (s : SMState) : bool :=
  match s with StSpawning | StRunning | StExiting | StBackoffWaiting => true | _ => false end.
Definition smStateIsLiveForOrphanStop (s : SMState) : bool :=
  match s with StSpawning | StRunning | StExiting | StBackoffWaiting => true | _ => false end.

Definition classifyDriftAction (schedState : string) (hasSched : bool) (intentDesired : string) (smState : SMState)
    (cachedDescriptor newDescriptor : option SupervisorDaemon) : string :=
  if negb hasSched then
    if intentDesired =s ReconcileIntentDesiredRunning then
      match smState with
      | StQuarantined => ReconcileActionNeedsManualReview
      | StRunning =>
          if supervisorDescriptorSpawnDrift cachedDescriptor newDescriptor
          then reconcileActionPostEvManualRestart else ReconcileActionNoOp
      | StBackoffWaiting => ReconcileActionNoOp
      | _ => ReconcileActionPostEvIntentUpdate
      end
    else if (intentDesired =s ReconcileIntentDesiredStopped) && smStateIsLive smState
    then ReconcileActionPostEvIntentUpdate
    else ReconcileActionNoOp
  else if schedState =s ReconcileSchedulerStateRunning then
    if intentDesired =s ReconcileIntentDesiredStopped then ReconcileActionPostEvIntentUpdate
    else if bool_decide (smState = StRunning) && supervisorDescriptorSpawnDrift cachedDescriptor newDescriptor
    then reconcileActionPostEvManualRestart
    else ReconcileActionNoOp
  else if schedState =s ReconcileSchedulerStateStopped then
    if intentDesired =s ReconcileIntentDesiredRunning then
      match smState with
      | StQuarantined => ReconcileActionNeedsManualReview
      | StBackoffWaiting => ReconcileActionNoOp
      | _ => ReconcileActionPostEvIntentUpdate
      end
    else if (intentDesired =s ReconcileIntentDesiredStopped) && smStateIsLive smState
    then ReconcileActionPostEvIntentUpdate
    else ReconcileActionNoOp
  else ReconcileActionNeedsManualReview.

Definition HotSwapReasonProxyFronted : string :=
  "proxy-fronted: client holds a stable external port; the upstream child restarts invisibly behind the proxy".
Definition HotSwapReasonDirectPort : string :=
  "direct-port global daemon (gate-OFF): the client connects straight to the daemon port, so a restart drops the connection; needs gate-ON migration behind the hub to become hot-swappable".
Record HotSwapEligibility := mkHotSwap { hs_Eligible : bool; hs_Reason : string }.
Definition ClassifyHotSwapEligibility (d : SupervisorDaemon) : HotSwapEligibility :=
  match sd_RuntimeSpec d with
  | Some _ => mkHotSwap true HotSwapReasonProxyFronted
  | None => mkHotSwap false HotSwapReasonDirectPort
  end.

(** ** The pass of [handleReconcile] *)
Record DriftEntry := mkDrift {
  de_TaskName : string; de_SchedulerState : string; de_IntentDesired : string; de_SMState : SMState;
  de_Action : string; de_HotSwap : option HotSwapEligibility;
}.

Definition markOrphanedLSPStopIntentForReconcile (tasks : gmap string DaemonIntent) (taskName : string) (now : time)
    : gmap string DaemonIntent :=
  <[taskName := mkDaemonIntent IntentDesiredStopped IntentReasonUninstalled now]> tasks.

(** One daemon of the intent.  [stops] is the map of the unified stops, which
    an apply marks as it goes; [c] is the controller before its caches are
    refreshed. *)
Definition drift_step (wp : workspace_paths) (reg : option (list WorkspaceEntry)) (apply : bool) (now : time)
    (sched : gmap string string) (c : controller) (acc : gmap string DaemonIntent * list DriftEntry)
    (d : SupervisorDaemon) : gmap string DaemonIntent * list DriftEntry :=
  let '(stops, drift) := acc in
  let taskName := canonicalTaskNameForReconcile (sd_TaskName d) in
  let intentDesired := computeIntentDesired taskName stops now in
  let '(schedState, hasSched) := lookupSchedulerState sched taskName in
  let smState := loadSM c taskName in
  let entry (desired action : string) :=
    mkDrift taskName schedState desired smState action (Some (ClassifyHotSwapEligibility d)) in
  let isOrphanedLSP :=
    (intentDesired =s ReconcileIntentDesiredRunning) && IsWorkspaceLSPProxyDescriptor d &&
    negb (LSPRegistryRowBacksDescriptorIn wp d reg) in
  if isOrphanedLSP then
    if smStateIsLiveForOrphanStop smState
    then
      (if apply then markOrphanedLSPStopIntentForReconcile stops taskName now else stops,
       drift ++ [entry ReconcileIntentDesiredStopped ReconcileActionPostEvIntentUpdate])
    else (stops, drift ++ [entry intentDesired ReconcileActionNeedsManualReview])
  else
    (stops,
     drift ++ [entry intentDesired
                 (classifyDriftAction schedState hasSched intentDesired smState (LookupCanonical c taskName) (Some d))]).

Definition index_tasks (schedTasks : list (string * string)) : gmap string string :=
  foldl (fun m t => <[canonicalTaskNameForReconcile t.1 := t.2]> m) ∅ schedTasks.

(** The scheduler's tasks that no daemon of the intent has. *)
Definition scheduler_orphans (sched : gmap string string) (c : controller) (intent : SupervisorIntentFile) : list DriftEntry :=
  let seen : gset string := list_to_set (map (fun d => canonicalTaskNameForReconcile (sd_TaskName d)) (si_Daemons intent)) in
  omap (fun t : string * string =>
          if bool_decide (t.1 ∈ seen) then None
          else Some (mkDrift t.1 (normalizeSchedulerState t.2) ReconcileIntentDesiredUnknown (loadSM c t.1)
                       ReconcileActionNeedsManualReview None))
       (map_to_list sched).

Definition compute_drift (wp : workspace_paths) (reg : option (list WorkspaceEntry)) (apply : bool) (now : time)
    (schedTasks : list (string * string)) (c : controller) (intent : SupervisorIntentFile)
    : gmap string DaemonIntent * list DriftEntry :=
  let sched := index_tasks schedTasks in
  let '(stops, drift) :=
    foldl (drift_step wp reg apply now sched c) (UnifiedStopsFile (Some intent) ∅, []) (si_Daemons intent) in
  (stops, drift ++ scheduler_orphans sched c intent).

(** ** Applying *)
Definition restart_with (old : option SupervisorDaemon) (taskName : string) : LoopEvent :=
  mkEvent (Ev EvManualRestart) taskName
    (mkBody None None None None false "" false false false old None None None false 0 None reallocOutcomeFailed 0 0 0 None).
Definition drift_event (c : controller) (entry : DriftEntry) : option LoopEvent :=
  if de_Action entry =s ReconcileActionPostEvIntentUpdate then Some (event (Ev EvIntentUpdate) (de_TaskName entry))
  else if de_Action entry =s reconcileActionPostEvManualRestart
  then Some (restart_with (LookupCanonical c (de_TaskName entry)) (de_TaskName entry))
  else None.

(** The loop over the drift entries: [post] and [observe] answer for the
    n-th event; the events accepted, how many count as applied, the error. *)
Fixpoint post_events (post observe : nat -> option error) (n : nat) (evs : list LoopEvent)
    : list LoopEvent * Z * option error :=
  match evs with
  | [] => ([], 0, None)
  | ev :: rest =>
      match post n with
      | Some e => ([], 0, Some e)
      | None =>
          match observe n with
          | Some e => ([ev], 0, Some e)
          | None => let '(l, applied, err) := post_events post observe (S n) rest in (ev :: l, applied + 1, err)
          end
      end
  end.

(** [applyReconcileDriftWithContextAndObserver]: the controller, what is put
    on the loop's queue, the count and the error.  [scan_posted] says whether
    the barrier with the new caches could be enqueued in time. *)
Definition applyReconcileDrift (scan_posted : bool) (post observe : nat -> option error) (drift : list DriftEntry)
    (updatedIntent : option SupervisorIntentFile) (refresh : option (gmap string DaemonIntent)) (c : controller)
    : controller * list LoopEvent * Z * option error :=
  let evs := omap (drift_event c) drift in
  let '(c, scan) :=
    match updatedIntent, refresh with
    | Some _, _ => (c, if scan_posted then option_list (refreshSupervisorIntent updatedIntent refresh true c) else [])
    | None, Some tasks => (daemonIntent_Refresh tasks c, [])
    | None, None => (c, [])
    end in
  let '(posted, applied, err) := post_events post observe 0 evs in
  (c, scan ++ posted, applied, err).

(** The stop map of a non-empty intent is the map the pass marks; an absent
    one is replaced by a fresh map. *)
Definition marked_intent (intent : SupervisorIntentFile) (stops : gmap string DaemonIntent) : SupervisorIntentFile :=
  if bool_decide (si_Stops intent = ∅) then intent else intent <| si_Stops := stops |>.

(** [handleReconcile] from the intent it read ([None]: the file is missing)
    to the response. *)
Definition reconcile_pass (wp : workspace_paths) (reg : option (list WorkspaceEntry)) (apply : bool) (now : time)
    (schedTasks : list (string * string)) (intent : option SupervisorIntentFile)
    (scan_posted : bool) (post : nat -> option error) (c : controller)
    : list DriftEntry * (controller * list LoopEvent * Z * option error) :=
  let file := default (mkIntentFile 0 0 "" [] [] false "" ∅ ∅) intent in
  let '(stops, drift) := compute_drift wp reg apply now schedTasks c file in
  (drift,
   if apply then
     match intent with
     | Some f => applyReconcileDrift scan_posted post (fun _ => None) drift (Some (marked_intent f stops)) (Some stops) c
     | None => applyReconcileDrift scan_posted post (fun _ => None) drift None None c
     end
   else (c, [], 0, None)).

(** ** Spawn drift *)
Lemma equal_slice_spec a b : equalStringSliceForReconcile a b = true <-> a = b.
Proof. apply bool_decide_eq_true. Qed.
Lemma equal_map_spec a b : equalStringMapForReconcile a b = true <-> a = b.
Proof.
  unfold equalStringMapForReconcile. rewrite andb_true_iff, Nat.eqb_eq, forallb_forall. split.
  - intros [Hs Hin]. assert (a ⊆ b) as Hsub.
    { apply map_subseteq_spec. intros k v Hk. specialize (Hin (k, v)). rewrite <- list_elem_of_In, elem_of_map_to_list in Hin.
      specialize (Hin Hk). cbn in Hin. destruct (b !! k) as [w|]; [|done]. apply String.eqb_eq in Hin. by subst. }
    apply map_subseteq_size_eq; [done|lia].
  - intros ->. split; [done|]. intros [k v]. rewrite <- list_elem_of_In, elem_of_map_to_list. cbn. intros ->. by breflect.
Qed.

(** What two descriptors are compared by. *)
Definition compared_spec (s : DaemonRuntimeSpec) :=
  (rs_ChildCommand s, rs_ChildArgs s, rs_UpstreamPort s, rs_ExternalPort s, rs_WorkspacePath s, rs_EnvRefs s).
Definition compared (d : SupervisorDaemon) :=
  (sd_Command d, sd_Args d, sd_Port d, sd_Workspace d, sd_Env d, compared_spec <$> sd_RuntimeSpec d).

Lemma if_negb_false (b x : bool) : (if negb b then true else x) = false <-> b = true /\ x = false.
Proof. destruct b, x; cbn; intuition. Qed.
Lemma runtime_drift_spec o n : runtimeSpecSpawnDrift o n = false <-> compared_spec <$> o = compared_spec <$> n.
Proof.
  destruct o as [o|], n as [n|]; cbn; [|by split..].
  rewrite !if_negb_false, negb_false_iff, !equal_slice_spec, equal_map_spec. breflect. unfold compared_spec.
  split; [intros (?&?&?&?&?&?); congruence|intros [=]; done].
Qed.

(** No drift means that every compared field is the same. *)
Lemma spawn_drift_spec o n :
  supervisorDescriptorSpawnDrift (Some o) (Some n) = false <-> compared o = compared n.
Proof.
  cbn. rewrite !if_negb_false, runtime_drift_spec, !equal_slice_spec, equal_map_spec. breflect. unfold compared.
  split; [intros (?&?&?&?&?&?); congruence|intros [=]; done].
Qed.

(** The working directory of a global daemon, which a spawn uses when it has
    no workspace, is not compared. *)
Example working_dir_not_compared :
  let old := demo_daemon memory_task 9123 in
  let new := mkDaemon None memory_task "memory" "default" "/usr/bin/mcphub" (sd_Args old) "/srv/memory" ∅ "" 9123 "" 0 None in
  supervisorDescriptorSpawnDrift (Some old) (Some new) = false /\ sd_WorkingDir old <> sd_WorkingDir new.
Proof. split; [reflexivity|discriminate]. Qed.

(** ** Start-up *)
Section Startup.
Variables (hasRow : option (SupervisorDaemon -> bool)) (stops : option (gmap string DaemonIntent)) (running : gset string)
  (now : time).

Definition stopped_now (d : SupervisorDaemon) : Prop :=
  exists tasks entry, stops = Some tasks /\ tasks !! sd_TaskName d = Some entry /\ (IsActiveStop entry now).1 = true.
(** A language server's proxy whose row is known to be gone. *)
Definition unbacked (d : SupervisorDaemon) : Prop :=
  IsWorkspaceLSPProxyDescriptor d = true /\ exists f, hasRow = Some f /\ f d = false.
Definition spec_missing (d : SupervisorDaemon) : Prop := IsSerenaProxyDescriptor d = true /\ sd_RuntimeSpec d = None.

Lemma reconcile_daemon_spec d x :
  x ∈ reconcile_daemon true hasRow stops running now d <->
  match x with
  | StartPosted t => t = sd_TaskName d /\ t ∉ running /\ ~ stopped_now d /\ ~ spec_missing d /\ ~ unbacked d
  | TerminateCalled d' => d' = d /\ sd_TaskName d ∈ running /\ (stopped_now d \/ unbacked d)
  | SpawnCalled _ => False
  | Warned e t =>
      t = sd_TaskName d /\
      ((e = "legacy-serena-descriptor-skipped" /\ spec_missing d /\ t ∉ running) \/
       (e = "orphaned-lsp-descriptor-skipped" /\ unbacked d /\ ~ (spec_missing d /\ t ∉ running) /\
        ~ (t ∈ running /\ stopped_now d)))
  end.
Proof.
  unfold reconcile_daemon.
  set (st := match stops with Some _ => _ | None => false end).
  assert (st = true <-> stopped_now d) as Hst.
  { unfold st, stopped_now. destruct stops as [tasks|]; [|naive_solver].
    destruct (tasks !! sd_TaskName d) eqn:E; [|naive_solver]. split; [by eauto|]. intros (?&?&[= <-]&?&?). by simplify_eq. }
  set (un := match hasRow with Some _ => _ | None => false end).
  assert (un = true <-> unbacked d) as Hun.
  { unfold un, unbacked. destruct hasRow as [f|]; [|naive_solver]. rewrite andb_true_iff, negb_true_iff. naive_solver. }
  assert (IsSerenaProxyDescriptor d && bool_decide (sd_RuntimeSpec d = None) = true <-> spec_missing d) as Hsp.
  { unfold spec_missing. by rewrite andb_true_iff, bool_decide_eq_true. }
  generalize dependent (IsSerenaProxyDescriptor d && bool_decide (sd_RuntimeSpec d = None)). intros sp Hsp.
  clearbody st un.
  destruct x; rewrite <- ?Hst, <- ?Hun, <- ?Hsp; destruct sp, un, st; cbn [andb negb];
    case_bool_decide; cbn [andb negb]; rewrite ?elem_of_cons, ?elem_of_nil; naive_solver.
Qed.

(** What a start-up does.  A start is posted for exactly the daemons that
    should run and do not: in the intent, not running, not actively stopped,
    not a Serena row from before the run-time specs, not the proxy of an
    unregistered language server.  The daemons terminated are exactly the
    running ones that are stopped or have lost their registration, and
    nothing is spawned around the state machine. *)
Theorem startup_plan intent :
  let steps := Reconcile true hasRow intent stops running now in
  let wanted (d : SupervisorDaemon) := exists f, intent = Some f /\ d ∈ si_Daemons f in
  (forall t, StartPosted t ∈ steps <->
     t ∉ running /\ exists d, wanted d /\ sd_TaskName d = t /\ ~ stopped_now d /\ ~ spec_missing d /\ ~ unbacked d) /\
  (forall d, TerminateCalled d ∈ steps <-> wanted d /\ sd_TaskName d ∈ running /\ (stopped_now d \/ unbacked d)) /\
  (forall d, SpawnCalled d ∉ steps).
Proof.
  cbv zeta. unfold Reconcile. destruct intent as [f|]; [|split_and!; set_solver].
  assert (forall x, x ∈ flat_map (reconcile_daemon true hasRow stops running now) (si_Daemons f) <->
    exists d, d ∈ si_Daemons f /\ x ∈ reconcile_daemon true hasRow stops running now d) as Hin.
  { intros x. rewrite list_elem_of_In, in_flat_map. setoid_rewrite list_elem_of_In. done. }
  split_and!; [intros t|intros d|intros d]; rewrite Hin; setoid_rewrite reconcile_daemon_spec; naive_solver.
Qed.
End Startup.

(** ** Drift *)

(** A stop that binds now; where the stop maps are keyed by canonical names
    it is looked up under the name itself. *)
Definition stop_binds (now : time) (stops : gmap string DaemonIntent) (t : string) : bool :=
  match stops !! t with Some entry => (IsActiveStop entry now).1 | None => false end.

(** The intent as it is read: stops under canonical keys, and no task name
    that is another one with a backslash more. *)
Record intent_clean (f : SupervisorIntentFile) : Prop := mkClean {
  clean_stops : forall k, is_Some (si_Stops f !! k) -> is_canonical k;
  clean_names : forall d, d ∈ si_Daemons f -> let t := canonicalTaskNameForReconcile (sd_TaskName d) in
                  is_canonical (trim_prefix (bs "") t) -> trim_prefix (bs "") t = t;
}.

(** The marks a pass makes while it goes over the daemons, on tasks of [P]. *)
Definition marks_later (P : string -> Prop) (now : time) (s s' : gmap string DaemonIntent) : Prop :=
  forall k, s' !! k = s !! k \/
    (s' !! k = Some (mkDaemonIntent IntentDesiredStopped IntentReasonUninstalled now) /\ stop_binds now s k = false /\ P k).

Lemma mark_active now : (IsActiveStop (mkDaemonIntent IntentDesiredStopped IntentReasonUninstalled now) now).1 = true.
Proof.
  unfold IsActiveStop. cbn [di_Desired di_UpdatedAt di_Reason]. rewrite String.eqb_refl. cbn [negb].
  destruct (Before _ _); [done|]. unfold time_Sub. by rewrite Z.sub_diag.
Qed.
Lemma marks_refl P now s : marks_later P now s s.
Proof. by left. Qed.
Lemma marks_trans P now s1 s2 s3 : marks_later P now s1 s2 -> marks_later P now s2 s3 -> marks_later P now s1 s3.
Proof.
  intros H12 H23 k. destruct (H12 k) as [E|(E&?&?)], (H23 k) as [E'|(E'&Hn&?)].
  - left. congruence.
  - right. split_and!; [done| |done]. unfold stop_binds in *. by rewrite <- E.
  - right. split_and!; [congruence|done..].
  - by right.
Qed.
Lemma marks_stopped P now s s' t : marks_later P now s s' -> stop_binds now s t = true -> s' !! t = s !! t.
Proof. intros H Ht. destruct (H t) as [?|(_&?&_)]; [done|congruence]. Qed.
Lemma canonical_reconcile t : canonicalTaskNameForReconcile t = canonicalSupervisorTaskName t.
Proof. exact (canonicalIntentTaskKey_eq t). Qed.

Section Drift.
Context (wp : workspace_paths) (reg : option (list WorkspaceEntry)) (now : time) (sched : gmap string string) (c : controller).

(** The proxy of a language server whose row is gone. *)
Definition orphaned (d : SupervisorDaemon) : bool :=
  IsWorkspaceLSPProxyDescriptor d && negb (LSPRegistryRowBacksDescriptorIn wp d reg).
Definition orphan_task (ds : list SupervisorDaemon) (k : string) : Prop :=
  exists d, d ∈ ds /\ k = canonicalSupervisorTaskName (sd_TaskName d) /\ orphaned d = true.
Variable all : list SupervisorDaemon.

Definition canonical_keys (stops : gmap string DaemonIntent) : Prop := forall k, is_Some (stops !! k) -> is_canonical k.

Lemma desired_spec stops t :
  canonical_keys stops -> (is_canonical (trim_prefix (bs "") t) -> trim_prefix (bs "") t = t) ->
  computeIntentDesired t stops now =
    if stop_binds now stops t then ReconcileIntentDesiredStopped else ReconcileIntentDesiredRunning.
Proof.
  intros Hk Ht. unfold computeIntentDesired, stop_binds. destruct (stops !! t) as [e|] eqn:E; [done|].
  destruct (stops !! trim_prefix _ t) as [e|] eqn:E'; [|done].
  rewrite Ht in E' by (apply Hk; by exists e). congruence.
Qed.

(** Why an event is posted for a daemon. *)
Definition justified (stops : gmap string DaemonIntent) (d : SupervisorDaemon) (k : SMEvent) : Prop :=
  let t := canonicalSupervisorTaskName (sd_TaskName d) in
  match k with
  | EvIntentUpdate => stop_binds now stops t = false -> loadSM c t <> StQuarantined /\ loadSM c t <> StBackoffWaiting
  | EvManualRestart => loadSM c t = StRunning /\ supervisorDescriptorSpawnDrift (LookupCanonical c t) (Some d) = true
  | _ => False
  end.
Definition event_justified (stops : gmap string DaemonIntent) (ds : list SupervisorDaemon) (ev : LoopEvent) : Prop :=
  exists d k, d ∈ ds /\ ev_Kind ev = Ev k /\ ev_TaskName ev = canonicalSupervisorTaskName (sd_TaskName d) /\ justified stops d k.

Lemma justified_later s s' d k : marks_later (orphan_task all) now s s' -> justified s d k -> justified s' d k.
Proof.
  unfold justified. intros Hm. destruct k; try done. intros Hj Hs. apply Hj. apply not_true_is_false. intros Hb.
  unfold stop_binds in *. rewrite (marks_stopped _ _ _ _ _ Hm) in Hs by exact Hb. congruence.
Qed.

Lemma classify_posts schedState hasSched (binds : bool) s o n :
  let a := classifyDriftAction schedState hasSched (if binds then ReconcileIntentDesiredStopped else ReconcileIntentDesiredRunning) s o n in
  (a = ReconcileActionPostEvIntentUpdate -> binds = false -> s <> StQuarantined /\ s <> StBackoffWaiting) /\
  (a = reconcileActionPostEvManualRestart -> s = StRunning /\ supervisorDescriptorSpawnDrift o n = true).
Proof.
  cbv zeta. unfold classifyDriftAction. destruct binds, hasSched, s; cbn -[supervisorDescriptorSpawnDrift String.eqb];
    repeat case_match; split; intros; try done; simplify_eq/=.
Qed.

Lemma drift_step_spec stops drift d :
  canonical_keys stops -> d ∈ all ->
  (let t := canonicalTaskNameForReconcile (sd_TaskName d) in is_canonical (trim_prefix (bs "") t) -> trim_prefix (bs "") t = t) ->
  exists stops' e, drift_step wp reg true now sched c (stops, drift) d = (stops', drift ++ [e]) /\
    marks_later (orphan_task all) now stops stops' /\ canonical_keys stops' /\
    forall ev, drift_event c e = Some ev -> event_justified stops' [d] ev.
Proof.
  cbv zeta. intros Hk Hd Hn. unfold drift_step. rewrite (desired_spec _ _ Hk Hn). rewrite canonical_reconcile.
  set (t := canonicalSupervisorTaskName (sd_TaskName d)). destruct (lookupSchedulerState sched t) as [schedState hasSched].
  assert (forall schedState desired action stops', canonical_keys stops' ->
    (action = ReconcileActionPostEvIntentUpdate -> justified stops' d EvIntentUpdate) ->
    (action = reconcileActionPostEvManualRestart -> justified stops' d EvManualRestart) ->
    forall ev, drift_event c (mkDrift t schedState desired (loadSM c t) action (Some (ClassifyHotSwapEligibility d))) = Some ev ->
    event_justified stops' [d] ev) as Hev.
  { intros ss desired action stops' _ H1 H2 ev. unfold drift_event. cbn [de_Action de_TaskName].
    destruct (String.eqb_spec action ReconcileActionPostEvIntentUpdate) as [E|_];
      [|destruct (String.eqb_spec action reconcileActionPostEvManualRestart) as [E|_]; [|done]]; intros [= <-].
    - exists d, EvIntentUpdate. split_and!; [set_solver|done..|by apply H1].
    - exists d, EvManualRestart. split_and!; [set_solver|done..|by apply H2]. }
  destruct (_ && _ && negb _) eqn:Horph; [destruct (smStateIsLiveForOrphanStop _) eqn:Hlive|].
  - assert (stop_binds now stops t = false) as Hb by (by destruct (stop_binds now stops t)).
    set (stops' := markOrphanedLSPStopIntentForReconcile stops t now).
    assert (canonical_keys stops') as Hk'.
    { intros k Hs. unfold stops', markOrphanedLSPStopIntentForReconcile in Hs.
      destruct (decide (k = t)) as [->|Hne]; [apply canonical_is_canonical|]. rewrite lookup_insert_ne in Hs by done. by apply Hk. }
    do 2 eexists. split; [reflexivity|]. split; [|split; [done|]].
    + intros k. unfold stops', markOrphanedLSPStopIntentForReconcile. destruct (decide (k = t)) as [->|Hne].
      * right. rewrite lookup_insert_eq. split_and!; [done..|]. exists d. split_and!; [done..|]. unfold orphaned. by rewrite Hb in Horph.
      * left. by apply lookup_insert_ne.
    + apply Hev; [done| |done]. intros _ Hs. exfalso. fold t in Hs. unfold stop_binds, stops', markOrphanedLSPStopIntentForReconcile in Hs.
      by rewrite lookup_insert_eq, mark_active in Hs.
  - do 2 eexists. split; [reflexivity|]. split; [apply marks_refl|]. split; [done|]. by apply Hev.
  - do 2 eexists. split; [reflexivity|]. split; [apply marks_refl|]. split; [done|].
    destruct (classify_posts schedState hasSched (stop_binds now stops t) (loadSM c t) (LookupCanonical c t) (Some d)) as [H1 H2].
    by apply Hev.
Qed.

Lemma drift_fold_spec ds stops drift :
  canonical_keys stops -> ds ⊆ all ->
  (forall d, d ∈ ds -> let t := canonicalTaskNameForReconcile (sd_TaskName d) in
     is_canonical (trim_prefix (bs "") t) -> trim_prefix (bs "") t = t) ->
  exists stops' es, foldl (drift_step wp reg true now sched c) (stops, drift) ds = (stops', drift ++ es) /\
    marks_later (orphan_task all) now stops stops' /\
    forall ev, ev ∈ omap (drift_event c) es -> event_justified stops' ds ev.
Proof.
  revert stops drift. induction ds as [|d ds IH]; intros stops drift Hk Hall Hn.
  { exists stops, []. rewrite app_nil_r. split_and!; [done|apply marks_refl|]. by intros ev ?%elem_of_nil. }
  destruct (drift_step_spec stops drift d Hk) as (s1&e&E1&M1&Hk1&J1); [set_solver|apply Hn; set_solver|].
  destruct (IH s1 (drift ++ [e]) Hk1) as (s2&es&E2&M2&J2); [set_solver|intros; apply Hn; [set_solver|done]|].
  exists s2, (e :: es). cbn [foldl]. rewrite E1, E2. split; [by rewrite <- app_assoc|]. split; [by eapply marks_trans|].
  intros ev Hin. cbn [omap list_omap] in Hin.
  assert (drift_event c e = Some ev \/ ev ∈ omap (drift_event c) es) as [He|He].
  { destruct (drift_event c e) eqn:Hde; [|by right]. apply elem_of_cons in Hin as [->|?]; [by left|by right]. }
  - destruct (J1 _ He) as (d'&k&Hd&?&?&Hj). exists d', k. split_and!; [set_solver|done..|by eapply justified_later].
  - destruct (J2 _ He) as (d'&k&Hd&?&?&Hj). exists d', k. split_and!; [set_solver|done..].
Qed.
End Drift.

(** ** What an apply leads to *)
Section Apply.
Context `{Digest} (E : env) (wp : workspace_paths) (reg : option (list WorkspaceEntry)).

Lemma post_events_in post observe n evs ev : ev ∈ (post_events post observe n evs).1.1 -> ev ∈ evs.
Proof.
  revert n. induction evs as [|x evs IH]; intros n; cbn [post_events]; [done|].
  destruct (post n); [by intros ?%elem_of_nil|]. destruct (observe n); [set_solver|].
  specialize (IH (S n)). destruct (post_events _ _ _ _) as [[l a] err]. cbn [fst] in *. set_solver.
Qed.
Lemma scheduler_orphans_silent sched c intent : omap (drift_event c) (scheduler_orphans sched c intent) = [].
Proof.
  unfold scheduler_orphans. induction (map_to_list sched) as [|[t st] l IH]; [done|]. cbn [omap list_omap].
  case_bool_decide; [exact IH|]. cbn. exact IH.
Qed.

Lemma binds_active stops t : stop_binds (e_now E) stops t = (IsActiveStop (default zero_intent (stops !! t)) (e_now E)).1.
Proof. unfold stop_binds. by destruct (stops !! t). Qed.
Lemma active_desired i now : (IsActiveStop i now).1 = true -> di_Desired i = IntentDesiredStopped.
Proof. unfold IsActiveStop. destruct (String.eqb_spec (di_Desired i) IntentDesiredStopped); [done|]. done. Qed.

Lemma update_effects s ctx :
  let o := Transition s EvIntentUpdate ctx in
  (spawns o = true -> IntentDesired ctx = "running" /\
     (s = StIdle /\ IntentIsActiveStop ctx = false \/ s = StBackoffWaiting \/ s = StQuarantined)) /\
  (terminates o = true -> s = StRunning /\ IntentDesired ctx = "stopped").
Proof.
  cbv zeta. destruct s; table; breflect; (split; [intros Hs|intros Hs]); try discriminate Hs; intuition.
Qed.

Lemma justified_transition c stops d k ev :
  ev_TaskName ev = canonicalSupervisorTaskName (sd_TaskName d) -> justified (e_now E) c stops d k ->
  let s := loadSM c (ev_TaskName ev) in
  let o := Transition s k (sm_context E ev (daemonIntent_Refresh stops c)) in
  (spawns o = true -> s = StIdle /\ stop_binds (e_now E) stops (ev_TaskName ev) = false) /\
  (terminates o = true -> s = StRunning /\
     (di_Desired (default zero_intent (stops !! ev_TaskName ev)) = IntentDesiredStopped \/
      k = EvManualRestart /\ supervisorDescriptorSpawnDrift (LookupCanonical c (ev_TaskName ev)) (Some d) = true)).
Proof.
  intros Ht Hj. unfold justified in Hj. rewrite <- Ht in Hj. rewrite binds_active in Hj |- *. cbv zeta.
  unfold sm_context, intent_now. change (daemonIntent_Lookup (daemonIntent_Refresh stops c) (ev_TaskName ev))
    with (default zero_intent (stops !! ev_TaskName ev)).
  set (di := default zero_intent _) in *. pose proof (active_desired di (e_now E)) as Hact.
  destruct k; try done; [|destruct Hj as [-> Hdr]; by split; [|split; [|right]]].
  set (ctx := mkSMContext _ _ _ _ _).
  destruct (update_effects (loadSM c (ev_TaskName ev)) ctx) as [Hsp Hte].
  assert (IntentDesired ctx = if di_Desired di =s "" then IntentDesiredRunning else di_Desired di) as Hd by done.
  assert (IntentIsActiveStop ctx = (IsActiveStop di (e_now E)).1) as Ha by done. rewrite Hd in Hsp, Hte. rewrite Ha in Hsp.
  clearbody ctx. split; intros Ho.
  - destruct (Hsp Ho) as [Hr Hs]. destruct (IsActiveStop di (e_now E)).1; [by rewrite Hact in Hr|].
    destruct (Hj eq_refl). naive_solver.
  - destruct (Hte Ho) as [Hs Hst]. split; [done|]. left. by destruct (String.eqb_spec (di_Desired di) "").
Qed.

(** The barrier with the new caches, whenever the loop comes to handle it:
    no process is created, and only daemons that were waiting to be reaped
    and that this intent lacks too are terminated. *)
Definition reaps_only (look : SupervisorIntentFile) (ev : LoopEvent) : Prop :=
  forall c, exists l, c_effects (handleLoopEvent E ev c) = c_effects c ++ l /\
    forall e, e ∈ l -> match e with
                       | CallSpawn _ => False
                       | CallTerm d _ => absent_pending c (Some look) d
                       | _ => True
                       end.
Lemma scan_reaps previous look stops sync : reaps_only look (reap_scan_event previous look stops sync).
Proof.
  intros c.
  set (P := fun e => match e with CallSpawn _ => False | CallTerm d _ => absent_pending c (Some look) d | _ => True end).
  assert (steps E P (fun _ _ => False) c (handleLoopEvent E (reap_scan_event previous look stops sync) c)) as Hs.
  { cbn. destruct sync; [apply steps_perform; [done|]|]; by apply steps_reapScan_absent. }
  destruct (steps_keep E P _ _ _ Hs) as (_&l&Hl&Hf). exists l. split; [exact Hl|].
  intros e He. rewrite Forall_forall in Hf. specialize (Hf e He). destruct e; first [done | by apply Hf].
Qed.
Lemma absent_marked c intent stops d : absent_pending c (Some (marked_intent intent stops)) d -> absent_pending c (Some intent) d.
Proof. unfold absent_pending, marked_intent, taskNameSetFromIntent. by case_bool_decide. Qed.

(** C29: a reconcile moves no daemon without a reason.  Where the stops of
    the intent are under canonical names and no task name is another one with
    a backslash more, an apply, whatever the drift and whichever posts fail,
    enqueues the swap of the caches and events of daemons of the intent.
    With the swapped caches such an event creates a process only for an idle
    daemon that is not stopped (so that no quarantine is lifted and no backoff
    cut short), and terminates one only for a running daemon whose stop is
    recorded or whose descriptor was rewritten.  The swap itself, whenever the
    loop handles it, creates none and terminates only daemons that were dropped
    from the intent at an earlier look and are absent from this one.  The
    stops swapped in are those of the file and, for the proxies of
    unregistered language servers, a mark of the uninstallation. *)
Theorem reconcile_events_justified sched intent scan_posted post c drift c' evs applied err :
  intent_clean intent ->
  reconcile_pass wp reg true (e_now E) sched (Some intent) scan_posted post c = (drift, (c', evs, applied, err)) ->
  c' = c /\ exists stops, marks_later (orphan_task wp reg (si_Daemons intent)) (e_now E) (si_Stops intent) stops /\
  forall ev, ev ∈ evs ->
    (ev = reap_scan_event (TaskNames c) (marked_intent intent stops) (Some stops) true /\ reaps_only intent ev) \/
    exists d k, d ∈ si_Daemons intent /\ ev_Kind ev = Ev k /\ ev_TaskName ev = canonicalSupervisorTaskName (sd_TaskName d) /\
      let s := loadSM c (ev_TaskName ev) in
      let o := Transition s k (sm_context E ev (daemonIntent_Refresh stops c)) in
      (spawns o = true -> s = StIdle /\ stop_binds (e_now E) stops (ev_TaskName ev) = false) /\
      (terminates o = true -> s = StRunning /\
         (di_Desired (default zero_intent (stops !! ev_TaskName ev)) = IntentDesiredStopped \/
          k = EvManualRestart /\ supervisorDescriptorSpawnDrift (LookupCanonical c (ev_TaskName ev)) (Some d) = true)).
Proof.
  intros [Hst Hnm]. unfold reconcile_pass, compute_drift. cbn [default from_option].
  destruct (drift_fold_spec wp reg (e_now E) (index_tasks sched) c (si_Daemons intent) (si_Daemons intent) (si_Stops intent) [])
    as (stops&es&Ef&Hm&Hj); [exact Hst|done|exact Hnm|]. unfold UnifiedStopsFile, StopsAsDaemonIntentFile, id. rewrite Ef. cbn [app].
  unfold applyReconcileDrift. rewrite omap_app, scheduler_orphans_silent, app_nil_r.
  pose proof (post_events_in post (fun _ => None) 0 (omap (drift_event c) es)) as Hpost.
  destruct (post_events _ _ _ _) as [[posted a] er]. cbn [fst] in Hpost. intros [= <- <- <- <- <-].
  split; [done|]. exists stops. split; [done|]. intros ev [Hin|Hin]%elem_of_app.
  { left. destruct scan_posted; [|by apply elem_of_nil in Hin]. cbn in Hin. apply list_elem_of_singleton in Hin as ->. split; [done|].
    intros c1. destruct (scan_reaps (TaskNames c) (marked_intent intent stops) (Some stops) true c1) as (l&El&Hl).
    exists l. split; [exact El|]. intros e He. specialize (Hl e He). destruct e; try done. by eapply absent_marked. }
  right. destruct (Hj ev (Hpost ev Hin)) as (d&k&Hd&Hk&Ht&Hwhy). exists d, k.
  split; [done|]. split; [done|]. split; [done|]. by apply justified_transition.
Qed.
End Apply.

(** ** From the reconcile to the daemon *)

(** What routes events and decides restarts is the same; the log grows. *)
Record routes_same (c c' : controller) : Prop := mkRoutes {
  ro_states : c_smStates c' = c_smStates c;
  ro_queued : c_queuedActions c' = c_queuedActions c;
  ro_daemons : c_daemonByTask c' = c_daemonByTask c;
  ro_stops : c_stops c' = c_stops c;
  ro_log : exists l, c_effects c' = c_effects c ++ l;
}.
Lemma routes_refl c : routes_same c c.
Proof. split; try done. exists []. by rewrite app_nil_r. Qed.
#[global] Instance routes_trans : Transitive routes_same.
Proof.
  intros a b c [A1 A2 A3 A4 [l A5]] [B1 B2 B3 B4 [m B5]]. split; try congruence. exists (l ++ m). by rewrite B5, A5, app_assoc.
Qed.
Lemma routes_perform e c : routes_same c (perform e c).
Proof. split; try done. by eexists. Qed.

Section Effective.
Context `{Digest} (E : env).

Lemma routes_persist t c : routes_same c (persist E t c).
Proof. destruct (persist_form E t c) as (ios&d&l&->&_). split; try done. by exists l. Qed.
Lemma routes_marks ops c : routes_same c (marks ops c).
Proof. split; try done. exists []. by rewrite app_nil_r. Qed.
Lemma routes_synthesize d x c : routes_same c (synthesizeForeignChildExit E d x c).
Proof.
  unfold synthesizeForeignChildExit, PostSelf. destruct (Nat.ltb _ _); (split; try done); cbn; rewrite <- ?app_assoc; by eexists.
Qed.

(** A terminate side effect calls the callback and changes no route. *)
Lemma terminate_calls d ev c :
  e_terminate E <> TermNone ->
  exists x, routes_same (perform (CallTerm (descriptorForTerminateSideEffect d ev) x) c) (terminate_process E d ev c).1.
Proof.
  intros Ht. unfold terminate_process. cbv zeta. set (target := descriptorForTerminateSideEffect d ev).
  set (x := terminationExpectedTupleForTask _ _). exists x.
  destruct (call_terminate E target x c) as [c2 outcome] eqn:Hc.
  assert (routes_same (perform (CallTerm target x) c) c2) as H2.
  { unfold call_terminate in Hc. destruct (e_terminate E) as [|f|f]; [done|destruct (f target) as [[ops p] err]|destruct (f target x) as [[ops p] o]];
      injection Hc as <- <-; (destruct p; [etrans; [apply routes_marks|apply routes_persist]|apply routes_marks]). }
  destruct (_ && _ && _); cbn [fst]; [|done]. etrans; [exact H2|apply routes_synthesize].
Qed.

(** The descriptor the cache has for a canonical name that one daemon of the
    intent alone answers to. *)
Lemma index_elem ds k d : index_daemons ds !! k = Some d -> d ∈ ds /\ sd_TaskName d = k.
Proof.
  unfold index_daemons.
  induction ds as [|x ds IH] using rev_ind; [cbn [foldl]; by rewrite lookup_empty|]. rewrite foldl_app. cbn [foldl].
  destruct (decide (sd_TaskName x = k)) as [<-|Hne].
  - rewrite lookup_insert_eq. intros [= <-]. set_solver.
  - rewrite lookup_insert_ne by done. intros [? ?]%IH. set_solver.
Qed.
Lemma index_some ds d : d ∈ ds -> is_Some (index_daemons ds !! sd_TaskName d).
Proof.
  unfold index_daemons. induction ds as [|x ds IH] using rev_ind; [by intros ?%elem_of_nil|].
  rewrite foldl_app. cbn [foldl]. intros Hd. destruct (decide (sd_TaskName x = sd_TaskName d)) as [->|Hne].
  - rewrite lookup_insert_eq. by eexists.
  - rewrite lookup_insert_ne by done. apply IH. set_solver.
Qed.
Lemma lookup_unique c f d :
  c_daemonByTask c = index_daemons (si_Daemons f) -> d ∈ si_Daemons f ->
  (forall d2, d2 ∈ si_Daemons f -> canonicalSupervisorTaskName (sd_TaskName d2) = canonicalSupervisorTaskName (sd_TaskName d) -> d2 = d) ->
  LookupCanonical c (canonicalSupervisorTaskName (sd_TaskName d)) = Some d.
Proof.
  intros Hc Hd Hu. unfold LookupCanonical. rewrite Hc. set (t := canonicalSupervisorTaskName (sd_TaskName d)) in *.
  destruct (index_daemons (si_Daemons f) !! t) as [d2|] eqn:E1.
  { apply index_elem in E1 as [H2 Ht]. f_equal. apply Hu; [done|]. rewrite Ht. apply canonical_is_canonical. }
  pose proof (index_some _ _ Hd) as [d2 E2].
  assert (sd_TaskName d <> t) as Hne by congruence.
  assert (t = bs (sd_TaskName d)) as Et.
  { unfold t, canonicalSupervisorTaskName in *. by destruct (_ || _). }
  replace (has_prefix (bs "") t) with true by (rewrite Et; by destruct (sd_TaskName d)).
  replace (trim_prefix (bs "") t) with (sd_TaskName d) by (rewrite Et; by destruct (sd_TaskName d)).
  rewrite E2. apply index_elem in E2 as [H2 Ht]. f_equal. apply Hu; [done|]. by rewrite Ht.
Qed.

(** A reconcile swaps the caches and nothing else when every cached daemon is
    still wanted and none waits to be reaped. *)
Definition only_rewrites (f : SupervisorIntentFile) (c : controller) : Prop :=
  c_pendingReap c = ∅ /\ TaskNames c ⊆ taskNameSetFromIntent (Some f).
Definition swapped (f : SupervisorIntentFile) (stops : gmap string DaemonIntent) (c : controller) : controller :=
  daemonIntent_Refresh stops (IntentCache_Refresh (Some f) c).

Lemma scan_only_swaps f stops c :
  only_rewrites f c ->
  handleLoopEvent E (reap_scan_event (TaskNames c) f (Some stops) true) c = perform CloseDone (swapped f stops c).
Proof.
  intros [Hp Hn]. cbn. f_equal. unfold handleReapScan, applyReapSnapshot. cbv zeta.
  set (next := taskNameSetFromIntent (Some f)) in *. set (universe := elements (TaskNames c ∪ TaskNames c)).
  assert (Forall (fun t => t ∈ next) universe) as Hall.
  { apply Forall_forall. intros t Ht%elem_of_elements. set_solver. }
  assert (foldl (capture_step next) (c, ∅) universe = (c, ∅)) as ->.
  { clear -Hall. induction Hall as [|t l Ht _ IH]; [done|]. cbn [foldl capture_step]. by rewrite bool_decide_eq_true_2. }
  fold (swapped f stops c).
  assert (c_pendingReap (swapped f stops c) = ∅) as Hp' by done. fold (swapped f stops c). rewrite Hp', map_to_list_empty. cbn [foldl].
  clear Hp Hp' Hn. generalize (swapped f stops c). intros c1.
  assert (foldl (absent_step E next ∅) c1 universe = c1) as ->; [|done].
  induction Hall as [|t l Ht _ IH]; [done|]. cbn [foldl]. unfold absent_step at 2. rewrite bool_decide_eq_true_2 by done. exact IH.
Qed.

(** An event that makes a running daemon exit: it is told from the event which
    descriptor to terminate, and what is to follow. *)
Lemma running_exits c t d k ev q :
  e_terminate E <> TermNone -> is_canonical t -> ev = mkEvent (Ev k) t (ev_Body ev) ->
  (k = EvIntentUpdate \/ k = EvManualRestart) ->
  b_require_running_intent (ev_Body ev) = false -> b_runtime_cleared (ev_Body ev) = false ->
  b_idle_respawn_result (ev_Body ev) = false ->
  LookupCanonical c t = Some d -> c_smStates c !! t = Some StRunning ->
  (exists sd, Transition StRunning k (sm_context E ev c) = row StExiting sd true /\
     apply_queued_side t sd = setQueued t q /\ str_contains sd "reset failures" = false) ->
  let c' := handleLoopEvent E ev c in
  c_smStates c' !! t = Some StExiting /\ loadQueued c' t = q /\ c_daemonByTask c' = c_daemonByTask c /\ c_stops c' = c_stops c /\
  exists l x l', c_effects c' = c_effects c ++ l ++ CallTerm (descriptorForTerminateSideEffect (with_task_name d t) ev) x :: l'.
Proof.
  intros Hterm Hcan Hev Hk Hreq Hclr Hidle Hd Hs (sd&Htr&Hq&Hreset). cbv zeta.
  assert (ev_Kind ev = Ev k) as Ek by (by rewrite Hev). assert (ev_TaskName ev = t) as Et by (by rewrite Hev).
  unfold handleLoopEvent. rewrite Ek. unfold handle_sm_event. rewrite Et, Hcan, <- Hev.
  assert (restart_refused_by_intent E ev c = false) as ->
    by (unfold restart_refused_by_intent; rewrite Ek, Hreq; by destruct k).
  assert (stale_child_exit ev c = false) as -> by (unfold stale_child_exit; rewrite Ek; by destruct Hk; subst k).
  rewrite (bool_decide_eq_false_2 (k = EvChildExit)) by (by destruct Hk; subst k).
  assert (lookupDescriptorWithShadow c t = Some d) as -> by (unfold lookupDescriptorWithShadow; by rewrite Hd).
  unfold handle_routed. rewrite Et. assert (loadSM c t = StRunning) as -> by (unfold loadSM; by rewrite Hs).
  assert (timer_deferred_by_reap ev StRunning c = false) as ->
    by (unfold timer_deferred_by_reap; rewrite Ek; by destruct Hk; subst k).
  assert (clean_exit_while_running ev StRunning = false) as ->
    by (unfold clean_exit_while_running; rewrite Ek; by destruct Hk; subst k).
  assert (apply_cleared_runtime E ev StRunning c = (c, StRunning)) as ->.
  { unfold apply_cleared_runtime, supervisorLivenessRestartClearedRuntime. rewrite Ek, Hclr. by destruct Hk; subst k. }
  assert (maybeHandleBindRefusedExit E (with_task_name d t) ev StRunning c = (c, false)) as ->.
  { unfold maybeHandleBindRefusedExit, supervisorEventIsBindRefusedExit. rewrite Ek. by destruct Hk; subst k. }
  unfold run_transition. rewrite Htr. cbn [matched negb row side newState]. rewrite Et. unfold executeSideEffect.
  set (c1 := commit_transition E t StRunning (row StExiting sd true) c).
  assert (exists c0, routes_same c0 c1 /\ c_smStates c0 = <[t := StExiting]> (c_smStates c) /\
    c_queuedActions c0 = <[t := q]> (c_queuedActions c) /\ c_daemonByTask c0 = c_daemonByTask c /\ c_stops c0 = c_stops c /\
    c_effects c0 = c_effects c) as (c0&R1&S0&Q0&D0&T0&L0).
  { unfold c1, commit_transition. cbn [newState side persistBefore row]. rewrite Hq, Hreset.
    eexists. split; [apply routes_persist|]. cbn. unfold noteReallocDwellLeftRunning. by destruct (c_reallocDwell c !! _). }
  destruct (terminate_calls (with_task_name d t) ev c1 Hterm) as (x&R2).
  destruct (terminate_process E (with_task_name d t) ev c1) as [c2 err]. cbn [fst] in R2.
  unfold completeIdleRespawnEvent. rewrite Hidle.
  destruct R1 as [A1 A2 A3 A4 [l A5]], R2 as [B1 B2 B3 B4 [l' B5]]. cbn in *.
  unfold loadQueued. rewrite B1, B2, B3, B4, A1, A2, A3, A4, S0, Q0, D0, T0, !lookup_insert_eq. split_and!; [done..|].
  exists l, x, l'. by rewrite B5, A5, L0, <- !app_assoc.
Qed.

(** Everything that is to be posted is posted. *)
Lemma post_all n evs : (post_events (fun _ => None) (fun _ => None) n evs).1.1 = evs.
Proof.
  revert n. induction evs as [|ev evs IH]; intros n; [done|]. cbn. specialize (IH (S n)).
  destruct (post_events _ _ _ _) as [[l a] err]. cbn in *. by rewrite IH.
Qed.

(** The entry of one daemon, among those of the pass. *)
Lemma drift_entry wp reg now sched c all ds stops drift d :
  canonical_keys stops -> ds ⊆ all ->
  (forall d, d ∈ ds -> let t := canonicalTaskNameForReconcile (sd_TaskName d) in
     is_canonical (trim_prefix (bs "") t) -> trim_prefix (bs "") t = t) ->
  d ∈ ds ->
  exists s e, marks_later (orphan_task wp reg all) now stops s /\ canonical_keys s /\
    (drift_step wp reg true now sched c (s, []) d).2 = [e] /\
    e ∈ (foldl (drift_step wp reg true now sched c) (stops, drift) ds).2.
Proof.
  revert stops drift. induction ds as [|x ds IH]; intros stops drift Hk Hall Hn Hd; [by apply elem_of_nil in Hd|].
  destruct (drift_step_spec wp reg now sched c all stops drift x Hk) as (s1&e1&E1&M1&Hk1&_); [set_solver|apply Hn; set_solver|].
  destruct (drift_fold_spec wp reg now sched c all ds s1 (drift ++ [e1]) Hk1) as (s2&es&E2&_);
    [set_solver|intros; apply Hn; [set_solver|done]|].
  cbn [foldl]. rewrite E1. apply elem_of_cons in Hd as [->|Hd].
  - exists stops, e1. split; [apply marks_refl|]. split; [done|]. split; [|rewrite E2; set_solver].
    revert E1. unfold drift_step. destruct (lookupSchedulerState _ _). repeat case_match; intros [= _ Es]; cbn; 
      apply app_inv_head in Es; by rewrite Es.
  - destruct (IH s1 (drift ++ [e1]) Hk1) as (s&e&M&Hks&He&Hin); [set_solver|intros; apply Hn; [set_solver|done]|done|].
    exists s, e. split_and!; [by eapply marks_trans|done..].
Qed.

(** A running daemon that a reconcile looks at. *)
Record watched (wp : workspace_paths) (intent : SupervisorIntentFile) (c : controller) (d : SupervisorDaemon) (t : string)
    : Prop := mkWatched {
  wt_clean : intent_clean intent;
  wt_swap : only_rewrites intent c;
  wt_in : d ∈ si_Daemons intent;
  wt_name : t = canonicalSupervisorTaskName (sd_TaskName d);
  wt_unique : forall d2, d2 ∈ si_Daemons intent -> canonicalSupervisorTaskName (sd_TaskName d2) = t -> d2 = d;
  wt_running : c_smStates c !! t = Some StRunning;
  wt_term : e_terminate E <> TermNone;
}.

(** What the pass enqueues when nothing goes wrong: the swap, then the
    events; and what the swap makes of the controller. *)
Lemma pass_enqueues wp reg sched intent c d t :
  watched wp intent c d t ->
  exists stops posts s e, 
    (reconcile_pass wp reg true (e_now E) sched (Some intent) true (fun _ => None) c).2.1.1.2 =
      reap_scan_event (TaskNames c) (marked_intent intent stops) (Some stops) true :: posts /\
    marks_later (orphan_task wp reg (si_Daemons intent)) (e_now E) (si_Stops intent) stops /\
    marks_later (orphan_task wp reg (si_Daemons intent)) (e_now E) (si_Stops intent) s /\ canonical_keys s /\
    (drift_step wp reg true (e_now E) (index_tasks sched) c (s, []) d).2 = [e] /\
    (forall ev, drift_event c e = Some ev -> ev ∈ posts) /\
    let c1 := handleLoopEvent E (reap_scan_event (TaskNames c) (marked_intent intent stops) (Some stops) true) c in
    LookupCanonical c1 t = Some d /\ c_smStates c1 = c_smStates c /\ c_stops c1 = stops.
Proof.
  intros [[Hst Hnm] Hsw Hd Ht Hu _ _].
  destruct (drift_fold_spec wp reg (e_now E) (index_tasks sched) c (si_Daemons intent) (si_Daemons intent) (si_Stops intent) [])
    as (stops&es&Ef&Hm&_); [exact Hst|done|exact Hnm|].
  destruct (drift_entry wp reg (e_now E) (index_tasks sched) c (si_Daemons intent) (si_Daemons intent) (si_Stops intent) [] d)
    as (s&e&Ms&Hks&He&Hin); [exact Hst|done|exact Hnm|done|]. rewrite Ef in Hin. cbn [snd app] in Hin.
  exists stops, (omap (drift_event c) es), s, e. split.
  { unfold reconcile_pass, compute_drift, UnifiedStopsFile, StopsAsDaemonIntentFile. cbn [default from_option id]. rewrite Ef.
    cbn [app]. unfold applyReconcileDrift. rewrite omap_app, scheduler_orphans_silent, app_nil_r.
    pose proof (post_all 0 (omap (drift_event c) es)) as Hp. destruct (post_events _ _ _ _) as [[l a] err]. cbn in *. by rewrite Hp. }
  split_and!; [done..| |].
  - intros ev Hev. apply list_elem_of_omap. by exists e.
  - assert (si_Daemons (marked_intent intent stops) = si_Daemons intent) as Ed by (unfold marked_intent; by case_bool_decide).
    rewrite scan_only_swaps by (destruct Hsw; split; [done|]; cbn [taskNameSetFromIntent]; by rewrite Ed).
    split; [|done]. rewrite Ht. apply (lookup_unique _ (marked_intent intent stops)); [done|by rewrite Ed|].
    rewrite Ed. intros d2 H2 E2. apply Hu; [done|]. by rewrite E2.
Qed.

Definition reconcile_events (wp : workspace_paths) (reg : option (list WorkspaceEntry)) (sched : list (string * string))
    (intent : SupervisorIntentFile) (c : controller) : list LoopEvent :=
  (reconcile_pass wp reg true (e_now E) sched (Some intent) true (fun _ => None) c).2.1.1.2.
(** The scheduler has no task of the name, or one in such a state. *)
Definition scheduler_allows (states : list string) (sched : list (string * string)) (t : string) : Prop :=
  match index_tasks sched !! t with None => True | Some state => normalizeSchedulerState state ∈ states end.

(** C30: a stop reaches its daemon.  A reconcile applies a file that holds a
    binding stop of a running daemon.  Suppose the daemon's name is its own
    among the daemons of the file, the scheduler has its task as running or
    stopped or has none (any other state is left to manual review), no cached
    daemon is missing from the file and none waits to be reaped, every event can
    be posted, and the terminate callback is wired.  Then, whatever the descriptors and the drift of the
    other daemons, the first event enqueued brings the stop to the controller,
    a later one is for the daemon, and once the loop has handled these two the
    daemon is exiting, nothing is queued to follow, and the terminate callback
    has been called for it. *)
Theorem stop_reaches_daemon wp reg sched intent c d t :
  watched wp intent c d t -> stop_binds (e_now E) (si_Stops intent) t = true ->
  scheduler_allows [ReconcileSchedulerStateRunning; ReconcileSchedulerStateStopped] sched t ->
  exists swap posts, reconcile_events wp reg sched intent c = swap :: posts /\
    event (Ev EvIntentUpdate) t ∈ posts /\
    let c' := handleLoopEvent E (event (Ev EvIntentUpdate) t) (handleLoopEvent E swap c) in
    c_smStates c' !! t = Some StExiting /\ loadQueued c' t = "" /\
    exists l x l', c_effects c' = c_effects (handleLoopEvent E swap c) ++ l ++ CallTerm (with_task_name d t) x :: l'.
Proof.
  intros Hw Hb Hsched. destruct (pass_enqueues wp reg sched intent c d t Hw) as (stops&posts&s&e&Ee&Hm&Ms&Hks&He&Hev&Hd1&Hs1&Hst1).
  set (swap := reap_scan_event _ _ _ _) in *. exists swap, posts. split; [exact Ee|]. destruct Hw as [[_ Hnm] _ Hin Hn _ Hrun Hterm].
  split.
  - apply Hev. revert He. unfold drift_step, scheduler_allows, lookupSchedulerState in *. rewrite canonical_reconcile, <- Hn.
    rewrite (desired_spec _ s t Hks) by (rewrite Hn, <- canonical_reconcile; by apply Hnm).
    assert (stop_binds (e_now E) s t = true) as -> by (unfold stop_binds in *; by rewrite (marks_stopped _ _ _ _ _ Ms Hb)).
    assert (loadSM c t = StRunning) as -> by (unfold loadSM; by rewrite Hrun).
    destruct (index_tasks sched !! t) as [state|]; intros [= <-]; [|done].
    unfold drift_event. cbn [de_Action de_TaskName andb]. unfold classifyDriftAction. revert Hsched.
    generalize (normalizeSchedulerState state). intros ss Hsched. repeat (apply elem_of_cons in Hsched as [->|Hsched]); [done..|by apply elem_of_nil in Hsched].
  - set (c1 := handleLoopEvent E swap c) in *. cbv zeta.
    destruct (running_exits c1 t d EvIntentUpdate (event (Ev EvIntentUpdate) t) "" Hterm) as (H1&H2&_&_&H5);
      [rewrite Hn; apply canonical_is_canonical|done|by left|done..|by rewrite Hs1| |split; [exact H1|]; split; [exact H2|exact H5]].
    exists "issue terminate, queued_action=none". split; [|split; reflexivity]. unfold sm_context, intent_now, daemonIntent_Lookup. cbn [ev_TaskName event].
    rewrite Hst1, (marks_stopped _ _ _ _ _ Hm Hb). rewrite binds_active in Hb. apply active_desired in Hb. by rewrite Hb.
Qed.

(** A rewritten descriptor replaces the process it started.  When the
    file has another command, port, environment or runtime specification for
    a running daemon that stays wanted, the apply brings the new descriptor to
    the controller and posts a restart that carries the old one: once the loop
    has handled these two, the terminate callback has been called with the
    old descriptor, a respawn is queued, and the exit of the process leads to
    a spawn, of the new descriptor. *)
Theorem rewrite_replaces_daemon wp reg sched intent c d t old :
  watched wp intent c d t -> stop_binds (e_now E) (si_Stops intent) t = false -> orphaned wp reg d = false ->
  LookupCanonical c t = Some old -> supervisorDescriptorSpawnDrift (Some old) (Some d) = true ->
  scheduler_allows [ReconcileSchedulerStateRunning] sched t ->
  exists swap posts restart, reconcile_events wp reg sched intent c = swap :: posts /\
    restart ∈ posts /\ ev_TaskName restart = t /\
    let c' := handleLoopEvent E restart (handleLoopEvent E swap c) in
    (exists l x l', c_effects c' = c_effects (handleLoopEvent E swap c) ++ l ++ CallTerm old x :: l') /\
    c_smStates c' !! t = Some StExiting /\ LookupCanonical c' t = Some d /\
    (e_graceful E = false -> forall exit, ev_TaskName exit = t ->
       spawns (Transition StExiting EvChildExit (sm_context E exit c')) = true).
Proof.
  intros Hw Hb Ho Hold Hdr Hsched. destruct (pass_enqueues wp reg sched intent c d t Hw) as (stops&posts&s&e&Ee&Hm&Ms&Hks&He&Hev&Hd1&Hs1&Hst1).
  set (swap := reap_scan_event _ _ _ _) in *.
  assert (drift_event c e = Some (restart_with (Some old) t)) as Er.
  { destruct Hw as [[_ Hnm] _ Hin Hn Hu Hrun _].
    revert He. unfold drift_step, scheduler_allows, lookupSchedulerState in *. rewrite canonical_reconcile, <- Hn.
    rewrite (desired_spec _ s t Hks) by (rewrite Hn, <- canonical_reconcile; by apply Hnm).
    assert (stop_binds (e_now E) s t = false) as ->.
    { destruct (Ms t) as [E1|(_&_&d2&H2&E2&H3)]; [unfold stop_binds in *; by rewrite E1|]. rewrite (Hu d2) in H3 by done. congruence. }
    unfold orphaned in Ho. rewrite <- andb_assoc, Ho, andb_false_r.
    assert (loadSM c t = StRunning) as -> by (unfold loadSM; by rewrite Hrun). rewrite Hold.
    destruct (index_tasks sched !! t) as [state|]; intros [= <-]; unfold drift_event; cbn [de_Action de_TaskName];
      unfold classifyDriftAction; rewrite Hdr, Hold; [|done]. revert Hsched.
    generalize (normalizeSchedulerState state). intros ss Hsched. repeat (apply elem_of_cons in Hsched as [->|Hsched]); [done..|by apply elem_of_nil in Hsched]. }
  exists swap, posts, (restart_with (Some old) t).
  split; [exact Ee|]. split; [by apply Hev|]. split; [done|].
  destruct Hw as [_ _ Hin Hn _ Hrun Hterm]. set (c1 := handleLoopEvent E swap c) in *. cbv zeta.
  destruct (running_exits c1 t d EvManualRestart (restart_with (Some old) t) "respawn" Hterm) as (H1&H2&H3&_&H5);
    [rewrite Hn; apply canonical_is_canonical|done|by right|done..|by rewrite Hs1| |].
  { exists "issue terminate, queued_action=respawn". split; [|split; reflexivity]. unfold sm_context. by destruct (intent_now _ _ _). }
  split_and!; [exact H5|exact H1|unfold LookupCanonical; by rewrite H3|].
  intros Hg exit Hx. unfold sm_context. destruct (intent_now _ _ _). unfold Transition. cbn [GracefulInProgress QueuedAction].
  by rewrite Hg, Hx, H2.
Qed.
End Effective.

(** ** A supervisor with the memory server running *)
Section Witnesses.
#[local] Existing Instance ideal_digest.

Definition plain_paths : workspace_paths := mkPaths (fun p => Ok p) (fun p => Ok p) (fun p => p).
Definition stop_file : SupervisorIntentFile := demo_intent 2 (si_Daemons two_daemons) {[ memory_task := demo_stop ]}.
Definition moved_file : SupervisorIntentFile := demo_intent 2 [demo_daemon memory_task 9200; demo_daemon time_task 9124] ∅.
(** A language server whose workspace was unregistered, still running. *)
Definition orphan_task_name : string := bs "mcp-local-hub-lsp-0f3a9c12-go".
Definition orphan_daemon : SupervisorDaemon :=
  mkDaemon None orphan_task_name "gopls-mcp" "go" "/usr/bin/mcphub"
    ["daemon"; "workspace-proxy"; "--workspace"; "/src/hub"; "--language"; "go"] "" ∅ "/src/hub" 9400 "" 120 None.
Definition orphan_file : SupervisorIntentFile := demo_intent 2 [demo_daemon memory_task 9123; orphan_daemon] ∅.
Definition w_orphan : controller := w_running <| c_smStates ::= insert orphan_task_name StRunning |>.

Lemma demo_clean ds stops gen :
  forallb (fun kv => canonicalSupervisorTaskName kv.1 =s kv.1) (map_to_list stops) = true ->
  forallb (fun d => let t := canonicalTaskNameForReconcile (sd_TaskName d) in
                    negb (canonicalSupervisorTaskName (trim_prefix (bs "") t) =s trim_prefix (bs "") t)) ds = true ->
  intent_clean (demo_intent gen ds stops).
Proof.
  intros Hs Hd. split.
  - intros k [v Hk]. rewrite forallb_forall in Hs. specialize (Hs (k, v)). rewrite <- list_elem_of_In, elem_of_map_to_list in Hs.
    by apply String.eqb_eq, Hs.
  - intros d Hin t Ht. rewrite forallb_forall in Hd. specialize (Hd d). rewrite <- list_elem_of_In in Hd.
    specialize (Hd Hin). cbn zeta in Hd. apply negb_true_iff, String.eqb_neq in Hd. done.
Qed.
Lemma demo_watched f d :
  f = stop_file /\ d = demo_daemon memory_task 9123 \/ f = moved_file /\ d = demo_daemon memory_task 9200 ->
  watched demo_env plain_paths f w_running d memory_task.
Proof.
  intros [[-> ->]|[-> ->]]; (split; [by apply demo_clean| |set_solver|reflexivity| |vm_compute; reflexivity|discriminate]).
  1, 3: split; [vm_compute; reflexivity|apply (bool_decide_unpack _); vm_compute; exact I].
  all: intros d2 [->|[->|H]%elem_of_cons]%elem_of_cons; [done|discriminate|by apply elem_of_nil in H].
Qed.

(** The proxy of the unregistered workspace is told to stop. *)
Definition orphan_pass : list DriftEntry * (controller * list LoopEvent * Z * option error) :=
  reconcile_pass plain_paths (Some []) true (e_now demo_env) [] (Some orphan_file) true (fun _ => None) w_orphan.
Lemma reconcile_events_justified_witness :
  orphan_pass.2.1.1.2 !! 1%nat = Some (event (Ev EvIntentUpdate) orphan_task_name) /\
  exists stops, marks_later (orphan_task plain_paths (Some []) (si_Daemons orphan_file)) (e_now demo_env) ∅ stops /\
    b_reap_stops (ev_Body (default (event (Ev EvStart) "") (head orphan_pass.2.1.1.2))) = Some stops.
Proof.
  split; [vm_compute; reflexivity|].
  assert (intent_clean orphan_file) as Hc by (by apply demo_clean).
  destruct (reconcile_events_justified demo_env plain_paths (Some []) [] orphan_file true (fun _ => None) w_orphan
              orphan_pass.1 orphan_pass.2.1.1.1 orphan_pass.2.1.1.2 orphan_pass.2.1.2 orphan_pass.2.2 Hc) as (_&stops&Hm&Hev).
  { unfold orphan_pass. by destruct (reconcile_pass _ _ _ _ _ _ _ _ _) as [? [[[? ?] ?] ?]]. }
  exists stops. split; [exact Hm|].
  assert (exists ev, head orphan_pass.2.1.1.2 = Some ev /\ ev_Kind ev = evReapScan) as (ev&E1&E2)
    by (eexists; split; vm_compute; reflexivity).
  rewrite E1. cbn [default from_option id]. destruct (Hev ev) as [[-> _]|(d&k&_&Hk&_)]; [|done|congruence].
  destruct (orphan_pass.2.1.1.2); [done|]. injection E1 as ->. left.
Defined.

Lemma stop_reaches_daemon_witness :
  exists swap posts, reconcile_events demo_env plain_paths None [(memory_task, "Ready")] stop_file w_running = swap :: posts /\
    c_smStates (handleLoopEvent demo_env (event (Ev EvIntentUpdate) memory_task) (handleLoopEvent demo_env swap w_running))
      !! memory_task = Some StExiting.
Proof.
  destruct (stop_reaches_daemon demo_env plain_paths None [(memory_task, "Ready")] stop_file w_running
              (demo_daemon memory_task 9123) memory_task (demo_watched _ _ (or_introl (conj eq_refl eq_refl)))
              ltac:(vm_compute; reflexivity)) as (swap&posts&H1&_&H2&_).
  { vm_compute. apply list_elem_of_further, list_elem_of_here. }
  exists swap, posts. split; [exact H1|exact H2].
Defined.

Lemma rewrite_replaces_daemon_witness :
  exists swap posts restart, reconcile_events demo_env plain_paths None [] moved_file w_running = swap :: posts /\
    restart ∈ posts /\
    LookupCanonical (handleLoopEvent demo_env restart (handleLoopEvent demo_env swap w_running)) memory_task
      = Some (demo_daemon memory_task 9200).
Proof.
  destruct (rewrite_replaces_daemon demo_env plain_paths None [] moved_file w_running
              (demo_daemon memory_task 9200) memory_task (demo_daemon memory_task 9123)
              (demo_watched _ _ (or_intror (conj eq_refl eq_refl))))
    as (swap&posts&restart&H1&H2&_&_&_&H3&_); [vm_compute; reflexivity..|exact I|].
  exists swap, posts, restart. split; [exact H1|]. split; [exact H2|exact H3].
Defined.

(** A stop of the operator that has outlived its day no longer binds: the
    reconcile asks for the daemon, and the controller, which reads the
    recorded wish, leaves it idle. *)
Definition old_stop : DaemonIntent := mkDaemonIntent IntentDesiredStopped IntentReasonUserStop (noon - 25 * Hour).
Definition expired_file : SupervisorIntentFile := demo_intent 2 (si_Daemons two_daemons) {[ memory_task := old_stop ]}.
Example expired_stop_not_revived :
  let loaded := demo_run [demo_load] demo_boot in
  let evs := reconcile_events demo_env plain_paths None [] expired_file loaded in
  stop_binds (e_now demo_env) (si_Stops expired_file) memory_task = false /\
  (In (event (Ev EvIntentUpdate) memory_task) evs) /\
  let c := demo_run evs loaded in
  loadSM c memory_task = StIdle /\ existsb (String.eqb memory_task) (spawned_names (c_effects c)) = false /\
  existsb (String.eqb time_task) (spawned_names (c_effects c)) = true.
Proof. vm_compute. tauto. Qed.

(** A scheduler task left in state Ready hides the rewritten descriptor of a
    running daemon: it gets an intent update that no row of the table
    matches. *)
Example residual_task_hides_rewrite :
  let evs := reconcile_events demo_env plain_paths None [(memory_task, "Ready")] moved_file w_running in
  let c := demo_run evs w_running in
  (In (event (Ev EvIntentUpdate) memory_task) evs) /\
  terminated_names (c_effects c) = [] /\ loadSM c memory_task = StRunning.
Proof. vm_compute. tauto. Qed.
End Witnesses.
