(* ===== verification/Liveness.v ===== *)
(** * Liveness: the periodic sweep over the running daemons.

    [cli/supervise_liveness.go]: the liveness verdict on one daemon, and the
    sweep that turns verdicts into events for the controller's loop, with
    its latches, its use of the squatter reap, and its second pass over the
    quarantined daemons. *)
From S2P Require Import Prelude GoTime StateMachine Intent Descriptor StateFile Readiness Tracker Lifecycle Backoff.
From S2P Require Import Termination CommandLine Classifier Controller SpawnGate Loop Scenario Squatter Policy.
Open Scope Z_scope.

Definition supervisorPortBindGrace : duration := 5 * Second.
Definition reasonMissingPID : string := "missing_pid".
Definition reasonPIDDead : string := "pid_dead".
Definition reasonPIDIdentityMissing : string := "pid_identity_missing".
Definition reasonPIDIdentityMismatch : string := "pid_identity_mismatch".
Definition reasonPortOwnerUnverified : string := "port_owner_unverified".
Definition reasonPortUnbound : string := "port_unbound".
Definition reasonPortOwnerSelf : string := "port_owner_self".
Definition reasonPortOwnerMismatch : string := "port_owner_mismatch".

(** ** The verdict *)

(** [supervisorLivenessProbe], with what [supervisorSelfPIDFn] answers.  The
    two probes that may be nil are options; the other two have defaults. *)
Record supervisorLivenessProbe := mkProbe {
  lp_PIDAlive : Z -> bool;
  lp_PIDIdentity : option (PIDIdentityProof -> option error);
  lp_PortLive : Z -> bool;
  lp_PortOwnerPID : option (Z -> res (option Z));
  lp_selfPID : option Z;
}.

Definition ErrProcessIdentityUnsupported : error :=
  sentinel "process.ErrProcessIdentityUnsupported" "process identity proof unsupported".

(** [daemonExpectedIdentityExe]; [canonicalMcphubPath()] is an argument. *)
Definition daemonExpectedIdentityExe (x : exe_lookup) (canonicalMcphubPath command : string) : string :=
  let resolve (exe : string) : string :=
    let exe := default exe (xl_abs x exe) in
    let exe := default exe (xl_evalSymlinks x exe) in
    xl_clean x exe in
  if command =s "" then canonicalMcphubPath
  else if xl_base x command =s command then
    match xl_lookPath x command with Some looked => resolve looked | None => canonicalMcphubPath end
  else resolve command.

Inductive supervisorLivenessOwnershipProof :=
| ProofNone | ProofPortOwnerPID | ProofPIDIdentityAndTCP | ProofTCPOnly.
#[global] Instance OwnershipProof_eq_dec : EqDecision supervisorLivenessOwnershipProof.
Proof. solve_decision. Defined.

Record supervisorLivenessVerdict := mkVerdict {
  lv_Live : bool; lv_Reason : string; lv_PortBound : bool; lv_IdentityDetail : string;
  lv_OwnershipProof : supervisorLivenessOwnershipProof; lv_StrongOwnershipUnavailable : bool;
}.
Definition dead (reason : string) : supervisorLivenessVerdict := mkVerdict false reason false "" ProofNone false.
Definition alive_unbound : supervisorLivenessVerdict := mkVerdict true "" false "" ProofNone false.

Definition TargetReady (v : supervisorLivenessVerdict) : bool :=
  if negb (lv_Live v) || negb (lv_PortBound v) then false
  else match lv_OwnershipProof v with
       | ProofPortOwnerPID | ProofPIDIdentityAndTCP => true
       | ProofTCPOnly => lv_StrongOwnershipUnavailable v
       | ProofNone => false
       end.

(** Whether the daemon started less than the grace ago. *)
Definition within_grace (entry : DaemonRuntimeEntry) (now : time) (bindGrace : duration) : bool :=
  negb (IsZero (te_StartedAt entry)) && (time_Sub now (te_StartedAt entry) <? bindGrace).

(** What the identity probe establishes: a final verdict, or whether the
    identity is verified or unsupported here. *)
Inductive identity_result := IdentityFinal (v : supervisorLivenessVerdict) | IdentityOpen (verified unsupported : bool).
Definition identity_check (expectedExe : string) (entry : DaemonRuntimeEntry) (probe : supervisorLivenessProbe)
    : identity_result :=
  match lp_PIDIdentity probe with
  | None => IdentityOpen false false
  | Some verify =>
      if IsZero (te_StartedAt entry) then IdentityFinal (dead reasonPIDIdentityMissing)
      else if expectedExe =s "" then IdentityFinal (dead reasonPIDIdentityMissing)
      else
        match verify (mkProof (te_CurrentPID entry) expectedExe "" (FormatRFC3339Nano (te_StartedAt entry)) 0) with
        | None => IdentityOpen true false
        | Some err =>
            if errors_Is err ErrProcessIdentityUnsupported then IdentityOpen false true
            else if errors_Is err ErrProcessAlreadyExited then IdentityFinal (dead reasonPIDDead)
            else IdentityFinal (mkVerdict false reasonPIDIdentityMismatch false (err_text err) ProofNone false)
        end
  end.

Definition supervisorDaemonLivenessVerdictWithProbe (expectedExe : string) (d : SupervisorDaemon)
    (entry : DaemonRuntimeEntry) (now : time) (probe : supervisorLivenessProbe) (bindGrace : duration)
    : supervisorLivenessVerdict :=
  if te_CurrentPID entry <=? 0 then dead reasonMissingPID
  else if negb (lp_PIDAlive probe (te_CurrentPID entry)) then dead reasonPIDDead
  else
    match identity_check expectedExe entry probe with
    | IdentityFinal v => v
    | IdentityOpen verified unsupported =>
        if sd_Port d <=? 0 then alive_unbound
        else
          match lp_PortOwnerPID probe with
          | Some portOwner =>
              match portOwner (sd_Port d) with
              | Err _ => if within_grace entry now bindGrace then alive_unbound else dead reasonPortOwnerUnverified
              | Ok None => if within_grace entry now bindGrace then alive_unbound else dead reasonPortUnbound
              | Ok (Some ownerPID) =>
                  if match lp_selfPID probe with Some self => ownerPID =? self | None => false end
                  then dead reasonPortOwnerSelf
                  else if negb (ownerPID =? te_CurrentPID entry) then dead reasonPortOwnerMismatch
                  else mkVerdict true "" true "" ProofPortOwnerPID false
              end
          | None =>
              if negb (lp_PortLive probe (sd_Port d))
              then (if within_grace entry now bindGrace then alive_unbound else dead reasonPortUnbound)
              else
                let proof := if verified then ProofPIDIdentityAndTCP else ProofTCPOnly in
                mkVerdict true "" true "" proof (bool_decide (proof = ProofTCPOnly) && unsupported)
          end
    end.

Definition supervisorLivenessReasonHasLivePID (reason : string) : bool :=
  (reason =s reasonPortUnbound) || (reason =s reasonPortOwnerMismatch) || (reason =s reasonPortOwnerSelf) ||
  (reason =s reasonPortOwnerUnverified).

(** ** The sweep *)

(** The latches of the monitor goroutine, and what a sweep has done so far. *)
Record sweep_state := mkSweep {
  sw_bindLatch : gmap string Z;
  sw_mismatchLatch : gmap string (Z * Z);
  sw_unresolvedEmitted : gset string;
  sw_limiter : option squatterReapLimiter;
  sw_mismatched : gset string;
  sw_seen : gset string;
  sw_effects : list squatter_effect;
  sw_posts : list LoopEvent;
}.
Definition sweep_eta (r : sweep_state) : sweep_state :=
  mkSweep (sw_bindLatch r) (sw_mismatchLatch r) (sw_unresolvedEmitted r) (sw_limiter r) (sw_mismatched r)
    (sw_seen r) (sw_effects r) (sw_posts r).
#[global] Instance set_sw_bindLatch : Setter sw_bindLatch := ltac:(derive_setter sweep_eta sw_bindLatch).
#[global] Instance set_sw_mismatchLatch : Setter sw_mismatchLatch := ltac:(derive_setter sweep_eta sw_mismatchLatch).
#[global] Instance set_sw_unresolved : Setter sw_unresolvedEmitted := ltac:(derive_setter sweep_eta sw_unresolvedEmitted).
#[global] Instance set_sw_limiter : Setter sw_limiter := ltac:(derive_setter sweep_eta sw_limiter).
#[global] Instance set_sw_mismatched : Setter sw_mismatched := ltac:(derive_setter sweep_eta sw_mismatched).
#[global] Instance set_sw_seen : Setter sw_seen := ltac:(derive_setter sweep_eta sw_seen).
#[global] Instance set_sw_effects : Setter sw_effects := ltac:(derive_setter sweep_eta sw_effects).
#[global] Instance set_sw_posts : Setter sw_posts := ltac:(derive_setter sweep_eta sw_posts).

(** What a sweep is given: the intent it reads, the probes, the squatter
    reap ([squatterReap], if wired), and what the tracker holds when it is
    read again for a task. *)
Record sweep_env := mkSweepEnv {
  sv_now : time;
  sv_intent : SupervisorIntentFile;
  sv_resolve : manifestPortDeadlineResolveFn;
  sv_probe : supervisorLivenessProbe;
  sv_canonicalMcphubPath : string;
  sv_squatter : squatter_env;
  sv_reapFn : option (SupervisorDaemon -> PIDIdentityProof -> list squatter_effect * option error);
  sv_stopped : option (string -> bool);
  sv_fresh : string -> gmap string DaemonRuntimeEntry;
}.

Definition sweep_audit (ev task : string) (st : sweep_state) : sweep_state :=
  st <| sw_effects ::= fun l => l ++ [SqAudit ev "liveness" task] |>.

Section Sweep.
Variable V : sweep_env.

Definition by_task : gmap string SupervisorDaemon :=
  foldl (fun m d => <[canonicalSupervisorTaskName (sd_TaskName d) := d]> m) ∅ (si_Daemons (sv_intent V)).

(** The row of a daemon that should have a port and has none, once per task. *)
Definition audit_unresolved_port (d : SupervisorDaemon) (task : string) (st : sweep_state) : sweep_state :=
  let manifest := match DescriptorServerDaemon d with Some _ => true | None => false end in
  if (manifest || IsSerenaProxyDescriptor d || IsWorkspaceLSPProxyDescriptor d) && (sd_Port d <=? 0) &&
     negb (bool_decide (task ∈ sw_unresolvedEmitted st))
  then sweep_audit "daemon-port-unresolved" task (st <| sw_unresolvedEmitted ::= union {[task]} |>)
  else st.

(** The owner of a port, or 0 if the probe does not tell. *)
Definition owner_or_zero (port : Z) : Z :=
  match lp_PortOwnerPID (sv_probe V) with
  | Some f => match f port with Ok (Some pid) => pid | _ => 0 end
  | None => 0
  end.

(** The event for a daemon that is not live. *)
Definition stale_event (task : string) (entry : DaemonRuntimeEntry) (reason : string) : LoopEvent :=
  let restart := supervisorLivenessReasonNeedsRestart reason in
  mkEvent (Ev (if restart then EvManualRestart else EvChildExit)) task
    (mkBody (Some (te_CurrentPID entry)) (Some (te_PIDGeneration entry)) None None false reason
       (restart && negb (supervisorLivenessReasonHasLivePID reason)) false false None None None None false 0 None
       reallocOutcomeFailed 0 0 0 None).
Definition post_stale (task : string) (entry : DaemonRuntimeEntry) (reason : string) (st : sweep_state) : sweep_state :=
  sweep_audit "daemon-running-state-stale" task st <| sw_posts ::= fun l => l ++ [stale_event task entry reason] |>.

(** The first strike of an identity mismatch is only remembered. *)
Definition first_strike (task : string) (entry : DaemonRuntimeEntry) (st : sweep_state) : bool :=
  bool_decide (sw_mismatchLatch st !! task <> Some (te_PIDGeneration entry, te_CurrentPID entry)).

Definition not_live (snap : gmap string DaemonRuntimeEntry) (d : SupervisorDaemon) (task : string)
    (entry : DaemonRuntimeEntry) (reason : string) (st : sweep_state) : sweep_state :=
  let neverBound := bool_decide (sw_bindLatch st !! task <> Some (te_PIDGeneration entry)) in
  let st := if (reason =s reasonPortUnbound) && neverBound then sweep_audit "daemon-bind-timeout" task st else st in
  if reason =s reasonPortOwnerUnverified then sweep_audit "daemon-port-owner-unverified" task st
  else if reason =s reasonPortOwnerMismatch then
    let '(l, effs, o) :=
      handleSquatterMismatchOnSweep (sv_squatter V) (sv_reapFn V) d (owner_or_zero (sd_Port d)) snap (sv_now V)
        (sw_limiter st) in
    let st := st <| sw_limiter := l |> <| sw_effects ::= fun es => es ++ effs |> in
    match o with
    | squatterSweepObserveOnly => st
    | squatterSweepReapedFallThrough => post_stale task entry reason st
    end
  else if reason =s reasonPIDIdentityMismatch then
    let st := st <| sw_mismatched ::= union {[task]} |> in
    if first_strike task entry st
    then sweep_audit "daemon-identity-mismatch-pending" task
           (st <| sw_mismatchLatch ::= insert task (te_PIDGeneration entry, te_CurrentPID entry) |>)
    else post_stale task entry reason st
  else post_stale task entry reason st.

Definition resolved_port (d : SupervisorDaemon) : SupervisorDaemon :=
  match EffectiveDaemonPort d (sv_resolve V) with Some port => with_port d port | None => d end.

(** The verdict of the sweep: before the first bind of this generation the
    daemon has until its startup deadline, after it five seconds. *)
Definition sweep_verdict (d : SupervisorDaemon) (entry : DaemonRuntimeEntry) (latched : option Z) : supervisorLivenessVerdict :=
  let startupDeadline := EffectiveStartupBindDeadlineSeconds d (sv_resolve V) * Second in
  let grace :=
    if bool_decide (latched = Some (te_PIDGeneration entry)) then supervisorPortBindGrace else startupDeadline in
  supervisorDaemonLivenessVerdictWithProbe
    (daemonExpectedIdentityExe (sq_exe (sv_squatter V)) (sv_canonicalMcphubPath V) (sd_Command d))
    (resolved_port d) entry (sv_now V) (sv_probe V) grace.

(** One entry of the first pass. *)
Definition sweep_running (snap : gmap string DaemonRuntimeEntry) (st : sweep_state)
    (kv : string * DaemonRuntimeEntry) : sweep_state :=
  let task := canonicalSupervisorTaskName kv.1 in
  let entry := kv.2 in
  if negb (te_State entry =s daemonRuntimeStateRunning) || (te_CurrentPID entry <=? 0) then st
  else
    match by_task !! task with
    | None => st
    | Some d =>
        let st := st <| sw_seen ::= union {[task]} |> in
        let st := match EffectiveDaemonPort d (sv_resolve V) with Some _ => st | None => audit_unresolved_port d task st end in
        let v := sweep_verdict d entry (sw_bindLatch st !! task) in
        let d := resolved_port d in
        let st := if lv_PortBound v then st <| sw_bindLatch ::= insert task (te_PIDGeneration entry) |> else st in
        if lv_Live v then st else not_live snap d task entry (lv_Reason v) st
    end.

(** One entry of the second pass: a quarantined daemon whose own lost child
    holds its port. *)
Definition sweep_quarantined (st : sweep_state) (kv : string * DaemonRuntimeEntry) : sweep_state :=
  let task := canonicalSupervisorTaskName kv.1 in
  if negb (te_State kv.2 =s daemonRuntimeStateQuarantine) then st
  else
    match by_task !! task with
    | None => st
    | Some d =>
        if match sv_stopped V with Some stopped => stopped task | None => false end then st
        else
          match EffectiveDaemonPort d (sv_resolve V) with
          | None => st
          | Some port =>
              if port <=? 0 then st
              else
                let d := with_port d port in
                match lp_PortOwnerPID (sv_probe V) with
                | None => st
                | Some portOwner =>
                    match portOwner port with
                    | Ok (Some ownerPID) =>
                        let st := st <| sw_seen ::= union {[task]} |> in
                        let fresh := sv_fresh V task in
                        match fresh !! task with
                        | None => st
                        | Some now_entry =>
                            if negb (te_State now_entry =s daemonRuntimeStateQuarantine) then st
                            else
                              let '(l, effs, o) :=
                                reapSquatterForAutomaticTrigger (sv_squatter V) d ownerPID fresh
                                  squatterSourceQuarantineSweep (sv_now V) (sw_limiter st) in
                              let st := st <| sw_limiter := l |> <| sw_effects ::= fun es => es ++ effs |> in
                              match o with
                              | squatterAutoReaped => st <| sw_posts ::= fun ps => ps ++ [automatic_restart task] |>
                              | _ => st
                              end
                        end
                    | _ => st
                    end
                end
          end
    end.

(** The end of a sweep: the latches of the tasks that were not seen, the
    strikes of the tasks that did not mismatch, and the limiter's entries. *)
Definition prune_latches (st : sweep_state) : sweep_state :=
  let st := st <| sw_bindLatch ::= filter (fun kv => kv.1 ∈ sw_seen st) |> in
  let st := st <| sw_mismatchLatch ::= filter (fun kv => kv.1 ∈ sw_mismatched st) |> in
  match sv_reapFn V with
  | Some _ => st <| sw_limiter ::= fun l => pruneAbsent l (sw_seen st) |>
  | None => st
  end.

Definition fresh_sweep (st : sweep_state) : sweep_state :=
  mkSweep (sw_bindLatch st) (sw_mismatchLatch st) (sw_unresolvedEmitted st) (sw_limiter st) ∅ ∅ [] [].

(** [sweepSupervisorLivenessOnce] on the latches left by the sweep before.
    Go visits the snapshot in an unspecified order; here it is that of
    [map_to_list]. *)
Definition sweepSupervisorLivenessOnce (t : DaemonRuntimeTracker) (st : sweep_state) : sweep_state :=
  let snap := Snapshot t in
  let st := foldl (sweep_running snap) (fresh_sweep st) (map_to_list snap) in
  let st :=
    match sv_reapFn V with
    | Some _ => foldl sweep_quarantined st (map_to_list snap)
    | None => st
    end in
  prune_latches st.
End Sweep.

(** ** Properties *)

(** *** The verdict *)

(** What a positive settlement verdict rests on: the process is alive, its
    identity verified, missing or unsupported on this platform, and the port
    is its own as far as this platform can tell. *)
Lemma target_ready_iff exe d entry now probe grace :
  TargetReady (supervisorDaemonLivenessVerdictWithProbe exe d entry now probe grace) = true <->
  0 < te_CurrentPID entry /\ lp_PIDAlive probe (te_CurrentPID entry) = true /\ 0 < sd_Port d /\
  exists verified unsupported, identity_check exe entry probe = IdentityOpen verified unsupported /\
    match lp_PortOwnerPID probe with
    | Some f => f (sd_Port d) = Ok (Some (te_CurrentPID entry)) /\ lp_selfPID probe <> Some (te_CurrentPID entry)
    | None => lp_PortLive probe (sd_Port d) = true /\ (verified = true \/ unsupported = true)
    end.
Proof.
  unfold supervisorDaemonLivenessVerdictWithProbe.
  destruct (Z.leb_spec (te_CurrentPID entry) 0); [split; [done|lia]|].
  destruct (lp_PIDAlive probe (te_CurrentPID entry)); cbn [negb]; [|split; [done|naive_solver]].
  destruct (identity_check exe entry probe) as [v|vf us] eqn:Hi.
  { assert (lv_Live v = false) as Hv.
    { unfold identity_check in Hi. repeat case_match; by simplify_eq/=. }
    unfold TargetReady. rewrite Hv. split; [done|naive_solver]. }
  destruct (Z.leb_spec (sd_Port d) 0); [split; [done|lia]|].
  destruct (lp_PortOwnerPID probe) as [f|].
  - destruct (f (sd_Port d)) as [[o|]|err];
      [|by (destruct (within_grace _ _ _); (split; [done|naive_solver]))..].
    destruct (lp_selfPID probe) as [self|].
    + destruct (Z.eqb_spec o self) as [->|]; [split; [done|naive_solver]|].
      destruct (Z.eqb_spec o (te_CurrentPID entry)) as [->|]; cbn; [|split; [done|naive_solver]].
      split; [|done]. intros _. split_and!; [lia|done|lia|]. exists vf, us. split_and!; [done|done|congruence].
    + destruct (Z.eqb_spec o (te_CurrentPID entry)) as [->|]; cbn; [|split; [done|naive_solver]].
      split; [|done]. intros _. split_and!; [lia|done|lia|]. by exists vf, us.
  - destruct (lp_PortLive probe (sd_Port d)); cbn [negb];
      [|by (destruct (within_grace _ _ _); (split; [done|naive_solver]))].
    destruct vf, us; cbn; split; try done; try (intros; split_and!; [lia|done|lia|]; eauto 6); naive_solver.
Qed.

(** *** What a sweep may ask the controller

    Why a daemon that runs in the snapshot is reported: its verdict, with
    the latches that the sweep before left, and for the ambiguous reasons
    the evidence beyond it. *)
Record stale_reason (V : sweep_env) (snap : gmap string DaemonRuntimeEntry) (latched : option Z)
    (strike : option (Z * Z)) (effs : list squatter_effect) (task : string) (entry : DaemonRuntimeEntry)
    (reason : string) : Prop := mkStale {
  st_running : te_State entry = daemonRuntimeStateRunning /\ 0 < te_CurrentPID entry;
  st_verdict : exists d, by_task V !! task = Some d /\
    lv_Live (sweep_verdict V d entry latched) = false /\ lv_Reason (sweep_verdict V d entry latched) = reason /\
    (reason = reasonPortOwnerMismatch -> exists d' proof, d' = resolved_port V d /\ In (d', proof) (kills effs) /\
       condemned (sv_squatter V) d' (owner_or_zero V (sd_Port d')) snap proof);
  st_known : reason <> reasonPortOwnerUnverified;
  st_strike : reason = reasonPIDIdentityMismatch -> strike = Some (te_PIDGeneration entry, te_CurrentPID entry);
}.

(** Why a quarantined daemon is restarted. *)
Record heal_reason (V : sweep_env) (effs : list squatter_effect) (task : string) (entry : DaemonRuntimeEntry) : Prop := mkHeal {
  he_quarantined : te_State entry = daemonRuntimeStateQuarantine;
  he_wanted : forall stopped, sv_stopped V = Some stopped -> stopped task = false;
  he_fresh : exists e, sv_fresh V task !! task = Some e /\ te_State e = daemonRuntimeStateQuarantine;
  he_killed : exists d proof, In (d, proof) (kills effs) /\ canonicalSupervisorTaskName (sd_TaskName d) = task /\
    condemned (sv_squatter V) d (pp_PID proof) (sv_fresh V task) proof;
}.

Inductive justified (V : sweep_env) (snap : gmap string DaemonRuntimeEntry) (st0 : sweep_state)
    (effs : list squatter_effect) : LoopEvent -> Prop :=
| justified_stale task entry reason :
    snap !! task = Some entry ->
    stale_reason V snap (sw_bindLatch st0 !! task) (sw_mismatchLatch st0 !! task) effs task entry reason ->
    justified V snap st0 effs (stale_event task entry reason)
| justified_heal task entry :
    snap !! task = Some entry -> heal_reason V effs task entry ->
    justified V snap st0 effs (automatic_restart task).

(** Why a process is killed: it is the verified lost child of a daemon that
    runs in the snapshot and is not live because another process owns its
    port, or of a quarantined daemon that is not stopped and is still
    quarantined when looked at again; and it owns the port of that daemon. *)
Inductive kill_justified (V : sweep_env) (snap : gmap string DaemonRuntimeEntry) (st0 : sweep_state)
    : SupervisorDaemon * PIDIdentityProof -> Prop :=
| kill_foreign task entry d proof :
    snap !! task = Some entry -> te_State entry = daemonRuntimeStateRunning -> 0 < te_CurrentPID entry ->
    by_task V !! task = Some d ->
    lv_Live (sweep_verdict V d entry (sw_bindLatch st0 !! task)) = false ->
    lv_Reason (sweep_verdict V d entry (sw_bindLatch st0 !! task)) = reasonPortOwnerMismatch ->
    condemned (sv_squatter V) (resolved_port V d) (owner_or_zero V (sd_Port (resolved_port V d))) snap proof ->
    kill_justified V snap st0 (resolved_port V d, proof)
| kill_quarantined task entry d port portOwner proof :
    snap !! task = Some entry -> te_State entry = daemonRuntimeStateQuarantine -> by_task V !! task = Some d ->
    (forall stopped, sv_stopped V = Some stopped -> stopped task = false) ->
    (exists e, sv_fresh V task !! task = Some e /\ te_State e = daemonRuntimeStateQuarantine) ->
    EffectiveDaemonPort d (sv_resolve V) = Some port -> 0 < port ->
    lp_PortOwnerPID (sv_probe V) = Some portOwner -> portOwner port = Ok (Some (pp_PID proof)) ->
    condemned (sv_squatter V) (with_port d port) (pp_PID proof) (sv_fresh V task) proof ->
    kill_justified V snap st0 (with_port d port, proof).
Lemma kill_justified_fresh V snap st x : kill_justified V snap (fresh_sweep st) x -> kill_justified V snap st x.
Proof. intros []; [by eapply kill_foreign|by eapply kill_quarantined]. Qed.

Lemma kills_In_app x a b : In x (kills a) -> In x (kills (a ++ b)).
Proof. rewrite kills_app. intros. apply in_or_app. by left. Qed.

Lemma justified_mono V snap st0 effs effs' ev :
  justified V snap st0 effs ev -> justified V snap st0 (effs ++ effs') ev.
Proof.
  intros [task entry reason Hs [R (d&Hd&Hl&Hr&Hm) U S]|task entry Hs [Q W F (d&p&Hk&Ht&Hc)]].
  - apply justified_stale; [done|]. split; try done. exists d. split_and!; try done.
    intros Hx. destruct (Hm Hx) as (d'&p&He&Hk&Hc). exists d', p. split_and!; try done. by apply kills_In_app.
  - eapply justified_heal; [done|]. split; try done. exists d, p. split_and!; try done. by apply kills_In_app.
Qed.

Lemma justified_fresh V snap st effs ev : justified V snap (fresh_sweep st) effs ev -> justified V snap st effs ev.
Proof. intros []; [by apply justified_stale|by eapply justified_heal]. Qed.

(** One entry of a pass touches the latches of its own task, appends
    effects, and posts at most one event, about its own task. *)
Record pass_step (V : sweep_env) (snap : gmap string DaemonRuntimeEntry) (want : string) (st0 st st' : sweep_state)
    (task : string) : Prop := mkPass {
  ps_latches : forall j, j <> task ->
    sw_bindLatch st' !! j = sw_bindLatch st !! j /\ sw_mismatchLatch st' !! j = sw_mismatchLatch st !! j;
  ps_posts : exists es ps, sw_effects st' = sw_effects st ++ es /\ sw_posts st' = sw_posts st ++ ps /\
    Forall (kill_justified V snap st0) (kills es) /\
    (ps = [] \/ exists ev, ps = [ev] /\ ev_TaskName ev = task /\ justified V snap st0 (sw_effects st') ev /\
       exists e, snap !! task = Some e /\ te_State e = want);
}.

Lemma pass_silent V snap want st0 st st' task es :
  sw_effects st' = sw_effects st ++ es -> sw_posts st' = sw_posts st -> Forall (kill_justified V snap st0) (kills es) ->
  (forall j, j <> task -> sw_bindLatch st' !! j = sw_bindLatch st !! j /\ sw_mismatchLatch st' !! j = sw_mismatchLatch st !! j) ->
  pass_step V snap want st0 st st' task.
Proof. intros He Hp Hk Hl. split; [done|]. exists es, []. rewrite app_nil_r. split_and!; [done|done|done|by left]. Qed.

Lemma pass_stale V snap st0 st st' task entry reason es :
  snap !! task = Some entry ->
  sw_effects st' = sw_effects st ++ es -> sw_posts st' = sw_posts st -> Forall (kill_justified V snap st0) (kills es) ->
  sw_bindLatch st' = sw_bindLatch st -> sw_mismatchLatch st' = sw_mismatchLatch st ->
  stale_reason V snap (sw_bindLatch st0 !! task) (sw_mismatchLatch st0 !! task) (sw_effects st') task entry reason ->
  pass_step V snap daemonRuntimeStateRunning st0 st (post_stale task entry reason st') task.
Proof.
  intros Hs He Hp Hk Hb Hm Hr. split; [intros j _; cbn; by rewrite Hb, Hm|].
  exists (es ++ [SqAudit "daemon-running-state-stale" "liveness" task]), [stale_event task entry reason].
  split_and!; [cbn; by rewrite He, <- app_assoc|cbn; by rewrite Hp|by rewrite kills_app, app_nil_r|].
  right. eexists. split_and!; [done|done| |].
  - cbn. apply justified_mono. by apply justified_stale.
  - exists entry. split; [done|]. apply (st_running _ _ _ _ _ _ _ _ Hr).
Qed.

(** A sweep falls through to the restart only after a kill. *)
Lemma squatter_fall_through V d ownerPID snap now l :
  (forall f, sv_reapFn V = Some f -> kills_once (sv_squatter V) f) ->
  let '(_, effs, o) := handleSquatterMismatchOnSweep (sv_squatter V) (sv_reapFn V) d ownerPID snap now l in
  (forall x, In x (kills effs) -> exists proof, x = (d, proof) /\ condemned (sv_squatter V) d ownerPID snap proof) /\
  (o = squatterSweepObserveOnly \/
   (o = squatterSweepReapedFallThrough /\
    exists proof, kills effs = [(d, proof)] /\ condemned (sv_squatter V) d ownerPID snap proof)).
Proof.
  intros Hf. unfold handleSquatterMismatchOnSweep. destruct (sv_reapFn V) as [f|]; [|by split; [|left]].
  pose proof (trigger_kills _ f d ownerPID snap squatterSourceSweep now l (Hf f eq_refl)) as Hk.
  destruct (classify_and_reap _ _ _ _ _ _ _ _) as [[l' effs] o].
  destruct Hk as [(Hk&Hn&_)|(p&Hk&Hc&_)].
  - split; [by rewrite Hk|]. left. by destruct o.
  - split; [rewrite Hk; intros x [<-|[]]; by exists p|]. destruct o; try by left. right. eauto.
Qed.

Lemma not_live_pass V snap st0 st d0 task entry :
  (forall f, sv_reapFn V = Some f -> kills_once (sv_squatter V) f) ->
  snap !! task = Some entry -> te_State entry = daemonRuntimeStateRunning -> 0 < te_CurrentPID entry ->
  by_task V !! task = Some d0 ->
  sw_mismatchLatch st !! task = sw_mismatchLatch st0 !! task ->
  let v := sweep_verdict V d0 entry (sw_bindLatch st0 !! task) in
  lv_Live v = false ->
  pass_step V snap daemonRuntimeStateRunning st0 st (not_live V snap (resolved_port V d0) task entry (lv_Reason v) st) task.
Proof.
  intros Hf Hs Hrun Hpid Hd Hlatch v Hv. unfold not_live. cbn zeta.
  set (st1 := if (lv_Reason v =s reasonPortUnbound) && _ then _ else st).
  assert (exists es, sw_effects st1 = sw_effects st ++ es /\ sw_posts st1 = sw_posts st /\ sw_bindLatch st1 = sw_bindLatch st /\
    sw_mismatchLatch st1 = sw_mismatchLatch st /\ kills es = []) as (es&He&Hp&Hb&Hm&Hes).
  { unfold st1. destruct (_ && _); [by eexists|]. exists []. by rewrite app_nil_r. }
  assert (Hquiet : forall l, kills l = [] -> Forall (kill_justified V snap st0) (kills (es ++ l)))
    by (intros l Hl; rewrite kills_app, Hes, Hl; constructor).
  clearbody st1. destruct (lv_Reason v =s reasonPortOwnerUnverified) eqn:Hu.
  { eapply pass_silent; [cbn; rewrite He, <- app_assoc; done|done|by apply Hquiet|]. cbn. by rewrite Hb, Hm. }
  assert (forall effs, (lv_Reason v = reasonPortOwnerMismatch -> exists d' proof, d' = resolved_port V d0 /\
      In (d', proof) (kills effs) /\ condemned (sv_squatter V) d' (owner_or_zero V (sd_Port d')) snap proof) ->
    (lv_Reason v = reasonPIDIdentityMismatch -> sw_mismatchLatch st0 !! task = Some (te_PIDGeneration entry, te_CurrentPID entry)) ->
    stale_reason V snap (sw_bindLatch st0 !! task) (sw_mismatchLatch st0 !! task) effs task entry (lv_Reason v)) as Hst.
  { intros effs H1 H2. breflect. split; try done. by exists d0. }
  destruct (lv_Reason v =s reasonPortOwnerMismatch) eqn:Ho.
  - apply str_eqb_true in Ho. pose proof (squatter_fall_through V (resolved_port V d0)
      (owner_or_zero V (sd_Port (resolved_port V d0))) snap (sv_now V) (sw_limiter st1) Hf) as Hq.
    destruct (handleSquatterMismatchOnSweep _ _ _ _ _ _ _) as [[l effs] o].
    destruct Hq as [Hall Hq].
    assert (Hkills : Forall (kill_justified V snap st0) (kills (es ++ effs))).
    { rewrite kills_app, Hes. apply Forall_forall. intros x Hx%list_elem_of_In. destruct (Hall x Hx) as (p&->&Hc).
      by eapply kill_foreign. }
    destruct Hq as [->|(->&p&Hk&Hc)].
    + eapply pass_silent; [cbn; rewrite He, <- app_assoc; done|done|done|]. cbn. by rewrite Hb, Hm.
    + eapply pass_stale; [done|cbn; rewrite He, <- app_assoc; done|done..|]. apply Hst; [|by rewrite Ho].
      intros _. exists (resolved_port V d0), p. split_and!; [done| |done].
      cbn. rewrite kills_app, Hk. apply in_or_app. right. by left.
  - destruct (lv_Reason v =s reasonPIDIdentityMismatch) eqn:Hi.
    + unfold first_strike.
      change (sw_mismatchLatch (st1 <| sw_mismatched ::= _ |>)) with (sw_mismatchLatch st1). rewrite Hm, Hlatch.
      case_bool_decide as Hb1.
      * eapply pass_silent; [cbn; rewrite He, <- app_assoc; done|done|by apply Hquiet|].
        intros j Hj. cbn. by rewrite Hb, Hm, lookup_insert_ne.
      * eapply pass_stale; [done|done|done|by rewrite Hes|done..|]. apply Hst; [by breflect|]. done.
    + eapply pass_stale; [done|done|done|by rewrite Hes|done..|]. apply Hst; by breflect.
Qed.

Lemma by_task_name V k d : by_task V !! k = Some d -> canonicalSupervisorTaskName (sd_TaskName d) = k.
Proof.
  unfold by_task. assert (forall l (m : gmap string SupervisorDaemon),
    (forall k d, m !! k = Some d -> canonicalSupervisorTaskName (sd_TaskName d) = k) ->
    forall k d, foldl (fun m d => <[canonicalSupervisorTaskName (sd_TaskName d) := d]> m) m l !! k = Some d ->
      canonicalSupervisorTaskName (sd_TaskName d) = k) as H; [|by apply H].
  induction l as [|x l IH]; intros m Hm; [done|]. cbn. apply IH. intros j e. rewrite lookup_insert_Some. naive_solver.
Qed.

Lemma sweep_running_pass V snap st0 st k entry :
  (forall f, sv_reapFn V = Some f -> kills_once (sv_squatter V) f) ->
  snap !! k = Some entry -> is_canonical k ->
  sw_bindLatch st !! k = sw_bindLatch st0 !! k -> sw_mismatchLatch st !! k = sw_mismatchLatch st0 !! k ->
  pass_step V snap daemonRuntimeStateRunning st0 st (sweep_running V snap st (k, entry)) k.
Proof.
  intros Hf Hs Hk Hb Hm. unfold sweep_running. cbn [fst snd]. rewrite Hk. cbn zeta.
  assert (forall st', st' = st -> pass_step V snap daemonRuntimeStateRunning st0 st st' k) as Hid
    by (intros ? ->; eapply (pass_silent _ _ _ _ _ _ _ []); by rewrite ?app_nil_r || constructor).
  destruct (negb (te_State entry =s daemonRuntimeStateRunning) || (te_CurrentPID entry <=? 0)) eqn:Hr; [by apply Hid|].
  destruct (by_task V !! k) as [d0|] eqn:Hd; [|by apply Hid].
  set (st1 := match EffectiveDaemonPort d0 (sv_resolve V) with Some _ => _ | None => _ end).
  assert (exists es, sw_effects st1 = sw_effects st ++ es /\ sw_posts st1 = sw_posts st /\ sw_bindLatch st1 = sw_bindLatch st /\
    sw_mismatchLatch st1 = sw_mismatchLatch st /\ kills es = []) as (es&He&Hp&Hb1&Hm1&Hes).
  { unfold st1, audit_unresolved_port. destruct (EffectiveDaemonPort _ _); [by exists []; rewrite app_nil_r|].
    destruct (_ && _); [by eexists|by exists []; rewrite app_nil_r]. }
  clearbody st1. rewrite Hb1, Hb. set (v := sweep_verdict V d0 entry _).
  set (st2 := if lv_PortBound v then _ else st1).
  assert (sw_effects st2 = sw_effects st ++ es /\ sw_posts st2 = sw_posts st /\ sw_mismatchLatch st2 = sw_mismatchLatch st /\
    forall j, j <> k -> sw_bindLatch st2 !! j = sw_bindLatch st !! j) as (He2&Hp2&Hm2&Hb2).
  { unfold st2. destruct (lv_PortBound v); cbn; rewrite ?He, ?Hp, ?Hm1, ?Hb1; split_and!; try done.
    intros j Hj. by rewrite lookup_insert_ne. }
  clearbody st2. destruct (lv_Live v) eqn:Hv.
  { eapply pass_silent; [done|done|by rewrite Hes|]. intros j Hj. by rewrite Hb2, Hm2. }
  breflect. destruct Hr as [Hrun Hpid].
  destruct (not_live_pass V snap st0 st2 d0 k entry) as [L (es'&ps&E&P&K&J)]; [done..|by rewrite Hm2|done|].
  split.
  - intros j Hj. destruct (L j Hj) as [L1 L2]. split; [etransitivity; [apply L1|by apply Hb2]|].
    etransitivity; [apply L2|by rewrite Hm2].
  - exists (es ++ es'), ps. split_and!; [|rewrite <- Hp2; apply P|by rewrite kills_app, Hes|apply J].
    etransitivity; [apply E|]. by rewrite He2, app_assoc.
Qed.

Lemma sweep_quarantined_pass V snap st0 st k entry :
  snap !! k = Some entry -> is_canonical k ->
  pass_step V snap daemonRuntimeStateQuarantine st0 st (sweep_quarantined V st (k, entry)) k.
Proof.
  intros Hs Hk. unfold sweep_quarantined. cbn [fst snd]. rewrite Hk. cbn zeta.
  assert (forall st' es, sw_effects st' = sw_effects st ++ es -> sw_posts st' = sw_posts st ->
    Forall (kill_justified V snap st0) (kills es) -> sw_bindLatch st' = sw_bindLatch st -> sw_mismatchLatch st' = sw_mismatchLatch st -> pass_step V snap daemonRuntimeStateQuarantine st0 st st' k) as Hid
    by (intros st' es He Hp Hkj Hb Hm; eapply (pass_silent _ _ _ _ _ _ _ es); [done|done|done|]; by rewrite Hb, Hm).
  assert (Hsame : pass_step V snap daemonRuntimeStateQuarantine st0 st st k) by (apply (Hid st []); rewrite ?app_nil_r; by try constructor).
  assert (Hseen : pass_step V snap daemonRuntimeStateQuarantine st0 st (st <| sw_seen ::= union {[k]} |>) k)
    by (apply (Hid _ []); rewrite ?app_nil_r; by try constructor).
  destruct (negb (te_State entry =s daemonRuntimeStateQuarantine)) eqn:Hq; [done|].
  destruct (by_task V !! k) as [d0|] eqn:Hd; [|done].
  destruct (match sv_stopped V with Some stopped => stopped k | None => false end) eqn:Hst; [done|].
  destruct (EffectiveDaemonPort d0 (sv_resolve V)) as [port|] eqn:Hport; [|done].
  destruct (Z.leb_spec port 0); [done|].
  destruct (lp_PortOwnerPID (sv_probe V)) as [f|] eqn:Hfn; [|done].
  destruct (f port) as [[ownerPID|]|] eqn:Hown; [|done..].
  destruct (sv_fresh V k !! k) as [e|] eqn:He; [|done].
  destruct (negb (te_State e =s daemonRuntimeStateQuarantine)) eqn:Hq2; [done|]. breflect.
  assert (Hwant : forall stopped, sv_stopped V = Some stopped -> stopped k = false) by (intros stopped Hw; by rewrite Hw in Hst).
  unfold reapSquatterForAutomaticTrigger.
  pose proof (trigger_kills (sv_squatter V) _ (with_port d0 port) ownerPID (sv_fresh V k) squatterSourceQuarantineSweep
    (sv_now V) (sw_limiter (st <| sw_seen ::= union {[k]} |>)) (auto_kills_once _)) as Hk1.
  destruct (classify_and_reap _ _ _ _ _ _ _ _) as [[l effs] o].
  assert (Hkj : Forall (kill_justified V snap st0) (kills effs)).
  { destruct Hk1 as [(->&_)|(p&->&Hc&_)]; [constructor|]. apply Forall_singleton.
    assert (Hpp : pp_PID p = ownerPID) by (by destruct Hc as (id&_&Hpid&_)). subst ownerPID.
    eapply kill_quarantined; eauto. }
  destruct Hk1 as [(_&Hn&_)|(p&Hkill&Hc&_)]; [by destruct o; try (by apply (Hid _ effs))|].
  destruct o; try (by apply (Hid _ effs)).
  split; [done|]. exists effs, [automatic_restart k]. split_and!; [done|done|done|]. right. eexists.
  split_and!; [done|done| |by exists entry]. eapply justified_heal; [done|]. split; [done|done|by exists e|].
  - exists (with_port d0 port), p. cbn. rewrite kills_app, Hkill. split_and!.
    + apply in_or_app. right. by left.
    + apply by_task_name in Hd. done.
    + destruct Hc as (id&Hp&Hpid&Ho). exists id. split_and!; [done|done|by rewrite Hpid].
Qed.

(** A whole pass. *)
Record pass_done (V : sweep_env) (snap : gmap string DaemonRuntimeEntry) (want : string) (st0 st st' : sweep_state)
    (tasks : list string) : Prop := mkPassDone {
  pd_latches : forall j, j ∉ tasks ->
    sw_bindLatch st' !! j = sw_bindLatch st !! j /\ sw_mismatchLatch st' !! j = sw_mismatchLatch st !! j;
  pd_posts : exists es ps, sw_effects st' = sw_effects st ++ es /\ sw_posts st' = sw_posts st ++ ps /\
    Forall (kill_justified V snap st0) (kills es) /\ NoDup (ev_TaskName <$> ps) /\
    Forall (fun ev => ev_TaskName ev ∈ tasks /\ justified V snap st0 (sw_effects st') ev /\
      exists e, snap !! ev_TaskName ev = Some e /\ te_State e = want) ps;
}.

Lemma pass_fold V snap want st0 ref f (l : list (string * DaemonRuntimeEntry)) st :
  NoDup l.*1 ->
  (forall st k e, (k, e) ∈ l -> sw_bindLatch st !! k = sw_bindLatch ref !! k ->
     sw_mismatchLatch st !! k = sw_mismatchLatch ref !! k -> pass_step V snap want st0 st (f st (k, e)) k) ->
  (forall k, k ∈ l.*1 -> sw_bindLatch st !! k = sw_bindLatch ref !! k /\ sw_mismatchLatch st !! k = sw_mismatchLatch ref !! k) ->
  pass_done V snap want st0 st (foldl f st l) l.*1.
Proof.
  revert st. induction l as [|[k e] l IH]; intros st Hn Hf Hl.
  { split; [done|]. exists [], []. rewrite !app_nil_r. split_and!; [done|done|constructor|apply NoDup_nil_2|done]. }
  cbn [fmap list_fmap fst] in Hn. apply NoDup_cons in Hn as [Hk Hn].
  destruct (Hl k) as [Hb Hm]; [by left|].
  destruct (Hf st k e ltac:(by left) Hb Hm) as [L (es&ps&E&P&K&J)]. cbn [foldl].
  destruct (IH (f st (k, e))) as [L' (es'&ps'&E'&P'&K'&N&F)]; [done|by intros; apply Hf; [right|..]| |].
  { intros j Hj. destruct (Hl j ltac:(by right)). assert (j <> k) by congruence. destruct (L j ltac:(done)). split; congruence. }
  split.
  - intros j Hj. cbn [fmap list_fmap fst] in Hj. apply not_elem_of_cons in Hj as [Hjk Hj].
    destruct (L j Hjk), (L' j Hj). split; congruence.
  - exists (es ++ es'), (ps ++ ps'). split_and!.
    + by rewrite app_assoc, <- E.
    + by rewrite app_assoc, <- P.
    + rewrite kills_app. by apply Forall_app.
    + destruct J as [->|(ev&->&Ht&_)]; [done|]. cbn. apply NoDup_cons. split; [|done].
      rewrite Ht. intros (ev'&Hev&Hin)%list_elem_of_fmap. rewrite Forall_forall in F. apply F in Hin as [Hin _].
      by rewrite <- Hev in Hin.
    + apply Forall_app. split.
      * destruct J as [->|(ev&->&Ht&Hj&He)]; [done|]. apply Forall_singleton. rewrite Ht. split_and!; [by left| |done].
        rewrite E'. by apply justified_mono.
      * eapply Forall_impl; [exact F|]. intros ev (?&?&?). split_and!; [by right|done|done].
Qed.

Lemma sweep_posts_ok V t st :
  tracker_wf t -> (forall f, sv_reapFn V = Some f -> kills_once (sv_squatter V) f) ->
  let st' := sweepSupervisorLivenessOnce V t st in
  NoDup (ev_TaskName <$> sw_posts st') /\
  Forall (justified V (Snapshot t) st (sw_effects st')) (sw_posts st') /\
  Forall (kill_justified V (Snapshot t) st) (kills (sw_effects st')).
Proof.
  intros Hwf Hf st'. set (snap := Snapshot t).
  assert (forall k e, (k, e) ∈ map_to_list snap -> snap !! k = Some e /\ is_canonical k) as Hin.
  { intros k e Hk%elem_of_map_to_list. split; [done|]. by apply (Hwf k e) in Hk as [? _]. }
  pose proof (NoDup_fst_map_to_list snap) as Hn.
  pose proof (pass_fold V snap daemonRuntimeStateRunning (fresh_sweep st) (fresh_sweep st) (sweep_running V snap) (map_to_list snap)
    (fresh_sweep st) Hn) as Hrun.
  destruct Hrun as [_ (es&ps&E&P&K&N&F)].
  { intros st1 k e Hk Hb Hm. destruct (Hin k e Hk). by apply sweep_running_pass. }
  { done. }
  set (st1 := foldl (sweep_running V snap) (fresh_sweep st) (map_to_list snap)) in *.
  set (st2 := match sv_reapFn V with Some _ => foldl (sweep_quarantined V) st1 (map_to_list snap) | None => st1 end).
  assert (exists es2 ps2, sw_effects st2 = sw_effects st1 ++ es2 /\ sw_posts st2 = ps ++ ps2 /\
    Forall (kill_justified V snap (fresh_sweep st)) (kills es2) /\ NoDup (ev_TaskName <$> ps2) /\
    Forall (fun ev => justified V snap (fresh_sweep st) (sw_effects st2) ev /\
      exists e, snap !! ev_TaskName ev = Some e /\ te_State e = daemonRuntimeStateQuarantine) ps2) as (es2&ps2&E2&P2&K2&N2&F2).
  { unfold st2. destruct (sv_reapFn V);
      [|exists [], []; rewrite !app_nil_r; split_and!; [done|exact P|constructor|apply NoDup_nil_2|done]].
    pose proof (pass_fold V snap daemonRuntimeStateQuarantine (fresh_sweep st) st1 (sweep_quarantined V)
      (map_to_list snap) st1 Hn) as Hq.
    destruct Hq as [_ (es2&ps2&E2&P2&K2&N2&F2)].
    { intros st3 k e Hk _ _. destruct (Hin k e Hk). by apply sweep_quarantined_pass. }
    { done. }
    exists es2, ps2. rewrite P2, P. split_and!; [done|done|done|done|].
    eapply Forall_impl; [exact F2|]. by intros ev (_&?&?). }
  assert (sw_effects st' = sw_effects st2 /\ sw_posts st' = sw_posts st2) as [-> ->]
    by (unfold st', sweepSupervisorLivenessOnce, prune_latches; fold snap; fold st1; fold st2; by destruct (sv_reapFn V)).
  rewrite P2. split_and!.
  - rewrite fmap_app. apply NoDup_app. split_and!; [done| |done].
    intros k (ev&->&Hev)%list_elem_of_fmap (ev2&Heq&Hev2)%list_elem_of_fmap. rewrite Forall_forall in F, F2.
    destruct (F _ Hev) as (_&_&e1&He1&Hs1), (F2 _ Hev2) as (_&e2&He2&Hs2). rewrite Heq in He1. rewrite He1 in He2. injection He2 as <-.
    rewrite Hs1 in Hs2. discriminate.
  - apply Forall_app. split.
    + eapply Forall_impl; [exact F|]. intros ev (_&Hj&_). apply justified_fresh. rewrite E2. by apply justified_mono.
    + eapply Forall_impl; [exact F2|]. intros ev [Hj _]. by apply justified_fresh.
  - rewrite E2, E, !kills_app. eapply Forall_impl; [|apply kill_justified_fresh].
    apply Forall_app. split; [|done]. by apply Forall_app.
Qed.

Lemma sweep_posts_justified V t st :
  tracker_wf t -> (forall f, sv_reapFn V = Some f -> kills_once (sv_squatter V) f) ->
  Forall (justified V (Snapshot t) st (sw_effects (sweepSupervisorLivenessOnce V t st)))
    (sw_posts (sweepSupervisorLivenessOnce V t st)).
Proof. intros. by apply sweep_posts_ok. Qed.

(** C10: a sweep asks only for what it has evidence for.  Every event a sweep
    posts is about a different daemon, and either reports a running daemon
    whose verdict, with the deadline that applies, is that it is not live
    (never because a probe failed; for an identity mismatch, only if the
    sweep before saw the same process mismatch; for a foreign port owner,
    only after the verified lost child on the port was killed), or restarts
    a quarantined daemon that is not stopped, is still quarantined when
    looked at again, and whose own lost child was just killed.  And every
    process it kills owns the port of a daemon and is verified as the lost
    child of that daemon, which either runs and is not live because another process
    owns its port, or is quarantined, twice seen so, and not stopped. *)
Theorem sweep_justified V t st :
  tracker_wf t -> (forall f, sv_reapFn V = Some f -> kills_once (sv_squatter V) f) ->
  let st' := sweepSupervisorLivenessOnce V t st in
  NoDup (ev_TaskName <$> sw_posts st') /\
  Forall (justified V (Snapshot t) st (sw_effects st')) (sw_posts st') /\
  Forall (kill_justified V (Snapshot t) st) (kills (sw_effects st')).
Proof. apply sweep_posts_ok. Qed.

(** *** The sweep and the controller *)

(** By the time the loop handles an event of the sweep, the exit it reports
    is that of a process that has been replaced by one of a later generation,
    or the daemon it restarts by itself has been stopped by the operator. *)
Definition overtaken (E : env) (t : DaemonRuntimeTracker) (c : controller) (ev : LoopEvent) : Prop :=
  (ev_Kind ev = Ev EvChildExit /\ exists e e', Get t (ev_TaskName ev) = Some e /\
     Get (c_tracker c) (ev_TaskName ev) = Some e' /\ 0 < te_PIDGeneration e < te_PIDGeneration e') \/
  (ev = automatic_restart (ev_TaskName ev) /\
     (intent_now E c (ev_TaskName ev)).2 = true).

Section Overtaken.
Context `{Digest}.

(** What a sweep asks for is checked again.  The sweep runs beside the
    loop, on a snapshot; if a daemon it reports as exited has been started
    again by the time the loop handles the event, or one it wants restarted
    by itself has been stopped, the event is inert: it cannot disown the new
    process, and it cannot undo the stop. *)
Theorem overtaken_sweep_inert V t st E c ev :
  tracker_wf t -> (forall f, sv_reapFn V = Some f -> kills_once (sv_squatter V) f) ->
  In ev (sw_posts (sweepSupervisorLivenessOnce V t st)) -> overtaken E t c ev ->
  inert c (handleLoopEvent E ev c).
Proof.
  intros Hwf Hf Hev Ho.
  assert (justified V (Snapshot t) st (sw_effects (sweepSupervisorLivenessOnce V t st)) ev) as Hj
    by (eapply Forall_forall; [by apply sweep_posts_justified|by apply list_elem_of_In]).
  destruct Hj as [task entry reason Hs [[_ Hpid] _ _ _]|task entry Hs _].
  - destruct Ho as [[Hk (e&e'&He&He'&Hgen&Hlt)]|[Heq _]]; [|discriminate Heq].
    destruct (Hwf task entry Hs) as [Hcan _].
    unfold Get in He. cbn in Hk, He, He'. rewrite Hcan in He. unfold Snapshot in Hs. rewrite Hs in He. injection He as <-.
    eapply filtered_inert; [exact Hk|]. right. left. unfold stale_child_exit, canonical_event. cbn.
    injection Hk as Hk. unfold Get in *. rewrite Hcan in *. rewrite Hcan, He'. breflect. lia.
  - destruct Ho as [[Hk _]|[_ Hstop]]; [discriminate Hk|].
    eapply filtered_inert; [done|]. left. unfold restart_refused_by_intent, canonical_event. cbn.
    destruct (Hwf task entry Hs) as [Hcan _]. rewrite Hcan. cbn in Hstop. destruct (intent_now E c task). cbn in Hstop.
    rewrite Hstop. apply orb_true_r.
Qed.
End Overtaken.

(** ** A sweep that finds a dead process *)
Definition swept_tracker : DaemonRuntimeTracker :=
  apply_op (OpMarkSpawned memory_task 4242 noon) NewDaemonRuntimeTracker.
Definition dead_probe : supervisorLivenessProbe := mkProbe (fun _ => false) None (fun _ => false) None None.
Definition sweep_example : sweep_env :=
  mkSweepEnv noon two_daemons (fun _ _ => None) dead_probe "mcphub" squatter_example
    (Some (production_reap squatter_example)) None (fun _ => Snapshot swept_tracker).
Definition no_latches : sweep_state := mkSweep ∅ ∅ ∅ (Some newSquatterReapLimiter) ∅ ∅ [] [].

Example sweep_reports_death :
  (fun ev => (ev_Kind ev, ev_TaskName ev, b_reason (ev_Body ev), b_pid_generation (ev_Body ev))) <$>
    sw_posts (sweepSupervisorLivenessOnce sweep_example swept_tracker no_latches) =
  [(Ev EvChildExit, memory_task, reasonPIDDead, Some 1)].
Proof. vm_compute. done. Qed.

Lemma swept_wf : tracker_wf swept_tracker.
Proof. apply apply_op_wf; [apply (demo_op_ok (demo_daemon memory_task 9123))|apply empty_tracker_wf]. Qed.

Lemma sweep_example_reap f : sv_reapFn sweep_example = Some f -> kills_once (sv_squatter sweep_example) f.
Proof. intros [= <-]. apply production_kills_once. Qed.

Lemma sweep_justified_witness :
  length (sw_posts (sweepSupervisorLivenessOnce sweep_example swept_tracker no_latches)) = 1%nat /\
  Forall (justified sweep_example (Snapshot swept_tracker) no_latches
      (sw_effects (sweepSupervisorLivenessOnce sweep_example swept_tracker no_latches)))
    (sw_posts (sweepSupervisorLivenessOnce sweep_example swept_tracker no_latches)).
Proof.
  split; [by vm_compute|].
  apply (sweep_justified sweep_example swept_tracker no_latches swept_wf sweep_example_reap).
Defined.

(** ... while the daemon is started again before the loop hears of it. *)
Definition respawned : controller :=
  mark (OpMarkSpawned memory_task 4300 noon) (mark (OpMarkSpawned memory_task 4242 noon) demo_start).
Definition death_report : LoopEvent :=
  stale_event memory_task (default zero_entry (Snapshot swept_tracker !! memory_task)) reasonPIDDead.

Section Witness.
#[local] Existing Instance ideal_digest.
Lemma overtaken_sweep_inert_witness : inert respawned (handleLoopEvent demo_env death_report respawned).
Proof.
  eapply (overtaken_sweep_inert sweep_example swept_tracker no_latches demo_env respawned death_report swept_wf
    sweep_example_reap).
  - assert (sw_posts (sweepSupervisorLivenessOnce sweep_example swept_tracker no_latches) = [death_report]) as ->
      by (vm_compute; reflexivity). by left.
  - left. split; [done|]. eexists _, _. split; [vm_compute; reflexivity|]. split; [vm_compute; reflexivity|].
    vm_compute. split; reflexivity.
Defined.
End Witness.
