(* ===== verification/SettleTarget.v ===== *)
(** * SettleTarget: when a targeted reconcile may say that a daemon is ready.

    [settleReconcileTarget] of [cli/supervise_target_settlement.go]: after
    the loop has processed what was posted before, it polls the registry, the
    intent, the tracker and the daemon's port until the daemon of one exact
    registration is ready, has failed, or the caller's time is up.  It runs
    beside the loop, so each of its reads is a call the world answers. *)
From S2P Require Import Prelude GoTime StateMachine Intent Descriptor StateFile Readiness Tracker Lifecycle.
From S2P Require Import Backoff Termination CommandLine Classifier Controller SpawnGate StopBatch Scenario Settle Trace Registry Reconcile Liveness.
From ITree Require Import ITree.
Open Scope Z_scope.

(** ** Results *)
Definition ReconcileTargetSettlementReady : string := "ready".
Definition ReconcileTargetSettlementIncomplete : string := "incomplete".
Definition ReconcileTargetSettlementFailed : string := "failed".
Definition TargetReasonReady : string := "ready".
Definition TargetReasonControllerUnavailable : string := "controller_unavailable".
Definition TargetReasonEventLoopUnavailable : string := "event_loop_unavailable".
Definition TargetReasonSettlementTimeout : string := "settlement_timeout".
Definition TargetReasonSettlementCancelled : string := "settlement_cancelled".
Definition TargetReasonLivenessUnverified : string := "liveness_unverified".
Definition TargetReasonPortUnbound : string := "port_unbound".
Definition TargetReasonGenerationReplaced : string := "target_generation_replaced".
Definition TargetReasonIntentMissing : string := "intent_missing".
Definition TargetReasonBackoff : string := "backoff".
Definition TargetReasonQuarantined : string := "quarantined".
Definition TargetReasonPortOwnerMismatch : string := "port_owner_mismatch".
Definition TargetReasonRegistryUnavailable : string := "registry_unavailable".

Record ReconcileTargetSettlement := mkTargetSettlement {
  ts_State : string; ts_Reason : string; ts_Target : ReconcileTarget;
  ts_CurrentPID : Z; ts_PIDGeneration : Z; ts_Error : string;
}.

(** [base] carries the target only: the state, the reason, the runtime and
    the error are all set. *)
Definition targetSettlementWithRuntime (base : ReconcileTargetSettlement) (state reason : string)
    (entry : DaemonRuntimeEntry) (detail : string) : ReconcileTargetSettlement :=
  mkTargetSettlement state reason (ts_Target base) (te_CurrentPID entry) (te_PIDGeneration entry) detail.
Definition targetSettlementContextResult (base : ReconcileTargetSettlement) (err : error) : ReconcileTargetSettlement :=
  mkTargetSettlement ReconcileTargetSettlementIncomplete
    (if errors_Is err context_Canceled then TargetReasonSettlementCancelled else TargetReasonSettlementTimeout)
    (ts_Target base) (ts_CurrentPID base) (ts_PIDGeneration base) (err_text err).

(** ** The calls *)

(** What the system answers to a liveness probe: the time, the shared probe,
    whether its port-owner function is the production one, and the one that
    obeys the caller's context. *)
Record target_view := mkTargetView {
  tv_now : time; tv_probe : supervisorLivenessProbe; tv_production : bool; tv_portOwnerContext : Z -> res (option Z);
}.

Inductive tgtE : Type -> Type :=
| TBarrier : tgtE (option error)
| TRegistryPath : tgtE (res string)
| TLoadRegistry (path : string) : tgtE (res rows)
| TLookupDescriptor (taskName : string) : tgtE (option SupervisorDaemon)
| TGet (taskName : string) : tgtE (option DaemonRuntimeEntry)
| TView (d : SupervisorDaemon) (entry : DaemonRuntimeEntry) : tgtE target_view
| TWait : tgtE (option error).

(** What is wired, and what the resolution of ports, executables and time
    stamps depends on. *)
Record target_env := mkTargetEnv {
  ta_controller : bool; ta_eventLoop : bool; ta_intentCache : bool; ta_tracker : bool;
  ta_resolve : manifestPortDeadlineResolveFn; ta_exe : exe_lookup; ta_canonicalMcphubPath : string;
  ta_parseErr : string -> string;
}.

Definition supervisorPortProbeTimeout : duration := 300 * Millisecond.

Section Target.
Variable E : target_env.

(** [targetSettlementLivenessWithContext] on the answer of the system. *)
Definition target_probe (v : target_view) : supervisorLivenessProbe :=
  let p := tv_probe v in
  if tv_production v
  then mkProbe (lp_PIDAlive p) (lp_PIDIdentity p) (lp_PortLive p) (Some (tv_portOwnerContext v)) (lp_selfPID p)
  else p.
Definition targetSettlementLivenessWithContext (d : SupervisorDaemon) (entry : DaemonRuntimeEntry) (v : target_view)
    : supervisorLivenessVerdict :=
  supervisorDaemonLivenessVerdictWithProbe
    (daemonExpectedIdentityExe (ta_exe E) (ta_canonicalMcphubPath E) (sd_Command d))
    d entry (tv_now v) (target_probe v) (EffectiveStartupBindDeadlineSeconds d (ta_resolve E) * Second).

(** The row of the registry is that of the target's registration. *)
Definition row_matches (target : ReconcileTarget) (r : rows) : bool :=
  match GetSerena r (rt_WorkspaceKey target), ParseRFC3339Nano (rt_RegisteredAt target) with
  | Some row, Some registeredAt =>
      negb (we_PendingSerenaRemoval row) && (we_WorkspacePath row =s rt_WorkspacePath target) &&
      (canonicalSupervisorTaskName (we_TaskName row) =s canonicalSupervisorTaskName (rt_TaskName target)) &&
      (we_Port row =? rt_ExpectedPort target) && (we_RegisteredAt row =? registeredAt)
  | _, _ => false
  end.
(** The descriptor of the intent is that of the target, with this port. *)
Definition descriptor_port (target : ReconcileTarget) (d : SupervisorDaemon) : option Z :=
  match EffectiveDaemonPort d (ta_resolve E) with
  | Some port =>
      if negb (canonicalSupervisorTaskName (sd_TaskName d) =s canonicalSupervisorTaskName (rt_TaskName target)) ||
         negb (sd_Workspace d =s rt_WorkspacePath target) || negb (port =? rt_ExpectedPort target)
      then None else Some port
  | None => None
  end.

Definition observeReconcileTargetIdentity (registryPath : string) (target : ReconcileTarget)
    : itree tgtE (SupervisorDaemon + ReconcileTargetSettlement) :=
  let out (state reason msg : string) := inr (mkTargetSettlement state reason target 0 0 msg) in
  call! loaded := TLoadRegistry registryPath in
  match loaded with
  | Err err => Ret (out ReconcileTargetSettlementIncomplete TargetReasonRegistryUnavailable (err_text err))
  | Ok r =>
      if negb (row_matches target r)
      then Ret (out ReconcileTargetSettlementFailed TargetReasonGenerationReplaced
                  (match ParseRFC3339Nano (rt_RegisteredAt target) with
                   | Some _ => ""
                   | None => "parse target registered_at: " +:+ ta_parseErr E (rt_RegisteredAt target)
                   end))
      else if negb (ta_intentCache E)
      then Ret (out ReconcileTargetSettlementFailed TargetReasonIntentMissing "")
      else
        call! descriptor := TLookupDescriptor (rt_TaskName target) in
        match descriptor with
        | None => Ret (out ReconcileTargetSettlementFailed TargetReasonIntentMissing "")
        | Some d =>
            match descriptor_port target d with
            | None => Ret (out ReconcileTargetSettlementFailed TargetReasonGenerationReplaced "")
            | Some effectivePort => Ret (inl (with_port d effectivePort))
            end
        end
  end.

(** What a round ends with when its probe is not the proof of readiness:
    [inl] goes on polling. *)
Definition unready (result : ReconcileTargetSettlement) (entry : DaemonRuntimeEntry) (v : supervisorLivenessVerdict)
    : ReconcileTargetSettlement + ReconcileTargetSettlement :=
  let incomplete := ReconcileTargetSettlementIncomplete in
  if lv_Live v && lv_PortBound v
  then inr (targetSettlementWithRuntime result incomplete TargetReasonLivenessUnverified entry
              "TCP listener observed without current-PID ownership proof")
  else if (lv_Reason v =s reasonPortOwnerMismatch) || (lv_Reason v =s reasonPortOwnerSelf)
  then inr (targetSettlementWithRuntime result ReconcileTargetSettlementFailed TargetReasonPortOwnerMismatch entry
              (lv_IdentityDetail v))
  else if lv_Reason v =s reasonPortUnbound
  then inr (targetSettlementWithRuntime result incomplete TargetReasonPortUnbound entry (lv_IdentityDetail v))
  else inl (targetSettlementWithRuntime result incomplete TargetReasonLivenessUnverified entry
              (if lv_IdentityDetail v =s "" then lv_Reason v else lv_IdentityDetail v)).

(** The closing observation of a ready probe. *)
Definition close_windows (registryPath : string) (target : ReconcileTarget) (result : ReconcileTargetSettlement)
    (entry : DaemonRuntimeEntry) : itree tgtE (ReconcileTargetSettlement + ReconcileTargetSettlement) :=
  ITree.bind (observeReconcileTargetIdentity registryPath target) (fun identity =>
  match identity with
  | inr changed => Ret (inr changed)
  | inl _ =>
      call! current := TGet (rt_TaskName target) in
      match current with
      | Some current =>
          if negb (te_CurrentPID current =? te_CurrentPID entry) ||
             negb (te_PIDGeneration current =? te_PIDGeneration entry)
          then Ret (inl (targetSettlementWithRuntime result ReconcileTargetSettlementIncomplete
                           TargetReasonLivenessUnverified current "runtime generation changed during readiness probe"))
          else Ret (inr (targetSettlementWithRuntime result ReconcileTargetSettlementReady TargetReasonReady current ""))
      | None => Ret (inl (targetSettlementWithRuntime result ReconcileTargetSettlementIncomplete
                            TargetReasonLivenessUnverified zero_entry "runtime generation changed during readiness probe"))
      end
  end).

(** What one round observes. *)
Definition observe_target (registryPath : string) (target : ReconcileTarget) (result last : ReconcileTargetSettlement)
    : itree tgtE (ReconcileTargetSettlement + ReconcileTargetSettlement) :=
  let go_on (entry : DaemonRuntimeEntry) (detail : string) :=
    Ret (inl (targetSettlementWithRuntime result ReconcileTargetSettlementIncomplete TargetReasonLivenessUnverified
                entry detail)) in
  let failed (reason : string) (entry : DaemonRuntimeEntry) :=
    Ret (inr (targetSettlementWithRuntime result ReconcileTargetSettlementFailed reason entry (te_LastError entry))) in
  ITree.bind (observeReconcileTargetIdentity registryPath target) (fun identity =>
  match identity with
  | inr terminal => Ret (inr terminal)
  | inl d =>
      if negb (ta_tracker E)
      then Ret (inr (mkTargetSettlement (ts_State last) TargetReasonControllerUnavailable (ts_Target last)
                       (ts_CurrentPID last) (ts_PIDGeneration last) "runtime tracker unavailable"))
      else
        call! entry := TGet (rt_TaskName target) in
        match entry with
        | None => go_on zero_entry "runtime generation not yet observed"
        | Some entry =>
            if te_State entry =s daemonRuntimeStateQuarantine then failed TargetReasonQuarantined entry
            else if te_State entry =s daemonRuntimeStateBackoff then failed TargetReasonBackoff entry
            else if te_State entry =s daemonRuntimeStateRunning then
              call! view := TView d entry in
              let verdict := targetSettlementLivenessWithContext d entry view in
              if TargetReady verdict then close_windows registryPath target result entry
              else Ret (unready result entry verdict)
            else go_on entry (te_LastError entry)
        end
  end).

(** One turn of the loop: the observation, and the wait before the next. *)
Definition target_round (registryPath : string) (target : ReconcileTarget) (result last : ReconcileTargetSettlement)
    : itree tgtE (ReconcileTargetSettlement + ReconcileTargetSettlement) :=
  ITree.bind (observe_target registryPath target result last) (fun o =>
  match o with
  | inr final => Ret (inr final)
  | inl last =>
      call! err := TWait in
      match err with
      | Some err => Ret (inr (targetSettlementContextResult last err))
      | None => Ret (inl last)
      end
  end).

Definition settleReconcileTarget (target : ReconcileTarget) : itree tgtE ReconcileTargetSettlement :=
  let result := mkTargetSettlement ReconcileTargetSettlementIncomplete TargetReasonLivenessUnverified target 0 0 "" in
  let unavailable (reason msg : string) :=
    mkTargetSettlement ReconcileTargetSettlementIncomplete reason target 0 0 msg in
  if negb (ta_controller E) then Ret (unavailable TargetReasonControllerUnavailable "")
  else if negb (ta_eventLoop E) then Ret (unavailable TargetReasonEventLoopUnavailable "")
  else
    call! barrier := TBarrier in
    match barrier with
    | Some err => Ret (targetSettlementContextResult result err)
    | None =>
        call! path := TRegistryPath in
        match path with
        | Err err => Ret (unavailable TargetReasonRegistryUnavailable ("resolve workspace registry: " +:+ err_text err))
        | Ok registryPath => ITree.iter (target_round registryPath target result) result
        end
    end.
End Target.

(** ** Properties *)

(** *** What an observation of the identity establishes *)

(** The registration that the target names is in the registry, and not about
    to be removed. *)
Definition registered (target : ReconcileTarget) (r : rows) : Prop :=
  exists row registeredAt, GetSerena r (rt_WorkspaceKey target) = Some row /\
    ParseRFC3339Nano (rt_RegisteredAt target) = Some registeredAt /\ we_RegisteredAt row = registeredAt /\
    we_PendingSerenaRemoval row = false /\ we_WorkspacePath row = rt_WorkspacePath target /\
    canonicalSupervisorTaskName (we_TaskName row) = canonicalSupervisorTaskName (rt_TaskName target) /\
    we_Port row = rt_ExpectedPort target.

Lemma row_matches_spec target r : row_matches target r = true <-> registered target r.
Proof.
  unfold row_matches, registered. split.
  - destruct (GetSerena _ _) as [row|]; [|done]. destruct (ParseRFC3339Nano _) as [at_|]; [|done].
    intros H. breflect. destruct H as [[[[H1 H2] H3] H4] H5]. exists row, at_. by split_and!.
  - intros (row&at_&->&->&->&->&->&->&->). by rewrite !String.eqb_refl, !Z.eqb_refl.
Qed.

Section Properties.
Variable E : target_env.

(** The intent names the target, in its workspace and with its port. *)
Definition intended (target : ReconcileTarget) (d : SupervisorDaemon) : Prop :=
  canonicalSupervisorTaskName (sd_TaskName d) = canonicalSupervisorTaskName (rt_TaskName target) /\
  sd_Workspace d = rt_WorkspacePath target /\ EffectiveDaemonPort d (ta_resolve E) = Some (rt_ExpectedPort target).

Lemma descriptor_port_spec target d port :
  descriptor_port E target d = Some port <-> intended target d /\ port = rt_ExpectedPort target.
Proof.
  unfold descriptor_port, intended. destruct (EffectiveDaemonPort _ _) as [p|]; [|split; [done|naive_solver]].
  destruct (_ || _) eqn:Hb.
  - split; [done|]. intros ((H1&H2&[= H3])&_). rewrite H1, H2, H3, !String.eqb_refl, Z.eqb_refl in Hb. done.
  - breflect. destruct Hb as [[H1 H2] H3]. subst p. split; [intros [= <-]; by split_and!|by intros (_&->)].
Qed.

(** The calls of an observation that confirms the target's identity. *)
Inductive identified (path : string) (target : ReconcileTarget) : list (ev tgtE) -> SupervisorDaemon -> Prop :=
| identified_log r d : registered target r -> intended target d ->
    identified path target
      [Log (TLoadRegistry path) (Ok r); Log (TLookupDescriptor (rt_TaskName target)) (Some d)]
      (with_port d (rt_ExpectedPort target)).

Inductive not_identified (path : string) (target : ReconcileTarget) : list (ev tgtE) -> string -> Prop :=
| row_replaced r : ~ registered target r ->
    not_identified path target [Log (TLoadRegistry path) (Ok r)] TargetReasonGenerationReplaced
| cache_missing r : registered target r -> ta_intentCache E = false ->
    not_identified path target [Log (TLoadRegistry path) (Ok r)] TargetReasonIntentMissing
| descriptor_missing r : registered target r ->
    not_identified path target
      [Log (TLoadRegistry path) (Ok r); Log (TLookupDescriptor (rt_TaskName target)) None] TargetReasonIntentMissing
| descriptor_replaced r d : registered target r -> ~ intended target d ->
    not_identified path target
      [Log (TLoadRegistry path) (Ok r); Log (TLookupDescriptor (rt_TaskName target)) (Some d)]
      TargetReasonGenerationReplaced.

Lemma observe_identity_runs path target tr o :
  runs (observeReconcileTargetIdentity E path target) tr (Some o) ->
  match o with
  | inl d => identified path target tr d
  | inr r => ts_Target r = target /\
      ((ts_State r = ReconcileTargetSettlementIncomplete /\ ts_Reason r = TargetReasonRegistryUnavailable) \/
       (ts_State r = ReconcileTargetSettlementFailed /\ not_identified path target tr (ts_Reason r)))
  end.
Proof.
  unfold observeReconcileTargetIdentity. intros H. step_returns H. destruct x as [r|err].
  2: { step_returns H. by split; [|left]. }
  destruct (row_matches target r) eqn:Hm; cbn [negb] in H.
  2: { step_returns H. split; [done|]. right. split; [done|]. constructor. rewrite <- row_matches_spec. congruence. }
  apply row_matches_spec in Hm. destruct (ta_intentCache E) eqn:Hc; cbn [negb] in H.
  2: { step_returns H. split; [done|]. right. split; [done|]. by constructor. }
  step_returns H. destruct x as [d|].
  2: { step_returns H. split; [done|]. right. split; [done|]. by constructor. }
  destruct (descriptor_port E target d) as [port|] eqn:Hd; step_returns H.
  - apply descriptor_port_spec in Hd as [Hi ->]. by constructor.
  - split; [done|]. right. split; [done|]. constructor; [done|]. intros Hi.
    by rewrite (proj2 (descriptor_port_spec target d _) (conj Hi eq_refl)) in Hd.
Qed.

(** *** What the result rests on *)

(** The process of the entry owns the daemon's port, by a probe that can tell
    the owner, and is not the supervisor itself. *)
Definition owns_port (d : SupervisorDaemon) (entry : DaemonRuntimeEntry) (p : supervisorLivenessProbe) : Prop :=
  exists f, lp_PortOwnerPID p = Some f /\ f (sd_Port d) = Ok (Some (te_CurrentPID entry)) /\
    lp_selfPID p <> Some (te_CurrentPID entry).
(** Where no probe can tell the owner: something listens on the port. *)
Definition port_unattributed (d : SupervisorDaemon) (p : supervisorLivenessProbe) : Prop :=
  lp_PortOwnerPID p = None /\ lp_PortLive p (sd_Port d) = true.

(** The evidence for a daemon's readiness: its process is alive, and it owns
    its port; on a platform that cannot tell the owner of a port, the port is
    listened on and the identity of the process is verified, or cannot be
    told either. *)
Definition readiness_shown (d : SupervisorDaemon) (entry : DaemonRuntimeEntry) (v : target_view) : Prop :=
  let p := target_probe v in
  let exe := daemonExpectedIdentityExe (ta_exe E) (ta_canonicalMcphubPath E) (sd_Command d) in
  0 < te_CurrentPID entry /\ lp_PIDAlive p (te_CurrentPID entry) = true /\ 0 < sd_Port d /\
  exists verified unsupported, identity_check exe entry p = IdentityOpen verified unsupported /\
    (owns_port d entry p \/ port_unattributed d p /\ (verified = true \/ unsupported = true)).

Lemma readiness_spec d entry v :
  TargetReady (targetSettlementLivenessWithContext E d entry v) = true <-> readiness_shown d entry v.
Proof.
  unfold targetSettlementLivenessWithContext, readiness_shown, owns_port, port_unattributed. rewrite target_ready_iff.
  destruct (lp_PortOwnerPID (target_probe v)) as [f|]; naive_solver.
Qed.

Definition foreign_owner (reason : string) : Prop := reason = reasonPortOwnerMismatch \/ reason = reasonPortOwnerSelf.
Definition runtime_result (target : ReconcileTarget) (state reason : string) (entry : DaemonRuntimeEntry) (msg : string)
    : ReconcileTargetSettlement :=
  mkTargetSettlement state reason target (te_CurrentPID entry) (te_PIDGeneration entry) msg.

(** The last calls of a settlement that has decided, and its result. *)
Inductive decided (path : string) (target : ReconcileTarget) : list (ev tgtE) -> ReconcileTargetSettlement -> Prop :=
| decided_ready l1 l2 d d' entry view current :
    identified path target l1 d -> te_State entry = daemonRuntimeStateRunning -> readiness_shown d entry view ->
    identified path target l2 d' ->
    te_CurrentPID current = te_CurrentPID entry -> te_PIDGeneration current = te_PIDGeneration entry ->
    decided path target
      (l1 ++ [Log (TGet (rt_TaskName target)) (Some entry); Log (TView d entry) view] ++
       l2 ++ [Log (TGet (rt_TaskName target)) (Some current)])
      (runtime_result target ReconcileTargetSettlementReady TargetReasonReady current "")
| decided_quarantined l d entry :
    identified path target l d -> te_State entry = daemonRuntimeStateQuarantine ->
    decided path target (l ++ [Log (TGet (rt_TaskName target)) (Some entry)])
      (runtime_result target ReconcileTargetSettlementFailed TargetReasonQuarantined entry (te_LastError entry))
| decided_backoff l d entry :
    identified path target l d -> te_State entry = daemonRuntimeStateBackoff ->
    decided path target (l ++ [Log (TGet (rt_TaskName target)) (Some entry)])
      (runtime_result target ReconcileTargetSettlementFailed TargetReasonBackoff entry (te_LastError entry))
| decided_foreign l d entry view :
    identified path target l d -> te_State entry = daemonRuntimeStateRunning ->
    foreign_owner (lv_Reason (targetSettlementLivenessWithContext E d entry view)) ->
    decided path target
      (l ++ [Log (TGet (rt_TaskName target)) (Some entry); Log (TView d entry) view])
      (runtime_result target ReconcileTargetSettlementFailed TargetReasonPortOwnerMismatch entry
         (lv_IdentityDetail (targetSettlementLivenessWithContext E d entry view)))
| decided_replaced l r :
    ts_State r = ReconcileTargetSettlementFailed -> ts_Target r = target -> not_identified path target l (ts_Reason r) ->
    decided path target l r.

(** A decision may follow other calls. *)
Definition decided_after (path : string) (target : ReconcileTarget) (tr : list (ev tgtE)) (r : ReconcileTargetSettlement)
    : Prop := exists before final, tr = before ++ final /\ decided path target final r.
Definition undecided (target : ReconcileTarget) (r : ReconcileTargetSettlement) : Prop :=
  ts_State r = ReconcileTargetSettlementIncomplete /\ ts_Target r = target.

Lemma decided_now path target tr r : decided path target tr r -> decided_after path target tr r.
Proof. by exists [], tr. Qed.
Lemma decided_prefix path target l tr r : decided_after path target tr r -> decided_after path target (l ++ tr) r.
Proof. intros (b&f&->&H). exists (l ++ b), f. by rewrite app_assoc. Qed.

Lemma identity_failed path target tr r :
  runs (observeReconcileTargetIdentity E path target) tr (Some (inr r)) ->
  undecided target r \/ decided_after path target tr r.
Proof.
  intros [Ht [[Hs _]|[Hs Hn]]]%observe_identity_runs; [by left|]. right. by apply decided_now, decided_replaced.
Qed.

Lemma unready_sound path target result l d entry view :
  ts_Target result = target -> identified path target l d -> te_State entry = daemonRuntimeStateRunning ->
  match unready result entry (targetSettlementLivenessWithContext E d entry view) with
  | inl r => undecided target r
  | inr r => undecided target r \/ decided_after path target
      (l ++ [Log (TGet (rt_TaskName target)) (Some entry); Log (TView d entry) view]) r
  end.
Proof.
  intros Ht Hi Hr. unfold unready. destruct (_ && _); [by left|].
  destruct (_ || _) eqn:Hm; [|by destruct (_ =s reasonPortUnbound); [left|]].
  right. apply decided_now. unfold targetSettlementWithRuntime. rewrite Ht. eapply decided_foreign; [done..|].
  apply orb_true_iff in Hm as [?%String.eqb_eq|?%String.eqb_eq]; [by left|by right].
Qed.

Lemma close_windows_sound path target result entry tr o :
  ts_Target result = target -> runs (close_windows E path target result entry) tr (Some o) ->
  match o with
  | inl r => undecided target r
  | inr r => (undecided target r \/ decided_after path target tr r) \/
      exists l d current, tr = l ++ [Log (TGet (rt_TaskName target)) (Some current)] /\ identified path target l d /\
        te_CurrentPID current = te_CurrentPID entry /\ te_PIDGeneration current = te_PIDGeneration entry /\
        r = runtime_result target ReconcileTargetSettlementReady TargetReasonReady current ""
  end.
Proof.
  intros Ht H. apply returns_bind in H as ([d|changed]&l&tr2&->&Hl&H).
  2: { step_returns H. rewrite app_nil_r. left. by apply identity_failed. }
  apply observe_identity_runs in Hl. step_returns H. destruct x as [current|]; [|by step_returns H].
  destruct (_ || _) eqn:Hc; step_returns H; [done|]. right. breflect. destruct Hc as [Hp Hg].
  by exists l, d, current.
Qed.

Lemma observe_target_sound path target result last tr o :
  ts_Target result = target -> undecided target last ->
  runs (observe_target E path target result last) tr (Some o) ->
  match o with inl r => undecided target r | inr r => undecided target r \/ decided_after path target tr r end.
Proof.
  intros <- [Hls Hlt] H. apply returns_bind in H as ([d|terminal]&l&tr2&->&Hl&H).
  2: { step_returns H. rewrite app_nil_r. by apply identity_failed. }
  apply observe_identity_runs in Hl. destruct (ta_tracker E); cbn [negb] in H; [|step_returns H; by left].
  step_returns H. destruct x as [entry|]; [|by step_returns H]. unfold targetSettlementWithRuntime in H.
  repeat match type of H with runs (if ?b then _ else _) _ _ => destruct b eqn:? end; breflect;
    try (step_returns H; right; apply decided_now; by econstructor); [|by step_returns H].
  step_returns H. fold (targetSettlementWithRuntime) in H.
  destruct (TargetReady _) eqn:Hready.
  - apply (close_windows_sound path _ result entry) in H; [|done]. destruct o as [r|r]; [done|].
    destruct H as [[Hu|Hd]|(l2&d'&current&->&Hi&Hp&Hg&->)]; [by left|right|right].
    + apply decided_prefix. by apply (decided_prefix path _ [_; _]).
    + apply readiness_spec in Hready. apply decided_now. by eapply decided_ready.
  - step_returns H. pose proof (unready_sound path _ result l d entry x eq_refl Hl ltac:(done)) as Hs.
    by destruct (unready _ _ _).
Qed.

Lemma target_rounds_sound path target result last tr r :
  ts_Target result = target -> finishes (target_round E path target result) last tr r -> undecided target last ->
  undecided target r \/ decided_after path target tr r.
Proof.
  intros Ht. induction 1 as [last tr r H|last last' tr1 tr2 r H _ IH]; intros Hu;
    apply returns_bind in H as (o&l&tr3&->&Ho%observe_target_sound&H); try done; destruct o as [r'|r'].
  - step_returns H. destruct x; step_returns H. left. by destruct Ho.
  - step_returns H. by rewrite app_nil_r.
  - step_returns H. destruct x; step_returns H. destruct (IH Ho) as [|Hd]; [by left|right]. by apply decided_prefix.
  - step_returns H.
Qed.

(** C32: the answer of a targeted reconcile is justified by what was seen
    last.  It is ready only if, after the loop's barrier, the registry and the
    intent named exactly the target both before and after the probe, in
    between the daemon was recorded as running and its process was alive, and
    the tracker still has the same process of the same generation, which the
    answer echoes; and the probe showed the process to own the daemon's port,
    or, only where there is no probe for the owner of a port, that the port is
    listened on and the identity of the process is verified or cannot be told
    there (so that ready then does not rule out a foreign listener).  It is
    failed only if the identity is no longer the target's, the daemon is
    quarantined or backing off, or another process or the supervisor itself
    was found to hold its port.  Any other answer is incomplete. *)
Theorem target_settlement_justified target tr r :
  runs (settleReconcileTarget E target) tr (Some r) ->
  ts_Target r = target /\
  (ts_State r = ReconcileTargetSettlementIncomplete \/
   exists path before final,
     tr = [Log TBarrier None; Log TRegistryPath (Ok path)] ++ before ++ final /\ decided path target final r).
Proof.
  unfold settleReconcileTarget. cbv zeta. intros H. destruct (ta_controller E); cbn [negb] in H; [|step_returns H; by split; [|left]].
  destruct (ta_eventLoop E); cbn [negb] in H; [|step_returns H; by split; [|left]]. step_returns H.
  destruct x as [err|]; [step_returns H; auto|]. step_returns H. destruct x as [path|]; [|step_returns H; by split; [|left]].
  apply returns_iter, target_rounds_sound in H as [[Hs Ht]|(before&final&->&Hd)]; try done; [by split; [|left]|].
  split; [by destruct Hd|]. right. by exists path, before, final.
Qed.

(** *** A daemon that is ready is reported ready *)

(** What a favourable world answers: the identity is the target's, and the
    tracker has nothing yet, a daemon that is starting, or [ready], which
    owns its port; there is time to wait. *)
Definition favourable (target : ReconcileTarget) (ready : DaemonRuntimeEntry) (l : ev tgtE) : Prop :=
  match l with
  | Log e x =>
      match e in tgtE Y return Y -> Prop with
      | TBarrier => fun err => err = None
      | TRegistryPath => fun p => match p with Ok _ => True | Err _ => False end
      | TLoadRegistry _ => fun r => match r with Ok r => registered target r | Err _ => False end
      | TLookupDescriptor _ => fun d => match d with Some d => intended target d | None => False end
      | TGet _ => fun entry =>
          match entry with
          | Some entry => entry = ready \/ (te_State entry <> daemonRuntimeStateRunning /\
              te_State entry <> daemonRuntimeStateBackoff /\ te_State entry <> daemonRuntimeStateQuarantine)
          | None => True
          end
      | TView d entry => fun v => entry = ready -> readiness_shown d ready v
      | TWait => fun err => err = None
      end x
  end.

Section Favourable.
Variables (target : ReconcileTarget) (ready : DaemonRuntimeEntry).
Hypothesis wired : ta_intentCache E = true /\ ta_tracker E = true.
Hypothesis running : te_State ready = daemonRuntimeStateRunning.
Definition ready_answer : ReconcileTargetSettlement :=
  runtime_result target ReconcileTargetSettlementReady TargetReasonReady ready "".

Notation fav := (Forall (favourable target ready)).

Lemma favourable_identity path tr o :
  runs (observeReconcileTargetIdentity E path target) tr (Some o) -> fav tr -> exists d, o = inl d.
Proof.
  destruct wired as [Hc _]. unfold observeReconcileTargetIdentity. rewrite Hc. intros H Hf. step_returns H.
  apply Forall_cons in Hf as [Hl Hf]. cbn in Hl. destruct x as [r|]; [|done]. apply row_matches_spec in Hl.
  rewrite Hl in H. cbn [negb] in H. step_returns H. apply Forall_cons in Hf as [Hi _]. cbn in Hi.
  destruct x as [d|]; [|done]. rewrite (proj2 (descriptor_port_spec target d _) (conj Hi eq_refl)) in H.
  step_returns H. by eexists.
Qed.

Lemma favourable_observation path result last tr r :
  ts_Target result = target -> runs (observe_target E path target result last) tr (Some (inr r)) -> fav tr ->
  r = ready_answer.
Proof.
  intros Ht H Hf. apply returns_bind in H as (o&l&tr2&->&Hl&H). apply Forall_app in Hf as [Hf1 Hf].
  destruct (favourable_identity _ _ _ Hl Hf1) as [d ->]. destruct wired as [_ Htr]. rewrite Htr in H. cbn [negb] in H.
  step_returns H. apply Forall_cons in Hf as [Hg Hf]. cbn in Hg. destruct x as [entry|]; [|step_returns H].
  destruct Hg as [->|(Hn1&Hn2&Hn3)].
  2: { apply String.eqb_neq in Hn1, Hn2, Hn3. rewrite Hn1, Hn2, Hn3 in H. step_returns H. }
  rewrite running in H. cbn -[close_windows targetSettlementLivenessWithContext TargetReady unready] in H. step_returns H.
  apply Forall_cons in Hf as [Hv Hf]. specialize (Hv eq_refl).
  apply readiness_spec in Hv. rewrite Hv in H.
  apply returns_bind in H as (o&l2&tr4&->&Hl2&H). apply Forall_app in Hf as [Hf2 Hf].
  destruct (favourable_identity _ _ _ Hl2 Hf2) as [d' ->]. step_returns H. apply Forall_cons in Hf as [Hg _]. cbn in Hg.
  destruct x0 as [current|]; [|step_returns H]. destruct (_ || _) eqn:Hb; step_returns H. breflect.
  destruct Hb as [Hp Hgen]. unfold ready_answer, runtime_result, targetSettlementWithRuntime. by rewrite Ht, Hp, Hgen.
Qed.

(** A daemon that becomes ready is reported ready.  If the registry and
    the intent keep naming the target, the tracker shows nothing, a daemon
    that is starting, or the running one that owns its port, and the waits
    have time left, then every answer that is given is the ready one. *)
Theorem target_ready_reached tr r :
  ta_controller E = true -> ta_eventLoop E = true ->
  runs (settleReconcileTarget E target) tr (Some r) -> fav tr -> r = ready_answer.
Proof.
  unfold settleReconcileTarget. cbv zeta. intros -> -> H Hf. cbn [negb] in H. step_returns H.
  apply Forall_cons in Hf as [-> Hf]. step_returns H. apply Forall_cons in Hf as [Hp Hf]. cbn in Hp.
  destruct x as [path|]; [|done]. apply returns_iter in H.
  set (result := mkTargetSettlement _ _ _ _ _ _) in H. set (last := result) in H at 2. clearbody last.
  induction H as [last tr r H|last last' tr1 tr2 r H _ IH].
  - apply returns_bind in H as (o&l&tr2&->&Hl&H). apply Forall_app in Hf as [Hf1 Hf]. destruct o as [r'|r']; step_returns H.
    + apply Forall_cons in Hf as [-> _]. step_returns H.
    + by eapply (favourable_observation path result).
  - apply Forall_app in Hf as [_ Hf]. by apply IH.
Qed.
End Favourable.

(** *** The settlement ends *)

(** The clock of a settlement: a wait that is not cut short starts before
    the caller's deadline and takes its time. *)
Definition target_clock (deadline : time) : Clock tgtE := {|
  tells_time now l :=
    match l with
    | Log e x => match e in tgtE Y return Y -> Prop with
                 | TWait => fun err => err = None -> now < deadline
                 | _ => fun _ => True
                 end x
    end;
  clock_after now l :=
    match l with
    | Log e x => match e in tgtE Y return Y -> time with
                 | TWait => fun err => match err with None => now + supervisorPortProbeTimeout | Some _ => now end
                 | _ => fun _ => now
                 end x
    end;
|}.

Lemma identity_bounded (CE : Clock tgtE) path target : bounded 2 (observeReconcileTargetIdentity E path target).
Proof. unfold observeReconcileTargetIdentity. walk_bounded. Qed.
Lemma observe_bounded (CE : Clock tgtE) path target result last : bounded 7 (observe_target E path target result last).
Proof.
  apply (bounded_bind 2 5); [apply identity_bounded|]. intros [d|r]; walk_bounded.
  apply (bounded_bind 2 1); [apply identity_bounded|]. intros [d'|r]; walk_bounded.
Qed.
Lemma round_bounded (CE : Clock tgtE) path target result last : bounded 8 (target_round E path target result last).
Proof. apply (bounded_bind 7 1); [apply observe_bounded|]. intros [r|r]; walk_bounded. Qed.

Lemma target_clock_mono deadline now l : now <= foldl (clock_after (Clock := target_clock deadline)) now l.
Proof.
  revert now. induction l as [|[X e x] l IH]; intros now; cbn [foldl]; [lia|]. etransitivity; [|apply IH].
  cbn. destruct e; try lia. destruct x; unfold supervisorPortProbeTimeout, Millisecond; lia.
Qed.

Lemma round_waits deadline path target result i j now tr :
  runs (target_round E path target result i) tr (Some (inl j)) -> clocked (CE := target_clock deadline) now tr ->
  now < deadline /\
  now + supervisorPortProbeTimeout <= foldl (clock_after (Clock := target_clock deadline)) now tr.
Proof.
  intros (o&l&tr2&->&_&H)%returns_bind [_ Hc]%clocked_app. pose proof (target_clock_mono deadline now l).
  rewrite foldl_app. destruct o as [r|r]; step_returns H. destruct x; step_returns H. destruct Hc as [Hd _].
  specialize (Hd eq_refl). set (n := foldl _ _ l) in *. change (n < deadline) in Hd.
  change (now < deadline /\ now + supervisorPortProbeTimeout <= n + supervisorPortProbeTimeout). lia.
Qed.

(** A settlement ends.  Under a clock that does not go back, it makes at
    most ten calls and eight for every probe interval up to its caller's
    deadline. *)
Theorem target_settlement_terminates target deadline now tr o :
  runs (settleReconcileTarget E target) tr o -> clocked (CE := target_clock deadline) now tr ->
  (length tr <= 10 + 8 * wait_rounds supervisorPortProbeTimeout (Z.max 0 (deadline - now)))%nat.
Proof.
  set (m := wait_rounds _ _). assert (deadline - now <= Z.of_nat m * supervisorPortProbeTimeout) as Hm.
  { pose proof (wait_rounds_enough supervisorPortProbeTimeout (Z.max 0 (deadline - now)) ltac:(done) ltac:(lia)). lia. }
  unfold settleReconcileTarget. cbv zeta. intros H Hc.
  repeat match type of H with runs (if ?b then _ else _) _ _ => destruct b end;
    try (apply runs_ret in H as [-> _]; cbn; lia).
  apply runs_vis in H as [[-> _]|(err&tr1&->&H)]; [cbn; lia|]. destruct err; [apply runs_ret in H as [-> _]; cbn; lia|].
  apply runs_vis in H as [[-> _]|(p&tr2&->&H)]; [cbn; lia|]. destruct p; [|apply runs_ret in H as [-> _]; cbn; lia].
  destruct Hc as [_ [_ Hc]]. cbn in Hc.
  pose proof (bounded_poll _ 8 _ deadline m _ now tr2 o (round_bounded (target_clock deadline) _ _ _)
    (round_waits deadline _ _ _) Hm H Hc). cbn [length]. lia.
Qed.
End Properties.

(** ** A daemon that comes up after two polls *)
Definition demo_target : ReconcileTarget :=
  mkReconcileTarget "0f3a9c12" "C:\src\hub" "mcp-local-hub-serena-0f3a9c12" (FormatRFC3339Nano a_morning) 9151.
Definition demo_env : target_env :=
  mkTargetEnv true true true true (fun _ _ => None) exe_lookup_example exe_example (fun _ => "bad time").
Definition came_up : DaemonRuntimeEntry :=
  Tracker.mkEntry daemonRuntimeStateRunning 4711 noon 3 0 "" 0 None "" "" None.
Definition up_probe : supervisorLivenessProbe :=
  mkProbe (Z.eqb 4711) None (fun _ => false) (Some (fun _ => Err context_Canceled)) (Some 100).
Definition up_view : target_view :=
  mkTargetView noon up_probe true (fun port => Ok (if port =? 9151 then Some 4711 else None)).

(** The world counts the waits; with [up] of them the daemon is up, and with
    [replaced] its registration has gone. *)
Definition target_world (up replaced : nat) (X : Type) (e : tgtE X) (waits : nat) : X * nat :=
  match e in tgtE Y return Y * nat with
  | TBarrier => (None, waits)
  | TRegistryPath => (Ok "registry.yaml", waits)
  | TLoadRegistry _ => (Ok (if Nat.leb replaced waits then [go_row] else demo_registry), waits)
  | TLookupDescriptor _ => (head (si_Daemons pool_intent), waits)
  | TGet _ => (if Nat.leb up waits then Some came_up else None, waits)
  | TView _ _ => (up_view, waits)
  | TWait => (None, S waits)
  end.
Definition demo_settlement (up replaced : nat) :=
  play 100 (target_world up replaced) 0%nat (settleReconcileTarget demo_env demo_target).
Lemma settlement_runs up replaced :
  runs (settleReconcileTarget demo_env demo_target) (demo_settlement up replaced).1 (demo_settlement up replaced).2.
Proof. apply play_runs. Qed.
Definition came_up_answer : ReconcileTargetSettlement :=
  runtime_result demo_target ReconcileTargetSettlementReady TargetReasonReady came_up "".

Example settlement_ready : (demo_settlement 2 9).2 = Some came_up_answer /\ length (demo_settlement 2 9).1 = 17%nat.
Proof. vm_compute. done. Qed.
Example settlement_replaced :
  option_map ts_Reason (demo_settlement 9 2).2 = Some TargetReasonGenerationReplaced.
Proof. vm_compute. done. Qed.

Lemma target_settlement_justified_witness :
  exists path before final,
    (demo_settlement 2 9).1 = [Log TBarrier None; Log TRegistryPath (Ok path)] ++ before ++ final /\
    decided demo_env path demo_target final came_up_answer.
Proof.
  assert (runs (settleReconcileTarget demo_env demo_target) (demo_settlement 2 9).1 (Some came_up_answer)) as H.
  { replace (Some came_up_answer) with (demo_settlement 2 9).2 by (vm_compute; reflexivity). apply settlement_runs. }
  destruct (target_settlement_justified demo_env demo_target _ _ H) as [_ [Hs|Hd]]; [discriminate Hs|exact Hd].
Defined.

#[local] Instance failure_eq_dec : EqDecision ReadinessFailureV1.
Proof. solve_decision. Defined.
#[local] Instance observation_eq_dec : EqDecision DaemonReadinessObservationV1.
Proof. solve_decision. Defined.
#[local] Instance entry_eq_dec : EqDecision DaemonRuntimeEntry.
Proof. solve_decision. Defined.

(** A checker of favourable answers. *)
Definition favourable_check (E : target_env) (target : ReconcileTarget) (ready : DaemonRuntimeEntry) (l : ev tgtE) : bool :=
  match l with
  | Log e x =>
      match e in tgtE Y return Y -> bool with
      | TBarrier => fun err => bool_decide (err = None)
      | TRegistryPath => fun p => match p with Ok _ => true | Err _ => false end
      | TLoadRegistry _ => fun r => match r with Ok r => row_matches target r | Err _ => false end
      | TLookupDescriptor _ => fun d =>
          match d with Some d => match descriptor_port E target d with Some _ => true | None => false end | None => false end
      | TGet _ => fun entry => bool_decide (entry = None \/ entry = Some ready)
      | TView d _ => fun v => TargetReady (targetSettlementLivenessWithContext E d ready v)
      | TWait => fun err => bool_decide (err = None)
      end x
  end.
Lemma favourable_checked E target ready tr :
  forallb (favourable_check E target ready) tr = true -> Forall (favourable E target ready) tr.
Proof.
  intros H. apply Forall_forall. intros [X e x] Hin. apply list_elem_of_In in Hin.
  pose proof (proj1 (forallb_forall _ _) H _ Hin) as Hl. clear -Hl. destruct e; cbn in *.
  - by apply bool_decide_eq_true in Hl.
  - by destruct x.
  - destruct x; [by apply row_matches_spec|done].
  - destruct x as [d|]; [|done]. destruct (descriptor_port E target d) eqn:Hd; [|done].
    by apply descriptor_port_spec in Hd as [? _].
  - apply bool_decide_eq_true in Hl as [->| ->]; [done|by left].
  - intros _. by apply readiness_spec.
  - by apply bool_decide_eq_true in Hl.
Qed.

Lemma target_ready_reached_witness :
  forallb (favourable_check demo_env demo_target came_up) (demo_settlement 2 9).1 = true /\
  came_up_answer = ready_answer demo_target came_up.
Proof.
  assert (forallb (favourable_check demo_env demo_target came_up) (demo_settlement 2 9).1 = true) as Hf
    by (vm_compute; reflexivity).
  split; [exact Hf|].
  assert (runs (settleReconcileTarget demo_env demo_target) (demo_settlement 2 9).1 (Some came_up_answer)) as H.
  { replace (Some came_up_answer) with (demo_settlement 2 9).2 by (vm_compute; reflexivity). apply settlement_runs. }
  exact (target_ready_reached demo_env demo_target came_up (conj eq_refl eq_refl) eq_refl _ _ eq_refl eq_refl H
           (favourable_checked _ _ _ _ Hf)).
Defined.

Lemma target_settlement_terminates_witness :
  clocked (CE := target_clock (noon + 150 * Second)) noon (demo_settlement 2 9).1 /\
  (length (demo_settlement 2 9).1 <= 4018)%nat.
Proof.
  assert (clocked (CE := target_clock (noon + 150 * Second)) noon (demo_settlement 2 9).1) as Hc
    by (vm_compute; repeat split; discriminate).
  split; [exact Hc|].
  exact (target_settlement_terminates demo_env demo_target (noon + 150 * Second) noon _ _ (settlement_runs 2 9) Hc).
Defined.
