(* ===== verification/Respawn.v ===== *)
(** * Respawn: the operator's restart of one daemon.

    The [respawn] command of the supervisor ([cli/supervise_respawn.go]) with
    the two ways it drives the controller ([postIdleRespawnAndWait] and
    [postManualRestartAndWaitRunning] of [cli/supervisor_controller.go]) and
    the recovery it triggers first
    ([cli/supervise_target_settlement.go]).  It runs on a connection's
    goroutine, beside the loop: what it reads and posts are calls. *)
From S2P Require Import Prelude GoTime StateMachine Intent Descriptor StateFile Readiness Tracker Lifecycle.
From S2P Require Import StopSettlement Backoff Termination Controller SpawnGate StopBatch Scenario Settle Trace SideEffect Realloc Loop.
From ITree Require Import ITree.
Open Scope Z_scope.

(** [daemon_env_overlay.NormalizeOverlayKey] *)
Definition NormalizeOverlayKey (taskName : string) : string :=
  if taskName =s "" then "" else if has_prefix (bs "") taskName then taskName else bs taskName.

(** ** Answers *)
Definition ipcErrorInvalidArgs : string := "INVALID_ARGS".
Definition ipcErrorUnknownTask : string := "UNKNOWN_TASK".
Definition ipcErrorRespawnQuarantined : string := "QUARANTINED".
Definition ipcErrorRespawnFailed : string := "RESPAWN_FAILED".
Definition ipcErrorRespawnNotReady : string := "RESPAWN_NOT_READY".
Definition ipcErrorRespawnTerminateFailed : string := "RESPAWN_TERMINATE_FAILED".
Definition ipcErrorRespawnRefusedIntentStop : string := "RESPAWN_REFUSED_INTENT_STOPPED".
Definition ipcErrorRespawnStopSettlement : string := "RESPAWN_STOP_SETTLEMENT_INCOMPLETE".

Record IPCErr := mkIPCErr { ie_Code : string; ie_Message : string; ie_Retryable : bool }.
(** The final frame: the error, or the result with its route. *)
Inductive respawn_answer :=
| RespawnError (e : IPCErr)
| RespawnSpawned (taskName : string) (route : option string).
Definition refuse (code msg : string) : respawn_answer := RespawnError (mkIPCErr code msg false).
Definition retry_later (msg : string) : respawn_answer := RespawnError (mkIPCErr ipcErrorRespawnNotReady msg true).
Definition controllerManualRestart : string := "controller-manual-restart".

(** ** The calls *)

(** How the select on the reply of an idle respawn ends. *)
Inductive idle_wait := IdleReply (err : option error) | IdleCancelled (err : error) | IdleTimeout.

Inductive rspE : Type -> Type :=
| RLookup (taskName : string) : rspE (option SupervisorDaemon)
| RPendingReceipts : rspE (list StopSettlementReceiptV1)
| RArmRecovery (key : string) : rspE bool
| RDisarmRecovery (key : string) : rspE unit
| RPostCtx (e : LoopEvent) : rspE (option error)
| RGet (taskName : string) : rspE (option DaemonRuntimeEntry)
| RSMState (taskName : string) : rspE (option SMState)
| RStoreSMState (taskName : string) (s : SMState) : rspE unit
| RSettle (targets : list StopBatchTargetV1) : rspE (list StoppedSettlement)
| RPost (e : LoopEvent) : rspE unit
| RWaitIdle (timeout : duration) : rspE idle_wait
| RNow : rspE time
| RSleep (d : duration) : rspE (option error)
| RTerminate (d : SupervisorDaemon) : rspE (option error)
| RSpawn (d : SupervisorDaemon) : rspE (option error)
| RAudit (severity event taskName : string) : rspE unit.
Notation program := (itree rspE).

(** [ipcDispatchDeps], as far as the handler uses it: the callbacks are
    bound, the controller exists with its parts, the start-up snapshot, the
    handler's own tracker, and the switch of the tests. *)
Record respawn_deps := mkRespawnDeps {
  rd_spawnFn : bool; rd_terminateFn : bool;
  rd_controller : bool; rd_eventLoop : bool; rd_intentCache : bool; rd_ctrlTracker : bool;
  rd_intent : option SupervisorIntentFile; rd_runtimeTracker : bool;
  rd_allowDirectRespawnForTest : bool; rd_resolve : manifestPortDeadlineResolveFn;
}.

Section Respawn.
Variable D : respawn_deps.
Definition has_loop : bool := rd_controller D && rd_eventLoop D.

(** ** The controller's side *)

(** [enqueueStopSettlementRecovery]; its error is dropped by the caller. *)
Definition enqueueStopSettlementRecovery (taskName : string) : program unit :=
  if negb (has_loop && rd_ctrlTracker D) then Ret tt
  else
    let key := canonicalSupervisorTaskName taskName in
    call! loaded := RArmRecovery key in
    if (loaded : bool) then Ret tt
    else
      call! err := RPostCtx (event evStopSettlementRecovery key) in
      match err with
      | Some _ => do! RDisarmRecovery key in Ret tt
      | None => Ret tt
      end.
Fixpoint enqueue_receipts (receipts : list StopSettlementReceiptV1) : program unit :=
  match receipts with
  | [] => Ret tt
  | receipt :: rest =>
      ITree.bind (enqueueStopSettlementRecovery (sr_TaskName receipt)) (fun _ => enqueue_receipts rest)
  end.
Definition enqueuePendingStopSettlementRecovery : program unit :=
  if negb (rd_controller D && rd_ctrlTracker D) then Ret tt
  else call! receipts := RPendingReceipts in enqueue_receipts receipts.

Definition trackerPIDGeneration (taskName : string) : program Z :=
  if negb (rd_controller D && rd_ctrlTracker D) then Ret 0
  else
    call! entry := RGet taskName in
    Ret (match entry with Some e => te_PIDGeneration e | None => 0 end).

Definition idle_restart (taskName : string) : LoopEvent :=
  mkEvent (Ev EvManualRestart) taskName
    (mkBody None None None None false "" false false true None None None None false 0 None reallocOutcomeFailed 0 0 0 None).
Definition postIdleRespawnAndWait (taskName : string) (timeout : duration) : program (option error) :=
  if negb has_loop then Ret (Some (errors_New "controller event loop unavailable"))
  else
    do! RPost (idle_restart taskName) in
    call! w := RWaitIdle timeout in
    Ret (match w with
         | IdleReply err => err
         | IdleCancelled err => Some err
         | IdleTimeout => Some (errors_New "timed out waiting for idle respawn state-machine transition")
         end).

Definition restart_poll : duration := 10 * Millisecond.
(** One turn of the wait for the new process. *)
Definition restart_round (taskName : string) (startGen : Z) (deadline : time) (_u : unit) : program (unit + option error) :=
  let expired :=
    call! now := RNow in
    if negb (Before now deadline)
    then
      call! st := RSMState taskName in
      Ret (inr (Some (errors_New ("timed out waiting for running-daemon restart to respawn (state " +:+
                                  smstate_string (default StIdle st) +:+ ")"))))
    else
      call! err := RSleep restart_poll in
      match err with
      | Some err => Ret (inr (Some err))
      | None => Ret (inl tt)
      end in
  call! st := RSMState taskName in
  match st with
  | Some StRunning =>
      ITree.bind (trackerPIDGeneration taskName) (fun gen => if startGen <? gen then Ret (inr None) else expired)
  | _ => expired
  end.
Definition postManualRestartAndWaitRunning (taskName : string) (timeout : duration) : program (option error) :=
  if negb has_loop then Ret (Some (errors_New "controller event loop unavailable"))
  else
    ITree.bind (trackerPIDGeneration taskName) (fun startGen =>
    do! RPost (event (Ev EvManualRestart) taskName) in
    call! now := RNow in
    ITree.iter (restart_round taskName startGen (now + timeout)) tt).

Definition hydrateSMStateFromTrackerIfMissing (taskName : string) : program SMState :=
  if negb (rd_controller D) then Ret StIdle
  else
    call! st := RSMState taskName in
    match st with
    | Some st => Ret st
    | None =>
        let seed (s : SMState) : program SMState := do! RStoreSMState taskName s in Ret s in
        if negb (rd_ctrlTracker D) then seed StIdle
        else
          call! entry := RGet taskName in
          seed (match entry with
                | Some e =>
                    if te_State e =s daemonRuntimeStateQuarantine then StQuarantined
                    else if te_State e =s daemonRuntimeStateBackoff then StBackoffWaiting
                    else StIdle
                | None => StIdle
                end)
    end.

Definition shouldRouteNonRunningRespawnThroughController (taskName : string) : program (bool * option error) :=
  if negb has_loop then Ret (false, None)
  else
    call! st := RSMState taskName in
    let st := default StIdle st in
    Ret (match st with
         | StIdle | StBackoffWaiting | StQuarantined => (true, None)
         | StSpawning | StRunning | StExiting =>
             (false, Some (errors_New ("controller state " +:+ smstate_string st +:+
                                       " is not directly spawnable without a live PID")))
         end).

(** ** The handler *)
Definition gracefulTimeout : duration := 5000 * Millisecond.

(** The descriptor: the controller's live intent, or the start-up snapshot. *)
Definition resolve_descriptor (taskName : string) : program (option SupervisorDaemon) :=
  let snapshot :=
    match rd_intent D with
    | Some f => List.find (fun d => NormalizeOverlayKey (sd_TaskName d) =s taskName) (si_Daemons f)
    | None => None
    end in
  if rd_controller D && rd_intentCache D
  then call! d := RLookup taskName in Ret (match d with Some d => Some d | None => snapshot end)
  else Ret snapshot.

(** What the tracker and the controller say of the task: the runtime state,
    whether there is a process to stop, and the controller's state. *)
Record respawn_state := mkRespawnState { rp_state : string; rp_terminate : bool; rp_sm : option SMState }.
Definition observe_state (taskName : string) : program respawn_state :=
  let with_sm (state : string) (shouldTerminate : bool) : program respawn_state :=
    if negb (rd_controller D) then Ret (mkRespawnState state shouldTerminate None)
    else
      call! sm := RSMState taskName in
      Ret (mkRespawnState state
             (match sm with
              | Some StIdle | Some StBackoffWaiting | Some StQuarantined => false
              | _ => shouldTerminate
              end) sm) in
  if negb (rd_runtimeTracker D) then with_sm daemonRuntimeStateIdle true
  else
    call! entry := RGet taskName in
    match entry with
    | Some e => with_sm (te_State e) (0 <? te_CurrentPID e)
    | None => with_sm daemonRuntimeStateIdle false
    end.
Definition quarantined (st : respawn_state) : bool :=
  (rp_state st =s daemonRuntimeStateQuarantine) || bool_decide (rp_sm st = Some StQuarantined).

(** The last step: the answer to the error of the respawn. *)
Definition report_spawn (taskName : string) (spawnErr : option error) : program respawn_answer :=
  match spawnErr with
  | Some err =>
      if errors_Is err errIdleRespawnRefusedIntentStopped
      then Ret (refuse ipcErrorRespawnRefusedIntentStop "respawn refused: the supervisor-intent.json stops sub-block records Desired=stopped; write Desired=running first (mcphub restart re-asserts it) then retry")
      else Ret (refuse ipcErrorRespawnFailed ("spawn failed: " +:+ err_text err))
  | None => do! RAudit "info" "supervisor-respawn-via-gui" taskName in Ret (RespawnSpawned taskName None)
  end.

(** After the stop, if there was one: the controller's idle route, or the
    closure of the tests. *)
Definition route_spawn (d : SupervisorDaemon) (taskName : string) (shouldTerminate : bool) : program respawn_answer :=
  let go (routed : bool) (spawnErr : option error) : program respawn_answer :=
    if negb (rd_allowDirectRespawnForTest D) && negb routed
    then Ret (retry_later "controller cannot accept this respawn state yet; retry")
    else
      match spawnErr with
      | Some _ => report_spawn taskName spawnErr
      | None =>
          if routed then ITree.bind (postIdleRespawnAndWait taskName gracefulTimeout) (report_spawn taskName)
          else call! err := RSpawn d in report_spawn taskName err
      end in
  if shouldTerminate then go false None
  else
    ITree.bind (if rd_controller D then hydrateSMStateFromTrackerIfMissing taskName else Ret StIdle) (fun _ =>
    ITree.bind (shouldRouteNonRunningRespawnThroughController taskName) (fun '(routed, err) => go routed err)).

Definition stop_and_spawn (d : SupervisorDaemon) (taskName : string) (shouldTerminate : bool) : program respawn_answer :=
  if shouldTerminate && negb (rd_allowDirectRespawnForTest D)
  then Ret (retry_later "controller cannot accept this respawn state yet; retry")
  else
    call! termStart := RNow in
    let go_on : program respawn_answer :=
      call! now := RNow in
      if gracefulTimeout <? time_Sub now termStart
      then do! RAudit "warn" "supervisor-respawn-graceful-timeout" taskName in route_spawn d taskName shouldTerminate
      else route_spawn d taskName shouldTerminate in
    if shouldTerminate then
      call! err := RTerminate d in
      match err with
      | Some err =>
          do! RAudit "error" "supervisor-respawn-terminate-failed" taskName in
          Ret (refuse ipcErrorRespawnTerminateFailed
                 ("terminate failed; respawn aborted to prevent duplicate process: " +:+ err_text err))
      | None => go_on
      end
    else go_on.

(** A running or exiting daemon is restarted by the controller. *)
Definition restart_running (d : SupervisorDaemon) (taskName : string) (st : respawn_state) : program respawn_answer :=
  if rp_terminate st && has_loop && match rp_sm st with Some StRunning | Some StExiting => true | _ => false end then
    ITree.bind (postManualRestartAndWaitRunning taskName gracefulTimeout) (fun err =>
    match err with
    | Some err =>
        do! RAudit "error" "supervisor-respawn-controller-restart-failed" taskName in
        Ret (refuse ipcErrorRespawnFailed ("controller-routed restart failed: " +:+ err_text err))
    | None =>
        do! RAudit "info" "supervisor-respawn-via-gui" taskName in
        Ret (RespawnSpawned taskName (Some controllerManualRestart))
    end)
  else stop_and_spawn d taskName (rp_terminate st).

(** A daemon without a process is spawned only when the stop before it has
    settled. *)
Definition settle_before_spawn (d : SupervisorDaemon) (taskName : string) (st : respawn_state) : program respawn_answer :=
  match (if negb (rp_terminate st) && has_loop then EffectiveDaemonPort d (rd_resolve D) else None) with
  | Some port =>
      if 0 <? port then
        call! settlements := RSettle [mkTarget taskName port] in
        let settlement :=
          match settlements with [s] => s | _ => incomplete taskName 0 "stop settlement result missing" end in
        if negb (ss_State settlement =s StoppedSettlementStopped) || negb (ss_Reason settlement =s ReasonStopped)
        then Ret (RespawnError (mkIPCErr ipcErrorRespawnStopSettlement
                    ("respawn blocked until prior stop settles: " +:+ ss_Reason settlement +:+ ": " +:+ ss_Error settlement)
                    (ss_State settlement =s StoppedSettlementIncomplete)))
        else restart_running d taskName st
      else restart_running d taskName st
  | None => restart_running d taskName st
  end.

Definition handleRespawn (taskNameRaw : string) (force : bool) : program respawn_answer :=
  if taskNameRaw =s "" then Ret (refuse ipcErrorInvalidArgs "task_name is required")
  else
    let taskName := NormalizeOverlayKey taskNameRaw in
    if negb (rd_spawnFn D) || negb (rd_terminateFn D)
    then Ret (retry_later "supervisor still starting; respawn not yet wired")
    else
      ITree.bind (resolve_descriptor taskName) (fun desc =>
      match desc with
      | None => Ret (refuse ipcErrorUnknownTask ("task_name not in supervisor-intent.json: " +:+ taskNameRaw))
      | Some d =>
          if negb (rd_allowDirectRespawnForTest D) && negb has_loop
          then Ret (retry_later "supervisor controller is not ready; retry respawn")
          else
            ITree.bind (if rd_controller D then enqueuePendingStopSettlementRecovery else Ret tt) (fun _ =>
            if IsSerenaProxyDescriptor d && bool_decide (sd_RuntimeSpec d = None)
            then Ret (refuse ipcErrorRespawnFailed ("legacy serena-proxy descriptor for " +:+ taskNameRaw +:+ " carries no runtime_spec (pre-redesign / stale row) and cannot be respawned; re-install the serena dynamic pool to re-materialize its runtime_spec, then retry"))
            else
              ITree.bind (observe_state taskName) (fun st =>
              if quarantined st && negb force
              then
                do! RAudit "info" "supervisor-respawn-refused-quarantined" taskName in
                Ret (refuse ipcErrorRespawnQuarantined "daemon is quarantined; pass force=true to override")
              else settle_before_spawn d taskName st))
      end).
End Respawn.

(** ** Properties *)

(** *** What a request does, and on which evidence *)

(** A call that posts no event and touches no process. *)
Definition quiet (l : ev rspE) : Prop :=
  match l with Log e _ => match e with RPost _ | RPostCtx _ | RSpawn _ | RTerminate _ => False | _ => True end end.
(** Before anything is done: such calls, and the commands for the recovery of
    pending stops. *)
Definition preparatory (l : ev rspE) : Prop :=
  match l with
  | Log e _ => match e with
               | RPost _ | RSpawn _ | RTerminate _ => False
               | RPostCtx e => exists key, e = event evStopSettlementRecovery key
               | _ => True
               end
  end.
Lemma quiet_preparatory l : Forall quiet l -> Forall preparatory l.
Proof. intros Hl. apply (Forall_impl _ _ _ Hl). by intros [X [] x]. Qed.

Section Evidence.
Context (D : respawn_deps) (production : rd_allowDirectRespawnForTest D = false).
Context (taskNameRaw : string) (force : bool).
Notation task := (NormalizeOverlayKey taskNameRaw).

Definition known_descriptor (before : list (ev rspE)) (d : SupervisorDaemon) : Prop :=
  Log (RLookup task) (Some d) ∈ before \/
  exists f, rd_intent D = Some f /\ d ∈ si_Daemons f /\ NormalizeOverlayKey (sd_TaskName d) = task.
Definition seen_unquarantined (before : list (ev rspE)) : Prop :=
  (rd_runtimeTracker D = true -> exists entry, Log (RGet task) entry ∈ before /\
     forall e, entry = Some e -> te_State e <> daemonRuntimeStateQuarantine) /\
  exists sm, Log (RSMState task) sm ∈ before /\ sm <> Some StQuarantined.
Definition seen_process (before : list (ev rspE)) : Prop :=
  rd_runtimeTracker D = true -> exists e, Log (RGet task) (Some e) ∈ before /\ 0 < te_CurrentPID e.
Definition seen_state (before : list (ev rspE)) (states : list SMState) : Prop :=
  exists sm, Log (RSMState task) sm ∈ before /\ default StIdle sm ∈ states.
Definition settled_before (before : list (ev rspE)) (d : SupervisorDaemon) : Prop :=
  forall port, EffectiveDaemonPort d (rd_resolve D) = Some port -> 0 < port ->
    exists s, Log (RSettle [mkTarget task port]) [s] ∈ before /\ stopped_result s.

(** Why an event may be posted: nothing was done before it, the daemon is
    known and spawnable, it was not quarantined or the operator insists, and
    either it ran under the controller, or the stop before has settled. *)
Record may_post (before : list (ev rspE)) (e : LoopEvent) : Prop := mkMayPost {
  mp_first : Forall preparatory before;
  mp_quarantine : force = true \/ seen_unquarantined before;
  mp_route : exists d, known_descriptor before d /\ ~ (IsSerenaProxyDescriptor d = true /\ sd_RuntimeSpec d = None) /\
    ((e = event (Ev EvManualRestart) task /\ seen_process before /\ seen_state before [StRunning; StExiting]) \/
     (e = idle_restart task /\ settled_before before d /\
      seen_state before [StIdle; StBackoffWaiting; StQuarantined]));
}.
(** Why the recovery of a stop may be commanded: its receipt is one of those
    pending, and the command's token has just been reserved. *)
Definition may_recover (before : list (ev rspE)) (e : LoopEvent) : Prop :=
  exists before' receipts receipt, let key := canonicalSupervisorTaskName (sr_TaskName receipt) in
    before = before' ++ [Log (RArmRecovery key) false] /\ Forall preparatory before' /\
    Log RPendingReceipts receipts ∈ before' /\ receipt ∈ receipts /\ e = event evStopSettlementRecovery key.
Definition respawn_guard (before : list (ev rspE)) (l : ev rspE) : Prop :=
  match l with
  | Log e _ => match e with
               | RPost e => may_post before e
               | RPostCtx e => may_recover before e
               | RSpawn _ | RTerminate _ => False
               | _ => True
               end
  end.

Lemma quiet_guard before l : quiet l -> respawn_guard before l.
Proof. by destruct l as [X [] x]. Qed.
Lemma quiet_guarded {A} before (p : program A) : only quiet p -> guarded respawn_guard before p.
Proof. apply guarded_only. exact quiet_guard. Qed.

Lemma generation_quiet t : only quiet (trackerPIDGeneration D t).
Proof. unfold trackerPIDGeneration. walk_only. Qed.
Lemma command_preparatory t : only preparatory (enqueueStopSettlementRecovery D t).
Proof.
  unfold enqueueStopSettlementRecovery. apply only_if; [walk_only|]. apply only_vis; [done|]. intros b.
  destruct b; [walk_only|]. apply only_vis; [intros ?; by eexists|]. intros err. walk_only.
Qed.
Lemma recovery_preparatory : only preparatory (enqueuePendingStopSettlementRecovery D).
Proof.
  assert (forall l, only preparatory (enqueue_receipts D l)) as Hr.
  { induction l as [|r l IH]; cbn; [walk_only|]. apply only_bind; [apply command_preparatory|done]. }
  unfold enqueuePendingStopSettlementRecovery. apply only_if; [walk_only|]. apply only_vis; [done|]. intros. apply Hr.
Qed.
Lemma recovery_guarded before :
  Forall preparatory before -> guarded respawn_guard before (enqueuePendingStopSettlementRecovery D).
Proof.
  intros Hb. unfold enqueuePendingStopSettlementRecovery. destruct (negb _); [apply guarded_ret|].
  apply guarded_vis; [done|]. intros receipts.
  assert (forall rest b, Forall preparatory b -> Log RPendingReceipts receipts ∈ b -> rest ⊆ receipts ->
    guarded respawn_guard b (enqueue_receipts D rest)) as Hr.
  { induction rest as [|r rest IH]; intros b Hp Hin Hsub; cbn; [apply guarded_ret|]. apply guarded_bind.
    - unfold enqueueStopSettlementRecovery. destruct (negb _); [apply guarded_ret|]. apply guarded_vis; [done|].
      intros []; [apply guarded_ret|]. apply guarded_vis; intros err.
      + exists b, receipts, r. split_and!; [done..| |done]. set_solver.
      + apply quiet_guarded. walk_only.
    - intros [] tr H. apply IH; [|set_solver|set_solver]. apply Forall_app. split; [done|].
      by eapply command_preparatory. }
  apply Hr; [|set_solver|done]. apply Forall_app. by repeat constructor.
Qed.
Lemma resolve_quiet : only quiet (resolve_descriptor D task).
Proof. unfold resolve_descriptor. walk_only. Qed.
Lemma state_quiet : only quiet (observe_state D task).
Proof. unfold observe_state. walk_only. Qed.
Lemma report_quiet err : only quiet (report_spawn task err).
Proof. unfold report_spawn. walk_only. Qed.
Lemma hydrate_quiet t : only quiet (hydrateSMStateFromTrackerIfMissing D t).
Proof. unfold hydrateSMStateFromTrackerIfMissing. walk_only. Qed.
Lemma should_route_quiet t : only quiet (shouldRouteNonRunningRespawnThroughController D t).
Proof. unfold shouldRouteNonRunningRespawnThroughController. walk_only. Qed.
Lemma restart_wait_quiet startGen deadline : only quiet (ITree.iter (restart_round D task startGen deadline) tt).
Proof. unfold restart_round. pose proof generation_quiet. walk_only; eauto. Qed.

Lemma resolve_known tr d : runs (resolve_descriptor D task) tr (Some (Some d)) -> known_descriptor tr d.
Proof.
  unfold resolve_descriptor. set (snapshot := match rd_intent D with Some f => _ | None => None end).
  assert (forall tr, snapshot = Some d -> known_descriptor tr d) as Hs.
  { intros tr'. unfold snapshot. destruct (rd_intent D) as [f|] eqn:Hf; [|done]. intros [Hin Ht]%find_some. right.
    exists f. split_and!; [done|by apply list_elem_of_In|by apply String.eqb_eq]. }
  destruct (_ && _); intros H; [|step_returns H; by apply Hs]. step_returns H. step_returns H.
  destruct x as [d'|]; [|by apply Hs]. simplify_eq. left. by left.
Qed.

(** The evidence grows with the calls. *)
Lemma seen_mono before l :
  (forall d, known_descriptor before d -> known_descriptor (before ++ l) d) /\
  (seen_unquarantined before -> seen_unquarantined (before ++ l)) /\
  (seen_process before -> seen_process (before ++ l)) /\
  (forall states, seen_state before states -> seen_state (before ++ l) states) /\
  (forall d, settled_before before d -> settled_before (before ++ l) d).
Proof.
  assert (forall x, x ∈ before -> x ∈ before ++ l) as Hm by (intros; apply elem_of_app; by left).
  split_and!.
  - intros d [?|?]; [left; auto|by right].
  - intros [He (sm&?&?)]. split; [|eauto]. intros Ht. destruct (He Ht) as (e&?&?). eauto.
  - intros He Ht. destruct (He Ht) as (e&?&?). eauto.
  - intros states (sm&?&?). exists sm. auto.
  - intros d Hs port Hp H0. destruct (Hs port Hp H0) as (s&?&?). eauto.
Qed.

Lemma observe_state_seen tr st :
  rd_controller D = true -> runs (observe_state D task) tr (Some st) ->
  (quarantined st = false -> seen_unquarantined tr) /\ (rp_terminate st = true -> seen_process tr) /\
  Log (RSMState task) (rp_sm st) ∈ tr.
Proof.
  intros Hc. unfold observe_state. rewrite Hc. cbn [negb]. intros H. unfold quarantined.
  assert (forall state b st tr, runs (call! sm := RSMState task in
      Ret (mkRespawnState state match sm with Some StIdle | Some StBackoffWaiting | Some StQuarantined => false
                                | _ => b end sm)) tr (Some st) ->
    tr = [Log (RSMState task) (rp_sm st)] /\ rp_state st = state /\ (rp_terminate st = true -> b = true)) as Hsm.
  { clear H st tr. intros state b st tr H. step_returns H. step_returns H. split_and!; [done..|].
    cbn. by destruct x as [[]|]. }
  destruct (rd_runtimeTracker D) eqn:Ht; cbn [negb] in H.
  - step_returns H. destruct x as [e|]; apply Hsm in H as (->&Hs&Hb).
    + rewrite Hs. split_and!; [|intros ?%Hb _; exists e; split; [left|by apply Z.ltb_lt]|right; left].
      intros Hq. breflect. destruct Hq as [Hq1 Hq2].
      split; [intros _; exists (Some e); split; [left|by intros ? [= <-]]|]. exists (rp_sm st). split; [right; left|done].
    + split_and!; [|by intros ?%Hb|right; left]. intros Hq. apply orb_false_iff in Hq as [_ Hq%bool_decide_eq_false].
      split; [intros _; exists None; by split; [left|]|]. exists (rp_sm st). split; [right; left|done].
  - apply Hsm in H as (->&Hs&_). split_and!; [|intros _ ?; congruence|left]. intros Hq.
    apply orb_false_iff in Hq as [_ Hq%bool_decide_eq_false]. split; [congruence|].
    exists (rp_sm st). split; [left|done].
Qed.

(** What has been established when the state has been looked at. *)
Record checked (before : list (ev rspE)) (d : SupervisorDaemon) (st : respawn_state) : Prop := mkChecked {
  ck_prepared : Forall preparatory before;
  ck_quarantine : force = true \/ seen_unquarantined before;
  ck_known : known_descriptor before d;
  ck_spawnable : ~ (IsSerenaProxyDescriptor d = true /\ sd_RuntimeSpec d = None);
  ck_process : rp_terminate st = true -> seen_process before;
  ck_sm : Log (RSMState task) (rp_sm st) ∈ before;
}.
Lemma checked_app before l d st : Forall quiet l -> checked before d st -> checked (before ++ l) d st.
Proof.
  intros Hl [Hq Hn Hk Hs Hp Hm]. destruct (seen_mono before l) as (M1&M2&M3&_). split; try auto.
  - apply Forall_app. split; [done|by apply quiet_preparatory].
  - destruct Hn; auto.
  - apply elem_of_app. by left.
Qed.

Lemma restart_guarded before d st :
  checked before d st -> rp_terminate st = true ->
  match rp_sm st with Some StRunning | Some StExiting => True | _ => False end ->
  guarded respawn_guard before (postManualRestartAndWaitRunning D task gracefulTimeout).
Proof.
  intros Hc Ht Hs. unfold postManualRestartAndWaitRunning. destruct (negb _); [apply guarded_ret|].
  apply guarded_bind; [apply quiet_guarded, generation_quiet|]. intros startGen tr Htr.
  apply generation_quiet in Htr. apply (checked_app before tr) in Hc; [|done].
  apply guarded_vis; intros ?.
  - destruct Hc as [Hq Hn Hk Hsp Hp Hm]. split; [done|done|]. exists d. split_and!; [done|done|]. left.
    split_and!; [done|auto|]. exists (rp_sm st). split; [done|]. destruct (rp_sm st) as [[]|]; try done; set_solver.
  - apply quiet_guarded. apply only_vis; [done|]. intros now. apply restart_wait_quiet.
Qed.

Lemma idle_guarded before d st :
  checked before d st -> settled_before before d -> guarded respawn_guard before (route_spawn D d task false).
Proof.
  intros Hc Hd. unfold route_spawn. rewrite production. cbn [negb andb].
  apply guarded_bind.
  { destruct (rd_controller D); [apply quiet_guarded, hydrate_quiet|apply guarded_ret]. }
  intros s tr Htr. assert (Forall quiet tr) as Hq1.
  { destruct (rd_controller D); [by apply hydrate_quiet in Htr|by step_returns Htr]. }
  apply guarded_bind; [apply quiet_guarded, should_route_quiet|]. intros [routed err] tr2 Htr2.
  pose proof (should_route_quiet _ _ _ Htr2) as Hq2. unfold shouldRouteNonRunningRespawnThroughController in Htr2.
  destruct (negb (has_loop D)); [step_returns Htr2; apply guarded_ret|]. step_returns Htr2. step_returns Htr2.
  apply (checked_app _ _ _ _ Hq1), (checked_app _ _ _ _ Hq2) in Hc.
  assert (routed = true -> seen_state ((before ++ tr) ++ [Log (RSMState task) x]) [StIdle; StBackoffWaiting; StQuarantined]) as Hst.
  { intros ->. exists x. split; [apply elem_of_app; right; left|]. destruct x as [[]|]; simplify_eq/=; set_solver. }
  destruct routed; [|apply guarded_ret]. destruct err; [apply quiet_guarded, report_quiet|].
  cbn [negb]. apply guarded_bind; [|intros; apply quiet_guarded, report_quiet].
  unfold postIdleRespawnAndWait. destruct (negb _); [apply guarded_ret|]. apply guarded_vis; intros ?.
  - destruct Hc as [Hq Hn Hk Hsp Hp Hm]. split; [done|done|]. exists d. split_and!; [done|done|]. right.
    split_and!; [done| |auto]. by apply seen_mono, seen_mono.
  - apply quiet_guarded. walk_only.
Qed.

Lemma stop_guarded before d st :
  checked before d st -> (rp_terminate st = false -> settled_before before d) ->
  guarded respawn_guard before (stop_and_spawn D d task (rp_terminate st)).
Proof.
  intros Hc Hd. unfold stop_and_spawn. rewrite production. destruct (rp_terminate st); [apply guarded_ret|].
  cbn [andb negb]. specialize (Hd eq_refl).
  assert (forall l, Forall quiet l -> guarded respawn_guard (before ++ l) (route_spawn D d task false)) as Hr.
  { intros l Hl. eapply idle_guarded; [by apply checked_app|by apply seen_mono]. }
  apply guarded_vis; [done|]. intros t0. apply guarded_vis; [done|]. intros t1. rewrite <- !app_assoc.
  destruct (_ <? _); [|by apply Hr; repeat constructor]. apply guarded_vis; [done|]. intros ?. rewrite <- app_assoc.
  apply Hr. by repeat constructor.
Qed.

Lemma running_guarded before d st :
  checked before d st -> (rp_terminate st = false -> settled_before before d) ->
  guarded respawn_guard before (restart_running D d task st).
Proof.
  intros Hc Hd. unfold restart_running. destruct (_ && _) eqn:Hb; [|by apply stop_guarded].
  apply andb_true_iff in Hb as [[Ht _]%andb_true_iff Hs]. apply guarded_bind.
  - eapply restart_guarded; [done..|]. by destruct (rp_sm st) as [[]|].
  - intros [err|] tr _; apply quiet_guarded; walk_only.
Qed.

Lemma settle_guarded before d st :
  has_loop D = true -> checked before d st -> guarded respawn_guard before (settle_before_spawn D d task st).
Proof.
  intros Hl Hc. unfold settle_before_spawn. rewrite Hl, andb_true_r.
  destruct (rp_terminate st) eqn:Ht; cbn [negb].
  { apply running_guarded; [done|congruence]. }
  destruct (EffectiveDaemonPort d _) as [port|] eqn:Hp.
  2: { apply running_guarded; [done|]. intros _ port'. congruence. }
  destruct (Z.ltb_spec 0 port).
  2: { apply running_guarded; [done|]. intros _ port' Hp'. assert (port' = port) by congruence. lia. }
  apply guarded_vis; [done|]. intros settlements. set (s := match settlements with [_] => _ | _ => _ end).
  destruct (_ || _) eqn:Hb; [apply guarded_ret|]. breflect. destruct Hb as [Hb1 Hb2].
  apply running_guarded; [apply checked_app; [by repeat constructor|done]|]. intros _ port' Hp' _.
  rewrite Hp in Hp'. injection Hp' as <-. exists s. split; [|done]. apply elem_of_app. right.
  subst s. destruct settlements as [|s [|? ?]]; [done|left|done].
Qed.

(** C31: what a respawn request may do.  In production it never calls the
    spawn and terminate closures itself.  First it may command the recovery
    of stops, for a receipt that is pending and directly after reserving the
    command's token.  Then it posts at most one restart to the controller's
    loop, and only for a daemon of the intent that can be spawned and that was
    not quarantined when looked at, unless the operator insists.  A daemon
    without a process is respawned only after the stop before it has settled
    on its exact port, if it has one, and only from a state the controller can
    spawn in.  A
    manual restart is posted when the tracker shows a process and the
    controller runs it or, with a stop perhaps still in flight, is stopping
    it. *)
Theorem respawn_guarded tr o pre l post :
  runs (handleRespawn D taskNameRaw force) tr o -> tr = pre ++ l :: post -> respawn_guard pre l.
Proof.
  enough (guarded respawn_guard [] (handleRespawn D taskNameRaw force)) as Hg by (intros H Etr; exact (Hg _ _ H _ _ _ Etr)).
  unfold handleRespawn. destruct (_ =s _); [apply guarded_ret|]. destruct (_ || _); [apply guarded_ret|].
  apply guarded_bind; [apply quiet_guarded, resolve_quiet|]. intros [d|] tr1 H1; [|apply guarded_ret].
  pose proof (resolve_quiet _ _ H1) as Q1. apply resolve_known in H1. rewrite production. cbn [negb andb].
  destruct (has_loop D) eqn:Hl; cbn [negb]; [|apply guarded_ret].
  assert (rd_controller D = true) as Hctl by (by apply andb_true_iff in Hl as [? _]). rewrite Hctl.
  apply quiet_preparatory in Q1.
  apply guarded_bind; [by apply recovery_guarded|]. intros [] tr2 H2. pose proof (recovery_preparatory _ _ H2) as Q2.
  destruct (IsSerenaProxyDescriptor d && _) eqn:Hs; [apply guarded_ret|].
  apply guarded_bind; [apply quiet_guarded, state_quiet|]. intros st tr3 H3. pose proof (quiet_preparatory _ (state_quiet _ _ H3)) as Q3.
  destruct (observe_state_seen _ _ Hctl H3) as (Hq&Hp&Hm).
  destruct (quarantined st && negb force) eqn:Hf; [apply quiet_guarded; walk_only|].
  apply settle_guarded; [done|]. cbn [app]. split.
  - rewrite !Forall_app. done.
  - destruct force; [by left|right]. rewrite andb_true_r in Hf. specialize (Hq Hf).
    destruct Hq as [He (sm&?&?)]. split; [|exists sm; split; [apply elem_of_app; by right|done]].
    intros Ht. destruct (He Ht) as (e&?&?). exists e. split; [apply elem_of_app; by right|done].
  - by apply seen_mono, seen_mono.
  - intros [Ha Hb]. by rewrite Ha, bool_decide_eq_true_2 in Hs.
  - intros Ht Htr. destruct (Hp Ht Htr) as (e&?&?). exists e. split; [apply elem_of_app; by right|done].
  - apply elem_of_app. by right.
Qed.

(** *** What an answer rests on *)
Definition generation_of (entry : option DaemonRuntimeEntry) : Z :=
  match entry with Some e => te_PIDGeneration e | None => 0 end.

(** The answer, by the end of the run: a respawn is reported only when the
    controller has spawned; the refusal for a stop is the controller's; any
    other refusal than a failed respawn has changed nothing. *)
Definition outcome_ok (tr : list (ev rspE)) (a : respawn_answer) : Prop :=
  match a with
  | RespawnSpawned t (Some route) =>
      t = task /\ route = controllerManualRestart /\
      exists pre old mid new audit,
        tr = pre ++ [Log (RGet task) old; Log (RPost (event (Ev EvManualRestart) task)) tt] ++ mid ++
               [Log (RSMState task) (Some StRunning); Log (RGet task) new; audit] /\
        generation_of old < generation_of new
  | RespawnSpawned t None =>
      t = task /\
      exists pre audit, tr = pre ++ [Log (RPost (idle_restart task)) tt; Log (RWaitIdle gracefulTimeout) (IdleReply None); audit]
  | RespawnError e =>
      (ie_Code e = ipcErrorRespawnRefusedIntentStop ->
        exists pre w err, tr = pre ++ [Log (RPost (idle_restart task)) tt; Log (RWaitIdle gracefulTimeout) w] /\
          (w = IdleReply (Some err) \/ w = IdleCancelled err) /\
          errors_Is err errIdleRespawnRefusedIntentStopped = true) /\
      (Forall preparatory tr \/ ie_Code e = ipcErrorRespawnFailed \/ ie_Code e = ipcErrorRespawnRefusedIntentStop)
  end.

Lemma outcome_after l tr a : Forall preparatory l -> outcome_ok tr a -> outcome_ok (l ++ tr) a.
Proof.
  intros Hl. destruct a as [e|t [route|]]; cbn.
  - intros [Hs Hq]. split.
    + intros Hc. destruct (Hs Hc) as (pre&w&err&->&H). exists (l ++ pre), w, err. by rewrite app_assoc.
    + destruct Hq as [Hq|Hq]; [left; by apply Forall_app|by right].
  - intros (Ht&Hr&pre&old&mid&new&audit&->&Hg). split_and!; [done..|]. exists (l ++ pre), old, mid, new, audit.
    by rewrite <- app_assoc.
  - intros (Ht&pre&audit&->). split; [done|]. exists (l ++ pre), audit. by rewrite <- app_assoc.
Qed.
Lemma outcome_app l tr a : Forall quiet l -> outcome_ok tr a -> outcome_ok (l ++ tr) a.
Proof. intros Hl. by apply outcome_after, quiet_preparatory. Qed.
Lemma answer_refused e tr :
  Forall preparatory tr -> ie_Code e <> ipcErrorRespawnRefusedIntentStop -> outcome_ok tr (RespawnError e).
Proof. intros Hq Hc. split; [done|by left]. Qed.

Lemma idle_outcome tr a :
  has_loop D = true ->
  runs (ITree.bind (postIdleRespawnAndWait D task gracefulTimeout) (report_spawn task)) tr (Some a) -> outcome_ok tr a.
Proof.
  intros Hl (err&l&tr2&->&H1&H2)%returns_bind. unfold postIdleRespawnAndWait in H1. rewrite Hl in H1. cbn [negb] in H1.
  do 2 step_returns H1. destruct x. step_returns H1.
  unfold report_spawn in H2. destruct x0 as [err|err|]; cbv beta iota in H2.
  - destruct err as [err|].
    + destruct (errors_Is err _) eqn:He; step_returns H2; (split; [intros Hc|right; auto]); [|done].
      by exists [], (IdleReply (Some err)), err; split_and!; [|left|].
    + do 2 step_returns H2. split; [done|]. by exists [], (Log (RAudit "info" "supervisor-respawn-via-gui" task) x).
  - destruct (errors_Is err _) eqn:He; step_returns H2; (split; [intros Hc|right; auto]); [|done].
    by exists [], (IdleCancelled err), err; split_and!; [|right|].
  - destruct (errors_Is _ _) eqn:He; [by vm_compute in He|]. step_returns H2. split; [done|right; auto].
Qed.

Lemma route_outcome d tr a :
  has_loop D = true -> runs (route_spawn D d task false) tr (Some a) -> outcome_ok tr a.
Proof.
  intros Hl. unfold route_spawn. rewrite production. cbn [negb andb].
  intros (s&l1&tr1&->&H1&H)%returns_bind. apply outcome_app.
  { destruct (rd_controller D); [by apply hydrate_quiet in H1|by step_returns H1]. }
  apply returns_bind in H as ([routed err]&l2&tr2&->&H2&H). apply outcome_app; [by apply should_route_quiet in H2|].
  unfold shouldRouteNonRunningRespawnThroughController in H2. rewrite Hl in H2. cbn [negb] in H2. do 2 step_returns H2.
  destruct routed; cbn [negb] in H; [|step_returns H; by apply answer_refused].
  destruct err; [destruct x as [[]|]; simplify_eq/=|]. by apply idle_outcome.
Qed.

Lemma stop_outcome d b tr a :
  has_loop D = true -> runs (stop_and_spawn D d task b) tr (Some a) -> outcome_ok tr a.
Proof.
  intros Hl. unfold stop_and_spawn. rewrite production. destruct b; cbn [negb andb]; intros H.
  { step_returns H. by apply answer_refused. }
  do 2 step_returns H. assert (forall x l, quiet x -> outcome_ok l a -> outcome_ok (x :: l) a) as Hc.
  { intros y l Hy. apply (outcome_app [y]). by repeat constructor. }
  do 2 (apply Hc; [done|]). destruct (_ <? _); [|by eapply route_outcome].
  step_returns H. apply Hc; [done|]. by eapply route_outcome.
Qed.

Lemma generation_runs tr gen :
  runs (trackerPIDGeneration D task) tr (Some gen) ->
  if rd_controller D && rd_ctrlTracker D
  then exists entry, tr = [Log (RGet task) entry] /\ gen = generation_of entry
  else tr = [] /\ gen = 0.
Proof. unfold trackerPIDGeneration. destruct (_ && _); cbn [negb]; intros H; repeat step_returns H; [by exists x|done]. Qed.

(** The wait for a new process ends well only when there is one. *)
Lemma restart_wait_success startGen deadline tr :
  runs (ITree.iter (restart_round D task startGen deadline) tt) tr (Some None) ->
  exists mid l gen, tr = mid ++ Log (RSMState task) (Some StRunning) :: l /\
    runs (trackerPIDGeneration D task) l (Some gen) /\ startGen < gen.
Proof.
  intros H. apply returns_iter in H. remember None as err eqn:Eerr.
  induction H as [[] tr err H|[] [] tr1 tr2 err _ _ IH]; subst err.
  2: { destruct (IH eq_refl) as (mid&l&gen&->&Hg). exists (tr1 ++ mid), l, gen. by rewrite <- app_assoc. }
  unfold restart_round in H.
  assert (forall tr, ~ runs (call! now := RNow in if negb (Before now deadline)
    then (call! st := RSMState task in Ret (inr (Some (errors_New ("timed out waiting for running-daemon restart to respawn (state " +:+
                                  smstate_string (default StIdle st) +:+ ")")))))
    else (call! err := RSleep restart_poll in
      match err with Some err => Ret (inr (Some err)) | None => Ret (inl tt) end)) tr (Some (inr None))) as Hexp.
  { clear. intros tr H. step_returns H. destruct (negb _); [by do 2 step_returns H|]. step_returns H.
    destruct x0; by step_returns H. }
  step_returns H. destruct x as [[]|]; try (by apply Hexp in H).
  apply returns_bind in H as (gen&l&tr2&->&Hgen&H). destruct (Z.ltb_spec startGen gen); [|by apply Hexp in H].
  step_returns H. exists [], l, gen. by rewrite app_nil_r.
Qed.

Lemma running_outcome d st tr a :
  has_loop D = true -> runs (restart_running D d task st) tr (Some a) -> outcome_ok tr a.
Proof.
  intros Hl. unfold restart_running. destruct (_ && _) eqn:Hb; [|by apply stop_outcome].
  intros (err&l&tr2&->&H1&H2)%returns_bind. destruct err as [err|].
  { do 2 step_returns H2. split; [done|right; auto]. }
  do 2 step_returns H2. unfold postManualRestartAndWaitRunning in H1. rewrite Hl in H1. cbn [negb] in H1.
  apply returns_bind in H1 as (startGen&l1&l2&->&Hgen&H1). do 2 step_returns H1. destruct x0.
  apply restart_wait_success in H1 as (mid&l&gen&->&Hgen'&Hlt).
  apply generation_runs in Hgen, Hgen'. destruct (rd_controller D && rd_ctrlTracker D); [|destruct Hgen, Hgen'; lia].
  destruct Hgen as (old&->&->), Hgen' as (new&->&->). split_and!; [done..|].
  exists [], old, (Log RNow x1 :: mid), new, (Log (RAudit "info" "supervisor-respawn-via-gui" task) x). split; [|done].
  cbn. by rewrite <- app_assoc.
Qed.

Lemma settle_outcome d st tr a :
  has_loop D = true -> runs (settle_before_spawn D d task st) tr (Some a) -> outcome_ok tr a.
Proof.
  intros Hl. unfold settle_before_spawn. pose proof (running_outcome d st) as Hr.
  destruct (if _ && _ then _ else None) as [port|]; [|auto]. destruct (0 <? port); [|auto]. intros H. step_returns H.
  apply (outcome_app [Log (RSettle _) x]); [by repeat constructor|]. destruct (_ || _); [|auto].
  step_returns H. by apply answer_refused.
Qed.

(** A respawn answer is honest.  In production a request is answered
    spawned only if the controller spawned: it answered the idle respawn
    without an error, or it runs the daemon again with a later generation
    than the one read before the restart was posted.  The refusal for a
    stop is the controller's own, and every other refusal than a failed
    respawn has posted nothing but commands to recover pending stops. *)
Theorem respawn_answer_honest tr a :
  runs (handleRespawn D taskNameRaw force) tr (Some a) -> outcome_ok tr a.
Proof.
  unfold handleRespawn. destruct (_ =s _). { intros H. step_returns H. by apply answer_refused. }
  destruct (_ || _). { intros H. step_returns H. by apply answer_refused. }
  intros (desc&l1&tr1&->&H1&H)%returns_bind. apply outcome_app; [by apply resolve_quiet in H1|].
  destruct desc as [d|]; [|step_returns H; by apply answer_refused]. rewrite production in H. cbn [negb andb] in H.
  destruct (has_loop D) eqn:Hl; cbn [negb] in H; [|step_returns H; by apply answer_refused].
  apply returns_bind in H as ([]&l2&tr2&->&H2&H). apply outcome_after.
  { destruct (rd_controller D); [by apply recovery_preparatory in H2|by step_returns H2]. }
  destruct (IsSerenaProxyDescriptor d && _); [step_returns H; by apply answer_refused|].
  apply returns_bind in H as (st&l3&tr3&->&H3&H). apply outcome_app; [by apply state_quiet in H3|].
  destruct (_ && _); [|by eapply settle_outcome]. do 2 step_returns H. apply answer_refused; [by repeat constructor|done].
Qed.
End Evidence.

(** *** A request comes to an end *)

(** The clock of a request: readings do not go back, a sleep that is not cut
    short takes its time, and at most [n] receipts are pending. *)
Definition respawn_clock (n : nat) : Clock rspE := {|
  tells_time now l :=
    match l with
    | Log e x => match e in rspE Y return Y -> Prop with
                 | RNow => fun t => now <= t
                 | RPendingReceipts => fun receipts => (length receipts <= n)%nat
                 | _ => fun _ => True
                 end x
    end;
  clock_after now l :=
    match l with
    | Log e x => match e in rspE Y return Y -> time with
                 | RNow => fun t => t
                 | RSleep d => fun err => match err with None => now + d | Some _ => now end
                 | _ => fun _ => now
                 end x
    end;
|}.

Section Ends.
Context (D : respawn_deps) (n : nat).
#[local] Instance the_clock : Clock rspE := respawn_clock n.

Lemma generation_bounded t : bounded 1 (trackerPIDGeneration D t).
Proof. unfold trackerPIDGeneration. walk_bounded. Qed.

Lemma restart_round_bounded t startGen deadline u : bounded 4 (restart_round D t startGen deadline u).
Proof.
  unfold restart_round. apply bounded_vis. intros [[]|]; cbv beta iota zeta; try (by walk_bounded).
  apply (bounded_bind 1 2); [apply generation_bounded|]. intros gen. walk_bounded.
Qed.

(** A round that goes on has read the clock before the deadline, and slept. *)
Lemma restart_round_sleeps t startGen deadline i j now tr :
  runs (restart_round D t startGen deadline i) tr (Some (inl j)) -> clocked now tr ->
  now < deadline /\ now + restart_poll <= foldl clock_after now tr.
Proof.
  unfold restart_round. set (expired := call! now := RNow in _).
  assert (forall now tr, runs expired tr (Some (inl j)) -> clocked now tr ->
    now < deadline /\ now + restart_poll <= foldl clock_after now tr) as Hexp.
  { clear now tr. intros now tr H. unfold expired in H. step_returns H. intros [Hn Hc]. cbn in Hn.
    destruct (Before x deadline) eqn:Hb; cbn [negb] in H; [|by do 2 step_returns H].
    unfold Before in Hb. apply Z.ltb_lt in Hb. step_returns H. destruct x0; step_returns H. cbn. lia. }
  intros H. step_returns H. intros [_ Hc]. destruct x as [[]|]; try exact (Hexp _ _ H Hc).
  apply returns_bind in H as (gen&l&tr2&->&Hg&H). apply clocked_app in Hc as [_ Hc].
  assert (foldl clock_after now l = now) as El.
  { unfold trackerPIDGeneration in Hg. destruct (negb _); repeat step_returns Hg; done. }
  destruct (_ <? _); [step_returns H|]. cbn [foldl]. rewrite foldl_app.
  change (clock_after now (Log (RSMState t) (Some StRunning))) with now in *. rewrite El in *. by apply Hexp.
Qed.

Definition restart_rounds : nat := wait_rounds restart_poll gracefulTimeout.
Lemma manual_restart_bounded t : bounded (7 + 4 * restart_rounds) (postManualRestartAndWaitRunning D t gracefulTimeout).
Proof.
  unfold postManualRestartAndWaitRunning. destruct (negb _); [apply bounded_ret|].
  apply (bounded_bind 1); [apply generation_bounded|]. intros startGen. apply bounded_vis. intros _.
  intros now tr o [[-> _]|(x&tr'&->&H)]%runs_vis Hc; [cbn; lia|]. destruct Hc as [Hn Hc]. cbn in Hn.
  pose proof (wait_rounds_enough restart_poll gracefulTimeout ltac:(done) ltac:(done)) as Hr. fold restart_rounds in Hr.
  pose proof (bounded_poll _ 4 restart_poll (x + gracefulTimeout) restart_rounds tt x tr' o
    (restart_round_bounded t startGen _) (restart_round_sleeps t startGen _) ltac:(lia) H Hc). cbn [length]. lia.
Qed.

Lemma receipts_bounded l : bounded (3 * length l) (enqueue_receipts D l).
Proof.
  induction l as [|r l IH]; [apply bounded_ret|]. cbn [enqueue_receipts length].
  apply (bounded_le (3 + 3 * length l)); [lia|]. apply bounded_bind; [|done].
  unfold enqueueStopSettlementRecovery. walk_bounded.
Qed.
Lemma recovery_bounded : bounded (1 + 3 * n) (enqueuePendingStopSettlementRecovery D).
Proof.
  unfold enqueuePendingStopSettlementRecovery. destruct (negb _); [apply bounded_ret|].
  intros now tr o [[-> _]|(l&tr'&->&H)]%runs_vis Hc; [cbn; lia|]. destruct Hc as [Hn Hc]. cbn in Hn.
  pose proof (receipts_bounded l _ _ _ H Hc). cbn [length]. lia.
Qed.

Lemma route_bounded d t b : bounded 10 (route_spawn D d t b).
Proof.
  assert (forall err, bounded 1 (report_spawn t err)) as Hrep by (intros; unfold report_spawn; walk_bounded).
  assert (bounded 2 (postIdleRespawnAndWait D t gracefulTimeout)) as Hidle
    by (unfold postIdleRespawnAndWait; walk_bounded).
  unfold route_spawn. cbv zeta.
  destruct b.
  { walk_bounded; eapply bounded_le; [|apply Hrep]; lia. }
  apply (bounded_bind 3 7).
  { unfold hydrateSMStateFromTrackerIfMissing. walk_bounded. }
  intros s. apply (bounded_bind 1 6).
  { unfold shouldRouteNonRunningRespawnThroughController. walk_bounded. }
  intros [routed err]. destruct (_ && _); [apply bounded_ret|].
  destruct err; [eapply bounded_le; [|apply Hrep]; lia|].
  destruct routed; [by apply (bounded_le (2 + 1)); [lia|]; apply bounded_bind|].
  walk_bounded. eapply bounded_le; [|apply Hrep]. lia.
Qed.

(** C34: a respawn request comes to an end.  Under a clock that does not go
    back and sleeps that take their time, with at most [n] pending receipts,
    no run of a request makes more than forty calls, three for every receipt
    and four for every poll of the five seconds it waits. *)
Theorem respawn_terminates raw force now tr o :
  runs (handleRespawn D raw force) tr o -> clocked now tr -> (length tr <= 40 + 3 * n + 4 * restart_rounds)%nat.
Proof.
  enough (bounded (40 + 3 * n + 4 * restart_rounds) (handleRespawn D raw force)) as Hb by apply Hb.
  set (m := restart_rounds) in *.
  assert (forall d t b, bounded 14 (stop_and_spawn D d t b)) as Hstop.
  { intros d t b. unfold stop_and_spawn. pose proof (route_bounded d t b).
    walk_bounded; (eapply bounded_le; [|eassumption]; lia). }
  assert (forall d t st, bounded (14 + 4 * m) (restart_running D d t st)) as Hrun.
  { intros d t st. unfold restart_running. destruct (_ && _); [|eapply bounded_le; [|apply Hstop]; lia].
    apply (bounded_le ((7 + 4 * m) + 1)); [lia|]. apply bounded_bind; [apply manual_restart_bounded|].
    intros [err|]; walk_bounded. }
  unfold handleRespawn. destruct (_ =s _); [apply bounded_ret|]. destruct (_ || _); [apply bounded_ret|].
  apply (bounded_le (1 + ((1 + 3 * n) + (2 + (15 + 4 * m)))))%nat; [lia|].
  apply bounded_bind; [unfold resolve_descriptor; walk_bounded|]. intros [d|]; [|apply bounded_ret].
  destruct (_ && _); [apply bounded_ret|].
  apply bounded_bind; [destruct (rd_controller D); [apply recovery_bounded|apply bounded_ret]|]. intros _.
  destruct (_ && _); [apply bounded_ret|].
  apply bounded_bind; [unfold observe_state; walk_bounded|]. intros st.
  destruct (_ && _); [cbn [Nat.add]; walk_bounded|]. unfold settle_before_spawn.
  destruct (if _ && _ then _ else None) as [port|]; [|eapply bounded_le; [|apply Hrun]; lia].
  destruct (0 <? port); [|eapply bounded_le; [|apply Hrun]; lia].
  apply bounded_vis. intros settlements. destruct (_ || _); [apply bounded_ret|]. apply Hrun.
Qed.
End Ends.

(** *** The loop's side of an idle respawn *)
Section Reply.
Context `{Digest} (E : env).

(** A daemon that the operator has stopped is not respawned from idle: the
    loop changes nothing and refuses. *)
Lemma idle_restart_refused task d c :
  is_canonical task -> lookupDescriptorWithShadow c task = Some d -> c_smStates c !! task = Some StIdle ->
  (let '(desired, active) := intent_now E c task in (desired =s IntentDesiredRunning) && negb active) = false ->
  handleLoopEvent E (idle_restart task) c =
    perform (ReplyIdleRespawn (Some errIdleRespawnRefusedIntentStopped)) (c <| c_gateCleared ::= fun s => s ∖ {[task]} |>).
Proof.
  intros Hn Hd Hs Hi. unfold handleLoopEvent, idle_restart. cbn [ev_Kind]. unfold handle_sm_event. cbn [ev_TaskName ev_Body].
  rewrite Hn. cbn zeta. set (ev := mkEvent _ _ _).
  assert (restart_refused_by_intent E ev c = false) as -> by done.
  assert (stale_child_exit ev c = false) as -> by done. rewrite bool_decide_eq_false_2 by done. rewrite Hd.
  unfold handle_routed. change (ev_TaskName ev) with task. cbn zeta.
  assert (loadSM c task = StIdle) as -> by (unfold loadSM; by rewrite Hs).
  assert (timer_deferred_by_reap ev StIdle c = false) as -> by done.
  assert (clean_exit_while_running ev StIdle = false) as -> by done.
  assert (apply_cleared_runtime E ev StIdle c = (c, StIdle)) as -> by done.
  assert (maybeHandleBindRefusedExit E (with_task_name d task) ev StIdle c = (c, false)) as -> by done.
  unfold run_transition. unfold sm_context. change (ev_TaskName ev) with task. destruct (intent_now E c task) as [desired active].
  cbn [Transition IntentDesired IntentIsActiveStop]. change (desired =s "running") with (desired =s IntentDesiredRunning). rewrite Hi.
  cbn [matched negb row side newState]. cbn zeta.
  assert (setSM task StIdle c = c) as Hid.
  { assert (forall m, m = c_smStates c -> c <| c_smStates := m |> = c) as Hm by (intros m ->; by destruct c).
    apply (Hm (<[task:=StIdle]> (c_smStates c))). by apply insert_id. }
  replace (commit_transition E task StIdle (row StIdle "RESTART_REFUSED_INTENT_STOPPED" false) c)
    with (setSM task StIdle c <| c_gateCleared ::= fun s => s ∖ {[task]} |>) by reflexivity.
  by rewrite Hid.
Qed.
End Reply.

(** ** A restart of a running daemon, and a respawn of an idle one *)
Definition respawn_demo : respawn_deps :=
  mkRespawnDeps true true true true true true None true false (fun _ _ => None).
Definition memory_at (pid gen : Z) : DaemonRuntimeEntry :=
  mkEntry (if pid =? 0 then daemonRuntimeStateIdle else daemonRuntimeStateRunning) pid noon gen 0 "" 0 None "" "" None.

(** The world: the time, and whether the restart has been posted; the new
    process is there after twenty milliseconds. *)
Record rworld := mkRWorld { rw_now : time; rw_posted : option time }.
Definition respawn_world (idle : bool) (reply : option error) (X : Type) (e : rspE X) (w : rworld) : X * rworld :=
  let up := match rw_posted w with Some t => t + 20 * Millisecond <=? rw_now w | None => false end in
  match e in rspE Y return Y * rworld with
  | RLookup _ => (Some (demo_daemon memory_task 9123), w)
  | RPendingReceipts => ([], w)
  | RArmRecovery _ => (false, w)
  | RDisarmRecovery _ => (tt, w)
  | RPostCtx _ => (None, w)
  | RGet _ => (Some (if idle then memory_at 0 6 else if up then memory_at 4343 7 else memory_at 4242 6), w)
  | RSMState _ => (Some (if idle then StIdle else StRunning), w)
  | RStoreSMState _ _ => (tt, w)
  | RSettle targets => (List.map (fun t => mkSettlement (tg_TaskName t) StoppedSettlementStopped ReasonStopped 0 6 "") targets, w)
  | RPost _ => (tt, mkRWorld (rw_now w) (Some (rw_now w)))
  | RWaitIdle _ => (IdleReply reply, w)
  | RNow => (rw_now w, w)
  | RSleep d => (None, mkRWorld (rw_now w + d) (rw_posted w))
  | RTerminate _ => (None, w)
  | RSpawn _ => (None, w)
  | RAudit _ _ _ => (tt, w)
  end.
Definition demo_respawn (idle : bool) (reply : option error) :=
  play 100 (respawn_world idle reply) (mkRWorld noon None) (handleRespawn respawn_demo memory_task false).
Lemma respawn_runs idle reply :
  runs (handleRespawn respawn_demo memory_task false) (demo_respawn idle reply).1 (demo_respawn idle reply).2.
Proof. apply play_runs. Qed.

Example restart_of_running : (demo_respawn false None).2 = Some (RespawnSpawned memory_task (Some controllerManualRestart)).
Proof. vm_compute. done. Qed.
Example respawn_of_idle : (demo_respawn true None).2 = Some (RespawnSpawned memory_task None).
Proof. vm_compute. done. Qed.
Example respawn_of_stopped :
  match (demo_respawn true (Some errIdleRespawnRefusedIntentStopped)).2 with
  | Some (RespawnError e) => ie_Code e = ipcErrorRespawnRefusedIntentStop
  | _ => False
  end.
Proof. vm_compute. done. Qed.

Definition idle_trace : list (ev rspE) := (demo_respawn true None).1.
Lemma respawn_guarded_witness :
  exists pre post, idle_trace = pre ++ Log (RPost (idle_restart memory_task)) tt :: post /\
    may_post respawn_demo memory_task false pre (idle_restart memory_task).
Proof.
  exists (take 9 idle_trace), (drop 10 idle_trace).
  assert (idle_trace = take 9 idle_trace ++ Log (RPost (idle_restart memory_task)) tt :: drop 10 idle_trace) as E
    by (vm_compute; reflexivity).
  split; [exact E|].
  exact (respawn_guarded respawn_demo eq_refl memory_task false idle_trace (demo_respawn true None).2 (take 9 idle_trace)
           (Log (RPost (idle_restart memory_task)) tt) (drop 10 idle_trace) (respawn_runs true None) E).
Defined.

Lemma respawn_answer_honest_witness :
  outcome_ok memory_task (demo_respawn false None).1 (RespawnSpawned memory_task (Some controllerManualRestart)).
Proof.
  assert (runs (handleRespawn respawn_demo memory_task false) (demo_respawn false None).1
            (Some (RespawnSpawned memory_task (Some controllerManualRestart)))) as H.
  { replace (Some (RespawnSpawned memory_task (Some controllerManualRestart))) with (demo_respawn false None).2
      by (vm_compute; reflexivity). apply respawn_runs. }
  exact (respawn_answer_honest respawn_demo eq_refl memory_task false _ _ H).
Defined.

Lemma respawn_terminates_witness :
  clocked (CE := respawn_clock 0) noon (demo_respawn false None).1 /\ (length (demo_respawn false None).1 <= 2044)%nat.
Proof.
  assert (clocked (CE := respawn_clock 0) noon (demo_respawn false None).1) as Hc
    by (vm_compute; repeat split; first [discriminate|apply le_n]).
  split; [exact Hc|]. exact (respawn_terminates respawn_demo 0 memory_task false noon _ _ (respawn_runs false None) Hc).
Defined.
