(* ===== verification/RequestId.v ===== *)
(** * RequestId: the key of a JSON-RPC request.

    [api/hub_mcp_request_id.go]: a request id is a JSON string or a JSON
    number, and the hub keys its table of outstanding calls by a canonical
    form of it.  Numbers are canonicalised on their text, digit by digit. *)
From Stdlib Require Import QArith Qpower.
From S2P Require Import Prelude GoTime StateMachine Intent Descriptor.
Open Scope Z_scope.

Definition maxCanonicalExponentMagnitude : Z := Z.shiftl 1 20.

(** [%q] of a text with nothing in it to escape, which is what a number the
    decoder has accepted consists of. *)
Definition quoted (s : string) : string := String "034" (s +:+ String "034" "").

(** ** Pieces of a number *)

(** [allDigits] *)
Fixpoint digits_only (s : string) : bool :=
  match s with
  | EmptyString => true
  | String a s' => is_digit a && digits_only s'
  end.
Definition allDigits (s : string) : bool := negb (s =s "") && digits_only s.

(** What is before the first byte of a kind, and what is after it. *)
Fixpoint cut (p : ascii -> bool) (s : string) : string * option string :=
  match s with
  | EmptyString => ("", None)
  | String a s' => if p a then ("", Some s') else let r := cut p s' in (String a r.1, r.2)
  end.
Definition is_exp_mark (a : ascii) : bool := Ascii.eqb a "e" || Ascii.eqb a "E".
Definition is_point (a : ascii) : bool := Ascii.eqb a ".".

(** [splitJSONNumber]: the exponent starts after the first [e] or [E], and
    a point counts only before it. *)
Definition splitJSONNumber (s : string) : string * string * string :=
  let '(mantissa, expPart) := cut is_exp_mark s in
  let '(intPart, fracPart) := cut is_point mantissa in
  (intPart, default "" fracPart, default "" expPart).

(** The sign of the exponent: [Some true] for a minus, [None] for none. *)
Definition splitExponent (expPart : string) : res (option bool * string) :=
  match expPart with
  | EmptyString => Ok (None, "")
  | String a s' =>
      let '(sign, rest) :=
        if Ascii.eqb a "+" then (Some false, s') else if Ascii.eqb a "-" then (Some true, s') else (None, expPart) in
      if rest =s "" then Err (errors_New "invalid number: empty exponent")
      else if negb (allDigits rest) then Err (errors_New ("invalid number: exponent " +:+ quoted expPart))
      else Ok (sign, rest)
  end.

Definition is_zero_digit (a : ascii) : bool := Ascii.eqb a "0".
(** [strings.TrimLeft(s, "0")] *)
Fixpoint trim_left_zeros (s : string) : string :=
  match s with
  | String a s' => if is_zero_digit a then trim_left_zeros s' else s
  | EmptyString => s
  end.
(** The loop over [strings.HasSuffix(mantissa, "0")], with its count. *)
Fixpoint strip_trailing_zeros (s : string) : string * Z :=
  match s with
  | EmptyString => ("", 0)
  | String a s' =>
      let '(t, n) := strip_trailing_zeros s' in
      if (t =s "") && is_zero_digit a then ("", n + 1) else (String a t, n)
  end.

(** The exponent as an integer, if it is within the bound. *)
Definition parse_exponent (expSign : option bool) (expMag : string) : res Z :=
  let mag := trim_left_zeros expMag in
  if mag =s "" then Ok 0
  else if Nat.ltb 8 (String.length mag)
  then Err (errors_New ("invalid number: exponent magnitude " +:+ quoted mag +:+ " exceeds canonicalizer bound"))
  else
    match Atoi mag with
    | None => Err (errors_New ("invalid number: exponent magnitude " +:+ quoted mag))
    | Some parsed =>
        if maxCanonicalExponentMagnitude <? parsed
        then Err (errors_New ("invalid number: exponent magnitude " +:+ Itoa parsed +:+ " exceeds canonicalizer bound " +:+
                              Itoa maxCanonicalExponentMagnitude))
        else Ok (match expSign with Some true => - parsed | _ => parsed end)
    end.

(** The canonical text of a number without its zeros. *)
Definition emit_number (neg : bool) (mantissa : string) (mantExp : Z) : string :=
  (if neg then "-" else "") +:+ mantissa +:+
  (if mantExp =? 0 then ""
   else if mantExp <? 0 then "e-" +:+ Itoa (- mantExp) else "e" +:+ Itoa mantExp).

Definition canonicalize_body (neg : bool) (s : string) : res string :=
  let '(intPart, fracPart, expPart) := splitJSONNumber s in
  if intPart =s "" then Err (errors_New ("invalid number: " +:+ quoted s))
  else if negb (allDigits intPart) then Err (errors_New ("invalid number: integer part " +:+ quoted intPart))
  else if negb (fracPart =s "") && negb (allDigits fracPart)
  then Err (errors_New ("invalid number: fractional part " +:+ quoted fracPart))
  else
    let? se := splitExponent expPart in
    let? parsed := parse_exponent se.1 se.2 in
    let mantExp := parsed - Z.of_nat (String.length fracPart) in
    let mantissa := trim_left_zeros (intPart +:+ fracPart) in
    if mantissa =s "" then Ok "0"
    else let '(mantissa, stripped) := strip_trailing_zeros mantissa in Ok (emit_number neg mantissa (mantExp + stripped)).

Definition canonicalizeJSONNumber (s : string) : res string :=
  match s with
  | EmptyString => Err (errors_New "invalid number: empty")
  | String a s' =>
      if Ascii.eqb a "-"
      then if s' =s "" then Err (errors_New "invalid number: lone minus") else canonicalize_body true s'
      else canonicalize_body false s
  end.

(** ** The grammar of JSON numbers *)
Record json_exponent := mkJExp { x_mark : ascii; x_sign : option bool; x_digits : string }.
Record json_number := mkJNum { n_neg : bool; n_int : string; n_frac : string; n_exp : option json_exponent }.

Definition exponent_text (x : json_exponent) : string :=
  String (x_mark x)
    (match x_sign x with Some true => "-" | Some false => "+" | None => "" end +:+ x_digits x).
Definition number_text (n : json_number) : string :=
  (if n_neg n then "-" else "") +:+ n_int n +:+ (if n_frac n =s "" then "" else "." +:+ n_frac n) +:+
  match n_exp n with Some x => exponent_text x | None => "" end.

Definition no_leading_zero (s : string) : bool := match s with String a (String _ _) => negb (is_zero_digit a) | _ => true end.
Record number_ok (n : json_number) : Prop := mkNumberOk {
  ok_int : allDigits (n_int n) = true;
  ok_leading : no_leading_zero (n_int n) = true;
  ok_frac : digits_only (n_frac n) = true;
  ok_exp : forall x, n_exp n = Some x -> is_exp_mark (x_mark x) = true /\ allDigits (x_digits x) = true;
}.

(** The number a text denotes. *)
Definition decimal (s : string) : Z := default 0 (digits_value 0 s).
Definition exponent_value (n : json_number) : Z :=
  match n_exp n with
  | Some x => match x_sign x with Some true => - decimal (x_digits x) | _ => decimal (x_digits x) end
  | None => 0
  end.
Definition scaled (m e : Z) : Q := (inject_Z m * (10 # 1) ^ e)%Q.
Definition number_value (n : json_number) : Q :=
  let m := decimal (n_int n +:+ n_frac n) in
  scaled (if n_neg n then - m else m) (exponent_value n - Z.of_nat (String.length (n_frac n))).

(** The reader of that grammar: the text of one number, or nothing. *)
Definition scan_exponent (mark : ascii) (s : string) : option json_exponent :=
  let '(sign, digits) :=
    match s with
    | String a s' => if Ascii.eqb a "+" then (Some false, s') else if Ascii.eqb a "-" then (Some true, s') else (None, s)
    | EmptyString => (None, s)
    end in
  if allDigits digits then Some (mkJExp mark sign digits) else None.
Definition scan_body (neg : bool) (body : string) : option json_number :=
  let '(mantissa, rest) := cut is_exp_mark body in
  let '(intPart, point) := cut is_point mantissa in
  let mark := default "e"%char (String.get (String.length mantissa) body) in
  let fracPart := default "" point in
  if allDigits intPart && no_leading_zero intPart && digits_only fracPart &&
     negb (bool_decide (point = Some ""))
  then
    match rest with
    | Some rest => x ← scan_exponent mark rest; Some (mkJNum neg intPart fracPart (Some x))
    | None => Some (mkJNum neg intPart fracPart None)
    end
  else None.
Definition scan_number (s : string) : option json_number :=
  match s with
  | String a s' => if Ascii.eqb a "-" then scan_body true s' else scan_body false s
  | EmptyString => None
  end.

(** ** The key *)

(** The decoder's part: what a string literal denotes, and the error for a
    text that is not one number. *)
Record json_reader := mkReader { jr_string : string -> res string; jr_reject : string -> error }.

(** [newRequestIDKey] *)
Definition newRequestIDKey (J : json_reader) (raw : string) : res string :=
  let trimmed := trim_space raw in
  match trimmed with
  | EmptyString => Err (errors_New "invalid request: empty id")
  | String a _ =>
      if trimmed =s "null" then Err (errors_New "invalid request: MCP requires non-null id")
      else if Ascii.eqb a "034"%char then
        let? s := jr_string J trimmed in Ok ("s:" +:+ s)
      else
        match scan_number trimmed with
        | None => Err (jr_reject J trimmed)
        | Some _ => let? canon := canonicalizeJSONNumber trimmed in Ok ("n:" +:+ canon)
        end
  end.

(** ** Properties *)

(** *** Digits *)
Lemma is_digit_spec a : is_digit a = true -> exists d, digit_of a = Some d /\ 0 <= d <= 9 /\ a = digit_char d.
Proof.
  unfold is_digit, digit_val, digit_of, digit_char. intros [d Hd]%bool_decide_eq_true.
  destruct (_ && _) eqn:Hb; [|done]. breflect. injection Hd as <-. eexists. split; [reflexivity|]. split; [lia|].
  replace (48 + _) with (Z.of_nat (nat_of_ascii a)) by lia. by rewrite Nat2Z.id, ascii_nat_embedding.
Qed.
Lemma digits_value_digits acc s :
  digits_only s = true -> digits_value acc s = Some (acc * 10 ^ Z.of_nat (String.length s) + decimal s).
Proof.
  unfold decimal. revert acc. induction s as [|a s IH]; intros acc; [intros _; cbn; f_equal; lia|].
  cbn [digits_only digits_value String.length]. intros [(d&Hd&_&_)%is_digit_spec Hs]%andb_true_iff. rewrite Hd.
  rewrite (IH (acc * 10 + d)), (IH (0 * 10 + d)) by done. unfold default, id.
  rewrite Nat2Z.inj_succ, Z.pow_succ_r by lia. f_equal. ring.
Qed.
Lemma app_cons a s t : String a s +:+ t = String a (s +:+ t).
Proof. done. Qed.
Lemma digits_app s t : digits_only (s +:+ t) = digits_only s && digits_only t.
Proof. induction s as [|a s IH]; [done|]. rewrite app_cons. cbn [digits_only]. by rewrite IH, andb_assoc. Qed.
Lemma length_app_str s t : String.length (s +:+ t) = (String.length s + String.length t)%nat.
Proof. induction s as [|a s IH]; [done|]. rewrite app_cons. cbn [String.length]. by rewrite IH. Qed.
Lemma digits_value_app acc s t :
  digits_value acc (s +:+ t) = match digits_value acc s with Some v => digits_value v t | None => None end.
Proof.
  revert acc. induction s as [|a s IH]; intros acc; [done|]. rewrite app_cons. cbn [digits_value]. by destruct (digit_of a).
Qed.
Lemma decimal_app s t :
  digits_only s = true -> digits_only t = true ->
  decimal (s +:+ t) = decimal s * 10 ^ Z.of_nat (String.length t) + decimal t.
Proof.
  intros Hs Ht. unfold decimal at 1. rewrite digits_value_app, (digits_value_digits 0 s), (digits_value_digits _ t) by done.
  cbn. lia.
Qed.
Lemma decimal_cons a s d :
  digit_of a = Some d -> digits_only s = true ->
  decimal (String a s) = d * 10 ^ Z.of_nat (String.length s) + decimal s.
Proof.
  intros Hd Hs. unfold decimal at 1. cbn [digits_value]. rewrite Hd, digits_value_digits by done.
  unfold default, id. ring.
Qed.
Lemma decimal_bound s : digits_only s = true -> 0 <= decimal s < 10 ^ Z.of_nat (String.length s).
Proof.
  induction s as [|a s IH]; [intros _; cbn; lia|]. cbn [digits_only String.length].
  intros [(d&Hd&Hr&_)%is_digit_spec Hs]%andb_true_iff. rewrite (decimal_cons a s d), Nat2Z.inj_succ, Z.pow_succ_r by (done || lia).
  specialize (IH Hs). nia.
Qed.

(** Digits of one length are determined by the number they denote. *)
Lemma decimal_inj_length s t :
  digits_only s = true -> digits_only t = true -> String.length s = String.length t -> decimal s = decimal t -> s = t.
Proof.
  revert t. induction s as [|a s IH]; intros [|b t]; cbn [String.length digits_only]; try done.
  intros [(d&Hd&Hr&Ha)%is_digit_spec Hs]%andb_true_iff [(e&He&Hq&Hb)%is_digit_spec Ht]%andb_true_iff [= Hl].
  rewrite (decimal_cons a s d), (decimal_cons b t e), Hl by done. intros Heq.
  pose proof (decimal_bound s Hs) as B1. pose proof (decimal_bound t Ht) as B2. rewrite Hl in B1.
  assert (d = e) as -> by nia. f_equal; [congruence|]. apply IH; [done..|]. lia.
Qed.
Definition leads (s : string) : Prop := match s with String a _ => is_zero_digit a = false | EmptyString => False end.
Lemma decimal_lower s : digits_only s = true -> leads s -> 10 ^ (Z.of_nat (String.length s) - 1) <= decimal s.
Proof.
  destruct s as [|a s]; [done|]. cbn [digits_only leads String.length].
  intros [(d&Hd&Hr&Ha)%is_digit_spec Hs]%andb_true_iff Hz. rewrite (decimal_cons a s d), Nat2Z.inj_succ by done.
  replace (Z.succ (Z.of_nat (String.length s)) - 1) with (Z.of_nat (String.length s)) by lia.
  pose proof (decimal_bound s Hs). assert (1 <= d); [|nia].
  destruct (Z.eq_dec d 0) as [->|]; [by subst a|lia].
Qed.
Lemma decimal_inj s t :
  digits_only s = true -> digits_only t = true -> leads s -> leads t -> decimal s = decimal t -> s = t.
Proof.
  intros Hs Ht Ls Lt Heq. apply decimal_inj_length; [done..| |done].
  pose proof (decimal_bound s Hs). pose proof (decimal_bound t Ht).
  pose proof (decimal_lower s Hs Ls). pose proof (decimal_lower t Ht Lt).
  destruct (Nat.lt_trichotomy (String.length s) (String.length t)) as [Hl|[?|Hl]]; [|done|].
  - pose proof (Z.pow_le_mono_r 10 (Z.of_nat (String.length s)) (Z.of_nat (String.length t) - 1)). lia.
  - pose proof (Z.pow_le_mono_r 10 (Z.of_nat (String.length t)) (Z.of_nat (String.length s) - 1)). lia.
Qed.

(** *** Zeros *)
Lemma trim_left_spec s :
  digits_only s = true ->
  digits_only (trim_left_zeros s) = true /\ decimal (trim_left_zeros s) = decimal s /\
  (trim_left_zeros s = "" \/ leads (trim_left_zeros s)) /\ (String.length (trim_left_zeros s) <= String.length s)%nat.
Proof.
  induction s as [|a s IH]; [by auto|]. cbn [digits_only trim_left_zeros].
  intros [Ha Hs]%andb_true_iff. destruct (is_zero_digit a) eqn:Hz.
  - destruct (IH Hs) as (H1&H2&H3&H4). split_and!; [done| |done|cbn; lia]. rewrite H2. apply Ascii.eqb_eq in Hz as ->.
    by rewrite (decimal_cons "0" s 0).
  - split_and!; [cbn [digits_only]; by rewrite Ha| |right|]; done.
Qed.

Definition ends_nonzero (s : string) : Prop := decimal s mod 10 <> 0.
Lemma strip_spec s t n :
  digits_only s = true -> strip_trailing_zeros s = (t, n) ->
  digits_only t = true /\ 0 <= n /\ decimal s = decimal t * 10 ^ n /\
  Z.of_nat (String.length s) = Z.of_nat (String.length t) + n /\ (t = "" \/ ends_nonzero t) /\ (leads s -> leads t).
Proof.
  revert t n. induction s as [|a s IH]; intros t n; [intros _ [= <- <-]; split_and!; try done; by left|].
  cbn [digits_only strip_trailing_zeros]. intros [Ha Hs]%andb_true_iff. destruct (strip_trailing_zeros s) as [t0 n0] eqn:E.
  destruct (IH t0 n0 Hs eq_refl) as (H1&H2&H3&H4&H5&H6). destruct (is_digit_spec a Ha) as (d&Hd&Hr&Hc).
  rewrite (decimal_cons a s d Hd Hs), H3. cbn [String.length].
  destruct (t0 =s "") eqn:E0; cbn [andb]; breflect.
  - subst t0. cbn [String.length] in H4. destruct (is_zero_digit a) eqn:Hz; intros [= <- <-].
    + apply Ascii.eqb_eq in Hz as ->. injection Hd as <-. split_and!; try done; cbn [String.length]; try lia; by left.
    + assert (d <> 0) as Hd0 by (intros ->; by subst a).
      split_and!; try done; [by cbn [digits_only]; rewrite Ha| |cbn [String.length]; lia|right].
      * rewrite (decimal_cons a "" d Hd eq_refl), H4. change (decimal "") with 0. cbn [String.length]. rewrite !Z.add_0_l. lia.
      * unfold ends_nonzero. rewrite (decimal_cons a "" d Hd eq_refl). cbn. rewrite Z.mul_1_r, Z.add_0_r, Z.mod_small; lia.
  - intros [= <- <-]. split_and!; try done; [by cbn [digits_only]; rewrite Ha, H1| |cbn [String.length]; lia|right].
    + rewrite (decimal_cons a t0 d Hd H1), H4, Z.pow_add_r by lia. ring.
    + destruct H5 as [?|H5]; [done|]. unfold ends_nonzero in *. rewrite (decimal_cons a t0 d Hd H1).
      destruct t0 as [|b t0]; [done|]. cbn [String.length]. rewrite Nat2Z.inj_succ, Z.pow_succ_r by lia.
      replace (d * (10 * 10 ^ Z.of_nat (String.length t0)) + decimal (String b t0))
        with (decimal (String b t0) + (d * 10 ^ Z.of_nat (String.length t0)) * 10) by ring.
      by rewrite Z.mod_add.
Qed.

(** *** Splitting the text of a number *)
Fixpoint free (p : ascii -> bool) (s : string) : bool :=
  match s with EmptyString => true | String a s' => negb (p a) && free p s' end.
Lemma cut_free p s t : free p s = true -> cut p (s +:+ t) = (s +:+ (cut p t).1, (cut p t).2).
Proof.
  induction s as [|a s IH]; [intros _; change (cut p t = ((cut p t).1, (cut p t).2)); by destruct (cut p t)|]. rewrite app_cons. cbn [free cut].
  intros [Ha Hs]%andb_true_iff. apply negb_true_iff in Ha. by rewrite Ha, (IH Hs).
Qed.
Lemma free_app p s t : free p (s +:+ t) = free p s && free p t.
Proof. induction s as [|a s IH]; [done|]. rewrite app_cons. cbn [free]. by rewrite IH, andb_assoc. Qed.
Lemma digits_free p s :
  (forall d, 0 <= d <= 9 -> p (digit_char d) = false) -> digits_only s = true -> free p s = true.
Proof.
  intros Hp. induction s as [|a s IH]; [done|]. cbn [digits_only free].
  intros [(d&_&Hr&->)%is_digit_spec Hs]%andb_true_iff. by rewrite Hp, IH.
Qed.
Lemma digit_cases (P : Z -> Prop) : P 0 -> P 1 -> P 2 -> P 3 -> P 4 -> P 5 -> P 6 -> P 7 -> P 8 -> P 9 ->
  forall d, 0 <= d <= 9 -> P d.
Proof.
  intros. assert (d = 0 \/ d = 1 \/ d = 2 \/ d = 3 \/ d = 4 \/ d = 5 \/ d = 6 \/ d = 7 \/ d = 8 \/ d = 9) as Hd by lia.
  by repeat destruct Hd as [->|Hd]; [..|subst].
Qed.
Lemma digits_no_mark s : digits_only s = true -> free is_exp_mark s = true.
Proof. apply digits_free. by apply digit_cases. Qed.
Lemma digits_no_point s : digits_only s = true -> free is_point s = true.
Proof. apply digits_free. by apply digit_cases. Qed.
Lemma app_assoc_str s t u : s +:+ t +:+ u = (s +:+ t) +:+ u.
Proof. induction s as [|a s IH]; [done|]. by rewrite !app_cons, IH. Qed.
Lemma app_nil_str s : s +:+ "" = s.
Proof. induction s as [|a s IH]; [done|]. by rewrite app_cons, IH. Qed.

(** What the exponent's text is after its mark. *)
Definition exponent_part (n : json_number) : string :=
  match n_exp n with
  | Some x => match x_sign x with Some true => "-" | Some false => "+" | None => "" end +:+ x_digits x
  | None => ""
  end.
Definition body_text (n : json_number) : string :=
  n_int n +:+ (if n_frac n =s "" then "" else "." +:+ n_frac n) +:+
  match n_exp n with Some x => exponent_text x | None => "" end.

Lemma split_text n : number_ok n -> splitJSONNumber (body_text n) = (n_int n, n_frac n, exponent_part n).
Proof.
  intros [Hi _ Hf Hx]. unfold splitJSONNumber, body_text. apply andb_true_iff in Hi as [_ Hi].
  set (fr := if n_frac n =s "" then "" else "." +:+ n_frac n).
  assert (free is_exp_mark (n_int n +:+ fr) = true) as Hm.
  { rewrite free_app, digits_no_mark by done. unfold fr. destruct (n_frac n =s ""); [done|].
    change ("." +:+ n_frac n) with (String "." (n_frac n)). cbn [free]. by rewrite digits_no_mark. }
  assert (cut is_exp_mark (n_int n +:+ fr +:+ match n_exp n with Some x => exponent_text x | None => "" end) =
    (n_int n +:+ fr, match n_exp n with Some _ => Some (exponent_part n) | None => None end)) as ->.
  { rewrite app_assoc_str, cut_free by done. unfold exponent_part. destruct (n_exp n) as [x|]; cbn [cut fst snd].
    - destruct (Hx x eq_refl) as [Hk _]. unfold exponent_text. cbn [cut]. rewrite Hk. cbn [fst snd]. by rewrite app_nil_str.
    - by rewrite app_nil_str. }
  rewrite cut_free by (by apply digits_no_point). unfold fr.
  destruct (String.eqb_spec (n_frac n) "") as [E|E]; cbn [cut fst snd].
  - rewrite E, app_nil_str. unfold exponent_part. by destruct (n_exp n).
  - change ("." +:+ n_frac n) with (String "." (n_frac n)). cbn [cut is_point Ascii.eqb].
    change (is_point ".") with true. cbn [fst snd default]. rewrite app_nil_str. unfold exponent_part. by destruct (n_exp n).
Qed.

(** *** The canonical form *)
Definition exponent_magnitude (n : json_number) : Z := match n_exp n with Some x => decimal (x_digits x) | None => 0 end.

Lemma digits_head a s : allDigits (String a s) = true -> Ascii.eqb a "+" = false /\ Ascii.eqb a "-" = false.
Proof.
  unfold allDigits. cbn [negb String.eqb andb digits_only]. intros [(d&_&Hr&->)%is_digit_spec _]%andb_true_iff.
  revert d Hr. by apply digit_cases.
Qed.
Lemma digits_value_decimal s : digits_only s = true -> digits_value 0 s = Some (decimal s).
Proof. intros Hs. rewrite digits_value_digits by done. done. Qed.

Lemma parse_exponent_spec sign mag :
  digits_only mag = true ->
  let v := match sign with Some true => - decimal mag | _ => decimal mag end in
  if maxCanonicalExponentMagnitude <? decimal mag then is_ok (parse_exponent sign mag) = false
  else parse_exponent sign mag = Ok v.
Proof.
  intros Hd. destruct (trim_left_spec mag Hd) as (Ht&Hv&Hl&_). unfold parse_exponent. cbn zeta. rewrite <- Hv.
  set (t := trim_left_zeros mag) in *. destruct (String.eqb_spec t "") as [->|Hne].
  { by destruct sign as [[]|]. }
  destruct Hl as [?|Hl]; [done|]. pose proof (decimal_bound t Ht) as Hb. pose proof (decimal_lower t Ht Hl) as Hlow.
  destruct (Nat.ltb_spec 8 (String.length t)) as [H8|H8].
  { pose proof (Z.pow_le_mono_r 10 8 (Z.of_nat (String.length t) - 1)).
    destruct (Z.ltb_spec maxCanonicalExponentMagnitude (decimal t)) as [?|Hx]; [done|].
    exfalso. change maxCanonicalExponentMagnitude with 1048576 in Hx. change (10 ^ 8) with 100000000 in *. lia. }
  pose proof (Z.pow_le_mono_r 10 (Z.of_nat (String.length t)) 8). change (10 ^ 8) with 100000000 in *.
  rewrite (Atoi_digits t (decimal t)); [|done|by apply digits_value_decimal|lia].
  by destruct (_ <? _).
Qed.

Lemma exponent_parsed n :
  number_ok n ->
  let r := let? se := splitExponent (exponent_part n) in parse_exponent se.1 se.2 in
  if maxCanonicalExponentMagnitude <? exponent_magnitude n then is_ok r = false else r = Ok (exponent_value n).
Proof.
  intros [_ _ _ Hx]. cbn zeta. unfold exponent_part, exponent_magnitude, exponent_value.
  destruct (n_exp n) as [x|]; [|done]. destruct (Hx x eq_refl) as [_ Hd].
  assert (splitExponent (match x_sign x with Some true => "-" | Some false => "+" | None => "" end +:+ x_digits x) =
    Ok (x_sign x, x_digits x)) as ->.
  { pose proof Hd as Hd'. unfold allDigits in Hd'. apply andb_true_iff in Hd' as [Hne _]. apply negb_true_iff in Hne.
    destruct (x_sign x) as [[]|].
    - change ("-" +:+ x_digits x) with (String "-" (x_digits x)). unfold splitExponent.
      change (Ascii.eqb "-" "+") with false. change (Ascii.eqb "-" "-") with true. cbv beta iota. by rewrite Hne, Hd.
    - change ("+" +:+ x_digits x) with (String "+" (x_digits x)). unfold splitExponent.
      change (Ascii.eqb "+" "+") with true. cbv beta iota. by rewrite Hne, Hd.
    - change ("" +:+ x_digits x) with (x_digits x). unfold splitExponent. destruct (x_digits x) as [|a s] eqn:E; [done|].
      destruct (digits_head a s Hd) as [-> ->]. cbv beta iota. by rewrite Hne, Hd. }
  cbn [fst snd]. apply andb_true_iff in Hd as [_ Hd]. exact (parse_exponent_spec (x_sign x) (x_digits x) Hd).
Qed.

(** The canonical text, by the parts of the number. *)
Definition canonical_form (n : json_number) : string :=
  let m := trim_left_zeros (n_int n +:+ n_frac n) in
  if m =s "" then "0"
  else emit_number (n_neg n) (strip_trailing_zeros m).1
         (exponent_value n - Z.of_nat (String.length (n_frac n)) + (strip_trailing_zeros m).2).

Lemma canonicalize_text n :
  number_ok n ->
  if maxCanonicalExponentMagnitude <? exponent_magnitude n then is_ok (canonicalizeJSONNumber (number_text n)) = false
  else canonicalizeJSONNumber (number_text n) = Ok (canonical_form n).
Proof.
  intros Hok. assert (if maxCanonicalExponentMagnitude <? exponent_magnitude n
    then is_ok (canonicalize_body (n_neg n) (body_text n)) = false
    else canonicalize_body (n_neg n) (body_text n) = Ok (canonical_form n)) as Hb.
  { unfold canonicalize_body. rewrite (split_text n Hok). pose proof (exponent_parsed n Hok) as Hx. destruct Hok as [Hi _ Hf _].
    assert (n_int n =s "" = false) as ->.
    { unfold allDigits in Hi. by apply andb_true_iff in Hi as [?%negb_true_iff _]. }
    rewrite Hi. cbn [negb].
    assert (negb (n_frac n =s "") && negb (allDigits (n_frac n)) = false) as ->.
    { unfold allDigits. rewrite Hf, andb_true_r. by destruct (_ =s _). }
    destruct (splitExponent (exponent_part n)) as [[sg mag]|]; cbn [fst snd] in *.
    2: { destruct (_ <? _); [done|discriminate Hx]. }
    unfold canonical_form. destruct (_ <? _).
    - destruct (parse_exponent sg mag); [discriminate Hx|done].
    - rewrite Hx. destruct (_ =s ""); [done|]. by destruct (strip_trailing_zeros _). }
  unfold number_text. fold (body_text n). assert (exists a t, body_text n = String a t /\ Ascii.eqb a "-" = false) as (a&t&Eb&Hm).
  { destruct Hok as [Hi _ _ _]. unfold body_text. destruct (n_int n) as [|a s]; [done|].
    destruct (digits_head a s Hi) as [_ Hm]. rewrite app_cons. eauto. }
  rewrite Eb in *. destruct (n_neg n).
  - change ("-" +:+ String a t) with (String "-" (String a t)). exact Hb.
  - change ("" +:+ String a t) with (String a t). unfold canonicalizeJSONNumber. by rewrite Hm.
Qed.

(** *** Scaled integers *)
Lemma ten_nonzero : ~ (10 # 1 == 0)%Q.
Proof. done. Qed.
Lemma scaled_shift m k e : 0 <= k -> (scaled (m * 10 ^ k) e == scaled m (e + k))%Q.
Proof.
  intros Hk. unfold scaled. rewrite inject_Z_mult, Zpower_Qpower, (Qpower_plus _ e k ten_nonzero) by done.
  change (inject_Z 10) with (10 # 1)%Q. ring.
Qed.
Lemma scaled_cancel m1 m2 e : (scaled m1 e == scaled m2 e)%Q -> m1 = m2.
Proof.
  unfold scaled. intros H. apply Qmult_inj_r in H; [by apply inject_Z_injective|]. by apply Qpower_not_0.
Qed.
Lemma scaled_inj m1 m2 e1 e2 :
  m1 mod 10 <> 0 -> m2 mod 10 <> 0 -> (scaled m1 e1 == scaled m2 e2)%Q -> m1 = m2 /\ e1 = e2.
Proof.
  assert (forall m1 m2 e1 e2, e1 <= e2 -> m1 mod 10 <> 0 -> (scaled m1 e1 == scaled m2 e2)%Q -> m1 = m2 /\ e1 = e2) as Hle.
  { clear. intros m1 m2 e1 e2 Hle Hm H. replace e2 with (e1 + (e2 - e1)) in H by lia.
    rewrite <- scaled_shift in H by lia. apply scaled_cancel in H as ->.
    destruct (Z.eq_dec e1 e2) as [->|Hne]; [by rewrite Z.sub_diag, Z.mul_1_r|]. exfalso. apply Hm.
    replace (e2 - e1) with (Z.succ (e2 - e1 - 1)) by lia. rewrite Z.pow_succ_r by lia.
    rewrite Z.mul_shuffle3. rewrite Z.mul_comm. apply Z.mod_mul. lia. }
  intros H1 H2 H. destruct (Z.le_ge_cases e1 e2) as [Hc|Hc]; [by apply Hle|].
  destruct (Hle m2 m1 e2 e1 Hc H2) as [-> ->]; [by symmetry|done].
Qed.

(** *** Two numbers and their keys *)
Lemma canonical_parts n :
  number_ok n ->
  (canonical_form n = "0" /\ (number_value n == 0)%Q) \/
  exists t e, canonical_form n = emit_number (n_neg n) t e /\ digits_only t = true /\ leads t /\ ends_nonzero t /\
    (number_value n == scaled (if n_neg n then - decimal t else decimal t) e)%Q.
Proof.
  intros [Hi _ Hf _]. unfold canonical_form, number_value. cbn zeta.
  assert (digits_only (n_int n +:+ n_frac n) = true) as Hd.
  { rewrite digits_app, Hf. apply andb_true_iff in Hi as [_ ->]. done. }
  destruct (trim_left_spec _ Hd) as (T1&T2&T3&_). rewrite <- T2.
  set (e := exponent_value n - _). destruct (String.eqb_spec (trim_left_zeros (n_int n +:+ n_frac n)) "") as [E|E].
  { left. split; [done|]. rewrite E. change (decimal "") with 0. unfold scaled. destruct (n_neg n); apply Qmult_0_l. }
  right. destruct T3 as [?|T3]; [done|]. destruct (strip_trailing_zeros _) as [t k] eqn:Es.
  destruct (strip_spec _ t k T1 Es) as (S1&S2&S3&_&S5&S6). specialize (S6 T3). exists t, (e + k). split_and!; [done..|by apply S6| |].
  - destruct S5 as [->|?]; done.
  - rewrite S3. destruct (n_neg n); rewrite <- ?Z.mul_opp_l; by apply scaled_shift.
Qed.

Lemma emit_exponent e : (if e =? 0 then "" else if e <? 0 then "e-" +:+ Itoa (- e) else "e" +:+ Itoa e) =
  if e =? 0 then "" else String "e" (pretty e).
Proof. by destruct e. Qed.
Lemma emit_shape neg t e : digits_only t = true ->
  cut is_exp_mark (emit_number neg t e) = ((if neg then "-" else "") +:+ t, if e =? 0 then None else Some (pretty e)).
Proof.
  intros Ht. unfold emit_number. rewrite emit_exponent, app_assoc_str.
  assert (free is_exp_mark ((if neg then "-" else "") +:+ t) = true) as Hf by (rewrite free_app, (digits_no_mark t) by done; by destruct neg).
  rewrite cut_free by done. destruct (e =? 0); cbn [cut fst snd]; by rewrite app_nil_str.
Qed.
Lemma leads_no_minus t : digits_only t = true -> forall s, t <> String "-" s.
Proof. by intros Ht s ->. Qed.
Lemma emit_inj neg1 neg2 t1 t2 e1 e2 :
  digits_only t1 = true -> digits_only t2 = true -> emit_number neg1 t1 e1 = emit_number neg2 t2 e2 ->
  neg1 = neg2 /\ t1 = t2 /\ e1 = e2.
Proof.
  intros H1 H2 H. pose proof (emit_shape neg1 t1 e1 H1) as S1. rewrite H, (emit_shape neg2 t2 e2 H2) in S1.
  injection S1 as Ht He. assert (e1 = e2) as ->.
  { destruct (Z.eqb_spec e1 0), (Z.eqb_spec e2 0); simplify_eq; [done|]. by apply (inj pretty). }
  enough (neg1 = neg2 /\ t1 = t2) as [-> ->] by done. destruct neg1, neg2.
  - change (String "-" t2 = String "-" t1) in Ht. by injection Ht as ->.
  - by apply (leads_no_minus t2 H2) in Ht.
  - symmetry in Ht. by apply (leads_no_minus t1 H1) in Ht.
  - done.
Qed.

(** The canonical form decides numeric equality.  Two JSON numbers that
    are accepted have the same canonical form if and only if they denote the
    same rational number, however they are written and however large they
    are. *)
Lemma canonical_iff_equal n1 n2 c1 c2 :
  number_ok n1 -> number_ok n2 ->
  canonicalizeJSONNumber (number_text n1) = Ok c1 -> canonicalizeJSONNumber (number_text n2) = Ok c2 ->
  c1 = c2 <-> (number_value n1 == number_value n2)%Q.
Proof.
  intros O1 O2 H1 H2.
  assert (forall n c, number_ok n -> canonicalizeJSONNumber (number_text n) = Ok c -> c = canonical_form n) as Hc.
  { intros n c O H. pose proof (canonicalize_text n O) as Hn. rewrite H in Hn. destruct (_ <? _); [done|congruence]. }
  rewrite (Hc n1 c1 O1 H1), (Hc n2 c2 O2 H2). clear - O1 O2.
  assert (forall neg t e, digits_only t = true -> leads t -> emit_number neg t e <> "0") as Hz.
  { intros neg t e Ht Hl H. pose proof (emit_shape neg t e Ht) as Hs. rewrite H in Hs. injection Hs as Hs _.
    destruct neg; [done|]. change ("0" = t) in Hs. by subst t. }
  assert (forall t, leads t -> digits_only t = true -> 0 < decimal t) as Hp.
  { intros t Hl Ht. pose proof (decimal_lower t Ht Hl). destruct t as [|a t]; [done|]. cbn [String.length] in *.
    pose proof (Z.pow_pos_nonneg 10 (Z.of_nat (S (String.length t)) - 1)). lia. }
  assert (forall m e, m <> 0 -> ~ (scaled m e == 0)%Q) as Hn.
  { intros m e Hm H. replace 0%Q with (inject_Z 0) in H by done.
    assert (scaled m e == scaled 0 e)%Q as H' by (rewrite H; unfold scaled; symmetry; apply Qmult_0_l).
    by apply scaled_cancel in H'. }
  destruct (canonical_parts n1 O1) as [[-> V1]|(t1&e1&->&D1&L1&N1&V1)],
    (canonical_parts n2 O2) as [[-> V2]|(t2&e2&->&D2&L2&N2&V2)]; rewrite V1, V2.
  - done.
  - split; [intros H; symmetry in H; by apply Hz in H|]. intros H. symmetry in H. specialize (Hp t2 L2 D2).
    apply Hn in H; [done|]. destruct (n_neg n2); lia.
  - split; [intros H; by apply Hz in H|]. intros H. specialize (Hp t1 L1 D1). apply Hn in H; [done|]. destruct (n_neg n1); lia.
  - split; [intros (->&->&->)%emit_inj; done|]. intros H. apply scaled_inj in H as [Hm ->].
    + pose proof (Hp t1 L1 D1). pose proof (Hp t2 L2 D2).
      assert (n_neg n1 = n_neg n2) as Es by (destruct (n_neg n1), (n_neg n2); (done || lia)).
      rewrite Es in *. f_equal. apply decimal_inj; [done..|]. destruct (n_neg n2); lia.
    + unfold ends_nonzero in N1. destruct (n_neg n1); [|done]. intros Hm. apply N1. by apply Z.mod_opp_l_z in Hm; [rewrite Z.opp_involutive in Hm|].
    + unfold ends_nonzero in N2. destruct (n_neg n2); [|done]. intros Hm. apply N2. by apply Z.mod_opp_l_z in Hm; [rewrite Z.opp_involutive in Hm|].
Qed.

(** *** The reader of numbers *)
Lemma cut_some p s b r :
  cut p s = (b, Some r) -> exists a, p a = true /\ s = b +:+ String a r /\ free p b = true.
Proof.
  revert b. induction s as [|a s IH]; intros b; [done|]. cbn [cut]. destruct (p a) eqn:Ha.
  - intros [= <- <-]. by exists a.
  - destruct (cut p s) as [b' o]. cbn [fst snd]. intros [= <- ->]. destruct (IH b' eq_refl) as (c&Hc&->&Hb). exists c.
    rewrite app_cons. cbn [free]. by rewrite Ha, Hb.
Qed.
Lemma cut_none p s b : cut p s = (b, None) -> s = b /\ free p b = true.
Proof.
  revert b. induction s as [|a s IH]; intros b; [by intros [= <-]|]. cbn [cut]. destruct (p a) eqn:Ha; [done|].
  destruct (cut p s) as [b' o]. cbn [fst snd]. intros [= <- ->]. destruct (IH b' eq_refl) as [-> Hb]. cbn [free]. by rewrite Ha, Hb.
Qed.
Lemma get_app b a r : String.get (String.length b) (b +:+ String a r) = Some a.
Proof. induction b as [|c b IH]; [done|]. rewrite app_cons. exact IH. Qed.

Lemma scan_exponent_spec mark s x :
  scan_exponent mark s = Some x ->
  x_mark x = mark /\ allDigits (x_digits x) = true /\
  match x_sign x with Some true => "-" | Some false => "+" | None => "" end +:+ x_digits x = s.
Proof.
  unfold scan_exponent. destruct s as [|a s]; [done|]. destruct (Ascii.eqb a "+") eqn:E1; [|destruct (Ascii.eqb a "-") eqn:E2];
    destruct (allDigits _) eqn:Hd; try done; intros [= <-]; cbn [x_mark x_sign x_digits]; split_and!; try done.
  - by apply Ascii.eqb_eq in E1 as ->.
  - by apply Ascii.eqb_eq in E2 as ->.
Qed.
Lemma scan_number_spec s n : scan_number s = Some n -> number_ok n /\ number_text n = s.
Proof.
  assert (forall neg body, scan_body neg body = Some n -> number_ok n /\ n_neg n = neg /\ body_text n = body) as Hb.
  { intros neg body. unfold scan_body. destruct (cut is_exp_mark body) as [m rest] eqn:E1.
    destruct (cut is_point m) as [i point] eqn:E2. destruct (_ && _) eqn:Hc; [|done]. breflect.
    destruct Hc as [[[Hi Hl] Hf] Hp].
    assert (i +:+ (if default "" point =s "" then "" else "." +:+ default "" point) = m) as Em.
    { destruct point as [f|]; [change (default "" (Some f)) with f|change (default "" None) with ""].
      - apply cut_some in E2 as (a&Ha&->&_). apply Ascii.eqb_eq in Ha as ->.
        destruct (String.eqb_spec f "") as [->|]; [done|]. done.
      - apply cut_none in E2 as [-> _]. apply app_nil_str. }
    destruct rest as [rest|].
    - apply cut_some in E1 as (a&Ha&->&_). rewrite get_app. change (default "e"%char (Some a)) with a.
      destruct (scan_exponent a rest) as [x|] eqn:Ex; [|done]. cbn. intros [= <-].
      apply scan_exponent_spec in Ex as (X1&X2&X3). split; [|split; [done|]].
      + split; cbn [n_int n_frac n_exp]; [done..|]. intros ? [= <-]. by rewrite X1.
      + unfold body_text. cbn [n_int n_frac n_exp]. rewrite app_assoc_str, Em. unfold exponent_text. by rewrite X1, X3.
    - apply cut_none in E1 as [-> _]. intros [= <-]. split; [|split; [done|]].
      + by split.
      + unfold body_text. cbn [n_int n_frac n_exp]. by rewrite app_assoc_str, Em, app_nil_str. }
  unfold scan_number. destruct s as [|a s]; [done|]. destruct (Ascii.eqb a "-") eqn:Ea; intros H; apply Hb in H as (Ho&Hn&Ht);
    (split; [done|]); unfold number_text; fold (body_text n); rewrite Hn, Ht; [|done]. by apply Ascii.eqb_eq in Ea as ->.
Qed.
Lemma scan_exponent_text x :
  allDigits (x_digits x) = true -> scan_exponent (x_mark x)
    (match x_sign x with Some true => "-" | Some false => "+" | None => "" end +:+ x_digits x) = Some x.
Proof.
  intros Hd. destruct x as [mark [[]|] ds]; cbn [x_mark x_sign x_digits] in *.
  - change ("-" +:+ ds) with (String "-" ds). unfold scan_exponent. change (Ascii.eqb "-" "+") with false.
    change (Ascii.eqb "-" "-") with true. cbv beta iota. by rewrite Hd.
  - change ("+" +:+ ds) with (String "+" ds). unfold scan_exponent. change (Ascii.eqb "+" "+") with true. cbv beta iota. by rewrite Hd.
  - change ("" +:+ ds) with ds. unfold scan_exponent. destruct ds as [|a s]; [done|].
    destruct (digits_head a s Hd) as [-> ->]. cbv beta iota. by rewrite Hd.
Qed.

Lemma scan_text n : number_ok n -> scan_number (number_text n) = Some n.
Proof.
  intros Hok. assert (scan_body (n_neg n) (body_text n) = Some n) as Hb.
  { pose proof Hok as [Hi Hl Hf Hx]. pose proof Hi as [_ Hid]%andb_true_iff. unfold scan_body, body_text.
    set (fr := if n_frac n =s "" then "" else "." +:+ n_frac n).
    assert (free is_exp_mark (n_int n +:+ fr) = true) as Hm.
    { rewrite free_app, (digits_no_mark (n_int n)) by done. unfold fr. destruct (n_frac n =s ""); [done|].
      change ("." +:+ n_frac n) with (String "." (n_frac n)). cbn [free]. by rewrite (digits_no_mark (n_frac n)). }
    assert (cut is_point (n_int n +:+ fr) = (n_int n, if n_frac n =s "" then None else Some (n_frac n))) as Hpt.
    { rewrite cut_free by (by apply digits_no_point). unfold fr. destruct (n_frac n =s ""); [by rewrite app_nil_str|].
      change ("." +:+ n_frac n) with (String "." (n_frac n)). cbn [cut]. change (is_point ".") with true. cbn [fst snd].
      by rewrite app_nil_str. }
    assert (allDigits (n_int n) && no_leading_zero (n_int n) && digits_only
      (default "" (if n_frac n =s "" then None else Some (n_frac n))) &&
      negb (bool_decide ((if n_frac n =s "" then None else Some (n_frac n)) = Some "")) = true) as Hc.
    { rewrite Hi, Hl. destruct (String.eqb_spec (n_frac n) "") as [_|Hne]; [done|].
      change (default "" (Some (n_frac n))) with (n_frac n). rewrite Hf, bool_decide_eq_false_2 by congruence. done. }
    assert (default "" (if n_frac n =s "" then None else Some (n_frac n)) = n_frac n) as Hfr.
    { by destruct (String.eqb_spec (n_frac n) ""). }
    rewrite app_assoc_str. destruct (n_exp n) as [x|] eqn:En.
    - destruct (Hx x eq_refl) as [Hk Hd]. unfold exponent_text. rewrite cut_free by done. cbn [cut]. rewrite Hk. cbn [fst snd].
      rewrite app_nil_str, Hpt, Hc, get_app. change (default "e"%char (Some (x_mark x))) with (x_mark x).
      rewrite scan_exponent_text by done. cbn. rewrite Hfr. by destruct n; cbn in *; subst.
    - rewrite app_nil_str. rewrite <- (app_nil_str (n_int n +:+ fr)) at 1. rewrite cut_free by done. cbn [cut fst snd].
      rewrite app_nil_str, Hpt, Hc, Hfr. by destruct n; cbn in *; subst. }
  unfold number_text. fold (body_text n). assert (exists a t, body_text n = String a t /\ Ascii.eqb a "-" = false) as (a&t&Eb&Hm).
  { destruct Hok as [Hi _ _ _]. unfold body_text. destruct (n_int n) as [|a s]; [done|].
    destruct (digits_head a s Hi) as [_ Hm]. rewrite app_cons. eauto. }
  rewrite Eb in *. destruct (n_neg n).
  - change ("-" +:+ String a t) with (String "-" (String a t)). exact Hb.
  - change ("" +:+ String a t) with (String a t). unfold scan_number. by rewrite Hm.
Qed.

(** The reader accepts exactly the grammar of JSON numbers, and its
    result prints back to the text it was read from. *)
Theorem scan_number_iff s n : scan_number s = Some n <-> number_ok n /\ number_text n = s.
Proof. split; [apply scan_number_spec|]. intros [Hok <-]. by apply scan_text. Qed.

(** *** Requests and their keys *)
Inductive request_id := IdString (s : string) | IdNumber (n : json_number).
Definition request_id_of (J : json_reader) (raw : string) : option request_id :=
  let t := trim_space raw in
  match t with
  | EmptyString => None
  | String a _ =>
      if Ascii.eqb a "034"%char then match jr_string J t with Ok s => Some (IdString s) | Err _ => None end
      else IdNumber <$> scan_number t
  end.
Definition same_id (i j : request_id) : Prop :=
  match i, j with
  | IdString s, IdString t => s = t
  | IdNumber n, IdNumber m => (number_value n == number_value m)%Q
  | _, _ => False
  end.

Lemma request_key_cases J raw k :
  newRequestIDKey J raw = Ok k ->
  (exists s, request_id_of J raw = Some (IdString s) /\ k = "s:" +:+ s) \/
  exists n c, request_id_of J raw = Some (IdNumber n) /\ k = "n:" +:+ c /\ number_ok n /\
    canonicalizeJSONNumber (number_text n) = Ok c.
Proof.
  unfold newRequestIDKey, request_id_of. cbn zeta. destruct (trim_space raw) as [|a t]; [done|].
  destruct (_ =s "null"); [done|]. destruct (Ascii.eqb a "034").
  - destruct (jr_string J _) as [s|]; [|done]. intros [= <-]. left. by exists s.
  - destruct (scan_number (String a t)) as [n|] eqn:Hs; [|done]. apply scan_number_spec in Hs as [Hok Ht]. rewrite <- Ht.
    destruct (canonicalizeJSONNumber _) as [c|] eqn:Hc; [|done]. intros [= <-]. right. by exists n, c.
Qed.

(** C28: two requests share a key if and only if they have the same id: equal
    strings, or numbers of equal value; a string never shares the key of a
    number. *)
Theorem request_key_iff J raw1 raw2 k1 k2 :
  newRequestIDKey J raw1 = Ok k1 -> newRequestIDKey J raw2 = Ok k2 ->
  exists i1 i2, request_id_of J raw1 = Some i1 /\ request_id_of J raw2 = Some i2 /\ (k1 = k2 <-> same_id i1 i2).
Proof.
  intros [(s1&->&->)|(n1&c1&->&->&O1&C1)]%request_key_cases [(s2&->&->)|(n2&c2&->&->&O2&C2)]%request_key_cases;
    (eexists _, _; split; [reflexivity|]; split; [reflexivity|]); cbn [same_id].
  - split; [|by intros ->]. intros H. change (String "s" (String ":" s1) = String "s" (String ":" s2)) in H. by injection H.
  - split; [|done]. intros H. change (String "s" (String ":" s1) = String "n" (String ":" c2)) in H. done.
  - split; [|done]. intros H. change (String "n" (String ":" c1) = String "s" (String ":" s2)) in H. done.
  - rewrite <- (canonical_iff_equal n1 n2 c1 c2) by done. split; [|by intros ->].
    intros H. change (String "n" (String ":" c1) = String "n" (String ":" c2)) in H. by injection H.
Qed.

(** Which ids are accepted: a literal the decoder reads as a string, and a
    number whose exponent has a magnitude of at most 2^20; nothing else, and
    in particular neither an empty text nor [null]. *)
Theorem request_key_accepts J raw :
  is_ok (newRequestIDKey J raw) = true <->
  exists i, request_id_of J raw = Some i /\ match i with IdString _ => True | IdNumber n => exponent_magnitude n <= maxCanonicalExponentMagnitude end.
Proof.
  unfold newRequestIDKey, request_id_of. cbn zeta. destruct (trim_space raw) as [|a t]; [by split; [|intros (?&?&_)]|].
  assert (forall s n, scan_number s = Some n ->
    is_ok (let? canon := canonicalizeJSONNumber s in Ok ("n:" +:+ canon)) = true <->
    exponent_magnitude n <= maxCanonicalExponentMagnitude) as Hn.
  { intros s n Hs. apply scan_number_spec in Hs as [Hok <-]. pose proof (canonicalize_text n Hok) as Hc.
    destruct (Z.ltb_spec maxCanonicalExponentMagnitude (exponent_magnitude n)) as [Hl|Hl];
      destruct (canonicalizeJSONNumber _); try done; split; (done || lia). }
  destruct (String.eqb_spec (String a t) "null") as [E|_].
  - rewrite E. injection E as -> ->. split; [done|]. by intros (?&?&_).
  - destruct (Ascii.eqb a "034").
    + destruct (jr_string J _); [|by split; [|intros (?&?&_)]]. split; [|done]. intros _. by eexists.
    + destruct (scan_number (String a t)) as [n|] eqn:Hs; [|by split; [|intros (?&?&_)]]. rewrite (Hn _ n Hs). split.
      * intros ?. by exists (IdNumber n).
      * by intros (i&[= <-]&?).
Qed.

(** ** Witnesses *)

Fixpoint trim_right_quote (s : string) : string :=
  match s with
  | String a EmptyString => if Ascii.eqb a "034" then "" else s
  | String a s' => String a (trim_right_quote s')
  | EmptyString => ""
  end.
(** A decoder that reads string literals without escapes. *)
Definition plain_reader : json_reader :=
  mkReader (fun s => match s with String _ s' => Ok (trim_right_quote s') | EmptyString => Ok "" end)
           (fun _ => errors_New "invalid request: id must be string or number").

Example key_one : (fun s => newRequestIDKey plain_reader s) <$> ["1"; "1.0"; "1e0"; "10e-1"; "100e-2"; "0.1e1"] =
  replicate 6 (Ok "n:1").
Proof. vm_compute. reflexivity. Qed.
Example key_fraction : (fun s => newRequestIDKey plain_reader s) <$> ["1.5"; "15e-1"; "150e-2"; "0.15e1"] =
  replicate 4 (Ok "n:15e-1").
Proof. vm_compute. reflexivity. Qed.
Example key_hundred : (fun s => newRequestIDKey plain_reader s) <$> ["100"; "1e2"; "0.01e4"; "10e1"] = replicate 4 (Ok "n:1e2").
Proof. vm_compute. reflexivity. Qed.
Example key_zero : (fun s => newRequestIDKey plain_reader s) <$> ["0"; "-0"; "0e5"; "-0e5"; "0.0"; "-0.000e2"] =
  replicate 6 (Ok "n:0").
Proof. vm_compute. reflexivity. Qed.
Example key_large : newRequestIDKey plain_reader "9007199254740993" = Ok "n:9007199254740993".
Proof. vm_compute. reflexivity. Qed.
Example key_string : newRequestIDKey plain_reader (String "034" (String "1" (String "034" ""))) = Ok "s:1".
Proof. vm_compute. reflexivity. Qed.
Example key_rejects : is_ok <$> (newRequestIDKey plain_reader <$> [""; "null"; "true"; "+1"; "1]"; "1 2"; "01"; "1."; "1e9999999"]) =
  replicate 9 false.
Proof. vm_compute. reflexivity. Qed.

Lemma request_key_iff_witness :
  exists i1 i2, request_id_of plain_reader " 10e-1" = Some i1 /\ request_id_of plain_reader "0.1e1" = Some i2 /\ ("n:1" = "n:1" <-> same_id i1 i2).
Proof.
  apply (request_key_iff plain_reader " 10e-1" "0.1e1" "n:1" "n:1"); vm_compute; reflexivity.
Defined.
