(* ===== verification/Resolver.v ===== *)
(** * Resolver: which daemons a scope of the hub reaches.

    [api/hub_mcp_resolver.go] with the data of [api/hub_mcp_groups.go]: the
    hub serves clients, each by its name, and groups of servers, each by the
    key [g:<group>].  A snapshot binds every scope to the daemons it fans out
    to and hides tools of a group; it is rebuilt as a whole from the
    manifests and the groups and never changed. *)
From S2P Require Import Prelude.
Open Scope Z_scope.

(** ** Daemons and tools *)
Record canonicalDaemonRef := mkRef { cr_Server : string; cr_Daemon : string; cr_Port : Z }.
#[export] Instance canonicalDaemonRef_eq_dec : EqDecision canonicalDaemonRef.
Proof. solve_decision. Defined.
#[export] Instance canonicalDaemonRef_countable : Countable canonicalDaemonRef.
Proof.
  refine (inj_countable' (fun r => (cr_Server r, cr_Daemon r, cr_Port r)) (fun t => mkRef t.1.1 t.1.2 t.2) _).
  by intros [].
Defined.
Record canonicalToolRef := mkToolRef { tr_Server : string; tr_Daemon : string; tr_Port : Z; tr_RawName : string }.
#[export] Instance canonicalToolRef_eq_dec : EqDecision canonicalToolRef.
Proof. solve_decision. Defined.

(** ** Manifests, as far as the hub reads them ([config/manifest.go]) *)
Record DaemonSpec := mkDaemonSpec { ds_Name : string; ds_Port : Z }.
Record ClientBinding := mkBinding { cb_Client : string; cb_Daemon : string }.
Record ServerManifest := mkManifest { mf_Name : string; mf_Daemons : list DaemonSpec; mf_ClientBindings : list ClientBinding }.

(** ** Groups *)
Record Group := mkGroup { g_Name : string; g_Servers : list string; g_ToolsHidden : gmap string (list string) }.
Definition GroupScopeKeyPrefix : string := "g:".
Definition groupNameSeparator : string := ":".
Definition maxGroupNameLen : nat := 64.
Definition GroupScopeKey (group : string) : string := GroupScopeKeyPrefix +:+ group.

(** [groupNameAllowed]: letters, digits, [.], [_] and [-], at least one. *)
Definition group_char (a : ascii) : bool :=
  let n := nat_of_ascii a in
  (Nat.leb 65 n && Nat.leb n 90) || (Nat.leb 97 n && Nat.leb n 122) || (Nat.leb 48 n && Nat.leb n 57) ||
  Ascii.eqb a "." || Ascii.eqb a "_" || Ascii.eqb a "-".
Fixpoint group_chars (s : string) : bool :=
  match s with EmptyString => true | String a s' => group_char a && group_chars s' end.
Definition groupNameAllowed (s : string) : bool := negb (s =s "") && group_chars s.

Definition validateGroupName (name : string) : option error :=
  if name =s "" then Some (errors_New "group name is empty")
  else if str_contains name groupNameSeparator then Some (errors_New "group name contains the reserved separator")
  else if negb (groupNameAllowed name) then Some (errors_New "group name contains a route-unsafe character")
  else if (name =s ".") || (name =s "..") then Some (errors_New "group name is a path-traversal segment")
  else if Nat.ltb maxGroupNameLen (String.length name) then Some (errors_New "group name is too long")
  else None.

(** [checkGroupNamesUnique]: names differ by more than their case. *)
Fixpoint names_unique_from (i : Z) (seen : gset string) (groups : list Group) : option (Z * error) :=
  match groups with
  | [] => None
  | g :: rest =>
      let key := to_lower (g_Name g) in
      if bool_decide (key ∈ seen) then Some (i, errors_New "duplicate group name")
      else names_unique_from (i + 1) ({[key]} ∪ seen) rest
  end.
Definition checkGroupNamesUnique (groups : list Group) : option (Z * error) := names_unique_from 0 ∅ groups.

Definition name_valid (g : Group) : bool := bool_decide (validateGroupName (g_Name g) = None).
Definition GroupScopeKeys (groups : list Group) : list string :=
  sort_strings (GroupScopeKey ∘ g_Name <$> filter (fun g => name_valid g = true) groups).

(** ** Snapshots *)
Record ResolverSnapshot := mkSnapshot {
  rs_Gen : Z;
  rs_Bindings : gmap string (list canonicalDaemonRef);
  rs_ToolsHidden : gmap string (gmap string (list string));
  rs_Groups : gset string;
  rs_GroupDeclaredMembers : gmap string Z;
}.
#[export] Instance set_rs_Bindings : Setter rs_Bindings := fun f s =>
  mkSnapshot (rs_Gen s) (f (rs_Bindings s)) (rs_ToolsHidden s) (rs_Groups s) (rs_GroupDeclaredMembers s).
#[export] Instance set_rs_ToolsHidden : Setter rs_ToolsHidden := fun f s =>
  mkSnapshot (rs_Gen s) (rs_Bindings s) (f (rs_ToolsHidden s)) (rs_Groups s) (rs_GroupDeclaredMembers s).
#[export] Instance set_rs_Groups : Setter rs_Groups := fun f s =>
  mkSnapshot (rs_Gen s) (rs_Bindings s) (rs_ToolsHidden s) (f (rs_Groups s)) (rs_GroupDeclaredMembers s).
#[export] Instance set_rs_GroupDeclaredMembers : Setter rs_GroupDeclaredMembers := fun f s =>
  mkSnapshot (rs_Gen s) (rs_Bindings s) (rs_ToolsHidden s) (rs_Groups s) (f (rs_GroupDeclaredMembers s)).

(** ** The build *)

(** The daemons of one server: the port of each name, and their references
    in the order of the manifest. *)
Record serverDaemons := mkServerDaemons { sdm_portByDaemon : gmap string Z; sdm_refs : list canonicalDaemonRef }.
Definition daemons_of (m : ServerManifest) : serverDaemons :=
  mkServerDaemons (foldl (fun p d => <[ds_Name d := ds_Port d]> p) ∅ (mf_Daemons m))
    ((fun d => mkRef (mf_Name m) (ds_Name d) (ds_Port d)) <$> mf_Daemons m).
Definition index_servers (manifests : list ServerManifest) : gmap string serverDaemons :=
  foldl (fun idx m => <[mf_Name m := daemons_of m]> idx) ∅ manifests.

(** The snapshot under construction, with the pairs already added. *)
Record build := mkBuild { b_snap : ResolverSnapshot; b_seen : gset (string * canonicalDaemonRef) }.
Definition add (scopeKey : string) (b : build) (ref : canonicalDaemonRef) : build :=
  if bool_decide ((scopeKey, ref) ∈ b_seen b) then b
  else mkBuild (b_snap b <| rs_Bindings ::= fun m => <[scopeKey := default [] (m !! scopeKey) ++ [ref]]> m |>)
               ({[(scopeKey, ref)]} ∪ b_seen b).

Definition add_client_binding (server : string) (sd : serverDaemons) (b : build) (cb : ClientBinding) : build :=
  if (cb_Client cb =s "") || (cb_Daemon cb =s "") then b
  else match sdm_portByDaemon sd !! cb_Daemon cb with
       | None => b
       | Some port => add (cb_Client cb) b (mkRef server (cb_Daemon cb) port)
       end.
Definition add_manifest (byServer : gmap string serverDaemons) (b : build) (m : ServerManifest) : build :=
  let sd := default (mkServerDaemons ∅ []) (byServer !! mf_Name m) in
  foldl (add_client_binding (mf_Name m) sd) b (mf_ClientBindings m).

Definition perSessionServers : gset string := {["playwright"]}.
Definition add_member (byServer : gmap string serverDaemons) (scopeKey : string) (b : build) (server : string) : build :=
  if bool_decide (server ∈ perSessionServers) then b
  else match byServer !! server with
       | None => b
       | Some sd => foldl (add scopeKey) b (sdm_refs sd)
       end.
(** The hidden tools of a group, without its empty rows. *)
Definition hidden_filter (hidden : gmap string (list string)) : gmap string (list string) :=
  filter (fun row => row.2 <> []) hidden.
Definition declare_group (scopeKey : string) (g : Group) (s : ResolverSnapshot) : ResolverSnapshot :=
  s <| rs_Groups ::= fun gs => {[scopeKey]} ∪ gs |>
    <| rs_GroupDeclaredMembers ::= insert scopeKey (Z.of_nat (length (g_Servers g))) |>.
Definition hide_tools (scopeKey : string) (g : Group) (s : ResolverSnapshot) : ResolverSnapshot :=
  let f := hidden_filter (g_ToolsHidden g) in
  if bool_decide (f = ∅) then s else s <| rs_ToolsHidden ::= insert scopeKey f |>.
Definition add_group (byServer : gmap string serverDaemons) (b : build) (g : Group) : build :=
  if negb (name_valid g) then b
  else
    let scopeKey := GroupScopeKey (g_Name g) in
    let b := mkBuild (declare_group scopeKey g (b_snap b)) (b_seen b) in
    let b := foldl (add_member byServer scopeKey) b (g_Servers g) in
    mkBuild (hide_tools scopeKey g (b_snap b)) (b_seen b).

Definition empty_snapshot (gen : Z) : ResolverSnapshot := mkSnapshot gen ∅ ∅ ∅ ∅.
(** [BuildResolverSnapshotFromManifestsAndGroups]; [gen] is the next number
    of the process's counter. *)
Definition BuildResolverSnapshotFromManifestsAndGroups (gen : Z) (manifests : list ServerManifest) (groups : list Group) :
    ResolverSnapshot :=
  let byServer := index_servers manifests in
  let b := foldl (add_manifest byServer) (mkBuild (empty_snapshot gen) ∅) manifests in
  b_snap (foldl (add_group byServer) b groups).
Definition BuildResolverSnapshotFromManifests (gen : Z) (manifests : list ServerManifest) : ResolverSnapshot :=
  BuildResolverSnapshotFromManifestsAndGroups gen manifests [].

(** ** Reading a snapshot *)
Definition bindings (s : ResolverSnapshot) (scopeKey : string) : list canonicalDaemonRef := default [] (rs_Bindings s !! scopeKey).
Definition same_daemon (server daemon : string) (b : canonicalDaemonRef) : bool :=
  (cr_Server b =s server) && (cr_Daemon b =s daemon).
(** [liveDaemonBinding] (of [hub_mcp_aggregator.go]) *)
Definition liveDaemonBinding (snap : option ResolverSnapshot) (client : string) (ref : canonicalDaemonRef) :
    option canonicalDaemonRef :=
  match snap with
  | None => None
  | Some s => find (same_daemon (cr_Server ref) (cr_Daemon ref)) (bindings s client)
  end.
Definition snapshotKnowsScope (snap : option ResolverSnapshot) (scopeKey : string) : bool :=
  match snap with
  | None => false
  | Some s =>
      bool_decide (is_Some (rs_Bindings s !! scopeKey)) ||
      (has_prefix GroupScopeKeyPrefix scopeKey && bool_decide (scopeKey ∈ rs_Groups s))
  end.
Definition groupDeclaredMemberCount (snap : option ResolverSnapshot) (scopeKey : string) : Z :=
  match snap with None => 0 | Some s => default 0 (rs_GroupDeclaredMembers s !! scopeKey) end.
Definition snapshotHiddenToolsForScope (snap : option ResolverSnapshot) (scopeKey : string) : gmap string (list string) :=
  match snap with None => ∅ | Some s => default ∅ (rs_ToolsHidden s !! scopeKey) end.
Definition snapshotHidesTool (snap : option ResolverSnapshot) (scopeKey : string) (ref : canonicalToolRef) : bool :=
  existsb (fun hidden => hidden =s tr_RawName ref)
    (default [] (snapshotHiddenToolsForScope snap scopeKey !! tr_Server ref)).
(** [isKnownGroup] (of [hub_mcp_handler.go]) *)
Definition isKnownGroup (snap : option ResolverSnapshot) (name : string) : bool :=
  match validateGroupName name with
  | Some _ => false
  | None => match snap with None => false | Some s => bool_decide (GroupScopeKey name ∈ rs_Groups s) end
  end.

(** ** What a snapshot should say *)

(** The manifest that counts for a name, and the daemon that counts for a
    name in it: the last one. *)
Definition manifest_of (manifests : list ServerManifest) (server : string) : option ServerManifest :=
  last (filter (fun m => mf_Name m = server) manifests).
Definition daemon_of (m : ServerManifest) (daemon : string) : option DaemonSpec :=
  last (filter (fun d => ds_Name d = daemon) (mf_Daemons m)).

(** A manifest binds the client to the daemon. *)
Definition client_reaches (manifests : list ServerManifest) (scope : string) (ref : canonicalDaemonRef) : Prop :=
  exists m cb m' d, m ∈ manifests /\ cb ∈ mf_ClientBindings m /\ cb_Client cb = scope /\ scope <> "" /\ cb_Daemon cb <> "" /\
    manifest_of manifests (mf_Name m) = Some m' /\ daemon_of m' (cb_Daemon cb) = Some d /\
    ref = mkRef (mf_Name m) (cb_Daemon cb) (ds_Port d).
(** A group has the daemon's server among its members. *)
Definition group_reaches (manifests : list ServerManifest) (groups : list Group) (scope : string) (ref : canonicalDaemonRef) : Prop :=
  exists g server m d, g ∈ groups /\ validateGroupName (g_Name g) = None /\ scope = GroupScopeKey (g_Name g) /\
    server ∈ g_Servers g /\ server ∉ perSessionServers /\ manifest_of manifests server = Some m /\ d ∈ mf_Daemons m /\
    ref = mkRef server (ds_Name d) (ds_Port d).

(** ** Properties *)

(** *** The index *)
Lemma foldl_insert_last {A B} (key : A -> string) (val : A -> B) (l : list A) k (m : gmap string B) :
  foldl (fun m x => <[key x := val x]> m) m l !! k =
  match last (filter (fun x => key x = k) l) with Some x => Some (val x) | None => m !! k end.
Proof.
  induction l as [|x l IH] using rev_ind; [done|]. rewrite foldl_app, filter_app. cbn [foldl]. rewrite filter_cons, filter_nil.
  destruct (decide (key x = k)) as [<-|Hne].
  - by rewrite last_snoc, lookup_insert_eq.
  - by rewrite app_nil_r, lookup_insert_ne by done.
Qed.
Lemma index_lookup ms server : index_servers ms !! server = daemons_of <$> manifest_of ms server.
Proof. unfold index_servers. rewrite (foldl_insert_last mf_Name daemons_of). unfold manifest_of. by destruct (last _). Qed.
Lemma port_lookup m daemon : sdm_portByDaemon (daemons_of m) !! daemon = ds_Port <$> daemon_of m daemon.
Proof. cbn. rewrite (foldl_insert_last ds_Name ds_Port). unfold daemon_of. by destruct (last _). Qed.
Lemma manifest_of_Some ms server m : manifest_of ms server = Some m -> m ∈ ms /\ mf_Name m = server.
Proof. intros H%last_Some_elem_of. by apply list_elem_of_filter in H as [? ?]. Qed.

(** *** Adding pairs *)
Notation binds b s := (bindings (b_snap b) s).
Definition build_ok (b : build) : Prop := (forall s r, (s, r) ∈ b_seen b <-> r ∈ binds b s) /\ forall s, NoDup (binds b s).

(** [b'] is [b] with the pairs [l] added, and nothing else about bindings. *)
Definition extends (b b' : build) (l : list (string * canonicalDaemonRef)) : Prop :=
  build_ok b -> build_ok b' /\ (forall s r, r ∈ binds b' s <-> r ∈ binds b s \/ (s, r) ∈ l) /\
    forall s, (forall r, (s, r) ∉ l) -> binds b' s = binds b s.

Lemma builds_refl b : extends b b [].
Proof. intros Hb. split; [done|]. split; [|done]. intros s r. rewrite elem_of_nil. tauto. Qed.
Lemma builds_trans b1 b2 b3 l1 l2 : extends b1 b2 l1 -> extends b2 b3 l2 -> extends b1 b3 (l1 ++ l2).
Proof.
  intros H1 H2 Hb. destruct (H1 Hb) as (B2&E1&F1). destruct (H2 B2) as (B3&E2&F2). split; [done|]. split.
  - intros s r. rewrite E2, E1, elem_of_app. tauto.
  - intros s Hs. rewrite F2, F1; [done|..]; intros r Hr; apply (Hs r), elem_of_app; auto.
Qed.
Lemma extends_foldl {A} (f : build -> A -> build) (g : A -> list (string * canonicalDaemonRef)) (l : list A) b :
  (forall b x, x ∈ l -> extends b (f b x) (g x)) -> extends b (foldl f b l) (l ≫= g).
Proof.
  revert b. induction l as [|x l IH]; intros b Hf; [apply builds_refl|]. cbn.
  eapply builds_trans; [apply Hf; left|]. apply IH. intros. apply Hf. by right.
Qed.

Lemma extends_add s b r : extends b (add s b r) [(s, r)].
Proof.
  intros [Hs Hn]. unfold add. case_bool_decide as Hin.
  - split; [by split|]. split; [|done]. intros s' r'. rewrite list_elem_of_singleton. split; [auto|].
    intros [?|[= -> ->]]; [done|]. by apply Hs.
  - assert (forall s', binds (mkBuild (b_snap b <| rs_Bindings ::= fun m => <[s := default [] (m !! s) ++ [r]]> m |>)
      ({[(s, r)]} ∪ b_seen b)) s' = if decide (s' = s) then binds b s ++ [r] else binds b s') as He.
    { intros s'. unfold bindings. cbn. destruct (decide (s' = s)) as [->|?]; [by rewrite lookup_insert_eq|].
      by rewrite lookup_insert_ne. }
    split; [split|split]; [intros s' r'|intros s'|intros s' r'|intros s' Hs']; rewrite ?He; cbn [b_seen].
    + rewrite elem_of_union, elem_of_singleton, Hs. destruct (decide (s' = s)) as [->|?].
      * rewrite elem_of_app, list_elem_of_singleton. naive_solver.
      * naive_solver.
    + destruct (decide (s' = s)) as [->|?]; [|done]. apply NoDup_app. split; [done|]. split; [|apply NoDup_singleton].
      intros r' Hr ->%list_elem_of_singleton. by apply Hin, Hs.
    + rewrite list_elem_of_singleton. destruct (decide (s' = s)) as [->|?].
      * rewrite elem_of_app, list_elem_of_singleton. naive_solver.
      * naive_solver.
    + destruct (decide (s' = s)) as [->|?]; [|done]. exfalso. apply (Hs' r). by left.
Qed.
(** A step that leaves the bindings alone. *)
Lemma extends_same b snap : rs_Bindings snap = rs_Bindings (b_snap b) -> extends b (mkBuild snap (b_seen b)) [].
Proof.
  intros He [Hs Hn]. assert (forall s, binds (mkBuild snap (b_seen b)) s = binds b s) as Hb by (intros s; unfold bindings; cbn; by rewrite He).
  split; [split; intros; rewrite Hb; auto|]. split; [|done]. intros s r. rewrite Hb, elem_of_nil. tauto.
Qed.

(** *** The pairs of a manifest and of a group *)
Definition manifest_pairs (ms : list ServerManifest) (m : ServerManifest) : list (string * canonicalDaemonRef) :=
  mf_ClientBindings m ≫= fun cb =>
    if (cb_Client cb =s "") || (cb_Daemon cb =s "") then []
    else match m' ← manifest_of ms (mf_Name m); daemon_of m' (cb_Daemon cb) with
         | None => []
         | Some d => [(cb_Client cb, mkRef (mf_Name m) (cb_Daemon cb) (ds_Port d))]
         end.
Definition group_pairs (ms : list ServerManifest) (g : Group) : list (string * canonicalDaemonRef) :=
  if negb (name_valid g) then []
  else g_Servers g ≫= fun server =>
    if bool_decide (server ∈ perSessionServers) then []
    else match manifest_of ms server with
         | None => []
         | Some m => (fun d => (GroupScopeKey (g_Name g), mkRef (mf_Name m) (ds_Name d) (ds_Port d))) <$> mf_Daemons m
         end.

Lemma add_manifest_extends ms b m : extends b (add_manifest (index_servers ms) b m) (manifest_pairs ms m).
Proof.
  unfold add_manifest, manifest_pairs. apply extends_foldl. intros b' cb _. unfold add_client_binding.
  destruct (_ || _); [apply builds_refl|]. rewrite index_lookup. destruct (manifest_of ms (mf_Name m)) as [m'|]; cbn [fmap option_fmap option_map from_option id mbind option_bind];
    [|apply builds_refl]. rewrite port_lookup. destruct (daemon_of m' _); [apply extends_add|apply builds_refl].
Qed.
Lemma extends_add_all s b l : extends b (foldl (add s) b l) ((fun r => (s, r)) <$> l).
Proof.
  replace ((fun r => (s, r)) <$> l) with (l ≫= fun r => [(s, r)]) by (induction l as [|r l IH]; [done|]; cbn; by f_equal).
  apply extends_foldl. intros. apply extends_add.
Qed.
Lemma add_group_extends ms b g : extends b (add_group (index_servers ms) b g) (group_pairs ms g).
Proof.
  unfold add_group, group_pairs. destruct (name_valid g); [|apply builds_refl]. cbn [negb].
  rewrite <- (app_nil_l (g_Servers g ≫= _)), <- (app_nil_r (_ ++ _)). eapply builds_trans;
    [|apply extends_same; unfold hide_tools; by case_bool_decide].
  eapply builds_trans; [|apply extends_foldl; intros b' server _].
  - by apply extends_same.
  - unfold add_member.
    case_bool_decide; [apply builds_refl|]. rewrite index_lookup. destruct (manifest_of ms server) as [m|] eqn:Hm; [|apply builds_refl].
    cbn [fmap option_fmap option_map daemons_of sdm_refs]. pose proof (extends_add_all (GroupScopeKey (g_Name g)) b'
      ((fun d => mkRef (mf_Name m) (ds_Name d) (ds_Port d)) <$> mf_Daemons m)) as Hall. by rewrite <- list_fmap_compose in Hall.
Qed.

Lemma build_extends gen ms gs :
  exists b, BuildResolverSnapshotFromManifestsAndGroups gen ms gs = b_snap b /\
    extends (mkBuild (empty_snapshot gen) ∅) b ((ms ≫= manifest_pairs ms) ++ (gs ≫= group_pairs ms)).
Proof.
  eexists. split; [reflexivity|]. eapply builds_trans; apply extends_foldl; intros.
  - apply add_manifest_extends.
  - apply add_group_extends.
Qed.
Lemma empty_ok gen : build_ok (mkBuild (empty_snapshot gen) ∅).
Proof. split; [intros; set_solver|]. intros s. apply NoDup_nil_2. Qed.

Lemma manifest_pairs_spec ms scope ref : (scope, ref) ∈ ms ≫= manifest_pairs ms <-> client_reaches ms scope ref.
Proof.
  unfold client_reaches. rewrite list_elem_of_bind. unfold manifest_pairs. setoid_rewrite list_elem_of_bind. split.
  - intros (m&(cb&Hin&Hcb)&Hm). destruct (_ || _) eqn:E; [by apply elem_of_nil in Hin|]. breflect. destruct E as [E1 E2].
    destruct (manifest_of ms (mf_Name m)) as [m'|] eqn:Em; [|by apply elem_of_nil in Hin]. cbn in Hin.
    destruct (daemon_of m' (cb_Daemon cb)) as [d|] eqn:Ed; [|by apply elem_of_nil in Hin].
    apply list_elem_of_singleton in Hin as [= -> ->]. exists m, cb, m', d. by split_and!.
  - intros (m&cb&m'&d&Hm&Hcb&<-&E1&E2&Em&Ed&->). exists m. split; [|done]. exists cb. split; [|done].
    apply str_eqb_false in E1, E2. rewrite E1, E2, Em. cbn. rewrite Ed. by left.
Qed.
Lemma group_pairs_spec ms gs scope ref : (scope, ref) ∈ gs ≫= group_pairs ms <-> group_reaches ms gs scope ref.
Proof.
  unfold group_reaches. rewrite list_elem_of_bind. unfold group_pairs, name_valid. split.
  - intros (g&Hin&Hg). case_bool_decide as Hv; [|by apply elem_of_nil in Hin]. cbn [negb] in Hin.
    apply list_elem_of_bind in Hin as (server&Hin&Hs). case_bool_decide as Hp; [by apply elem_of_nil in Hin|].
    destruct (manifest_of ms server) as [m|] eqn:Em; [|by apply elem_of_nil in Hin].
    apply list_elem_of_fmap in Hin as (d&[= -> ->]&Hd). destruct (manifest_of_Some _ _ _ Em) as [_ En].
    exists g, server, m, d. rewrite En. by split_and!.
  - intros (g&server&m&d&Hg&Hv&->&Hs&Hp&Em&Hd&->). exists g. split; [|done]. rewrite bool_decide_eq_true_2 by done. cbn [negb].
    apply list_elem_of_bind. exists server. split; [|done]. rewrite bool_decide_eq_false_2 by done. rewrite Em.
    apply list_elem_of_fmap. exists d. split; [|done]. by destruct (manifest_of_Some _ _ _ Em) as [_ ->].
Qed.

(** C27: a snapshot binds a scope to exactly the daemons it should reach: those a
    manifest binds the client to, and those of the servers of a group of that
    key; a daemon is listed once, so it is never initialised twice. *)
Theorem bindings_exact gen ms gs scope :
  let s := BuildResolverSnapshotFromManifestsAndGroups gen ms gs in
  NoDup (bindings s scope) /\
  forall ref, ref ∈ bindings s scope <-> client_reaches ms scope ref \/ group_reaches ms gs scope ref.
Proof.
  destruct (build_extends gen ms gs) as (b&->&Hb). destruct (Hb (empty_ok gen)) as ([_ Hn]&He&_). split; [apply Hn|].
  intros ref. rewrite He, elem_of_app, manifest_pairs_spec, group_pairs_spec. unfold bindings at 1. cbn.
  rewrite lookup_empty. cbn. rewrite elem_of_nil. tauto.
Qed.

(** *** The other fields *)

(** What the bindings leave alone. *)
Definition declared (s : ResolverSnapshot) := (rs_ToolsHidden s, rs_Groups s, rs_GroupDeclaredMembers s).
Lemma foldl_preserves {A B} (f : build -> A -> build) (obs : build -> B) (l : list A) b :
  (forall b x, obs (f b x) = obs b) -> obs (foldl f b l) = obs b.
Proof. intros H. revert b. induction l as [|x l IH]; intros b; [done|]. cbn. by rewrite IH. Qed.
Lemma declared_add s b r : declared (b_snap (add s b r)) = declared (b_snap b).
Proof. unfold add. by case_bool_decide. Qed.
Lemma declared_manifest idx b m : declared (b_snap (add_manifest idx b m)) = declared (b_snap b).
Proof.
  unfold add_manifest. apply (foldl_preserves _ (declared ∘ b_snap)). intros b' cb. unfold add_client_binding, compose.
  destruct (_ || _); [done|]. case_match; [apply declared_add|done].
Qed.
Lemma declared_members idx s l b : declared (b_snap (foldl (add_member idx s) b l)) = declared (b_snap b).
Proof.
  apply (foldl_preserves _ (declared ∘ b_snap)). intros b' server. unfold add_member, compose.
  case_bool_decide; [done|]. case_match; [|done]. apply (foldl_preserves _ (declared ∘ b_snap)). intros. apply declared_add.
Qed.

(** A group's mark on them. *)
Definition declare_all (g : Group) (s : ResolverSnapshot) : ResolverSnapshot :=
  if negb (name_valid g) then s else hide_tools (GroupScopeKey (g_Name g)) g (declare_group (GroupScopeKey (g_Name g)) g s).
Lemma hide_declared s g a b : declared a = declared b -> declared (hide_tools s g a) = declared (hide_tools s g b).
Proof. intros [= H1 H2 H3]. unfold hide_tools. case_bool_decide; unfold declared; cbn; by rewrite H1, H2, H3. Qed.
Lemma declared_group idx b g : declared (b_snap (add_group idx b g)) = declared (declare_all g (b_snap b)).
Proof.
  unfold add_group, declare_all. destruct (name_valid g); [|done]. cbn [negb b_snap]. apply hide_declared.
  by rewrite declared_members.
Qed.
Lemma declare_all_same g a b : declared a = declared b -> declared (declare_all g a) = declared (declare_all g b).
Proof.
  intros H. unfold declare_all. destruct (name_valid g); [|done]. apply hide_declared. injection H as H1 H2 H3.
  unfold declared. cbn. by rewrite H1, H2, H3.
Qed.
Lemma build_declared gen ms gs :
  declared (BuildResolverSnapshotFromManifestsAndGroups gen ms gs) =
  declared (foldl (fun s g => declare_all g s) (empty_snapshot gen) gs).
Proof.
  unfold BuildResolverSnapshotFromManifestsAndGroups. set (b0 := foldl (add_manifest _) _ ms).
  assert (declared (b_snap b0) = declared (empty_snapshot gen)) as H0.
  { apply (foldl_preserves _ (declared ∘ b_snap)). intros. apply declared_manifest. }
  clearbody b0. revert b0 H0. generalize (empty_snapshot gen) as s0. generalize (index_servers ms) as idx. clear.
  intros idx. induction gs as [|g gs IH]; intros s0 b0 H0; [done|]. cbn. apply IH. rewrite declared_group.
  by apply declare_all_same.
Qed.

Lemma scope_key_inj a b : GroupScopeKey a = GroupScopeKey b -> a = b.
Proof. intros H. change (String "g" (String ":" a) = String "g" (String ":" b)) in H. by injection H. Qed.
Lemma scope_key_prefix a : has_prefix GroupScopeKeyPrefix (GroupScopeKey a) = true.
Proof. by destruct a. Qed.

(** The groups of a snapshot. *)
Lemma declare_groups gs s0 scope :
  scope ∈ rs_Groups (foldl (fun s g => declare_all g s) s0 gs) <->
  scope ∈ rs_Groups s0 \/ exists g, g ∈ gs /\ validateGroupName (g_Name g) = None /\ scope = GroupScopeKey (g_Name g).
Proof.
  revert s0. induction gs as [|g gs IH]; intros s0; cbn; [set_solver|]. rewrite IH. unfold declare_all, name_valid.
  case_bool_decide as Hv; cbn [negb].
  - assert (rs_Groups (hide_tools (GroupScopeKey (g_Name g)) g (declare_group (GroupScopeKey (g_Name g)) g s0)) =
      {[GroupScopeKey (g_Name g)]} ∪ rs_Groups s0) as -> by (unfold hide_tools; by case_bool_decide).
    set_solver.
  - set_solver.
Qed.
(** The last declaration of a scope decides its hidden tools. *)
Lemma declare_hidden_other gs s0 scope :
  (forall g, g ∈ gs -> validateGroupName (g_Name g) = None -> GroupScopeKey (g_Name g) <> scope) ->
  rs_ToolsHidden (foldl (fun s g => declare_all g s) s0 gs) !! scope = rs_ToolsHidden s0 !! scope.
Proof.
  revert s0. induction gs as [|g gs IH]; intros s0 Hg; [done|]. cbn. rewrite IH by (intros; apply Hg; [by right|done]).
  unfold declare_all, name_valid. case_bool_decide as Hv; [|done]. cbn [negb]. unfold hide_tools. case_bool_decide; [done|].
  cbn. apply lookup_insert_ne. apply Hg; [by left|done].
Qed.

Lemma unique_from_spec i seen gs :
  names_unique_from i seen gs = None ->
  NoDup (to_lower ∘ g_Name <$> gs) /\ forall g, g ∈ gs -> to_lower (g_Name g) ∉ seen.
Proof.
  revert i seen. induction gs as [|g gs IH]; intros i seen; [split; [constructor|set_solver]|]. cbn.
  case_bool_decide as Hs; [done|]. intros [H1 H2]%IH. split.
  - constructor; [|done]. intros (g'&E&Hg')%list_elem_of_fmap. apply (H2 g' Hg'). cbn in E. rewrite <- E. set_solver.
  - intros g' [->|Hg']%elem_of_cons; [done|]. specialize (H2 g' Hg'). set_solver.
Qed.
Lemma hidden_lookup f server : default [] (hidden_filter f !! server) = default [] (f !! server).
Proof.
  unfold hidden_filter. destruct (f !! server) as [l|] eqn:E.
  - destruct l as [|x l].
    + rewrite (proj2 (map_lookup_filter_None _ _ _)); [done|]. right. intros y Hy. cbn. rewrite E in Hy. injection Hy as <-. auto.
    + rewrite (proj2 (map_lookup_filter_Some _ f server (x :: l))); [done|]. by split.
  - rewrite (proj2 (map_lookup_filter_None _ _ _)); [done|]. by left.
Qed.
Lemma existsb_eqb_elem x l : existsb (fun y => y =s x) l = true <-> x ∈ l.
Proof.
  rewrite existsb_exists. setoid_rewrite String.eqb_eq. setoid_rewrite list_elem_of_In. split; [by intros (?&?&->)|eauto].
Qed.

(** Groups and clients do not meet.  Whatever the groups are, the scope of
    a client, which does not begin with [g:], is bound as if there were none
    and hides nothing; a route [/g/<name>] exists exactly for the declared
    groups of valid name, and such a group hides exactly its own tools. *)
Theorem client_fence gen ms gs :
  let s := BuildResolverSnapshotFromManifestsAndGroups gen ms gs in
  (forall c, has_prefix GroupScopeKeyPrefix c = false ->
     bindings s c = bindings (BuildResolverSnapshotFromManifests gen ms) c /\
     forall ref, snapshotHidesTool (Some s) c ref = false) /\
  (forall name, isKnownGroup (Some s) name = true <-> validateGroupName name = None /\ exists g, g ∈ gs /\ g_Name g = name) /\
  (checkGroupNamesUnique gs = None -> forall g ref, g ∈ gs -> validateGroupName (g_Name g) = None ->
     snapshotHidesTool (Some s) (GroupScopeKey (g_Name g)) ref = true <->
     tr_RawName ref ∈ default [] (g_ToolsHidden g !! tr_Server ref)).
Proof.
  cbn zeta. pose proof (build_declared gen ms gs) as Hd. injection Hd as Hh Hg _.
  set (s := BuildResolverSnapshotFromManifestsAndGroups gen ms gs) in *. split_and!.
  - intros c Hc. assert (forall name, GroupScopeKey name <> c) as Hne.
    { intros name <-. by rewrite scope_key_prefix in Hc. }
    split.
    + unfold BuildResolverSnapshotFromManifests, s, BuildResolverSnapshotFromManifestsAndGroups. cbn [foldl].
      set (b0 := foldl (add_manifest _) _ ms). assert (build_ok b0) as Hb.
      { assert (extends (mkBuild (empty_snapshot gen) ∅) b0 (ms ≫= manifest_pairs ms)) as H
          by (apply extends_foldl; intros; apply add_manifest_extends). by apply H, empty_ok. }
      assert (extends b0 (foldl (add_group (index_servers ms)) b0 gs) (gs ≫= group_pairs ms)) as H
        by (apply extends_foldl; intros; apply add_group_extends).
      destruct (H Hb) as (_&_&Hf). apply Hf. intros r (g&?&?&?&?&?&E&?)%group_pairs_spec. by apply (Hne (g_Name g)).

    + intros ref. unfold snapshotHidesTool, snapshotHiddenToolsForScope. rewrite Hh, declare_hidden_other by (intros; apply Hne).
      cbn [empty_snapshot rs_ToolsHidden]. rewrite lookup_empty. cbn [from_option id]. by rewrite lookup_empty.
  - intros name. unfold isKnownGroup. destruct (validateGroupName name) eqn:Hv; [naive_solver|].
    rewrite bool_decide_eq_true, Hg, declare_groups. split.
    + intros [?|(g&Hin&_&->%scope_key_inj)]; [set_solver|]. eauto.
    + intros (_&g&Hin&<-). right. eauto.
  - intros Hu g ref Hin Hv. apply unique_from_spec in Hu as [Hu _]. unfold snapshotHidesTool, snapshotHiddenToolsForScope.
    rewrite Hh. apply list_elem_of_split in Hin as (l1&l2&->). rewrite fmap_app, fmap_cons in Hu.
    apply NoDup_app in Hu as (_&Hl&[Hu _]%NoDup_cons). rewrite foldl_app. cbn [foldl]. rewrite declare_hidden_other.
    2: { intros g' Hg' _ E%scope_key_inj. apply Hu, list_elem_of_fmap. exists g'. split; [|done]. cbn. by rewrite E. }
    unfold declare_all, name_valid. rewrite bool_decide_eq_true_2 by done. cbn [negb]. unfold hide_tools.
    rewrite existsb_eqb_elem, <- (hidden_lookup (g_ToolsHidden g)). case_bool_decide as He; cbn.
    + rewrite He, lookup_empty, declare_hidden_other; [done|]. intros g' Hg' _ E%scope_key_inj.
      apply (Hl (to_lower (g_Name g))); [|by left]. apply list_elem_of_fmap. exists g'. split; [|done]. cbn. by rewrite E.
    + by rewrite lookup_insert_eq.
Qed.

(** ** Witnesses *)
Definition two_manifests : list ServerManifest :=
  [mkManifest "serena" [mkDaemonSpec "codex" 9125; mkDaemonSpec "claude" 9126] [mkBinding "codex-cli" "codex"; mkBinding "codex-cli" "codex"];
   mkManifest "playwright" [mkDaemonSpec "default" 9130] [mkBinding "codex-cli" "default"; mkBinding "cursor" "gone"]].
Definition ops_group : Group := mkGroup "ops" ["serena"; "playwright"; "missing"] {["serena" := ["write"]; "other" := []]}.
Definition demo_snapshot : ResolverSnapshot := BuildResolverSnapshotFromManifestsAndGroups 7 two_manifests [ops_group].
Example demo_client : bindings demo_snapshot "codex-cli" = [mkRef "serena" "codex" 9125; mkRef "playwright" "default" 9130].
Proof. vm_compute. reflexivity. Qed.
Example demo_group : bindings demo_snapshot "g:ops" = [mkRef "serena" "codex" 9125; mkRef "serena" "claude" 9126].
Proof. vm_compute. reflexivity. Qed.
Example demo_hidden :
  snapshotHidesTool (Some demo_snapshot) "g:ops" (mkToolRef "serena" "codex" 9125 "write") = true /\
  snapshotHidesTool (Some demo_snapshot) "codex-cli" (mkToolRef "serena" "codex" 9125 "write") = false.
Proof. vm_compute. done. Qed.

(** A manifest may name a client [g:ops]; nothing rejects it, and the daemon
    is then bound to the group of that key. *)
Example client_named_like_group :
  bindings (BuildResolverSnapshotFromManifestsAndGroups 7
    [mkManifest "extra" [mkDaemonSpec "default" 9200] [mkBinding "g:ops" "default"]] [ops_group]) "g:ops" =
  [mkRef "extra" "default" 9200].
Proof. vm_compute. reflexivity. Qed.
