(* ===== verification/HubTokens.v ===== *)
(** * HubTokens: groups, their tokens and the published topology.

    [api/hub_mcp_tokens.go], the file half of [api/hub_mcp_groups.go] and
    [PublishGroupsSnapshotLocked] of [api/hub_mcp_resolver.go].  Two files
    (the groups, the token table) are changed under one lock; the process
    keeps a copy of the token table and the published snapshot, which every
    request reads without it. *)
From S2P Require Import Prelude GoTime Resolver.
Open Scope Z_scope.

(** ** Files *)
Record GroupsConfig := mkGroupsConfig { gc_Version : Z; gc_Groups : list Group }.
(** A document: blank, or its version as the lenient decoder reads it and the
    rest as the strict decoder does. *)
Inductive groups_doc := DocBlank | Doc (version : res Z) (strict : res GroupsConfig).
Notation table := (gmap string string).

(** What the system answers: a read succeeds or fails, random bytes come or
    do not, a write is done, fails, or fails after the file was replaced. *)
Inductive write_result := WriteDone | WriteFailed (msg : string) | WriteLanded (msg : string).
Record script := mkScript { sc_reads : list (option string); sc_fresh : list (res string); sc_writes : list write_result }.

Inductive resolverGroupActiveSetState :=
| resolverGroupActiveSetCold | resolverGroupActiveSetKnownGood | resolverGroupActiveSetIndeterminate.
#[export] Instance active_set_eq_dec : EqDecision resolverGroupActiveSetState.
Proof. solve_decision. Defined.

(** The two files, and the process: its token table, its snapshot, the
    standing of that snapshot's groups, the number of the next snapshot. *)
Record hub := mkHub {
  h_groups : option groups_doc;
  h_tokens : option table;
  h_liveTokenTable : option table;
  h_resolverSnapshot : option ResolverSnapshot;
  h_activeSet : resolverGroupActiveSetState;
  h_resolverGen : Z;
  h_io : script;
}.
Definition hub_eta (h : hub) : hub :=
  mkHub (h_groups h) (h_tokens h) (h_liveTokenTable h) (h_resolverSnapshot h) (h_activeSet h) (h_resolverGen h) (h_io h).
#[export] Instance set_h_groups : Setter h_groups := ltac:(derive_setter hub_eta h_groups).
#[export] Instance set_h_tokens : Setter h_tokens := ltac:(derive_setter hub_eta h_tokens).
#[export] Instance set_h_live : Setter h_liveTokenTable := ltac:(derive_setter hub_eta h_liveTokenTable).
#[export] Instance set_h_snapshot : Setter h_resolverSnapshot := ltac:(derive_setter hub_eta h_resolverSnapshot).
#[export] Instance set_h_activeSet : Setter h_activeSet := ltac:(derive_setter hub_eta h_activeSet).
#[export] Instance set_h_gen : Setter h_resolverGen := ltac:(derive_setter hub_eta h_resolverGen).
#[export] Instance set_h_io : Setter h_io := ltac:(derive_setter hub_eta h_io).

(** ** A state and error monad *)
Definition M (A : Type) : Type := hub -> hub * res A.
Definition ret {A} (a : A) : M A := fun h => (h, Ok a).
Definition throw {A} (e : error) : M A := fun h => (h, Err e).
Definition bind {A B} (m : M A) (k : A -> M B) : M B := fun h =>
  match m h with (h', Ok a) => k a h' | (h', Err e) => (h', Err e) end.
(** The outcome of [m] as a value. *)
Definition attempt {A} (m : M A) : M (res A) := fun h => let r := m h in (r.1, Ok r.2).
Definition modify (f : hub -> hub) : M unit := fun h => (f h, Ok tt).
Definition get {A} (f : hub -> A) : M A := fun h => (h, Ok (f h)).
Notation "'let!' x := m 'in' k" := (bind m (fun x => k))
  (at level 10, x pattern, m at level 100, k at level 200) : go_scope.
Notation "m ;! k" := (bind m (fun _ => k)) (at level 199, right associativity) : go_scope.

(** ** Reading and writing *)
Definition ErrNotExist : error := sentinel "ErrNotExist" "file does not exist".
Definition isHubMcpStateMissingErr (e : error) : bool := errors_Is e ErrNotExist.
Definition next_read : M unit := fun h =>
  match sc_reads (h_io h) with
  | [] => (h, Ok tt)
  | r :: rs =>
      (h <| h_io := mkScript rs (sc_fresh (h_io h)) (sc_writes (h_io h)) |>,
       match r with None => Ok tt | Some msg => Err (errors_New msg) end)
  end.
Definition readHubMcpStateFile {A} (file : hub -> option A) : M A := fun h =>
  match next_read h with
  | (h, Ok _) => match file h with Some a => (h, Ok a) | None => (h, Err ErrNotExist) end
  | (h, Err e) => (h, Err e)
  end.
Definition next_write (landed : hub -> hub) : M unit := fun h =>
  match sc_writes (h_io h) with
  | [] => (landed h, Ok tt)
  | w :: ws =>
      let h := h <| h_io := mkScript (sc_reads (h_io h)) (sc_fresh (h_io h)) ws |> in
      match w with
      | WriteDone => (landed h, Ok tt)
      | WriteFailed msg => (h, Err (errors_New msg))
      | WriteLanded msg => (landed h, Err (errors_New msg))
      end
  end.
(** 32 random bytes in hexadecimal. *)
Definition generateHexToken : M string := fun h =>
  match sc_fresh (h_io h) with
  | [] => (h, Err (errors_New "crypto/rand"))
  | r :: rs => (h <| h_io := mkScript (sc_reads (h_io h)) rs (sc_writes (h_io h)) |>, r)
  end.

(** ** The token table *)
Definition is_hex_char (a : ascii) : bool :=
  let n := nat_of_ascii a in
  (Nat.leb 48 n && Nat.leb n 57) || (Nat.leb 97 n && Nat.leb n 102) || (Nat.leb 65 n && Nat.leb n 70).
Fixpoint hex_chars (s : string) : bool :=
  match s with EmptyString => true | String a s' => is_hex_char a && hex_chars s' end.
Definition isValidHexToken (s : string) : bool := Nat.eqb (String.length s) 64 && hex_chars s.

Definition loadHubTokensLocked : M table :=
  let! tbl := readHubMcpStateFile h_tokens in
  if forallb (fun row => isValidHexToken row.2) (map_to_list tbl) then ret tbl
  else throw (errors_New "hub-mcp tokens corruption: a client has a malformed token").
Definition writeHubTokensLocked (tbl : table) : M unit := next_write (fun h => h <| h_tokens := Some tbl |>).
Definition publishTokenTable (tbl : table) : M unit := modify (fun h => h <| h_liveTokenTable := Some tbl |>).
(** [loadHubTokensLocked] where a missing file is an empty table *)
Definition load_or_empty : M table :=
  let! r := attempt loadHubTokensLocked in
  match r with
  | Ok tbl => ret tbl
  | Err e => if isHubMcpStateMissingErr e then ret ∅ else throw e
  end.

Fixpoint mint_missing (clients : list string) (tbl : table) (changed : bool) : M (table * bool) :=
  match clients with
  | [] => ret (tbl, changed)
  | c :: rest =>
      if (c =s "") || bool_decide (is_Some (tbl !! c)) then mint_missing rest tbl changed
      else let! fresh := generateHexToken in mint_missing rest (<[c := fresh]> tbl) true
  end.
Definition ensureHubTokensLocked (clients : list string) : M table :=
  let! tbl := load_or_empty in
  let! (tbl, changed) := mint_missing clients tbl false in
  (if (changed : bool) then writeHubTokensLocked tbl else ret tt) ;!
  publishTokenTable tbl ;!
  ret tbl.
Definition EnsureHubTokens (clients : list string) : M table := ensureHubTokensLocked clients.

Definition RotateHubToken (client : string) : M table :=
  if client =s "" then throw (errors_New "RotateHubToken: empty client")
  else
    let! tbl := load_or_empty in
    let! fresh := generateHexToken in
    let tbl := <[client := fresh]> tbl in
    writeHubTokensLocked tbl ;!
    publishTokenTable tbl ;!
    ret tbl.
Definition ReloadHubTokens : M table := let! tbl := loadHubTokensLocked in publishTokenTable tbl ;! ret tbl.

Definition prune (scopeKeys : list string) (tbl : table) : table := foldl (fun t k => delete k t) tbl scopeKeys.
Definition pruneHubTokensLocked (scopeKeys : list string) : M unit :=
  let! r := attempt loadHubTokensLocked in
  match r with
  | Err e => if isHubMcpStateMissingErr e then ret tt else throw e
  | Ok tbl =>
      if existsb (fun k => bool_decide (is_Some (tbl !! k))) scopeKeys
      then writeHubTokensLocked (prune scopeKeys tbl) ;! publishTokenTable (prune scopeKeys tbl)
      else ret tt
  end.

(** ** The check of a request *)
Definition CurrentTokenTable (h : hub) : table := default ∅ (h_liveTokenTable h).
Definition ConstantTimeCompareToken (h : hub) (client headerToken : string) : bool :=
  Nat.eqb (String.length headerToken) 64 &&
  match CurrentTokenTable h !! client with
  | None => false
  | Some stored => Nat.eqb (String.length stored) 64 && (stored =s headerToken)
  end.

(** ** Rotation of the rows of groups that come back *)
Definition errGroupTokenActiveSetIndeterminate : error :=
  sentinel "errGroupTokenActiveSetIndeterminate" "group token rotation active-set is indeterminate".
Fixpoint rotate_rows (keys : list string) (active : gset string) (tbl : table) (rotated : bool) : M (table * bool) :=
  match keys with
  | [] => ret (tbl, rotated)
  | k :: rest =>
      if negb (bool_decide (is_Some (tbl !! k))) || bool_decide (k ∈ active) then rotate_rows rest active tbl rotated
      else let! fresh := generateHexToken in rotate_rows rest active (<[k := fresh]> tbl) true
  end.
Definition rotateReusedGroupTokensLocked (declaredKeys : list string) (activeKeys : gset string)
    (priorActiveSetKnownGood genuineColdStart : bool) : M bool :=
  if bool_decide (declaredKeys = []) || genuineColdStart then ret false
  else
    let! r := attempt loadHubTokensLocked in
    match r with
    | Err e => if isHubMcpStateMissingErr e then ret false else throw e
    | Ok tbl =>
        if negb priorActiveSetKnownGood then
          if existsb (fun k => bool_decide (is_Some (tbl !! k))) declaredKeys
          then throw errGroupTokenActiveSetIndeterminate else ret false
        else
          let! (tbl, rotated) := rotate_rows declaredKeys activeKeys tbl false in
          if negb rotated then ret false
          else writeHubTokensLocked tbl ;! publishTokenTable tbl ;! ret true
    end.
Definition groupTokensAlreadyPublished (h : hub) (declaredKeys : list string) (activeKeys : gset string) (activeSetKnownGood : bool) : bool :=
  negb (bool_decide (declaredKeys = [])) && negb (bool_decide (activeKeys = ∅)) && activeSetKnownGood &&
  forallb (fun k => bool_decide (k ∈ activeKeys) &&
    match CurrentTokenTable h !! k with Some tok => isValidHexToken tok | None => false end) declaredKeys.

(** ** The groups file *)
Definition parseGroupsConfig (doc : groups_doc) : res GroupsConfig :=
  match doc with
  | DocBlank => Ok (mkGroupsConfig 0 [])
  | Doc version strict =>
      let? v := version in
      if negb (v =? 0) && negb (v =? 1) then Err (errors_New "groups.yaml: unsupported version")
      else
        let? cfg := strict in
        if negb (forallb name_valid (gc_Groups cfg)) then Err (errors_New "groups.yaml: invalid group name")
        else match checkGroupNamesUnique (gc_Groups cfg) with
             | Some (_, err) => Err err
             | None => Ok cfg
             end
  end.
Definition loadGroupsLocked : M GroupsConfig :=
  let! r := attempt (readHubMcpStateFile h_groups) in
  match r with
  | Err e => if isHubMcpStateMissingErr e then ret (mkGroupsConfig 0 []) else throw e
  | Ok doc => match parseGroupsConfig doc with Ok cfg => ret cfg | Err e => throw e end
  end.
Definition writeGroupsLocked (cfg : GroupsConfig) : M unit :=
  let cfg := mkGroupsConfig (if gc_Version cfg =? 0 then 1 else gc_Version cfg) (gc_Groups cfg) in
  if negb (forallb name_valid (gc_Groups cfg)) then throw (errors_New "invalid group name")
  else match checkGroupNamesUnique (gc_Groups cfg) with
       | Some (_, err) => throw err
       | None => next_write (fun h => h <| h_groups := Some (Doc (Ok (gc_Version cfg)) (Ok cfg)) |>)
       end.
Definition ErrTokenPruneFailed : error :=
  sentinel "ErrTokenPruneFailed" "groups.yaml written, but pruning the deleted group's token row failed".
Definition ReadModifyWriteGroups (mutate : GroupsConfig -> res (GroupsConfig * list string)) : M unit :=
  let! cfg := loadGroupsLocked in
  match mutate cfg with
  | Err e => throw e
  | Ok (cfg, deleted) =>
      writeGroupsLocked cfg ;!
      let keys := GroupScopeKey <$> filter (fun name => validateGroupName name = None) deleted in
      if bool_decide (keys = []) then ret tt
      else
        let! r := attempt (pruneHubTokensLocked keys) in
        match r with
        | Ok _ => ret tt
        | Err e => throw (mkError (err_is ErrTokenPruneFailed) (err_text ErrTokenPruneFailed +:+ ": " +:+ err_text e))
        end
  end.

(** ** Publishing *)
Definition PublishResolverSnapshot (manifests : list ServerManifest) (groups : list Group) (state : resolverGroupActiveSetState) (h : hub) : hub :=
  let gen := h_resolverGen h + 1 in
  h <| h_resolverGen := gen |>
    <| h_resolverSnapshot := Some (BuildResolverSnapshotFromManifestsAndGroups gen manifests groups) |>
    <| h_activeSet := state |>.
(** The token rows of the declared groups, before the publication: [Some] is
    an error that is deferred until after it. *)
Definition ensure_group_tokens (groupKeys : list string) (active : gset string) (known cold : bool) : M (option error) :=
  if bool_decide (groupKeys = []) then ret None
  else
    let! published := get (fun h => groupTokensAlreadyPublished h groupKeys active known) in
    if (published : bool) then ret None
    else
      let! r := attempt (rotateReusedGroupTokensLocked groupKeys active known cold) in
      match r with
      | Err e =>
          modify (fun h => h <| h_activeSet := resolverGroupActiveSetIndeterminate |>) ;!
          throw (wrapf "rotate reintroduced group token rows" e)
      | Ok _ =>
          let! r := attempt (ensureHubTokensLocked groupKeys) in
          ret (match r with Ok _ => None | Err e => Some (wrapf "ensure group token rows" e) end)
      end.
Definition published_groups (h : hub) : gset string := match h_resolverSnapshot h with Some s => rs_Groups s | None => ∅ end.
(** [PublishGroupsSnapshotLocked], once the lock is held. *)
Definition PublishGroupsSnapshotLocked (scan : res (list ServerManifest)) : M unit :=
  match scan with
  | Err e => throw (wrapf "scan manifests under hub-mcp.lock" e)
  | Ok manifests =>
      let! r := attempt loadGroupsLocked in
      match r with
      | Err e => throw (wrapf "load groups.yaml under hub-mcp.lock" e)
      | Ok cfg =>
          let! prev := get (fun h => (h_resolverSnapshot h, h_activeSet h)) in
          let cold := bool_decide (prev.1 = None) && bool_decide (prev.2 = resolverGroupActiveSetCold) in
          let known := negb (bool_decide (prev.1 = None)) && bool_decide (prev.2 = resolverGroupActiveSetKnownGood) in
          let active := if known then match prev.1 with Some s => rs_Groups s | None => ∅ end else ∅ in
          let! tokenEnsureErr := ensure_group_tokens (GroupScopeKeys (gc_Groups cfg)) active known cold in
          modify (PublishResolverSnapshot manifests (gc_Groups cfg) resolverGroupActiveSetKnownGood) ;!
          match tokenEnsureErr with Some e => throw e | None => ret tt end
      end
  end.
(** [BumpResolverOnManifestChange] *)
Definition BumpResolverOnManifestChange (manifests : list ServerManifest) : M unit :=
  modify (PublishResolverSnapshot manifests [] resolverGroupActiveSetIndeterminate).

(** Whether a request of a scope with a token passes the gates of the route:
    a group must be known, then the token must match. *)
Definition group_request_accepted (h : hub) (name headerToken : string) : bool :=
  isKnownGroup (h_resolverSnapshot h) name && ConstantTimeCompareToken h (GroupScopeKey name) headerToken.

(** ** The life of the process *)
Inductive hub_op :=
| OpGroups (mutate : GroupsConfig -> res (GroupsConfig * list string))
| OpPublish (scan : res (list ServerManifest))
| OpEnsure (clients : list string)
| OpRotate (client : string)
| OpReload
| OpBump (manifests : list ServerManifest)
(** the command line rotates in its own process: only the file changes *)
| OpForeignRotate (client : string).
Definition run_op (op : hub_op) (h : hub) : hub :=
  match op with
  | OpGroups mutate => (ReadModifyWriteGroups mutate h).1
  | OpPublish scan => (PublishGroupsSnapshotLocked scan h).1
  | OpEnsure clients => (EnsureHubTokens clients h).1
  | OpRotate client => (RotateHubToken client h).1
  | OpReload => (ReloadHubTokens h).1
  | OpBump manifests => (BumpResolverOnManifestChange manifests h).1
  | OpForeignRotate client => (RotateHubToken client h).1 <| h_liveTokenTable := h_liveTokenTable h |>
  end.

(** With it: every token issued so far, and for every key the tokens issued
    before the last moment at which a snapshot without that key was
    published. *)
Record life := mkLife { l_hub : hub; l_issued : gset string; l_retired : string -> gset string }.
Definition fresh_tokens (s : script) : gset string :=
  list_to_set (omap (fun r => match r with Ok t => Some t | Err _ => None end) (sc_fresh s)).
Definition no_landed (s : script) : Prop := forall msg, WriteLanded msg ∉ sc_writes s.
Definition live_step (op : hub_op) (s : script) (l : life) : life :=
  let h := run_op op (l_hub l <| h_io := s |>) in
  let issued := fresh_tokens s ∪ l_issued l in
  mkLife h issued (fun k =>
    match h_resolverSnapshot h with
    | Some snap => if bool_decide (k ∈ rs_Groups snap) then l_retired l k else issued
    | None => l_retired l k
    end).
(** A process starts with whatever files there are. *)
Definition started (groups : option groups_doc) (tokens : option table) : life :=
  mkLife (mkHub groups tokens None None resolverGroupActiveSetCold 0 (mkScript [] [] []))
         (list_to_set (map_to_list (default ∅ tokens)).*2) (fun _ => ∅).
(** Random tokens are new, and a write that fails leaves the file alone. *)
Inductive reached (groups : option groups_doc) (tokens : option table) : life -> Prop :=
| reached_start : reached groups tokens (started groups tokens)
| reached_step op s l :
    reached groups tokens l -> fresh_tokens s ## l_issued l -> no_landed s -> reached groups tokens (live_step op s l).

(** ** Properties *)
Definition file_table (h : hub) : table := default ∅ (h_tokens h).

(** Only the script moves. *)
Definition no_io (h : hub) := (h_groups h, h_tokens h, h_liveTokenTable h, h_resolverSnapshot h, h_activeSet h, h_resolverGen h).
Record quiet (h h' : hub) : Prop := mkQuiet {
  quiet_state : no_io h' = no_io h;
  quiet_writes : sc_writes (h_io h') `suffix_of` sc_writes (h_io h);
  quiet_fresh : sc_fresh (h_io h') `suffix_of` sc_fresh (h_io h);
}.
#[export] Instance quiet_refl : Reflexive quiet.
Proof. by intros h. Qed.
#[export] Instance quiet_trans : Transitive quiet.
Proof. intros a b c [H1 H2 H3] [H4 H5 H6]. split; by etrans. Qed.

Definition io_ok (F : gset string) (s : script) : Prop := (forall t, Ok t ∈ sc_fresh s -> t ∈ F) /\ no_landed s.
Lemma suffix_elem {A} (l k : list A) x : l `suffix_of` k -> x ∈ l -> x ∈ k.
Proof. intros [m ->] H. apply elem_of_app. by right. Qed.
Lemma quiet_io F h h' : quiet h h' -> io_ok F (h_io h) -> io_ok F (h_io h').
Proof.
  intros [_ Hw Hf] [H1 H2]. split.
  - intros t Ht. by apply H1, (suffix_elem _ _ _ Hf).
  - intros msg Hm. by apply (H2 msg), (suffix_elem _ _ _ Hw).
Qed.
Lemma quiet_fields h h' :
  quiet h h' -> h_groups h' = h_groups h /\ h_tokens h' = h_tokens h /\ h_liveTokenTable h' = h_liveTokenTable h /\
    h_resolverSnapshot h' = h_resolverSnapshot h /\ h_activeSet h' = h_activeSet h /\ h_resolverGen h' = h_resolverGen h.
Proof. intros [H _ _]. unfold no_io in H. by simplify_eq. Qed.
Lemma quiet_script h rs fs ws :
  ws `suffix_of` sc_writes (h_io h) -> fs `suffix_of` sc_fresh (h_io h) -> quiet h (h <| h_io := mkScript rs fs ws |>).
Proof. by split. Qed.

(** *** The primitives *)
Lemma next_read_inv h h' r : next_read h = (h', r) -> quiet h h' /\ (forall e, r = Err e -> isHubMcpStateMissingErr e = false).
Proof.
  unfold next_read. destruct (sc_reads (h_io h)) as [|[msg|] rs]; intros [= <- <-].
  - split; [reflexivity|done].
  - split; [by apply quiet_script|]. by intros e [= <-].
  - split; [by apply quiet_script|done].
Qed.
Lemma read_inv {A} (file : hub -> option A) h h' r :
  readHubMcpStateFile file h = (h', r) -> (forall a b, quiet a b -> file b = file a) ->
  quiet h h' /\ match r with Ok a => file h = Some a | Err e => isHubMcpStateMissingErr e = true -> file h = None end.
Proof.
  unfold readHubMcpStateFile. destruct (next_read h) as [h1 [u|e]] eqn:E; apply next_read_inv in E as [Hq He]; intros H Hf.
  - rewrite <- (Hf _ _ Hq). destruct (file h1) eqn:Ef; simplify_eq; split; [done..|done|done].
  - simplify_eq. split; [done|]. by rewrite (He e).
Qed.
Lemma load_inv h h' r :
  loadHubTokensLocked h = (h', r) ->
  quiet h h' /\ match r with Ok tbl => h_tokens h = Some tbl | Err e => isHubMcpStateMissingErr e = true -> h_tokens h = None end.
Proof.
  unfold loadHubTokensLocked, bind. destruct (readHubMcpStateFile h_tokens h) as [h1 r1] eqn:E.
  apply read_inv in E as [Hq Hr]; [|intros a b Hab; by apply quiet_fields in Hab as (_&->&_)].
  destruct r1 as [tbl|e]; [|by intros [= <- <-]]. destruct (forallb _ _); intros [= <- <-]; (split; [done|]); [done|].
  by intros.
Qed.
Lemma load_or_empty_inv h h' r :
  load_or_empty h = (h', r) -> quiet h h' /\ forall tbl, r = Ok tbl -> tbl = file_table h.
Proof.
  unfold load_or_empty, bind, attempt. destruct (loadHubTokensLocked h) as [h1 r1] eqn:E. apply load_inv in E as [Hq Hr].
  cbn [fst snd]. destruct r1 as [tbl|e].
  - intros [= <- <-]. split; [done|]. intros ? [= <-]. unfold file_table. by rewrite Hr.
  - destruct (isHubMcpStateMissingErr e); intros [= <- <-]; (split; [done|]); [|done]. intros ? [= <-]. unfold file_table. by rewrite Hr.
Qed.
Lemma write_inv tbl h h' r :
  writeHubTokensLocked tbl h = (h', r) -> no_landed (h_io h) ->
  match r with Ok _ => quiet (h <| h_tokens := Some tbl |>) h' | Err _ => quiet h h' end.
Proof.
  unfold writeHubTokensLocked, next_write. intros H Hl. destruct (sc_writes (h_io h)) as [|[|msg|msg] ws] eqn:E; simplify_eq.
  - reflexivity.
  - split; [done| |done]. cbn. rewrite E. by eexists [_].
  - apply quiet_script; [|done]. rewrite E. by eexists [_].
  - exfalso. apply (Hl msg). rewrite E. by left.
Qed.
Lemma generate_inv F h h' r :
  generateHexToken h = (h', r) -> io_ok F (h_io h) -> quiet h h' /\ forall t, r = Ok t -> t ∈ F.
Proof.
  unfold generateHexToken. intros H [Hf _]. destruct (sc_fresh (h_io h)) as [|x rs] eqn:E; simplify_eq.
  - split; [reflexivity|done].
  - split; [apply quiet_script; [done|]; rewrite E; by eexists [_]|].
    intros t ->. apply Hf. by left.
Qed.
Lemma mint_inv F cs tbl ch h h' r :
  mint_missing cs tbl ch h = (h', r) -> io_ok F (h_io h) ->
  quiet h h' /\ forall tbl' ch', r = Ok (tbl', ch') ->
    tbl ⊆ tbl' /\ (forall k t, tbl' !! k = Some t -> tbl !! k = Some t \/ t ∈ F) /\ (ch' = false -> ch = false /\ tbl' = tbl) /\
    forall k, k ∈ cs -> k <> "" -> is_Some (tbl' !! k).
Proof.
  revert tbl ch h. induction cs as [|c cs IH]; intros tbl ch h; cbn [mint_missing].
  { intros [= <- <-] _. split; [reflexivity|]. intros ? ? [= <- <-]. split_and!; auto. set_solver. }
  destruct (_ || _) eqn:E.
  - intros H Hio. destruct (IH _ _ _ H Hio) as [Hq Hr]. split; [done|]. intros tbl' ch' Et. destruct (Hr _ _ Et) as (H1&H2&H3&H4).
    split_and!; [done..|]. intros k [->|?]%elem_of_cons Hk; [|by apply H4]. breflect. destruct E as [?|E]; [done|].
    destruct E as [v Hv]. exists v. by eapply lookup_weaken.
  - unfold bind. destruct (generateHexToken h) as [h1 [fresh|e]] eqn:Eg; intros H Hio; apply (generate_inv F) in Eg as [Hq Hfr]; try done.
    2: { simplify_eq. split; [done|]. by intros. }
    destruct (IH _ _ _ H (quiet_io _ _ _ Hq Hio)) as [Hq2 Hr]. split; [by etrans|]. intros tbl' ch' Et.
    apply orb_false_iff in E as [_ Hc%bool_decide_eq_false%eq_None_not_Some].
    assert (tbl ⊆ <[c := fresh]> tbl) as Hs by (by apply insert_subseteq).
    destruct (Hr _ _ Et) as (H1&H2&H3&H4). split_and!; [by etrans| |by intros [? _]%H3|].
    + intros k t Hk. destruct (H2 k t Hk) as [Ht|?]; [|by right]. destruct (decide (k = c)) as [->|Hne].
      * rewrite lookup_insert_eq in Ht. injection Ht as <-. right. by apply Hfr.
      * left. by rewrite lookup_insert_ne in Ht.
    + intros k [->|?]%elem_of_cons Hk; [|by apply H4]. exists fresh. eapply lookup_weaken; [apply lookup_insert_eq|done].
Qed.
Lemma rotate_inv F keys active tbl ro h h' r :
  rotate_rows keys active tbl ro h = (h', r) -> io_ok F (h_io h) ->
  quiet h h' /\ forall tbl' ro', r = Ok (tbl', ro') ->
    dom tbl' = dom tbl /\ (forall k t, tbl' !! k = Some t -> tbl !! k = Some t \/ t ∈ F) /\
    (ro' = false -> ro = false /\ tbl' = tbl /\ forall k, k ∈ keys -> k ∉ active -> tbl !! k = None) /\
    forall k t, k ∈ keys -> k ∉ active -> tbl' !! k = Some t -> t ∈ F.
Proof.
  revert tbl ro h. induction keys as [|c cs IH]; intros tbl ro h; cbn [rotate_rows].
  { intros [= <- <-] _. split; [reflexivity|]. intros ? ? [= <- <-]. split_and!; [done|auto|intros ->; split_and!; [done..|set_solver]|set_solver]. }
  destruct (_ || _) eqn:E.
  - intros H Hio. destruct (IH _ _ _ H Hio) as [Hq Hr]. split; [done|]. intros tbl' ro' Et. destruct (Hr _ _ Et) as (H1&H2&H3&H4).
    assert (c ∉ active -> tbl !! c = None) as Hc.
    { intros Ha. breflect. destruct E as [E|?]; [|done]. by apply eq_None_not_Some. }
    split_and!; [done..| |].
    + intros (?&?&Hn)%H3. split_and!; [done..|]. intros k [->|?]%elem_of_cons; [done|by apply Hn].
    + intros k t [->|?]%elem_of_cons Ha Ht; [|by eapply H4]. destruct (H2 _ _ Ht) as [Ht'|?]; [|done].
      by rewrite (Hc Ha) in Ht'.
  - unfold bind. destruct (generateHexToken h) as [h1 [fresh|e]] eqn:Eg; intros H Hio; apply (generate_inv F) in Eg as [Hq Hfr]; try done.
    2: { simplify_eq. split; [done|]. by intros. }
    destruct (IH _ _ _ H (quiet_io _ _ _ Hq Hio)) as [Hq2 Hr]. split; [by etrans|]. intros tbl' ro' Et.
    apply orb_false_iff in E as [E1 _]. apply negb_false_iff, bool_decide_eq_true in E1.
    destruct (Hr _ _ Et) as (H1&H2&H3&H4).
    assert (forall k t, <[c := fresh]> tbl !! k = Some t -> (tbl !! k = Some t /\ k <> c) \/ t ∈ F) as Hin.
    { intros k t. destruct (decide (k = c)) as [->|Hne].
      - rewrite lookup_insert_eq. intros [= <-]. right. by apply Hfr.
      - rewrite lookup_insert_ne by done. auto. }
    split_and!.
    + rewrite H1, dom_insert_L. apply elem_of_dom in E1. set_solver.
    + intros k t Hk. destruct (H2 k t Hk) as [[[? ?]|?]%Hin|?]; auto.
    + by intros [? _]%H3.
    + intros k t [->|?]%elem_of_cons Ha Ht; [|by eapply H4]. destruct (H2 _ _ Ht) as [[[_ ?]|?]%Hin|?]; done.
Qed.

(** *** How an operation changes the two tables *)

(** Tokens come from the tables or are fresh; the live table has rows of the
    file only; the rest of the process is as before. *)
Record evolves (F : gset string) (h h' : hub) : Prop := mkEvolves {
  ev_file : forall k t, file_table h' !! k = Some t -> file_table h !! k = Some t \/ t ∈ F;
  ev_live : forall k t, CurrentTokenTable h' !! k = Some t ->
    CurrentTokenTable h !! k = Some t \/ file_table h !! k = Some t \/ t ∈ F;
  ev_dom : dom (CurrentTokenTable h) ⊆ dom (file_table h) -> dom (CurrentTokenTable h') ⊆ dom (file_table h');
  ev_snap : h_resolverSnapshot h' = h_resolverSnapshot h;
  ev_io : io_ok F (h_io h) -> io_ok F (h_io h');
}.
#[export] Instance evolves_refl F : Reflexive (evolves F).
Proof. intros h. split; auto. Qed.
#[export] Instance evolves_trans F : Transitive (evolves F).
Proof.
  intros a b c [A1 A2 A3 A4 A5] [B1 B2 B3 B4 B5]. split; auto; [..|congruence].
  - intros k t [H|?]%B1; auto.
  - intros k t [H|[H|?]]%B2; auto.
Qed.
Lemma quiet_evolves F h h' : quiet h h' -> evolves F h h'.
Proof.
  intros Hq. pose proof (quiet_io F _ _ Hq) as Hio. apply quiet_fields in Hq as (_&Ht&Hl&Hs&_&_).
  split; unfold file_table, CurrentTokenTable; rewrite ?Ht, ?Hl; auto.
Qed.
(** The file and the live table become [tbl], made of rows of the file and
    fresh tokens. *)
Lemma replace_evolves F h h1 h' tbl :
  quiet h h1 -> (forall k t, tbl !! k = Some t -> file_table h !! k = Some t \/ t ∈ F) ->
  quiet (h1 <| h_tokens := Some tbl |>) h' ->
  evolves F h (h' <| h_liveTokenTable := Some tbl |>).
Proof.
  intros Hq Ht Hq'. pose proof (quiet_io F _ _ Hq) as Hio. pose proof (quiet_io F _ _ Hq') as Hio'.
  apply quiet_fields in Hq as (_&Ht1&Hl1&Hs1&_&_). apply quiet_fields in Hq' as (_&Ht2&Hl2&Hs2&_&_). cbn in Ht2, Hl2, Hs2.
  split; unfold file_table, CurrentTokenTable; cbn; rewrite ?Ht2; cbn;
    [auto|intros k t H; destruct (Ht k t H); auto|done|congruence|auto].
Qed.

Lemma ensure_evolves F clients h h' r :
  ensureHubTokensLocked clients h = (h', r) -> io_ok F (h_io h) ->
  evolves F h h' /\
  match r with
  | Ok tbl => file_table h' = tbl /\ CurrentTokenTable h' = tbl /\ file_table h ⊆ tbl /\
      forall k, k ∈ clients -> k <> "" -> is_Some (tbl !! k)
  | Err _ => quiet h h'
  end.
Proof.
  unfold ensureHubTokensLocked. unfold bind at 1. destruct (load_or_empty h) as [h1 r1] eqn:E1.
  apply load_or_empty_inv in E1 as [Q1 R1]. destruct r1 as [tbl|e]; [|intros [= <- <-] _; by split; [apply quiet_evolves|]].
  rewrite (R1 tbl eq_refl). clear tbl R1. unfold bind at 1. destruct (mint_missing _ _ _ h1) as [h2 r2] eqn:E2. intros H Hio.
  pose proof (quiet_io F _ _ Q1 Hio) as Hio1. apply (mint_inv F) in E2 as [Q2 R2]; [|done].
  assert (quiet h h2) as Q by by etrans.
  destruct r2 as [[tbl changed]|e]; [|simplify_eq; by split; [apply quiet_evolves|]].
  destruct (R2 _ _ eq_refl) as (S1&S2&S3&S4). cbv beta iota zeta in H. unfold bind at 1 in H. destruct changed.
  - destruct (writeHubTokensLocked tbl h2) as [h3 r3] eqn:E3. apply write_inv in E3; [|by apply (quiet_io F h)].
    destruct r3 as [u|e]; simplify_eq.
    + unfold bind, publishTokenTable, modify, ret in H. simplify_eq. split; [by eapply replace_evolves|].
      apply quiet_fields in E3 as (_&Ht&_). split; [|done]. unfold file_table. cbn. by rewrite Ht.
    + assert (quiet h h') by by etrans. by split; [apply quiet_evolves|].
  - destruct (S3 eq_refl) as [_ ->]. unfold bind, publishTokenTable, modify, ret in H. simplify_eq.
    apply quiet_fields in Q as (Hg&Ht&Hl&Hs&Ha&Hn). split.
    + split; unfold file_table, CurrentTokenTable; cbn; rewrite ?Ht; auto. intros Hx. by apply (quiet_io F _ _ Q2).
    + split; [|done]. unfold file_table. cbn. by rewrite Ht.
Qed.
Lemma rotate_token_evolves F client h h' r :
  RotateHubToken client h = (h', r) -> io_ok F (h_io h) -> evolves F h h' /\ dom (file_table h) ⊆ dom (file_table h').
Proof.
  assert (forall h1, quiet h h1 -> evolves F h h1 /\ dom (file_table h) ⊆ dom (file_table h1)) as Hq.
  { intros h1 Q. split; [by apply quiet_evolves|]. apply quiet_fields in Q as (_&Ht&_). unfold file_table. by rewrite Ht. }
  unfold RotateHubToken. destruct (client =s ""); [intros [= <- <-] _; by apply Hq|]. unfold bind at 1.
  destruct (load_or_empty h) as [h1 r1] eqn:E1. apply load_or_empty_inv in E1 as [Q1 R1].
  destruct r1 as [tbl|e]; [|intros [= <- <-] _; by apply Hq].
  rewrite (R1 tbl eq_refl). clear tbl R1. unfold bind at 1. destruct (generateHexToken h1) as [h2 r2] eqn:E2. intros H Hio.
  apply (generate_inv F) in E2 as [Q2 R2]; [|by apply (quiet_io F h)]. assert (quiet h h2) as Q by by etrans.
  destruct r2 as [fresh|e]; [|simplify_eq; by apply Hq]. cbv zeta in H. unfold bind at 1 in H.
  destruct (writeHubTokensLocked _ h2) as [h3 r3] eqn:E3. apply write_inv in E3; [|by apply (quiet_io F h)].
  destruct r3 as [u|e]; simplify_eq; [|apply Hq; by etrans].
  unfold bind, publishTokenTable, modify, ret in H. simplify_eq. split.
  - eapply replace_evolves; [done| |done].
    intros k t. destruct (decide (k = client)) as [->|Hne]; [rewrite lookup_insert_eq; intros [= <-]; right; by apply R2|].
    rewrite lookup_insert_ne by done. auto.
  - apply quiet_fields in E3 as (_&Ht&_). unfold file_table. cbn. rewrite Ht. cbn. rewrite dom_insert_L. set_solver.
Qed.
Lemma reload_evolves F h h' r : ReloadHubTokens h = (h', r) -> evolves F h h'.
Proof.
  unfold ReloadHubTokens, bind at 1. destruct (loadHubTokensLocked h) as [h1 r1] eqn:E1. apply load_inv in E1 as [Q R].
  destruct r1 as [tbl|e]; [|intros [= <- <-]; by apply quiet_evolves].
  unfold bind, publishTokenTable, modify, ret. intros [= <- <-]. pose proof (quiet_io F _ _ Q) as Hio.
  apply quiet_fields in Q as (_&Ht&_&Hs&_). split; unfold file_table, CurrentTokenTable; cbn; rewrite ?Ht, ?R; cbn; auto.
Qed.
Lemma prune_lookup ks tbl k t : prune ks tbl !! k = Some t -> tbl !! k = Some t.
Proof.
  unfold prune. revert tbl. induction ks as [|c ks IH]; intros tbl; [done|]. cbn. intros [_ H]%IH%lookup_delete_Some. done.
Qed.
Lemma prune_evolves F ks h h' r : pruneHubTokensLocked ks h = (h', r) -> io_ok F (h_io h) -> evolves F h h'.
Proof.
  unfold pruneHubTokensLocked, bind at 1, attempt. destruct (loadHubTokensLocked h) as [h1 r1] eqn:E1.
  apply load_inv in E1 as [Q R]. cbn [fst snd]. intros H Hio. destruct r1 as [tbl|e].
  2: { destruct (isHubMcpStateMissingErr e); injection H as <- <-; by apply quiet_evolves. }
  destruct (existsb _ _); [|injection H as <- <-; by apply quiet_evolves]. unfold bind in H.
  destruct (writeHubTokensLocked _ h1) as [h2 r2] eqn:E2. apply write_inv in E2; [|by apply (quiet_io F h)].
  destruct r2 as [u|e]; [|simplify_eq; apply quiet_evolves; by etrans].
  unfold publishTokenTable, modify in H. simplify_eq. eapply replace_evolves; [done| |done].
  intros k t Hk%prune_lookup. left. unfold file_table. by rewrite R.
Qed.

Lemma load_groups_inv h h' r : loadGroupsLocked h = (h', r) -> quiet h h'.
Proof.
  unfold loadGroupsLocked, bind, attempt. destruct (readHubMcpStateFile h_groups h) as [h1 r1] eqn:E1.
  apply read_inv in E1 as [Q _]; [|intros a b Hab; by apply quiet_fields in Hab as (->&_)]. cbn [fst snd].
  destruct r1 as [doc|e]; [destruct (parseGroupsConfig doc)|destruct (isHubMcpStateMissingErr e)]; by intros [= <- <-].
Qed.
Lemma write_groups_evolves F cfg h h' r : writeGroupsLocked cfg h = (h', r) -> evolves F h h'.
Proof.
  unfold writeGroupsLocked. cbn zeta. destruct (negb _); [by intros [= <- <-]|]. destruct (checkGroupNamesUnique _) as [[i e]|]; [by intros [= <- <-]|].
  unfold next_write. intros H. assert (forall h f, evolves F h (h <| h_groups := f |>)) as Hg by (split; cbn; auto).
  destruct (sc_writes (h_io h)) as [|w ws] eqn:E; [injection H as <- <-; apply Hg|].
  assert (quiet h (h <| h_io := mkScript (sc_reads (h_io h)) (sc_fresh (h_io h)) ws |>)) as Q.
  { apply quiet_script; [rewrite E; by eexists [_]|done]. }
  apply (quiet_evolves F) in Q. destruct w; injection H as <- <-; try done; (etrans; [exact Q|apply Hg]).
Qed.
Lemma modify_groups_evolves F mutate h h' r : ReadModifyWriteGroups mutate h = (h', r) -> io_ok F (h_io h) -> evolves F h h'.
Proof.
  unfold ReadModifyWriteGroups, bind at 1. destruct (loadGroupsLocked h) as [h1 r1] eqn:E1. apply load_groups_inv in E1 as Q1.
  apply (quiet_evolves F) in Q1. destruct r1 as [cfg|e]; [|by intros [= <- <-]].
  destruct (mutate cfg) as [[cfg' deleted]|e]; [|by intros [= <- <-]].
  unfold bind at 1. destruct (writeGroupsLocked cfg' h1) as [h2 r2] eqn:E2. apply (write_groups_evolves F) in E2.
  assert (evolves F h h2) as Q2 by by etrans. destruct r2 as [u|e]; [|by intros [= <- <-]].
  cbv zeta. case_bool_decide as Hk; [by intros [= <- <-]|]. unfold bind, attempt.
  destruct (pruneHubTokensLocked _ h2) as [h3 r3] eqn:E3. intros H Hio. apply (prune_evolves F) in E3; [|by apply Q2].
  assert (evolves F h h3) as Q3 by by etrans. cbn [fst snd] in H. by destruct r3; injection H as <- <-.
Qed.

(** *** Rows of groups that come back *)
Lemma rotate_reused_spec F keys active known cold h h' r :
  rotateReusedGroupTokensLocked keys active known cold h = (h', r) -> io_ok F (h_io h) ->
  dom (CurrentTokenTable h) ⊆ dom (file_table h) -> (known = false -> active = ∅) ->
  evolves F h h' /\ forall b, r = Ok b -> cold = false ->
    forall k t, k ∈ keys -> k ∉ active -> file_table h' !! k = Some t \/ CurrentTokenTable h' !! k = Some t -> t ∈ F.
Proof.
  intros H Hio Hdom Ha. unfold rotateReusedGroupTokensLocked in H. case_bool_decide as Hk; cbn [orb] in H.
  { injection H as <- <-. split; [done|]. rewrite Hk. set_solver. }
  destruct cold; [injection H as <- <-; by split|]. unfold bind at 1, attempt in H.
  destruct (loadHubTokensLocked h) as [h1 r1] eqn:E1. apply load_inv in E1 as [Q R]. cbn [fst snd] in H.
  pose proof (quiet_evolves F _ _ Q) as Ev.
  assert (forall k, file_table h !! k = None -> forall t, file_table h1 !! k = Some t \/ CurrentTokenTable h1 !! k = Some t -> t ∈ F) as Hnone.
  { intros k Hf t. pose proof (quiet_fields _ _ Q) as (_&Ht&Hl&_). unfold file_table, CurrentTokenTable in *. rewrite Ht, Hl.
    intros [Hx|Hx]; [congruence|]. exfalso. assert (k ∈ dom (default ∅ (h_tokens h))) as Hin by (apply Hdom, elem_of_dom; eauto).
    apply elem_of_dom in Hin as [v Hv]. congruence. }
  destruct r1 as [tbl|e].
  2: { destruct (isHubMcpStateMissingErr e); injection H as <- <-; split; try done. intros b _ _ k t _ _. apply Hnone.
       unfold file_table. rewrite R; done. }
  assert (file_table h = tbl) as Htbl by (unfold file_table; by rewrite R).
  destruct known; cbn [negb] in H.
  2: { destruct (existsb _ _) eqn:Hex; injection H as <- <-; split; try done. intros b _ _ k t Hin _. apply Hnone. rewrite Htbl.
       destruct (tbl !! k) as [v|] eqn:Ev'; [|done]. assert (existsb (fun k => bool_decide (is_Some (tbl !! k))) keys = true); [|congruence].
       apply existsb_exists. exists k. split; [by apply list_elem_of_In|]. apply bool_decide_eq_true. by rewrite Ev'. }
  unfold bind at 1 in H. destruct (rotate_rows keys active tbl false h1) as [h2 r2] eqn:E2.
  apply (rotate_inv F) in E2 as [Q2 R2]; [|by apply Ev]. assert (quiet h h2) as Q12 by by etrans.
  destruct r2 as [[tbl' rotated]|e]; [|injection H as <- <-; split; [by apply quiet_evolves|done]].
  destruct (R2 _ _ eq_refl) as (_&S2&S3&S4). cbv beta iota zeta in H. destruct rotated; cbn [negb] in H.
  - unfold bind at 1 in H. destruct (writeHubTokensLocked tbl' h2) as [h3 r3] eqn:E3. apply write_inv in E3; [|by apply (quiet_io F h)].
    destruct r3 as [u|e]; [|injection H as <- <-; split; [apply quiet_evolves; by etrans|done]].
    unfold bind, publishTokenTable, modify, ret in H. injection H as <- <-. split.
    + eapply replace_evolves; [done| |done]. intros k t Hkt. rewrite Htbl. auto.
    + intros b _ _ k t Hin Hna. apply quiet_fields in E3 as (_&Ht&_). unfold file_table, CurrentTokenTable. cbn. rewrite Ht. cbn.
      intros [Hx|Hx]; by eapply S4.
  - destruct (S3 eq_refl) as (_&_&S5). injection H as <- <-. split; [by apply quiet_evolves|]. intros b _ _ k t Hin Hna Hx.
    apply (Hnone k); [rewrite Htbl; by apply S5|]. apply quiet_fields in Q2 as (_&Ht&Hl&_).
    unfold file_table, CurrentTokenTable in *. by rewrite Ht, Hl in Hx.
Qed.
Lemma ensure_group_spec F keys active known cold h h' r :
  ensure_group_tokens keys active known cold h = (h', r) -> io_ok F (h_io h) ->
  dom (CurrentTokenTable h) ⊆ dom (file_table h) -> (known = false -> active = ∅) ->
  evolves F h h' /\ forall b, r = Ok b -> cold = false ->
    forall k t, k ∈ keys -> k ∉ active -> file_table h' !! k = Some t \/ CurrentTokenTable h' !! k = Some t -> t ∈ F.
Proof.
  intros H Hio Hdom Ha. unfold ensure_group_tokens in H. case_bool_decide as Hk.
  { injection H as <- <-. split; [done|]. rewrite Hk. set_solver. }
  unfold bind at 1, get in H. destruct (groupTokensAlreadyPublished h keys active known) eqn:Hp.
  { injection H as <- <-. split; [done|]. intros _ _ _ k t Hin Hna. unfold groupTokensAlreadyPublished in Hp. breflect.
    destruct Hp as [_ Hp]. rewrite forallb_Forall, Forall_forall in Hp. apply Hp in Hin. breflect. by destruct Hin. }
  unfold bind at 1, attempt in H. destruct (rotateReusedGroupTokensLocked keys active known cold h) as [h1 r1] eqn:E1. cbn [fst snd] in H.
  apply (rotate_reused_spec F) in E1 as [V1 S1]; [|done..]. destruct r1 as [b|e].
  2: { unfold bind, modify, throw in H. injection H as <- <-. split; [|done]. etrans; [exact V1|]. by split; cbn; auto. }
  unfold bind, attempt in H. destruct (ensureHubTokensLocked keys h1) as [h2 r2] eqn:E2. cbn [fst snd] in H. injection H as <- <-.
  apply (ensure_evolves F) in E2 as [V2 _]; [|by apply V1]. split; [by etrans|]. intros _ _ Hc k t Hin Hna Hx.
  specialize (S1 b eq_refl Hc k). destruct Hx as [[Hx|?]%V2|[Hx|[Hx|?]]%V2]; eauto.
Qed.

Lemma groups_of_snapshot gen ms gs k :
  k ∈ rs_Groups (BuildResolverSnapshotFromManifestsAndGroups gen ms gs) <-> k ∈ GroupScopeKeys gs.
Proof.
  pose proof (build_declared gen ms gs) as Hd. injection Hd as _ Hg _. rewrite Hg, declare_groups.
  unfold GroupScopeKeys. rewrite sort_strings_perm, list_elem_of_fmap. setoid_rewrite list_elem_of_filter.
  unfold name_valid. setoid_rewrite bool_decide_eq_true. cbn. set_solver.
Qed.

(** A publication: the tables evolve, and the keys it brings in have fresh
    tokens, if they have any. *)
Lemma publish_spec F scan h h' r :
  PublishGroupsSnapshotLocked scan h = (h', r) -> io_ok F (h_io h) -> dom (CurrentTokenTable h) ⊆ dom (file_table h) ->
  exists h1, evolves F h h1 /\ h_tokens h' = h_tokens h1 /\ h_liveTokenTable h' = h_liveTokenTable h1 /\
    (h_resolverSnapshot h' = h_resolverSnapshot h \/
     exists snap, h_resolverSnapshot h' = Some snap /\ forall k t, h_resolverSnapshot h <> None \/ h_activeSet h <> resolverGroupActiveSetCold ->
       k ∈ rs_Groups snap -> k ∉ published_groups h -> file_table h' !! k = Some t \/ CurrentTokenTable h' !! k = Some t -> t ∈ F).
Proof.
  unfold PublishGroupsSnapshotLocked. destruct scan as [ms|e].
  2: { intros [= <- <-] _ _. exists h. split_and!; [done..|by left]. }
  unfold bind at 1, attempt. destruct (loadGroupsLocked h) as [h1 r1] eqn:E1. apply load_groups_inv in E1 as Q1. cbn [fst snd].
  pose proof (quiet_evolves F _ _ Q1) as V1. intros H Hio Hdom. destruct r1 as [cfg|e].
  2: { injection H as <- <-. exists h1. split_and!; [done..|]. left. by apply V1. }
  unfold bind at 1, get in H. cbn [fst snd] in H. unfold bind at 1 in H. destruct (ensure_group_tokens _ _ _ _ h1) as [h2 r2] eqn:E2.
  pose proof (quiet_fields _ _ Q1) as (_&_&_&Hs1&Ha1&_). rewrite Hs1, Ha1 in E2.
  apply (ensure_group_spec F) in E2 as [V2 S2]; [|by apply V1|by apply V1|intros ->; done].
  assert (evolves F h h2) as V by by etrans. exists h2. destruct r2 as [te|e].
  2: { injection H as <- <-. split_and!; [done..|]. left. by apply V. }
  unfold bind, modify in H. assert (h' = PublishResolverSnapshot ms (gc_Groups cfg) resolverGroupActiveSetKnownGood h2) as ->
    by (by destruct te; injection H as <- <-). clear H. unfold file_table, CurrentTokenTable in *. cbn. split_and!; [done..|]. right.
  eexists. split; [reflexivity|]. intros k t Hc Hin Hna. apply groups_of_snapshot in Hin. apply (S2 te eq_refl); [|done|].
  - apply andb_false_iff. destruct Hc; [left|right]; by apply bool_decide_eq_false.
  - unfold published_groups in Hna. destruct (h_resolverSnapshot h); cbn [negb bool_decide andb]; case_match; (done || set_solver).
Qed.

(** *** No token comes back *)
Record life_ok (l : life) : Prop := mkLifeOk {
  lo_dom : dom (CurrentTokenTable (l_hub l)) ⊆ dom (file_table (l_hub l));
  lo_file : forall k t, file_table (l_hub l) !! k = Some t -> t ∈ l_issued l;
  lo_live : forall k t, CurrentTokenTable (l_hub l) !! k = Some t -> t ∈ l_issued l;
  lo_retired : forall k, l_retired l k ⊆ l_issued l;
  lo_unpublished : h_resolverSnapshot (l_hub l) = None -> forall k, l_retired l k = ∅;
  lo_routed : forall k t, k ∈ published_groups (l_hub l) ->
    file_table (l_hub l) !! k = Some t \/ CurrentTokenTable (l_hub l) !! k = Some t -> t ∉ l_retired l k;
}.

(** What a step does to the snapshot: nothing, or a publication whose new
    keys have fresh tokens, if any. *)
Definition publishes (F : gset string) (h h' : hub) : Prop :=
  h_resolverSnapshot h' = h_resolverSnapshot h \/
  exists snap, h_resolverSnapshot h' = Some snap /\ forall k t, h_resolverSnapshot h <> None \/ h_activeSet h <> resolverGroupActiveSetCold ->
    k ∈ rs_Groups snap -> k ∉ published_groups h -> file_table h' !! k = Some t \/ CurrentTokenTable h' !! k = Some t -> t ∈ F.
Lemma op_spec F op h :
  io_ok F (h_io h) -> dom (CurrentTokenTable h) ⊆ dom (file_table h) ->
  exists h1, evolves F h h1 /\ h_tokens (run_op op h) = h_tokens h1 /\ h_liveTokenTable (run_op op h) = h_liveTokenTable h1 /\
    publishes F h (run_op op h).
Proof.
  intros Hio Hdom. assert (forall h', evolves F h h' -> exists h1, evolves F h h1 /\ h_tokens h' = h_tokens h1 /\
    h_liveTokenTable h' = h_liveTokenTable h1 /\ publishes F h h') as Hev.
  { intros h' V. exists h'. split_and!; [done..|]. left. by apply V. }
  destruct op as [mutate|scan|clients|client| |ms|client]; cbn [run_op].
  - apply Hev. destruct (ReadModifyWriteGroups mutate h) eqn:E. by eapply modify_groups_evolves.
  - destruct (PublishGroupsSnapshotLocked scan h) eqn:E. by apply (publish_spec F) in E.
  - apply Hev. destruct (EnsureHubTokens clients h) eqn:E. by apply (ensure_evolves F) in E as [? _].
  - apply Hev. destruct (RotateHubToken client h) eqn:E. by apply (rotate_token_evolves F) in E as [? _].
  - apply Hev. destruct (ReloadHubTokens h) eqn:E. by eapply reload_evolves.
  - exists h. cbn. split_and!; [done..|]. right. eexists. split; [reflexivity|]. intros k t _ Hin%groups_of_snapshot.
    by apply elem_of_nil in Hin.
  - apply Hev. destruct (RotateHubToken client h) as [h' r] eqn:E. apply (rotate_token_evolves F) in E as [[V1 _ _ V4 V5] Hd]; [|done].
    cbn [fst]. split; [exact V1|auto|intros _; by etrans|exact V4|exact V5].
Qed.
Lemma fresh_tokens_spec s t : t ∈ fresh_tokens s <-> Ok t ∈ sc_fresh s.
Proof.
  unfold fresh_tokens. rewrite elem_of_list_to_set, list_elem_of_omap. split.
  - by intros ([]&?&[= ->]).
  - intros. by exists (Ok t).
Qed.

Lemma live_step_ok op s l : life_ok l -> fresh_tokens s ## l_issued l -> no_landed s -> life_ok (live_step op s l).
Proof.
  intros [L1 L2 L3 L4 L5 L6] Hf Hl. set (F := fresh_tokens s) in *. set (h := l_hub l <| h_io := s |>).
  destruct (op_spec F op h) as (h1&[V1 V2 V3 V4 _]&Ht&Hv&Hp); [|exact L1|].
  { split; [|done]. intros t Ht. by apply fresh_tokens_spec. }
  change (file_table h) with (file_table (l_hub l)) in *. change (CurrentTokenTable h) with (CurrentTokenTable (l_hub l)) in *.
  assert (file_table (run_op op h) = file_table h1) as Eft by (unfold file_table; by rewrite Ht).
  assert (CurrentTokenTable (run_op op h) = CurrentTokenTable h1) as Ect by (unfold CurrentTokenTable; by rewrite Hv).
  assert (forall k t, file_table (run_op op h) !! k = Some t \/ CurrentTokenTable (run_op op h) !! k = Some t ->
    (file_table (l_hub l) !! k = Some t \/ CurrentTokenTable (l_hub l) !! k = Some t) \/ t ∈ F) as Hold.
  { intros k t. rewrite Eft, Ect. intros [[?|?]%V1|[?|[?|?]]%V2]; auto. }
  assert (forall k t, file_table (run_op op h) !! k = Some t \/ CurrentTokenTable (run_op op h) !! k = Some t ->
    t ∈ F ∪ l_issued l) as Hiss.
  { intros k t [[?%L2|?%L3]|?]%Hold; apply elem_of_union; auto. }
  split; cbn [l_hub l_issued l_retired live_step]; fold F h.
  - rewrite Eft, Ect. by apply V3.
  - intros k t ?. apply (Hiss k). by left.
  - intros k t ?. apply (Hiss k). by right.
  - intros k. destruct (h_resolverSnapshot (run_op op h)) as [snap|]; [case_bool_decide|]; specialize (L4 k); set_solver.
  - intros Hn k. rewrite Hn. apply L5. destruct Hp as [Hp|(snap&Hp&_)]; rewrite Hp in Hn; done.
  - intros k t Hin Hx. unfold published_groups in Hin. destruct (h_resolverSnapshot (run_op op h)) as [snap|] eqn:Es; [|set_solver].
    rewrite bool_decide_eq_true_2 by done. destruct (Hold k t Hx) as [Hx'|Hfr].
    2: { intros Hr. apply L4 in Hr. set_solver. }
    destruct (decide (k ∈ published_groups (l_hub l))) as [Hk|Hk]; [by apply L6|].
    destruct Hp as [Hp|(snap'&Hp&Hnew)].
    { exfalso. apply Hk. unfold published_groups. change (h_resolverSnapshot h) with (h_resolverSnapshot (l_hub l)) in Hp.
      by rewrite <- Hp, Es. }
    rewrite Hp in Es. injection Es as ->. destruct (decide (h_resolverSnapshot (l_hub l) = None)) as [Hn|Hn].
    + rewrite (L5 Hn). set_solver.
    + assert (t ∈ F) as Hfr by (by apply (Hnew k t); [left| | |]). intros Hr. apply L4 in Hr. set_solver.
Qed.
Lemma reached_ok groups tokens l : reached groups tokens l -> life_ok l.
Proof.
  induction 1; [|by apply live_step_ok]. split; cbn; try done.
  intros k t Hk. unfold file_table in Hk. cbn in Hk. apply elem_of_list_to_set, list_elem_of_fmap. exists (k, t).
  split; [done|]. by apply elem_of_map_to_list.
Qed.

(** C20: no token of a group comes back.  In the life of a hub process, through
    any sequence of edits, publications, rotations and reloads of which reads
    and writes fail, a token that was issued before a moment at which the
    group was not routed opens no later group of that name: a re-created
    group never inherits the secret of the deleted one.  Three things are
    assumed: a write of the token file that fails has not replaced it, fresh
    random tokens have never been issued before, and each operation runs
    alone.  The first and the last are needed, as [landed_prune_revives_token]
    and [reload_race_revives_token] show. *)
Theorem no_token_revival groups tokens l name headerToken :
  reached groups tokens l -> headerToken ∈ l_retired l (GroupScopeKey name) ->
  group_request_accepted (l_hub l) name headerToken = false.
Proof.
  intros Hr Ht. apply reached_ok in Hr as [_ _ _ _ _ L6]. unfold group_request_accepted, isKnownGroup, ConstantTimeCompareToken.
  destruct (validateGroupName name); [done|]. destruct (h_resolverSnapshot (l_hub l)) as [snap|] eqn:Es; [|done].
  case_bool_decide as Hk; [|done]. cbn [andb]. destruct (Nat.eqb _ 64); [|done]. cbn [andb].
  destruct (CurrentTokenTable (l_hub l) !! GroupScopeKey name) as [t|] eqn:Ec; [|done]. destruct (Nat.eqb _ 64); [|done].
  destruct (String.eqb_spec t headerToken) as [->|]; [|done]. exfalso.
  apply (L6 (GroupScopeKey name) headerToken); [unfold published_groups; by rewrite Es|by right|done].
Qed.

(** ** Witnesses *)
Fixpoint repeated (n : nat) (a : ascii) : string := match n with O => "" | S n => String a (repeated n a) end.
Definition token_a : string := repeated 64 "a".
Definition token_b : string := repeated 64 "b".
Definition no_script : script := mkScript [] [] [].
Definition create_ops : hub_op := OpGroups (fun cfg => Ok (mkGroupsConfig (gc_Version cfg) (gc_Groups cfg ++ [mkGroup "ops" ["serena"] ∅]), [])).
Definition delete_ops : hub_op := OpGroups (fun cfg => Ok (mkGroupsConfig (gc_Version cfg) [], ["ops"])).
Definition publish : hub_op := OpPublish (Ok two_manifests).

(** A group is created and published, deleted while its token row cannot be
    pruned, and created again. *)
Definition life_published : life :=
  live_step publish (mkScript [] [Ok token_a] []) (live_step create_ops no_script (started None None)).
Definition life_deleted : life :=
  live_step publish no_script (live_step delete_ops (mkScript [] [] [WriteDone; WriteFailed "disk"]) life_published).
Definition life_recreated : life := live_step create_ops no_script life_deleted.
Definition life_again : life := live_step publish (mkScript [] [Ok token_b] []) life_recreated.

Example row_survives_failed_prune : h_tokens (l_hub life_recreated) = Some {["g:ops" := token_a]}.
Proof. vm_compute. reflexivity. Qed.
Example fresh_after_recreation :
  group_request_accepted (l_hub life_published) "ops" token_a = true /\
  group_request_accepted (l_hub life_deleted) "ops" token_a = false /\
  group_request_accepted (l_hub life_again) "ops" token_b = true.
Proof. vm_compute. done. Qed.

Lemma empty_script_fresh l : fresh_tokens no_script ## l_issued l /\ no_landed no_script.
Proof. split; [set_solver|]. intros msg. apply not_elem_of_nil. Qed.
Lemma life_recreated_reached : reached None None life_recreated.
Proof.
  repeat (apply reached_step; [|vm_compute; set_solver|intros msg; vm_compute; set_solver]). apply reached_start.
Qed.
Lemma life_again_reached : reached None None life_again.
Proof.
  apply reached_step; [apply life_recreated_reached| |intros msg; vm_compute; set_solver].
  apply (bool_decide_unpack _). vm_compute. reflexivity.
Qed.
Lemma no_token_revival_witness : group_request_accepted (l_hub life_again) "ops" token_a = false.
Proof.
  apply (no_token_revival None None life_again "ops" token_a life_again_reached).
  apply (bool_decide_unpack _). vm_compute. reflexivity.
Defined.

(** A reload does not take the lock.  One that has read the file before a
    publication rotates the row, and publishes what it read after it, puts the
    deleted group's token back into the live table. *)
Definition reload_around (op : hub_op) (s : script) (h : hub) : hub :=
  match loadHubTokensLocked h with
  | (h, Ok tbl) => (publishTokenTable tbl (run_op op (h <| h_io := s |>))).1
  | (h, Err _) => run_op op (h <| h_io := s |>)
  end.
Example reload_race_revives_token :
  group_request_accepted (reload_around publish (mkScript [] [Ok token_b] []) (l_hub life_recreated)) "ops" token_a = true.
Proof. vm_compute. reflexivity. Qed.

(** So does a prune that fails after it has replaced the file, when the table
    cannot be read at the next publication: the group is routed all the same. *)
Example landed_prune_revives_token :
  group_request_accepted (run_op publish
    (run_op create_ops (run_op publish (run_op delete_ops (l_hub life_published <| h_io := mkScript [] [] [WriteDone; WriteLanded "sync"] |>)
      <| h_io := no_script |>) <| h_io := no_script |>) <| h_io := mkScript [None; None; Some "busy"] [] [] |>)) "ops" token_a = true.
Proof. vm_compute. reflexivity. Qed.
