(* ===== verification/Sessions.v ===== *)
(** * Sessions: the hub's table of client sessions.

    [api/hub_mcp_session.go] and [api/daemon_restart_watcher.go]: sessions
    are objects shared by pointer, found by id in a store with caps per
    client and over all, an LRU list and an idle sweep.  The store's
    operations run under its lock, but the calls of a session come and go
    under the session's own; where the code takes that lock, other
    goroutines may have run, and the operations here take what they did as an
    argument. *)
From S2P Require Import Prelude GoTime RequestId Resolver.
Open Scope Z_scope.

(** ** A session *)
Record inflightEntry := mkInflight {
  if_DaemonRef : canonicalDaemonRef; if_DaemonSessionID : string; if_DaemonProtocol : string;
  if_DaemonRequestID : string; if_StartedAt : time;
}.
Record DaemonFailure := mkDaemonFailure { df_Server : string; df_Daemon : string; df_Stage : string; df_Err : string }.
Record hubSession := mkSession {
  hs_ClientSessionID : string; hs_ScopeKey : string; hs_InstanceID : string; hs_ProtocolVersion : string;
  hs_SnapshotAtInit : option ResolverSnapshot; hs_IntendedParticipants : list canonicalDaemonRef;
  hs_InitSuccesses : gmap canonicalDaemonRef string; hs_DaemonProtoVer : gmap canonicalDaemonRef string;
  hs_InitSuccessGen : gmap canonicalDaemonRef Z; hs_InitFailures : list DaemonFailure;
  hs_RouteMap : option (gmap string canonicalToolRef);
  hs_InFlightRequests : gmap string inflightEntry; hs_inFlightCount : Z;
  hs_InitAt : time; hs_LastUsedAt : time; hs_deleteStarted : bool;
  hs_staleDaemonPorts : gmap Z Z;
}.
Definition session_eta (s : hubSession) : hubSession :=
  mkSession (hs_ClientSessionID s) (hs_ScopeKey s) (hs_InstanceID s) (hs_ProtocolVersion s) (hs_SnapshotAtInit s)
    (hs_IntendedParticipants s) (hs_InitSuccesses s) (hs_DaemonProtoVer s) (hs_InitSuccessGen s) (hs_InitFailures s)
    (hs_RouteMap s) (hs_InFlightRequests s) (hs_inFlightCount s) (hs_InitAt s) (hs_LastUsedAt s) (hs_deleteStarted s)
    (hs_staleDaemonPorts s).
#[export] Instance set_hs_InitSuccesses : Setter hs_InitSuccesses := ltac:(derive_setter session_eta hs_InitSuccesses).
#[export] Instance set_hs_DaemonProtoVer : Setter hs_DaemonProtoVer := ltac:(derive_setter session_eta hs_DaemonProtoVer).
#[export] Instance set_hs_InitSuccessGen : Setter hs_InitSuccessGen := ltac:(derive_setter session_eta hs_InitSuccessGen).
#[export] Instance set_hs_InFlightRequests : Setter hs_InFlightRequests := ltac:(derive_setter session_eta hs_InFlightRequests).
#[export] Instance set_hs_inFlightCount : Setter hs_inFlightCount := ltac:(derive_setter session_eta hs_inFlightCount).
#[export] Instance set_hs_LastUsedAt : Setter hs_LastUsedAt := ltac:(derive_setter session_eta hs_LastUsedAt).
#[export] Instance set_hs_deleteStarted : Setter hs_deleteStarted := ltac:(derive_setter session_eta hs_deleteStarted).
#[export] Instance set_hs_staleDaemonPorts : Setter hs_staleDaemonPorts := ltac:(derive_setter session_eta hs_staleDaemonPorts).

Definition InsertInFlight (key : string) (entry : inflightEntry) (s : hubSession) : hubSession * bool :=
  match hs_InFlightRequests s !! key with
  | Some _ => (s, false)
  | None => (s <| hs_inFlightCount ::= fun n => n + 1 |> <| hs_InFlightRequests ::= insert key entry |>, true)
  end.
Definition LookupInFlight (key : string) (s : hubSession) : option inflightEntry := hs_InFlightRequests s !! key.
Definition RemoveInFlight (key : string) (s : hubSession) : hubSession :=
  match hs_InFlightRequests s !! key with
  | Some _ => s <| hs_InFlightRequests ::= delete key |> <| hs_inFlightCount ::= fun n => n - 1 |>
  | None => s
  end.
Definition InFlightCount (s : hubSession) : Z := hs_inFlightCount s.

Definition tracksDaemonPort (port : Z) (s : hubSession) : bool :=
  negb (port =? 0) &&
  (match hs_RouteMap s with
   | Some routes => existsb (fun row => tr_Port row.2 =? port) (map_to_list routes)
   | None => false
   end ||
   existsb (fun row => cr_Port row.1 =? port) (map_to_list (hs_InitSuccesses s)) ||
   match hs_SnapshotAtInit s with
   | Some snap => existsb (fun ref => cr_Port ref =? port) (bindings snap (hs_ScopeKey s))
   | None => false
   end).
(** The restart generation of a port, a uint64, if it ever was marked. *)
Definition stalePortStateFor (port : Z) (s : hubSession) : option Z := hs_staleDaemonPorts s !! port.
Definition markStalePort (port : Z) (s : hubSession) : hubSession * bool :=
  if negb (tracksDaemonPort port s) then (s, false)
  else (s <| hs_staleDaemonPorts ::= fun m => <[port := u64_add (default 0 (m !! port)) 1]> m |>, true).
Definition markDeleteStarted (s : hubSession) : hubSession := s <| hs_deleteStarted := true |>.
Record daemonInitState := mkInitState { is_SessionID : string; is_ProtocolVersion : string }.
(** The protocol version of a daemon, or the session's if it gave none. *)
Definition proto_of (s : hubSession) (ref : canonicalDaemonRef) : string :=
  let proto := default "" (hs_DaemonProtoVer s !! ref) in
  if proto =s "" then hs_ProtocolVersion s else proto.
Definition init_states (s : hubSession) : gmap canonicalDaemonRef daemonInitState :=
  map_imap (fun ref sid => Some (mkInitState sid (proto_of s ref))) (hs_InitSuccesses s).
Definition markDeleteStartedAndSnapshotDaemonSessions (s : hubSession) : hubSession * gmap canonicalDaemonRef daemonInitState :=
  (markDeleteStarted s, init_states s).

(** ** The store *)
Record SessionStoreOpts := mkOpts { so_MaxPerClient : Z; so_MaxGlobal : Z; so_IdleTimeout : duration; so_SweepInterval : duration }.
Definition defaultMaxSessionsPerClient : Z := 16.
Definition defaultMaxSessionsGlobal : Z := 256.
Definition defaultSessionIdleTimeout : duration := 30 * Minute.
Definition defaultSessionSweepInterval : duration := 60 * Second.
Definition with_defaults (o : SessionStoreOpts) : SessionStoreOpts :=
  mkOpts (if so_MaxPerClient o <=? 0 then defaultMaxSessionsPerClient else so_MaxPerClient o)
         (if so_MaxGlobal o <=? 0 then defaultMaxSessionsGlobal else so_MaxGlobal o)
         (if so_IdleTimeout o <=? 0 then defaultSessionIdleTimeout else so_IdleTimeout o)
         (if so_SweepInterval o <=? 0 then defaultSessionSweepInterval else so_SweepInterval o).

(** Sessions live at locations of a heap; a list element is a number with
    its value, the front of the list first. *)
Record HubSessionStore := mkStore {
  st_opts : SessionStoreOpts;
  st_heap : gmap nat hubSession;
  st_next : nat;
  st_sessions : gmap string nat;
  st_perClient : gmap string Z;
  st_lru : list (nat * string);
  st_lruIndex : gmap string nat;
}.
Definition store_eta (s : HubSessionStore) : HubSessionStore :=
  mkStore (st_opts s) (st_heap s) (st_next s) (st_sessions s) (st_perClient s) (st_lru s) (st_lruIndex s).
#[export] Instance set_st_heap : Setter st_heap := ltac:(derive_setter store_eta st_heap).
#[export] Instance set_st_next : Setter st_next := ltac:(derive_setter store_eta st_next).
#[export] Instance set_st_sessions : Setter st_sessions := ltac:(derive_setter store_eta st_sessions).
#[export] Instance set_st_perClient : Setter st_perClient := ltac:(derive_setter store_eta st_perClient).
#[export] Instance set_st_lru : Setter st_lru := ltac:(derive_setter store_eta st_lru).
#[export] Instance set_st_lruIndex : Setter st_lruIndex := ltac:(derive_setter store_eta st_lruIndex).
Definition NewHubSessionStore (opts : SessionStoreOpts) : HubSessionStore := mkStore (with_defaults opts) ∅ 0 ∅ ∅ [] ∅.

(** What other goroutines do to a session meanwhile. *)
Inductive session_act :=
| ActInsert (key : string) (entry : inflightEntry)
| ActRemove (key : string)
| ActMarkStale (port : Z).
Definition act_on (a : session_act) (s : hubSession) : hubSession :=
  match a with
  | ActInsert key entry => (InsertInFlight key entry s).1
  | ActRemove key => RemoveInFlight key s
  | ActMarkStale port => (markStalePort port s).1
  end.
Notation acts := (list (nat * session_act)).
Definition meanwhile (l : acts) (st : HubSessionStore) : HubSessionStore :=
  foldl (fun st a => st <| st_heap ::= alter (act_on a.2) a.1 |>) st l.

(** ** Operations *)
Definition Get (id : string) (st : HubSessionStore) : option nat := st_sessions st !! id.
(** [lru.MoveToFront] and [lru.Remove] of an element *)
Definition MoveToFront (el : nat) (lru : list (nat * string)) : list (nat * string) :=
  match list_find (fun x => x.1 = el) lru with
  | Some (_, x) => x :: filter (fun y => y.1 <> el) lru
  | None => lru
  end.
Definition lru_Remove (el : nat) (lru : list (nat * string)) : list (nat * string) := filter (fun y => y.1 <> el) lru.

Definition GetAndTouch (id : string) (now : time) (st : HubSessionStore) : HubSessionStore * option nat :=
  match st_sessions st !! id with
  | None => (st, None)
  | Some loc =>
      let st := st <| st_heap ::= alter (fun s => s <| hs_LastUsedAt := now |>) loc |> in
      let st := match st_lruIndex st !! id with Some el => st <| st_lru ::= MoveToFront el |> | None => st end in
      (st, Some loc)
  end.
Definition Touch (id : string) (now : time) (st : HubSessionStore) : HubSessionStore * bool :=
  match st_sessions st !! id with
  | None => (st, false)
  | Some loc =>
      let st := st <| st_heap ::= alter (fun s => s <| hs_LastUsedAt := now |>) loc |> in
      let st := match st_lruIndex st !! id with Some el => st <| st_lru ::= MoveToFront el |> | None => st end in
      (st, true)
  end.

Definition release_client (client : string) (m : gmap string Z) : gmap string Z :=
  let n := default 0 (m !! client) - 1 in
  if n <=? 0 then delete client m else <[client := n]> m.
Definition deleteLocked (id : string) (st : HubSessionStore) : HubSessionStore * bool :=
  match st_sessions st !! id with
  | None => (st, false)
  | Some loc =>
      let scope := match st_heap st !! loc with Some sess => hs_ScopeKey sess | None => "" end in
      let st := st <| st_heap ::= alter markDeleteStarted loc |>
                   <| st_sessions ::= delete id |>
                   <| st_perClient ::= release_client scope |> in
      let st := match st_lruIndex st !! id with
                | Some el => st <| st_lru ::= lru_Remove el |> <| st_lruIndex ::= delete id |>
                | None => st
                end in
      (st, true)
  end.
Definition Delete (id : string) (st : HubSessionStore) : HubSessionStore * bool := deleteLocked id st.
Definition busy (st : HubSessionStore) (loc : nat) : bool :=
  match st_heap st !! loc with Some sess => negb (InFlightCount sess =? 0) | None => false end.

(** [evictIdleLRULocked]: from the tail of the list on; before a session is
    checked, under its lock, [races] have run. *)
Fixpoint evict_from (elems : list (nat * string)) (races : list acts) (st : HubSessionStore) : HubSessionStore * bool :=
  match elems with
  | [] => (st, false)
  | (_, id) :: rest =>
      match st_sessions st !! id with
      | None => evict_from rest races st
      | Some loc =>
          let st := meanwhile (default [] (head races)) st in
          if negb (busy st loc) then ((deleteLocked id st).1, true) else evict_from rest (tail races) st
      end
  end.
Definition evictIdleLRULocked (races : list acts) (st : HubSessionStore) : HubSessionStore * bool :=
  evict_from (rev (st_lru st)) races st.

Definition ErrSessionCapExceeded : error := sentinel "ErrSessionCapExceeded" "session cap exceeded".
(** [Create]; the id is what [generateSessionID] returns. *)
Definition Create (client protoVer : string) (snap : option ResolverSnapshot) (id : res string) (now : time) (races : list acts)
    (st : HubSessionStore) : HubSessionStore * res nat :=
  if so_MaxPerClient (st_opts st) <=? default 0 (st_perClient st !! client)
  then (st, Err (wrapf "per-client cap" ErrSessionCapExceeded))
  else
    match id with
    | Err e => (st, Err (wrapf "generate session id" e))
    | Ok id =>
        let '(st, room) :=
          if so_MaxGlobal (st_opts st) <=? Z.of_nat (size (st_sessions st)) then evictIdleLRULocked races st else (st, true) in
        if negb room then (st, Err (wrapf "global cap reached and all sessions in-flight" ErrSessionCapExceeded))
        else
          let loc := st_next st in
          let sess := mkSession id client "" protoVer snap [] ∅ ∅ ∅ [] None ∅ 0 now now false ∅ in
          (st <| st_heap ::= insert loc sess |> <| st_next ::= S |>
              <| st_sessions ::= insert id loc |>
              <| st_perClient ::= fun m => <[client := default 0 (m !! client) + 1]> m |>
              <| st_lru ::= cons (loc, id) |> <| st_lruIndex ::= insert id loc |>, Ok loc)
    end.

(** The candidates of a sweep, in the order of the map. *)
Fixpoint sweep_scan (cutoff : time) (rows : list (string * nat)) (races : list acts) (st : HubSessionStore) :
    HubSessionStore * list (string * nat) :=
  match rows with
  | [] => (st, [])
  | (id, loc) :: rest =>
      let st := meanwhile (default [] (head races)) st in
      let '(st', cands) := sweep_scan cutoff rest (tail races) st in
      match st_heap st !! loc with
      | Some sess =>
          if negb (InFlightCount sess =? 0) then (st', cands)
          else if Before (hs_LastUsedAt sess) cutoff then (st', (id, loc) :: cands) else (st', cands)
      | None => (st', cands)
      end
  end.
Fixpoint sweep_delete (cands : list (string * nat)) (races : list acts) (st : HubSessionStore) : HubSessionStore :=
  match cands with
  | [] => st
  | (id, loc) :: rest =>
      let st := meanwhile (default [] (head races)) st in
      sweep_delete rest (tail races) (if negb (busy st loc) then (deleteLocked id st).1 else st)
  end.
Definition sweepOnce (now : time) (races1 races2 : list acts) (st : HubSessionStore) : HubSessionStore :=
  let cutoff := now - so_IdleTimeout (st_opts st) in
  let '(st, cands) := sweep_scan cutoff (map_to_list (st_sessions st)) races1 st in
  sweep_delete cands races2 st.

(** [MarkPortStale]: the locations are copied under the lock, the sessions
    marked after it is released. *)
Fixpoint mark_all (port : Z) (locs : list nat) (races : list acts) (st : HubSessionStore) : HubSessionStore * Z :=
  match locs with
  | [] => (st, 0)
  | loc :: rest =>
      let st := meanwhile (default [] (head races)) st in
      match st_heap st !! loc with
      | None => mark_all port rest (tail races) st
      | Some sess =>
          let '(sess', ok) := markStalePort port sess in
          let '(st, marked) := mark_all port rest (tail races) (st <| st_heap ::= insert loc sess' |>) in
          (st, if (ok : bool) then marked + 1 else marked)
      end
  end.
Definition MarkPortStale (port : Z) (races : list acts) (st : HubSessionStore) : HubSessionStore * Z :=
  mark_all port (map_to_list (st_sessions st)).*2 races st.

(** ** The restart watcher *)
Record DaemonStatus := mkStatus { dst_Port : Z; dst_PID : Z }.
Record DaemonRestartWatcher := mkWatcher { rw_lastPID : gmap Z Z; rw_consecutiveErrors : Z }.
Fixpoint watch_rows (rows : list DaemonStatus) (last : gmap Z Z) (st : HubSessionStore) : gmap Z Z * HubSessionStore :=
  match rows with
  | [] => (last, st)
  | r :: rest =>
      if (dst_Port r =? 0) || (dst_PID r =? 0) then watch_rows rest last st
      else
        let st := match last !! dst_Port r with
                  | Some prev => if negb (prev =? dst_PID r) then (MarkPortStale (dst_Port r) [] st).1 else st
                  | None => st
                  end in
        watch_rows rest (<[dst_Port r := dst_PID r]> last) st
  end.
Definition checkOnce (rows : res (list DaemonStatus)) (w : DaemonRestartWatcher) (st : HubSessionStore) :
    DaemonRestartWatcher * HubSessionStore :=
  match rows with
  | Err _ => (mkWatcher (rw_lastPID w) (rw_consecutiveErrors w + 1), st)
  | Ok rows => let '(last, st) := watch_rows rows (rw_lastPID w) st in (mkWatcher last 0, st)
  end.

(** ** Every sequence of operations *)
Inductive store_op :=
| OpCreate (client protoVer : string) (snap : option ResolverSnapshot) (id : res string) (races : list acts)
| OpTouch (id : string)
| OpGetAndTouch (id : string)
| OpDelete (id : string)
| OpSweep (races1 races2 : list acts)
| OpMeanwhile (l : acts)
| OpMarkPortStale (port : Z) (races : list acts).
Definition run_store (op : store_op) (now : time) (st : HubSessionStore) : HubSessionStore :=
  match op with
  | OpCreate client protoVer snap id races => (Create client protoVer snap id now races st).1
  | OpTouch id => (Touch id now st).1
  | OpGetAndTouch id => (GetAndTouch id now st).1
  | OpDelete id => (Delete id st).1
  | OpSweep races1 races2 => sweepOnce now races1 races2 st
  | OpMeanwhile l => meanwhile l st
  | OpMarkPortStale port races => (MarkPortStale port races st).1
  end.
(** Random ids are new, and the clock does not go back. *)
Inductive store_reached (opts : SessionStoreOpts) : time -> HubSessionStore -> Prop :=
| store_new now : store_reached opts now (NewHubSessionStore opts)
| store_step op t now st :
    store_reached opts t st -> t <= now ->
    (forall client protoVer snap id races, op = OpCreate client protoVer snap (Ok id) races -> st_sessions st !! id = None) ->
    store_reached opts now (run_store op now st).

(** ** The invariant *)

(** The scope of every session in the store. *)
Definition scopes (st : HubSessionStore) : gmap string string := omap (fun loc => hs_ScopeKey <$> st_heap st !! loc) (st_sessions st).
Definition client_sessions (st : HubSessionStore) (client : string) : nat := size (filter (fun row => row.2 = client) (scopes st)).
Definition session_of (st : HubSessionStore) (id : string) : option hubSession := loc ← st_sessions st !! id; st_heap st !! loc.
Definition last_used (st : HubSessionStore) (id : string) : time := match session_of st id with Some s => hs_LastUsedAt s | None => 0 end.

Record store_ok (now : time) (st : HubSessionStore) : Prop := mkStoreOk {
  ok_opts : 0 < so_MaxPerClient (st_opts st) /\ 0 < so_MaxGlobal (st_opts st);
  ok_next : forall loc sess, st_heap st !! loc = Some sess -> (loc < st_next st)%nat;
  ok_sess : forall id loc, st_sessions st !! id = Some loc -> exists sess, st_heap st !! loc = Some sess /\ hs_ClientSessionID sess = id;
  ok_busy : forall loc sess, st_heap st !! loc = Some sess -> hs_inFlightCount sess = Z.of_nat (size (hs_InFlightRequests sess));
  ok_count : forall c, default 0 (st_perClient st !! c) = Z.of_nat (client_sessions st c);
  ok_pos : forall c n, st_perClient st !! c = Some n -> 0 < n;
  ok_client_cap : forall c, Z.of_nat (client_sessions st c) <= so_MaxPerClient (st_opts st);
  ok_global_cap : Z.of_nat (size (st_sessions st)) <= so_MaxGlobal (st_opts st);
  ok_elements : NoDup (st_lru st).*1;
  ok_index : forall id el, st_lruIndex st !! id = Some el <-> (el, id) ∈ st_lru st;
  ok_dom : dom (st_lruIndex st) = dom (st_sessions st);
  ok_el : forall el id, (el, id) ∈ st_lru st -> (el < st_next st)%nat;
  ok_used : forall id, id ∈ dom (st_sessions st) -> last_used st id <= now;
  ok_recent : StronglySorted Z.ge ((fun x => last_used st x.2) <$> st_lru st);
}.

(** *** A change of one session's own state *)
Record same_session (s s' : hubSession) : Prop := mkSameSession {
  same_id : hs_ClientSessionID s' = hs_ClientSessionID s;
  same_scope : hs_ScopeKey s' = hs_ScopeKey s;
  same_used : hs_LastUsedAt s' = hs_LastUsedAt s;
  same_busy : hs_inFlightCount s = Z.of_nat (size (hs_InFlightRequests s)) -> hs_inFlightCount s' = Z.of_nat (size (hs_InFlightRequests s'));
}.
Lemma act_same a s : same_session s (act_on a s).
Proof.
  destruct a as [key entry|key|port]; cbn.
  - unfold InsertInFlight. destruct (hs_InFlightRequests s !! key) eqn:E; [by split|]. split; [done..|]. cbn. intros ->.
    rewrite map_size_insert_None by done. lia.
  - unfold RemoveInFlight. destruct (hs_InFlightRequests s !! key) eqn:E; [|by split]. split; [done..|]. cbn. intros ->.
    rewrite map_size_delete_Some by eauto. assert (size (hs_InFlightRequests s) <> 0%nat); [|lia].
    intros Hz%map_size_empty_inv. by rewrite Hz, lookup_empty in E.
  - unfold markStalePort. destruct (negb _); by split.
Qed.

Lemma scopes_alter f loc st : (forall s, hs_ScopeKey (f s) = hs_ScopeKey s) -> scopes (st <| st_heap ::= alter f loc |>) = scopes st.
Proof.
  intros Hf. unfold scopes. cbn. apply map_eq. intros id. rewrite !lookup_omap. destruct (st_sessions st !! id) as [l|]; [|done].
  cbn. destruct (decide (l = loc)) as [->|Hne].
  - rewrite lookup_alter_eq. destruct (st_heap st !! loc); cbn; [by rewrite Hf|done].
  - by rewrite lookup_alter_ne.
Qed.
Lemma last_used_alter f loc st id : (forall s, hs_LastUsedAt (f s) = hs_LastUsedAt s) -> last_used (st <| st_heap ::= alter f loc |>) id = last_used st id.
Proof.
  intros Hf. unfold last_used, session_of. cbn. destruct (st_sessions st !! id) as [l|]; [|done]. cbn.
  destruct (decide (l = loc)) as [->|Hne]; [rewrite lookup_alter_eq; by destruct (st_heap st !! loc); cbn|by rewrite lookup_alter_ne].
Qed.
Lemma alter_ok f loc now st : (forall s, same_session s (f s)) -> store_ok now st -> store_ok now (st <| st_heap ::= alter f loc |>).
Proof.
  intros Hf [H1 H2 H3 H4 H5 H6 H7 H8 H9 H10 H11 H12 H13 H14].
  assert (forall l s, alter f loc (st_heap st) !! l = Some s -> exists s0, st_heap st !! l = Some s0 /\ (s = s0 \/ s = f s0)) as Hl.
  { intros l s. destruct (decide (l = loc)) as [->|Hne].
    - rewrite lookup_alter_eq. destruct (st_heap st !! loc); cbn; [|done]. intros [= <-]. eauto.
    - rewrite lookup_alter_ne by done. eauto. }
  assert (forall c, client_sessions (st <| st_heap ::= alter f loc |>) c = client_sessions st c) as Hc.
  { intros c. unfold client_sessions. rewrite scopes_alter; [done|]. intros. apply Hf. }
  assert (forall id, last_used (st <| st_heap ::= alter f loc |>) id = last_used st id) as Hu.
  { intros. apply last_used_alter. intros. apply Hf. }
  split; try done.
  - intros l s (s0&Hs&_)%Hl. eauto.
  - intros id l Hid. destruct (H3 id l Hid) as (s&Hs&He). cbn. destruct (decide (l = loc)) as [->|Hne].
    + rewrite lookup_alter_eq, Hs. exists (f s). split; [done|]. by rewrite (same_id _ _ (Hf s)).
    + rewrite lookup_alter_ne by done. eauto.
  - intros l s (s0&Hs&[->| ->])%Hl; [by eapply H4|]. apply (same_busy _ _ (Hf s0)). by eapply H4.
  - intros c. rewrite Hc. apply H5.
  - intros c. rewrite Hc. apply H7.
  - intros id Hid. rewrite Hu. by apply H13.
  - erewrite list_fmap_ext; [exact H14|]. intros i x _. cbn. apply Hu.
Qed.
Lemma meanwhile_ok l now st : store_ok now st -> store_ok now (meanwhile l st).
Proof.
  unfold meanwhile. revert st. induction l as [|a l IH]; intros st H; [done|]. cbn. apply IH, alter_ok; [|done].
  intros s. apply act_same.
Qed.
Lemma meanwhile_frame l st :
  st_opts (meanwhile l st) = st_opts st /\ st_next (meanwhile l st) = st_next st /\ st_sessions (meanwhile l st) = st_sessions st /\
  st_perClient (meanwhile l st) = st_perClient st /\ st_lru (meanwhile l st) = st_lru st /\ st_lruIndex (meanwhile l st) = st_lruIndex st.
Proof. unfold meanwhile. revert st. induction l as [|a l IH]; intros st; [done|]. exact (IH _). Qed.

(** *** The LRU list *)
Lemma lru_Remove_elem el lru x : x ∈ lru_Remove el lru <-> x ∈ lru /\ x.1 <> el.
Proof. unfold lru_Remove. rewrite list_elem_of_filter. tauto. Qed.
Lemma NoDup_fst_filter (P : nat * string -> Prop) `{!forall x, Decision (P x)} lru : NoDup lru.*1 -> NoDup (filter P lru).*1.
Proof.
  induction lru as [|x lru IH]; [done|]. rewrite fmap_cons, NoDup_cons. intros [Hx Hn]. rewrite filter_cons.
  destruct (decide (P x)); [|by apply IH]. rewrite fmap_cons, NoDup_cons. split; [|by apply IH].
  intros (y&E&Hy)%list_elem_of_fmap. apply Hx. rewrite E. apply list_elem_of_filter in Hy as [_ Hy]. by apply list_elem_of_fmap_2.
Qed.
Lemma sorted_filter {A} (f : A -> Z) (P : A -> Prop) `{!forall x, Decision (P x)} l :
  StronglySorted Z.ge (f <$> l) -> StronglySorted Z.ge (f <$> filter P l).
Proof.
  induction l as [|x l IH]; [done|]. rewrite fmap_cons, StronglySorted_cons. intros [Hx Hs]. rewrite filter_cons.
  destruct (decide (P x)); [|by apply IH]. rewrite fmap_cons, StronglySorted_cons. split; [|by apply IH].
  rewrite Forall_fmap, Forall_forall in *. intros y [_ Hy]%list_elem_of_filter. by apply Hx.
Qed.
Lemma MoveToFront_spec el id lru :
  NoDup lru.*1 -> (el, id) ∈ lru -> MoveToFront el lru = (el, id) :: filter (fun y => y.1 <> el) lru.
Proof.
  intros Hn Hin. unfold MoveToFront. destruct (list_find _ lru) as [[i x]|] eqn:E.
  - apply list_find_Some in E as (Hx&E&_). f_equal. apply list_elem_of_lookup_2 in Hx. destruct x as [el' id']. cbn in E. subst el'.
    f_equal. clear -Hn Hin Hx. induction lru as [|y lru IH]; [by apply elem_of_nil in Hin|].
    rewrite fmap_cons, NoDup_cons in Hn. destruct Hn as [Hy Hn].
    apply elem_of_cons in Hin as [<-|Hin], Hx as [E|Hx]; [by simplify_eq|..|by apply IH].
    + exfalso. apply Hy. by apply (list_elem_of_fmap_2 fst) in Hx.
    + subst y. exfalso. apply Hy. by apply (list_elem_of_fmap_2 fst) in Hin.
  - apply list_find_None in E. rewrite Forall_forall in E. by apply E in Hin.
Qed.

(** *** The sessions of a client *)
Lemma count_insert (m : gmap string string) id c c' :
  m !! id = None ->
  size (filter (fun row => row.2 = c') (<[id := c]> m)) =
  (size (filter (fun row => row.2 = c') m) + if decide (c = c') then 1 else 0)%nat.
Proof.
  intros Hm. destruct (decide (c = c')) as [->|Hne].
  - rewrite map_filter_insert_True by done. rewrite map_size_insert_None; [lia|]. rewrite map_lookup_filter_None. by left.
  - rewrite map_filter_insert_False by done. rewrite delete_id by done. lia.
Qed.
Lemma count_delete (m : gmap string string) id c c' :
  m !! id = Some c ->
  size (filter (fun row => row.2 = c') m) =
  (size (filter (fun row => row.2 = c') (delete id m)) + if decide (c = c') then 1 else 0)%nat.
Proof.
  intros Hm. rewrite <- (insert_delete_id m id c Hm) at 1. rewrite count_insert; [done|]. apply lookup_delete_eq.
Qed.
Lemma scopes_lookup now st id loc : store_ok now st -> st_sessions st !! id = Some loc ->
  exists sess, st_heap st !! loc = Some sess /\ hs_ClientSessionID sess = id /\ scopes st !! id = Some (hs_ScopeKey sess).
Proof.
  intros Hok Hid. destruct (ok_sess _ _ Hok id loc Hid) as (sess&Hs&He). exists sess. split_and!; [done..|].
  unfold scopes. rewrite lookup_omap, Hid. cbn. by rewrite Hs.
Qed.

(** *** Touch *)
Lemma store_ok_later t now st : t <= now -> store_ok t st -> store_ok now st.
Proof. intros Hle [? ? ? ? ? ? ? ? ? ? ? ? Hu ?]. split; try done. intros id Hid. specialize (Hu id Hid). lia. Qed.
Lemma index_of now st id loc : store_ok now st -> st_sessions st !! id = Some loc ->
  exists el, st_lruIndex st !! id = Some el /\ (el, id) ∈ st_lru st.
Proof.
  intros Hok Hid. assert (id ∈ dom (st_lruIndex st)) as [el Hel]%elem_of_dom by (rewrite (ok_dom _ _ Hok); by apply elem_of_dom).
  exists el. split; [done|]. by apply (ok_index _ _ Hok).
Qed.
Lemma touch_frame id now st : GetAndTouch id now st = ((Touch id now st).1, st_sessions st !! id).
Proof. unfold GetAndTouch, Touch. by destruct (st_sessions st !! id). Qed.
Lemma touch_ok id now st : store_ok now st -> store_ok now (Touch id now st).1.
Proof.
  intros Hok. unfold Touch. destruct (st_sessions st !! id) as [loc|] eqn:Hid; [|done]. cbn [fst].
  destruct (index_of _ _ _ _ Hok Hid) as (el&Hel&Hin). cbn [st_lruIndex set_field set_st_heap]. rewrite Hel.
  destruct (scopes_lookup _ _ _ _ Hok Hid) as (sess&Hs&_&_).
  set (st1 := st <| st_heap ::= alter (fun s => s <| hs_LastUsedAt := now |>) loc |>).
  destruct Hok as [H1 H2 H3 H4 H5 H6 H7 H8 H9 H10 H11 H12 H13 H14].
  assert (scopes st1 = scopes st) as Esc by (by apply scopes_alter).
  assert (forall id', last_used st1 id' = if decide (id' = id) then now else last_used st id') as Hu.
  { intros id'. unfold last_used, session_of, st1. cbn. destruct (decide (id' = id)) as [->|Hne].
    - rewrite Hid. cbn. by rewrite lookup_alter_eq, Hs.
    - destruct (st_sessions st !! id') as [l|] eqn:E; [|done]. cbn. rewrite lookup_alter_ne; [done|]. intros ->.
      destruct (H3 _ _ E) as (s&Es&Ei). destruct (H3 _ _ Hid) as (s'&Es'&Ei'). congruence. }
  assert (forall x, x ∈ MoveToFront el (st_lru st) <-> x ∈ st_lru st) as Hmem.
  { intros x. rewrite (MoveToFront_spec el id) by done. rewrite elem_of_cons, list_elem_of_filter. destruct x as [e i]. cbn. split.
    - intros [[= -> ->]|[_ ?]]; done.
    - intros Hx. destruct (decide (e = el)) as [->|]; [|by right]. left. f_equal. apply H10 in Hx, Hin.
      assert (i ∈ dom (st_sessions st)) by (rewrite <- H11; apply elem_of_dom; eauto).
      destruct (decide (i = id)) as [|Hne]; [done|]. exfalso. clear -H9 H10 Hx Hin Hne. apply H10 in Hx, Hin.
      apply list_elem_of_split in Hx as (l1&l2&E). rewrite E in H9, Hin. rewrite fmap_app, fmap_cons in H9.
      apply NoDup_app in H9 as (_&Hd&[Hn _]%NoDup_cons). apply elem_of_app in Hin as [Hin|[[= ->]|Hin]%elem_of_cons]; [|done|].
      + apply (Hd el); [by apply (list_elem_of_fmap_2 fst) in Hin|by left].
      + apply Hn. by apply (list_elem_of_fmap_2 fst) in Hin. }
  split.
  - done.
  - intros l s. cbn. destruct (decide (l = loc)) as [->|Hne]; [rewrite lookup_alter_eq, Hs; eauto|rewrite lookup_alter_ne by done; eauto].
  - intros id' l Hl. cbn in Hl. destruct (H3 id' l Hl) as (s&Es&Ei). cbn. destruct (decide (l = loc)) as [->|Hne].
    + rewrite lookup_alter_eq, Es. by eexists.
    + rewrite lookup_alter_ne by done. eauto.
  - intros l s. cbn. destruct (decide (l = loc)) as [->|Hne].
    + rewrite lookup_alter_eq, Hs. cbn. intros [= <-]. cbn. by eapply H4.
    + rewrite lookup_alter_ne by done. apply H4.
  - intros c. change (default 0 (st_perClient st !! c) = Z.of_nat (size (filter (fun row => row.2 = c) (scopes st1)))).
    rewrite Esc. apply H5.
  - done.
  - intros c. change (Z.of_nat (size (filter (fun row => row.2 = c) (scopes st1))) <= so_MaxPerClient (st_opts st)).
    rewrite Esc. apply H7.
  - done.
  - cbn. rewrite (MoveToFront_spec el id) by done. rewrite fmap_cons. apply NoDup_cons. split; [|by apply NoDup_fst_filter].
    intros (y&E&[Hy _]%list_elem_of_filter)%list_elem_of_fmap. by apply Hy.
  - intros id' el'. cbn. rewrite Hmem. apply H10.
  - done.
  - intros el' id'. cbn. rewrite Hmem. apply H12.
  - intros id' Hd. cbn in Hd. change (last_used st1 id' <= now). rewrite Hu. destruct (decide _); [lia|by apply H13].
  - change (StronglySorted Z.ge ((fun x => last_used st1 x.2) <$> MoveToFront el (st_lru st))).
    rewrite (MoveToFront_spec el id) by done. rewrite fmap_cons, StronglySorted_cons. cbn. split.
    + rewrite Hu, decide_True by done. apply Forall_fmap, Forall_forall. intros [e i] [_ Hx]%list_elem_of_filter. cbn.
      rewrite Hu. destruct (decide _); [lia|]. assert (last_used st i <= now); [|lia]. apply H13. rewrite <- H11.
      apply elem_of_dom. exists e. by apply H10.
    + erewrite list_fmap_ext; [apply (sorted_filter (fun x => last_used st x.2)), H14|].
      intros j [e i] Hx. cbn. rewrite Hu. apply list_elem_of_lookup_2, list_elem_of_filter in Hx as [Hne Hx].
      cbn in Hne. rewrite decide_False; [done|]. intros ->. apply Hne. apply H10 in Hx, Hin. congruence.
Qed.

(** *** Deletion *)
Lemma delete_ok id now st : store_ok now st -> store_ok now (deleteLocked id st).1.
Proof.
  intros Hok. unfold deleteLocked. destruct (st_sessions st !! id) as [loc|] eqn:Hid; [|done]. cbn [fst].
  destruct (index_of _ _ _ _ Hok Hid) as (el&Hel&Hin). cbn [st_lruIndex set_field set_st_heap set_st_sessions set_st_perClient].
  rewrite Hel. destruct (scopes_lookup _ _ _ _ Hok Hid) as (sess&Hs&_&Hsc). rewrite Hs.
  assert (store_ok now (st <| st_heap ::= alter markDeleteStarted loc |>)) as Hok1 by (apply alter_ok; [by split|done]).
  set (st1 := st <| st_heap ::= alter markDeleteStarted loc |>) in *.
  assert (scopes st1 !! id = Some (hs_ScopeKey sess)) as Hsc1 by (unfold st1; by rewrite scopes_alter).
  destruct Hok1 as [H1 H2 H3 H4 H5 H6 H7 H8 H9 H10 H11 H12 H13 H14].
  change (st_sessions st) with (st_sessions st1) in *. change (st_lruIndex st) with (st_lruIndex st1) in *.
  change (st_lru st) with (st_lru st1) in *. clearbody st1. clear st Hok Hs Hsc. rename st1 into st, Hsc1 into Hsc.
  match goal with |- store_ok now ?x => set (st' := x) end.
  assert (scopes st' = delete id (scopes st)) as Esc by (apply omap_delete).
  assert (forall c, client_sessions st c = (client_sessions st' c + if decide (hs_ScopeKey sess = c) then 1 else 0)%nat) as Hc.
  { intros c. unfold client_sessions. rewrite Esc. by apply count_delete. }
  assert (forall id', id' <> id -> last_used st' id' = last_used st id') as Hu.
  { intros id' Hne. unfold last_used, session_of, st'. cbn. by rewrite lookup_delete_ne. }
  split; cbn [st' set_field set_st_sessions set_st_perClient set_st_lru set_st_lruIndex set_st_heap st_opts st_next st_heap st_sessions st_perClient st_lru st_lruIndex].
  - done.
  - done.
  - intros id' l [_ Hl]%lookup_delete_Some. eauto.
  - done.
  - intros c. pose proof (H5 c) as Hcnt. rewrite Hc in Hcnt. unfold release_client.
    revert Hcnt. destruct (decide (hs_ScopeKey sess = c)) as [<-|Hne]; intros Hcnt; case_match; breflect;
      rewrite ?lookup_delete_eq, ?lookup_insert_eq, ?lookup_delete_ne, ?lookup_insert_ne by done; cbn; lia.
  - intros c n. unfold release_client. destruct (Z.leb_spec (default 0 (st_perClient st !! hs_ScopeKey sess) - 1) 0) as [Hz|Hz].
    + intros [_ ?]%lookup_delete_Some. eauto.
    + destruct (decide (hs_ScopeKey sess = c)) as [<-|Hne]; [rewrite lookup_insert_eq; intros [= <-]; lia|].
      rewrite lookup_insert_ne by done. eauto.
  - intros c. specialize (H7 c). rewrite Hc in H7. lia.
  - rewrite map_size_delete_Some by eauto. lia.
  - by apply NoDup_fst_filter.
  - intros id' el'. rewrite lru_Remove_elem. cbn. rewrite lookup_delete_Some, H10. split.
    + intros [Hne Hx]. split; [done|]. intros ->. apply Hne. clear -H9 Hx Hin.
      apply list_elem_of_split in Hx as (l1&l2&E). rewrite E in H9, Hin. rewrite fmap_app, fmap_cons in H9.
      apply NoDup_app in H9 as (_&Hd&[Hn _]%NoDup_cons). apply elem_of_app in Hin as [Hin|[[= ->]|Hin]%elem_of_cons]; [|done|].
      * exfalso. apply (Hd el); [by apply (list_elem_of_fmap_2 fst) in Hin|by left].
      * exfalso. apply Hn. by apply (list_elem_of_fmap_2 fst) in Hin.
    + intros [Hx Hne]. split; [|done]. intros <-. apply H10 in Hx. congruence.
  - by rewrite !dom_delete_L, H11.
  - intros el' id' [Hx _]%lru_Remove_elem. eauto.
  - intros id' Hd. rewrite dom_delete_L in Hd. rewrite Hu by set_solver. apply H13. set_solver.
  - erewrite list_fmap_ext; [apply (sorted_filter (fun x => last_used st x.2)), H14|].
    intros j [e i] Hx. cbn. apply list_elem_of_lookup_2, lru_Remove_elem in Hx as [Hx Hne]. apply Hu. intros ->.
    apply Hne. cbn. apply H10 in Hx. congruence.
Qed.
Lemma busy_frame st st' loc : st_heap st' = st_heap st -> busy st' loc = busy st loc.
Proof. unfold busy. by intros ->. Qed.
Lemma evict_ok elems races now st : store_ok now st -> store_ok now (evict_from elems races st).1.
Proof.
  revert races st. induction elems as [|[el id] elems IH]; intros races st Hok; [done|]. cbn [evict_from].
  destruct (st_sessions st !! id); [|by apply IH]. cbv zeta. set (st1 := meanwhile _ st).
  assert (store_ok now st1) by by apply meanwhile_ok. destruct (negb _); [by apply delete_ok|by apply IH].
Qed.
Lemma sweep_scan_ok cutoff rows races now st : store_ok now st -> store_ok now (sweep_scan cutoff rows races st).1.
Proof.
  revert races st. induction rows as [|[id loc] rows IH]; intros races st Hok; [done|]. cbn [sweep_scan]. cbv zeta.
  set (st1 := meanwhile _ st). assert (store_ok now st1) as Hok1 by by apply meanwhile_ok.
  specialize (IH (tail races) st1 Hok1). destruct (sweep_scan _ _ _ st1) as [st' cands]. cbn [fst] in IH.
  by repeat case_match.
Qed.
Lemma sweep_delete_ok cands races now st : store_ok now st -> store_ok now (sweep_delete cands races st).
Proof.
  revert races st. induction cands as [|[id loc] cands IH]; intros races st Hok; [done|]. cbn [sweep_delete]. cbv zeta.
  set (st1 := meanwhile _ st). assert (store_ok now st1) as Hok1 by by apply meanwhile_ok.
  apply IH. destruct (negb _); [by apply delete_ok|done].
Qed.
Lemma insert_as_alter f loc s s' st :
  st_heap st !! loc = Some s -> s' = f s -> st <| st_heap ::= insert loc s' |> = st <| st_heap ::= alter f loc |>.
Proof.
  intros Hs ->. assert (insert loc (f s) (st_heap st) = alter f loc (st_heap st)) as E.
  { apply map_eq. intros l. destruct (decide (l = loc)) as [->|Hne]; [by rewrite lookup_insert_eq, lookup_alter_eq, Hs|].
    by rewrite lookup_insert_ne, lookup_alter_ne. }
  unfold set_field, set_st_heap. by rewrite E.
Qed.
Lemma mark_all_ok port locs races now st : store_ok now st -> store_ok now (mark_all port locs races st).1.
Proof.
  revert races st. induction locs as [|loc locs IH]; intros races st Hok; [done|]. cbn [mark_all]. cbv zeta.
  set (st1 := meanwhile _ st). assert (store_ok now st1) as Hok1 by by apply meanwhile_ok.
  destruct (st_heap st1 !! loc) as [sess|] eqn:Hs; [|by apply IH].
  destruct (markStalePort port sess) as [sess' ok] eqn:Em.
  assert (store_ok now (st1 <| st_heap ::= insert loc sess' |>)) as Hok2.
  { rewrite (insert_as_alter (act_on (ActMarkStale port)) loc sess) by (done || (cbn; by rewrite Em)).
    apply alter_ok; [|done]. intros s. apply act_same. }
  specialize (IH (tail races) _ Hok2). destruct (mark_all _ _ _ _) as [st' n]. exact IH.
Qed.

(** *** Eviction *)
Lemma meanwhile_app l1 l2 st : meanwhile (l1 ++ l2) st = meanwhile l2 (meanwhile l1 st).
Proof. apply foldl_app. Qed.
Lemma evict_spec elems races st st' b :
  evict_from elems races st = (st', b) ->
  exists l, (forall a, a ∈ l -> exists r, r ∈ races /\ a ∈ r) /\
    if b then exists el id loc, (el, id) ∈ elems /\ st_sessions st !! id = Some loc /\
                busy (meanwhile l st) loc = false /\ st' = (deleteLocked id (meanwhile l st)).1
    else st' = meanwhile l st.
Proof.
  revert races st. induction elems as [|[el id] elems IH]; intros races st; cbn [evict_from].
  { intros [= <- <-]. exists []. by split; [intros a ?%elem_of_nil|]. }
  destruct (st_sessions st !! id) as [loc|] eqn:Hid.
  - cbv zeta. set (l1 := default [] (head races)).
    assert (forall a, a ∈ l1 -> exists r, r ∈ races /\ a ∈ r) as Hl1.
    { unfold l1. destruct races as [|r rs]; cbn; [by intros a ?%elem_of_nil|]. intros a Ha. exists r. by split; [left|]. }
    destruct (busy (meanwhile l1 st) loc) eqn:Hb; cbn [negb].
    + intros H. apply IH in H as (l2&Hl2&H). exists (l1 ++ l2). split.
      { intros a [?|(r&Hr&?)%Hl2]%elem_of_app; [by apply Hl1|]. exists r. split; [|done]. destruct races; [done|by right]. }
      rewrite meanwhile_app. destruct (meanwhile_frame l1 st) as (_&_&E&_). rewrite E in H. destruct b; [|done].
      destruct H as (el'&id'&loc'&?&?&?&?). exists el', id', loc'. split_and!; try done. by right.
    + intros [= <- <-]. exists l1. split; [done|]. exists el, id, loc. split_and!; try done. by left.
  - intros H. apply IH in H as (l2&Hl2&H). exists l2. split; [done|]. destruct b; [|done].
    destruct H as (el'&id'&loc'&?&?&?&?). exists el', id', loc'. split_and!; try done. by right.
Qed.
Lemma deleteLocked_sessions id st : st_sessions (deleteLocked id st).1 = delete id (st_sessions st).
Proof.
  unfold deleteLocked. destruct (st_sessions st !! id) eqn:E; [|cbn; by rewrite delete_id]. cbn [fst]. by case_match.
Qed.
Lemma deleteLocked_heap id st :
  st_heap (deleteLocked id st).1 = match st_sessions st !! id with Some loc => alter markDeleteStarted loc (st_heap st) | None => st_heap st end.
Proof. unfold deleteLocked. destruct (st_sessions st !! id); [|done]. cbn [fst]. by case_match. Qed.
Lemma deleteLocked_frame id st : st_opts (deleteLocked id st).1 = st_opts st /\ st_next (deleteLocked id st).1 = st_next st.
Proof. unfold deleteLocked. destruct (st_sessions st !! id); [|done]. cbn [fst]. by case_match. Qed.

(** A new session. *)
Definition add_session (sess : hubSession) (st : HubSessionStore) : HubSessionStore :=
  let loc := st_next st in let id := hs_ClientSessionID sess in let client := hs_ScopeKey sess in
  st <| st_heap ::= insert loc sess |> <| st_next ::= S |>
     <| st_sessions ::= insert id loc |>
     <| st_perClient ::= fun m => <[client := default 0 (m !! client) + 1]> m |>
     <| st_lru ::= cons (loc, id) |> <| st_lruIndex ::= insert id loc |>.
Lemma add_session_ok sess now st :
  store_ok now st -> st_sessions st !! hs_ClientSessionID sess = None -> hs_inFlightCount sess = 0 -> hs_InFlightRequests sess = ∅ ->
  hs_LastUsedAt sess = now -> default 0 (st_perClient st !! hs_ScopeKey sess) < so_MaxPerClient (st_opts st) ->
  Z.of_nat (size (st_sessions st)) < so_MaxGlobal (st_opts st) -> store_ok now (add_session sess st).
Proof.
  intros [H1 H2 H3 H4 H5 H6 H7 H8 H9 H10 H11 H12 H13 H14] Hnew Hn He Hu Hc Hg. set (st' := add_session sess st).
  set (id := hs_ClientSessionID sess) in *. set (loc := st_next st).
  assert (st_heap st !! loc = None) as Hfresh.
  { destruct (st_heap st !! loc) as [s|] eqn:E; [|done]. apply H2 in E. unfold loc in E. lia. }
  assert (forall id' l, st_sessions st !! id' = Some l -> <[loc := sess]> (st_heap st) !! l = st_heap st !! l) as Hold.
  { intros id' l Hl. destruct (H3 id' l Hl) as (s&Hs&_). rewrite lookup_insert_ne; [done|]. intros <-. congruence. }
  assert (scopes st !! id = None) as Hsc0 by (unfold scopes; by rewrite lookup_omap, Hnew).
  assert (scopes st' = <[id := hs_ScopeKey sess]> (scopes st)) as Esc.
  { unfold scopes, st', add_session. cbn. fold id loc. erewrite omap_insert_Some; [|cbn; by rewrite lookup_insert_eq]. f_equal.
    apply map_eq. intros id'. rewrite !lookup_omap. destruct (st_sessions st !! id') as [l|] eqn:E; [|done]. cbn. by rewrite (Hold _ _ E). }
  assert (forall c, client_sessions st' c = (client_sessions st c + if decide (hs_ScopeKey sess = c) then 1 else 0)%nat) as Hcnt.
  { intros c. unfold client_sessions. rewrite Esc. by apply count_insert. }
  assert (forall id', last_used st' id' = if decide (id' = id) then now else last_used st id') as Hlu.
  { intros id'. unfold last_used, session_of, st', add_session. cbn. fold id loc. destruct (decide (id' = id)) as [->|Hne].
    - rewrite lookup_insert_eq. cbn. by rewrite lookup_insert_eq.
    - rewrite lookup_insert_ne by done. destruct (st_sessions st !! id') as [l|] eqn:E; [|done]. cbn. by rewrite (Hold _ _ E). }
  assert (forall el, (el, id) ∉ st_lru st) as Hnotin.
  { intros el Hin. apply H10 in Hin. assert (id ∈ dom (st_sessions st)) as Hd by (rewrite <- H11; apply elem_of_dom; eauto).
    apply elem_of_dom in Hd as [? Hd]. congruence. }
  split.
  - done.
  - intros l s. change (<[loc := sess]> (st_heap st) !! l = Some s -> (l < S loc)%nat).
    intros [[<- _]|[_ Hs]]%lookup_insert_Some; [lia|]. apply H2 in Hs. unfold loc. lia.
  - intros id' l. change (<[id := loc]> (st_sessions st) !! id' = Some l -> exists s, <[loc := sess]> (st_heap st) !! l = Some s /\ hs_ClientSessionID s = id').
    intros [[<- <-]|[Hne Hl]]%lookup_insert_Some; [rewrite lookup_insert_eq; eauto|]. rewrite (Hold _ _ Hl). eauto.
  - intros l s. change (<[loc := sess]> (st_heap st) !! l = Some s -> hs_inFlightCount s = Z.of_nat (size (hs_InFlightRequests s))).
    intros [[_ <-]|[_ Hs]]%lookup_insert_Some; [by rewrite Hn, He|eauto].
  - intros c. rewrite Hcnt. specialize (H5 c). change (st_perClient st') with (<[hs_ScopeKey sess := default 0 (st_perClient st !! hs_ScopeKey sess) + 1]> (st_perClient st)).
    destruct (decide (hs_ScopeKey sess = c)) as [<-|Hne]; [rewrite lookup_insert_eq; cbn; lia|]. rewrite lookup_insert_ne by done. lia.
  - intros c n. change (<[hs_ScopeKey sess := default 0 (st_perClient st !! hs_ScopeKey sess) + 1]> (st_perClient st) !! c = Some n -> 0 < n).
    intros [[_ <-]|[_ ?]]%lookup_insert_Some; [|eauto]. specialize (H5 (hs_ScopeKey sess)). lia.
  - intros c. rewrite Hcnt. change (st_opts st') with (st_opts st). specialize (H7 c). pose proof (H5 c) as H5c.
    destruct (decide (hs_ScopeKey sess = c)) as [<-|Hne]; lia.
  - change (st_sessions st') with (<[id := loc]> (st_sessions st)). rewrite map_size_insert_None by done.
    change (st_opts st') with (st_opts st). lia.
  - change (NoDup (loc :: (st_lru st).*1)). apply NoDup_cons. split; [|done]. intros ([el i]&E&Hin)%list_elem_of_fmap.
    cbn in E. apply H12 in Hin. unfold loc in E. lia.
  - intros id' el. change (<[id := loc]> (st_lruIndex st) !! id' = Some el <-> (el, id') ∈ (loc, id) :: st_lru st).
    rewrite elem_of_cons, lookup_insert_Some, H10. split.
    + intros [[<- <-]|[_ ?]]; auto.
    + intros [[= -> ->]|Hin]; [by left|]. right. split; [|done]. intros <-. by apply Hnotin in Hin.
  - change (dom (<[id := loc]> (st_lruIndex st)) = dom (<[id := loc]> (st_sessions st))). by rewrite !dom_insert_L, H11.
  - intros el id'. change ((el, id') ∈ (loc, id) :: st_lru st -> (el < S loc)%nat).
    intros [[= -> ->]|Hin]%elem_of_cons; [lia|]. apply H12 in Hin. unfold loc. lia.
  - intros id' Hd. rewrite Hlu. destruct (decide (id' = id)) as [|Hne]; [lia|]. apply H13.
    change (dom (st_sessions st')) with (dom (<[id := loc]> (st_sessions st))) in Hd. rewrite dom_insert_L in Hd. set_solver.
  - change (st_lru st') with ((loc, id) :: st_lru st). rewrite fmap_cons, StronglySorted_cons. cbn. split.
    + rewrite Hlu, decide_True by done. apply Forall_fmap, Forall_forall. intros [e i] Hx. cbn. rewrite Hlu.
      destruct (decide _); [lia|]. assert (last_used st i <= now); [|lia]. apply H13. rewrite <- H11. apply elem_of_dom.
      exists e. by apply H10.
    + erewrite list_fmap_ext; [exact H14|]. intros j [e i] Hx. cbn. rewrite Hlu. rewrite decide_False; [done|]. intros ->.
      apply list_elem_of_lookup_2 in Hx. by apply Hnotin in Hx.
Qed.

Lemma meanwhile_scopes l st : scopes (meanwhile l st) = scopes st.
Proof.
  unfold meanwhile. revert st. induction l as [|a l IH]; intros st; [done|]. cbn. rewrite IH. apply scopes_alter.
  intros s. apply (same_scope _ _ (act_same _ s)).
Qed.
Lemma deleteLocked_scopes id st : scopes (deleteLocked id st).1 = delete id (scopes st).
Proof.
  assert (forall loc, scopes (st <| st_heap ::= alter markDeleteStarted loc |>) = scopes st) as Ha by (intros; by apply scopes_alter).
  unfold deleteLocked. destruct (st_sessions st !! id) as [loc|] eqn:E.
  - cbn [fst]. rewrite <- (Ha loc). unfold scopes. case_match; cbn; apply omap_delete.
  - cbn. rewrite delete_id; [done|]. unfold scopes. by rewrite lookup_omap, E.
Qed.
Lemma count_delete_le (m : gmap string string) id c :
  (size (filter (fun row : string * string => row.2 = c) (delete id m)) <=
   size (filter (fun row : string * string => row.2 = c) m))%nat.
Proof. destruct (m !! id) as [x|] eqn:E; [rewrite (count_delete m id x c E); lia|by rewrite delete_id]. Qed.

Lemma room_spec now races st st' b :
  store_ok now st ->
  (if so_MaxGlobal (st_opts st) <=? Z.of_nat (size (st_sessions st)) then evictIdleLRULocked races st else (st, true)) = (st', b) ->
  store_ok now st' /\ st_opts st' = st_opts st /\ st_sessions st' ⊆ st_sessions st /\
  (forall c, (client_sessions st' c <= client_sessions st c)%nat) /\
  (b = true -> Z.of_nat (size (st_sessions st')) < so_MaxGlobal (st_opts st)).
Proof.
  intros Hok. destruct (Z.leb_spec (so_MaxGlobal (st_opts st)) (Z.of_nat (size (st_sessions st)))) as [Hc|Hc].
  2: { intros [= <- <-]. by split_and!. }
  unfold evictIdleLRULocked. intros H. pose proof (evict_ok (rev (st_lru st)) races now st Hok) as Hok'. rewrite H in Hok'.
  split; [done|]. apply evict_spec in H as (l&_&H). destruct (meanwhile_frame l st) as (F1&_&F3&_). destruct b.
  - destruct H as (el&id&loc&_&Hid&_&->). destruct (deleteLocked_frame id (meanwhile l st)) as [G1 _].
    rewrite G1, F1, deleteLocked_sessions, F3. split_and!; [done|apply delete_subseteq| |].
    + intros c. unfold client_sessions. rewrite deleteLocked_scopes, meanwhile_scopes. apply count_delete_le.
    + intros _. rewrite map_size_delete_Some by eauto. pose proof (ok_global_cap _ _ Hok).
      assert (size (st_sessions st) <> 0%nat); [|lia]. intros Hz%map_size_empty_inv. by rewrite Hz, lookup_empty in Hid.
  - subst st'. rewrite F1, F3. split_and!; try done. intros c. unfold client_sessions. by rewrite meanwhile_scopes.
Qed.
Lemma create_ok client protoVer snap id now races st :
  store_ok now st -> (forall i, id = Ok i -> st_sessions st !! i = None) ->
  store_ok now (Create client protoVer snap id now races st).1.
Proof.
  intros Hok Hid. unfold Create. destruct (Z.leb_spec (so_MaxPerClient (st_opts st)) (default 0 (st_perClient st !! client))) as [|Hc]; [done|].
  destruct id as [id|e]; [|done].
  lazymatch goal with |- context [let '(_, _) := ?x in _] => destruct x as [st' room] eqn:Er end.
  apply (room_spec now) in Er as (Hok'&Ho&Hs&Hcl&Hr); [|done]. destruct room; [|done]. cbn [negb fst].
  apply (add_session_ok (mkSession id client "" protoVer snap [] ∅ ∅ ∅ [] None ∅ 0 now now false ∅)); try done; cbn.
  - destruct (st_sessions st' !! id) eqn:E; [|done]. apply (lookup_weaken _ _ _ _ E) in Hs. rewrite Hid in Hs; done.
  - rewrite Ho, (ok_count _ _ Hok'). specialize (Hcl client). rewrite (ok_count _ _ Hok) in Hc. lia.
  - rewrite Ho. by apply Hr.
Qed.
Lemma run_store_ok op now st :
  store_ok now st -> (forall client protoVer snap id races, op = OpCreate client protoVer snap (Ok id) races -> st_sessions st !! id = None) ->
  store_ok now (run_store op now st).
Proof.
  intros Hok Hid. destruct op as [client protoVer snap id races|id|id|id|races1 races2|l|port races]; cbn.
  - apply create_ok; [done|]. intros i ->. by eapply Hid.
  - by apply touch_ok.
  - rewrite touch_frame. by apply touch_ok.
  - by apply delete_ok.
  - unfold sweepOnce. pose proof (sweep_scan_ok (now - so_IdleTimeout (st_opts st)) (map_to_list (st_sessions st)) races1 now st Hok) as Hs.
    destruct (sweep_scan _ _ _ st) as [st' cands]. by apply sweep_delete_ok.
  - by apply meanwhile_ok.
  - by apply mark_all_ok.
Qed.
Lemma new_store_ok opts now : store_ok now (NewHubSessionStore opts).
Proof.
  split; try done.
  - cbn. unfold with_defaults, defaultMaxSessionsPerClient, defaultMaxSessionsGlobal. cbn. split; case_match; breflect; lia.
  - intros c. change (client_sessions (NewHubSessionStore opts) c) with 0%nat.
    cbn. unfold with_defaults, defaultMaxSessionsPerClient. cbn. case_match; breflect; lia.
  - change (size (st_sessions (NewHubSessionStore opts))) with 0%nat.
    cbn. unfold with_defaults, defaultMaxSessionsGlobal. cbn. case_match; breflect; lia.
  - apply NoDup_nil_2.
  - intros id el. cbn. rewrite elem_of_nil. split; [|done]. by intros ?%lookup_empty_Some.
  - intros el id ?%elem_of_nil. done.
  - constructor.
Qed.

Lemma store_reached_ok opts now st : store_reached opts now st -> store_ok now st.
Proof.
  induction 1 as [now|op t now st Hr IH Hle Hid]; [apply new_store_ok|]. apply run_store_ok; [|done].
  by apply (store_ok_later t).
Qed.
Lemma lru_ids now st : store_ok now st -> NoDup (st_lru st).*2 /\ forall id, id ∈ (st_lru st).*2 <-> id ∈ dom (st_sessions st).
Proof.
  intros [_ _ _ _ _ _ _ _ H9 H10 H11 _ _ _]. split.
  - assert (forall e1 e2 i, (e1, i) ∈ st_lru st -> (e2, i) ∈ st_lru st -> e1 = e2) as Hi.
    { intros e1 e2 i A%H10 B%H10. congruence. }
    clear -H9 Hi. induction (st_lru st) as [|[e i] l IH]; [apply NoDup_nil_2|]. rewrite fmap_cons in H9. apply NoDup_cons in H9 as [Hn H9].
    rewrite fmap_cons. apply NoDup_cons. split; [|apply IH; [done|]; intros e1 e2 k A B; apply (Hi e1 e2 k); by right].
    intros ([e' i']&E&Hin)%list_elem_of_fmap. cbn in E. subst i'. apply Hn. cbn.
    rewrite (Hi e e' i); [by apply (list_elem_of_fmap_2 fst) in Hin|by left|by right].
  - intros id. rewrite <- H11, elem_of_dom, list_elem_of_fmap. split.
    + intros ([e i]&->&Hin). exists e. by apply H10.
    + intros [e He]. exists (e, id). split; [done|]. by apply H10.
Qed.

(** C26: the store is consistent in every reachable state: the caps hold, per
    client and over all; the count kept for a client is the number of its
    sessions; the LRU list holds every session once and is in the order of
    last use; a session's counter is the number of its calls in flight. *)
Theorem store_invariant opts now st :
  store_reached opts now st ->
  (forall c, default 0 (st_perClient st !! c) = Z.of_nat (client_sessions st c) /\
     Z.of_nat (client_sessions st c) <= so_MaxPerClient (st_opts st)) /\
  Z.of_nat (size (st_sessions st)) <= so_MaxGlobal (st_opts st) /\
  NoDup (st_lru st).*2 /\ (forall id, id ∈ (st_lru st).*2 <-> id ∈ dom (st_sessions st)) /\
  dom (st_lruIndex st) = dom (st_sessions st) /\
  (forall id el, st_lruIndex st !! id = Some el <-> (el, id) ∈ st_lru st) /\
  StronglySorted Z.ge ((fun x => last_used st x.2) <$> st_lru st) /\
  (forall id sess, session_of st id = Some sess ->
     hs_ClientSessionID sess = id /\ InFlightCount sess = Z.of_nat (size (hs_InFlightRequests sess))).
Proof.
  intros Hok%store_reached_ok. destruct (lru_ids _ _ Hok) as [L1 L2]. split_and!; [|apply Hok|done|done|apply Hok|apply Hok|apply Hok|].
  - intros c. split; apply Hok.
  - unfold session_of. intros id sess. destruct (st_sessions st !! id) as [loc|] eqn:E; [|done]. cbn. intros Hs.
    destruct (ok_sess _ _ Hok _ _ E) as (s&Hs'&Hi). split; [congruence|]. by eapply (ok_busy _ _ Hok).
Qed.

(** *** Calls in flight *)

(** The session of an id and a call in it. *)
Definition holds (id : string) (loc : nat) (key : string) (e : inflightEntry) (st : HubSessionStore) : Prop :=
  st_sessions st !! id = Some loc /\ exists s, st_heap st !! loc = Some s /\ LookupInFlight key s = Some e.
Lemma holds_busy now id loc key e st : store_ok now st -> holds id loc key e st -> busy st loc = true.
Proof.
  intros Hok (_&s&Hs&He). unfold busy, InFlightCount. rewrite Hs, (ok_busy _ _ Hok _ _ Hs). unfold LookupInFlight in He.
  destruct (Z.eqb_spec (Z.of_nat (size (hs_InFlightRequests s))) 0) as [Hz|]; [|done]. exfalso.
  assert (size (hs_InFlightRequests s) = 0%nat) as Hz'%map_size_empty_inv by lia. by rewrite Hz', lookup_empty in He.
Qed.
Lemma holds_alter id loc key e st f l :
  (forall s, st_heap st !! loc = Some s -> l = loc -> LookupInFlight key s = Some e -> LookupInFlight key (f s) = Some e) ->
  holds id loc key e st -> holds id loc key e (st <| st_heap ::= alter f l |>).
Proof.
  intros Hf (Hid&s&Hs&He). split; [done|]. cbn. destruct (decide (l = loc)) as [->|Hne].
  - rewrite lookup_alter_eq, Hs. exists (f s). split; [done|]. by apply Hf.
  - rewrite lookup_alter_ne by done. by exists s.
Qed.
Lemma act_keeps a key e s : a <> ActRemove key -> LookupInFlight key s = Some e -> LookupInFlight key (act_on a s) = Some e.
Proof.
  unfold LookupInFlight. intros Ha He. destruct a as [k entry|k|port]; cbn.
  - unfold InsertInFlight. destruct (hs_InFlightRequests s !! k) eqn:E; [done|]. cbn. rewrite lookup_insert_ne; [done|].
    intros ->. congruence.
  - unfold RemoveInFlight. destruct (hs_InFlightRequests s !! k) eqn:E; [|done]. cbn. rewrite lookup_delete_ne; [done|]. congruence.
  - unfold markStalePort. by destruct (negb _).
Qed.
Lemma holds_meanwhile id loc key e l st :
  (loc, ActRemove key) ∉ l -> holds id loc key e st -> holds id loc key e (meanwhile l st).
Proof.
  unfold meanwhile. revert st. induction l as [|[l' a] l IH]; intros st Hl H; [done|]. cbn. apply IH; [set_solver|].
  apply holds_alter; [|done]. cbn. intros s _ -> He. apply act_keeps; [|done]. intros ->. apply Hl. by left.
Qed.
Lemma holds_delete id loc key e id' st : id' <> id -> holds id loc key e st -> holds id loc key e (deleteLocked id' st).1.
Proof.
  intros Hne (Hid&s&Hs&He). split; [by rewrite deleteLocked_sessions, lookup_delete_ne|].
  unfold deleteLocked. destruct (st_sessions st !! id') as [l|]; [|eauto]. cbn [fst].
  assert (exists s', alter markDeleteStarted l (st_heap st) !! loc = Some s' /\ LookupInFlight key s' = Some e) as (s'&Hs'&He').
  { destruct (decide (l = loc)) as [->|Hl]; [rewrite lookup_alter_eq, Hs; by eexists|rewrite lookup_alter_ne by done; eauto]. }
  exists s'. split; [|done]. by case_match.
Qed.
Lemma holds_sweep now id loc key e cands races st :
  store_ok now st -> (forall l, l ∈ races -> (loc, ActRemove key) ∉ l) -> (forall l, (id, l) ∈ cands -> l = loc) ->
  holds id loc key e st -> holds id loc key e (sweep_delete cands races st).
Proof.
  revert races st. induction cands as [|[i l] cands IH]; intros races st Hok Hr Hc H; [done|]. cbn [sweep_delete]. cbv zeta.
  set (st1 := meanwhile _ st). assert (store_ok now st1) as Hok1 by by apply meanwhile_ok.
  assert (holds id loc key e st1) as H1.
  { apply holds_meanwhile; [|done]. destruct races as [|r rs]; cbn; [apply not_elem_of_nil|apply Hr; by left]. }
  apply IH.
  - destruct (negb _); [by apply delete_ok|done].
  - intros r Hin. apply Hr. destruct races; [done|by right].
  - intros l' Hin. apply Hc. by right.
  - destruct (busy st1 l) eqn:Hb; [done|]. cbn [negb]. apply holds_delete; [|done]. intros ->.
    assert (l = loc) as -> by (apply Hc; by left). by rewrite (holds_busy now _ _ _ _ _ Hok1 H1) in Hb.
Qed.
Lemma sweep_scan_spec cutoff rows races st st' cands id loc key e :
  sweep_scan cutoff rows races st = (st', cands) -> (forall l, l ∈ races -> (loc, ActRemove key) ∉ l) ->
  holds id loc key e st -> holds id loc key e st' /\ forall row, row ∈ cands -> row ∈ rows.
Proof.
  revert races st st' cands. induction rows as [|[i l] rows IH]; intros races st st' cands; cbn [sweep_scan].
  { by intros [= <- <-]. }
  cbv zeta. set (st1 := meanwhile _ st). destruct (sweep_scan cutoff rows (tail races) st1) as [st2 c2] eqn:E. intros H Hr Hh.
  assert (holds id loc key e st1) as H1.
  { apply holds_meanwhile; [|done]. destruct races as [|r rs]; cbn; [apply not_elem_of_nil|apply Hr; by left]. }
  destruct (IH _ _ _ _ E) as [H2 Hrows]; [|done|].
  { intros r Hin. apply Hr. destruct races; [done|by right]. }
  repeat case_match; simplify_eq; (split; [done|]); intros row; rewrite ?elem_of_cons; intros; destruct_or?; auto.
Qed.
Lemma holds_mark_all id loc key e port locs races st :
  (forall l, l ∈ races -> (loc, ActRemove key) ∉ l) -> holds id loc key e st -> holds id loc key e (mark_all port locs races st).1.
Proof.
  revert races st. induction locs as [|l locs IH]; intros races st Hr H; [done|]. cbn [mark_all]. cbv zeta.
  set (st1 := meanwhile _ st). assert (holds id loc key e st1) as H1.
  { apply holds_meanwhile; [|done]. destruct races as [|r rs]; cbn; [apply not_elem_of_nil|apply Hr; by left]. }
  assert (forall r, r ∈ tail races -> (loc, ActRemove key) ∉ r) as Hr'.
  { intros r Hin. apply Hr. destruct races; [done|by right]. }
  destruct (st_heap st1 !! l) as [sess|] eqn:Hs; [|by apply IH].
  destruct (markStalePort port sess) as [sess' ok] eqn:Em.
  rewrite (insert_as_alter (act_on (ActMarkStale port)) l sess) by (done || (cbn; by rewrite Em)).
  assert (holds id loc key e (st1 <| st_heap ::= alter (act_on (ActMarkStale port)) l |>)) as H2.
  { apply holds_alter; [|done]. intros s _ _ He. by apply act_keeps. }
  specialize (IH (tail races) _ Hr' H2). destruct (mark_all _ _ _ _) as [st' n]. exact IH.
Qed.

(** What ran beside an operation. *)
Definition op_races (op : store_op) : list acts :=
  match op with
  | OpCreate _ _ _ _ races => races
  | OpSweep races1 races2 => races1 ++ races2
  | OpMeanwhile l => [l]
  | OpMarkPortStale _ races => races
  | _ => []
  end.

(** C25: a session with a call in flight stays.  Whatever happens to the store,
    and whatever other goroutines do between the moments at which it looks at
    a session, a session is removed only by its own deletion or after the
    call has ended: never by the eviction of a full store nor by the idle
    sweep; and the entry of the call stays the one its first caller made. *)
Theorem busy_session_stays opts now st op now' id loc key e :
  store_reached opts now st -> now <= now' -> holds id loc key e st -> op <> OpDelete id ->
  (forall l, l ∈ op_races op -> (loc, ActRemove key) ∉ l) ->
  (forall client protoVer snap i races, op = OpCreate client protoVer snap (Ok i) races -> st_sessions st !! i = None) ->
  holds id loc key e (run_store op now' st).
Proof.
  intros Hreach Hle H Hop Hr Hid.
  assert (store_ok now' st) as Hok by (apply (store_ok_later now); [done|]; by eapply store_reached_ok).
  destruct op as [client protoVer snap i races|i|i|i|races1 races2|l|port races]; cbn in *.
  - unfold Create. destruct (_ <=? _); [done|]. destruct i as [i|]; [|done].
    assert (forall st1, store_ok now' st1 -> holds id loc key e st1 -> st_sessions st1 !! i = None ->
      holds id loc key e (add_session (mkSession i client "" protoVer snap [] ∅ ∅ ∅ [] None ∅ 0 now' now' false ∅) st1)) as Hadd.
    { intros st1 Hok1 (Hs1&s&Hs&He) Hi. split.
      - change (<[i := st_next st1]> (st_sessions st1) !! id = Some loc). rewrite lookup_insert_ne; [done|]. intros ->. congruence.
      - exists s. split; [|done]. change (<[st_next st1 := mkSession i client "" protoVer snap [] ∅ ∅ ∅ [] None ∅ 0 now' now' false ∅]>
          (st_heap st1) !! loc = Some s). rewrite lookup_insert_ne; [done|]. apply (ok_next _ _ Hok1) in Hs. lia. }
    specialize (Hid client protoVer snap i races eq_refl).
    destruct (so_MaxGlobal (st_opts st) <=? Z.of_nat (size (st_sessions st))).
    2: { by apply Hadd. }
    unfold evictIdleLRULocked. destruct (evict_from _ races st) as [st' b] eqn:Ee.
    pose proof (evict_ok (rev (st_lru st)) races now' st Hok) as Hok'. rewrite Ee in Hok'. cbn [fst] in Hok'.
    apply evict_spec in Ee as (l&Hl&Ee). assert (holds id loc key e (meanwhile l st)) as Hm.
    { apply holds_meanwhile; [|done]. intros (r&Hin&?)%Hl. by apply (Hr r). }
    destruct (meanwhile_frame l st) as (_&_&Es&_). destruct b; cbn [negb].
    + destruct Ee as (el&id'&loc'&_&Hid'&Hb&->). assert (id' <> id) as Hne.
      { intros ->. destruct H as (Hs&_). assert (loc' = loc) as -> by congruence.
        rewrite (holds_busy now' _ _ _ _ _ (meanwhile_ok l _ _ Hok) Hm) in Hb. done. }
      apply Hadd; [done|by apply holds_delete|]. rewrite deleteLocked_sessions, Es. apply lookup_delete_None. by right.
    + by subst st'.
  - unfold Touch. destruct (st_sessions st !! i) as [l|]; [|done]. cbn [fst]. apply (holds_alter _ _ _ _ _ (fun s => s <| hs_LastUsedAt := now' |>) l) in H;
      [|done]. by case_match.
  - rewrite touch_frame. unfold Touch. destruct (st_sessions st !! i) as [l|]; [|done]. cbn [fst].
    apply (holds_alter _ _ _ _ _ (fun s => s <| hs_LastUsedAt := now' |>) l) in H; [|done]. by case_match.
  - apply holds_delete; [congruence|done].
  - unfold sweepOnce. pose proof (sweep_scan_ok (now' - so_IdleTimeout (st_opts st)) (map_to_list (st_sessions st)) races1 now' st Hok) as Hok'.
    destruct (sweep_scan _ _ _ st) as [st' cands] eqn:Es. apply (sweep_scan_spec _ _ _ _ _ _ id loc key e) in Es as [H' Hc]; [| |done].
    + eapply holds_sweep; [exact Hok'| | |done].
      * intros l Hl. apply Hr, elem_of_app. by right.
      * intros l Hl%Hc%elem_of_map_to_list. destruct H as [Hs _]. congruence.
    + intros l Hl. apply Hr, elem_of_app. by left.
  - apply holds_meanwhile; [|done]. apply Hr. by left.
  - by apply holds_mark_all.
Qed.

(** *** What a new session costs *)

(** Without races the victim of an eviction is the least recently used of the
    idle sessions. *)
Lemma evict_plain elems st :
  match evict_from elems [] st with
  | (st', true) => exists el id loc rest front, elems = front ++ (el, id) :: rest /\ st_sessions st !! id = Some loc /\
      busy st loc = false /\ st' = (deleteLocked id st).1 /\
      forall x, x ∈ front -> forall l, st_sessions st !! x.2 = Some l -> busy st l = true
  | (st', false) => st' = st /\ forall x, x ∈ elems -> forall l, st_sessions st !! x.2 = Some l -> busy st l = true
  end.
Proof.
  induction elems as [|[el id] elems IH]; cbn [evict_from]; [split; [done|]; by intros x ?%elem_of_nil|].
  assert (forall (P : Prop), (forall l, st_sessions st !! id = Some l -> busy st l = true) ->
    match evict_from elems [] st with
    | (st', true) => exists el0 id0 loc rest front, (el, id) :: elems = front ++ (el0, id0) :: rest /\ st_sessions st !! id0 = Some loc /\
        busy st loc = false /\ st' = (deleteLocked id0 st).1 /\
        forall x, x ∈ front -> forall l, st_sessions st !! x.2 = Some l -> busy st l = true
    | (st', false) => st' = st /\ forall x, x ∈ (el, id) :: elems -> forall l, st_sessions st !! x.2 = Some l -> busy st l = true
    end) as Hskip.
  { intros _ Hb. destruct (evict_from elems [] st) as [st' [|]].
    - destruct IH as (el0&id0&loc&rest&front&->&?&?&?&Hf). exists el0, id0, loc, rest, ((el, id) :: front).
      split_and!; try done. intros x [->|?]%elem_of_cons; [done|by apply Hf].
    - destruct IH as [-> Hf]. split; [done|]. intros x [->|?]%elem_of_cons; [done|by apply Hf]. }
  destruct (st_sessions st !! id) as [loc|] eqn:Hid; [|by apply (Hskip True)].
  cbn [head default from_option tail]. unfold Datatypes.id. cbv zeta. change (meanwhile [] st) with st.
  destruct (busy st loc) eqn:Hb; cbn [negb].
  - apply (Hskip True). by intros l [= <-].
  - exists el, id, loc, elems, []. split_and!; try done. by intros x ?%elem_of_nil.
Qed.
Definition idle (st : HubSessionStore) (id : string) : Prop := exists loc, st_sessions st !! id = Some loc /\ busy st loc = false.

(** What [initialize] gets.  A client at its cap is refused and nothing
    changes; below the global cap the session is added; at the global cap it
    replaces the least recently used of the sessions that have no call in
    flight, and if they all have one it is refused and nothing changes. *)
Theorem create_outcome opts now st client protoVer snap id now' :
  store_reached opts now st -> now <= now' -> st_sessions st !! id = None ->
  let '(st', r) := Create client protoVer snap (Ok id) now' [] st in
  if so_MaxPerClient (st_opts st) <=? Z.of_nat (client_sessions st client)
  then st' = st /\ (exists e, r = Err e /\ errors_Is e ErrSessionCapExceeded = true)
  else if Z.of_nat (size (st_sessions st)) <? so_MaxGlobal (st_opts st)
  then r = Ok (st_next st) /\ st_sessions st' = <[id := st_next st]> (st_sessions st)
  else (st' = st /\ (forall i, ~ idle st i) /\ exists e, r = Err e /\ errors_Is e ErrSessionCapExceeded = true) \/
       exists victim, idle st victim /\ (forall i, idle st i -> last_used st victim <= last_used st i) /\
         r = Ok (st_next st) /\ st_sessions st' = <[id := st_next st]> (delete victim (st_sessions st)).
Proof.
  intros Hok%store_reached_ok Hle Hid. unfold Create. rewrite (ok_count _ _ Hok).
  destruct (so_MaxPerClient (st_opts st) <=? _); [split; [done|]; by eexists|].
  rewrite Z.ltb_antisym. destruct (so_MaxGlobal (st_opts st) <=? _); cbn [negb]; [|done].
  unfold evictIdleLRULocked. pose proof (evict_plain (rev (st_lru st)) st) as He. destruct (evict_from _ [] st) as [st' [|]]; cbn [negb].
  - right. destruct He as (el&victim&loc&rest&front&Hl&Hv&Hb&->&Hf). exists victim. split_and!; [by exists loc| | |].
    + intros i (li&Hi&Hbi). apply (f_equal (@rev _)) in Hl. rewrite rev_involutive, rev_app_distr in Hl. cbn [rev] in Hl.
      rewrite <- app_assoc in Hl. cbn [app] in Hl. pose proof (ok_recent _ _ Hok) as Hs. rewrite Hl in Hs.
      assert (exists ei, (ei, i) ∈ st_lru st) as (ei&Hei).
      { destruct (index_of _ _ _ _ Hok Hi) as (ei&_&?). eauto. }
      rewrite Hl in Hei. apply elem_of_app in Hei as [Hei|[[= -> ->]|Hei]%elem_of_cons]; [|done|].
      * rewrite fmap_app, fmap_cons in Hs. apply (list_elem_of_fmap_2 (fun x => last_used st x.2)) in Hei.
        assert (last_used st i >= last_used st victim); [|lia].
        apply (StronglySorted_app_1_elem_of _ _ _ _ _ Hs Hei). by left.
      * rewrite <- Permutation_rev in Hei. specialize (Hf _ Hei li Hi). congruence.
    + by destruct (deleteLocked_frame victim st) as [_ ->].
    + cbn. destruct (deleteLocked_frame victim st) as [_ ->]. by rewrite deleteLocked_sessions.
  - left. destruct He as [-> Hf]. split_and!; [done| |by eexists]. intros i (li&Hi&Hbi).
    destruct (index_of _ _ _ _ Hok Hi) as (ei&_&Hei). specialize (Hf (ei, i)). rewrite (Hf ltac:(by rewrite <- Permutation_rev) li Hi) in Hbi. done.
Qed.

(** *** The sweep *)
Definition expired (st : HubSessionStore) (cutoff : time) (loc : nat) : bool :=
  match st_heap st !! loc with
  | Some sess => (InFlightCount sess =? 0) && Before (hs_LastUsedAt sess) cutoff
  | None => false
  end.
Lemma sweep_scan_plain cutoff rows st :
  sweep_scan cutoff rows [] st = (st, filter (fun row => expired st cutoff row.2 = true) rows).
Proof.
  induction rows as [|[id loc] rows IH]; [done|]. cbn [sweep_scan]. cbn [head default from_option tail]. unfold Datatypes.id. cbv zeta.
  change (meanwhile [] st) with st. rewrite IH, filter_cons. cbn [snd].
  destruct (expired st cutoff loc) eqn:E; [rewrite decide_True by done|rewrite decide_False by done]; unfold expired in E;
    destruct (st_heap st !! loc) as [sess|]; try done; destruct (InFlightCount sess =? 0), (Before _ _); done.
Qed.
Lemma sweep_delete_plain cands st id :
  NoDup cands.*2 -> (forall row, row ∈ cands -> st_sessions st !! row.1 = Some row.2) ->
  st_sessions (sweep_delete cands [] st) !! id = 
  match st_sessions st !! id with
  | Some loc => if bool_decide ((id, loc) ∈ cands) && negb (busy st loc) then None else Some loc
  | None => None
  end.
Proof.
  revert st. induction cands as [|[i l] cands IH]; intros st Hn Hc; [cbn; by destruct (st_sessions st !! id)|].
  cbn [sweep_delete head default from_option tail]. unfold Datatypes.id. cbv zeta. change (meanwhile [] st) with st.
  rewrite fmap_cons in Hn. apply NoDup_cons in Hn as [Hl Hn]. cbn in Hl.
  assert (forall row, row ∈ cands -> row.2 <> l) as Hne.
  { intros [i' l'] Hin. cbn. intros ->. apply Hl. by apply (list_elem_of_fmap_2 snd) in Hin. }
  pose proof (Hc (i, l) ltac:(by left)) as Hi. cbn in Hi.
  set (st1 := if negb (busy st l) then (deleteLocked i st).1 else st).
  assert (st_sessions st1 = if negb (busy st l) then delete i (st_sessions st) else st_sessions st) as Es.
  { unfold st1. destruct (negb _); [apply deleteLocked_sessions|done]. }
  assert (forall loc, loc <> l -> busy st1 loc = busy st loc) as Hb.
  { intros loc Hloc. unfold st1. destruct (negb _); [|done]. unfold busy. by rewrite deleteLocked_heap, Hi, lookup_alter_ne. }
  assert (forall loc, st_sessions st !! id = Some loc -> id <> i -> ((id, loc) ∈ (i, l) :: cands <-> (id, loc) ∈ cands)) as Hel.
  { intros loc _ Hid. rewrite elem_of_cons. naive_solver. }
  rewrite IH; [|done|].
  2: { intros row Hin. rewrite Es. destruct (negb _); [|apply Hc; by right]. rewrite lookup_delete_ne; [apply Hc; by right|].
       intros ->. apply (Hne row Hin). pose proof (Hc row ltac:(by right)). congruence. }
  rewrite Es. destruct (decide (id = i)) as [->|Hid].
  - rewrite Hi. rewrite (bool_decide_eq_true_2 ((i, l) ∈ (i, l) :: cands)) by by left. cbn [andb].
    destruct (busy st l) eqn:Hbl; cbn [negb]; [|by rewrite lookup_delete_eq]. rewrite Hi.
    destruct (bool_decide _) eqn:Ein; [|done]. apply bool_decide_eq_true in Ein. by apply Hne in Ein.
  - assert ((if negb (busy st l) then delete i (st_sessions st) else st_sessions st) !! id = st_sessions st !! id) as ->
      by (destruct (negb _); [by apply lookup_delete_ne|done]).
    destruct (st_sessions st !! id) as [loc|] eqn:Eloc; [|done]. rewrite (bool_decide_ext _ _ (Hel loc eq_refl Hid)).
    destruct (bool_decide ((id, loc) ∈ cands)) eqn:Ein; [|done]. apply bool_decide_eq_true in Ein. rewrite Hb; [done|].
    by apply (Hne (id, loc)).
Qed.
(** An undisturbed sweep removes exactly the sessions without a call that
    were last used longer ago than the timeout. *)
Lemma sweep_exact opts now st now' id :
  store_reached opts now st -> now <= now' ->
  id ∈ dom (st_sessions (sweepOnce now' [] [] st)) <->
  exists loc, st_sessions st !! id = Some loc /\ (busy st loc = true \/ now' - so_IdleTimeout (st_opts st) <= last_used st id).
Proof.
  intros Hok%store_reached_ok Hle. unfold sweepOnce. rewrite sweep_scan_plain. set (cutoff := now' - _). rewrite elem_of_dom.
  rewrite sweep_delete_plain.
  - destruct (st_sessions st !! id) as [loc|] eqn:Eid; [|split; [by intros [? ?]|by intros (?&?&_)]].
    destruct (scopes_lookup _ _ _ _ Hok Eid) as (sess&Hs&_&_).
    assert (busy st loc = negb (InFlightCount sess =? 0)) as Eb by (unfold busy; by rewrite Hs).
    assert (last_used st id = hs_LastUsedAt sess) as El by (unfold last_used, session_of; rewrite Eid; cbn; by rewrite Hs).
    assert (expired st cutoff loc = (InFlightCount sess =? 0) && (hs_LastUsedAt sess <? cutoff)) as Ee by (unfold expired; by rewrite Hs).
    assert ((id, loc) ∈ filter (fun row => expired st cutoff row.2 = true) (map_to_list (st_sessions st)) <-> expired st cutoff loc = true) as Hin.
    { rewrite list_elem_of_filter, elem_of_map_to_list. cbn. tauto. }
    rewrite (bool_decide_ext _ _ Hin), El, Eb, Ee. destruct (InFlightCount sess =? 0) eqn:E0; cbn [negb andb].
    2: { split; [intros _; exists loc; split; [done|left; by rewrite Eb]|intros _; by eexists]. }
    destruct (Z.ltb_spec (hs_LastUsedAt sess) cutoff) as [Hlt|Hlt]; cbn [bool_decide decide_rel].
    + rewrite bool_decide_eq_true_2 by done. cbn. split; [by intros [? ?]|]. intros (l&[= <-]&[Hb|?]); [by rewrite Eb in Hb|lia].
    + rewrite bool_decide_eq_false_2 by done. cbn. split; [intros _; exists loc; split; [done|by right]|intros _; by eexists].
  - apply NoDup_alt. intros i j l Hi Hj. apply list_lookup_fmap_Some in Hi as ([id1 l1]&->&E1). apply list_lookup_fmap_Some in Hj as ([id2 l2]&E&E2). cbn in E. subst l2.
    pose proof (list_elem_of_lookup_2 _ _ _ E1) as [_ M1%elem_of_map_to_list]%list_elem_of_filter.
    pose proof (list_elem_of_lookup_2 _ _ _ E2) as [_ M2%elem_of_map_to_list]%list_elem_of_filter.
    destruct (ok_sess _ _ Hok _ _ M1) as (s1&S1&I1), (ok_sess _ _ Hok _ _ M2) as (s2&S2&I2). assert (id1 = id2) as -> by congruence.
    eapply NoDup_lookup; [|exact E1|exact E2]. apply NoDup_filter, NoDup_map_to_list.
  - by intros [i l] [_ ?%elem_of_map_to_list]%list_elem_of_filter.
Qed.

(** *** Restarted daemons *)
Lemma tracks_mark port p s : tracksDaemonPort p (markStalePort port s).1 = tracksDaemonPort p s.
Proof. unfold markStalePort. by destruct (negb _). Qed.
Lemma mark_generation port p s :
  stalePortStateFor p (markStalePort port s).1 =
  if (port =? p) && tracksDaemonPort p s then Some (u64_add (default 0 (stalePortStateFor p s)) 1) else stalePortStateFor p s.
Proof.
  unfold markStalePort, stalePortStateFor. destruct (Z.eqb_spec port p) as [->|Hne]; cbn [andb].
  - destruct (tracksDaemonPort p s); [|done]. cbn. by rewrite lookup_insert_eq.
  - destruct (tracksDaemonPort port s); [|done]. cbn. by rewrite lookup_insert_ne.
Qed.
Lemma mark_all_plain port locs st l :
  NoDup locs ->
  st_heap (mark_all port locs [] st).1 !! l =
  if bool_decide (l ∈ locs) then (fun s => (markStalePort port s).1) <$> st_heap st !! l else st_heap st !! l.
Proof.
  revert st. induction locs as [|x locs IH]; intros st Hn; [done|]. apply NoDup_cons in Hn as [Hx Hn].
  cbn [mark_all head default from_option tail]. unfold Datatypes.id. cbv zeta. change (meanwhile [] st) with st.
  assert (l <> x -> bool_decide (l ∈ x :: locs) = bool_decide (l ∈ locs)) as Hne.
  { intros Hl. apply bool_decide_ext. rewrite elem_of_cons. naive_solver. }
  destruct (st_heap st !! x) as [sess|] eqn:Hs.
  - destruct (markStalePort port sess) as [sess' ok] eqn:Em. specialize (IH (st <| st_heap ::= insert x sess' |>) Hn).
    destruct (mark_all port locs [] _) as [st' n]. cbn [fst] in *. rewrite IH. cbn.
    destruct (decide (l = x)) as [->|Hl].
    + rewrite lookup_insert_eq, Hs. rewrite bool_decide_eq_false_2 by done. rewrite bool_decide_eq_true_2 by by left. cbn. by rewrite Em.
    + rewrite lookup_insert_ne by done. by rewrite (Hne Hl).
  - rewrite IH by done. destruct (decide (l = x)) as [->|Hl]; [|by rewrite (Hne Hl)].
    rewrite Hs. by destruct (bool_decide _), (bool_decide _).
Qed.
Lemma mark_all_sessions port locs races st : st_sessions (mark_all port locs races st).1 = st_sessions st.
Proof.
  revert races st. induction locs as [|x locs IH]; intros races st; [done|]. cbn [mark_all]. cbv zeta.
  destruct (meanwhile_frame (default [] (head races)) st) as (_&_&E&_). destruct (st_heap _ !! x) as [sess|]; [|by rewrite IH].
  destruct (markStalePort port sess) as [sess' ok]. match goal with |- context [mark_all port locs ?r ?s] => specialize (IH r s) end.
  destruct (mark_all port locs _ _) as [st' n]. cbn [fst] in *. by rewrite IH.
Qed.
(** A port is marked in every session of the store that uses it. *)
Lemma mark_port_sessions now port st id :
  store_ok now st -> session_of (MarkPortStale port [] st).1 id = (fun s => (markStalePort port s).1) <$> session_of st id.
Proof.
  intros Hok. unfold MarkPortStale, session_of. rewrite mark_all_sessions. destruct (st_sessions st !! id) as [loc|] eqn:E; [|done].
  cbn. rewrite mark_all_plain.
  - rewrite bool_decide_eq_true_2; [done|]. apply list_elem_of_fmap. exists (id, loc). split; [done|]. by apply elem_of_map_to_list.
  - apply NoDup_alt. intros i j l Hi Hj. apply list_lookup_fmap_Some in Hi as ([id1 l1]&->&E1).
    apply list_lookup_fmap_Some in Hj as ([id2 l2]&E12&E2). cbn in E12. subst l2.
    pose proof (list_elem_of_lookup_2 _ _ _ E1) as M1%elem_of_map_to_list. pose proof (list_elem_of_lookup_2 _ _ _ E2) as M2%elem_of_map_to_list.
    destruct (ok_sess _ _ Hok _ _ M1) as (s1&S1&I1), (ok_sess _ _ Hok _ _ M2) as (s2&S2&I2). assert (id1 = id2) as -> by congruence.
    eapply NoDup_lookup; [|exact E1|exact E2]. apply NoDup_map_to_list.
Qed.

(** The status shows another process on a port than the one last seen. *)
Definition restarted (rows : list DaemonStatus) (last : gmap Z Z) (port : Z) : bool :=
  existsb (fun r => (dst_Port r =? port) && negb (dst_PID r =? 0) &&
    match last !! port with Some prev => negb (prev =? dst_PID r) | None => false end) rows.
Definition bound (r : DaemonStatus) : bool := negb ((dst_Port r =? 0) || (dst_PID r =? 0)).
Lemma restarted_other rows last port v p :
  port <> p -> restarted rows (<[port := v]> last) p = restarted rows last p.
Proof. intros Hne. unfold restarted. by rewrite lookup_insert_ne. Qed.
Lemma restarted_absent rows last port :
  port ∉ dst_Port <$> filter (fun r => bound r = true) rows -> port <> 0 -> restarted rows last port = false.
Proof.
  intros Hn H0. apply not_true_iff_false. intros (r&Hin&Hr)%existsb_exists. breflect. destruct Hr as [[<- Hp] _].
  apply Hn, list_elem_of_fmap. exists r. split; [done|]. apply list_elem_of_filter. split; [|by apply list_elem_of_In].
  unfold bound. by rewrite (proj2 (Z.eqb_neq _ _) H0), (proj2 (Z.eqb_neq _ _) Hp).
Qed.

(** One observation of the supervisor's status marks exactly what has
    restarted: in every session of the store the generation of a port goes up
    by one if the session uses the port and another process than before serves
    it, and stays otherwise. *)
Theorem watcher_marks_restarts opts now st rows w id s :
  store_reached opts now st -> NoDup (dst_Port <$> filter (fun r => bound r = true) rows) -> session_of st id = Some s ->
  exists s', session_of (checkOnce (Ok rows) w st).2 id = Some s' /\
    forall port, stalePortStateFor port s' =
      if tracksDaemonPort port s && restarted rows (rw_lastPID w) port
      then Some (u64_add (default 0 (stalePortStateFor port s)) 1) else stalePortStateFor port s.
Proof.
  intros Hok%store_reached_ok. unfold checkOnce. generalize (rw_lastPID w) as last. intros last.
  assert (forall rows last st s, store_ok now st -> NoDup (dst_Port <$> filter (fun r => bound r = true) rows) -> session_of st id = Some s ->
    exists s', session_of (watch_rows rows last st).2 id = Some s' /\ forall port, stalePortStateFor port s' =
      if tracksDaemonPort port s && restarted rows last port
      then Some (u64_add (default 0 (stalePortStateFor port s)) 1) else stalePortStateFor port s) as Hg.
  2: { intros Hn Hs. destruct (Hg rows last st s Hok Hn Hs) as (s'&H1&H2). exists s'. destruct (watch_rows _ _ _). by split. }
  clear. induction rows as [|r rows IH]; intros last st s Hok Hn Hs.
  { exists s. split; [done|]. intros port. cbn. by rewrite andb_false_r. }
  assert (bound r = negb ((dst_Port r =? 0) || (dst_PID r =? 0))) as Ebr by done.
  cbn [watch_rows]. rewrite filter_cons in Hn. destruct ((dst_Port r =? 0) || (dst_PID r =? 0)) eqn:Eb; cbn [negb] in Ebr.
  - rewrite decide_False in Hn by congruence. destruct (IH last st s Hok Hn Hs) as (s'&H1&H2). exists s'. split; [done|].
    intros port. rewrite H2. destruct (tracksDaemonPort port s) eqn:Et; [|done]. cbn [andb]. unfold restarted. cbn [existsb].
    destruct (Z.eqb_spec (dst_Port r) port) as [<-|Hne]; [|done]. cbn [andb]. unfold tracksDaemonPort in Et.
    apply andb_true_iff in Et as [Et _]. apply negb_true_iff in Et. rewrite Et in Eb. cbn [orb] in Eb. by rewrite Eb.
  - rewrite decide_True in Hn by done. clear Ebr. rewrite fmap_cons in Hn. apply NoDup_cons in Hn as [Hr Hn]. apply orb_false_iff in Eb as [E0 Ep].
    set (st1 := match last !! dst_Port r with
                | Some prev => if negb (prev =? dst_PID r) then (MarkPortStale (dst_Port r) [] st).1 else st
                | None => st
                end).
    set (hit := match last !! dst_Port r with Some prev => negb (prev =? dst_PID r) | None => false end).
    assert (st1 = if hit then (MarkPortStale (dst_Port r) [] st).1 else st) as Est1 by (unfold st1, hit; by destruct (last !! dst_Port r)).
    assert (store_ok now st1) as Hok1 by (rewrite Est1; destruct hit; [by apply mark_all_ok|done]).
    set (s1 := if hit then (markStalePort (dst_Port r) s).1 else s).
    assert (session_of st1 id = Some s1) as Hs1.
    { rewrite Est1. unfold s1. destruct hit; [|done]. by rewrite (mark_port_sessions now), Hs. }
    destruct (IH (<[dst_Port r := dst_PID r]> last) st1 s1 Hok1 Hn Hs1) as (s'&H1&H2). exists s'. split; [done|]. intros port. rewrite H2.
    assert (tracksDaemonPort port s1 = tracksDaemonPort port s) as -> by (unfold s1; destruct hit; [apply tracks_mark|done]).
    unfold restarted at 2. cbn [existsb]. fold (restarted rows last port).
    destruct (Z.eqb_spec (dst_Port r) port) as [<-|Hne].
    + rewrite restarted_absent by (done || by apply Z.eqb_neq). rewrite (restarted_absent rows last) by (done || by apply Z.eqb_neq).
      rewrite Ep. cbn [negb andb]. fold hit. rewrite orb_false_r, andb_false_r. unfold s1. destruct hit; [|by rewrite andb_false_r].
      rewrite mark_generation, Z.eqb_refl, andb_true_r. done.
    + rewrite restarted_other by done. cbn [andb orb]. assert (stalePortStateFor port s1 = stalePortStateFor port s) as ->; [|done].
      unfold s1. destruct hit; [|done]. rewrite mark_generation. by destruct (Z.eqb_spec (dst_Port r) port).
Qed.

(** ** What never changes of a session *)
Definition same_identity (s s' : hubSession) : Prop :=
  hs_ClientSessionID s' = hs_ClientSessionID s /\ hs_ScopeKey s' = hs_ScopeKey s /\
  (hs_ProtocolVersion s <> "" -> hs_ProtocolVersion s' = hs_ProtocolVersion s).
#[export] Instance same_identity_preorder : PreOrder same_identity.
Proof.
  split; [done|]. intros a b c (H1 & H2 & H3) (H4 & H5 & H6). split_and!; [congruence..|]. intros Hne. specialize (H3 Hne).
  rewrite H6; congruence.
Qed.
Lemma act_identity a s : same_identity s (act_on a s).
Proof.
  destruct a as [key entry|key|port]; cbn.
  - unfold InsertInFlight. by destruct (_ !! _).
  - unfold RemoveInFlight. by destruct (_ !! _).
  - unfold markStalePort. by destruct (negb _).
Qed.

(** ** Witnesses *)
Definition small_opts : SessionStoreOpts := mkOpts 1 2 0 0.
Definition demo_ref : canonicalDaemonRef := mkRef "serena" "codex" 9125.
Definition demo_entry : inflightEntry := mkInflight demo_ref "sid" "2025-11-25" "hub-1" 5.
Definition st_a : HubSessionStore := run_store (OpCreate "a" "v" (Some demo_snapshot) (Ok "id-a") []) 0 (NewHubSessionStore small_opts).
Definition st_ab : HubSessionStore := run_store (OpCreate "codex-cli" "v" (Some demo_snapshot) (Ok "id-b") []) 10 st_a.
Definition st_busy : HubSessionStore := run_store (OpMeanwhile [(0%nat, ActInsert "n:1" demo_entry)]) 11 st_ab.
Lemma demo_store_reached : store_reached small_opts 11 st_busy.
Proof.
  apply (store_step _ _ 10); [|lia|done].
  apply (store_step _ _ 0); [|lia|by intros ? ? ? ? ? [= _ _ _ <- _]].
  apply (store_step _ _ 0); [apply store_new|lia|by intros ? ? ? ? ? [= _ _ _ <- _]].
Qed.
(** The older session has a call in flight, so the younger makes room. *)
Definition st_evicted : HubSessionStore := run_store (OpCreate "c" "v" None (Ok "id-c") []) 12 st_busy.
Example older_busy_kept : st_sessions st_evicted = {["id-a" := 0%nat; "id-c" := 2%nat]}.
Proof. vm_compute. reflexivity. Qed.
Example duplicate_call_keeps_first :
  (fun s => let r := InsertInFlight "n:1" (mkInflight (mkRef "other" "d" 1) "" "" "" 9) s in (LookupInFlight "n:1" r.1, InFlightCount r.1, r.2)) <$>
    session_of st_busy "id-a" = Some (Some demo_entry, 1, false).
Proof. vm_compute. reflexivity. Qed.

Lemma store_invariant_witness : dom (st_lruIndex st_busy) = dom (st_sessions st_busy).
Proof. apply (store_invariant small_opts 11 st_busy demo_store_reached). Defined.
Lemma busy_session_stays_witness : holds "id-a" 0 "n:1" demo_entry st_evicted.
Proof.
  apply (busy_session_stays small_opts 11 st_busy (OpCreate "c" "v" None (Ok "id-c") []) 12 "id-a" 0 "n:1" demo_entry).
  - exact demo_store_reached.
  - lia.
  - split; [vm_compute; reflexivity|]. eexists. split; vm_compute; reflexivity.
  - done.
  - intros l H. by apply elem_of_nil in H.
  - intros client protoVer snap i races H. injection H as _ _ _ <- _. vm_compute. reflexivity.
Defined.
Lemma create_outcome_witness :
  (Create "c" "v" None (Ok "id-c") 12 [] st_busy).2 = Ok 2%nat.
Proof.
  pose proof (create_outcome small_opts 11 st_busy "c" "v" None "id-c" 12 demo_store_reached ltac:(lia) ltac:(vm_compute; reflexivity)) as H.
  destruct (Create "c" "v" None (Ok "id-c") 12 [] st_busy) as [st' r] eqn:E. cbn [snd].
  change (so_MaxPerClient (st_opts st_busy) <=? Z.of_nat (client_sessions st_busy "c")) with false in H.
  change (Z.of_nat (size (st_sessions st_busy)) <? so_MaxGlobal (st_opts st_busy)) with false in H. cbv beta iota in H.
  destruct H as [(_&Hi&_)|(v&_&_&->&_)]; [|vm_compute; reflexivity].
  exfalso. apply (Hi "id-b"). exists 1%nat. split; vm_compute; reflexivity.
Defined.
Lemma watcher_marks_restarts_witness :
  exists s', session_of (checkOnce (Ok [mkStatus 9125 77]) (mkWatcher {[9125 := 42]} 0) st_busy).2 "id-b" = Some s' /\
    stalePortStateFor 9125 s' = Some 1.
Proof.
  destruct (session_of st_busy "id-b") as [s|] eqn:Es; [|vm_compute in Es; discriminate].
  destruct (watcher_marks_restarts small_opts 11 st_busy [mkStatus 9125 77] (mkWatcher {[9125 := 42]} 0) "id-b" s demo_store_reached) as (s'&H1&H2).
  - apply (bool_decide_unpack _). vm_compute. reflexivity.
  - exact Es.
  - exists s'. split; [exact H1|]. rewrite H2. vm_compute in Es. injection Es as <-. vm_compute. reflexivity.
Defined.
