(* ===== verification/ToolCalls.v ===== *)
(** * ToolCalls: a tools/call through the hub.

    [AggregateToolsCall], [ForwardCancellation] and the re-initialisation of
    daemon sessions of [api/hub_mcp_aggregator.go].  Many calls,
    cancellations and handshakes share one hub session, so a call is an
    interaction tree: every critical section of the session, every look at
    the published snapshot and every exchange with a daemon is one step,
    between which anything may happen. *)
From S2P Require Import Prelude GoTime Trace RequestId Resolver Sessions.
From ITree Require Import ITree.
Open Scope Z_scope.

(** ** The library's part *)

(** JSON: the [name] of a text decoded into a struct, its fields as raw
    texts ([None] is the nil map of [null]), the text of a map, of a string,
    of an error envelope and of a tools/call envelope. *)
Record json_lib := mkJsonLib {
  jl_reader : json_reader;
  jl_name : string -> res string;
  jl_fields : string -> res (option (gmap string string));
  jl_object : gmap string string -> res string;
  jl_string : string -> res string;
  jl_error : string -> Z -> string -> res string;
  jl_call : string -> string -> res string;
}.

(** What Go's error inspection sees of a failed exchange. *)
Record post_error := mkPostError {
  pe_text : string;
  pe_http : bool;
  pe_deadline : bool;
  pe_canceled : bool;
  pe_timeout : bool;
  pe_dial : bool;
  pe_refused : bool;
}.
Definition isRetriableTransportFailure (e : post_error) : bool :=
  if pe_http e then false
  else if pe_deadline e || pe_canceled e then false
  else if pe_timeout e then false
  else if pe_dial e then true
  else pe_refused e.

(** ** Steps *)

(** What a critical section reads of the cache for one daemon: its session,
    the protocol version and the generation kept with it, and the version of
    the hub's session. *)
Record cache_view := mkView { cv_sid : option string; cv_proto : string; cv_gen : Z; cv_sessProto : string }.

Inductive hubE : Type -> Type :=
| LoadRouteMap : hubE (option (gmap string canonicalToolRef))
| LoadSnapshot : hubE (option ResolverSnapshot)
| ReadCache (ref : canonicalDaemonRef) : hubE cache_view
| ReadProtocolVersion : hubE string
| ReadGeneration (port : Z) : hubE (option Z)
| HexToken : hubE (res string)
| Now : hubE time
| Insert (key : string) (entry : inflightEntry) : hubE bool
| Remove (key : string) : hubE unit
| Lookup (key : string) : hubE (option inflightEntry)
| PostCall (ref : canonicalDaemonRef) (sid proto reqID body : string) : hubE (string + post_error)
| PostCancel (ref : canonicalDaemonRef) (sid proto reqID : string) : hubE unit
| JoinFlight (ref : canonicalDaemonRef) (protoVer : string) : hubE (res daemonInitState)
| DialInitialize (ref : canonicalDaemonRef) (protoVer : string) : hubE unit
| AwaitInitialize (ref : canonicalDaemonRef) : hubE (res (string * string))
| PostInitialized (ref : canonicalDaemonRef) (sid proto : string) : hubE (option error)
| PostDelete (ref : canonicalDaemonRef) (sid proto : string) : hubE unit
| Cache (ref : canonicalDaemonRef) (sid negotiated protoVer : string) (flightGen : Z) : hubE (string * bool)
| LandFlight (ref : canonicalDaemonRef) (result : res daemonInitState) : hubE unit.

(** ** Handshakes *)

(** [initializeDaemonSession] *)
Definition initializeDaemonSession (ref : canonicalDaemonRef) (protoVer : string) : itree hubE (res (string * string)) :=
  do! DialInitialize ref protoVer in
  call! r := AwaitInitialize ref in
  match r with
  | Err e => Ret (Err e)
  | Ok (sid, negotiated) =>
      call! notifyErr := PostInitialized ref sid negotiated in
      match notifyErr with
      | None => Ret (Ok (sid, negotiated))
      | Some e => do! PostDelete ref sid negotiated in Ret (Err (wrapf "notifications/initialized" e))
      end
  end.

(** [AggregateInitialize], once the handshakes with the intended
    participants have ended; [results] are theirs, in order. *)
Definition hubProtocolVersionFallback : string := "2025-11-25".
Definition protocol_or_fallback (s : hubSession) : string :=
  if hs_ProtocolVersion s =s "" then hubProtocolVersionFallback else hs_ProtocolVersion s.
#[export] Instance set_hs_ProtocolVersion : Setter hs_ProtocolVersion := ltac:(derive_setter session_eta hs_ProtocolVersion).
#[export] Instance set_hs_InitFailures : Setter hs_InitFailures := ltac:(derive_setter session_eta hs_InitFailures).
#[export] Instance set_hs_RouteMap : Setter hs_RouteMap := ltac:(derive_setter session_eta hs_RouteMap).
Definition apply_init_result (s : hubSession) (r : canonicalDaemonRef * res (string * string)) : hubSession :=
  match r.2 with
  | Err e => s <| hs_InitFailures ::= (fun l => l ++ [mkDaemonFailure (cr_Server r.1) (cr_Daemon r.1) "initialize" (err_text e)]) |>
  | Ok (sid, negotiated) =>
      s <| hs_InitSuccesses ::= insert r.1 sid |> <| hs_DaemonProtoVer ::= insert r.1 negotiated |>
  end.
Definition AggregateInitialize (results : list (res (string * string))) (s : hubSession) : hubSession :=
  let s := s <| hs_ProtocolVersion := protocol_or_fallback s |> in
  foldl apply_init_result s (zip (hs_IntendedParticipants s) results).

(** [cacheReinitResult], one critical section. *)
Definition sameDaemonIdentity (a b : canonicalDaemonRef) : bool :=
  (cr_Server a =s cr_Server b) && (cr_Daemon a =s cr_Daemon b).
(** The keys the loops drop: the same daemon at another port. *)
Definition moved (ref cachedRef : canonicalDaemonRef) : bool :=
  sameDaemonIdentity cachedRef ref && negb (bool_decide (cachedRef = ref)).
Definition drop_moved {V} (ref : canonicalDaemonRef) (m : gmap canonicalDaemonRef V) : gmap canonicalDaemonRef V :=
  filter (fun kv => moved ref kv.1 = false) m.
(** Generations go with the entry of [InitSuccesses] that is dropped. *)
Definition drop_generations (ref : canonicalDaemonRef) (successes : gmap canonicalDaemonRef string)
    (gens : gmap canonicalDaemonRef Z) : gmap canonicalDaemonRef Z :=
  filter (fun kv => moved ref kv.1 && bool_decide (is_Some (successes !! kv.1)) = false) gens.
Definition cacheReinitResult (ref : canonicalDaemonRef) (sid negotiated protoVer : string) (flightGen : Z) (s : hubSession) :
    hubSession * (string * bool) :=
  let proto := if negotiated =s "" then protoVer else negotiated in
  if hs_deleteStarted s then (s, (proto, false))
  else
    (s <| hs_InitSuccesses := <[ref := sid]> (drop_moved ref (hs_InitSuccesses s)) |>
       <| hs_InitSuccessGen := <[ref := flightGen]> (drop_generations ref (hs_InitSuccesses s) (hs_InitSuccessGen s)) |>
       <| hs_DaemonProtoVer := <[ref := proto]> (drop_moved ref (hs_DaemonProtoVer s)) |>,
     (proto, true)).

(** The function of a flight of [reinitGroup]: it runs on its own goroutine,
    under no caller's context, and lands with a result for all who joined. *)
Definition errHubSessionDeletedDuringReinit : error :=
  sentinel "errHubSessionDeletedDuringReinit" "hub session deleted during daemon reinit".
Definition flight (ref : canonicalDaemonRef) (protoVer : string) : itree hubE unit :=
  call! st := ReadGeneration (cr_Port ref) in
  let flightGen := default 0 st in
  ITree.bind (initializeDaemonSession ref protoVer) (fun r =>
    match r with
    | Err e => do! LandFlight ref (Err e) in Ret tt
    | Ok (sid, negotiated) =>
        call! (proto, cached) := Cache ref sid negotiated protoVer flightGen in
        if (cached : bool) then do! LandFlight ref (Ok (mkInitState sid proto)) in Ret tt
        else
          do! PostDelete ref sid proto in
          do! LandFlight ref (Err errHubSessionDeletedDuringReinit) in
          Ret tt
    end).

(** ** A tools/call *)
Section Call.
Variable J : json_lib.
(** Of the hub's session, what never changes once it serves calls. *)
Variables (scopeKey : string) (snapshotAtInit : option ResolverSnapshot).

(** What the handler gets: a body, an error, or a panic. *)
Inductive call_result := Body (b : string) | Failed (e : error) | Panicked.
Definition of_res (r : res string) : call_result := match r with Ok b => Body b | Err e => Failed e end.
Definition buildJSONRPCError (id : string) (code : Z) (message : string) : call_result := of_res (jl_error J id code message).

Definition tool_at (ref : canonicalToolRef) (port : Z) : canonicalToolRef :=
  mkToolRef (tr_Server ref) (tr_Daemon ref) port (tr_RawName ref).
Definition daemon_at (ref : canonicalToolRef) (port : Z) : canonicalDaemonRef := mkRef (tr_Server ref) (tr_Daemon ref) port.
Definition daemon_of_tool (ref : canonicalToolRef) : canonicalDaemonRef := daemon_at ref (tr_Port ref).
(** The protocol version to use for a cached session. *)
Definition view_proto (v : cache_view) : string := if cv_proto v =s "" then cv_sessProto v else cv_proto v.

(** Snapshots are compared by pointer: by their generation. *)
Definition same_snapshot (a b : option ResolverSnapshot) : bool :=
  match a, b with
  | Some a, Some b => rs_Gen a =? rs_Gen b
  | None, None => true
  | _, _ => false
  end.

Definition cachedDaemonInitState (ref : canonicalDaemonRef) : itree hubE (option daemonInitState) :=
  call! v := ReadCache ref in
  Ret (sid ← cv_sid v; Some (mkInitState sid (view_proto v))).

Record resolvedCallTarget := mkTarget { ct_ref : canonicalToolRef; ct_daemonSID : string; ct_daemonProto : string }.
Definition moved_out : string := "tool moved out of scope; reinitialize session".
(** The daemon's session for a route that has been revalidated. *)
Definition target_session (id : string) (ref : canonicalToolRef) : itree hubE (resolvedCallTarget + call_result) :=
  call! v := ReadCache (daemon_of_tool ref) in
  match cv_sid v with
  | None => Ret (inr (buildJSONRPCError id (-32603) "Internal error: no daemon session id for target"))
  | Some sid => Ret (inl (mkTarget ref sid (view_proto v)))
  end.
Definition revalidate_route (id : string) (ref : canonicalToolRef) : itree hubE (resolvedCallTarget + call_result) :=
  call! current := LoadSnapshot in
  if negb (bool_decide (current = None)) && negb (same_snapshot current snapshotAtInit) then
    match liveDaemonBinding current scopeKey (daemon_of_tool ref) with
    | None => Ret (inr (buildJSONRPCError id (-32601) moved_out))
    | Some liveRef =>
        if snapshotHidesTool current scopeKey ref then Ret (inr (buildJSONRPCError id (-32601) moved_out))
        else if negb (cr_Port liveRef =? tr_Port ref) then
          ITree.bind (cachedDaemonInitState liveRef) (fun state =>
            match state with
            | Some st => Ret (inl (mkTarget (tool_at ref (cr_Port liveRef)) (is_SessionID st) (is_ProtocolVersion st)))
            | None => Ret (inr (buildJSONRPCError id (-32601) moved_out))
            end)
        else target_session id ref
    end
  else target_session id ref.
Definition resolveToolsCallRoute (id paramsRaw : string) : itree hubE (resolvedCallTarget + call_result) :=
  match jl_name J paramsRaw with
  | Err e => Ret (inr (buildJSONRPCError id (-32602) ("Invalid params: " +:+ err_text e)))
  | Ok name =>
      if name =s "" then Ret (inr (buildJSONRPCError id (-32602) "Invalid params: missing name"))
      else
        call! routes := LoadRouteMap in
        match routes with
        | None => Ret (inr (buildJSONRPCError id (-32601) ("Method not found: " +:+ name)))
        | Some routes =>
            match (routes : gmap string canonicalToolRef) !! name with
            | None => Ret (inr (buildJSONRPCError id (-32601) ("Method not found: " +:+ name)))
            | Some ref => revalidate_route id ref
            end
        end
  end.

(** ** Sessions that have gone stale *)
Definition currentDaemonPort (ref : canonicalToolRef) (snap : option ResolverSnapshot) : Z :=
  match snap with
  | None => tr_Port ref
  | Some s =>
      match find (same_daemon (tr_Server ref) (tr_Daemon ref)) (bindings s scopeKey) with
      | Some b => cr_Port b
      | None => tr_Port ref
      end
  end.
(** [reinitializeDaemonBinding]: join the flight of this daemon, or start it. *)
Definition reinitializeDaemonBinding (ref : canonicalDaemonRef) : itree hubE (res daemonInitState) :=
  call! protoVer := ReadProtocolVersion in
  call! r := JoinFlight ref protoVer in
  Ret r.
Definition reinitDaemonSession (ref : canonicalToolRef) : itree hubE (option (daemonInitState * Z)) :=
  call! snap := LoadSnapshot in
  let port := currentDaemonPort ref snap in
  ITree.bind (reinitializeDaemonBinding (daemon_at ref port)) (fun r =>
    match r with Err _ => Ret None | Ok state => Ret (Some (state, port)) end).

Definition maxProactiveReinitAttempts : nat := 3.
(** The loop, with the attempts that remain. *)
Fixpoint refresh_loop (remaining : nat) (ref : canonicalToolRef) (daemonSID daemonProto : string) :
    itree hubE (string * string * Z) :=
  call! snap := LoadSnapshot in
  let port := currentDaemonPort ref snap in
  call! v := ReadCache (daemon_at ref port) in
  call! cur := ReadGeneration port in
  let curGen := default 0 cur in
  match cv_sid v with
  | Some freshSID =>
      if curGen <=? cv_gen v then Ret (freshSID, view_proto v, port)
      else
        match remaining with
        | O => Ret (freshSID, view_proto v, port)
        | S remaining =>
            ITree.bind (reinitDaemonSession ref) (fun r =>
              match r with
              | None => Ret (daemonSID, daemonProto, tr_Port ref)
              | Some _ => refresh_loop remaining ref daemonSID daemonProto
              end)
        end
  | None =>
      match remaining with
      | O => Ret (daemonSID, daemonProto, tr_Port ref)
      | S remaining =>
          ITree.bind (reinitDaemonSession ref) (fun r =>
            match r with
            | None => Ret (daemonSID, daemonProto, tr_Port ref)
            | Some _ => refresh_loop remaining ref daemonSID daemonProto
            end)
      end
  end.
Definition refreshStalePortBeforeDispatch (ref : canonicalToolRef) (daemonSID daemonProto : string) :
    itree hubE (string * string * Z) :=
  call! st := ReadGeneration (tr_Port ref) in
  match st with
  | None => Ret (daemonSID, daemonProto, tr_Port ref)
  | Some _ => refresh_loop maxProactiveReinitAttempts ref daemonSID daemonProto
  end.

(** ** The exchange *)

(** [buildRewrittenParams]; [None] is the panic of a nil map. *)
Definition buildRewrittenParams (rawName paramsRaw : string) : option (res string) :=
  match jl_fields J paramsRaw with
  | Err e => Some (Err e)
  | Ok m =>
      match jl_string J rawName with
      | Err e => Some (Err e)
      | Ok nameRaw => m ← m; Some (jl_object J (<["name" := nameRaw]> m))
      end
  end.
Definition rewriteResponseID (body clientReqID : string) : call_result :=
  match jl_fields J body with
  | Err e => Failed e
  | Ok None => Failed (errors_New "daemon response body is not a JSON object")
  | Ok (Some m) => of_res (jl_object J (<["id" := clientReqID]> m))
  end.
(** [generateDaemonRequestID], from the 64 digits of a token *)
Definition daemon_request_id (tok : string) : string :=
  String "034" ("hub-" +:+ (if Nat.ltb 16 (String.length tok) then String.substring 0 16 tok else tok) +:+ String "034" "").

Definition plain_error (e : error) : post_error := mkPostError (err_text e) false false false false false false.
Definition postToolsCall (ref : canonicalDaemonRef) (sid proto reqID params : string) : itree hubE (string + post_error) :=
  match jl_call J reqID params with
  | Err e => Ret (inr (plain_error e))
  | Ok body => call! r := PostCall ref sid proto reqID body in Ret r
  end.

(** One more try, once the first has not reached the daemon: [None] is a
    failure, whatever it is. *)
Definition selfHealRetry (ref : canonicalToolRef) (key params : string) : itree hubE (option string) :=
  ITree.bind (reinitDaemonSession ref) (fun r =>
    match r with
    | None => Ret None
    | Some (st, port) =>
        call! tok := HexToken in
        match tok with
        | Err _ => Ret None
        | Ok tok =>
            let retryReqID := daemon_request_id tok in
            do! Remove key in
            call! now := Now in
            call! _ := Insert key (mkInflight (daemon_at ref port) (is_SessionID st) (is_ProtocolVersion st) retryReqID now) in
            ITree.bind (postToolsCall (daemon_at ref port) (is_SessionID st) (is_ProtocolVersion st) retryReqID params) (fun r =>
              match r with inl body => Ret (Some body) | inr _ => Ret None end)
        end
    end).

(** The exchange between the insertion of the row and its removal. *)
Definition exchange (id : string) (ref : canonicalToolRef) (sid proto reqID key params : string) : itree hubE call_result :=
  ITree.bind (postToolsCall (daemon_of_tool ref) sid proto reqID params) (fun r =>
    match r with
    | inl body => Ret (rewriteResponseID body id)
    | inr e =>
        let failure := buildJSONRPCError id (-32000) ("tools/call failed: " +:+ pe_text e) in
        if isRetriableTransportFailure e then
          ITree.bind (selfHealRetry ref key params) (fun r =>
            match r with Some body => Ret (rewriteResponseID body id) | None => Ret failure end)
        else Ret failure
    end).
Definition dispatchToolsCall (id paramsRaw : string) (t : resolvedCallTarget) : itree hubE call_result :=
  ITree.bind (refreshStalePortBeforeDispatch (ct_ref t) (ct_daemonSID t) (ct_daemonProto t)) (fun '(sid, proto, port) =>
    let ref := tool_at (ct_ref t) port in
    match buildRewrittenParams (tr_RawName ref) paramsRaw with
    | None => Ret Panicked
    | Some (Err e) => Ret (buildJSONRPCError id (-32603) ("Internal error: " +:+ err_text e))
    | Some (Ok params) =>
        call! tok := HexToken in
        match tok with
        | Err e => Ret (buildJSONRPCError id (-32603) ("Internal error: " +:+ err_text e))
        | Ok tok =>
            let reqID := daemon_request_id tok in
            match newRequestIDKey (jl_reader J) id with
            | Err e => Ret (buildJSONRPCError id (-32600) (err_text e))
            | Ok key =>
                call! now := Now in
                call! inserted := Insert key (mkInflight (daemon_of_tool ref) sid proto reqID now) in
                if negb (inserted : bool)
                then Ret (buildJSONRPCError id (-32600) "duplicate request id; original call still in flight")
                else
                  ITree.bind (exchange id ref sid proto reqID key params) (fun r =>
                    do! Remove key in Ret r)
            end
        end
    end).
Definition AggregateToolsCall (id paramsRaw : string) : itree hubE call_result :=
  ITree.bind (resolveToolsCallRoute id paramsRaw) (fun t =>
    match t with
    | inr r => Ret r
    | inl t => dispatchToolsCall id paramsRaw t
    end).

(** [ForwardCancellation]; the row stays. *)
Definition ForwardCancellation (clientReqID : string) : itree hubE unit :=
  match newRequestIDKey (jl_reader J) clientReqID with
  | Err _ => Ret tt
  | Ok key =>
      call! row := Lookup key in
      match (row : option inflightEntry) with
      | None => Ret tt
      | Some entry =>
          call! sessProto := ReadProtocolVersion in
          let proto := if if_DaemonProtocol entry =s "" then sessProto else if_DaemonProtocol entry in
          do! PostCancel (if_DaemonRef entry) (if_DaemonSessionID entry) proto (if_DaemonRequestID entry) in
          Ret tt
      end
  end.
End Call.

(** ** Properties *)
Notation events := (list (ev hubE)).

(** What a step sends to a daemon as a tools/call, and its answer. *)
Record post := mkPost {
  po_ref : canonicalDaemonRef; po_sid : string; po_proto : string; po_reqID : string; po_body : string;
  po_answer : string + post_error;
}.
Definition post_of (l : ev hubE) : option post :=
  match l with
  | Log e x =>
      match e in hubE Y return Y -> option post with
      | PostCall ref sid proto reqID body => fun r => Some (mkPost ref sid proto reqID body r)
      | _ => fun _ => None
      end x
  end.
Definition posts (tr : events) : list post := omap post_of tr.

(** The row a program holds under a key, as its own steps tell. *)
Definition row_step (key : string) (row : option inflightEntry) (l : ev hubE) : option inflightEntry :=
  match l with
  | Log e x =>
      match e in hubE Y return Y -> option inflightEntry with
      | Insert k entry => fun inserted => if (k =s key) && inserted then Some entry else row
      | Remove k => fun _ => if k =s key then None else row
      | _ => fun _ => row
      end x
  end.
Definition row_of (key : string) (tr : events) : option inflightEntry := foldl (row_step key) None tr.
Definition row_key (l : ev hubE) : option string :=
  match l with Log e x => match e with Insert k _ => Some k | Remove k => Some k | _ => None end end.

(** The cancellation a step sends: daemon, session, protocol, request. *)
Definition cancel_of (l : ev hubE) : option (canonicalDaemonRef * string * string * string) :=
  match l with Log e _ => match e with PostCancel ref sid proto reqID => Some (ref, sid, proto, reqID) | _ => None end end.
(** A step that neither calls or cancels a tool nor touches a row. *)
Definition quiet (l : ev hubE) : Prop := post_of l = None /\ row_key l = None /\ cancel_of l = None.

Lemma quiet_posts tr : Forall quiet tr -> posts tr = [].
Proof. induction 1 as [|l tr [Hl _] _ IH]; [done|]. cbn. by rewrite Hl. Qed.
Lemma row_key_step key row l : row_key l = None -> row_step key row l = row.
Proof. by destruct l as [X [] x]. Qed.
Lemma row_of_app key tr1 tr2 : row_of key (tr1 ++ tr2) = foldl (row_step key) (row_of key tr1) tr2.
Proof. apply foldl_app. Qed.
Lemma quiet_row key tr row : Forall quiet tr -> foldl (row_step key) row tr = row.
Proof. intros H. revert row. induction H as [|l tr (_&Hl&_) _ IH]; intros row; [done|]. cbn. by rewrite row_key_step. Qed.
Lemma posts_app tr1 tr2 : posts (tr1 ++ tr2) = posts tr1 ++ posts tr2.
Proof. apply omap_app. Qed.

(** The program has learnt that [sid] is a session of the daemon: from the
    cache, or from a flight it has joined. *)
Definition knows (own : events) (ref : canonicalDaemonRef) (sid : string) : Prop :=
  (exists v, Log (ReadCache ref) v ∈ own /\ cv_sid v = Some sid) \/
  (exists pv st, Log (JoinFlight ref pv) (Ok st) ∈ own /\ sid = is_SessionID st).
Lemma knows_mono own1 own2 ref sid : own1 ⊆ own2 -> knows own1 ref sid -> knows own2 ref sid.
Proof. intros Hs [(v&?&?)|(pv&st&?&?)]; [left; eauto|right; eauto 6]. Qed.

Section CallProofs.
Variables (J : json_lib) (scopeKey : string) (snapshotAtInit : option ResolverSnapshot).
Notation resolve := (resolveToolsCallRoute J scopeKey snapshotAtInit).
Notation call := (AggregateToolsCall J scopeKey snapshotAtInit).

Lemma reinit_quiet ref : only quiet (reinitDaemonSession scopeKey ref).
Proof. unfold reinitDaemonSession, reinitializeDaemonBinding. walk_only. Qed.
Lemma refresh_loop_quiet n ref sid proto : only quiet (refresh_loop scopeKey n ref sid proto).
Proof.
  induction n as [|n IH]; cbn [refresh_loop]; walk_only; try apply reinit_quiet; try apply IH.
Qed.
Lemma refresh_quiet ref sid proto : only quiet (refreshStalePortBeforeDispatch scopeKey ref sid proto).
Proof. unfold refreshStalePortBeforeDispatch. walk_only. apply refresh_loop_quiet. Qed.
Lemma route_quiet id raw : only quiet (resolve id raw).
Proof.
  unfold resolveToolsCallRoute, revalidate_route, target_session, cachedDaemonInitState. walk_only.
Qed.

(** *** What each part learns *)
Lemma cached_spec ref tr st :
  runs (cachedDaemonInitState ref) tr (Some (Some st)) -> knows tr ref (is_SessionID st).
Proof.
  unfold cachedDaemonInitState. intros H. do 2 step_returns H. destruct (cv_sid x) as [sid|] eqn:Hs; [|done].
  simplify_eq/=. left. exists x. split; [set_solver|done].
Qed.
Lemma reinit_spec ref tr st port :
  runs (reinitDaemonSession scopeKey ref) tr (Some (Some (st, port))) -> knows tr (daemon_at ref port) (is_SessionID st).
Proof.
  unfold reinitDaemonSession, reinitializeDaemonBinding. intros H. step_returns H.
  apply returns_bind in H as (r&tr1&tr2&->&H1&H2). repeat step_returns H1. repeat step_returns H2.
  right. exists x0, a. split; [set_solver|done].
Qed.
Lemma refresh_loop_spec n ref sid proto tr sid' proto' port :
  runs (refresh_loop scopeKey n ref sid proto) tr (Some (sid', proto', port)) ->
  (sid' = sid /\ proto' = proto /\ port = tr_Port ref) \/ knows tr (daemon_at ref port) sid'.
Proof.
  revert tr. induction n as [|n IH]; intros tr H; cbn [refresh_loop] in H; do 3 step_returns H; cbv zeta in H.
  1: { repeat step_returns H; auto; right; left; eexists; (split; [|done]); set_solver. }
  assert (forall t, runs (ITree.bind (reinitDaemonSession scopeKey ref) (fun r => match r with
      | None => Ret (sid, proto, tr_Port ref)
      | Some _ => refresh_loop scopeKey n ref sid proto
      end)) t (Some (sid', proto', port)) ->
    (sid' = sid /\ proto' = proto /\ port = tr_Port ref) \/ knows t (daemon_at ref port) sid') as Hre.
  { intros t Ht. apply returns_bind in Ht as (r&tr1&tr2&->&H1&H2). destruct r as [r|].
    - destruct (IH _ H2) as [?|?]; [by left|right]. eapply knows_mono; [|done]. set_solver.
    - step_returns H2. by left. }
  destruct (cv_sid x0) as [fresh|] eqn:Hs.
  2: { destruct (Hre _ H) as [?|?]; [by left|right]. eapply knows_mono; [|done]. set_solver. }
  destruct (default 0 x1 <=? cv_gen x0) eqn:Hg.
  - step_returns H. right. left. exists x0. split; [|done]. set_solver.
  - destruct (Hre _ H) as [?|?]; [by left|right]. eapply knows_mono; [|done]. set_solver.
Qed.
Lemma refresh_spec ref sid proto tr sid' proto' port :
  runs (refreshStalePortBeforeDispatch scopeKey ref sid proto) tr (Some (sid', proto', port)) ->
  (sid' = sid /\ proto' = proto /\ port = tr_Port ref) \/ knows tr (daemon_at ref port) sid'.
Proof.
  unfold refreshStalePortBeforeDispatch. intros H. step_returns H. destruct x as [g|].
  - apply refresh_loop_spec in H as [?|?]; [by left|right]. eapply knows_mono; [|done]. set_solver.
  - step_returns H. by left.
Qed.

(** The route a call takes: the tool its name stands for in the route map,
    in the scope as the published snapshot has it, on a session of the
    daemon at its present port. *)
Definition in_scope (current : option ResolverSnapshot) (tool : canonicalToolRef) : Prop :=
  current = None \/ same_snapshot current snapshotAtInit = true \/
  is_Some (liveDaemonBinding current scopeKey (daemon_of_tool tool)) /\ snapshotHidesTool current scopeKey tool = false.
Definition routed (raw : string) (own : events) (tool : canonicalToolRef) : Prop :=
  exists name routes current, jl_name J raw = Ok name /\ name <> "" /\ Log LoadRouteMap (Some routes) ∈ own /\
    routes !! name = Some tool /\ Log LoadSnapshot current ∈ own /\ in_scope current tool.
Definition same_tool (a b : canonicalToolRef) : Prop :=
  tr_Server a = tr_Server b /\ tr_Daemon a = tr_Daemon b /\ tr_RawName a = tr_RawName b.

Lemma target_session_spec id ref tr t :
  runs (target_session J id ref) tr (Some (inl t)) -> ct_ref t = ref /\ knows tr (daemon_of_tool ref) (ct_daemonSID t).
Proof.
  unfold target_session. intros H. do 2 step_returns H; step_returns H. split; [done|]. left.
  exists x. split; [set_solver|done].
Qed.
Lemma find_same server daemon l b : find (same_daemon server daemon) l = Some b -> cr_Server b = server /\ cr_Daemon b = daemon.
Proof. intros [_ [?%String.eqb_eq ?%String.eqb_eq]%andb_true_iff]%find_some. done. Qed.
Lemma revalidate_spec id ref tr t :
  runs (revalidate_route J scopeKey snapshotAtInit id ref) tr (Some (inl t)) ->
  same_tool (ct_ref t) ref /\ knows tr (daemon_of_tool (ct_ref t)) (ct_daemonSID t) /\
  exists current, Log LoadSnapshot current ∈ tr /\ in_scope current ref.
Proof.
  unfold revalidate_route. intros H. step_returns H. rename x into current.
  assert (forall tr', runs (target_session J id ref) tr' (Some (inl t)) -> in_scope current ref ->
    same_tool (ct_ref t) ref /\ knows (Log LoadSnapshot current :: tr') (daemon_of_tool (ct_ref t)) (ct_daemonSID t) /\
    exists current', Log LoadSnapshot current' ∈ Log LoadSnapshot current :: tr' /\ in_scope current' ref) as Ht.
  { intros tr' [-> Hk]%target_session_spec Hs. split; [by repeat split|].
    split; [eapply knows_mono; [|done]; set_solver|]. exists current. split; [set_solver|done]. }
  destruct (bool_decide_reflect (current = None)) as [->|Hc]; [apply Ht; [done|by left]|]. cbn [negb andb] in H.
  destruct (same_snapshot current snapshotAtInit) eqn:Es; [apply Ht; [done|right; by left]|]. cbn [negb] in H.
  destruct (liveDaemonBinding current scopeKey (daemon_of_tool ref)) as [live|] eqn:El; [|by step_returns H].
  destruct (snapshotHidesTool current scopeKey ref) eqn:Eh; [by step_returns H|].
  assert (in_scope current ref) as Hs by (right; right; split; [by eexists|done]).
  destruct (negb (cr_Port live =? tr_Port ref)); [|by apply Ht]. clear Ht.
  apply returns_bind in H as ([st|]&tr1&tr2&->&H1&H2); [|by step_returns H2]. step_returns H2.
  assert (daemon_of_tool (tool_at ref (cr_Port live)) = live) as E.
  { destruct current as [s|]; [|done]. cbn in El. apply find_same in El as [H2 H3]. destruct live; cbn in *; by subst. }
  split; [by repeat split|]. cbn [ct_ref ct_daemonSID]. rewrite E. split.
  - apply cached_spec in H1. eapply knows_mono; [|done]. set_solver.
  - exists current. split; [set_solver|done].
Qed.
Lemma resolve_spec id raw tr t :
  runs (resolve id raw) tr (Some (inl t)) ->
  (exists tool, routed raw tr tool /\ same_tool (ct_ref t) tool) /\ knows tr (daemon_of_tool (ct_ref t)) (ct_daemonSID t).
Proof.
  unfold resolveToolsCallRoute. intros H. destruct (jl_name J raw) as [name|e] eqn:En; [|by step_returns H].
  destruct (String.eqb_spec name "") as [->|Hn]; [by step_returns H|]. step_returns H.
  destruct x as [routes|]; [|by step_returns H]. destruct (routes !! name) as [tool|] eqn:Er; [|by step_returns H].
  apply revalidate_spec in H as (Ht&Hk&current&Hc&Hs). split.
  - exists tool. split; [|done]. exists name, routes, current. split_and!; try done; set_solver.
  - eapply knows_mono; [|done]. set_solver.
Qed.

(** *** What a call sends and what it answers *)
Definition posted (tool : canonicalToolRef) (params : string) (p : post) : Prop :=
  cr_Server (po_ref p) = tr_Server tool /\ cr_Daemon (po_ref p) = tr_Daemon tool /\
  jl_call J (po_reqID p) params = Ok (po_body p).
Definition call_failure (id : string) (e : post_error) : call_result :=
  buildJSONRPCError J id (-32000) ("tools/call failed: " +:+ pe_text e).

Lemma post_spec ref sid proto reqID params tr r :
  runs (postToolsCall J ref sid proto reqID params) tr (Some r) ->
  (tr = [] /\ exists e, r = inr (plain_error e)) \/
  (exists body, jl_call J reqID params = Ok body /\ tr = [Log (PostCall ref sid proto reqID body) r]).
Proof.
  unfold postToolsCall. intros H. destruct (jl_call J reqID params) as [body|e] eqn:Ej.
  - do 2 step_returns H. right. by exists body.
  - step_returns H. left. eauto.
Qed.
Lemma retry_spec ref key params tr o :
  runs (selfHealRetry J scopeKey ref key params) tr (Some o) ->
  (posts tr = [] /\ o = None) \/
  exists q, posts tr = [q] /\ posted ref params q /\ o = match po_answer q with inl body => Some body | inr _ => None end.
Proof.
  unfold selfHealRetry. intros H. apply returns_bind in H as (r&tr1&tr2&->&H1&H2).
  apply reinit_quiet, quiet_posts in H1. setoid_rewrite posts_app. rewrite H1. clear H1. cbn [app].
  destruct r as [[st port]|]; [|step_returns H2; by left]. step_returns H2. destruct x as [tok|e]; [|step_returns H2; by left].
  do 3 step_returns H2. cbn [posts omap list_omap post_of] in *.
  apply returns_bind in H2 as (r&tr3&tr4&->&H3&H4). apply post_spec in H3 as [[-> [e ->]]|(body&Ej&->)].
  - step_returns H4. by left.
  - right. exists (mkPost (daemon_at ref port) (is_SessionID st) (is_ProtocolVersion st) (daemon_request_id tok) body r).
    destruct r; step_returns H4; done.
Qed.

Definition outcome (id raw : string) (tool : canonicalToolRef) (params : string) (ps : list post) (r : call_result) : Prop :=
  match ps with
  | [] => exists code msg, r = buildJSONRPCError J id code msg
  | p :: rest =>
      buildRewrittenParams J (tr_RawName tool) raw = Some (Ok params) /\ posted tool params p /\
      match po_answer p, rest with
      | inl body, [] => r = rewriteResponseID J body id
      | inr e, [] => r = call_failure id e
      | inr e, [q] =>
          isRetriableTransportFailure e = true /\ posted tool params q /\
          r = match po_answer q with inl body => rewriteResponseID J body id | inr _ => call_failure id e end
      | _, _ => False
      end
  end.
Lemma exchange_spec id raw ref sid proto reqID key params tr r :
  buildRewrittenParams J (tr_RawName ref) raw = Some (Ok params) ->
  runs (exchange J scopeKey id ref sid proto reqID key params) tr (Some r) ->
  outcome id raw ref params (posts tr) r.
Proof.
  intros Eb H. unfold exchange in H. apply returns_bind in H as (r1&tr1&tr2&->&H1&H2). rewrite posts_app.
  apply post_spec in H1 as [[-> [e ->]]|(body&Ej&->)].
  - cbn in H2. step_returns H2. cbn. eauto.
  - destruct r1 as [b|e]; [step_returns H2; done|]. cbv zeta in H2. cbn [posts omap list_omap post_of app].
    destruct (isRetriableTransportFailure e) eqn:Er; [|step_returns H2; done].
    apply returns_bind in H2 as (o&tr3&tr4&->&H3&H4). rewrite posts_app.
    apply retry_spec in H3 as [[-> ->]|(q&->&Hq&->)].
    + step_returns H4. done.
    + destruct (po_answer q) as [b|] eqn:Ea; step_returns H4; cbn; rewrite Ea; done.
Qed.
Lemma posted_same tool tool' params p : same_tool tool tool' -> posted tool params p -> posted tool' params p.
Proof. intros (E1&E2&_) (?&?&?). split; [congruence|]. split; [congruence|done]. Qed.
Lemma outcome_same id raw tool tool' params ps r :
  same_tool tool tool' -> outcome id raw tool params ps r -> outcome id raw tool' params ps r.
Proof.
  intros Ht. destruct ps as [|p rest]; [done|]. cbn. intros (Eb&Hp&H). pose proof Ht as (_&_&<-).
  split; [done|]. split; [by eapply posted_same|]. destruct (po_answer p) as [b|e]; [done|].
  destruct rest as [|q [|]]; [done| |done]. destruct H as (?&?&?). split; [done|]. split; [by eapply posted_same|done].
Qed.

(** [encoding/json]: a text that decodes into a struct with a set field is an
    object, not [null]. *)
Hypothesis named_is_object : forall raw name, jl_name J raw = Ok name -> name <> "" -> jl_fields J raw <> Ok None.

Lemma dispatch_spec id raw t tr r name :
  jl_name J raw = Ok name -> name <> "" ->
  runs (dispatchToolsCall J scopeKey id raw t) tr (Some r) -> exists params, outcome id raw (ct_ref t) params (posts tr) r.
Proof.
  intros En Hn H. unfold dispatchToolsCall in H. apply returns_bind in H as ([[sid proto] port]&tr1&tr2&->&H1&H2).
  apply refresh_quiet, quiet_posts in H1. setoid_rewrite posts_app. rewrite H1. cbn [app].
  destruct (buildRewrittenParams J _ raw) as [[params|e]|] eqn:Eb.
  2: { step_returns H2. exists "". cbn. eauto. }
  2: { unfold buildRewrittenParams in Eb. specialize (named_is_object _ _ En Hn).
       destruct (jl_fields J raw) as [[m|]|e]; try done; by destruct (jl_string J _). }
  exists params. step_returns H2. destruct x as [tok|e]; [|step_returns H2; cbn; eauto].
  destruct (newRequestIDKey (jl_reader J) id) as [key|e]; [|step_returns H2; cbn; eauto].
  do 2 step_returns H2. cbn [posts omap list_omap post_of] in *. destruct x0; cbn [negb] in H2; [|step_returns H2; cbn; eauto].
  apply returns_bind in H2 as (r'&tr3&tr4&->&H3&H4). apply (exchange_spec _ raw) in H3; [|done].
  do 2 step_returns H4. rewrite posts_app. cbn. rewrite app_nil_r. by eapply outcome_same; [|exact H3].
Qed.

(** C23: what a tools/call does and what it answers.  A call that has returned
    has posted at most twice.  What it posts goes to the server and daemon of
    the tool that the session's route map has for the name, a tool the
    scope may use and does not hide by the published snapshot, and is the
    client's call with the tool's own name.  It is posted a second time only
    if the first did not reach the daemon; the answer is the daemon's with
    the client's id, or the error of the first try.  A call that has posted
    nothing is answered with an error; it never panics. *)
Theorem tools_call_outcome id raw tr r :
  runs (call id raw) tr (Some r) ->
  exists tool params, outcome id raw tool params (posts tr) r /\ (posts tr <> [] -> routed raw tr tool).
Proof.
  intros H. unfold AggregateToolsCall in H. apply returns_bind in H as ([t|r']&tr1&tr2&->&H1&H2).
  - pose proof H1 as Hq%route_quiet%quiet_posts. apply resolve_spec in H1 as [(tool&Hr&Ht) _].
    pose proof Hr as (name&routes&current&En&Hn&_). eapply dispatch_spec in H2 as [params H2]; [|done..].
    exists tool, params. rewrite posts_app, Hq. cbn [app]. split; [by eapply outcome_same|]. intros _.
    destruct Hr as (name'&routes'&current'&?&?&?&?&?&?). exists name', routes', current'. split_and!; try done; set_solver.
  - step_returns H2. pose proof H1 as Hq%route_quiet%quiet_posts. exists (mkToolRef "" "" 0 ""), "".
    rewrite app_nil_r, Hq. split; [|done]. cbn. unfold resolveToolsCallRoute, revalidate_route, target_session, cachedDaemonInitState in H1.
    assert (forall t code msg, t = buildJSONRPCError J id code msg -> exists code msg, t = buildJSONRPCError J id code msg) as Hb by eauto.
    repeat first [step_returns H1 | apply returns_bind in H1 as (?&?&?&->&?&H1)]; eauto.
Qed.

(** *** The row of a call *)

(** Insertions under the key were answered as the program's own row has it. *)
Definition insert_fits (key : string) (row : option inflightEntry) (l : ev hubE) : Prop :=
  match l with
  | Log e x =>
      match e in hubE Y return Y -> Prop with
      | Insert k _ => fun inserted => k = key -> inserted = bool_decide (row = None)
      | _ => fun _ => True
      end x
  end.
Fixpoint fits (key : string) (row : option inflightEntry) (tr : events) : Prop :=
  match tr with [] => True | l :: tr => insert_fits key row l /\ fits key (row_step key row l) tr end.
Lemma fits_app key row tr1 tr2 :
  fits key row (tr1 ++ tr2) <-> fits key row tr1 /\ fits key (foldl (row_step key) row tr1) tr2.
Proof. revert row. induction tr1 as [|l tr1 IH]; intros row; cbn; [tauto|]. rewrite IH. tauto. Qed.

(** The row says where the call has been posted. *)
Definition row_matches_post (row : option inflightEntry) (p : post) : Prop :=
  exists at_, row = Some (mkInflight (po_ref p) (po_sid p) (po_proto p) (po_reqID p) at_).
Definition row_guard (key : string) (before : events) (l : ev hubE) : Prop :=
  (forall k, row_key l = Some k -> k = key) /\
  (forall p, post_of l = Some p -> fits key None before -> row_matches_post (row_of key before) p).

Lemma row_guard_quiet key before l : quiet l -> row_guard key before l.
Proof. intros (Hp&Hk&_). split; [by rewrite Hk|by rewrite Hp]. Qed.
Lemma row_guard_silent key before l : post_of l = None -> (forall k, row_key l = Some k -> k = key) -> row_guard key before l.
Proof. intros Hp Hk. split; [done|by rewrite Hp]. Qed.
Lemma row_of_snoc key before l : row_of key (before ++ [l]) = row_step key (row_of key before) l.
Proof. apply row_of_app. Qed.
Lemma row_of_quiet key before tr : Forall quiet tr -> row_of key (before ++ tr) = row_of key before.
Proof. intros H. by rewrite row_of_app, quiet_row. Qed.

Lemma post_guarded key before ref sid proto reqID params :
  (fits key None before -> exists at_, row_of key before = Some (mkInflight ref sid proto reqID at_)) ->
  guarded (row_guard key) before (postToolsCall J ref sid proto reqID params).
Proof.
  intros Hrow. unfold postToolsCall. destruct (jl_call J reqID params) as [body|e]; [|apply guarded_ret].
  apply guarded_vis; [|intros; apply guarded_ret]. intros r. split; [done|].
  intros p [= <-] Hf. exact (Hrow Hf).
Qed.
Lemma calls_quiet_guarded {A} key before (p : itree hubE A) : only quiet p -> guarded (row_guard key) before p.
Proof. apply guarded_only. intros b l. apply row_guard_quiet. Qed.

Ltac silent_step := apply guarded_vis; [intros ?; apply row_guard_silent; [done|by intros ? [= <-]] | intros ?].

Lemma retry_guarded key before ref params :
  guarded (row_guard key) before (selfHealRetry J scopeKey ref key params).
Proof.
  unfold selfHealRetry. apply guarded_bind; [apply calls_quiet_guarded, reinit_quiet|].
  intros [[st port]|] tr Htr; [|apply guarded_ret]. silent_step. destruct x as [tok|e]; [|apply guarded_ret].
  silent_step. silent_step. silent_step. apply guarded_bind; [|intros [] ? ?; apply guarded_ret].
  apply post_guarded. rewrite !fits_app, !row_of_snoc. intros (_&Hi&_).
  cbn [insert_fits] in Hi. specialize (Hi eq_refl). rewrite !foldl_app in Hi. cbn in Hi.
  rewrite String.eqb_refl in Hi. cbn in Hi. subst. cbn. rewrite String.eqb_refl. cbn. eauto.
Qed.
Lemma exchange_guarded key before id ref sid proto reqID params :
  (fits key None before -> exists at_, row_of key before = Some (mkInflight (daemon_of_tool ref) sid proto reqID at_)) ->
  guarded (row_guard key) before (exchange J scopeKey id ref sid proto reqID key params).
Proof.
  intros Hrow. unfold exchange. apply guarded_bind; [by apply post_guarded|]. intros [b|e] tr Htr; [apply guarded_ret|].
  cbv zeta. destruct (isRetriableTransportFailure e); [|apply guarded_ret].
  apply guarded_bind; [apply retry_guarded|]. intros [b|] ? ?; apply guarded_ret.
Qed.
(** A call touches the row of its own id only, and while it posts the row says
    where. *)
Lemma call_guarded id raw key :
  newRequestIDKey (jl_reader J) id = Ok key -> guarded (row_guard key) [] (call id raw).
Proof.
  intros Ek. unfold AggregateToolsCall. apply guarded_bind; [apply calls_quiet_guarded, route_quiet|].
  intros [t|r] tr1 Htr1; [|apply guarded_ret]. unfold dispatchToolsCall.
  apply guarded_bind; [apply calls_quiet_guarded, refresh_quiet|]. intros [[sid proto] port] tr2 Htr2. cbv zeta.
  destruct (buildRewrittenParams J _ raw) as [[params|e]|]; [|apply guarded_ret..].
  silent_step. destruct x as [tok|e]; [|apply guarded_ret]. rewrite Ek. silent_step. silent_step.
  destruct x0; cbn [negb]; [|apply guarded_ret].
  apply guarded_bind; [apply exchange_guarded|intros r tr3 Htr3; silent_step; apply guarded_ret].
  intros _. rewrite row_of_snoc. cbn. rewrite String.eqb_refl. cbn. eauto.
Qed.
(** A call without a key touches no row and posts nothing. *)
Lemma keyless_quiet id raw e : newRequestIDKey (jl_reader J) id = Err e -> only quiet (call id raw).
Proof.
  intros Ek. unfold AggregateToolsCall. apply only_bind; [apply route_quiet|]. intros [t|r]; [|apply only_ret].
  unfold dispatchToolsCall. apply only_bind; [apply refresh_quiet|]. intros [[sid proto] port]. cbv zeta. rewrite Ek.
  walk_only.
Qed.
(** A call cancels nothing. *)
Lemma call_cancels_nothing id raw : only (fun l => cancel_of l = None) (call id raw).
Proof.
  assert (forall l, quiet l -> cancel_of l = None) as Hq by (by intros l (_&_&?)).
  assert (forall ref sid proto reqID params, only (fun l => cancel_of l = None) (postToolsCall J ref sid proto reqID params)) as Hp
    by (intros; unfold postToolsCall; walk_only).
  unfold AggregateToolsCall. apply only_bind; [eapply only_weaken; [exact Hq|apply route_quiet]|].
  intros [t|r]; [|apply only_ret]. unfold dispatchToolsCall.
  apply only_bind; [eapply only_weaken; [exact Hq|apply refresh_quiet]|]. intros [[sid proto] port].
  unfold exchange, selfHealRetry. walk_only; try apply Hp. eapply only_weaken; [exact Hq|apply reinit_quiet].
Qed.
Lemma call_row_gone id raw key tr r :
  newRequestIDKey (jl_reader J) id = Ok key -> runs (call id raw) tr (Some r) -> fits key None tr -> row_of key tr = None.
Proof.
  intros Ek H Hf. unfold AggregateToolsCall in H. apply returns_bind in H as ([t|r']&tr1&tr2&->&H1&H2).
  2: { step_returns H2. rewrite app_nil_r. apply route_quiet, (quiet_row key _ None) in H1. exact H1. }
  apply route_quiet in H1. rewrite row_of_app. unfold row_of. rewrite (quiet_row key tr1) by done.
  rewrite fits_app, (quiet_row key tr1) in Hf by done. destruct Hf as [_ Hf]. cbn in Hf |- *.
  unfold dispatchToolsCall in H2. apply returns_bind in H2 as ([[sid proto] port]&tr3&tr4&->&H3&H4).
  apply refresh_quiet in H3. rewrite foldl_app, (quiet_row key tr3) by done.
  rewrite fits_app, (quiet_row key tr3) in Hf by done. destruct Hf as [_ Hf]. cbv zeta in H4.
  destruct (buildRewrittenParams J _ raw) as [[params|e]|]; [|by step_returns H4..].
  step_returns H4. destruct x as [tok|e]; [|by step_returns H4]. rewrite Ek in H4. do 2 step_returns H4.
  destruct x0; cbn [negb] in H4.
  - apply returns_bind in H4 as (r'&tr5&tr6&->&H5&H6). do 2 step_returns H6. cbn.
    rewrite foldl_app. cbn. by rewrite String.eqb_refl.
  - step_returns H4. cbn. by rewrite String.eqb_refl.
Qed.
End CallProofs.

(** ** Handshakes leave no session behind *)

(** Every session a daemon has issued to a flight that has ended is in the
    cache, or its deletion has been sent to the daemon that issued it. *)
Definition kept_or_deleted (own : events) (ref : canonicalDaemonRef) (sid : string) : Prop :=
  (exists negotiated pv gen proto, Log (Cache ref sid negotiated pv gen) (proto, true) ∈ own) \/
  (exists proto, Log (PostDelete ref sid proto) tt ∈ own).
Lemma init_spec ref pv tr r :
  runs (initializeDaemonSession ref pv) tr (Some r) ->
  (exists e, tr = [Log (DialInitialize ref pv) tt; Log (AwaitInitialize ref) (Err e)] /\ r = Err e) \/
  (exists sid negotiated n, r = match n with None => Ok (sid, negotiated) | Some e => Err (wrapf "notifications/initialized" e) end /\
    tr = [Log (DialInitialize ref pv) tt; Log (AwaitInitialize ref) (Ok (sid, negotiated)); Log (PostInitialized ref sid negotiated) n] ++
      match n with None => [] | Some _ => [Log (PostDelete ref sid negotiated) tt] end).
Proof.
  unfold initializeDaemonSession. intros H. step_returns H. step_returns H. destruct x as [].
  destruct x0 as [[sid negotiated]|e]; [|step_returns H; eauto]. right. exists sid, negotiated. step_returns H.
  exists x. destruct x as [e|].
  - step_returns H. destruct x. by step_returns H.
  - by step_returns H.
Qed.

Definition issued_of (l : ev hubE) : option (canonicalDaemonRef * string) :=
  match l with
  | Log e x =>
      match e in hubE Y return Y -> option (canonicalDaemonRef * string) with
      | AwaitInitialize ref => fun r => match r with Ok (sid, _) => Some (ref, sid) | Err _ => None end
      | _ => fun _ => None
      end x
  end.
Lemma issued_in ref sid negotiated (tr : events) :
  Log (AwaitInitialize ref) (Ok (sid, negotiated)) ∈ tr -> (ref, sid) ∈ omap issued_of tr.
Proof. intros H. apply list_elem_of_omap. by eexists. Qed.

(** What a flight leaves behind.  A handshake that has run to its end has
    either cached the session the daemon issued, stamped with the generation
    of the port read before it dialled, and hands exactly that session to
    the calls that wait; or it hands them an error, and for whatever session
    the daemon has issued it has sent the daemon a deletion. *)
Theorem flight_outcome ref pv tr :
  runs (flight ref pv) tr (Some tt) ->
  exists g mid r, tr = Log (ReadGeneration (cr_Port ref)) g :: mid ++ [Log (LandFlight ref r) tt] /\
  match r with
  | Ok st =>
      exists negotiated, mid = [Log (DialInitialize ref pv) tt; Log (AwaitInitialize ref) (Ok (is_SessionID st, negotiated));
        Log (PostInitialized ref (is_SessionID st) negotiated) None;
        Log (Cache ref (is_SessionID st) negotiated pv (default 0 g)) (is_ProtocolVersion st, true)]
  | Err _ =>
      forall sid negotiated, Log (AwaitInitialize ref) (Ok (sid, negotiated)) ∈ mid ->
        exists proto, Log (PostDelete ref sid proto) tt ∈ mid
  end.
Proof.
  unfold flight. intros H. step_returns H. cbv zeta in H. exists x.
  apply returns_bind in H as (r&tr1&tr2&->&H1&H2).
  apply init_spec in H1 as [(e&->&->)|(sid&negotiated&n&->&->)].
  - do 2 step_returns H2. destruct x0. eexists [_; _], (Err e). split; [done|].
    intros sid negotiated Hin%issued_in. by apply elem_of_nil in Hin.
  - destruct n as [e|].
    + do 2 step_returns H2. destruct x0. eexists [_; _; _; _], (Err _). split; [done|].
      intros sid' negotiated' [= ->]%issued_in%list_elem_of_singleton. exists negotiated. rewrite !elem_of_cons. tauto.
    + step_returns H2. destruct x0 as [proto [|]].
      * do 2 step_returns H2. destruct x0. eexists [_; _; _; _], (Ok (mkInitState sid proto)). split; [done|]. by exists negotiated.
      * do 3 step_returns H2. destruct x0, x1. eexists [_; _; _; _; _], (Err _). split; [done|].
        intros sid' negotiated' [= ->]%issued_in%list_elem_of_singleton. exists proto. rewrite !elem_of_cons. tauto.
Qed.

(** ** A call ends *)
Lemma reinit_ends scopeKey ref : ends 3 (reinitDaemonSession scopeKey ref).
Proof.
  unfold reinitDaemonSession, reinitializeDaemonBinding. apply ends_vis. intros snap. cbv zeta.
  apply (ends_bind 2 0); [walk_ends|intros [?|?]; apply ends_ret].
Qed.
Lemma refresh_ends scopeKey n ref sid proto : ends (3 + 6 * n) (refresh_loop scopeKey n ref sid proto).
Proof.
  induction n as [|n IH]; cbn [refresh_loop].
  - walk_ends.
  - apply (ends_le (3 + (3 + (3 + 6 * n)))); [lia|].
    assert (ends (3 + (3 + 6 * n)) (ITree.bind (reinitDaemonSession scopeKey ref) (fun r => match r with
      | None => Ret (sid, proto, tr_Port ref)
      | Some _ => refresh_loop scopeKey n ref sid proto
      end))) by (apply ends_bind; [apply reinit_ends|intros [?|]; [done|apply ends_ret]]).
    do 3 (apply ends_vis; intros ?). cbv zeta. destruct (cv_sid x0); [|done]. destruct (_ <=? _); [apply ends_ret|done].
Qed.
Lemma resolve_ends J scopeKey snapshotAtInit id raw : ends 3 (resolveToolsCallRoute J scopeKey snapshotAtInit id raw).
Proof.
  assert (forall ref, ends 1 (target_session J id ref)) as Ht by (intros ref; unfold target_session; walk_ends).
  unfold resolveToolsCallRoute, revalidate_route. walk_ends; try apply Ht.
  apply (ends_bind 1 0); [unfold cachedDaemonInitState; walk_ends|]. intros [?|]; apply ends_ret.
Qed.
Lemma post_ends J ref sid proto reqID params : ends 1 (postToolsCall J ref sid proto reqID params).
Proof. unfold postToolsCall. walk_ends. Qed.
Lemma exchange_ends J scopeKey id ref sid proto reqID key params :
  ends 9 (exchange J scopeKey id ref sid proto reqID key params).
Proof.
  unfold exchange. apply (ends_bind 1 8); [apply post_ends|]. intros [b|e]; [apply ends_ret|]. cbv zeta.
  destruct (isRetriableTransportFailure e); [|apply ends_ret].
  apply (ends_bind 8 0); [|intros [?|]; apply ends_ret]. unfold selfHealRetry.
  apply (ends_bind 3 5); [apply reinit_ends|]. intros [[st port]|]; [|apply ends_ret].
  apply ends_vis. intros [tok|e']; [|apply ends_ret]. cbv zeta. do 3 (apply ends_vis; intros ?).
  apply (ends_bind 1 0); [apply post_ends|]. intros [?|?]; apply ends_ret.
Qed.

(** A tools/call comes to an end: whatever the daemons, the published
    snapshots and the other users of the session answer between its steps,
    it makes at most 38 steps and returns. *)
Theorem tools_call_ends {S} J scopeKey snapshotAtInit id raw (h : forall X, hubE X -> S -> X * S) s :
  exists tr r, play 39 h s (AggregateToolsCall J scopeKey snapshotAtInit id raw) = (tr, Some r).
Proof.
  assert (ends 38 (AggregateToolsCall J scopeKey snapshotAtInit id raw)) as He.
  { unfold AggregateToolsCall. apply (ends_bind 3 35).
    - apply resolve_ends.
    - intros [t|r]; [|apply ends_ret]. unfold dispatchToolsCall. apply (ends_bind 22 13).
      + unfold refreshStalePortBeforeDispatch. apply ends_vis. intros [g|]; [|apply ends_ret]. apply refresh_ends.
      + intros [[sid proto] port]. cbv zeta. destruct (buildRewrittenParams J _ raw) as [[params|e]|]; [|apply ends_ret..].
        apply ends_vis. intros [tok|e]; [|apply ends_ret]. destruct (newRequestIDKey _ id) as [key|e]; [|apply ends_ret].
        do 2 (apply ends_vis; intros ?). destruct (negb _); [apply ends_ret|].
        apply (ends_bind 9 1); [apply exchange_ends|]. intros r. apply ends_vis. intros ?. apply ends_ret. }
  destruct (ends_returns _ _ h s He) as [r Hr]. destruct (play 39 h s _) as [tr o] eqn:Ep. cbn in Hr. subst o. eauto.
Qed.

(** ** What a session stays *)
Lemma initialize_identity results s : same_identity s (AggregateInitialize results s).
Proof.
  unfold AggregateInitialize. cbv zeta.
  assert (H : forall l s, same_identity s (foldl apply_init_result s l)).
  { clear. induction l as [|x l IH]; intros s; [done|]. cbn. etrans; [|apply IH]. unfold apply_init_result. by destruct (x.2) as [[sid neg]|e]. }
  etrans; [|apply H]. unfold same_identity, protocol_or_fallback. cbn. split_and!; [done..|]. intros Hne.
  apply String.eqb_neq in Hne. by rewrite Hne.
Qed.
Lemma cache_identity ref sid negotiated pv gen s : same_identity s (cacheReinitResult ref sid negotiated pv gen s).1.
Proof. unfold cacheReinitResult. repeat case_match; done. Qed.

(** ** A call that heals itself *)
Definition demo_tool : canonicalToolRef := mkToolRef "serena" "codex" 9125 "find".
Definition demo_fields (raw : string) : res (option (gmap string string)) :=
  if raw =s "call" then Ok (Some {["name" := "serena__find"; "q" := "x"]})
  else if raw =s "answer" then Ok (Some {["id" := "hub"]})
  else if raw =s "null" then Ok None
  else Err (errors_New "invalid character").
Definition demo_json : json_lib :=
  mkJsonLib plain_reader
    (fun raw => if raw =s "call" then Ok "serena__find" else if raw =s "null" then Ok "" else Err (errors_New "invalid character"))
    demo_fields
    (fun m => Ok (String.concat "," ((fun kv => kv.1 +:+ "=" +:+ kv.2) <$> map_to_list m)))
    Ok
    (fun id code msg => Ok (id +:+ " error " +:+ msg))
    (fun id params => Ok (id +:+ " tools/call " +:+ params)).
Lemma demo_named raw name : jl_name demo_json raw = Ok name -> name <> "" -> jl_fields demo_json raw <> Ok None.
Proof. cbn. unfold demo_fields. destruct (raw =s "call"); [done|]. by destruct (raw =s "null"); [intros [= <-]|]. Qed.

Definition refused : post_error := mkPostError "connection refused" false false false false true true.
(** A world whose daemon does not listen at first and has a new session then. *)
Definition demo_world (X : Type) (e : hubE X) (s : list (string + post_error)) : X * list (string + post_error) :=
  match e in hubE Y return Y * list (string + post_error) with
  | LoadRouteMap => (Some {["serena__find" := demo_tool]}, s)
  | LoadSnapshot => (None, s)
  | ReadCache _ => (mkView (Some "old") "v" 0 "v", s)
  | ReadProtocolVersion => ("v", s)
  | ReadGeneration _ => (None, s)
  | HexToken => (Ok "0123456789abcdef0123", s)
  | Now => (7, s)
  | Insert _ _ => (true, s)
  | Remove _ => (tt, s)
  | Lookup _ => (None, s)
  | PostCall _ _ _ _ _ => (default (inl "answer") (head s), tail s)
  | PostCancel _ _ _ _ => (tt, s)
  | JoinFlight _ _ => (Ok (mkInitState "new" "v"), s)
  | DialInitialize _ _ => (tt, s)
  | AwaitInitialize _ => (Ok ("new", "v"), s)
  | PostInitialized _ _ _ => (Some (errors_New "HTTP 400"), s)
  | PostDelete _ _ _ => (tt, s)
  | Cache _ _ _ _ _ => (("v", true), s)
  | LandFlight _ _ => (tt, s)
  end.
Definition demo_call := AggregateToolsCall demo_json "codex-cli" None "1" "call".
Definition demo_trace : events := (play 39 demo_world [inr refused] demo_call).1.
Example demo_posts : (fun p => (po_sid p, po_body p)) <$> posts demo_trace =
  [("old", String "034" ("hub-0123456789abcdef" +:+ String "034" " tools/call q=x,name=find"));
   ("new", String "034" ("hub-0123456789abcdef" +:+ String "034" " tools/call q=x,name=find"))].
Proof. vm_compute. reflexivity. Qed.

Lemma tools_call_outcome_witness :
  exists tool params, outcome demo_json "1" "call" tool params (posts demo_trace) (Body "id=1") /\
    (posts demo_trace <> [] -> routed demo_json "codex-cli" None "call" demo_trace tool).
Proof.
  apply (tools_call_outcome demo_json "codex-cli" None demo_named "1" "call" demo_trace (Body "id=1")).
  exact (play_runs 39 demo_world [inr refused] demo_call).
Defined.

Definition demo_daemon : canonicalDaemonRef := mkRef "serena" "codex" 9125.
Definition demo_flight : events := (play 9 demo_world [] (flight demo_daemon "v")).1.
Lemma flight_outcome_witness :
  exists g mid r, demo_flight = Log (ReadGeneration (cr_Port demo_daemon)) g :: mid ++ [Log (LandFlight demo_daemon r) tt] /\
  match r with
  | Ok st =>
      exists negotiated, mid = [Log (DialInitialize demo_daemon "v") tt; Log (AwaitInitialize demo_daemon) (Ok (is_SessionID st, negotiated));
        Log (PostInitialized demo_daemon (is_SessionID st) negotiated) None;
        Log (Cache demo_daemon (is_SessionID st) negotiated "v" (default 0 g)) (is_ProtocolVersion st, true)]
  | Err _ =>
      forall sid negotiated, Log (AwaitInitialize demo_daemon) (Ok (sid, negotiated)) ∈ mid ->
        exists proto, Log (PostDelete demo_daemon sid proto) tt ∈ mid
  end.
Proof. apply (flight_outcome demo_daemon "v" demo_flight). exact (play_runs 9 demo_world [] (flight demo_daemon "v")). Defined.
