(* ===== verification/HubRuns.v ===== *)
(** * HubRuns: one hub session under many calls at a time.

    The calls, cancellations and handshakes of [ToolCalls] on one session of
    [Sessions], interleaved in every order, while the restart watcher marks
    ports, snapshots are published, tools/list swaps the route map and the
    session may be deleted.  What holds then of the sessions, the daemons
    and the request ids that calls and cancellations are sent with. *)
From S2P Require Import Prelude GoTime Trace RequestId Resolver Sessions ToolCalls.
From ITree Require Import ITree.
From Stdlib Require Import Sorting.Sorted.
Open Scope Z_scope.

(** ** The shared state *)
Record world := mkWorld { w_session : hubSession; w_current : option ResolverSnapshot }.

(** What a goroutine of the hub runs. *)
Inductive goroutine :=
| GCall (id raw : string)
| GCancel (id : string)
| GFlight (ref : canonicalDaemonRef) (protoVer : string).

(** The log of a run: who made which step. *)
Notation log := (list (nat * ev hubE)).

Definition view_of (ref : canonicalDaemonRef) (s : hubSession) : cache_view :=
  mkView (hs_InitSuccesses s !! ref) (default "" (hs_DaemonProtoVer s !! ref)) (default 0 (hs_InitSuccessGen s !! ref))
    (hs_ProtocolVersion s).

(** What a step finds and leaves: the critical sections of the session are
    those of [Sessions] and [ToolCalls]; a call that joins a flight gets an
    error or what some flight of that daemon has landed with; daemons and
    clocks answer anything. *)
Definition answers (past : log) (w : world) (l : ev hubE) (w' : world) : Prop :=
  let s := w_session w in
  let leaves (s' : hubSession) := w' = mkWorld s' (w_current w) in
  match l with
  | Log e x =>
      match e in hubE Y return Y -> Prop with
      | LoadRouteMap => fun m => m = hs_RouteMap s /\ w' = w
      | LoadSnapshot => fun c => c = w_current w /\ w' = w
      | ReadCache ref => fun v => v = view_of ref s /\ w' = w
      | ReadProtocolVersion => fun p => p = hs_ProtocolVersion s /\ w' = w
      | ReadGeneration port => fun g => g = stalePortStateFor port s /\ w' = w
      | Insert key entry => fun b => b = (InsertInFlight key entry s).2 /\ leaves (InsertInFlight key entry s).1
      | Remove key => fun _ => leaves (RemoveInFlight key s)
      | Lookup key => fun r => r = LookupInFlight key s /\ w' = w
      | JoinFlight ref _ => fun r =>
          (forall st, r = Ok st -> exists j, Log (LandFlight ref (Ok st)) tt ∈ own j past) /\ w' = w
      | Cache ref sid negotiated pv gen => fun r =>
          r = (cacheReinitResult ref sid negotiated pv gen s).2 /\ leaves (cacheReinitResult ref sid negotiated pv gen s).1
      | _ => fun _ => w' = w
      end x
  end.

(** What the rest of the hub does to the session meanwhile. *)
Inductive meddles : world -> world -> Prop :=
| meddle_publish w c : meddles w (mkWorld (w_session w) c)
(** a generation is a uint64 that does not come round *)
| meddle_restart w port :
    default 0 (stalePortStateFor port (w_session w)) < 2 ^ 64 - 1 ->
    meddles w (mkWorld (markStalePort port (w_session w)).1 (w_current w))
| meddle_delete w : meddles w (mkWorld (markDeleteStarted (w_session w)) (w_current w))
| meddle_routes w m : meddles w (mkWorld (w_session w <| hs_RouteMap := m |>) (w_current w))
| meddle_touch w t : meddles w (mkWorld (w_session w <| hs_LastUsedAt := t |>) (w_current w)).

Section Runs.
Variables (J : json_lib) (gs : nat -> goroutine) (w0 : world).

(** The steps of a goroutine so far are a run of its program. *)
Definition own_runs (g : goroutine) (tr : events) : Prop :=
  match g with
  | GCall id raw => exists o, runs (AggregateToolsCall J (hs_ScopeKey (w_session w0)) (hs_SnapshotAtInit (w_session w0)) id raw) tr o
  | GCancel id => exists o, runs (ForwardCancellation J id) tr o
  | GFlight ref pv => exists o, runs (flight ref pv) tr o
  end.

(** All interleavings. *)
Inductive hub_run : log -> world -> Prop :=
| run_start : hub_run [] w0
| run_step past w i l w' :
    hub_run past w -> own_runs (gs i) (own i (past ++ [(i, l)])) -> answers past w l w' -> hub_run (past ++ [(i, l)]) w'
| run_meddle past w w' : hub_run past w -> meddles w w' -> hub_run past w'.

(** Whatever happens, the session stays the session it is: what a request
    found out about it when it was let in remains true. *)
Lemma step_identity past w l w' : answers past w l w' -> same_identity (w_session w) (w_session w').
Proof.
  destruct l as [X e x]; destruct e; cbn; intros Ha; destruct_and?; subst; try done.
  - apply (act_identity (ActInsert key entry)).
  - apply (act_identity (ActRemove key)).
  - apply cache_identity.
Qed.
Lemma session_identity past w : hub_run past w -> same_identity (w_session w0) (w_session w).
Proof.
  induction 1 as [|past w i l w' _ IH _ Ha|past w w' _ IH Hm]; [done| |]; (etrans; [exact IH|]).
  - by eapply step_identity.
  - destruct Hm as [|w port _| | |]; try done. apply (act_identity (ActMarkStale port)).
Qed.

(** The session as [initialize] leaves it: no row, no generation, no mark. *)
Record session_start : Prop := mkSessionStart {
  start_rows : hs_InFlightRequests (w_session w0) = ∅;
  start_gens : hs_InitSuccessGen (w_session w0) = ∅;
  start_marks : hs_staleDaemonPorts (w_session w0) = ∅;
}.

(** Where a session of a daemon comes from: [initialize], or a flight that
    read generation [g] of the port, then dialled the daemon, and was
    answered with the session. *)
Definition origin (past : log) (ref : canonicalDaemonRef) (sid : string) (g : Z) : Prop :=
  (hs_InitSuccesses (w_session w0) !! ref = Some sid /\ g = 0) \/
  exists j g0 pv negotiated rest, g = default 0 g0 /\
    own j past = Log (ReadGeneration (cr_Port ref)) g0 :: Log (DialInitialize ref pv) tt ::
                 Log (AwaitInitialize ref) (Ok (sid, negotiated)) :: rest.

Lemma origin_mono past l ref sid g : origin past ref sid g -> origin (past ++ [l]) ref sid g.
Proof.
  intros [?|(j&g0&pv&neg&rest&->&H)]; [by left|right]. destruct (own_prefix j past l) as [t Ht].
  exists j, g0, pv, neg, (rest ++ t). split; [done|]. by rewrite Ht, H.
Qed.

(** ** What each goroutine may do, by its own steps so far *)
Definition justified (before : events) (l : ev hubE) : Prop :=
  match l with
  | Log e x =>
      match e in hubE Y return Y -> Prop with
      | PostCall ref sid _ _ _ => fun _ => knows before ref sid
      | Insert _ entry => fun _ => knows before (if_DaemonRef entry) (if_DaemonSessionID entry)
      | Cache ref sid negotiated pv gen => fun _ => exists g, gen = default 0 g /\
          before = [Log (ReadGeneration (cr_Port ref)) g; Log (DialInitialize ref pv) tt;
                    Log (AwaitInitialize ref) (Ok (sid, negotiated)); Log (PostInitialized ref sid negotiated) None]
      | LandFlight ref r => fun _ => forall st, r = Ok st -> exists g pv negotiated rest,
          before = Log (ReadGeneration (cr_Port ref)) g :: Log (DialInitialize ref pv) tt ::
                   Log (AwaitInitialize ref) (Ok (is_SessionID st, negotiated)) :: rest
      | _ => fun _ => True
      end x
  end.

Definition harmless (l : ev hubE) : Prop := forall before, justified before l.
Lemma harmless_guarded {A} before (p : itree hubE A) : only harmless p -> guarded justified before p.
Proof. apply guarded_only. auto. Qed.
Lemma reinit_harmless scope ref : only harmless (reinitDaemonSession scope ref).
Proof. unfold reinitDaemonSession, reinitializeDaemonBinding. walk_only. Qed.
Lemma refresh_harmless scope ref sid proto : only harmless (refreshStalePortBeforeDispatch scope ref sid proto).
Proof.
  assert (forall n, only harmless (refresh_loop scope n ref sid proto)) as Hl.
  { induction n as [|n IH]; cbn [refresh_loop]; walk_only; try apply reinit_harmless; apply IH. }
  unfold refreshStalePortBeforeDispatch. walk_only. apply Hl.
Qed.
Lemma resolve_harmless scope init id raw : only harmless (resolveToolsCallRoute J scope init id raw).
Proof. unfold resolveToolsCallRoute, revalidate_route, target_session, cachedDaemonInitState. walk_only. Qed.

Lemma post_justified before ref sid proto reqID params :
  knows before ref sid -> guarded justified before (postToolsCall J ref sid proto reqID params).
Proof.
  intros Hk. unfold postToolsCall. destruct (jl_call J reqID params); [|apply guarded_ret].
  apply guarded_vis; [by intros|]. intros. apply guarded_ret.
Qed.
Ltac harmless_step := apply guarded_vis; [by intros ?|intros ?].
Lemma exchange_justified before scope id ref sid proto reqID key params :
  knows before (daemon_of_tool ref) sid -> guarded justified before (exchange J scope id ref sid proto reqID key params).
Proof.
  intros Hk. unfold exchange. apply guarded_bind; [by apply post_justified|]. intros [b|e] tr _; [apply guarded_ret|].
  cbv zeta. destruct (isRetriableTransportFailure e); [|apply guarded_ret].
  apply guarded_bind; [|intros [b|] ? ?; apply guarded_ret]. unfold selfHealRetry.
  apply guarded_bind; [apply harmless_guarded, reinit_harmless|]. intros [[st port]|] tr1 H1; [|apply guarded_ret].
  apply reinit_spec in H1. harmless_step. destruct x as [tok|]; [|apply guarded_ret]. do 2 harmless_step.
  apply guarded_vis; [intros b; cbn; eapply knows_mono; [|exact H1]; set_solver|]. intros b.
  apply guarded_bind; [|intros [|] ? ?; apply guarded_ret]. apply post_justified. eapply knows_mono; [|exact H1]. set_solver.
Qed.
Lemma call_justified scope init id raw : guarded justified [] (AggregateToolsCall J scope init id raw).
Proof.
  unfold AggregateToolsCall. apply guarded_bind; [apply harmless_guarded, resolve_harmless|].
  intros [t|r] tr1 H1; [|apply guarded_ret]. apply resolve_spec in H1 as [_ Hk]. unfold dispatchToolsCall.
  apply guarded_bind; [apply harmless_guarded, refresh_harmless|]. intros [[sid proto] port] tr2 H2. cbv zeta.
  assert (knows (tr1 ++ tr2) (daemon_of_tool (tool_at (ct_ref t) port)) sid) as Hk2.
  { apply refresh_spec in H2 as [(->&_&->)|H2]; (eapply knows_mono; [|done]); set_solver. }
  destruct (buildRewrittenParams J _ raw) as [[params|e]|]; [|apply guarded_ret..].
  harmless_step. destruct x as [tok|]; [|apply guarded_ret]. destruct (newRequestIDKey _ id) as [key|]; [|apply guarded_ret].
  harmless_step. apply guarded_vis; [intros b; cbn; eapply knows_mono; [|exact Hk2]; set_solver|]. intros b.
  destruct (negb b); [apply guarded_ret|].
  apply guarded_bind; [|intros r tr _; harmless_step; apply guarded_ret].
  apply exchange_justified. eapply knows_mono; [|exact Hk2]. set_solver.
Qed.
Lemma cancel_justified id : guarded justified [] (ForwardCancellation J id).
Proof. apply harmless_guarded. unfold ForwardCancellation. walk_only. Qed.
Lemma flight_justified ref pv : guarded justified [] (flight ref pv).
Proof.
  unfold flight. harmless_step. cbv zeta. apply guarded_bind.
  { unfold initializeDaemonSession. harmless_step. harmless_step. destruct x1 as [[sid negotiated]|]; [|apply guarded_ret].
    harmless_step. destruct x1; [harmless_step|]; apply guarded_ret. }
  intros r tr Hr. apply init_spec in Hr as [(e&->&->)|(sid&negotiated&n&->&->)].
  - apply guarded_vis; [by intros ? ? [=]|]. intros. apply guarded_ret.
  - destruct n as [e|].
    + apply guarded_vis; [by intros ? ? [=]|]. intros. apply guarded_ret.
    + apply guarded_vis; [intros; exists x; split; [done|done]|]. intros [proto [|]].
      * apply guarded_vis; [|intros; apply guarded_ret]. intros ? st [= <-]. cbn. by eexists x, pv, negotiated, _.
      * harmless_step. apply guarded_vis; [by intros ? ? [=]|]. intros. apply guarded_ret.
Qed.
Lemma own_justified g before l : own_runs g (before ++ [l]) -> justified before l.
Proof.
  assert (forall A (p : itree hubE A) o, guarded justified [] p -> runs p (before ++ [l]) o -> justified before l) as H.
  { intros A p o Hg Hr. by apply (Hg _ _ Hr before l []). }
  destruct g; cbn; intros [o Ho]; (eapply H; [|exact Ho]).
  - apply call_justified.
  - apply cancel_justified.
  - apply flight_justified.
Qed.

(** ** The invariant of a run *)

(** The generations a program has read of a port. *)
Definition reading (port : Z) (l : ev hubE) : option Z :=
  match l with
  | Log e x =>
      match e in hubE Y return Y -> option Z with
      | ReadGeneration p => fun g => if p =? port then Some (default 0 g) else None
      | _ => fun _ => None
      end x
  end.
Definition readings (port : Z) (tr : events) : list Z := omap (reading port) tr.
Definition generation (port : Z) (s : hubSession) : Z := default 0 (stalePortStateFor port s).

(** What a step of the log still tells, later on. *)
Definition told (past : log) (w : world) (l : ev hubE) : Prop :=
  (forall port g, reading port l = Some g -> 0 <= g <= generation port (w_session w)) /\
  match l with
  | Log e x =>
      match e in hubE Y return Y -> Prop with
      | ReadCache ref => fun v => forall sid, cv_sid v = Some sid -> origin past ref sid (cv_gen v)
      | JoinFlight ref _ => fun r => forall st, r = Ok st -> exists g, origin past ref (is_SessionID st) g
      | LandFlight ref r => fun _ => forall st, r = Ok st -> exists g, origin past ref (is_SessionID st) g
      | Lookup key => fun r => forall e, r = Some e -> exists j, Log (Insert key e) true ∈ own j past
      | Insert _ e => fun _ => exists g, origin past (if_DaemonRef e) (if_DaemonSessionID e) g
      | _ => fun _ => True
      end x
  end.

Record run_ok (past : log) (w : world) : Prop := mkRunOk {
  ok_cache : forall ref sid, hs_InitSuccesses (w_session w) !! ref = Some sid ->
    origin past ref sid (default 0 (hs_InitSuccessGen (w_session w) !! ref));
  ok_rows : forall k e, hs_InFlightRequests (w_session w) !! k = Some e -> exists j, Log (Insert k e) true ∈ own j past;
  ok_told : forall i l, (i, l) ∈ past -> told past w l;
  ok_marks : forall port, 0 <= generation port (w_session w) < 2 ^ 64;
  ok_sorted : forall i port, StronglySorted Z.le (readings port (own i past));
}.

Lemma told_mono past x w w' l :
  (forall port, generation port (w_session w) <= generation port (w_session w')) ->
  told past w l -> told (past ++ [x]) w' l.
Proof.
  intros Hg [Hr Hl]. split.
  - intros port g Hp. specialize (Hr _ _ Hp). specialize (Hg port). lia.
  - destruct l as [X e a]; destruct e; cbn in *; try done.
    + intros sid Hs. by apply origin_mono, Hl.
    + destruct Hl as [g Hl]. exists g. by apply origin_mono.
    + intros e He. destruct (Hl e He) as [j Hj]. exists j. by apply own_mono.
    + intros st Hs. destruct (Hl st Hs) as [g H]. exists g. by apply origin_mono.
    + intros st Hs. destruct (Hl st Hs) as [g H]. exists g. by apply origin_mono.
Qed.
Lemma told_more past w w' l :
  (forall port, generation port (w_session w) <= generation port (w_session w')) -> told past w l -> told past w' l.
Proof. intros Hg [Hr Hl]. split; [|exact Hl]. intros port g Hp. specialize (Hr _ _ Hp). specialize (Hg port). lia. Qed.

Lemma sorted_snoc l x : StronglySorted Z.le l -> Forall (fun y => y <= x) l -> StronglySorted Z.le (l ++ [x]).
Proof.
  induction 1 as [|y l Hs IH Hy]; cbn; intros Hx; [repeat constructor|]. apply Forall_cons in Hx as [? Hx].
  constructor; [by apply IH|]. apply Forall_app. split; [done|by repeat constructor].
Qed.

Lemma knows_origin past w i ref sid : run_ok past w -> knows (own i past) ref sid -> exists g, origin past ref sid g.
Proof.
  intros Hok [(v&Hv&Hs)|(pv&st&Hj&->)].
  - apply own_in, (ok_told _ _ Hok) in Hv as [_ Hv]. exists (cv_gen v). by apply Hv.
  - apply own_in, (ok_told _ _ Hok) in Hj as [_ Hj]. by apply Hj.
Qed.

(** *** The cache *)
Lemma drop_moved_lookup {V} ref (m : gmap canonicalDaemonRef V) ref' :
  drop_moved ref m !! ref' = if moved ref ref' then None else m !! ref'.
Proof.
  unfold drop_moved. destruct (m !! ref') as [v|] eqn:Em.
  - destruct (moved ref ref') eqn:Ed.
    + apply map_lookup_filter_None. right. intros ? _. cbn. by rewrite Ed.
    + by apply map_lookup_filter_Some.
  - assert (filter (fun kv => moved ref kv.1 = false) m !! ref' = None) as -> by (apply map_lookup_filter_None; by left).
    by destruct (moved ref ref').
Qed.
Lemma moved_self ref : moved ref ref = false.
Proof. unfold moved. rewrite bool_decide_true by done. by rewrite andb_false_r. Qed.
Lemma drop_generations_lookup ref successes gens ref' :
  drop_generations ref successes gens !! ref' =
  if moved ref ref' && bool_decide (is_Some (successes !! ref')) then None else gens !! ref'.
Proof.
  unfold drop_generations. destruct (gens !! ref') as [v|] eqn:Em.
  - destruct (moved ref ref' && bool_decide (is_Some (successes !! ref'))) eqn:Ed.
    + apply map_lookup_filter_None. right. intros ? _. cbn. by rewrite Ed.
    + by apply map_lookup_filter_Some.
  - match goal with |- ?x = _ => assert (x = None) as -> by (apply map_lookup_filter_None; by left) end.
    by destruct (_ && _).
Qed.
Lemma cache_entries ref sid negotiated pv gen s s' r :
  cacheReinitResult ref sid negotiated pv gen s = (s', r) ->
  forall ref' sid', hs_InitSuccesses s' !! ref' = Some sid' ->
    (ref' = ref /\ sid' = sid /\ default 0 (hs_InitSuccessGen s' !! ref') = gen) \/
    (hs_InitSuccesses s !! ref' = Some sid' /\ hs_InitSuccessGen s' !! ref' = hs_InitSuccessGen s !! ref').
Proof.
  unfold cacheReinitResult. destruct (hs_deleteStarted s); intros [= <- <-] ref' sid'; cbn; [auto|].
  destruct (decide (ref' = ref)) as [->|Hne]; [rewrite !lookup_insert_eq; intros [= ->]; by left|].
  rewrite !lookup_insert_ne by done. rewrite drop_moved_lookup, drop_generations_lookup.
  destruct (moved ref ref'); [done|]. cbn. auto.
Qed.

(** A step leaves the marks alone, a step that does not cache leaves the
    cache alone, and a new row is one that it inserts. *)
Lemma answers_frame past w l w' :
  answers past w l w' ->
  hs_staleDaemonPorts (w_session w') = hs_staleDaemonPorts (w_session w) /\
  (forall k e, hs_InFlightRequests (w_session w') !! k = Some e ->
     hs_InFlightRequests (w_session w) !! k = Some e \/ l = Log (Insert k e) true).
Proof.
  destruct l as [X e x]; destruct e; cbn; try (intros [-> ->] || intros [_ ->] || intros ->); auto.
  - unfold InsertInFlight. destruct (hs_InFlightRequests (w_session w) !! key) eqn:Ek; cbn; [auto|]. split; [done|].
    intros k e. destruct (decide (k = key)) as [->|Hne]; [rewrite lookup_insert_eq; intros [= ->]; by right|].
    rewrite lookup_insert_ne by done. auto.
  - unfold RemoveInFlight. destruct (hs_InFlightRequests (w_session w) !! key) eqn:Ek; cbn; [|auto]. split; [done|].
    intros k e [_ H]%lookup_delete_Some. auto.
  - unfold cacheReinitResult. destruct (hs_deleteStarted (w_session w)); cbn; auto.
Qed.
Definition caches (l : ev hubE) : bool :=
  match l with Log e _ => match e with Cache _ _ _ _ _ => true | _ => false end end.
Lemma answers_cache_frame past w l w' :
  answers past w l w' -> caches l = false ->
  hs_InitSuccesses (w_session w') = hs_InitSuccesses (w_session w) /\
  hs_InitSuccessGen (w_session w') = hs_InitSuccessGen (w_session w).
Proof.
  destruct l as [X e x]; destruct e; cbn; try (intros [-> ->] || intros [_ ->] || intros ->); auto; try done.
  - unfold InsertInFlight. by destruct (hs_InFlightRequests (w_session w) !! key).
  - unfold RemoveInFlight. by destruct (hs_InFlightRequests (w_session w) !! key).
Qed.

Lemma flight_origin past i ref g pv sid negotiated rest :
  own i past = Log (ReadGeneration (cr_Port ref)) g :: Log (DialInitialize ref pv) tt ::
               Log (AwaitInitialize ref) (Ok (sid, negotiated)) :: rest -> origin past ref sid (default 0 g).
Proof. intros H. right. by exists i, g, pv, negotiated, rest. Qed.

(** What a step finds is what was told before. *)
Lemma step_told past w i l w' :
  run_ok past w -> justified (own i past) l -> answers past w l w' -> told (past ++ [(i, l)]) w' l.
Proof.
  intros Hok Hj Ha. split.
  { intros port g Hp. pose proof Ha as [Hm _]%answers_frame. pose proof (ok_marks _ _ Hok port) as Hport.
    unfold generation, stalePortStateFor in *. rewrite Hm. destruct l as [X e x]; destruct e; cbn in Hp; try done.
    destruct (port0 =? port) eqn:Ep; [|done]. apply Z.eqb_eq in Ep as ->. injection Hp as <-.
    cbn in Ha. destruct Ha as [-> _]. unfold stalePortStateFor. lia. }
  destruct l as [X e x]; destruct e; cbn in Hj, Ha |- *; try done.
  - destruct Ha as [-> _]. intros sid Hs. by apply origin_mono, (ok_cache _ _ Hok).
  - eapply knows_origin in Hj as [g Hg]; [|done]. exists g. by apply origin_mono.
  - destruct Ha as [-> _]. intros e He. apply (ok_rows _ _ Hok) in He as [j Hj']. exists j. by apply own_mono.
  - destruct Ha as [Ha _]. intros st Hs. destruct (Ha st Hs) as [j Hl].
    apply own_in, (ok_told _ _ Hok) in Hl as [_ Hl]. destruct (Hl st eq_refl) as [g Hg]. exists g. by apply origin_mono.
  - intros st ->. destruct (Hj st eq_refl) as (g&pv&neg&rest&Hown). exists (default 0 g). apply origin_mono.
    by eapply flight_origin.
Qed.
Lemma step_cache past w i l w' :
  run_ok past w -> justified (own i past) l -> answers past w l w' ->
  forall ref sid, hs_InitSuccesses (w_session w') !! ref = Some sid ->
    origin (past ++ [(i, l)]) ref sid (default 0 (hs_InitSuccessGen (w_session w') !! ref)).
Proof.
  intros Hok Hj Ha ref sid Hs. apply origin_mono. destruct (caches l) eqn:Ec.
  - destruct l as [X e x]; destruct e; try done. cbn in Hj, Ha. destruct Ha as [_ ->]. cbn in Hs |- *.
    destruct (cacheReinitResult ref0 sid0 negotiated protoVer flightGen (w_session w)) as [s' r] eqn:Er. cbn in *.
    destruct (cache_entries _ _ _ _ _ _ _ _ Er _ _ Hs) as [(->&->&->)|(Ho&->)]; [|by apply (ok_cache _ _ Hok)].
    destruct Hj as (g&->&Hown). by eapply flight_origin.
  - destruct (answers_cache_frame _ _ _ _ Ha Ec) as [E1 E2]. rewrite E1 in Hs. rewrite E2. by apply (ok_cache _ _ Hok).
Qed.
Lemma step_ok past w i l w' :
  run_ok past w -> justified (own i past) l -> answers past w l w' -> run_ok (past ++ [(i, l)]) w'.
Proof.
  intros Hok Hj Ha. pose proof Ha as [Hm Hr]%answers_frame.
  assert (forall port, generation port (w_session w') = generation port (w_session w)) as Hg.
  { intros port. unfold generation, stalePortStateFor. by rewrite Hm. }
  pose proof (step_told _ _ _ _ _ Hok Hj Ha) as Ht.
  assert (forall port j lo, lo ∈ own j past -> forall g, reading port lo = Some g -> g <= generation port (w_session w)) as Hle.
  { intros port j lo Hlo g Hp. apply own_in, (ok_told _ _ Hok) in Hlo as [Hb _]. by destruct (Hb _ _ Hp). }
  split.
  - by eapply step_cache.
  - intros k e [He| ->]%Hr; [apply (ok_rows _ _ Hok) in He as [j He]; exists j; by apply own_mono|].
    exists i. rewrite own_here. set_solver.
  - intros j lo [Hin|Heq%list_elem_of_singleton]%elem_of_app; [|by injection Heq as -> ->].
    eapply told_mono; [|by eapply ok_told]. intros port. rewrite Hg. lia.
  - intros port. rewrite Hg. by apply (ok_marks _ _ Hok).
  - intros j port. rewrite own_snoc. case_decide as Hd; [subst j|rewrite app_nil_r; by apply (ok_sorted _ _ Hok)].
    unfold readings. rewrite omap_app. destruct (reading port l) as [g|] eqn:Ep; cbn; rewrite Ep;
      [|rewrite app_nil_r; by apply (ok_sorted _ _ Hok)].
    apply sorted_snoc; [by apply (ok_sorted _ _ Hok)|].
    assert (g = generation port (w_session w)) as ->.
    { destruct l as [X e x]; destruct e; cbn in Ep; try done. destruct (port0 =? port) eqn:E; [|done].
      apply Z.eqb_eq in E as ->. injection Ep as <-. cbn in Ha. by destruct Ha as [-> _]. }
    apply Forall_forall. intros y (lo&Hlo&Hy)%list_elem_of_omap. by eapply Hle.
Qed.

Lemma generation_marked port p s :
  generation port (w_session s) < 2 ^ 64 - 1 -> 0 <= generation p (w_session s) < 2 ^ 64 ->
  generation p (w_session s) <= generation p (markStalePort port (w_session s)).1 < 2 ^ 64.
Proof.
  intros Hw Hp. unfold markStalePort. destruct (negb _); [cbn; lia|].
  unfold generation, stalePortStateFor in *. cbn.
  destruct (decide (p = port)) as [->|Hne]; [rewrite lookup_insert_eq|rewrite lookup_insert_ne by done; lia].
  change (default 0 (Some ?x)) with x. rewrite u64_add_small by (unfold u64_modulus; lia). lia.
Qed.
Lemma meddle_ok past w w' : run_ok past w -> meddles w w' -> run_ok past w'.
Proof.
  intros Hok H.
  assert (hs_InitSuccesses (w_session w') = hs_InitSuccesses (w_session w) /\
          hs_InitSuccessGen (w_session w') = hs_InitSuccessGen (w_session w) /\
          hs_InFlightRequests (w_session w') = hs_InFlightRequests (w_session w) /\
          forall p, generation p (w_session w) <= generation p (w_session w') < 2 ^ 64) as (E1&E2&E3&Hg).
  { pose proof (ok_marks _ _ Hok) as Hm. destruct H; cbn; split_and!;
      first [done | unfold markStalePort; by destruct (negb _) | intros p; specialize (Hm p);
        first [by apply generation_marked | unfold generation, stalePortStateFor in *; cbn in *; lia]]. }
  split.
  - rewrite E1, E2. apply (ok_cache _ _ Hok).
  - rewrite E3. apply (ok_rows _ _ Hok).
  - intros i l Hin. eapply told_more; [|by eapply ok_told]. intros p. by destruct (Hg p).
  - intros p. destruct (Hg p), (ok_marks _ _ Hok p). lia.
  - apply (ok_sorted _ _ Hok).
Qed.

(** ** Runs, step by step *)
Hypothesis start : session_start.
Lemma start_ok : run_ok [] w0.
Proof.
  split.
  - intros ref sid Hs. left. by rewrite (start_gens start), lookup_empty.
  - intros k e. by rewrite (start_rows start), lookup_empty.
  - intros i l Hin. by apply not_elem_of_nil in Hin.
  - intros port. unfold generation, stalePortStateFor. rewrite (start_marks start), lookup_empty. cbn. lia.
  - intros. constructor.
Qed.
Lemma hub_run_ok past w : hub_run past w -> run_ok past w.
Proof.
  induction 1 as [|past w i l w' _ IH Hown Ha|past w w' _ IH Hm]; [apply start_ok| |by eapply meddle_ok].
  rewrite own_here in Hown. by eapply step_ok; [|eapply own_justified|].
Qed.
(** The last step of a run. *)
Lemma hub_run_last past i l w :
  hub_run (past ++ [(i, l)]) w ->
  exists w1 w2, hub_run past w1 /\ own_runs (gs i) (own i past ++ [l]) /\ answers past w1 l w2 /\ rtc meddles w2 w.
Proof.
  intros H. remember (past ++ [(i, l)]) as lg eqn:E. induction H as [|past' w i' l' w' H _ Hown Ha|past' w w' _ IH Hm].
  - by destruct past.
  - apply app_inj_2 in E as [-> [= -> ->]]; [|done]. rewrite own_here in Hown. exists w, w'. by split_and!.
  - destruct (IH E) as (w1&w2&?&?&?&?). exists w1, w2. split_and!; try done. by eapply rtc_r.
Qed.
(** A step of a goroutine, where it was taken. *)
Lemma own_step past w j l : hub_run past w -> l ∈ own j past -> exists before, own_runs (gs j) (before ++ [l]).
Proof.
  induction 1 as [|past w i' l' w' _ IH Hown Ha|past w w' _ IH Hm]; [by intros ?%not_elem_of_nil| |done].
  rewrite own_here in Hown. rewrite own_snoc. case_decide as Hd; [subst|rewrite app_nil_r; apply IH].
  intros [Hl|Hl%list_elem_of_singleton]%elem_of_app; [by apply IH|]. subst. eauto.
Qed.

(** Rows are the business of calls, each of its own id's. *)
Lemma own_row_key g before l k :
  own_runs g (before ++ [l]) -> row_key l = Some k -> exists id raw, g = GCall id raw /\ newRequestIDKey (jl_reader J) id = Ok k.
Proof.
  intros H Hk.
  assert (forall A (p : itree hubE A) o, only (fun l => row_key l = None) p -> ~ runs p (before ++ [l]) o) as Hq.
  { intros A p o Hq Hr%Hq. apply Forall_app in Hr as [_ [? _]%Forall_cons]. by rewrite Hk in *. }
  destruct g as [id raw|id|ref pv]; cbn in H; destruct H as [o Ho].
  - destruct (newRequestIDKey (jl_reader J) id) as [key|e] eqn:Ek.
    + exists id, raw. split; [done|]. destruct (call_guarded J (hs_ScopeKey (w_session w0)) (hs_SnapshotAtInit (w_session w0)) id raw key Ek
        _ _ Ho before l [] eq_refl) as [Hkey _]. by rewrite (Hkey _ Hk).
    + exfalso. eapply Hq; [|exact Ho]. eapply only_weaken; [|by eapply keyless_quiet]. by intros ? (_&?&_).
  - exfalso. eapply Hq; [|exact Ho]. unfold ForwardCancellation. walk_only.
  - exfalso. eapply Hq; [|exact Ho]. unfold flight, initializeDaemonSession. walk_only.
Qed.
Lemma cancel_sends id before l c o :
  runs (ForwardCancellation J id) (before ++ [l]) o -> cancel_of l = Some c ->
  exists key e proto, newRequestIDKey (jl_reader J) id = Ok key /\ Log (Lookup key) (Some e) ∈ before /\
    c = (if_DaemonRef e, if_DaemonSessionID e, proto, if_DaemonRequestID e).
Proof.
  unfold ForwardCancellation. destruct (newRequestIDKey (jl_reader J) id) as [key|e]; [|by intros [? _]%runs_ret; destruct before].
  intros [[? _]|(r&tr1&Etr&H)]%runs_vis Hc; [by destruct before|].
  destruct before as [|l0 before]; [by injection Etr as -> <-|]. injection Etr as -> <-.
  destruct r as [e|]; [|by apply runs_ret in H as [? _]; destruct before].
  apply runs_vis in H as [[? _]|(pv&tr2&Etr&H)]; [by destruct before|].
  destruct before as [|l1 before]; [by injection Etr as -> <-|]. injection Etr as -> <-. cbv zeta in H.
  apply runs_vis in H as [[? _]|(x&tr3&Etr&H)]; [by destruct before|].
  destruct before as [|l2 before]; [|by injection Etr as _ <-; apply runs_ret in H as [? _]; destruct before].
  injection Etr as -> <-. injection Hc as <-. exists key, e. eexists. split; [done|]. split; [set_solver|done].
Qed.

(** C16: a daemon only hears of its own sessions.  In every interleaving of
    calls, cancellations and handshakes of a hub session with each other and
    with restarts, publications and deletions, a tools/call is posted with a
    session that the daemon it is posted to, at that port, has itself issued:
    to the client's initialize, or to a handshake of this hub session.  A
    cancellation goes to the daemon, the session and the request of a row
    that a call of the same request id has put there, on such a session. *)
Theorem sent_on_own_sessions past i l w :
  hub_run (past ++ [(i, l)]) w ->
  (forall p, post_of l = Some p -> exists g, origin past (po_ref p) (po_sid p) g) /\
  (forall ref sid proto reqID, cancel_of l = Some (ref, sid, proto, reqID) ->
     exists id key j id' raw e g, gs i = GCancel id /\ newRequestIDKey (jl_reader J) id = Ok key /\
       gs j = GCall id' raw /\ newRequestIDKey (jl_reader J) id' = Ok key /\ Log (Insert key e) true ∈ own j past /\
       if_DaemonRef e = ref /\ if_DaemonSessionID e = sid /\ if_DaemonRequestID e = reqID /\ origin past ref sid g).
Proof.
  intros (w1&w2&Hrun&Hown&_&_)%hub_run_last. pose proof (hub_run_ok _ _ Hrun) as Hok. split.
  - intros p Hp. pose proof (own_justified _ _ _ Hown) as Hj. eapply knows_origin; [done|].
    destruct l as [X e x]; destruct e; cbn in Hp; try done. injection Hp as <-. exact Hj.
  - intros ref sid proto reqID Hc.
    assert (forall A (p : itree hubE A) o, only (fun l => cancel_of l = None) p -> ~ runs p (own i past ++ [l]) o) as Hq.
    { intros A p o Hq Hr%Hq. apply Forall_app in Hr as [_ [? _]%Forall_cons]. by rewrite Hc in *. }
    destruct (gs i) as [id raw|id|ref' pv] eqn:Eg; cbn in Hown; destruct Hown as [o Ho].
    + exfalso. eapply Hq; [|exact Ho]. apply call_cancels_nothing.
    + eapply cancel_sends in Ho as (key&e&proto'&Ek&Hl&Hc'); [|done]. simplify_eq.
      apply own_in, (ok_told _ _ Hok) in Hl as [_ Hl]. destruct (Hl e eq_refl) as [j Hj].
      destruct (own_step _ _ _ _ Hrun Hj) as [before Hb]. eapply own_row_key in Hb as (id'&raw&Ej&Ek'); [|done].
      pose proof Hj as [_ [g Hg]]%own_in%(ok_told _ _ Hok). by exists id, key, j, id', raw, e, g.
    + exfalso. eapply Hq; [|exact Ho]. unfold flight, initializeDaemonSession. walk_only.
Qed.

(** ** A session is as new as the restarts a call has seen *)

(** Whether the flights a program has joined have succeeded. *)
Definition join_of (l : ev hubE) : option bool :=
  match l with
  | Log e x => match e in hubE Y return Y -> option bool with JoinFlight _ _ => fun r => Some (is_ok r) | _ => fun _ => None end x
  end.
Definition joins (tr : events) : list bool := omap join_of tr.

Lemma reinit_joins scope ref tr r : runs (reinitDaemonSession scope ref) tr (Some r) -> joins tr = [bool_decide (is_Some r)].
Proof.
  unfold reinitDaemonSession, reinitializeDaemonBinding. intros H. step_returns H.
  apply returns_bind in H as (r'&tr1&tr2&->&H1&H2). repeat step_returns H1. repeat step_returns H2; done.
Qed.
(** How a refresh ends: a handshake has failed, the restarts never ceased, or
    it has found a session that is not older than the port's generation, read
    after it. *)
Definition found_fresh (tr : events) (ref : canonicalDaemonRef) (sid : string) : Prop :=
  exists tr1 v cur, tr = tr1 ++ [Log (ReadCache ref) v; Log (ReadGeneration (cr_Port ref)) cur] /\
    cv_sid v = Some sid /\ default 0 cur <= cv_gen v.
Lemma refresh_loop_fresh scope n ref sid proto tr sid' proto' port :
  runs (refresh_loop scope n ref sid proto) tr (Some (sid', proto', port)) ->
  false ∈ joins tr \/ (n <= length (joins tr))%nat \/ found_fresh tr (daemon_at ref port) sid'.
Proof.
  revert tr. induction n as [|n IH]; intros tr H; cbn [refresh_loop] in H; do 3 step_returns H; cbv zeta in H.
  1: { right. left. lia. }
  assert (forall t, runs (ITree.bind (reinitDaemonSession scope ref) (fun r => match r with
      | None => Ret (sid, proto, tr_Port ref)
      | Some _ => refresh_loop scope n ref sid proto
      end)) t (Some (sid', proto', port)) -> forall hd, joins hd = [] ->
    false ∈ joins (hd ++ t) \/ (S n <= length (joins (hd ++ t)))%nat \/ found_fresh (hd ++ t) (daemon_at ref port) sid') as Hre.
  { intros t Ht hd Hhd. apply returns_bind in Ht as (r&t1&t2&->&H1&H2). apply reinit_joins in H1 as Ej.
    unfold joins in *. rewrite !omap_app, Hhd, Ej. cbn [app]. destruct r as [r|]; cbn.
    - destruct (IH _ H2) as [?|[?|(t3&v&cur&->&?&?)]]; [left; set_solver|right; left; lia|right; right].
      exists (hd ++ t1 ++ t3), v, cur. by rewrite <- !app_assoc.
    - left. set_solver. }
  specialize (fun t Ht => Hre t Ht [Log LoadSnapshot x; Log (ReadCache (daemon_at ref (currentDaemonPort scope ref x))) x0;
    Log (ReadGeneration (currentDaemonPort scope ref x)) x1] eq_refl).
  destruct (cv_sid x0) as [fresh|] eqn:Es; [|by apply Hre]. destruct (default 0 x1 <=? cv_gen x0) eqn:Eg; [|by apply Hre].
  step_returns H. right. right. exists [Log LoadSnapshot x], x0, x1. split; [done|]. split; [done|lia].
Qed.
Definition only_zero (tr : events) : Prop := forall port, Forall (fun g => g = 0) (readings port tr).
Lemma refresh_fresh scope ref sid proto tr sid' proto' port :
  runs (refreshStalePortBeforeDispatch scope ref sid proto) tr (Some (sid', proto', port)) ->
  false ∈ joins tr \/ (maxProactiveReinitAttempts <= length (joins tr))%nat \/
  (only_zero tr /\ sid' = sid /\ port = tr_Port ref) \/ found_fresh tr (daemon_at ref port) sid'.
Proof.
  unfold refreshStalePortBeforeDispatch. intros H. step_returns H. destruct x as [g|].
  - apply refresh_loop_fresh in H as [?|[?|(t&v&cur&->&?&?)]]; [by left|by right; left|]. do 3 right.
    exists (Log (ReadGeneration (tr_Port ref)) (Some g) :: t), v, cur. done.
  - step_returns H. do 2 right. left. split; [|done]. intros p. cbn. destruct (tr_Port ref =? p); repeat constructor.
Qed.

(** What a call knows of the session it first posts on. *)
Definition fresh_knowledge (before : events) (ref : canonicalDaemonRef) (sid : string) : Prop :=
  (exists v, Log (ReadCache ref) v ∈ before /\ cv_sid v = Some sid /\ only_zero before) \/
  (exists tr1 v cur rest, before = tr1 ++ [Log (ReadCache ref) v; Log (ReadGeneration (cr_Port ref)) cur] ++ rest /\
     (forall port, readings port rest = []) /\ cv_sid v = Some sid /\ default 0 cur <= cv_gen v).
Definition fresh_guard (before : events) (l : ev hubE) : Prop :=
  forall p, post_of l = Some p -> posts before = [] -> false ∉ joins before ->
    (length (joins before) < maxProactiveReinitAttempts)%nat -> fresh_knowledge before (po_ref p) (po_sid p).
Lemma fresh_silent {A} before (p : itree hubE A) : only (fun l => post_of l = None) p -> guarded fresh_guard before p.
Proof. apply guarded_only. intros b l Hl q. by rewrite Hl. Qed.
Definition unread (l : ev hubE) : Prop := join_of l = None /\ forall port, reading port l = None.
Lemma resolve_unread scope init id raw : only unread (resolveToolsCallRoute J scope init id raw).
Proof. unfold resolveToolsCallRoute, revalidate_route, target_session, cachedDaemonInitState. walk_only. Qed.
Lemma unread_facts tr : Forall unread tr -> joins tr = [] /\ forall port, readings port tr = [].
Proof.
  induction 1 as [|l tr [Hj Hr] _ [IH1 IH2]]; [done|]. cbn. rewrite Hj. split; [done|]. intros port.
  unfold readings in IH2. by rewrite Hr.
Qed.
Lemma quiet_silent {A} (p : itree hubE A) : only quiet p -> only (fun l => post_of l = None) p.
Proof. apply only_weaken. by intros l [? _]. Qed.

Lemma call_fresh scope init id raw : guarded fresh_guard [] (AggregateToolsCall J scope init id raw).
Proof.
  unfold AggregateToolsCall. apply guarded_bind; [apply fresh_silent, quiet_silent, route_quiet|].
  intros [t|r] tr1 H1; [|apply guarded_ret]. pose proof (resolve_unread _ _ _ _ _ _ H1) as [Hj1 Hr1]%unread_facts.
  apply resolve_spec in H1 as [_ Hk]. unfold dispatchToolsCall.
  apply guarded_bind; [apply fresh_silent, quiet_silent, refresh_quiet|]. intros [[sid proto] port] tr2 H2. cbv zeta.
  pose proof H2 as Hq%refresh_quiet%quiet_posts.
  assert (forall tr, Forall unread tr -> false ∉ joins ((([] ++ tr1) ++ tr2) ++ tr) ->
    (length (joins ((([] ++ tr1) ++ tr2) ++ tr)) < maxProactiveReinitAttempts)%nat ->
    fresh_knowledge ((([] ++ tr1) ++ tr2) ++ tr) (daemon_of_tool (tool_at (ct_ref t) port)) sid) as Hf.
  { intros tr [Hjt Hrt]%unread_facts. unfold joins in *. rewrite !omap_app, Hj1, Hjt. cbn. rewrite app_nil_r.
    intros Hok Hlt. apply refresh_fresh in H2 as [?|[?|[(Hz&->&->)|(t1&v&cur&->&Hs&Hg)]]]; [done|unfold joins in *; lia| |].
    - left. destruct Hk as [(v&Hv&Hs)|(pv&st&Hl&_)].
      + exists v. split; [set_solver|]. split; [done|]. intros p. unfold readings. rewrite !omap_app. unfold readings in *.
        rewrite Hr1, Hrt, app_nil_r. apply Hz.
      + exfalso. assert (true ∈ omap join_of tr1) as Hin by (apply list_elem_of_omap; by eexists).
        rewrite Hj1 in Hin. by apply not_elem_of_nil in Hin.
    - right. exists (tr1 ++ t1), v, cur, tr. split; [|done]. by rewrite <- !app_assoc. }
  destruct (buildRewrittenParams J _ raw) as [[params|e]|]; [|apply guarded_ret..].
  apply guarded_vis; [by intros ? ? ?|intros tok]. destruct tok as [tok|]; [|apply guarded_ret].
  destruct (newRequestIDKey _ id) as [key|]; [|apply guarded_ret].
  apply guarded_vis; [by intros ? ? ?|intros now]. apply guarded_vis; [by intros ? ? ?|intros b].
  destruct (negb b); [apply guarded_ret|]. rewrite <- (app_assoc _ [_] [_]), <- (app_assoc _ [_] ([_] ++ [_])). cbn [app].
  apply guarded_bind; [|intros r tr _; apply guarded_vis; [by intros ? ? ?|intros; apply guarded_ret]].
  unfold exchange. apply guarded_bind.
  - unfold postToolsCall. destruct (jl_call J _ params); [|apply guarded_ret].
    apply guarded_vis; [|intros; apply guarded_ret]. intros r p [= <-] _ Hok Hlt. apply Hf; [|done..].
    by repeat constructor.
  - intros [body|e] tr3 H3; [apply guarded_ret|]. cbv zeta. destruct (isRetriableTransportFailure e) eqn:Er; [|apply guarded_ret].
    apply post_spec in H3 as [[_ [e' ?]]|(body&_&->)]; [by simplify_eq|].
    intros tr o _ pre l post _ p _ Hno. exfalso. unfold posts in Hno. rewrite !omap_app in Hno. cbn in Hno.
    by apply app_nil in Hno as [[_ ?]%app_nil _].
Qed.
Lemma own_fresh i past l : own_runs (gs i) (own i past ++ [l]) -> fresh_guard (own i past) l.
Proof.
  assert (forall A (p : itree hubE A) o, only (fun l => post_of l = None) p -> runs p (own i past ++ [l]) o -> fresh_guard (own i past) l) as Hq.
  { intros A p o Hq Hr%Hq q. apply Forall_app in Hr as [_ [Hl _]%Forall_cons]. by rewrite Hl. }
  destruct (gs i); cbn; intros [o Ho].
  - by apply (call_fresh _ _ _ _ _ _ Ho (own i past) l []).
  - eapply Hq; [|exact Ho]. unfold ForwardCancellation. walk_only.
  - eapply Hq; [|exact Ho]. unfold flight, initializeDaemonSession. walk_only.
Qed.
Lemma sorted_last l x rest : StronglySorted Z.le (l ++ x :: rest) -> Forall (fun y => y <= x) l.
Proof.
  induction l as [|y l IH]; cbn; [constructor|]. intros [Hs Hy]%StronglySorted_inv. constructor; [|by apply IH].
  by apply Forall_app in Hy as [_ [? _]%Forall_cons].
Qed.
Lemma origin_nonneg past w ref sid g : run_ok past w -> origin past ref sid g -> 0 <= g.
Proof.
  intros Hok [[_ ->]|(j&g0&pv&neg&rest&->&Hown)]; [done|].
  assert (Log (ReadGeneration (cr_Port ref)) g0 ∈ own j past) as [Ht _]%own_in%(ok_told _ _ Hok) by (rewrite Hown; set_solver).
  destruct (Ht (cr_Port ref) (default 0 g0)) as [? _]; [|done]. cbn. by rewrite Z.eqb_refl.
Qed.

(** C17: what a call is posted on first is as new as the restarts it has seen.
    Unless a handshake the call waited for has failed, or the port was found
    restarted again after each of the handshakes it is allowed, the session it
    posts on was issued to a handshake that dialled after the port had been
    marked with every restart the call has read of; a session from the
    client's initialize is used only where the call has read of none. *)
Theorem first_post_fresh past i l w p :
  hub_run (past ++ [(i, l)]) w -> post_of l = Some p -> posts (own i past) = [] ->
  false ∉ joins (own i past) -> (length (joins (own i past)) < maxProactiveReinitAttempts)%nat ->
  exists g, origin past (po_ref p) (po_sid p) g /\ Forall (fun g' => g' <= g) (readings (cr_Port (po_ref p)) (own i past)).
Proof.
  intros (w1&w2&Hrun&Hown&_&_)%hub_run_last Hp Hps Hj Hlen. pose proof (hub_run_ok _ _ Hrun) as Hok.
  apply own_fresh in Hown. destruct (Hown p Hp Hps Hj Hlen) as [(v&Hv&Hs&Hz)|(tr1&v&cur&rest&Etr&Hr&Hs&Hg)].
  - apply own_in, (ok_told _ _ Hok) in Hv as [_ Hv]. specialize (Hv _ Hs). exists (cv_gen v). split; [done|].
    eapply origin_nonneg in Hv; [|done]. eapply Forall_impl; [apply Hz|]. cbn. lia.
  - assert (Log (ReadCache (po_ref p)) v ∈ own i past) as [_ Hv]%own_in%(ok_told _ _ Hok) by (rewrite Etr; set_solver).
    specialize (Hv _ Hs). exists (cv_gen v). split; [done|].
    pose proof (ok_sorted _ _ Hok i (cr_Port (po_ref p))) as Hsort. rewrite Etr in Hsort |- *.
    unfold readings in *. rewrite !omap_app in Hsort |- *. cbn in Hsort |- *. rewrite Z.eqb_refl in Hsort |- *. rewrite Hr in Hsort |- *.
    apply sorted_last in Hsort. apply Forall_app. split; [|by repeat constructor].
    eapply Forall_impl; [exact Hsort|]. cbn. lia.
Qed.

(** ** Rows *)

(** Calls that are under way at the same time have different ids. *)
Definition distinct_ids : Prop := forall i j id raw id' raw' key,
  gs i = GCall id raw -> gs j = GCall id' raw' -> newRequestIDKey (jl_reader J) id = Ok key ->
  newRequestIDKey (jl_reader J) id' = Ok key -> i = j.
Definition rows_ok (past : log) (w : world) : Prop := forall i id raw key,
  gs i = GCall id raw -> newRequestIDKey (jl_reader J) id = Ok key ->
  hs_InFlightRequests (w_session w) !! key = row_of key (own i past) /\ fits key None (own i past).

Lemma answers_rows past w l w' key :
  answers past w l w' -> row_key l <> Some key ->
  hs_InFlightRequests (w_session w') !! key = hs_InFlightRequests (w_session w) !! key.
Proof.
  destruct l as [X e x]; destruct e; cbn; try (intros [-> ->] || intros [_ ->] || intros ->); auto; intros Hk.
  - unfold InsertInFlight. destruct (hs_InFlightRequests (w_session w) !! key0) eqn:Ek; [done|]. cbn.
    apply lookup_insert_ne. congruence.
  - unfold RemoveInFlight. destruct (hs_InFlightRequests (w_session w) !! key0) eqn:Ek; [|done]. cbn.
    apply lookup_delete_ne. congruence.
  - unfold cacheReinitResult. by destruct (hs_deleteStarted (w_session w)).
Qed.
Lemma answers_own_row past w l w' key :
  answers past w l w' -> row_key l = Some key ->
  hs_InFlightRequests (w_session w') !! key = row_step key (hs_InFlightRequests (w_session w) !! key) l /\
  insert_fits key (hs_InFlightRequests (w_session w) !! key) l.
Proof.
  destruct l as [X e x]; destruct e; cbn; try done; [intros [-> ->]|intros ->]; intros [= ->]; cbn; rewrite String.eqb_refl.
  - unfold InsertInFlight. destruct (hs_InFlightRequests (w_session w) !! key) eqn:Ek; cbn; [by rewrite Ek|].
    by rewrite lookup_insert_eq.
  - unfold RemoveInFlight. destruct (hs_InFlightRequests (w_session w) !! key) eqn:Ek; cbn; [by rewrite lookup_delete_eq|by rewrite Ek].
Qed.
Lemma insert_fits_other key row l : row_key l <> Some key -> row_step key row l = row /\ insert_fits key row l.
Proof.
  destruct l as [X e x]; destruct e; cbn; try done; intros Hk; (destruct (String.eqb_spec key0 key) as [->|?]; [done|]); done.
Qed.
Lemma hub_run_rows past w : distinct_ids -> hub_run past w -> rows_ok past w.
Proof.
  intros Hd. induction 1 as [|past w i l w' _ IH Hown Ha|past w w' _ IH Hm]; intros j id raw key Ej Ek.
  - by rewrite (start_rows start), lookup_empty.
  - destruct (IH j id raw key Ej Ek) as [Hr Hf]. rewrite own_here in Hown. rewrite own_snoc. case_decide as Hij.
    + subst j. rewrite row_of_snoc, fits_app. fold (row_of key (own i past)). cbn [fits]. rewrite <- Hr.
      destruct (decide (row_key l = Some key)) as [Hk|Hk].
      * by destruct (answers_own_row _ _ _ _ _ Ha Hk) as [-> ?].
      * rewrite (answers_rows _ _ _ _ _ Ha Hk). by destruct (insert_fits_other key (hs_InFlightRequests (w_session w) !! key) l Hk) as [-> ?].
    + rewrite app_nil_r. rewrite (answers_rows _ _ _ _ _ Ha); [done|]. intros Hk.
      eapply own_row_key in Hown as (id'&raw'&Ei&Ek'); [|done]. by eapply Hij, Hd.
  - destruct (IH j id raw key Ej Ek) as [Hr Hf]. split; [|done]. rewrite <- Hr. destruct Hm; try done.
    cbn. unfold markStalePort. by destruct (negb _).
Qed.

(** C24: the row of a call tells where it is.  If the calls of a session have
    different ids, then whenever one is posted the row of its id holds the
    daemon, session, protocol and request it is posted with; and once it has
    returned its row is gone. *)
Theorem row_tells_where past i w id raw key :
  distinct_ids -> gs i = GCall id raw -> newRequestIDKey (jl_reader J) id = Ok key -> hub_run past w ->
  (forall before l p, past = before ++ [(i, l)] -> post_of l = Some p ->
     row_matches_post (hs_InFlightRequests (w_session w) !! key) p) /\
  (forall r, runs (AggregateToolsCall J (hs_ScopeKey (w_session w0)) (hs_SnapshotAtInit (w_session w0)) id raw) (own i past) (Some r) ->
     hs_InFlightRequests (w_session w) !! key = None).
Proof.
  intros Hd Ei Ek Hrun. destruct (hub_run_rows _ _ Hd Hrun i id raw key Ei Ek) as [-> Hf]. split.
  - intros before l p -> Hp. apply hub_run_last in Hrun as (w1&w2&Hrun&Hown&_&_). rewrite own_here in Hf |- *.
    apply fits_app in Hf as [Hf _]. rewrite Ei in Hown. cbn in Hown. destruct Hown as [o Ho].
    destruct (call_guarded J _ _ id raw key Ek _ _ Ho (own i before) l [] eq_refl) as [_ Hg].
    rewrite row_of_snoc. destruct (insert_fits_other key (row_of key (own i before)) l) as [-> _]; [|by apply Hg].
    destruct l as [X e x]; by destruct e.
  - intros r Hr. by eapply call_row_gone.
Qed.
End Runs.

(** ** Playing runs

    A schedule says which goroutine steps next, or what else happens; daemons
    and random numbers answer from a script. *)
Record script := mkScript {
  sc_tokens : list (res string); sc_posts : list (string + post_error); sc_inits : list (res (string * string)); sc_now : time;
}.
Inductive hub_move :=
| Publish (c : option ResolverSnapshot)
| Restart (port : Z)
| DeleteSession
| Routes (m : option (gmap string canonicalToolRef)).

Definition landed (ref : canonicalDaemonRef) (l : ev hubE) : option daemonInitState :=
  match l with
  | Log e _ => match e with LandFlight ref' (Ok st) => if decide (ref' = ref) then Some st else None | _ => None end
  end.
Definition join_answer (ref : canonicalDaemonRef) (past : log) : res daemonInitState :=
  match last (omap (fun x => landed ref x.2) past) with Some st => Ok st | None => Err (errors_New "context canceled") end.

Definition serve (past : log) (w : world) (X : Type) (e : hubE X) (sc : script) : X * world * script :=
  let s := w_session w in
  let stay {A} (a : A) := (a, w, sc) in
  match e in hubE Y return Y * world * script with
  | LoadRouteMap => stay (hs_RouteMap s)
  | LoadSnapshot => stay (w_current w)
  | ReadCache ref => stay (view_of ref s)
  | ReadProtocolVersion => stay (hs_ProtocolVersion s)
  | ReadGeneration port => stay (stalePortStateFor port s)
  | HexToken => (default (Err (errors_New "crypto/rand")) (head (sc_tokens sc)), w, mkScript (tail (sc_tokens sc)) (sc_posts sc) (sc_inits sc) (sc_now sc))
  | Now => (sc_now sc, w, mkScript (sc_tokens sc) (sc_posts sc) (sc_inits sc) (sc_now sc + 1))
  | Insert key entry => ((InsertInFlight key entry s).2, mkWorld (InsertInFlight key entry s).1 (w_current w), sc)
  | Remove key => (tt, mkWorld (RemoveInFlight key s) (w_current w), sc)
  | Lookup key => stay (LookupInFlight key s)
  | PostCall _ _ _ _ _ =>
      (default (inl "answer") (head (sc_posts sc)), w, mkScript (sc_tokens sc) (tail (sc_posts sc)) (sc_inits sc) (sc_now sc))
  | PostCancel _ _ _ _ => stay tt
  | JoinFlight ref _ => stay (join_answer ref past)
  | DialInitialize _ _ => stay tt
  | AwaitInitialize _ =>
      (default (Err (errors_New "refused")) (head (sc_inits sc)), w, mkScript (sc_tokens sc) (sc_posts sc) (tail (sc_inits sc)) (sc_now sc))
  | PostInitialized _ _ _ => stay None
  | PostDelete _ _ _ => stay tt
  | Cache ref sid negotiated pv gen =>
      let r := cacheReinitResult ref sid negotiated pv gen s in (r.2, mkWorld r.1 (w_current w), sc)
  | LandFlight _ _ => stay tt
  end.
Lemma serve_answers past w X (e : hubE X) sc : answers past w (Log e (serve past w X e sc).1.1) (serve past w X e sc).1.2.
Proof.
  destruct e; cbn; auto. split; [|done]. intros st. unfold join_answer.
  destruct (last (omap (fun x => landed ref x.2) past)) as [st'|] eqn:El; [|done]. intros [= ->].
  apply last_Some_elem_of, list_elem_of_omap in El as ([j l]&Hin&Hl). exists j. cbn in Hl.
  assert (l = Log (LandFlight ref (Ok st)) tt) as ->.
  { destruct l as [X e x]; destruct e; try done. cbn in Hl. destruct result as [st'|]; [|done].
    case_decide; [|done]. injection Hl as ->. by destruct x; subst. }
  unfold own. apply list_elem_of_fmap. exists (j, Log (LandFlight ref (Ok st)) tt). split; [done|].
  by apply list_elem_of_filter.
Qed.

Section Player.
Variables (J : json_lib) (gs : nat -> goroutine) (w0 : world).
Definition program (g : goroutine) : itree hubE unit :=
  match g with
  | GCall id raw => ITree.bind (AggregateToolsCall J (hs_ScopeKey (w_session w0)) (hs_SnapshotAtInit (w_session w0)) id raw) (fun _ => Ret tt)
  | GCancel id => ForwardCancellation J id
  | GFlight ref pv => flight ref pv
  end.
Lemma program_runs g tr o : runs (program g) tr o -> own_runs J w0 g tr.
Proof.
  destruct g; cbn; [|by exists o..]. intros [[_ H]|(a&tr1&tr2&->&H1&[-> _]%runs_ret)]%runs_bind; [by exists None|].
  rewrite app_nil_r. by exists (Some a).
Qed.

Definition hub_moved (m : hub_move) (w : world) : world :=
  let s := w_session w in
  match m with
  | Publish c => mkWorld s c
  | Restart port => if default 0 (stalePortStateFor port s) <? 2 ^ 64 - 1 then mkWorld (markStalePort port s).1 (w_current w) else w
  | DeleteSession => mkWorld (markDeleteStarted s) (w_current w)
  | Routes m => mkWorld (s <| hs_RouteMap := m |>) (w_current w)
  end.
Definition hub_play : script -> list (turn (M := hub_move)) -> board := play_all (fun i => program (gs i)) serve hub_moved w0.
Lemma play_all_run sc turns : hub_run J gs w0 (b_log (hub_play sc turns)) (b_world (hub_play sc turns)).
Proof.
  unfold hub_play. apply play_log; [| |constructor].
  - intros past w i X e sc' Hr r Hi. pose proof (serve_answers past w X e sc') as Ha. fold r in Ha.
    eapply run_step; [done| |done]. rewrite own_here. by eapply program_runs.
  - intros past w m Hr. destruct m as [c|port| |m]; cbn; try (eapply run_meddle; [exact Hr|constructor]).
    destruct (_ <? _) eqn:E; [|done]. eapply run_meddle; [exact Hr|constructor; lia].
Qed.
End Player.

(** ** A restart, a call and its cancellation *)
Definition demo_session : hubSession :=
  AggregateInitialize [Ok ("old", "v")]
    (mkSession "id-a" "codex-cli" "hub" "v" (Some demo_snapshot) [demo_daemon] ∅ ∅ ∅ [] (Some {["serena__find" := demo_tool]})
       ∅ 0 0 0 false ∅).
Definition demo_start : world := mkWorld demo_session (Some demo_snapshot).
(** The client spells the id of its cancellation differently. *)
Definition demo_gs (i : nat) : goroutine :=
  match i with O => GCall "1" "call" | 1%nat => GFlight demo_daemon "v" | _ => GCancel "1.0" end.
Definition demo_script : script := mkScript [Ok "0123456789abcdef0123"] [inl "answer"] [Ok ("new", "v")] 7.
Definition demo_turns : list (turn (M := hub_move)) :=
  [Move (Restart 9125)] ++ replicate 9 (Step 0) ++ replicate 6 (Step 1) ++ replicate 7 (Step 0).
Notation demo_play turns := (hub_play demo_json demo_gs demo_start demo_script turns).
Definition demo_log := b_log (demo_play demo_turns).
Definition log_post := b_log (demo_play (demo_turns ++ [Step 0])).
Definition log_cancel := b_log (demo_play (demo_turns ++ replicate 3 (Step 2))).
Definition demo_request : string := daemon_request_id "0123456789abcdef0123".
Definition demo_row_entry : inflightEntry := mkInflight demo_daemon "new" "v" demo_request 7.
Definition demo_post : post := mkPost demo_daemon "new" "v" demo_request (demo_request +:+ " tools/call q=x,name=find") (inl "answer").
Definition step_post : ev hubE := Log (PostCall demo_daemon "new" "v" demo_request (demo_request +:+ " tools/call q=x,name=find")) (inl "answer").
Definition step_cancel : ev hubE := Log (PostCancel demo_daemon "new" "v" demo_request) tt.
Definition log_looked := b_log (demo_play (demo_turns ++ replicate 2 (Step 2))).

Lemma demo_session_start : session_start demo_start.
Proof. by split. Qed.
Lemma run_post : hub_run demo_json demo_gs demo_start (demo_log ++ [(0%nat, step_post)]) (b_world (demo_play (demo_turns ++ [Step 0]))).
Proof.
  assert (demo_log ++ [(0%nat, step_post)] = log_post) as -> by (vm_compute; reflexivity).
  exact (play_all_run demo_json demo_gs demo_start demo_script (demo_turns ++ [Step 0])).
Qed.
Lemma run_cancel :
  hub_run demo_json demo_gs demo_start (log_looked ++ [(2%nat, step_cancel)]) (b_world (demo_play (demo_turns ++ replicate 3 (Step 2)))).
Proof.
  assert (log_looked ++ [(2%nat, step_cancel)] = log_cancel) as -> by (vm_compute; reflexivity).
  exact (play_all_run demo_json demo_gs demo_start demo_script (demo_turns ++ replicate 3 (Step 2))).
Qed.
Lemma demo_distinct : distinct_ids demo_json demo_gs.
Proof. intros [|[|i]] [|[|j]] id raw id' raw' key; cbn; try done. Qed.

Lemma sent_on_own_sessions_witness :
  (exists g, origin demo_start demo_log demo_daemon "new" g) /\
  (exists id key j id' raw e g, demo_gs 2 = GCancel id /\ newRequestIDKey (jl_reader demo_json) id = Ok key /\
     demo_gs j = GCall id' raw /\ newRequestIDKey (jl_reader demo_json) id' = Ok key /\ Log (Insert key e) true ∈ own j log_looked /\
     if_DaemonRef e = demo_daemon /\ if_DaemonSessionID e = "new" /\ if_DaemonRequestID e = demo_request /\
     origin demo_start log_looked demo_daemon "new" g).
Proof.
  split.
  - exact (proj1 (sent_on_own_sessions demo_json demo_gs demo_start demo_session_start demo_log 0 step_post _ run_post) demo_post eq_refl).
  - exact (proj2 (sent_on_own_sessions demo_json demo_gs demo_start demo_session_start log_looked 2 step_cancel _ run_cancel)
      demo_daemon "new" "v" demo_request eq_refl).
Defined.
Lemma first_post_fresh_witness :
  readings 9125 (own 0 demo_log) = [1; 1; 1] /\
  exists g, origin demo_start demo_log demo_daemon "new" g /\ Forall (fun g' => g' <= g) (readings 9125 (own 0 demo_log)).
Proof.
  split; [vm_compute; reflexivity|].
  apply (first_post_fresh demo_json demo_gs demo_start demo_session_start demo_log 0 step_post _ demo_post run_post).
  - reflexivity.
  - vm_compute. reflexivity.
  - assert (joins (own 0 demo_log) = [true]) as -> by (vm_compute; reflexivity). by intros ?%list_elem_of_singleton.
  - assert (joins (own 0 demo_log) = [true]) as -> by (vm_compute; reflexivity). unfold maxProactiveReinitAttempts. cbn. lia.
Defined.
Lemma row_tells_where_witness :
  row_matches_post (hs_InFlightRequests (w_session (b_world (demo_play (demo_turns ++ [Step 0])))) !! "n:1") demo_post.
Proof.
  exact (proj1 (row_tells_where demo_json demo_gs demo_start demo_session_start (demo_log ++ [(0%nat, step_post)]) 0 _ "1" "call" "n:1"
    demo_distinct eq_refl eq_refl run_post) demo_log step_post demo_post eq_refl eq_refl).
Defined.

(** A self-healing call takes its row out and puts it in again, and does not
    look whether that worked.  A call with the same id that comes in between
    is not refused; the first call then removes the second one's row while
    the second is still to be posted, and its cancellation finds nothing. *)
Definition twin_gs (i : nat) : goroutine :=
  match i with O => GCall "1" "call" | 1%nat => GCall "1" "call" | _ => GFlight demo_daemon "v" end.
Definition twin_script : script :=
  mkScript [Ok "0123456789abcdef0123"; Ok "aaaabbbbccccddddeeee"; Ok "ffff0000ffff00001111"] [inr refused; inl "answer"] [Ok ("new", "v")] 7.
Definition twin_turns : list (turn (M := hub_move)) :=
  replicate 6 (Step 2) ++ replicate 13 (Step 0) ++ replicate 7 (Step 1) ++ replicate 4 (Step 0).
Definition twin_board := hub_play demo_json twin_gs demo_start twin_script twin_turns.
Example twin_row_lost :
  hs_InFlightRequests (w_session (b_world twin_board)) = ∅ /\
  row_of "n:1" (own 1 (b_log twin_board)) =
    Some (mkInflight demo_daemon "new" "v" (daemon_request_id "ffff0000ffff00001111") 8) /\
  length (posts (own 0 (b_log twin_board))) = 2%nat /\ posts (own 1 (b_log twin_board)) = [].
Proof. vm_compute. done. Qed.
(** Between the two the session has no call in flight, and may be evicted. *)
Definition healing_board := hub_play demo_json twin_gs demo_start twin_script (replicate 6 (Step 2) ++ replicate 13 (Step 0)).
Example healing_session_idle :
  InFlightCount (w_session (b_world healing_board)) = 0 /\ length (posts (own 0 (b_log healing_board))) = 1%nat.
Proof. vm_compute. done. Qed.
