(* ===== verification/ToolsList.v ===== *)
(** * ToolsList: the tools a scope is shown.

    [AggregateToolsList] of [api/hub_mcp_aggregator.go]: which daemons are
    asked, how their answers are merged into one list and one route map,
    what becomes of names that several daemons claim and of tools a group
    hides.  The daemons are asked concurrently: their answers are given in
    any order. *)
From S2P Require Import Prelude GoTime RequestId Resolver Sessions ToolCalls.
Open Scope Z_scope.

(** ** Answers *)
Record namespacedTool := mkNamespaced { nt_Exposed : string; nt_Body : string; nt_Ref : canonicalToolRef }.
Record listResult := mkListResult { lr_ref : canonicalDaemonRef; lr_tools : list namespacedTool; lr_err : option error }.

(** The daemon's tools under the names they are shown by; a tool without a
    name is dropped. *)
Definition exposed_name (server rawName : string) : string := server +:+ "__" +:+ rawName.
Definition nameSpaceTool (J : json_lib) (ref : canonicalDaemonRef) (tool : string) : option namespacedTool :=
  match jl_fields J tool with
  | Err _ => None
  | Ok m =>
      let m := default ∅ m in
      match (match m !! "name" with Some field => jr_string (jl_reader J) field | None => Ok "" end) with
      | Err _ => None
      | Ok rawName =>
          if rawName =s "" then None
          else
            let exposed := exposed_name (cr_Server ref) rawName in
            match jl_string J exposed with
            | Err _ => None
            | Ok exposedJSON =>
                match jl_object J (<["name" := exposedJSON]> m) with
                | Err _ => None
                | Ok nb => Some (mkNamespaced exposed nb (mkToolRef (cr_Server ref) (cr_Daemon ref) (cr_Port ref) rawName))
                end
            end
      end
  end.
Definition nameSpaceTools (J : json_lib) (ref : canonicalDaemonRef) (tools : list string) : list namespacedTool :=
  omap (nameSpaceTool J ref) tools.

(** ** What a group hides *)
Definition hiddenToolSet : Type := gmap string (gset string).
Definition buildHiddenToolSet (filter : gmap string (list string)) : hiddenToolSet :=
  omap (fun names => match names with [] => None | _ => Some (list_to_set names) end) filter.
Definition hides (s : hiddenToolSet) (server rawName : string) : bool :=
  match s !! server with Some m => bool_decide (rawName ∈ m) | None => false end.
Definition hides_tool (s : hiddenToolSet) (t : namespacedTool) : bool := hides s (tr_Server (nt_Ref t)) (tr_RawName (nt_Ref t)).

(** ** Merging *)

(** Answers are put in the order of the daemons, who are different. *)
Definition ref_less (a b : canonicalDaemonRef) : bool :=
  if negb (cr_Server a =s cr_Server b) then str_ltb (cr_Server a) (cr_Server b)
  else if negb (cr_Daemon a =s cr_Daemon b) then str_ltb (cr_Daemon a) (cr_Daemon b)
  else cr_Port a <? cr_Port b.
Definition result_le (a b : listResult) : Prop := ref_less (lr_ref b) (lr_ref a) = false.
#[export] Instance result_le_dec : RelDecision result_le.
Proof. intros a b. unfold result_le. apply _. Defined.

(** Pass 1: the daemons that claim a name, hidden tools aside. *)
Definition claim (hidden : hiddenToolSet) (ref : canonicalDaemonRef) (m : gmap string (gset canonicalDaemonRef)) (t : namespacedTool) :
    gmap string (gset canonicalDaemonRef) :=
  if hides_tool hidden t then m else <[nt_Exposed t := {[ref]} ∪ default ∅ (m !! nt_Exposed t)]> m.
Definition claim_all (hidden : hiddenToolSet) (m : gmap string (gset canonicalDaemonRef)) (r : listResult) :
    gmap string (gset canonicalDaemonRef) :=
  match lr_err r with Some _ => m | None => foldl (claim hidden (lr_ref r)) m (lr_tools r) end.
Definition keyDaemons (hidden : hiddenToolSet) (results : list listResult) : gmap string (gset canonicalDaemonRef) :=
  foldl (claim_all hidden) ∅ results.
Definition colliding (claims : gmap string (gset canonicalDaemonRef)) : gmap string (gset canonicalDaemonRef) :=
  filter (fun kv => (1 < size kv.2)%nat) claims.

(** The rows of a collision name its daemons in the order of server and
    daemon; two ports of one daemon stay in the order the set has them. *)
Definition daemon_le (a b : canonicalDaemonRef) : Prop :=
  (if negb (cr_Server b =s cr_Server a) then str_ltb (cr_Server b) (cr_Server a) else str_ltb (cr_Daemon b) (cr_Daemon a)) = false.
#[export] Instance daemon_le_dec : RelDecision daemon_le.
Proof. intros a b. unfold daemon_le. apply _. Defined.
Definition collision_rows (k : string) (claimants : gset canonicalDaemonRef) : list DaemonFailure :=
  let refs := merge_sort daemon_le (elements claimants) in
  let joined := String.concat ", " ((fun ref => cr_Server ref +:+ "/" +:+ cr_Daemon ref) <$> refs) in
  (fun ref => mkDaemonFailure (cr_Server ref) (cr_Daemon ref) "tools/list"
     ("namespace collision on exposed tool name " +:+ quoted k +:+ " claimed by daemons: " +:+ joined)) <$> refs.
Definition collisionFailures (collisions : gmap string (gset canonicalDaemonRef)) : list DaemonFailure :=
  sort_strings (map_keys collisions) ≫= fun k => collision_rows k (default ∅ (collisions !! k)).

(** Pass 2: the tools that are left, and why the others are not. *)
Record merge := mkMerge {
  mg_flatTools : list namespacedTool; mg_seen : gset string; mg_listFailures : list DaemonFailure;
  mg_successes : Z; mg_hiddenDrop : Z; mg_otherDrop : Z;
}.
Definition merge_tool (collisions : gmap string (gset canonicalDaemonRef)) (hidden : hiddenToolSet) (g : merge) (t : namespacedTool) : merge :=
  let '(mkMerge flat seen failures n h o) := g in
  if bool_decide (is_Some (collisions !! nt_Exposed t)) then mkMerge flat seen failures n h (o + 1)
  else if bool_decide (nt_Exposed t ∈ seen) then mkMerge flat seen failures n h (o + 1)
  else if hides_tool hidden t then mkMerge flat seen failures n (h + 1) o
  else mkMerge (flat ++ [t]) ({[nt_Exposed t]} ∪ seen) failures n h o.
Definition merge_result (collisions : gmap string (gset canonicalDaemonRef)) (hidden : hiddenToolSet) (g : merge) (r : listResult) : merge :=
  match lr_err r with
  | Some e =>
      mkMerge (mg_flatTools g) (mg_seen g)
        (mg_listFailures g ++ [mkDaemonFailure (cr_Server (lr_ref r)) (cr_Daemon (lr_ref r)) "tools/list" (err_text e)])
        (mg_successes g) (mg_hiddenDrop g) (mg_otherDrop g)
  | None =>
      foldl (merge_tool collisions hidden)
        (mkMerge (mg_flatTools g) (mg_seen g) (mg_listFailures g) (mg_successes g + 1) (mg_hiddenDrop g) (mg_otherDrop g)) (lr_tools r)
  end.
Definition merge_results (hidden : hiddenToolSet) (results : list listResult) : merge :=
  foldl (merge_result (colliding (keyDaemons hidden results)) hidden) (mkMerge [] ∅ [] 0 0 0) results.

Definition exposed_le (a b : namespacedTool) : Prop := str_le (nt_Exposed a) (nt_Exposed b).
#[export] Instance exposed_le_dec : RelDecision exposed_le.
Proof. intros a b. unfold exposed_le. apply _. Defined.
Definition mergedRoutes (flat : list namespacedTool) : gmap string canonicalToolRef :=
  foldl (fun m t => <[nt_Exposed t := nt_Ref t]> m) ∅ flat.

(** ** The response *)
Definition emptyReasonEmptyGroup : string := "empty-group".
Definition emptyReasonAllMembersUnresolved : string := "all-members-unresolved".
Definition emptyReasonAllToolsHidden : string := "all-tools-hidden".
Inductive tools_response :=
| ListOk (tools : list string) (failures : list DaemonFailure) (instanceID : string) (emptyReason : option string)
| ListFailed (failures : list DaemonFailure) (instanceID : string).
(** The reason is shown with an empty list only, and only if there is one. *)
Definition buildToolsListResponse (tools : list string) (failures : list DaemonFailure) (instanceID emptyReason : string) : tools_response :=
  ListOk tools failures instanceID
    (match tools with [] => if emptyReason =s "" then None else Some emptyReason | _ => None end).

(** The route map that is stored, if one is, and the response. *)
Definition assembleToolsListResponse (results : list listResult) (initFailures : list DaemonFailure) (s : hubSession)
    (instanceID : string) (allowEmptyKnown : bool) (hidden : hiddenToolSet) (live : option ResolverSnapshot) :
    option (gmap string canonicalToolRef) * tools_response :=
  let results := merge_sort result_le results in
  let collisions := colliding (keyDaemons hidden results) in
  let g := merge_results hidden results in
  let flatTools := merge_sort exposed_le (mg_flatTools g) in
  let mergedTools := nt_Body <$> flatTools in
  let participantFailureCount := Z.of_nat (length initFailures + length (mg_listFailures g)) in
  let allFailures := initFailures ++ mg_listFailures g ++ collisionFailures collisions in
  if mg_successes g =? 0 then
    if allowEmptyKnown || (bool_decide (hs_IntendedParticipants s = []) && has_prefix GroupScopeKeyPrefix (hs_ScopeKey s)) then
      (Some (mergedRoutes flatTools),
       buildToolsListResponse mergedTools allFailures instanceID
         (if groupDeclaredMemberCount live (hs_ScopeKey s) =? 0 then emptyReasonEmptyGroup else emptyReasonAllMembersUnresolved))
    else (None, ListFailed allFailures instanceID)
  else
    (Some (mergedRoutes flatTools),
     buildToolsListResponse mergedTools allFailures instanceID
       (if bool_decide (mergedTools = []) && (0 <? mg_hiddenDrop g) && (mg_otherDrop g =? 0) && (participantFailureCount =? 0)
        then emptyReasonAllToolsHidden else "")).

(** ** Which daemons are asked *)

(** The loop over the captured sessions; [cached] is what the cache holds when
    the loop looks for the session of a daemon that has moved. *)
Definition keep_live (current : option ResolverSnapshot) (scopeKey : string) (cached : canonicalDaemonRef -> option daemonInitState)
    (filtered : gmap canonicalDaemonRef daemonInitState) (row : canonicalDaemonRef * daemonInitState) :
    gmap canonicalDaemonRef daemonInitState :=
  match liveDaemonBinding current scopeKey row.1 with
  | None => filtered
  | Some liveRef =>
      if cr_Port liveRef =? cr_Port row.1 then <[liveRef := row.2]> filtered
      else match cached liveRef with Some fresh => <[liveRef := fresh]> filtered | None => filtered end
  end.
Definition filterToolsListSuccessesByLiveSnapshot (current : option ResolverSnapshot) (scopeKey : string)
    (cached : canonicalDaemonRef -> option daemonInitState) (successes : gmap canonicalDaemonRef daemonInitState) :
    gmap canonicalDaemonRef daemonInitState :=
  foldl (keep_live current scopeKey cached) ∅ (map_to_list successes).
Definition initFailureDaemonStillBound (current : option ResolverSnapshot) (scopeKey : string) (intended : list canonicalDaemonRef)
    (failure : DaemonFailure) : bool :=
  existsb (fun ref => (cr_Server ref =s df_Server failure) && (cr_Daemon ref =s df_Daemon failure) &&
    match liveDaemonBinding current scopeKey ref with Some liveRef => cr_Port liveRef =? cr_Port ref | None => false end) intended.
Definition filterInitFailuresByLiveBindings (failures : list DaemonFailure) (current : option ResolverSnapshot) (scopeKey : string)
    (intended : list canonicalDaemonRef) : list DaemonFailure :=
  List.filter (initFailureDaemonStillBound current scopeKey intended) failures.
Definition live_participant (current : option ResolverSnapshot) (scopeKey : string) (cached : canonicalDaemonRef -> option daemonInitState)
    (ref : canonicalDaemonRef) : bool :=
  match liveDaemonBinding current scopeKey ref with
  | None => false
  | Some liveRef => (cr_Port liveRef =? cr_Port ref) || bool_decide (is_Some (cached liveRef))
  end.
Definition countLiveParticipants (current : option ResolverSnapshot) (scopeKey : string) (cached : canonicalDaemonRef -> option daemonInitState)
    (intended : list canonicalDaemonRef) : Z :=
  Z.of_nat (length (List.filter (live_participant current scopeKey cached) intended)).

(** What is asked, with the failures to report and whether an empty answer is
    one: the session as the critical section found it, the snapshot published
    before, the cache as the two loops find it. *)
Definition tools_list_inputs (s : hubSession) (current : option ResolverSnapshot) (cached1 cached2 : canonicalDaemonRef -> option daemonInitState) :
    gmap canonicalDaemonRef daemonInitState * list DaemonFailure * bool :=
  let successes := init_states s in
  if negb (bool_decide (hs_SnapshotAtInit s = None)) && negb (bool_decide (current = None)) &&
     negb (same_snapshot current (hs_SnapshotAtInit s))
  then
    let scope := hs_ScopeKey s in
    let successes := filterToolsListSuccessesByLiveSnapshot current scope cached1 successes in
    let initFailures := filterInitFailuresByLiveBindings (hs_InitFailures s) current scope (hs_IntendedParticipants s) in
    let liveParticipants := countLiveParticipants current scope cached2 (hs_IntendedParticipants s) in
    (successes, initFailures,
     has_prefix GroupScopeKeyPrefix scope && (liveParticipants =? 0) && bool_decide (successes = ∅) &&
     bool_decide (initFailures = []) && snapshotKnowsScope current scope)
  else (successes, hs_InitFailures s, false).
(** [AggregateToolsList]: [fanOut] answers for the daemons that are asked,
    [live] is the snapshot published by then. *)
Definition AggregateToolsList (s : hubSession) (instanceID : string) (current live : option ResolverSnapshot)
    (cached1 cached2 : canonicalDaemonRef -> option daemonInitState)
    (fanOut : gmap canonicalDaemonRef daemonInitState -> list listResult) :
    option (gmap string canonicalToolRef) * tools_response :=
  let '(successes, initFailures, allowEmptyKnown) := tools_list_inputs s current cached1 cached2 in
  let responseInstanceID := if hs_InstanceID s =s "" then instanceID else hs_InstanceID s in
  let hiddenSnapshot := match live with Some _ => live | None => current end in
  assembleToolsListResponse (fanOut successes) initFailures s responseInstanceID allowEmptyKnown
    (buildHiddenToolSet (snapshotHiddenToolsForScope hiddenSnapshot (hs_ScopeKey s))) hiddenSnapshot.

(** ** Order *)
Lemma ref_less_true a b :
  ref_less a b = true <->
  str_ltb (cr_Server a) (cr_Server b) = true \/
  (cr_Server a = cr_Server b /\
   (str_ltb (cr_Daemon a) (cr_Daemon b) = true \/ (cr_Daemon a = cr_Daemon b /\ cr_Port a < cr_Port b))).
Proof.
  unfold ref_less. pose proof (str_ltb_irrefl (cr_Server b)) as I1. pose proof (str_ltb_irrefl (cr_Daemon b)) as I2.
  destruct (String.eqb_spec (cr_Server a) (cr_Server b)) as [E1|E1]; simpl.
  - destruct (String.eqb_spec (cr_Daemon a) (cr_Daemon b)) as [E2|E2]; simpl; rewrite E1, I1;
      [rewrite E2, I2|]; rewrite ?Z.ltb_lt; naive_solver.
  - naive_solver.
Qed.
Lemma ref_less_trans a b c : ref_less a b = true -> ref_less b c = true -> ref_less a c = true.
Proof.
  rewrite !ref_less_true. intros [H1|(E1 & [H1|[F1 H1]])] [H2|(E2 & [H2|[F2 H2]])];
    rewrite <- ?E1, ?E2 in *; rewrite <- ?F1, ?F2 in *; eauto 6 using str_ltb_trans with lia.
  all: try (left; congruence); right; split; [congruence|]; eauto using str_ltb_trans with lia;
    first [left; congruence | right; split; [congruence|lia]].
Qed.
Lemma ref_less_total a b : ref_less a b = false -> ref_less b a = false -> a = b.
Proof.
  intros H1 H2. assert (N1 : ~ ref_less a b = true) by congruence. assert (N2 : ~ ref_less b a = true) by congruence.
  rewrite ref_less_true in N1, N2. destruct a as [sa da pa], b as [sb db pb]; simpl in *.
  assert (sa = sb) as ->.
  { apply str_ltb_total; [destruct (str_ltb sa sb) eqn:?|destruct (str_ltb sb sa) eqn:?]; naive_solver. }
  assert (da = db) as ->.
  { apply str_ltb_total; [destruct (str_ltb da db) eqn:?|destruct (str_ltb db da) eqn:?]; naive_solver. }
  f_equal. assert (~ pa < pb) by naive_solver. assert (~ pb < pa) by naive_solver. lia.
Qed.
#[export] Instance result_le_total : Total result_le.
Proof.
  intros a b. unfold result_le. destruct (ref_less (lr_ref b) (lr_ref a)) eqn:E; [right|by left].
  destruct (ref_less (lr_ref a) (lr_ref b)) eqn:E'; [|done].
  assert (C : ref_less (lr_ref a) (lr_ref a) = true) by eauto using ref_less_trans.
  apply ref_less_true in C. rewrite !str_ltb_irrefl in C. naive_solver lia.
Qed.
#[export] Instance result_le_trans : Transitive result_le.
Proof.
  intros a b c H1 H2. unfold result_le in *. destruct (ref_less (lr_ref c) (lr_ref a)) eqn:E; [|done]. exfalso.
  destruct (ref_less (lr_ref a) (lr_ref b)) eqn:E'.
  - assert (ref_less (lr_ref c) (lr_ref b) = true) by eauto using ref_less_trans. congruence.
  - assert (lr_ref a = lr_ref b) as Heq by (by apply ref_less_total). congruence.
Qed.

Lemma sorted_results_unique results results' :
  NoDup (lr_ref <$> results) -> results ≡ₚ results' -> merge_sort result_le results = merge_sort result_le results'.
Proof.
  intros Hnd Hp. apply (Sorted_unique_strong result_le).
  - intros x y Hx Hy H1 H2. rewrite merge_sort_Permutation in Hx, Hy. rewrite <- Hp in Hy.
    apply list_elem_of_lookup in Hx as [i Hi]. apply list_elem_of_lookup in Hy as [j Hj].
    assert (i = j) as ->; [|congruence].
    eapply (NoDup_lookup (lr_ref <$> results)); [done|by rewrite list_lookup_fmap, Hi|].
    rewrite list_lookup_fmap, Hj. simpl. f_equal. by apply ref_less_total.
  - apply (Sorted_merge_sort result_le).
  - apply (Sorted_merge_sort result_le).
  - by rewrite !merge_sort_Permutation.
Qed.

(** ** Well-formed answers *)

(** The tools of an answer carry the daemon that gave it, and are shown by
    its server and their names. *)
Definition named_by (ref : canonicalDaemonRef) (t : namespacedTool) : Prop :=
  nt_Ref t = mkToolRef (cr_Server ref) (cr_Daemon ref) (cr_Port ref) (tr_RawName (nt_Ref t)) /\
  nt_Exposed t = exposed_name (cr_Server ref) (tr_RawName (nt_Ref t)).
Definition well_named (r : listResult) : Prop := Forall (named_by (lr_ref r)) (lr_tools r).

Lemma nameSpaceTool_named J ref tool t : nameSpaceTool J ref tool = Some t -> named_by ref t.
Proof. unfold nameSpaceTool. intros H. repeat case_match; simplify_eq; done. Qed.
Lemma nameSpaceTools_named J ref tools err : well_named (mkListResult ref (nameSpaceTools J ref tools) err).
Proof.
  apply Forall_forall. intros t Ht. simpl in Ht. apply list_elem_of_omap in Ht as (tool & _ & H).
  eauto using nameSpaceTool_named.
Qed.
Lemma string_app_cancel (p s s' : string) : p +:+ s = p +:+ s' -> s = s'.
Proof. apply String.app_inj. Qed.
Lemma named_determined ref t t' : named_by ref t -> named_by ref t' -> nt_Exposed t = nt_Exposed t' -> nt_Ref t = nt_Ref t'.
Proof.
  intros [R E] [R' E'] H. rewrite R, R'. f_equal. rewrite E, E' in H. unfold exposed_name in H.
  by apply string_app_cancel, string_app_cancel in H.
Qed.

(** ** What was offered *)
Definition offers (results : list listResult) : list (canonicalDaemonRef * namespacedTool) :=
  results ≫= fun r => match lr_err r with Some _ => [] | None => (fun t => (lr_ref r, t)) <$> lr_tools r end.
Lemma elem_of_offers results ref t :
  (ref, t) ∈ offers results <-> exists r, r ∈ results /\ lr_err r = None /\ lr_ref r = ref /\ t ∈ lr_tools r.
Proof.
  unfold offers. rewrite list_elem_of_bind. split.
  - intros (r & Hin & Hr). case_match; [by apply not_elem_of_nil in Hin|].
    apply list_elem_of_fmap in Hin as (t' & [= -> ->] & Ht). eauto.
  - intros (r & Hr & He & <- & Ht). exists r. split; [|done]. rewrite He. apply list_elem_of_fmap. eauto.
Qed.

(** *** The claims *)
Lemma foldl_claims {B C} (f : C -> B -> C) (g : C -> canonicalDaemonRef * namespacedTool -> C)
    (spread : B -> list (canonicalDaemonRef * namespacedTool)) :
  (forall c b, f c b = foldl g c (spread b)) -> forall l c, foldl f c l = foldl g c (l ≫= spread).
Proof.
  intros H l. induction l as [|b l IH]; intros c; [done|]. cbn [foldl mbind list_bind].
  by rewrite foldl_app, <- H, <- IH.
Qed.
Definition claim_offer (hidden : hiddenToolSet) (m : gmap string (gset canonicalDaemonRef)) (o : canonicalDaemonRef * namespacedTool) :=
  claim hidden o.1 m o.2.
Lemma foldl_pair {C} (f : canonicalDaemonRef -> C -> namespacedTool -> C) ref ts c :
  foldl (f ref) c ts = foldl (fun c o => f o.1 c o.2) c ((fun t => (ref, t)) <$> ts).
Proof. revert c. induction ts as [|t ts IH]; intros c; [done|]. apply IH. Qed.
Lemma keyDaemons_offers hidden results : keyDaemons hidden results = foldl (claim_offer hidden) ∅ (offers results).
Proof.
  unfold keyDaemons, offers. apply foldl_claims. intros c r. unfold claim_all. case_match; [done|].
  apply (foldl_pair (fun ref => claim hidden ref)).
Qed.
Lemma claim_spec hidden m o k ref :
  ref ∈ default ∅ (claim_offer hidden m o !! k) <->
  ref ∈ default ∅ (m !! k) \/ (ref = o.1 /\ hides_tool hidden o.2 = false /\ nt_Exposed o.2 = k).
Proof.
  unfold claim_offer, claim. destruct (hides_tool hidden o.2).
  - split; [by left|]. by intros [?|(_ & ? & _)].
  - destruct (decide (nt_Exposed o.2 = k)) as [<-|Hk].
    + rewrite lookup_insert_eq. simpl. rewrite elem_of_union, elem_of_singleton. tauto.
    + rewrite lookup_insert_ne by done. tauto.
Qed.
Lemma claims_spec hidden os m k ref :
  ref ∈ default ∅ (foldl (claim_offer hidden) m os !! k) <->
  ref ∈ default ∅ (m !! k) \/ exists t, (ref, t) ∈ os /\ hides_tool hidden t = false /\ nt_Exposed t = k.
Proof.
  revert m. induction os as [|[ref' t'] os IH]; intros m; cbn [foldl].
  - split; [by left|]. intros [?|(t & H & _)]; [done|]. by apply not_elem_of_nil in H.
  - rewrite IH, claim_spec. cbn [fst snd]. setoid_rewrite elem_of_cons. split.
    + intros [[?|(-> & ? & ?)]|(t & ? & ? & ?)]; eauto 8.
    + intros [?|(t & [[= -> ->]|?] & ? & ?)]; eauto 8.
Qed.
Lemma keyDaemons_spec hidden results k ref :
  ref ∈ default ∅ (keyDaemons hidden results !! k) <->
  exists t, (ref, t) ∈ offers results /\ hides_tool hidden t = false /\ nt_Exposed t = k.
Proof. rewrite keyDaemons_offers, claims_spec, lookup_empty. simpl. split; [intros [H|H]; [set_solver|done]|by right]. Qed.

Lemma size_gt_1 (X : gset canonicalDaemonRef) : (1 < size X)%nat <-> exists a b, a ∈ X /\ b ∈ X /\ a <> b.
Proof.
  unfold size, set_size. simpl. pose proof (NoDup_elements X) as Hnd. setoid_rewrite <- elem_of_elements.
  destruct (elements X) as [|x [|y l]]; simpl.
  - split; [lia|]. intros (a & _ & H & _). by apply not_elem_of_nil in H.
  - split; [lia|]. intros (a & b & Ha & Hb & Hab). rewrite list_elem_of_singleton in *. congruence.
  - split; [|lia]. intros _. apply NoDup_cons in Hnd as [Hnd _]. exists x, y.
    split; [left|]. split; [right; left|]. intros ->. apply Hnd. left.
Qed.
(** A name collides if two daemons show it. *)
Lemma colliding_spec hidden results k :
  is_Some (colliding (keyDaemons hidden results) !! k) <->
  exists ref ref' t t', ref <> ref' /\ (ref, t) ∈ offers results /\ (ref', t') ∈ offers results /\
    hides_tool hidden t = false /\ hides_tool hidden t' = false /\ nt_Exposed t = k /\ nt_Exposed t' = k.
Proof.
  transitivity ((1 < size (default ∅ (keyDaemons hidden results !! k)))%nat).
  - unfold colliding. destruct (keyDaemons hidden results !! k) as [X|] eqn:E; simpl.
    + split.
      * intros [Y HY]. apply map_lookup_filter_Some in HY as [HY ?]. by simplify_eq.
      * intros H. exists X. by apply map_lookup_filter_Some.
    + split; [|intros H; by apply Nat.nlt_0_r in H]. intros [Y HY]. apply map_lookup_filter_Some in HY as [HY ?]. simplify_eq.
  - rewrite size_gt_1. setoid_rewrite keyDaemons_spec. split.
    + intros (a & b & (t & ? & ? & ?) & (t' & ? & ? & ?) & ?). by exists a, b, t, t'.
    + intros (a & b & t & t' & ? & ? & ? & ? & ? & ? & ?). exists a, b. split; [by exists t|split; [by exists t'|done]].
Qed.

(** *** What is kept *)
Definition keep (bad : string -> bool) (hidden : hiddenToolSet) (flat : list namespacedTool) (t : namespacedTool) : list namespacedTool :=
  if bad (nt_Exposed t) || bool_decide (nt_Exposed t ∈ nt_Exposed <$> flat) || hides_tool hidden t then flat else flat ++ [t].
Definition seen_wf (g : merge) : Prop := mg_seen g = list_to_set (nt_Exposed <$> mg_flatTools g).
Definition collides (c : gmap string (gset canonicalDaemonRef)) (k : string) : bool := bool_decide (is_Some (c !! k)).

Lemma merge_tool_keep c hidden g t :
  seen_wf g -> seen_wf (merge_tool c hidden g t) /\
  mg_flatTools (merge_tool c hidden g t) = keep (collides c) hidden (mg_flatTools g) t /\
  mg_listFailures (merge_tool c hidden g t) = mg_listFailures g /\ mg_successes (merge_tool c hidden g t) = mg_successes g.
Proof.
  destruct g as [flat seen failures n h o]. unfold seen_wf, keep, collides. simpl. intros ->.
  destruct (bool_decide (is_Some (c !! nt_Exposed t))); simpl; [done|].
  assert (bool_decide (nt_Exposed t ∈ (list_to_set (nt_Exposed <$> flat) : gset string)) =
          bool_decide (nt_Exposed t ∈ nt_Exposed <$> flat)) as -> by (apply bool_decide_ext, elem_of_list_to_set).
  destruct (bool_decide (nt_Exposed t ∈ nt_Exposed <$> flat)); simpl; [done|].
  destruct (hides_tool hidden t); simpl; [done|].
  split_and!; try done. rewrite fmap_app, list_to_set_app_L. simpl. set_solver.
Qed.
Lemma merge_tools_keep c hidden ts g :
  seen_wf g -> let g' := foldl (merge_tool c hidden) g ts in
  seen_wf g' /\ mg_flatTools g' = foldl (keep (collides c) hidden) (mg_flatTools g) ts /\
  mg_listFailures g' = mg_listFailures g /\ mg_successes g' = mg_successes g.
Proof.
  revert g. induction ts as [|t ts IH]; intros g Hg; simpl; [done|].
  destruct (merge_tool_keep c hidden g t Hg) as (Hw & Hf & Hl & Hs).
  destruct (IH _ Hw) as (? & E & E2 & E3). by rewrite E, E2, E3, Hf.
Qed.

Definition failure_of (r : listResult) : list DaemonFailure :=
  match lr_err r with
  | Some e => [mkDaemonFailure (cr_Server (lr_ref r)) (cr_Daemon (lr_ref r)) "tools/list" (err_text e)]
  | None => []
  end.
Definition answered (r : listResult) : bool := bool_decide (lr_err r = None).
Lemma merge_results_keep c hidden results g :
  seen_wf g -> let g' := foldl (merge_result c hidden) g results in
  seen_wf g' /\ mg_flatTools g' = foldl (keep (collides c) hidden) (mg_flatTools g) (offers results).*2 /\
  mg_listFailures g' = mg_listFailures g ++ (results ≫= failure_of) /\
  mg_successes g' = mg_successes g + Z.of_nat (length (List.filter answered results)).
Proof.
  revert g. induction results as [|r results IH]; intros g Hg; simpl.
  { rewrite app_nil_r. split_and!; try done. lia. }
  unfold offers, failure_of, answered in *. cbn [mbind list_bind]. unfold merge_result in IH |- *.
  destruct (lr_err r) as [e|] eqn:Ee.
  - destruct (IH (mkMerge (mg_flatTools g) (mg_seen g)
      (mg_listFailures g ++ [mkDaemonFailure (cr_Server (lr_ref r)) (cr_Daemon (lr_ref r)) "tools/list" (err_text e)])
      (mg_successes g) (mg_hiddenDrop g) (mg_otherDrop g)) Hg) as (? & E & E2 & E3).
    rewrite bool_decide_eq_false_2 by done. simpl in *. split_and!; try done. by rewrite E2, <- app_assoc.
  - pose (g0 := mkMerge (mg_flatTools g) (mg_seen g) (mg_listFailures g) (mg_successes g + 1) (mg_hiddenDrop g) (mg_otherDrop g)).
    destruct (merge_tools_keep c hidden (lr_tools r) g0 Hg) as (Hw & Hf & Hl & Hs).
    destruct (IH _ Hw) as (? & E & E2 & E3). fold g0.
    rewrite bool_decide_eq_true_2 by done. split_and!; [done| | |].
    + rewrite E, Hf, fmap_app, foldl_app, <- list_fmap_compose. simpl.
      by rewrite (list_fmap_ext _ id), list_fmap_id.
    + rewrite E2, Hl. done.
    + rewrite E3, Hs. simpl. lia.
Qed.

Lemma keep_spec bad hidden ts flat t :
  t ∈ foldl (keep bad hidden) flat ts -> t ∈ flat \/ (t ∈ ts /\ bad (nt_Exposed t) = false /\ hides_tool hidden t = false).
Proof.
  revert flat. induction ts as [|t' ts IH]; intros flat; simpl; [by left|]. intros H. apply IH in H as [H|(H & ? & ?)].
  - unfold keep in H. destruct (_ || _) eqn:E; [by left|]. breflect. apply elem_of_app in H as [?|H]; [by left|].
    apply list_elem_of_singleton in H as ->. right. split; [left|tauto].
  - right. split; [by right|done].
Qed.
Lemma keep_mono bad hidden ts flat : flat `prefix_of` foldl (keep bad hidden) flat ts.
Proof.
  revert flat. induction ts as [|t ts IH]; intros flat; simpl; [done|]. etrans; [|apply IH].
  unfold keep. case_match; [done|]. by apply prefix_app_r.
Qed.
Lemma keep_covers bad hidden ts flat t :
  t ∈ ts -> bad (nt_Exposed t) = false -> hides_tool hidden t = false ->
  nt_Exposed t ∈ nt_Exposed <$> foldl (keep bad hidden) flat ts.
Proof.
  intros Ht Hb Hh. revert flat. induction Ht as [t ts|t t' ts Ht IH]; intros flat; simpl; [|by apply IH].
  destruct (keep_mono bad hidden ts (keep bad hidden flat t)) as [k Hk]. rewrite Hk, fmap_app. apply elem_of_app. left.
  unfold keep. rewrite Hb, Hh. case_bool_decide; simpl; [done|]. rewrite fmap_app. apply elem_of_app. right. left.
Qed.
Lemma keep_NoDup bad hidden ts flat : NoDup (nt_Exposed <$> flat) -> NoDup (nt_Exposed <$> foldl (keep bad hidden) flat ts).
Proof.
  revert flat. induction ts as [|t ts IH]; intros flat H; simpl; [done|]. apply IH. unfold keep.
  destruct (_ || _) eqn:E; [done|]. breflect. destruct E as [[_ E] _].
  rewrite fmap_app. apply NoDup_app. split_and!; [done| |apply NoDup_singleton].
  intros x Hx Hx'. apply list_elem_of_singleton in Hx'. by subst.
Qed.

(** *** The merge of all answers *)
Section merged.
Context (hidden : hiddenToolSet) (results : list listResult).
Let c := colliding (keyDaemons hidden results).
Lemma merged_facts :
  let g := merge_results hidden results in
  mg_flatTools g = foldl (keep (collides c) hidden) [] (offers results).*2 /\
  mg_listFailures g = results ≫= failure_of /\
  mg_successes g = Z.of_nat (length (List.filter answered results)).
Proof. by destruct (merge_results_keep c hidden results (mkMerge [] ∅ [] 0 0 0) eq_refl) as (_ & H). Qed.
Lemma flat_NoDup : NoDup (nt_Exposed <$> mg_flatTools (merge_results hidden results)).
Proof. destruct merged_facts as (-> & _). apply keep_NoDup. constructor. Qed.

(** A tool that several daemons show, or none does, is not there; any other
    is there once. *)
Definition shown_by (ref : canonicalDaemonRef) (t : namespacedTool) : Prop := (ref, t) ∈ offers results /\ hides_tool hidden t = false.
Definition sole (ref : canonicalDaemonRef) (name : string) : Prop :=
  forall ref' t', shown_by ref' t' -> nt_Exposed t' = name -> ref' = ref.
Lemma flat_spec t :
  t ∈ mg_flatTools (merge_results hidden results) -> exists ref, shown_by ref t /\ sole ref (nt_Exposed t).
Proof.
  destruct merged_facts as (-> & _). intros H. apply keep_spec in H as [H|(H & Hc & Hh)]; [by apply not_elem_of_nil in H|].
  apply list_elem_of_fmap in H as ([ref t0] & -> & H). exists ref. split; [done|]. intros ref' t' [Ho' Hh'] He.
  apply bool_decide_eq_false in Hc. destruct (decide (ref' = ref)) as [|Hne]; [done|]. destruct Hc. apply colliding_spec.
  by exists ref', ref, t', t0.
Qed.
Lemma flat_covers ref t :
  shown_by ref t -> sole ref (nt_Exposed t) -> nt_Exposed t ∈ nt_Exposed <$> mg_flatTools (merge_results hidden results).
Proof.
  intros [Ho Hh] Hs. destruct merged_facts as (-> & _). apply keep_covers; [|apply bool_decide_eq_false|done].
  - apply list_elem_of_fmap. by exists (ref, t).
  - intros Hc. apply colliding_spec in Hc as (r1 & r2 & t1 & t2 & Hne & Ho1 & Ho2 & Hh1 & Hh2 & E1 & E2).
    apply Hne. rewrite (Hs r1 t1), (Hs r2 t2); done.
Qed.
End merged.

(** *** Routes *)
Lemma mergedRoutes_spec flat (m : gmap string canonicalToolRef) name ref :
  NoDup (nt_Exposed <$> flat) -> (forall t, t ∈ flat -> m !! nt_Exposed t = None) ->
  foldl (fun m t => <[nt_Exposed t := nt_Ref t]> m) m flat !! name = Some ref <->
  m !! name = Some ref \/ exists t, t ∈ flat /\ nt_Exposed t = name /\ nt_Ref t = ref.
Proof.
  revert m. induction flat as [|t flat IH]; intros m Hnd Hm; cbn [foldl].
  { split; [by left|]. intros [?|(t & H & _)]; [done|]. by apply not_elem_of_nil in H. }
  apply NoDup_cons in Hnd as [Ht Hnd]. rewrite IH; [|done|].
  - assert (Ht0 : m !! nt_Exposed t = None) by (apply Hm; left). setoid_rewrite elem_of_cons.
    destruct (decide (name = nt_Exposed t)) as [->|Hne].
    + rewrite lookup_insert_eq. split.
      * intros [[= <-]|(t' & ? & ? & ?)]; [right; eauto|]. right. eauto.
      * intros [?|(t' & [->|Hin] & E & <-)]; [congruence|by left|]. destruct Ht. rewrite <- E. by apply list_elem_of_fmap_2.
    + rewrite lookup_insert_ne by done. split.
      * intros [?|(t' & ? & ? & ?)]; [by left|]. right. eauto.
      * intros [?|(t' & [->|?] & ? & ?)]; [by left|congruence|]. right. eauto.
  - intros t' Ht'. rewrite lookup_insert_ne; [apply Hm; by right|]. intros E. apply Ht. rewrite E. by apply list_elem_of_fmap_2.
Qed.
Lemma mergedRoutes_exact flat name ref :
  NoDup (nt_Exposed <$> flat) ->
  mergedRoutes flat !! name = Some ref <-> exists t, t ∈ flat /\ nt_Exposed t = name /\ nt_Ref t = ref.
Proof.
  intros H. unfold mergedRoutes. rewrite mergedRoutes_spec by done. rewrite lookup_empty. split; [|by right].
  by intros [?|?].
Qed.

Definition list_of (out : option (gmap string canonicalToolRef) * tools_response) : option (list string) :=
  match out.2 with ListOk tools _ _ _ => Some tools | ListFailed _ _ => None end.
Definition failures_of (out : option (gmap string canonicalToolRef) * tools_response) : list DaemonFailure :=
  match out.2 with ListOk _ failures _ _ => failures | ListFailed failures _ => failures end.

Section assembled.
Context (results : list listResult) (initFailures : list DaemonFailure) (s : hubSession) (instanceID : string)
  (allowEmptyKnown : bool) (hidden : hiddenToolSet) (live : option ResolverSnapshot).
Let out := assembleToolsListResponse results initFailures s instanceID allowEmptyKnown hidden live.
Let sorted := merge_sort result_le results.
Let flat := merge_sort exposed_le (mg_flatTools (merge_results hidden sorted)).
Lemma assembled_routes routes : out.1 = Some routes -> routes = mergedRoutes flat /\ list_of out = Some (nt_Body <$> flat).
Proof.
  unfold out, assembleToolsListResponse, list_of. cbv zeta. fold sorted. fold flat.
  destruct (_ =? 0); [destruct (_ || _)|]; simpl; by intros [= <-].
Qed.
Lemma assembled_none : out.1 = None <-> list_of out = None.
Proof.
  unfold out, assembleToolsListResponse, list_of. cbv zeta. destruct (_ =? 0); [destruct (_ || _)|]; by split.
Qed.
Lemma flat_perm : flat ≡ₚ mg_flatTools (merge_results hidden sorted).
Proof. apply merge_sort_Permutation. Qed.
Lemma flat_sorted_NoDup : NoDup (nt_Exposed <$> flat).
Proof. rewrite flat_perm. apply flat_NoDup. Qed.
Lemma sorted_offers o : o ∈ offers sorted <-> o ∈ offers results.
Proof. destruct o as [ref t]. rewrite !elem_of_offers. unfold sorted. by setoid_rewrite (merge_sort_Permutation result_le results). Qed.
End assembled.

(** ** Collision rows *)
Lemma collision_row c k ref :
  is_Some (c !! k) -> ref ∈ default ∅ (c !! k) ->
  exists row, row ∈ collisionFailures c /\ df_Server row = cr_Server ref /\ df_Daemon row = cr_Daemon ref.
Proof.
  intros Hc Href. unfold collisionFailures. set (claimants := default ∅ (c !! k)) in *.
  set (joined := String.concat ", " ((fun ref => cr_Server ref +:+ "/" +:+ cr_Daemon ref) <$> merge_sort daemon_le (elements claimants))).
  exists (mkDaemonFailure (cr_Server ref) (cr_Daemon ref) "tools/list"
    ("namespace collision on exposed tool name " +:+ quoted k +:+ " claimed by daemons: " +:+ joined)). split; [|done].
  apply list_elem_of_bind. exists k. split.
  - apply list_elem_of_fmap. exists ref. split; [done|]. by rewrite merge_sort_Permutation, elem_of_elements.
  - rewrite sort_strings_perm. by apply elem_of_map_keys.
Qed.
Lemma collision_rows_of hidden results k ref t :
  ~ sole hidden results ref k -> (ref, t) ∈ offers results -> hides_tool hidden t = false -> nt_Exposed t = k ->
  exists row, row ∈ collisionFailures (colliding (keyDaemons hidden results)) /\ df_Server row = cr_Server ref /\ df_Daemon row = cr_Daemon ref.
Proof.
  intros Hs Ho Hh He. assert (Hc : is_Some (colliding (keyDaemons hidden results) !! k)).
  { apply colliding_spec. destruct (decide (is_Some (colliding (keyDaemons hidden results) !! k))) as [H|Hn].
    { by apply colliding_spec in H. }
    destruct Hs. intros ref' t' [Ho' Hh'] He'. destruct (decide (ref' = ref)) as [|Hne]; [done|].
    destruct Hn. apply colliding_spec. by exists ref', ref, t', t. }
  apply (collision_row _ k); [done|]. unfold colliding in *. destruct Hc as [X HX]. rewrite HX.
  apply map_lookup_filter_Some in HX as [HX _]. simpl.
  enough (ref ∈ default ∅ (keyDaemons hidden results !! k)) as H; [by rewrite HX in H|].
  apply keyDaemons_spec. eauto.
Qed.

Lemma assembled_failures results initFailures s instanceID allow hidden live :
  let sorted := merge_sort result_le results in
  failures_of (assembleToolsListResponse results initFailures s instanceID allow hidden live) =
  initFailures ++ (sorted ≫= failure_of) ++ collisionFailures (colliding (keyDaemons hidden sorted)).
Proof.
  destruct (merged_facts hidden (merge_sort result_le results)) as (_ & Hf & _).
  unfold assembleToolsListResponse, failures_of. cbv zeta. rewrite Hf. destruct (_ =? 0); [destruct (_ || _)|]; done.
Qed.

(** *** The order of the answers does not matter to what they show *)
#[export] Instance exposed_le_total : Total exposed_le.
Proof. intros a b. apply (total str_le). Qed.
Lemma shown_sorted hidden results d t : shown_by hidden (merge_sort result_le results) d t <-> shown_by hidden results d t.
Proof. unfold shown_by. by rewrite sorted_offers. Qed.
Lemma sole_sorted hidden results d k : sole hidden (merge_sort result_le results) d k <-> sole hidden results d k.
Proof. split; intros H ref t Hs; apply H; by apply shown_sorted. Qed.
Lemma shown_named hidden results d t : Forall well_named results -> shown_by hidden results d t -> named_by d t.
Proof.
  intros Hw [Ho _]. apply elem_of_offers in Ho as (r & Hr & _ & <- & Ht). rewrite Forall_forall in Hw.
  specialize (Hw r Hr). unfold well_named in Hw. rewrite Forall_forall in Hw. by apply Hw.
Qed.
Lemma routes_of_shown hidden results name ref :
  Forall well_named results ->
  mergedRoutes (merge_sort exposed_le (mg_flatTools (merge_results hidden (merge_sort result_le results)))) !! name = Some ref <->
  exists d t, shown_by hidden results d t /\ nt_Exposed t = name /\ nt_Ref t = ref /\ sole hidden results d name.
Proof.
  intros Hw. rewrite mergedRoutes_exact by apply flat_sorted_NoDup. setoid_rewrite (merge_sort_Permutation exposed_le). split.
  - intros (t & Ht & <- & <-). apply flat_spec in Ht as (d & Hd & Hs). exists d, t. by rewrite <- shown_sorted, <- sole_sorted.
  - intros (d & t & Hd & <- & <- & Hs).
    assert (Hc := flat_covers hidden (merge_sort result_le results) d t).
    rewrite shown_sorted, sole_sorted in Hc. destruct (list_elem_of_fmap_1 _ _ _ (Hc Hd Hs)) as (t' & He & Ht').
    exists t'. split; [done|]. split; [done|]. apply flat_spec in Ht' as (d' & Hd' & _). rewrite shown_sorted in Hd'.
    assert (d' = d) as -> by (by apply (Hs d' t')). apply (named_determined d); eauto using shown_named.
Qed.

(** ** What the scope is shown *)

(** A list and its routes are exactly the tools that the daemons
    which answered show and the group does not hide, each by its name and in
    the order of the names, apart from the names that two daemons show; each
    daemon that shows such a name is among the failures, as is each that did
    not answer, so no visible tool is missing without a row. *)
Theorem tools_list_exact results initFailures s instanceID allow hidden live routes :
  let out := assembleToolsListResponse results initFailures s instanceID allow hidden live in
  Forall well_named results ->
  out.1 = Some routes ->
  (forall name ref, routes !! name = Some ref <->
     exists d t, shown_by hidden results d t /\ nt_Exposed t = name /\ nt_Ref t = ref /\ sole hidden results d name) /\
  (exists flat, list_of out = Some (nt_Body <$> flat) /\ Sorted str_le (nt_Exposed <$> flat) /\ NoDup (nt_Exposed <$> flat) /\
     dom routes = list_to_set (nt_Exposed <$> flat) /\ Forall (fun t => routes !! nt_Exposed t = Some (nt_Ref t)) flat) /\
  (forall d t, shown_by hidden results d t -> routes !! nt_Exposed t = None ->
     exists row, row ∈ failures_of out /\ df_Server row = cr_Server d /\ df_Daemon row = cr_Daemon d) /\
  (forall r, r ∈ results -> lr_err r <> None ->
     exists row, row ∈ failures_of out /\ df_Server row = cr_Server (lr_ref r) /\ df_Daemon row = cr_Daemon (lr_ref r)).
Proof.
  intros out Hw Hr. destruct (assembled_routes _ _ _ _ _ _ _ _ Hr) as [-> Hl]. fold out in Hl.
  pose proof (flat_sorted_NoDup results hidden) as Hnd.
  assert (Hrow : failures_of out = _) by apply assembled_failures.
  pose proof (fun name ref => routes_of_shown hidden results name ref Hw) as Hex. cbv zeta in *.
  set (flat := merge_sort exposed_le _) in *. split; [done|]. split; [|split].
  - exists flat. split_and!; try done.
    + eapply (Sorted_fmap _ exposed_le); [done|]. apply (Sorted_merge_sort exposed_le).
    + apply set_eq. intros name. rewrite elem_of_dom, elem_of_list_to_set. split.
      * intros [ref Href]. apply mergedRoutes_exact in Href as (t & Ht & <- & _); [|done]. by apply list_elem_of_fmap_2.
      * intros (t & -> & Ht)%list_elem_of_fmap. exists (nt_Ref t). apply mergedRoutes_exact; eauto.
    + apply Forall_forall. intros t Ht. apply mergedRoutes_exact; eauto.
  - intros d t Hd Hnone. rewrite Hrow.
    destruct (collision_rows_of hidden (merge_sort result_le results) (nt_Exposed t) d t) as (row & Hin & Hd').
    + rewrite sole_sorted. intros Hs. by rewrite (proj2 (Hex _ (nt_Ref t))) in Hnone by eauto 6.
    + rewrite <- shown_sorted in Hd. by destruct Hd.
    + by destruct Hd.
    + done.
    + exists row. split; [|done]. rewrite !elem_of_app. auto.
  - intros r Hrin Herr. rewrite Hrow. destruct (lr_err r) as [e|] eqn:Ee; [|done].
    exists (mkDaemonFailure (cr_Server (lr_ref r)) (cr_Daemon (lr_ref r)) "tools/list" (err_text e)). split; [|done].
    rewrite !elem_of_app. right; left. apply list_elem_of_bind. exists r. split; [|by rewrite merge_sort_Permutation].
    unfold failure_of. rewrite Ee. left.
Qed.

(** C39: the answers may land in any order: one list, one route map and
    one response come of them. *)
Theorem tools_list_any_order results results' initFailures s instanceID allow hidden live :
  results ≡ₚ results' -> NoDup (lr_ref <$> results) ->
  assembleToolsListResponse results initFailures s instanceID allow hidden live =
  assembleToolsListResponse results' initFailures s instanceID allow hidden live.
Proof. intros Hp Hnd. unfold assembleToolsListResponse. by rewrite (sorted_results_unique results results'). Qed.

(** ** Hidden tools *)

(** The answers as they would be if the daemons did not have the tools. *)
Definition without (hidden : hiddenToolSet) (r : listResult) : listResult :=
  mkListResult (lr_ref r) (List.filter (fun t => negb (hides_tool hidden t)) (lr_tools r)) (lr_err r).
Lemma hides_nothing t : hides_tool ∅ t = false.
Proof. reflexivity. Qed.

Lemma claims_without hidden ref ts m :
  foldl (claim hidden ref) m ts = foldl (claim ∅ ref) m (List.filter (fun t => negb (hides_tool hidden t)) ts).
Proof.
  revert m. induction ts as [|t ts IH]; intros m; simpl; [done|]. unfold claim at 2.
  destruct (hides_tool hidden t) eqn:E; simpl; [apply IH|].
  rewrite IH. f_equal.
Qed.
Lemma keyDaemons_without hidden results : keyDaemons ∅ (without hidden <$> results) = keyDaemons hidden results.
Proof.
  unfold keyDaemons. generalize (∅ : gmap string (gset canonicalDaemonRef)).
  induction results as [|r results IH]; intros m; simpl; [done|]. rewrite IH. f_equal. unfold claim_all. simpl.
  case_match; [done|]. by rewrite <- claims_without.
Qed.
Lemma keep_without bad hidden ts flat :
  foldl (keep bad ∅) flat (List.filter (fun t => negb (hides_tool hidden t)) ts) = foldl (keep bad hidden) flat ts.
Proof.
  revert flat. induction ts as [|t ts IH]; intros flat; simpl; [done|].
  destruct (hides_tool hidden t) eqn:E; simpl; rewrite IH; f_equal; unfold keep; rewrite E, ?hides_nothing, ?orb_true_r; done.
Qed.
Lemma offered_tools r results :
  (offers (r :: results)).*2 = (match lr_err r with Some _ => [] | None => lr_tools r end) ++ (offers results).*2.
Proof.
  unfold offers. cbn [mbind list_bind]. rewrite fmap_app. f_equal. destruct (lr_err r); [done|].
  by rewrite <- list_fmap_compose, (list_fmap_ext _ id), list_fmap_id.
Qed.
Lemma offers_without hidden results :
  (offers (without hidden <$> results)).*2 = List.filter (fun t => negb (hides_tool hidden t)) (offers results).*2.
Proof.
  induction results as [|r results IH]; [done|]. rewrite fmap_cons, !offered_tools, IH, List.filter_app. f_equal.
  simpl. by destruct (lr_err r).
Qed.
Lemma merged_without hidden results :
  let g := merge_results hidden results in let g' := merge_results ∅ (without hidden <$> results) in
  mg_flatTools g' = mg_flatTools g /\ mg_listFailures g' = mg_listFailures g /\ mg_successes g' = mg_successes g.
Proof.
  cbv zeta. destruct (merged_facts hidden results) as (-> & -> & ->).
  destruct (merged_facts ∅ (without hidden <$> results)) as (-> & -> & ->).
  rewrite keyDaemons_without, offers_without, keep_without. split; [done|]. split.
  - induction results as [|r results IH]; [done|]. rewrite fmap_cons. cbn [mbind list_bind] in *. f_equal. apply IH.
  - f_equal. induction results as [|r results IH]; [done|]. rewrite fmap_cons. cbn [List.filter].
    change (answered (without hidden r)) with (answered r). by destruct (answered r); [apply (f_equal S)|]; apply IH.
Qed.
Lemma without_sorted hidden results :
  NoDup (lr_ref <$> results) ->
  merge_sort result_le (without hidden <$> results) = without hidden <$> merge_sort result_le results.
Proof.
  intros Hnd. apply (Sorted_unique_strong result_le).
  - intros x y Hx Hy H1 H2. rewrite merge_sort_Permutation in Hx, Hy.
    apply list_elem_of_lookup in Hx as [i Hi]. apply list_elem_of_lookup in Hy as [j Hj].
    assert (i = j) as ->; [|congruence].
    assert (Hnd' : NoDup (lr_ref <$> (without hidden <$> results))) by (by rewrite <- list_fmap_compose).
    eapply (NoDup_lookup _ _ _ (lr_ref x) Hnd'); [by rewrite list_lookup_fmap, Hi|].
    rewrite list_lookup_fmap, Hj. simpl. f_equal. by apply ref_less_total.
  - apply (Sorted_merge_sort result_le).
  - eapply (Sorted_fmap _ result_le); [done|]. apply (Sorted_merge_sort result_le).
  - by rewrite !merge_sort_Permutation.
Qed.

(** The response without the reason an empty list is given. *)
Definition unreasoned (out : option (gmap string canonicalToolRef) * tools_response) : option (gmap string canonicalToolRef) * tools_response :=
  (out.1, match out.2 with ListOk tools failures id _ => ListOk tools failures id None | r => r end).
(** C22: what a group hides is not to be seen: the list, the routes and
    the rows of failures, collisions included, are what they would be if the
    daemons did not have the hidden tools at all; only the reason given for
    an empty list may tell that tools were hidden. *)
Theorem hidden_tools_unseen results initFailures s instanceID allow hidden live :
  NoDup (lr_ref <$> results) ->
  unreasoned (assembleToolsListResponse results initFailures s instanceID allow hidden live) =
  unreasoned (assembleToolsListResponse (without hidden <$> results) initFailures s instanceID allow ∅ live) /\
  (forall routes name ref, (assembleToolsListResponse results initFailures s instanceID allow hidden live).1 = Some routes ->
     routes !! name = Some ref -> hides hidden (tr_Server ref) (tr_RawName ref) = false).
Proof.
  intros Hnd. split.
  - unfold unreasoned, assembleToolsListResponse. cbv zeta. rewrite without_sorted by done.
    destruct (merged_without hidden (merge_sort result_le results)) as (-> & -> & ->). rewrite keyDaemons_without.
    destruct (_ =? 0); [destruct (_ || _)|]; done.
  - intros routes name ref Hr Hl. apply assembled_routes in Hr as [-> _].
    apply mergedRoutes_exact in Hl as (t & Ht & _ & <-); [|apply flat_sorted_NoDup].
    rewrite merge_sort_Permutation in Ht. by apply flat_spec in Ht as (d & [_ Hh] & _).
Qed.

(** ** Which daemons are asked *)
Lemma filter_live_spec current scope cached rows m ref st :
  foldl (keep_live current scope cached) m rows !! ref = Some st ->
  m !! ref = Some st \/
  exists old st0, (old, st0) ∈ rows /\ liveDaemonBinding current scope old = Some ref /\
    ((cr_Port ref = cr_Port old /\ st = st0) \/ (cr_Port ref <> cr_Port old /\ cached ref = Some st)).
Proof.
  revert m. induction rows as [|[old st0] rows IH]; intros m; cbn [foldl]; [by left|]. intros H. apply IH in H as [H|(o & s0 & ? & ?)].
  - unfold keep_live in H. cbn [fst snd] in H. destruct (liveDaemonBinding current scope old) as [l|] eqn:El; [|by left].
    destruct (cr_Port l =? cr_Port old) eqn:Ep; [apply Z.eqb_eq in Ep|apply Z.eqb_neq in Ep].
    + destruct (decide (ref = l)) as [->|Hne]; [|rewrite lookup_insert_ne in H by done; by left].
      rewrite lookup_insert_eq in H. simplify_eq. right. exists old, st. split; [left|]. eauto.
    + destruct (cached l) as [fresh|] eqn:Ec; [|by left].
      destruct (decide (ref = l)) as [->|Hne]; [|rewrite lookup_insert_ne in H by done; by left].
      rewrite lookup_insert_eq in H. simplify_eq. right. exists old, st0. split; [left|]. eauto.
  - right. exists o, s0. split; [by right|done].
Qed.
Lemma live_binding_fixed current scope old ref :
  liveDaemonBinding current scope old = Some ref ->
  same_daemon (cr_Server old) (cr_Daemon old) ref = true /\ liveDaemonBinding current scope ref = Some ref.
Proof.
  unfold liveDaemonBinding. destruct current as [sn|]; [|done]. intros H. pose proof (find_some _ _ H) as [_ Hs].
  split; [done|]. unfold same_daemon in Hs. breflect. destruct Hs as [-> ->]. done.
Qed.
(** When the hub publishes new bindings after a session opened, a
    list asks only daemons that are bound to the scope now, at the port they
    are bound at, each in the place of a daemon of the same name the session
    reached, with that session if the daemon has not moved and a session of
    its new port if it has; every failure it keeps to report is of a daemon
    that is bound where the session looked for it. *)
Theorem tools_list_asks_bound s current cached1 cached2 old asked initFailures allow :
  hs_SnapshotAtInit s = Some old -> is_Some current -> same_snapshot current (Some old) = false ->
  tools_list_inputs s current cached1 cached2 = (asked, initFailures, allow) ->
  map_Forall (fun ref st => liveDaemonBinding current (hs_ScopeKey s) ref = Some ref /\
    exists was st0, init_states s !! was = Some st0 /\ same_daemon (cr_Server was) (cr_Daemon was) ref = true /\
      ((ref = was /\ st = st0) \/ (cr_Port ref <> cr_Port was /\ cached1 ref = Some st))) asked /\
  Forall (fun f => f ∈ hs_InitFailures s /\ exists ref, ref ∈ hs_IntendedParticipants s /\
    cr_Server ref = df_Server f /\ cr_Daemon ref = df_Daemon f /\ liveDaemonBinding current (hs_ScopeKey s) ref = Some ref) initFailures /\
  (allow = true -> asked = ∅ /\ initFailures = [] /\ has_prefix GroupScopeKeyPrefix (hs_ScopeKey s) = true).
Proof.
  intros Hold [cur Hcur] Hsame. unfold tools_list_inputs. rewrite Hold, Hcur, bool_decide_eq_false_2 by done.
  rewrite bool_decide_eq_false_2 by done. rewrite Hcur in Hsame. rewrite Hsame. simpl. intros [= <- <- <-]. split_and!.
  - intros ref st H. unfold filterToolsListSuccessesByLiveSnapshot in H. apply filter_live_spec in H as [H|(was & st0 & Hin & Hl & H)].
    { by rewrite lookup_empty in H. }
    destruct (live_binding_fixed _ _ _ _ Hl) as [Hs Hf]. split; [done|]. exists was, st0. split; [by apply elem_of_map_to_list|].
    split; [done|]. destruct H as [[Hp ->]|H]; [left|by right]. split; [|done].
    unfold same_daemon in Hs. breflect. destruct Hs, ref, was. simpl in *. by subst.
  - apply Forall_forall. intros f Hf. unfold filterInitFailuresByLiveBindings in Hf. apply list_elem_of_In, filter_In in Hf as [Hin Hb].
    split; [by apply list_elem_of_In|]. unfold initFailureDaemonStillBound in Hb. apply existsb_exists in Hb as (ref & Hr & Hb).
    apply list_elem_of_In in Hr. exists ref. split; [done|]. breflect. destruct Hb as [[H1 H2] H3]. split; [done|]. split; [done|].
    destruct (liveDaemonBinding (Some cur) (hs_ScopeKey s) ref) as [l|] eqn:El; [|done]. apply Z.eqb_eq in H3.
    destruct (live_binding_fixed _ _ _ _ El) as [Hs _]. unfold same_daemon in Hs. breflect. destruct Hs, ref, l. simpl in *. by subst.
  - intros H. breflect. repeat match goal with H : _ /\ _ |- _ => destruct H end. done.
Qed.

(** ** At work *)
Definition demo_tool (ref : canonicalDaemonRef) (name : string) : namespacedTool :=
  mkNamespaced (exposed_name (cr_Server ref) name) ("{" +:+ name +:+ "}") (mkToolRef (cr_Server ref) (cr_Daemon ref) (cr_Port ref) name).
Definition demo_ref1 : canonicalDaemonRef := mkRef "memory" "a" 9101.
Definition demo_ref2 : canonicalDaemonRef := mkRef "memory" "b" 9102.
Definition demo_ref3 : canonicalDaemonRef := mkRef "search" "default" 9103.
Definition demo_results : list listResult :=
  [mkListResult demo_ref3 [] (Some (errors_New "HTTP 503"));
   mkListResult demo_ref2 (demo_tool demo_ref2 <$> ["write"; "purge"]) None;
   mkListResult demo_ref1 (demo_tool demo_ref1 <$> ["read"; "write"; "read"; "purge"]) None].
Definition demo_hidden : hiddenToolSet := buildHiddenToolSet {["memory" := ["purge"]]}.
Definition demo_group : hubSession :=
  mkSession "cid" "g:work" "iid" "2025-06-18" (Some (empty_snapshot 1)) [demo_ref1; demo_ref2; demo_ref3]
    {[demo_ref1 := "sid1"; demo_ref2 := "sid2"; demo_ref3 := "sid3"]} ∅ ∅ [mkDaemonFailure "search" "default" "initialize" "refused"]
    None ∅ 0 0 0 false ∅.
Definition demo_list := assembleToolsListResponse demo_results [] demo_group "iid" false demo_hidden None.
Definition demo_routes : gmap string canonicalToolRef := {["memory__read" := mkToolRef "memory" "a" 9101 "read"]}.

(** Both daemons show [write], so neither is routed and each has a row. *)
Lemma tools_list_exact_witness :
  demo_list.1 = Some demo_routes /\
  exists row, row ∈ failures_of demo_list /\ df_Server row = "memory" /\ df_Daemon row = "b".
Proof.
  split; [vm_compute; reflexivity|].
  assert (Hw : Forall well_named demo_results) by (repeat constructor).
  assert (Hr : demo_list.1 = Some demo_routes) by (vm_compute; reflexivity).
  destruct (tools_list_exact demo_results [] demo_group "iid" false demo_hidden None demo_routes Hw Hr) as (_ & _ & H & _).
  apply (H demo_ref2 (demo_tool demo_ref2 "write")); [|vm_compute; reflexivity].
  split; [|vm_compute; reflexivity]. apply elem_of_offers. eexists. split; [right; left|].
  split; [reflexivity|]. split; [reflexivity|]. left.
Defined.

Lemma tools_list_any_order_witness :
  assembleToolsListResponse demo_results [] demo_group "iid" false demo_hidden None =
  assembleToolsListResponse (reverse demo_results) [] demo_group "iid" false demo_hidden None.
Proof.
  apply (tools_list_any_order demo_results (reverse demo_results) [] demo_group "iid" false demo_hidden None).
  - symmetry. apply reverse_Permutation.
  - apply (bool_decide_unpack _). vm_compute. exact I.
Defined.

(** The second daemon's hidden tool would collide with the first's. *)
Lemma hidden_tools_unseen_witness :
  unreasoned demo_list = unreasoned (assembleToolsListResponse (without demo_hidden <$> demo_results) [] demo_group "iid" false ∅ None).
Proof.
  apply (hidden_tools_unseen demo_results [] demo_group "iid" false demo_hidden None).
  apply (bool_decide_unpack _). vm_compute. exact I.
Defined.

(** Of three daemons one has moved, one is gone and one is where it was. *)
Definition demo_moved : ResolverSnapshot :=
  mkSnapshot 2 {["g:work" := [mkRef "memory" "a" 9101; mkRef "memory" "b" 9202]]} ∅ {["g:work"]} {["g:work" := 1]}.
Definition demo_cached (ref : canonicalDaemonRef) : option daemonInitState :=
  if cr_Port ref =? 9202 then Some (mkInitState "sid2b" "2025-06-18") else None.
Definition demo_asked : gmap canonicalDaemonRef daemonInitState :=
  {[demo_ref1 := mkInitState "sid1" "2025-06-18"; mkRef "memory" "b" 9202 := mkInitState "sid2b" "2025-06-18"]}.
#[local] Instance DaemonFailure_eq_dec : EqDecision DaemonFailure.
Proof. solve_decision. Defined.
#[local] Instance daemonInitState_eq_dec : EqDecision daemonInitState.
Proof. solve_decision. Defined.
Lemma tools_list_asks_bound_witness :
  tools_list_inputs demo_group (Some demo_moved) demo_cached demo_cached = (demo_asked, [], false) /\
  liveDaemonBinding (Some demo_moved) "g:work" (mkRef "memory" "b" 9202) = Some (mkRef "memory" "b" 9202).
Proof.
  assert (H : tools_list_inputs demo_group (Some demo_moved) demo_cached demo_cached = (demo_asked, [], false)).
  { apply (bool_decide_unpack _). vm_compute. exact I. }
  split; [exact H|].
  destruct (tools_list_asks_bound demo_group (Some demo_moved) demo_cached demo_cached (empty_snapshot 1) demo_asked [] false
    eq_refl ltac:(eauto) eq_refl H) as (Ha & _ & _).
  apply (Ha (mkRef "memory" "b" 9202) (mkInitState "sid2b" "2025-06-18")). apply (bool_decide_unpack _). vm_compute. exact I.
Defined.

(** Every daemon failed: nothing is stored and the session's routes stay. *)
Example all_failed_keeps_routes :
  assembleToolsListResponse [mkListResult demo_ref3 [] (Some (errors_New "HTTP 503"))] [] demo_group "iid" false demo_hidden None =
  (None, ListFailed [mkDaemonFailure "search" "default" "tools/list" "HTTP 503"] "iid").
Proof. vm_compute. reflexivity. Qed.
(** Only hidden tools are left: the list says so. *)
Example all_hidden_reason :
  (assembleToolsListResponse [mkListResult demo_ref2 [demo_tool demo_ref2 "purge"] None] [] demo_group "iid" false demo_hidden None).2 =
  ListOk [] [] "iid" (Some emptyReasonAllToolsHidden).
Proof. vm_compute. reflexivity. Qed.
