(* ===== verification/Lines.v ===== *)
(** * Lines: texts and their lines.

    Lengths of texts as integers, and what [bufio.Scanner] makes of the bytes
    of a stream: its lines, without their line feeds and, for [drop_cr], one
    carriage return before each. *)
From S2P Require Import Prelude RequestId.
Open Scope Z_scope.

Definition len (s : string) : Z := Z.of_nat (String.length s).
(** The lines of the scanner: without their line feeds, the last one with or
    without it. *)
Definition LF : ascii := "010"%char.
Definition CR : ascii := "013"%char.
Fixpoint scan_lines (s : string) : list string :=
  match s with
  | EmptyString => []
  | String a s' =>
      if Ascii.eqb a LF then "" :: scan_lines s'
      else match scan_lines s' with [] => [String a ""] | l :: ls => String a l :: ls end
  end.
Fixpoint drop_cr (s : string) : string :=
  match s with
  | EmptyString => EmptyString
  | String a EmptyString => if Ascii.eqb a CR then EmptyString else s
  | String a s' => String a (drop_cr s')
  end.

Fixpoint lacks (a : ascii) (s : string) : bool :=
  match s with EmptyString => true | String b s' => negb (Ascii.eqb b a) && lacks a s' end.
Lemma scan_line l rest : lacks LF l = true -> scan_lines (l +:+ String LF rest) = l :: scan_lines rest.
Proof.
  induction l as [|a l IH]; intros H.
  - reflexivity.
  - simpl in H. apply andb_true_iff in H as [Ha Hl]. apply negb_true_iff in Ha.
    change (String a l +:+ String LF rest) with (String a (l +:+ String LF rest)). cbn [scan_lines]. by rewrite Ha, IH.
Qed.
Lemma drop_cr_lacks l : lacks CR l = true -> drop_cr l = l.
Proof.
  induction l as [|a [|b l] IH]; intros H; [done| |].
  - simpl in *. apply andb_true_iff in H as [Ha _]. apply negb_true_iff in Ha. by rewrite Ha.
  - change (drop_cr (String a (String b l))) with (String a (drop_cr (String b l))). f_equal. apply IH.
    simpl in *. by apply andb_true_iff in H as [_ H].
Qed.
Lemma drop_cr_cr l : lacks CR l = true -> drop_cr (l +:+ String CR "") = l.
Proof.
  induction l as [|a l IH]; intros H; [done|]. simpl in H. apply andb_true_iff in H as [Ha Hl].
  change (String a l +:+ String CR "") with (String a (l +:+ String CR "")).
  assert (E : drop_cr (String a (l +:+ String CR "")) = String a (drop_cr (l +:+ String CR ""))) by (by destruct l).
  by rewrite E, IH.
Qed.
Lemma lacks_app a s t : lacks a (s +:+ t) = lacks a s && lacks a t.
Proof.
  induction s as [|b s IH]; [done|]. change (String b s +:+ t) with (String b (s +:+ t)). cbn [lacks].
  by rewrite IH, andb_assoc.
Qed.
Lemma len_app s t : len (s +:+ t) = len s + len t.
Proof. unfold len. rewrite length_app_str. lia. Qed.
Lemma len_nonneg s : 0 <= len s.
Proof. unfold len. lia. Qed.
Lemma len_cons a s : len (String a s) = len s + 1.
Proof. unfold len. simpl. lia. Qed.
Lemma len_drop_cr s : len (drop_cr s) <= len s.
Proof.
  induction s as [|a [|b s] IH]; [done| |].
  - simpl. destruct (Ascii.eqb a CR); unfold len; simpl; lia.
  - change (drop_cr (String a (String b s))) with (String a (drop_cr (String b s))). rewrite !(len_cons a). lia.
Qed.
