(* ===== verification/DaemonHttp.v ===== *)
(** * DaemonHttp: one exchange between the hub and a daemon.

    The posts of [api/hub_mcp_aggregator.go]: what [doDaemonPostSized] makes
    of an HTTP answer, the reader of event streams, the handshake and the
    drain of a paginated tools/list, up to the fan-out.  What arrives on the
    wire is an argument; the request and the headers that matter are data.
    The texts of errors are shortened. *)
From S2P Require Import Prelude Lines GoTime RequestId Resolver Sessions ToolCalls ToolsList.
Open Scope Z_scope.

Definition maxAggregatorResponseBytes : Z := 4 * 1024 * 1024.

(** ** What is posted *)
Inductive rpc_body :=
| BInitialize (protocolVersion : string)
| BInitialized
| BToolsList (cursor : option string)
| BToolsCall (raw : string)
| BCancelled (requestID : string).
Record daemonRequest := mkRequest { dr_port : Z; dr_sid : string; dr_proto : string; dr_body : rpc_body }.

(** ** What comes back

    The bytes of the body up to its end, or to the error that cut it off;
    [w_read] is the counter of the stream reader when it stops, which reads
    ahead of the line it is at. *)
Record wire := mkWire {
  w_status : Z; w_contentType : string; w_sid : string;
  w_body : string; w_end : option post_error; w_read : Z;
}.
Definition bare (text : string) : post_error := mkPostError text false false false false false false.
Definition wrapped (msg : string) (e : post_error) : post_error :=
  mkPostError (msg +:+ ": " +:+ pe_text e) (pe_http e) (pe_deadline e) (pe_canceled e) (pe_timeout e) (pe_dial e) (pe_refused e).
Definition daemonHTTPError : post_error := mkPostError "HTTP" true false false false false false.

(** What the JSON decoder finds in the envelopes. *)
Record init_env := mkInitEnv { ie_error : option (Z * string); ie_result : option string }.
Record list_result := mkListEnvResult { lx_tools : option (list string); lx_nextCursor : option string }.
Record list_env := mkListEnv { le_error : option (Z * string); le_result : option list_result }.
Record sse_env := mkSseEnv { se_jsonrpc : string; se_id : string; se_method : string }.
Record env_lib := mkEnvLib {
  el_init : string -> res init_env; el_list : string -> res list_env; el_sse : string -> res sse_env;
}.

(** ** Event streams *)

(** The scanner gives up on a line that does not fit its buffer. *)
Definition scanner_limit (maxBytes : Z) : Z := Z.max (64 * 1024) (maxBytes + 1).

(** What a line adds to an event: its value, if it is a data line. *)
Definition data_value (line : string) : option string :=
  if has_prefix "data:" line then Some (trim_prefix " " (trim_prefix "data:" line)) else None.

Section sse.
Context (selectResponse : list string -> option string).
(** The loop of [readSSESelectedResponse]: the response, an error, or what is
    left of an event when the stream ends. *)
Fixpoint sse_loop (maxBytes totalBytes : Z) (dataLines : list string) (lines : list string) :
    (string + post_error) + list string :=
  match lines with
  | [] => inr dataLines
  | raw :: rest =>
      if scanner_limit maxBytes <=? len raw then inl (inr (bare "read SSE: token too long"))
      else
        let token := drop_cr raw in
        let totalBytes := totalBytes + (len token + 1) in
        if maxBytes <? totalBytes then inl (inr (bare "SSE response too large"))
        else
          let line := drop_cr token in
          if line =s "" then
            match dataLines with
            | [] => sse_loop maxBytes totalBytes [] rest
            | _ => match selectResponse dataLines with
                   | Some payload => inl (inl payload)
                   | None => sse_loop maxBytes totalBytes [] rest
                   end
            end
          else
            match data_value line with
            | None => sse_loop maxBytes totalBytes dataLines rest
            | Some value => sse_loop maxBytes totalBytes (dataLines ++ [value]) rest
            end
  end.
Definition readSSESelectedResponse (body : string) (ending : option post_error) (maxBytes : Z) : string + post_error :=
  match sse_loop maxBytes 0 [] (scan_lines body) with
  | inl r => r
  | inr dataLines =>
      match ending with
      | Some e => inr (wrapped "read SSE" e)
      | None =>
          match dataLines with
          | [] => inr (bare "SSE stream ended without a response")
          | _ => match selectResponse dataLines with
                 | Some payload => inl payload
                 | None => inr (bare "SSE stream ended without a response")
                 end
          end
      end
  end.
End sse.

Definition join_lines (dataLines : list string) : string := String.concat (String LF "") dataLines.
Definition selectJSONRPCResponse (E : env_lib) (dataLines : list string) : option string :=
  let payload := join_lines dataLines in
  match el_sse E payload with
  | Err _ => None
  | Ok env =>
      if negb (se_jsonrpc env =s "2.0") then None
      else if (se_id env =s "") || negb (se_method env =s "") then None
      else Some payload
  end.
Definition readSSEResponse (E : env_lib) (body : string) (ending : option post_error) (maxBytes : Z) : string + post_error :=
  readSSESelectedResponse (selectJSONRPCResponse E) body ending maxBytes.

(** Of the letters that fold to ASCII ones only the ASCII ones are known. *)
Definition isSSEContentType (ct : string) : bool :=
  to_lower (trim_space (cut (Ascii.eqb ";") ct).1) =s "text/event-stream".

(** ** One post *)
Record posted := mkPosted { po_result : string + post_error; po_bytes : Z; po_sid : string }.
Definition read_body (w : wire) : (string + post_error) * Z :=
  if maxAggregatorResponseBytes <? len (w_body w) then (inr (bare "response too large"), maxAggregatorResponseBytes + 1)
  else match w_end w with
       | Some e => (inr (wrapped "read" e), len (w_body w))
       | None => (inl (w_body w), len (w_body w))
       end.
Definition doDaemonPostSized (E : env_lib) (answer : wire + post_error) (expectResponse : bool) : posted :=
  match answer with
  | inr e => mkPosted (inr e) 0 ""
  | inl w =>
      if 400 <=? w_status w then mkPosted (inr daemonHTTPError) (Z.min (len (w_body w)) maxAggregatorResponseBytes) (w_sid w)
      else if negb expectResponse then mkPosted (inl "") 0 (w_sid w)
      else if isSSEContentType (w_contentType w) then
        mkPosted (readSSEResponse E (w_body w) (w_end w) maxAggregatorResponseBytes) (w_read w) (w_sid w)
      else mkPosted (read_body w).1 (read_body w).2 (w_sid w)
  end.
Definition doDaemonPost (E : env_lib) (answer : wire + post_error) (expectResponse : bool) : (string + post_error) * string :=
  let p := doDaemonPostSized E answer expectResponse in (po_result p, po_sid p).

(** ** The posts

    [post] is what comes back for a request. *)
Section posts.
Context (E : env_lib).
Definition failed (e : post_error) : error := errors_New (pe_text e).
Definition postInitialize (post : daemonRequest -> wire + post_error) (ref : canonicalDaemonRef) (protoVer : string) : res (string * string) :=
  let p := doDaemonPost E (post (mkRequest (cr_Port ref) "" "" (BInitialize protoVer))) true in
  match p.1 with
  | inr e => Err (failed e)
  | inl raw =>
      match el_init E raw with
      | Err e => Err (wrapf "parse initialize response" e)
      | Ok env =>
          match ie_error env with
          | Some (code, msg) => Err (errors_New ("daemon initialize error: " +:+ msg))
          | None =>
              match ie_result env with
              | None => Err (errors_New "daemon initialize response missing result field")
              | Some protocolVersion =>
                  if p.2 =s "" then Err (errors_New "daemon initialize succeeded with empty Mcp-Session-Id header")
                  else Ok (p.2, if protocolVersion =s "" then protoVer else protocolVersion)
              end
          end
      end
  end.
Definition post_notification (post : daemonRequest -> wire + post_error) (r : daemonRequest) : option error :=
  match (doDaemonPost E (post r) false).1 with inl _ => None | inr e => Some (failed e) end.
Definition postInitialized (post : daemonRequest -> wire + post_error) (ref : canonicalDaemonRef) (daemonSID protoVer : string) : option error :=
  post_notification post (mkRequest (cr_Port ref) daemonSID protoVer BInitialized).
Definition postCancellation (post : daemonRequest -> wire + post_error) (ref : canonicalDaemonRef) (daemonSID protoVer daemonReqID : string) :
    option error :=
  post_notification post (mkRequest (cr_Port ref) daemonSID protoVer (BCancelled daemonReqID)).
(** The exchange of [postToolsCall], once its envelope is built. *)
Definition exchange_call (post : daemonRequest -> wire + post_error) (ref : canonicalDaemonRef) (daemonSID protoVer body : string) :
    string + post_error :=
  (doDaemonPost E (post (mkRequest (cr_Port ref) daemonSID protoVer (BToolsCall body))) true).1.

(** *** Pages *)
Definition maxToolsListPages : Z := 10000.
Definition maxToolsListTotalBytes : Z := maxAggregatorResponseBytes.
(** The tools of one page and the cursor of the next. *)
Definition list_page (raw : string) : res (list string * option string) :=
  match el_list E raw with
  | Err e => Err (wrapf "parse" e)
  | Ok env =>
      match le_error env with
      | Some (code, msg) => Err (errors_New ("daemon error: " +:+ msg))
      | None =>
          match le_result env with
          | None => Err (errors_New "daemon tools/list response missing result field")
          | Some result =>
              match lx_tools result with
              | None => Err (errors_New "daemon tools/list response missing result.tools field")
              | Some tools => Ok (tools, lx_nextCursor result)
              end
          end
      end
  end.

Context (post : Z -> daemonRequest -> wire + post_error) (ref : canonicalDaemonRef) (daemonSID protoVer : string).
Definition list_request (cursor : option string) : daemonRequest := mkRequest (cr_Port ref) daemonSID protoVer (BToolsList cursor).
(** The loop, with the number of pages that may still be asked for, and the
    requests it makes. *)
Fixpoint drain (remaining : nat) (page : Z) (cursor : option string) (seenCursors : gset string) (totalBytes : Z) (tools : list string) :
    res (list string) * list daemonRequest :=
  match remaining with
  | O => (Err (errors_New "daemon tools/list exceeded its pages (runaway pagination)"), [])
  | S remaining =>
      let request := list_request cursor in
      let p := doDaemonPostSized E (post page request) true in
      let '(r, more) :=
        match po_result p with
        | inr e => (Err (failed e), [])
        | inl raw =>
            let totalBytes := totalBytes + po_bytes p in
            if maxToolsListTotalBytes <? totalBytes then
              (Err (errors_New "daemon tools/list exceeded its cumulative response bytes across pages (runaway payload)"), [])
            else
              match list_page raw with
              | Err e => (Err e, [])
              | Ok (ts, None) => (Ok (tools ++ ts), [])
              | Ok (ts, Some nc) =>
                  if bool_decide (nc ∈ seenCursors) then
                    (Err (errors_New "daemon tools/list returned a repeated cursor (pagination loop)"), [])
                  else drain remaining (page + 1) (Some nc) ({[nc]} ∪ seenCursors) totalBytes (tools ++ ts)
              end
        end in
      (r, request :: more)
  end.
Definition postToolsList : res (list string) * list daemonRequest := drain (Z.to_nat maxToolsListPages) 0 None ∅ 0 [].
End posts.

(** ** The fan-out: one answer for each daemon that is asked *)
Definition list_answer (E : env_lib) (J : json_lib) (post : canonicalDaemonRef -> Z -> daemonRequest -> wire + post_error)
    (row : canonicalDaemonRef * daemonInitState) : listResult :=
  match (postToolsList E (post row.1) row.1 (is_SessionID row.2) (is_ProtocolVersion row.2)).1 with
  | Ok tools => mkListResult row.1 (nameSpaceTools J row.1 tools) None
  | Err e => mkListResult row.1 [] (Some e)
  end.
Definition fanOutToolsList (E : env_lib) (J : json_lib) (post : canonicalDaemonRef -> Z -> daemonRequest -> wire + post_error)
    (successes : gmap canonicalDaemonRef daemonInitState) : list listResult :=
  list_answer E J post <$> map_to_list successes.

(** ** Lengths *)
Lemma len_trim_prefix p s : len (trim_prefix p s) <= len s.
Proof.
  revert s. induction p as [|a p IH]; intros [|b s]; try (simpl; lia).
  change (trim_prefix (String a p) (String b s)) with
    (if Ascii.eqb a b && has_prefix p s then trim_prefix p s else String b s).
  destruct (Ascii.eqb a b && has_prefix p s); [|lia]. rewrite len_cons. pose proof (IH s). lia.
Qed.
Lemma len_data_value line v : data_value line = Some v -> len v <= len line.
Proof.
  unfold data_value. destruct (has_prefix "data:" line); [|done]. intros [= <-].
  pose proof (len_trim_prefix " " (trim_prefix "data:" line)). pose proof (len_trim_prefix "data:" line). lia.
Qed.

(** ** Events as they are sent

    An event is a block of lines, each ended in one of two ways, before an
    empty line.  Its data lines carry the payload, with or without the space
    after the colon; the others name the event, number it, or are comments. *)
Inductive line_end := EndLF | EndCRLF.
Definition eol (e : line_end) : string := match e with EndLF => String LF "" | EndCRLF => String CR (String LF "") end.
Inductive sse_line := DataLine (spaced : bool) (value : string) | OtherLine (text : string).
Definition line_text (l : sse_line) : string :=
  match l with
  | DataLine spaced value => "data:" +:+ (if spaced then " " else "") +:+ value
  | OtherLine text => text
  end.
Definition line_value (l : sse_line) : option string := match l with DataLine _ value => Some value | OtherLine _ => None end.
Definition line_ok (l : sse_line) : bool :=
  lacks LF (line_text l) && lacks CR (line_text l) &&
  match l with
  | DataLine spaced value => spaced || negb (has_prefix " " value)
  | OtherLine text => negb (text =s "") && negb (has_prefix "data:" text)
  end.
Record sse_event := mkSseEvent { ev_lines : list (sse_line * line_end); ev_blank : line_end }.
Definition ev_values (ev : sse_event) : list string := omap line_value (ev_lines ev).*1.
Definition event_ok (ev : sse_event) : bool := forallb line_ok (ev_lines ev).*1.
Fixpoint send_lines (ls : list (sse_line * line_end)) (blank : line_end) : string :=
  match ls with [] => eol blank | (l, e) :: ls => line_text l +:+ eol e +:+ send_lines ls blank end.
Definition send_event (ev : sse_event) : string := send_lines (ev_lines ev) (ev_blank ev).
Definition send_events (evs : list sse_event) : string := foldr (fun ev s => send_event ev +:+ s) "" evs.

(** A JSON-RPC message that answers a request. *)
Definition is_response (E : env_lib) (payload : string) : Prop :=
  exists env, el_sse E payload = Ok env /\ se_jsonrpc env = "2.0" /\ se_id env <> "" /\ se_method env = "".
Lemma select_spec E ls p : selectJSONRPCResponse E ls = Some p <-> p = join_lines ls /\ is_response E (join_lines ls).
Proof.
  unfold selectJSONRPCResponse, is_response. destruct (el_sse E (join_lines ls)) as [env|e]; [|naive_solver].
  destruct (String.eqb_spec (se_jsonrpc env) "2.0"), (String.eqb_spec (se_id env) ""), (String.eqb_spec (se_method env) "");
    cbn [negb orb]; naive_solver.
Qed.
Lemma line_text_value l : line_ok l = true -> data_value (line_text l) = line_value l.
Proof.
  destruct l as [[] v|t]; unfold line_ok, data_value; cbn [line_text line_value]; intros H; [by destruct v|..].
  - apply andb_true_iff in H as [_ H%negb_true_iff]. 
    change (Some (trim_prefix " " v) = Some v). f_equal. destruct v as [|a v]; [done|].
    change (has_prefix " " (String a v)) with (Ascii.eqb " " a && true) in H.
    change ((if Ascii.eqb " " a && true then trim_prefix "" v else String a v) = String a v). by rewrite H.
  - apply andb_true_iff in H as [_ [_ H%negb_true_iff]%andb_true_iff]. by rewrite H.
Qed.
Lemma line_text_nonempty l : line_ok l = true -> line_text l <> "".
Proof.
  destruct l as [b v|t]; [done|]. intros [_ [H%negb_true_iff _]%andb_true_iff]%andb_true_iff. by apply String.eqb_neq.
Qed.

Section reading.
Context (selectResponse : list string -> option string) (maxBytes : Z).
Local Notation loop := (sse_loop selectResponse maxBytes).

(** One line of a stream that stays within the limit. *)
Lemma loop_line e l rest total data :
  lacks LF l = true -> lacks CR l = true -> 0 <= total -> total + len (l +:+ eol e) <= maxBytes ->
  exists total', total <= total' <= total + len (l +:+ eol e) /\
  loop total data (scan_lines (l +:+ eol e +:+ rest)) =
  if l =s "" then
    match data with
    | [] => loop total' [] (scan_lines rest)
    | _ => match selectResponse data with Some p => inl (inl p) | None => loop total' [] (scan_lines rest) end
    end
  else match data_value l with None => loop total' data (scan_lines rest) | Some v => loop total' (data ++ [v]) (scan_lines rest) end.
Proof.
  intros Hl Hc H0 Hm. exists (total + (len l + 1)). rewrite len_app in *. pose proof (len_nonneg l).
  assert (Heol : 1 <= len (eol e)) by (by destruct e). split; [lia|].
  assert (E : exists raw, scan_lines (l +:+ eol e +:+ rest) = raw :: scan_lines rest /\ drop_cr raw = l /\ len raw <= len l + len (eol e) - 1).
  { destruct e; simpl eol.
    - exists l. change (String LF "" +:+ rest) with (String LF rest). rewrite scan_line, drop_cr_lacks by done.
      change (len (String LF "")) with 1. split_and!; [done..|lia].
    - exists (l +:+ String CR ""). change (String CR (String LF "") +:+ rest) with (String CR "" +:+ String LF rest).
      rewrite app_assoc_str, scan_line, drop_cr_cr, len_app.
      + change (len (String CR "")) with 1. change (len (String CR (String LF ""))) with 2. split_and!; [done..|lia].
      + done.
      + clear -Hl. induction l as [|a l IH]; [done|]. simpl in *. apply andb_true_iff in Hl as [-> Hl]. by apply IH. }
  destruct E as (raw & -> & Hd & Hlen). cbn [sse_loop]. rewrite Hd.
  assert (scanner_limit maxBytes <=? len raw = false) as -> by (apply Z.leb_gt; unfold scanner_limit; lia).
  assert (maxBytes <? total + (len l + 1) = false) as -> by (apply Z.ltb_ge; lia).
  by rewrite drop_cr_lacks.
Qed.


Lemma loop_block ls blank rest total data :
  forallb line_ok ls.*1 = true -> 0 <= total -> total + len (send_lines ls blank) <= maxBytes ->
  exists total', total <= total' <= total + len (send_lines ls blank) /\
  loop total data (scan_lines (send_lines ls blank +:+ rest)) =
  match data ++ omap line_value ls.*1 with
  | [] => loop total' [] (scan_lines rest)
  | d => match selectResponse d with Some p => inl (inl p) | None => loop total' [] (scan_lines rest) end
  end.
Proof.
  revert total data. induction ls as [|[l e] ls IH]; intros total data Hok H0 Hm.
  - destruct (loop_line blank "" rest total data) as (t & Ht & E); [done..|]. exists t. split; [done|].
    cbn [fmap list_fmap omap list_omap]. rewrite app_nil_r. by destruct data.
  - change (line_ok l && forallb line_ok ls.*1 = true) in Hok. apply andb_true_iff in Hok as [Hl Hok].
    cbn [send_lines] in *. rewrite app_assoc_str, len_app in *. pose proof (len_nonneg (send_lines ls blank)).
    pose proof (line_text_value l Hl) as Hv. pose proof (line_text_nonempty l Hl) as Hne.
    apply andb_true_iff in Hl as [[Hlf Hcr]%andb_true_iff _].
    destruct (loop_line e (line_text l) (send_lines ls blank +:+ rest) total data) as (t1 & Ht1 & E1); [done..|lia|].
    rewrite <- !app_assoc_str. rewrite E1, (proj2 (String.eqb_neq _ _) Hne), Hv.
    change (omap line_value ((l, e) :: ls).*1) with
      (match line_value l with Some v => v :: omap line_value ls.*1 | None => omap line_value ls.*1 end).
    destruct (line_value l) as [v|].
    + destruct (IH t1 (data ++ [v])) as (t2 & Ht2 & E2); [done|lia|lia|]. exists t2. split; [lia|].
      by rewrite E2, <- app_assoc.
    + destruct (IH t1 data) as (t2 & Ht2 & E2); [done|lia|lia|]. exists t2. split; [lia|]. by rewrite E2.
Qed.
Lemma loop_events evs rest total :
  Forall (fun ev => event_ok ev = true /\ (ev_values ev = [] \/ selectResponse (ev_values ev) = None)) evs ->
  0 <= total -> total + len (send_events evs) <= maxBytes ->
  exists total', total <= total' <= total + len (send_events evs) /\
  loop total [] (scan_lines (send_events evs +:+ rest)) = loop total' [] (scan_lines rest).
Proof.
  intros Hp. revert total. induction Hp as [|ev evs [Hok Hs] Hps IH]; intros total H0 Hm; cbn [send_events foldr] in *.
  { exists total. split; [unfold len; simpl; lia|done]. }
  fold (send_events evs) in *. rewrite len_app in *. pose proof (len_nonneg (send_events evs)).
  destruct (loop_block (ev_lines ev) (ev_blank ev) (send_events evs +:+ rest) total []) as (t1 & Ht1 & E1); [done..|unfold send_event in *; lia|].
  unfold send_event in *. destruct (IH t1) as (t2 & Ht2 & E2); [lia..|]. exists t2. split; [lia|].
  rewrite <- app_assoc_str, E1. cbn [app]. fold (ev_values ev). destruct (ev_values ev) eqn:Ev; [done|].
  destruct Hs as [?|Hs]; [done|]. by rewrite Hs.
Qed.
End reading.
Lemma send_events_app l1 l2 : send_events (l1 ++ l2) = send_events l1 +:+ send_events l2.
Proof. induction l1 as [|ev l1 IH]; [done|]. cbn [send_events foldr app]. fold (send_events l1) (send_events (l1 ++ l2)). by rewrite IH, app_assoc_str. Qed.

(** An event stream gives the first event that is a response.  The
    stream may hold any events before it that carry no response, with any
    lines that name or number an event or comment on it, and may end its
    lines in LF or CR LF, as long as no line has a carriage return of its own
    and what has been sent up to the end of the response stays within the
    byte limit.  Nothing of what follows is waited for, be it more events,
    silence or the loss of the connection. *)
Theorem sse_first_response E before ev rest ending maxBytes :
  Forall (fun b => event_ok b = true /\ (ev_values b = [] \/ ~ is_response E (join_lines (ev_values b)))) before ->
  event_ok ev = true -> ev_values ev <> [] -> is_response E (join_lines (ev_values ev)) ->
  len (send_events (before ++ [ev])) <= maxBytes ->
  readSSEResponse E (send_events (before ++ [ev]) +:+ rest) ending maxBytes = inl (join_lines (ev_values ev)).
Proof.
  intros Hb Hok Hne Hr Hm. rewrite send_events_app in *.
  assert (Hev : send_events [ev] = send_event ev) by (cbn [send_events foldr]; apply app_nil_str). rewrite Hev in *.
  rewrite len_app in Hm. pose proof (len_nonneg (send_event ev)).
  unfold readSSEResponse, readSSESelectedResponse. rewrite <- app_assoc_str.
  destruct (loop_events (selectJSONRPCResponse E) maxBytes before (send_event ev +:+ rest) 0) as (t & Ht & ->); [|lia..|].
  { eapply Forall_impl; [exact Hb|]. intros b [Hbo Hbs]. split; [done|]. destruct Hbs as [?|Hbs]; [by left|right].
    destruct (selectJSONRPCResponse E (ev_values b)) as [p|] eqn:Ep; [|done]. by apply select_spec in Ep as [_ ?]. }
  destruct (loop_block (selectJSONRPCResponse E) maxBytes (ev_lines ev) (ev_blank ev) rest t []) as (t' & _ & E1);
    [done|lia|unfold send_event in *; lia|].
  unfold send_event. rewrite E1. cbn [app]. fold (ev_values ev). destruct (ev_values ev) as [|v vs] eqn:Ev; [done|].
  by rewrite (proj2 (select_spec E (v :: vs) _) (conj eq_refl Hr)).
Qed.

(** ** What can be handed on *)
Lemma len_join ls : len (join_lines ls) + 1 <= foldr (fun l n => len l + 1 + n) 1 ls.
Proof.
  induction ls as [|l ls IH]; [done|]. cbn [foldr]. destruct ls as [|l' ls]; [cbn [foldr]; unfold join_lines; simpl; lia|].
  change (join_lines (l :: l' :: ls)) with (l +:+ String LF "" +:+ join_lines (l' :: ls)). rewrite !len_app.
  change (len (String LF "")) with 1. lia.
Qed.
Definition gathered (ls : list string) : Z := foldr (fun l n => len l + 1 + n) 0 ls.
Lemma gathered_app ls l : gathered (ls ++ [l]) = gathered ls + len l + 1.
Proof. unfold gathered. induction ls as [|l' ls IH]; simpl; lia. Qed.
Lemma len_join_gathered ls : len (join_lines ls) <= gathered ls.
Proof.
  pose proof (len_join ls). enough (forall ls, foldr (fun l n => len l + 1 + n) 1 ls = gathered ls + 1) as E by (rewrite E in *; lia).
  clear. unfold gathered. induction ls; simpl; lia.
Qed.
Lemma select_bounded E ls p : selectJSONRPCResponse E ls = Some p -> len p <= gathered ls.
Proof.
  intros [-> _]%select_spec. apply len_join_gathered.
Qed.
Lemma sse_loop_bounded E maxBytes lines total data :
  gathered data <= total -> total <= maxBytes ->
  match sse_loop (selectJSONRPCResponse E) maxBytes total data lines with
  | inl (inl p) => len p <= maxBytes
  | inl (inr e) => isRetriableTransportFailure e = false
  | inr data' => gathered data' <= maxBytes
  end.
Proof.
  revert total data. induction lines as [|raw rest IH]; intros total data Hd Ht; cbn [sse_loop]; [lia|].
  destruct (scanner_limit maxBytes <=? len raw); [done|]. destruct (maxBytes <? _) eqn:Em; [done|]. apply Z.ltb_ge in Em.
  pose proof (len_nonneg (drop_cr raw)). destruct (drop_cr (drop_cr raw) =s "").
  - assert (gathered [] <= total + (len (drop_cr raw) + 1)) by (unfold gathered; simpl; pose proof (len_nonneg (join_lines data)); pose proof (len_join_gathered data); lia).
    destruct data as [|d data]; [apply IH; lia|]. destruct (selectJSONRPCResponse E (d :: data)) eqn:Es; [|apply IH; lia].
    apply select_bounded in Es. lia.
  - destruct (data_value _) as [v|] eqn:Ev; apply IH; try lia.
    rewrite gathered_app. apply len_data_value in Ev. pose proof (len_drop_cr (drop_cr raw)). lia.
Qed.
Definition clean (e : post_error) : Prop := pe_dial e = false /\ pe_refused e = false.
Lemma clean_final e : clean e -> isRetriableTransportFailure e = false.
Proof. intros [Hd Hr]. unfold isRetriableTransportFailure. rewrite Hd, Hr. by repeat case_match. Qed.
Lemma readSSE_bounded E body ending maxBytes :
  0 <= maxBytes -> (forall e, ending = Some e -> clean e) ->
  match readSSEResponse E body ending maxBytes with
  | inl p => len p <= maxBytes
  | inr e => isRetriableTransportFailure e = false
  end.
Proof.
  intros Hm He. unfold readSSEResponse, readSSESelectedResponse.
  pose proof (sse_loop_bounded E maxBytes (scan_lines body) 0 [] (Z.le_refl 0) Hm) as H.
  destruct (sse_loop _ _ _ _ _) as [[p|e]|data]; [done|done|].
  destruct ending as [e|]; [by apply clean_final, (He e)|]. destruct data as [|d data]; [done|].
  destruct (selectJSONRPCResponse E (d :: data)) eqn:Es; [|done]. apply select_bounded in Es. lia.
Qed.

(** C38: whatever a daemon sends, the hub hands on at most 4 MiB of one
    answer, in either framing; and once an answer has begun to arrive, no
    failure is taken for one of a request that did not land, so the call is
    not sent a second time. *)
Theorem answer_bounded_and_final E answer :
  (forall w e, answer = inl w -> w_end w = Some e -> pe_dial e = false /\ pe_refused e = false) ->
  match (doDaemonPost E answer true).1 with
  | inl payload => len payload <= maxAggregatorResponseBytes
  | inr e => isRetriableTransportFailure e = true -> answer = inr e
  end.
Proof.
  intros Hend. unfold doDaemonPost, doDaemonPostSized. cbn [fst]. destruct answer as [w|e]; [|done].
  assert (He : forall e, w_end w = Some e -> clean e) by (intros e; by apply Hend).
  destruct (400 <=? w_status w); [done|]. cbn [negb]. destruct (isSSEContentType (w_contentType w)); cbn [po_result].
  - pose proof (readSSE_bounded E (w_body w) (w_end w) maxAggregatorResponseBytes ltac:(done) He) as H.
    destruct (readSSEResponse _ _ _ _); [done|congruence].
  - unfold read_body. destruct (maxAggregatorResponseBytes <? len (w_body w)) eqn:El; [done|]. apply Z.ltb_ge in El.
    destruct (w_end w) as [e|]; [|exact El]. simpl. intros Hr.
    assert (Hc : isRetriableTransportFailure (wrapped "read" e) = false) by (apply clean_final; destruct (He e); done).
    congruence.
Qed.

(** ** Pages *)
Section pages.
Context (E : env_lib) (post : Z -> daemonRequest -> wire + post_error) (ref : canonicalDaemonRef) (daemonSID protoVer : string).

(** What a daemon shows when it is asked for its pages one after the other:
    of each the tools, the cursor of the next and the bytes that were read. *)
Inductive paged : Z -> option string -> list (list string) -> list string -> Z -> Prop :=
| paged_last page cursor raw ts :
    let p := doDaemonPostSized E (post page (list_request ref daemonSID protoVer cursor)) true in
    po_result p = inl raw -> list_page E raw = Ok (ts, None) ->
    paged page cursor [ts] [] (po_bytes p)
| paged_next page cursor raw ts nc pages cursors bytes :
    let p := doDaemonPostSized E (post page (list_request ref daemonSID protoVer cursor)) true in
    po_result p = inl raw -> list_page E raw = Ok (ts, Some nc) ->
    paged (page + 1) (Some nc) pages cursors bytes ->
    paged page cursor (ts :: pages) (nc :: cursors) (po_bytes p + bytes).

Definition counted : Prop := forall page request w, post page request = inl w -> 0 <= w_read w.
Lemma bytes_nonneg page request : counted -> 0 <= po_bytes (doDaemonPostSized E (post page request) true).
Proof.
  intros Hc. unfold doDaemonPostSized. destruct (post page request) as [w|] eqn:Ep; [|done].
  pose proof (len_nonneg (w_body w)). assert (0 <= maxAggregatorResponseBytes) by done.
  unfold read_body. repeat case_match; simpl; try lia. eauto.
Qed.
Lemma paged_nonneg page cursor pages cursors bytes : counted -> paged page cursor pages cursors bytes -> 0 <= bytes.
Proof.
  intros Hc H. induction H; subst p; [by apply bytes_nonneg|].
  pose proof (bytes_nonneg page (list_request ref daemonSID protoVer cursor) Hc). lia.
Qed.

Lemma drain_sound remaining page cursor seen total tools out reqs :
  drain E post ref daemonSID protoVer remaining page cursor seen total tools = (Ok out, reqs) ->
  exists pages cursors bytes, paged page cursor pages cursors bytes /\ (length pages <= remaining)%nat /\ NoDup cursors /\
    Forall (fun c => c ∉ seen) cursors /\ total + bytes <= maxToolsListTotalBytes /\ out = tools ++ concat pages /\
    reqs = list_request ref daemonSID protoVer <$> cursor :: (Some <$> cursors).
Proof.
  revert page cursor seen total tools reqs. induction remaining as [|remaining IH]; intros page cursor seen total tools reqs; cbn [drain]; [done|].
  set (p := doDaemonPostSized E _ true). destruct (po_result p) as [raw|e] eqn:Ep; [|done].
  destruct (maxToolsListTotalBytes <? total + po_bytes p) eqn:Em; [done|]. apply Z.ltb_ge in Em.
  destruct (list_page E raw) as [[ts [nc|]]|e] eqn:El; [|intros [= <- <-]|done].
  - case_bool_decide as Hs; [done|]. destruct (drain _ _ _ _ _ _ _ _ _ _ _) as [r more] eqn:Ed. intros [= -> <-].
    apply IH in Ed as (pages & cursors & bytes & Hp & Hlen & Hnd & Hseen & Hb & -> & ->).
    exists (ts :: pages), (nc :: cursors), (po_bytes p + bytes). split; [by apply (paged_next page cursor raw)|].
    split; [simpl; lia|]. split; [constructor; [|done]|].
    { intros Hin. rewrite Forall_forall in Hseen. specialize (Hseen _ Hin). set_solver. }
    split; [constructor; [done|]; eapply Forall_impl; [exact Hseen|]; set_solver|].
    split; [lia|]. split; [simpl; by rewrite <- app_assoc|done].
  - exists [ts], [], (po_bytes p). split; [by apply (paged_last page cursor raw)|]. simpl. rewrite app_nil_r.
    split; [lia|]. split; [constructor|]. split; [constructor|]. split; [lia|done].
Qed.
Lemma drain_complete page cursor pages cursors bytes remaining seen total tools :
  counted -> paged page cursor pages cursors bytes -> (length pages <= remaining)%nat -> NoDup cursors ->
  Forall (fun c => c ∉ seen) cursors -> total + bytes <= maxToolsListTotalBytes ->
  drain E post ref daemonSID protoVer remaining page cursor seen total tools =
  (Ok (tools ++ concat pages), list_request ref daemonSID protoVer <$> cursor :: (Some <$> cursors)).
Proof.
  intros Hc H. revert remaining seen total tools.
  induction H as [page cursor raw ts p Hp Hl|page cursor raw ts nc pages cursors bytes p Hp Hl H IH];
    intros [|remaining] seen total tools Hlen Hnd Hseen Hb; simpl in Hlen; try lia; cbn [drain]; fold p; rewrite Hp, Hl.
  - assert (maxToolsListTotalBytes <? total + po_bytes p = false) as -> by (apply Z.ltb_ge; lia). simpl. by rewrite app_nil_r.
  - pose proof (paged_nonneg _ _ _ _ _ Hc H).
    assert (maxToolsListTotalBytes <? total + po_bytes p = false) as -> by (apply Z.ltb_ge; lia).
    inversion_clear Hnd as [|? ? Hnin Hnd']. inversion_clear Hseen as [|? ? Hs Hseen']. rewrite bool_decide_eq_false_2 by done.
    rewrite IH; [by rewrite <- app_assoc|lia|done| |lia].
    rewrite Forall_forall in *. intros c Hin. specialize (Hseen' c Hin). set_solver.
Qed.
Lemma drain_requests remaining page cursor seen total tools r reqs :
  (forall c, cursor = Some c -> c ∈ seen) ->
  drain E post ref daemonSID protoVer remaining page cursor seen total tools = (r, reqs) ->
  (length reqs <= remaining)%nat /\ exists cursors, reqs = list_request ref daemonSID protoVer <$> cursors /\ NoDup cursors /\
    Forall (fun c => c = cursor \/ exists nc, c = Some nc /\ nc ∉ seen) cursors.
Proof.
  revert page cursor seen total tools r reqs. induction remaining as [|remaining IH]; intros page cursor seen total tools r reqs Hcs; cbn [drain].
  { intros [= <- <-]. split; [done|]. exists []. split; [done|]. split; constructor. }
  set (p := doDaemonPostSized E _ true).
  assert (Hone : forall r', (r', [list_request ref daemonSID protoVer cursor]) = (r, reqs) -> (length reqs <= S remaining)%nat /\
    exists cursors, reqs = list_request ref daemonSID protoVer <$> cursors /\ NoDup cursors /\
    Forall (fun c => c = cursor \/ exists nc, c = Some nc /\ nc ∉ seen) cursors).
  { intros r' [= <- <-]. split; [simpl; lia|]. exists [cursor]. split; [done|]. split; [apply NoDup_singleton|]. constructor; [by left|constructor]. }
  destruct (po_result p) as [raw|e] eqn:Ep; [|by apply Hone].
  destruct (maxToolsListTotalBytes <? total + po_bytes p); [by apply Hone|].
  destruct (list_page E raw) as [[ts [nc|]]|e] eqn:El; [|by apply Hone|by apply Hone].
  case_bool_decide as Hs; [by apply Hone|]. destruct (drain _ _ _ _ _ _ _ _ _ _ _) as [r' more] eqn:Ed. intros [= <- <-].
  apply IH in Ed as (Hlen & cursors & -> & Hnd & Hf); [|set_solver]. split; [simpl in *; lia|]. exists (cursor :: cursors).
  split; [done|]. rewrite Forall_forall in Hf. split.
  - constructor; [|done]. intros Hin. destruct (Hf _ Hin) as [->|(c & -> & Hc)]; [by apply Hs, Hcs|]. apply Hc.
    apply elem_of_union_r. by apply Hcs.
  - apply Forall_forall. intros c [->|Hin]%elem_of_cons; [by left|]. right.
    destruct (Hf _ Hin) as [->|(c' & -> & Hc)]; [eauto|]. exists c'. split; [done|]. set_solver.
Qed.
End pages.

(** C37: a tools/list succeeds exactly if the daemon shows its pages, one
    for each cursor, down to one without a cursor, at most 10,000 of them with
    no cursor twice and at most 4 MiB together; the tools are then those of
    all pages, in order.  Whatever it answers, the daemon is never asked for a
    page twice and at most 10,000 times. *)
Theorem pages_drained_exactly E post ref daemonSID protoVer :
  (forall page request w, post page request = inl w -> 0 <= w_read w) ->
  let '(r, reqs) := postToolsList E post ref daemonSID protoVer in
  (forall tools, r = Ok tools <-> exists pages cursors bytes,
     paged E post ref daemonSID protoVer 0 None pages cursors bytes /\ Z.of_nat (length pages) <= maxToolsListPages /\
     NoDup cursors /\ bytes <= maxToolsListTotalBytes /\ tools = concat pages) /\
  NoDup reqs /\ Z.of_nat (length reqs) <= maxToolsListPages.
Proof.
  intros Hc. destruct (postToolsList E post ref daemonSID protoVer) as [r reqs] eqn:Ed. unfold postToolsList in Ed.
  assert (Hmax : 0 <= maxToolsListPages) by done.
  assert (Hn : Z.of_nat (Z.to_nat maxToolsListPages) = maxToolsListPages) by (by rewrite Z2Nat.id).
  generalize dependent (Z.to_nat maxToolsListPages). intros n Ed Hn. clear Hmax. split.
  - intros tools. split.
    + intros ->. apply drain_sound in Ed as (pages & cursors & bytes & Hp & Hlen & Hnd & _ & Hb & -> & _).
      exists pages, cursors, bytes. split_and!; try done. lia.
    + intros (pages & cursors & bytes & Hp & Hlen & Hnd & Hb & ->).
      rewrite (drain_complete E post ref daemonSID protoVer 0 None pages cursors bytes n ∅ 0 []) in Ed; try done; [by simplify_eq|lia|].
      apply Forall_forall. set_solver.
  - apply drain_requests in Ed as (Hlen & cursors & -> & Hnd & _); [|done]. split; [|lia].
    apply NoDup_fmap_2; [|done]. by intros c c' [= ->].
Qed.

(** ** The fan-out *)

(** A daemon that is asked has the tool on one of its pages. *)
Definition daemon_lists (E : env_lib) (J : json_lib) (post : canonicalDaemonRef -> Z -> daemonRequest -> wire + post_error)
    (asked : gmap canonicalDaemonRef daemonInitState) (d : canonicalDaemonRef) (t : namespacedTool) : Prop :=
  exists st tools tool, asked !! d = Some st /\
    (postToolsList E (post d) d (is_SessionID st) (is_ProtocolVersion st)).1 = Ok tools /\ tool ∈ tools /\ nameSpaceTool J d tool = Some t.
Lemma fan_out_named E J post asked : Forall well_named (fanOutToolsList E J post asked).
Proof.
  apply Forall_forall. intros r Hr. apply list_elem_of_fmap in Hr as ([d st] & -> & _). unfold list_answer.
  destruct (postToolsList _ _ _ _ _).1 as [tools|e]; [apply nameSpaceTools_named|constructor].
Qed.
Lemma fan_out_refs E J post asked : lr_ref <$> fanOutToolsList E J post asked = (map_to_list asked).*1.
Proof.
  unfold fanOutToolsList. rewrite <- list_fmap_compose. apply list_fmap_ext. intros i [d st] _. unfold list_answer, compose. simpl.
  by destruct (postToolsList _ _ _ _ _).1.
Qed.
Lemma fan_out_distinct E J post asked : NoDup (lr_ref <$> fanOutToolsList E J post asked).
Proof. rewrite fan_out_refs. apply NoDup_fst_map_to_list. Qed.
Lemma fan_out_shown E J post asked hidden d t :
  shown_by hidden (fanOutToolsList E J post asked) d t <-> daemon_lists E J post asked d t /\ hides_tool hidden t = false.
Proof.
  unfold shown_by. rewrite elem_of_offers. apply and_iff_compat_r. split.
  - intros (r & Hr & He & <- & Ht). apply list_elem_of_fmap in Hr as ([d st] & -> & Hin). apply elem_of_map_to_list in Hin.
    unfold list_answer in *. destruct (postToolsList E (post (d, st).1) _ _ _).1 as [tools|e] eqn:Ep; simpl in *; [|done].
    apply list_elem_of_omap in Ht as (tool & Htool & Hn). by exists st, tools, tool.
  - intros (st & tools & tool & Ha & Hp & Htool & Hn). exists (list_answer E J post (d, st)). split.
    { apply list_elem_of_fmap. exists (d, st). split; [done|]. by apply elem_of_map_to_list. }
    unfold list_answer. cbn [fst snd]. rewrite Hp. simpl. split; [done|]. split; [done|]. apply list_elem_of_omap. eauto.
Qed.

(** C21: of a tools/list a session keeps exactly the routes of the
    tools its daemons have on any of their pages, to the daemon, port and
    name they have there, apart from hidden ones and from names that two of
    the daemons show; the list is the routes' tools in the order of their
    names, and a visible tool that is not routed has a failure row for each
    daemon that shows it. *)
Theorem published_routes_exact E J post s instanceID current live cached1 cached2 routes :
  let '(asked, _, _) := tools_list_inputs s current cached1 cached2 in
  let newest := match live with Some _ => live | None => current end in
  let hidden := buildHiddenToolSet (snapshotHiddenToolsForScope newest (hs_ScopeKey s)) in
  let visible d t := daemon_lists E J post asked d t /\ hides_tool hidden t = false in
  let alone d name := forall d' t', visible d' t' -> nt_Exposed t' = name -> d' = d in
  let out := AggregateToolsList s instanceID current live cached1 cached2 (fanOutToolsList E J post) in
  out.1 = Some routes ->
  (forall name ref, routes !! name = Some ref <->
     exists d t, visible d t /\ nt_Exposed t = name /\ nt_Ref t = ref /\ alone d name) /\
  (exists flat, list_of out = Some (nt_Body <$> flat) /\ Sorted str_le (nt_Exposed <$> flat) /\ NoDup (nt_Exposed <$> flat) /\
     dom routes = list_to_set (nt_Exposed <$> flat) /\ Forall (fun t => routes !! nt_Exposed t = Some (nt_Ref t)) flat) /\
  (forall d t, visible d t -> routes !! nt_Exposed t = None ->
     exists row, row ∈ failures_of out /\ df_Server row = cr_Server d /\ df_Daemon row = cr_Daemon d).
Proof.
  unfold AggregateToolsList. destruct (tools_list_inputs s current cached1 cached2) as [[asked failures] allow].
  cbv zeta. set (newest := match live with Some _ => live | None => current end).
  set (hidden := buildHiddenToolSet _). set (out := assembleToolsListResponse _ _ _ _ _ _ _). intros Hr.
  destruct (tools_list_exact (fanOutToolsList E J post asked) failures s (if hs_InstanceID s =s "" then instanceID else hs_InstanceID s)
    allow hidden newest routes (fan_out_named E J post asked) Hr) as (Hex & Hflat & Hrow & _).
  assert (Hv : forall d t, daemon_lists E J post asked d t /\ hides_tool hidden t = false <->
    shown_by hidden (fanOutToolsList E J post asked) d t) by (intros d t; symmetry; apply fan_out_shown).
  split; [|split; [exact Hflat|]].
  - intros name ref. rewrite Hex. split; intros (d & t & Hd & ? & ? & Hs); exists d, t; (split; [by apply Hv|]); split_and!; try done;
      intros d' t' Hd'; apply Hs; by apply Hv.
  - intros d t Hd. apply Hrow. by apply Hv.
Qed.

(** ** At work *)
Definition demo_envs : env_lib :=
  mkEnvLib (fun _ => Ok (mkInitEnv None (Some "2025-06-18")))
    (fun raw =>
       if raw =s "page1" then Ok (mkListEnv None (Some (mkListEnvResult (Some ["read"; "write"]) (Some ""))))
       else if raw =s "page2" then Ok (mkListEnv None (Some (mkListEnvResult (Some ["purge"]) None)))
       else Err (errors_New "no envelope"))
    (fun raw => if raw =s "answer" then Ok (mkSseEnv "2.0" "2" "") else Ok (mkSseEnv "2.0" "" "notifications/progress")).
Definition demo_json_list : json_lib :=
  mkJsonLib (mkReader (fun s => Ok s) errors_New) (fun s => Ok s) (fun tool => Ok (Some {["name" := tool]}))
    (fun m => Ok (default "" (m !! "name"))) (fun s => Ok s) (fun _ _ s => Ok s) (fun _ s => Ok s).
(** A daemon with two pages, the second under the empty cursor. *)
Definition demo_pages (page : Z) (r : daemonRequest) : wire + post_error :=
  match dr_body r with
  | BToolsList None => inl (mkWire 200 "application/json" "sid1" "page1" None 0)
  | BToolsList (Some _) => inl (mkWire 200 "application/json" "sid1" "page2" None 0)
  | _ => inr (bare "refused")
  end.

(** A stream with a comment, a named progress event, and the answer. *)
Definition demo_progress : list sse_event :=
  [mkSseEvent [(OtherLine ": keep-alive", EndLF)] EndLF;
   mkSseEvent [(OtherLine "event: message", EndCRLF); (OtherLine "id: 7", EndCRLF); (DataLine true "progress", EndCRLF)] EndCRLF].
Definition demo_answer : sse_event := mkSseEvent [(OtherLine "event: message", EndCRLF); (DataLine false "answer", EndCRLF)] EndCRLF.
Lemma sse_first_response_witness :
  readSSEResponse demo_envs (send_events (demo_progress ++ [demo_answer]) +:+ "data: half an ev") (Some (bare "reset")) 1000 = inl "answer".
Proof.
  apply (sse_first_response demo_envs demo_progress demo_answer "data: half an ev" (Some (bare "reset")) 1000).
  - constructor; [by split; [|left]|]. constructor; [|constructor]. split; [done|]. right. intros (env & He & _ & Hid & _).
    vm_compute in He. by injection He as <-.
  - reflexivity.
  - discriminate.
  - eexists. split; [vm_compute; reflexivity|]. by vm_compute.
  - vm_compute. discriminate.
Defined.

(** The reader counts a line that ends in CR LF without its CR: it takes a
    stream of more bytes than it may. *)
Definition crlf_stream : string := String.concat "" (replicate 20 (eol EndCRLF)) +:+ send_event (mkSseEvent [(DataLine true "answer", EndCRLF)] EndCRLF).
Example crlf_not_counted :
  readSSEResponse demo_envs crlf_stream None 40 = inl "answer" /\ 40 < len crlf_stream.
Proof. split; vm_compute; reflexivity. Qed.

Lemma answer_bounded_and_final_witness :
  exists e, (doDaemonPost demo_envs (inl (mkWire 200 "text/event-stream; charset=utf-8" "sid1" "data: half" (Some (bare "reset")) 10)) true).1 = inr e /\
    isRetriableTransportFailure e = false.
Proof.
  pose proof (answer_bounded_and_final demo_envs (inl (mkWire 200 "text/event-stream; charset=utf-8" "sid1" "data: half" (Some (bare "reset")) 10))) as H.
  eexists. split; [vm_compute; reflexivity|]. apply not_true_is_false. intros Hr.
  assert (Hend : forall w e, inl (mkWire 200 "text/event-stream; charset=utf-8" "sid1" "data: half" (Some (bare "reset")) 10) = @inl wire post_error w ->
    w_end w = Some e -> pe_dial e = false /\ pe_refused e = false) by (intros w e [= <-] [= <-]; split; reflexivity).
  discriminate (H Hend Hr).
Defined.

Lemma pages_drained_exactly_witness :
  (postToolsList demo_envs demo_pages demo_ref1 "sid1" "v").1 = Ok ["read"; "write"; "purge"] /\
  NoDup (postToolsList demo_envs demo_pages demo_ref1 "sid1" "v").2.
Proof.
  split; [vm_compute; reflexivity|].
  assert (Hc : forall page request w, demo_pages page request = inl w -> 0 <= w_read w).
  { intros page [? ? ? []] w; simpl; try discriminate. destruct cursor; intros [= <-]; simpl; discriminate. }
  pose proof (pages_drained_exactly demo_envs demo_pages demo_ref1 "sid1" "v" Hc) as H.
  destruct (postToolsList demo_envs demo_pages demo_ref1 "sid1" "v") as [r reqs]. apply H.
Defined.

(** Two daemons with the same tools: nothing is routed, and each has a row. *)
Definition demo_post (d : canonicalDaemonRef) : Z -> daemonRequest -> wire + post_error :=
  if cr_Server d =s "memory" then demo_pages else fun _ _ => inr (bare "refused").
Lemma published_routes_exact_witness :
  let out := AggregateToolsList demo_group "iid" None None (fun _ => None) (fun _ => None) (fanOutToolsList demo_envs demo_json_list demo_post) in
  out.1 = Some ∅ /\ exists row, row ∈ failures_of out /\ df_Server row = "memory" /\ df_Daemon row = "b".
Proof.
  assert (Hr : (AggregateToolsList demo_group "iid" None None (fun _ => None) (fun _ => None)
    (fanOutToolsList demo_envs demo_json_list demo_post)).1 = Some ∅) by (vm_compute; reflexivity).
  split; [exact Hr|].
  destruct (published_routes_exact demo_envs demo_json_list demo_post demo_group "iid" None None (fun _ => None) (fun _ => None) ∅ Hr)
    as (_ & _ & H).
  apply (H demo_ref2 (mkNamespaced "memory__purge" "memory__purge" (mkToolRef "memory" "b" 9102 "purge"))); [|reflexivity].
  split; [|reflexivity]. exists (mkInitState "sid2" "2025-06-18"), ["read"; "write"; "purge"], "purge".
  split; [vm_compute; reflexivity|]. split; [vm_compute; reflexivity|]. split; [do 2 right; left|vm_compute; reflexivity].
Defined.
