(* ===== verification/Loopback.v ===== *)
(** * Loopback: which HTTP requests come from this machine.

    [daemon/loopback_guard.go], of which [api/hub_mcp_handler.go] has a copy:
    a request is served only if its host, its origin and its fetch metadata
    name the loopback interface.  The parsers of URLs and of IP addresses are
    parameters; [net.SplitHostPort] is written out. *)
From S2P Require Import Prelude GoTime StateMachine Intent Descriptor RequestId Lines.
Open Scope Z_scope.

(** [strings.ContainsAny(s, chars)] *)
Fixpoint contains_any (chars : list ascii) (s : string) : bool :=
  match s with EmptyString => false | String a s' => existsb (Ascii.eqb a) chars || contains_any chars s' end.
(** [strings.TrimSuffix] of one byte *)
Fixpoint trim_suffix (a : ascii) (s : string) : string :=
  match s with
  | EmptyString => EmptyString
  | String b EmptyString => if Ascii.eqb b a then EmptyString else s
  | String b s' => String b (trim_suffix a s')
  end.
Fixpoint count_byte (a : ascii) (s : string) : nat :=
  match s with EmptyString => 0 | String b s' => (if Ascii.eqb b a then 1 else 0) + count_byte a s' end.
(** What is before and after the last byte of a kind. *)
Fixpoint cut_last (a : ascii) (s : string) : option (string * string) :=
  match s with
  | EmptyString => None
  | String b s' =>
      match cut_last a s' with
      | Some (before, after) => Some (String b before, after)
      | None => if Ascii.eqb b a then Some ("", s') else None
      end
  end.
(** [net.SplitHostPort] *)
Definition SplitHostPort (hostport : string) : option (string * string) :=
  match cut_last ":" hostport with
  | None => None
  | Some (before, port) =>
      match hostport with
      | String "[" rest =>
          let '(host, after) := cut (Ascii.eqb "]") rest in
          match after with
          | Some (String ":" port') =>
              if lacks ":" port' && lacks "[" host && lacks "[" port' && lacks "]" port' then Some (host, port') else None
          | _ => None
          end
      | _ => if lacks ":" before && lacks "[" hostport && lacks "]" hostport then Some (before, port) else None
      end
  end.
Definition validHostPort (port : string) : bool :=
  match Atoi port with Some n => (0 <=? n) && (n <=? 65535) | None => false end.
Definition splitHostForLoopbackCheck (hostport : string) : option string :=
  let hostport := trim_space hostport in
  let ported := match SplitHostPort hostport with
                | Some (host, port) => if validHostPort port then Some host else None
                | None => None
                end in
  if (hostport =s "") || contains_any ["/"; "@"]%char hostport then None
  else if has_prefix "[" hostport then
    if str_contains hostport "]:" then ported
    else if has_suffix "]" hostport then Some (trim_prefix "[" (trim_suffix "]" hostport))
    else None
  else if Nat.eqb (count_byte ":" hostport) 1 then ported
  else Some hostport.

Record URL := mkURL { u_Scheme : string; u_User : bool; u_RawQuery : string; u_Fragment : string; u_Path : string; u_Host : string }.
(** What a request says of where it comes from. *)
Record provenance := mkProvenance { pv_Host : string; pv_Origin : string; pv_FetchSite : string }.
(** The parsers of the standard library: a URL, and whether a text is an
    address and a loopback one. *)
Record net_lib := mkNetLib { nl_url : string -> res URL; nl_loopback : string -> bool }.

Section Loopback.
Context (N : net_lib).
Definition isLoopbackHost (hostport : string) : bool :=
  match splitHostForLoopbackCheck hostport with
  | None => false
  | Some host =>
      let host := to_lower (trim_suffix "." host) in
      (host =s "localhost") || nl_loopback N host
  end.
Definition isLoopbackOrigin (origin : string) : bool :=
  match nl_url N (trim_space origin) with
  | Err _ => false
  | Ok u =>
      if negb (u_Scheme u =s "http") && negb (u_Scheme u =s "https") then false
      else if u_User u || negb (u_RawQuery u =s "") || negb (u_Fragment u =s "") then false
      else if negb (u_Path u =s "") && negb (u_Path u =s "/") then false
      else isLoopbackHost (u_Host u)
  end.
Definition isSafeFetchSite (value : string) : bool :=
  let v := to_lower (trim_space value) in
  (v =s "") || (v =s "none") || (v =s "same-origin") || (v =s "same-site").
Definition isSafeLoopbackRequest (p : provenance) : bool :=
  if negb (isLoopbackHost (pv_Host p)) then false
  else if negb (pv_Origin p =s "") && negb (isLoopbackOrigin (pv_Origin p)) then false
  else isSafeFetchSite (pv_FetchSite p).

(** The name or address that is left of a host is a loopback one, whatever
    stands around it. *)
Definition names_loopback (hostport : string) : Prop :=
  exists host, splitHostForLoopbackCheck hostport = Some host /\
    (to_lower (trim_suffix "." host) = "localhost" \/ nl_loopback N (to_lower (trim_suffix "." host)) = true).
Lemma loopback_host_iff hostport : isLoopbackHost hostport = true <-> names_loopback hostport.
Proof.
  unfold isLoopbackHost, names_loopback. destruct (splitHostForLoopbackCheck hostport) as [host|].
  - rewrite orb_true_iff, String.eqb_eq. split; [intros H; by exists host|by intros (h & [= <-] & H)].
  - split; [done|]. by intros (h & [=] & _).
Qed.
Lemma safe_request_local p :
  isSafeLoopbackRequest p = true ->
  names_loopback (pv_Host p) /\
  (pv_Origin p = "" \/ exists u, nl_url N (trim_space (pv_Origin p)) = Ok u /\ names_loopback (u_Host u)).
Proof.
  unfold isSafeLoopbackRequest. destruct (isLoopbackHost (pv_Host p)) eqn:Eh; cbn [negb]; [|done]. apply loopback_host_iff in Eh.
  destruct (pv_Origin p =s "") eqn:Eo; cbn [negb andb]; [intros _; breflect; by split; [|left]|].
  destruct (isLoopbackOrigin (pv_Origin p)) eqn:El; cbn [negb]; [|done]. intros _. split; [done|]. right.
  unfold isLoopbackOrigin in El. destruct (nl_url N _) as [u|]; [|done]. exists u. split; [done|].
  apply loopback_host_iff. by repeat case_match.
Qed.
End Loopback.

(** A library for witnesses, which knows plain addresses of one form. *)
Definition demo_net : net_lib :=
  mkNetLib (fun _ => Err (errors_New "no URL")) (fun a => has_prefix "127.0.0." a || (a =s "::1")).
Example loopback_hosts :
  (fun h => isLoopbackHost demo_net h) <$>
    ["127.0.0.1:9125"; "localhost"; "LOCALHOST.:80"; "[::1]:9125"; "[::1]"; "::1"; "127.0.0.1:99999"; "evil.example:80";
     "localhost@evil.example"; "[::1]:80:80"; ""] =
  [true; true; true; true; true; true; false; false; false; false; false].
Proof. vm_compute. reflexivity. Qed.
