(* ===== verification/HubHandler.v ===== *)
(** * HubHandler: the front door of the hub.

    [api/hub_mcp_handler.go]: every request for [/clients/<client>/mcp] and
    [/g/<group>/mcp] passes seven gates before it reaches the sessions and
    the aggregator.  A request is a program over its looks at the hub's
    state and over the operations it reaches; requests interleave with each
    other, with publications and rotations of tokens, and with sweeps. *)
From S2P Require Import Prelude GoTime StateMachine Intent Descriptor Trace RequestId Resolver HubTokens Sessions ToolCalls Lines DaemonHttp Loopback.
From ITree Require Import ITree.
Open Scope Z_scope.

(** ** Names *)
Definition hubSupportedVersions : list string := ["2025-11-25"; "2025-06-18"; "2025-03-26"].
Definition supported (v : string) : bool := bool_decide (v ∈ hubSupportedVersions).
Definition SupportedClientNames : list string :=
  ["claude-code"; "codex-cli"; "cursor"; "vscode"; "gemini-cli"; "qwen-cli"; "antigravity"; "zed"; "kiro"; "windsurf"; "cline";
   "kilocode"; "opencode"; "mimocode"; "hermes"; "openclaw"; "copilot-cli"; "amazon-q"; "openhands"; "aider"; "bob"; "codebuddy";
   "command-code"; "cortex"; "deepagents"; "devin"; "droid"; "firebender"; "iflow-cli"; "junie"; "kimi-code-cli"; "kode"; "ona"; "pi";
   "qoder"; "qoder-cn"; "roo"; "rovodev"; "tabnine-cli"; "warp"; "continue"; "goose"; "neovate"; "crush"; "pochi"; "amp"; "zencoder"].
Definition isSupportedClient (name : string) : bool := existsb (fun n => n =s name) SupportedClientNames.

Inductive hubScopeKind := kindClient | kindGroup.
Definition HubClientPrefix : string := "/clients/".
Definition HubGroupPrefix : string := "/g/".
Definition HubPathSuffix : string := "/mcp".
Definition path_breaks : list ascii := ["/"; " "; "009"; "013"; "010"]%char.
Definition parseHubSegment (p prefix : string) : option string :=
  if negb (has_prefix prefix p) then None
  else
    let rest := trim_prefix prefix p in
    if negb (has_suffix HubPathSuffix rest) then None
    else
      let name := String.substring 0 (String.length rest - String.length HubPathSuffix) rest in
      if (name =s "") || contains_any path_breaks name then None else Some name.
Definition parseHubPathFromURL (p : string) : option (hubScopeKind * string) :=
  match parseHubSegment p HubClientPrefix with
  | Some name => Some (kindClient, name)
  | None => match parseHubSegment p HubGroupPrefix with Some name => Some (kindGroup, name) | None => None end
  end.
Definition scope_key (kind : hubScopeKind) (name : string) : string :=
  match kind with kindClient => name | kindGroup => GroupScopeKey name end.

(** ** Requests and responses *)
Inductive hub_body := HubBody (s : string) | HubBodyFailed (e : string).
Record hub_request := mkHubRequest {
  hr_Method : string; hr_Path : string; hr_from : provenance; hr_token : string; hr_instance : string; hr_sid : string;
  hr_version : string; hr_body : hub_body;
}.
(** An absent id is empty, an absent text too. *)
Record envelope := mkEnvelope { en_JSONRPC : string; en_ID : string; en_Method : string; en_Params : string }.
Inductive decoded := EnvSyntax (e : string) | EnvInvalid (e : string) | EnvOk (env : envelope).
(** The JSON library: the envelope, ids, and the two fields that are read of
    parameters. *)
Record handler_json := mkHandlerJson {
  hj_envelope : string -> decoded;
  hj_reader : json_reader;
  hj_version : string -> res string;
  hj_requestID : string -> res string;
}.
Inductive hub_response :=
| Empty (status : Z)
| NotAllowed
| RetryAfter
| Plain (status : Z) (text : string)
| VersionRefused (requested : string)
| RpcError (status : Z) (id : string) (code : Z) (message : string)
| RpcResult (id : string)
| Raw (body : string) (sid : option string).
Definition rpc_error (status : Z) (id : string) (code : Z) (message : string) : hub_response :=
  RpcError status (if id =s "" then "null" else id) code message.

(** ** Steps

    What a lookup shows of a session: where it is, and the two fields that
    are never written again. *)
Record session_ref := mkSessionRef { sr_loc : nat; sr_ScopeKey : string; sr_ProtocolVersion : string }.
Inductive gateE : Type -> Type :=
| CurrentSnapshot : gateE (option ResolverSnapshot)
| CompareToken (scopeKey token : string) : gateE bool
| CurrentInstanceID : gateE string
| GetSession (sid : string) : gateE (option session_ref)
| TouchSession (sid : string) : gateE bool
| CreateSession (scopeKey proto : string) (snap : option ResolverSnapshot) : gateE (res (string * nat))
| SetInstanceID (loc : nat) (id : string) : gateE unit
| SetParticipants (loc : nat) (refs : list canonicalDaemonRef) : gateE unit
| InitializeDaemons (loc : nat) (reqID : string) : gateE (res string)
| ListTools (loc : nat) (reqID instanceID : string) : gateE (res string)
| CallTool (loc : nat) (reqID params : string) : gateE (res string)
| CancelCall (loc : nat) (requestID : string) : gateE unit
| SnapshotForDelete (loc : nat) : gateE (gmap canonicalDaemonRef daemonInitState)
| DeleteSession (sid : string) : gateE unit
| DeleteDaemonSession (ref : canonicalDaemonRef) (sid proto : string) : gateE unit.
Notation prog := (itree gateE hub_response).

Section Handler.
Context (J : handler_json) (N : net_lib).

(** Gate 2 *)
Definition resolveHubScopeKey (kind : hubScopeKind) (name : string) : itree gateE (option string) :=
  match kind with
  | kindGroup =>
      match validateGroupName name with
      | Some _ => Ret None
      | None => call! snap := CurrentSnapshot in Ret (if isKnownGroup snap name then Some (GroupScopeKey name) else None)
      end
  | kindClient => Ret (if isSupportedClient name then Some name else None)
  end.
(** Gates 3 to 5 *)
Definition checkTokenAndInstanceID (r : hub_request) (scopeKey : string) : itree gateE bool :=
  if negb (isLowerHex64 (hr_token r)) then Ret false
  else
    call! same := CompareToken scopeKey (hr_token r) in
    if negb same then Ret false
    else
      call! wantID := CurrentInstanceID in
      Ret (negb ((hr_instance r =s "") || (wantID =s "") || negb (hr_instance r =s wantID))).

Definition unknown_session (env : envelope) : hub_response :=
  if en_ID env =s "" then Empty 202 else rpc_error 404 (en_ID env) (-32600) "unknown session".
Definition notification_id : string := "invalid request: notifications/* must not include id".
Definition answer_result (env : envelope) (result : res string) : hub_response :=
  match result with
  | Err e => rpc_error 500 (en_ID env) (-32603) ("internal error: " +:+ err_text e)
  | Ok body => Raw body None
  end.
Definition dispatchMethod (ref : session_ref) (env : envelope) : prog :=
  let notification := en_ID env =s "" in
  if en_Method env =s "notifications/initialized" then
    Ret (if negb notification then rpc_error 400 (en_ID env) (-32600) notification_id else Empty 202)
  else if en_Method env =s "notifications/cancelled" then
    if negb notification then Ret (rpc_error 400 (en_ID env) (-32600) notification_id)
    else match hj_requestID J (en_Params env) with
         | Err _ => Ret (Empty 202)
         | Ok id => do! CancelCall (sr_loc ref) id in Ret (Empty 202)
         end
  else if en_Method env =s "ping" then Ret (if notification then Empty 202 else RpcResult (en_ID env))
  else if en_Method env =s "tools/list" then
    if notification then Ret (Empty 202)
    else
      call! instanceID := CurrentInstanceID in
      call! result := ListTools (sr_loc ref) (en_ID env) instanceID in
      Ret (answer_result env result)
  else if en_Method env =s "tools/call" then
    if notification then Ret (Empty 202)
    else call! result := CallTool (sr_loc ref) (en_ID env) (en_Params env) in Ret (answer_result env result)
  else Ret (if notification then Empty 202 else rpc_error 200 (en_ID env) (-32601) ("Method not found: " +:+ en_Method env)).

(** Gates 6 and 7 of a POST *)
Definition session_post (r : hub_request) (scopeKey : string) (env : envelope) : prog :=
  if hr_sid r =s "" then Ret (Empty 400)
  else
    call! found := GetSession (hr_sid r) in
    match found with
    | None => Ret (unknown_session env)
    | Some ref =>
        if negb (sr_ScopeKey ref =s scopeKey) then Ret (Empty 401)
        else if hr_version r =s "" then Ret (Empty 400)
        else if negb (supported (hr_version r)) || negb (hr_version r =s sr_ProtocolVersion ref)
        then Ret (if en_ID env =s "" then Empty 202 else rpc_error 400 (en_ID env) (-32600) "protocol-version mismatch")
        else
          call! touched := TouchSession (hr_sid r) in
          if negb touched then Ret (unknown_session env) else dispatchMethod ref env
    end.

Definition initialize_version (params : string) : res string :=
  if (params =s "") || (params =s "null") then Ok "" else hj_version J params.
Definition handleInitialize (r : hub_request) (scopeKey : string) (env : envelope) : prog :=
  let id := en_ID env in
  if negb (hr_sid r =s "") then Ret (rpc_error 400 id (-32600) "session-id only valid after initialize")
  else match initialize_version (en_Params env) with
  | Err e => Ret (rpc_error 400 id (-32602) ("invalid initialize params: " +:+ err_text e))
  | Ok version =>
      if version =s "" then Ret (rpc_error 400 id (-32602) "invalid initialize params: protocolVersion required")
      else if negb (supported version) then Ret (rpc_error 200 id (-32600) "unsupported protocolVersion")
      else
        call! snap := CurrentSnapshot in
        call! created := CreateSession scopeKey version snap in
        match created with
        | Err e => Ret (if errors_Is e ErrSessionCapExceeded then RetryAfter
                        else rpc_error 500 id (-32603) ("internal error: " +:+ err_text e))
        | Ok (sid, loc) =>
            do! SetInstanceID loc (hr_instance r) in
            ITree.bind (match snap with
                        | Some s => do! SetParticipants loc (bindings s scopeKey) in Ret tt
                        | None => Ret tt
                        end) (fun _ =>
              call! result := InitializeDaemons loc id in
              match result with
              | Err e => do! DeleteSession sid in Ret (rpc_error 500 id (-32603) ("initialize fan-out: " +:+ err_text e))
              | Ok body => Ret (Raw body (Some sid))
              end)
        end
  end.

Definition handlePost (r : hub_request) (scopeKey : string) : prog :=
  match hr_body r with
  | HubBodyFailed e => Ret (rpc_error 400 "null" (-32700) ("parse error: " +:+ e))
  | HubBody body =>
      if maxAggregatorResponseBytes <? len body then Ret (rpc_error 400 "null" (-32700) "request too large")
      else match hj_envelope J body with
      | EnvSyntax e => Ret (rpc_error 400 "null" (-32700) ("parse error: " +:+ e))
      | EnvInvalid e => Ret (rpc_error 400 "null" (-32600) ("invalid request: " +:+ e))
      | EnvOk env =>
          match (if en_ID env =s "" then None
                 else match newRequestIDKey (hj_reader J) (en_ID env) with Err e => Some e | Ok _ => None end) with
          | Some e => Ret (rpc_error 400 "null" (-32600) (err_text e))
          | None =>
              if negb (en_JSONRPC env =s "2.0") then Ret (rpc_error 400 (en_ID env) (-32600) "invalid request: jsonrpc must be 2.0")
              else if en_Method env =s "" then Ret (rpc_error 400 (en_ID env) (-32600) "invalid request: method field required")
              else if en_Method env =s "initialize" then
                if en_ID env =s "" then Ret (rpc_error 400 "null" (-32600) "invalid request: initialize requires a non-null id")
                else handleInitialize r scopeKey env
              else session_post r scopeKey env
          end
      end
  end.

Definition daemon_deletes (m : gmap canonicalDaemonRef daemonInitState) : list (gateE unit) :=
  (fun row => DeleteDaemonSession row.1 (is_SessionID row.2) (is_ProtocolVersion row.2)) <$> map_to_list m.
Definition handleDelete (r : hub_request) (scopeKey : string) : prog :=
  if hr_sid r =s "" then Ret (Empty 400)
  else
    call! found := GetSession (hr_sid r) in
    match found with
    | None => Ret (Empty 404)
    | Some ref =>
        if negb (sr_ScopeKey ref =s scopeKey) then Ret (Empty 401)
        else if hr_version r =s "" then Ret (Empty 400)
        else if negb (supported (hr_version r)) || negb (hr_version r =s sr_ProtocolVersion ref)
        then Ret (rpc_error 400 "null" (-32600) "protocol-version mismatch")
        else
          call! daemons := SnapshotForDelete (sr_loc ref) in
          do! DeleteSession (hr_sid r) in
          emit_all (daemon_deletes daemons) (Ret (Empty 204))
    end.

Definition ServeHTTP (r : hub_request) : prog :=
  if negb (isSafeLoopbackRequest N (hr_from r)) then Ret (Plain 403 "forbidden loopback request")
  else match parseHubPathFromURL (hr_Path r) with
  | None => Ret (Empty 404)
  | Some (kind, name) =>
      ITree.bind (resolveHubScopeKey kind name) (fun known =>
        match known with
        | None => Ret (Empty 404)
        | Some scopeKey =>
            ITree.bind (checkTokenAndInstanceID r scopeKey) (fun passed =>
              if negb passed then Ret (Empty 401)
              else if hr_Method r =s "GET" then
                Ret (if negb (hr_version r =s "") && negb (supported (hr_version r)) then VersionRefused (hr_version r) else NotAllowed)
              else if hr_Method r =s "POST" then handlePost r scopeKey
              else if hr_Method r =s "DELETE" then handleDelete r scopeKey
              else Ret NotAllowed)
        end)
  end.
End Handler.

(** ** Paths *)
Lemma has_prefix_spec p s : has_prefix p s = true <-> exists rest, s = p +:+ rest.
Proof.
  revert s. induction p as [|a p IH]; intros s; [split; [by exists s|done]|]. destruct s as [|b s]; cbn [has_prefix].
  - split; [done|]. by intros [rest [=]].
  - rewrite andb_true_iff, Ascii.eqb_eq, IH. split; [intros [-> [rest ->]]; by exists rest|]. intros [rest [= -> ->]]. split; [done|by exists rest].
Qed.
Lemma trim_prefix_app p rest : trim_prefix p (p +:+ rest) = rest.
Proof.
  induction p as [|a p IH]; [by destruct rest|]. change (String a p +:+ rest) with (String a (p +:+ rest)).
  change (trim_prefix _ _) with (if Ascii.eqb a a && has_prefix p (p +:+ rest) then trim_prefix p (p +:+ rest) else String a (p +:+ rest)).
  rewrite Ascii.eqb_refl. assert (has_prefix p (p +:+ rest) = true) as -> by (apply has_prefix_spec; by exists rest). exact IH.
Qed.
Lemma append_inj_len s t u v : s +:+ t = u +:+ v -> String.length s = String.length u -> s = u /\ t = v.
Proof.
  revert u. induction s as [|a s IH]; intros [|b u] E Hl; try discriminate Hl; [done|].
  injection E as -> E. injection Hl as Hl. by destruct (IH u E Hl) as [-> ->].
Qed.
Lemma has_suffix_spec p s : has_suffix p s = true <-> exists before, s = before +:+ p.
Proof.
  induction s as [|a s IH]; cbn [has_suffix]; rewrite orb_true_iff, String.eqb_eq.
  - split; [intros [->|[=]]; by exists ""|]. intros [[|b before] E]; [by left|done].
  - rewrite IH. split.
    + intros [->|[before ->]]; [by exists ""|by exists (String a before)].
    + intros [[|b before] E]; [by left|]. injection E as -> ->. right. by exists before.
Qed.
Lemma substring_app s t : String.substring 0 (String.length s) (s +:+ t) = s.
Proof.
  induction s as [|a s IH]; [by destruct t|]. change (String a s +:+ t) with (String a (s +:+ t)). cbn [String.length String.substring]. by rewrite IH.
Qed.
(** A path is served only in its one spelling. *)
Lemma parse_segment_iff p prefix name :
  parseHubSegment p prefix = Some name <->
  p = prefix +:+ name +:+ HubPathSuffix /\ name <> "" /\ contains_any path_breaks name = false.
Proof.
  unfold parseHubSegment. split.
  - destruct (has_prefix prefix p) eqn:Ep; cbn [negb]; [|done]. apply has_prefix_spec in Ep as [rest ->]. rewrite trim_prefix_app.
    destruct (has_suffix HubPathSuffix rest) eqn:Es; cbn [negb]; [|done]. apply has_suffix_spec in Es as [before ->]. cbv zeta.
    assert (E : String.substring 0 (String.length (before +:+ HubPathSuffix) - String.length HubPathSuffix) (before +:+ HubPathSuffix) = before).
    { rewrite length_app_str, Nat.add_sub. apply substring_app. }
    rewrite E. destruct (before =s "") eqn:Eb; cbn [orb]; [done|]. destruct (contains_any path_breaks before) eqn:Ec; [done|].
    intros [= <-]. breflect. done.
  - intros (-> & Hne & Hc). assert (has_prefix prefix (prefix +:+ name +:+ HubPathSuffix) = true) as -> by (apply has_prefix_spec; by eexists).
    cbn [negb]. rewrite trim_prefix_app.
    assert (has_suffix HubPathSuffix (name +:+ HubPathSuffix) = true) as -> by (apply has_suffix_spec; by exists name). cbn [negb]. cbv zeta.
    rewrite length_app_str, Nat.add_sub, substring_app, Hc. apply String.eqb_neq in Hne. by rewrite Hne.
Qed.
(** Which scope a path is for. *)
Definition path_scope (p scopeKey : string) : Prop :=
  exists kind name, parseHubPathFromURL p = Some (kind, name) /\ scopeKey = scope_key kind name.
Lemma parse_path_iff p kind name :
  parseHubPathFromURL p = Some (kind, name) <->
  p = match kind with kindClient => HubClientPrefix | kindGroup => HubGroupPrefix end +:+ name +:+ HubPathSuffix /\
  name <> "" /\ contains_any path_breaks name = false.
Proof.
  unfold parseHubPathFromURL. destruct (parseHubSegment p HubClientPrefix) as [n|] eqn:Ec.
  - split.
    + intros [= <- <-]. by apply parse_segment_iff.
    + apply parse_segment_iff in Ec as (-> & H1 & H2). intros (E & H3 & H4). destruct kind; [|discriminate E].
      do 2 f_equal. assert (Some n = Some name) as [= ->]; [|done].
      assert (Hn : parseHubSegment (HubClientPrefix +:+ n +:+ HubPathSuffix) HubClientPrefix = Some n) by (by apply parse_segment_iff).
      rewrite <- Hn. by apply parse_segment_iff.
  - destruct (parseHubSegment p HubGroupPrefix) as [n|] eqn:Eg.
    + split.
      * intros [= <- <-]. by apply parse_segment_iff.
      * intros H. destruct kind; apply parse_segment_iff in H; congruence.
    + split; [done|]. intros H. destruct kind; apply parse_segment_iff in H; congruence.
Qed.

(** ** What a request has shown before it reaches anything *)
Notation events := (list (ev gateE)).
Section Gates.
Context (J : handler_json) (N : net_lib) (r : hub_request).

(** Gates 1 to 5, for a scope. *)
Definition admitted (scopeKey : string) (before : events) : Prop :=
  isSafeLoopbackRequest N (hr_from r) = true /\ path_scope (hr_Path r) scopeKey /\ isLowerHex64 (hr_token r) = true /\
  Log (CompareToken scopeKey (hr_token r)) true ∈ before /\ Log CurrentInstanceID (hr_instance r) ∈ before /\ hr_instance r <> "".
(** Gates 6 and 7: the session of the header is of the scope and version. *)
Definition in_session (scopeKey : string) (before : events) (loc : nat) : Prop :=
  Log (GetSession (hr_sid r)) (Some (mkSessionRef loc scopeKey (hr_version r))) ∈ before /\ hr_sid r <> "" /\ supported (hr_version r) = true.
Definition created (scopeKey : string) (before : events) (sid : string) (loc : nat) : Prop :=
  exists proto snap, Log (CreateSession scopeKey proto snap) (Ok (sid, loc)) ∈ before.
Definition justified (before : events) (l : ev gateE) : Prop :=
  match l with
  | Log e _ =>
      match e with
      | CreateSession scopeKey proto _ => admitted scopeKey before /\ supported proto = true
      | SetInstanceID loc _ | SetParticipants loc _ | InitializeDaemons loc _ =>
          exists scopeKey sid, admitted scopeKey before /\ created scopeKey before sid loc
      | ListTools loc _ _ | CallTool loc _ _ | CancelCall loc _ =>
          exists scopeKey, admitted scopeKey before /\ in_session scopeKey before loc /\ Log (TouchSession (hr_sid r)) true ∈ before
      | SnapshotForDelete loc => exists scopeKey, admitted scopeKey before /\ in_session scopeKey before loc
      | DeleteSession sid =>
          exists scopeKey loc, admitted scopeKey before /\ ((sid = hr_sid r /\ in_session scopeKey before loc) \/ created scopeKey before sid loc)
      | TouchSession sid => sid = hr_sid r /\ exists scopeKey loc, admitted scopeKey before /\ in_session scopeKey before loc
      | DeleteDaemonSession ref sid proto =>
          exists scopeKey loc m, admitted scopeKey before /\ in_session scopeKey before loc /\
            Log (SnapshotForDelete loc) m ∈ before /\ m !! ref = Some (mkInitState sid proto)
      | _ => True
      end
  end.
Local Notation guarded' before p := (guarded justified before p).
Lemma seen_here (before : events) l : l ∈ before ++ [l].
Proof. apply elem_of_app. right. left. Qed.
Lemma seen_later (before tr : events) l : l ∈ before -> l ∈ before ++ tr.
Proof. intros H. apply elem_of_app. by left. Qed.
#[local] Hint Resolve seen_here seen_later : core.
Lemma admitted_mono scopeKey before tr : admitted scopeKey before -> admitted scopeKey (before ++ tr).
Proof. intros (? & ? & ? & ? & ? & ?). unfold admitted. split_and!; auto. Qed.
Lemma in_session_mono scopeKey before tr loc : in_session scopeKey before loc -> in_session scopeKey (before ++ tr) loc.
Proof. intros (? & ? & ?). unfold in_session. split_and!; auto. Qed.
Lemma created_mono scopeKey before tr sid loc : created scopeKey before sid loc -> created scopeKey (before ++ tr) sid loc.
Proof. intros (p & s & H). exists p, s. auto. Qed.
#[local] Hint Resolve admitted_mono in_session_mono created_mono : core.

Definition harmless (l : ev gateE) : Prop :=
  match l with Log e _ => match e with CurrentSnapshot | CompareToken _ _ | CurrentInstanceID | GetSession _ => True | _ => False end end.
Lemma harmless_steps {A} before (p : itree gateE A) : only harmless p -> guarded' before p.
Proof. apply guarded_only. intros b [X e x] H. by destruct e. Qed.
Lemma scope_harmless kind name : only harmless (resolveHubScopeKey kind name).
Proof. unfold resolveHubScopeKey. walk_only. Qed.
Lemma resolved_scope kind name tr scopeKey : runs (resolveHubScopeKey kind name) tr (Some (Some scopeKey)) -> scopeKey = scope_key kind name.
Proof.
  intros Hk. unfold resolveHubScopeKey in Hk. destruct kind.
  - apply returns_ret in Hk as [_ Hk]. case_match; by simplify_eq.
  - destruct (validateGroupName name); [by apply returns_ret in Hk as [_ [=]]|].
    apply returns_vis in Hk as (snap & tr' & -> & Hk). apply returns_ret in Hk as [_ Hk]. case_match; by simplify_eq.
Qed.
Lemma check_harmless scopeKey : only harmless (checkTokenAndInstanceID r scopeKey).
Proof. unfold checkTokenAndInstanceID. walk_only. Qed.

Lemma dispatch_guarded scopeKey before loc proto env :
  admitted scopeKey before -> in_session scopeKey before loc -> Log (TouchSession (hr_sid r)) true ∈ before ->
  guarded' before (dispatchMethod J (mkSessionRef loc scopeKey proto) env).
Proof.
  intros Ha Hs Ht. unfold dispatchMethod. cbv zeta.
  destruct (_ =s "notifications/initialized"); [apply guarded_ret|].
  destruct (_ =s "notifications/cancelled").
  { destruct (negb _); [apply guarded_ret|]. destruct (hj_requestID J _); [|apply guarded_ret].
    apply guarded_vis; [intros x; by exists scopeKey|intros; apply guarded_ret]. }
  destruct (_ =s "ping"); [apply guarded_ret|].
  destruct (_ =s "tools/list").
  { destruct (_ =s ""); [apply guarded_ret|]. apply guarded_vis; [done|]. intros inst.
    apply guarded_vis; [intros x; exists scopeKey; auto|intros; apply guarded_ret]. }
  destruct (_ =s "tools/call"); [|apply guarded_ret]. destruct (_ =s ""); [apply guarded_ret|].
  apply guarded_vis; [intros x; by exists scopeKey|intros; apply guarded_ret].
Qed.
(** The lookup that gates 6 and 7 make of it. *)
Lemma in_session_here scopeKey before ref :
  hr_sid r <> "" -> sr_ScopeKey ref = scopeKey -> supported (hr_version r) = true -> hr_version r = sr_ProtocolVersion ref ->
  in_session scopeKey (before ++ [Log (GetSession (hr_sid r)) (Some ref)]) (sr_loc ref).
Proof. intros Hne <- Hs Hv. split; [|done]. destruct ref as [loc scope proto]. cbn in *. rewrite Hv. auto. Qed.
Lemma session_post_guarded scopeKey before env : admitted scopeKey before -> guarded' before (session_post J r scopeKey env).
Proof.
  intros Ha. unfold session_post. destruct (hr_sid r =s "") eqn:Es; [apply guarded_ret|]. apply guarded_vis; [done|].
  intros [ref|]; [|apply guarded_ret]. destruct (sr_ScopeKey ref =s scopeKey) eqn:Ek; cbn [negb]; [|apply guarded_ret].
  destruct (hr_version r =s ""); [apply guarded_ret|].
  destruct (supported (hr_version r)) eqn:Ev; cbn [negb orb]; [|apply guarded_ret].
  destruct (hr_version r =s sr_ProtocolVersion ref) eqn:Ep; cbn [negb]; [|apply guarded_ret]. breflect.
  pose proof (in_session_here scopeKey before ref Es Ek Ev Ep) as Hs.
  apply guarded_vis; [intros x; cbn; split; [done|]; eauto|]. intros [|]; cbn [negb]; [|apply guarded_ret].
  destruct ref as [loc scope proto]. cbn in Ek. subst scope. apply dispatch_guarded; auto.
Qed.
Lemma initialize_guarded scopeKey before env : admitted scopeKey before -> guarded' before (handleInitialize J r scopeKey env).
Proof.
  intros Ha. unfold handleInitialize. cbv zeta. destruct (negb _); [apply guarded_ret|].
  destruct (initialize_version _ _) as [v|]; [|apply guarded_ret]. destruct (v =s ""); [apply guarded_ret|].
  destruct (supported v) eqn:Ev; cbn [negb]; [|apply guarded_ret]. apply guarded_vis; [done|]. intros snap.
  apply guarded_vis; [intros x; cbn; auto|]. intros [[sid loc]|e]; [|apply guarded_ret].
  assert (Hc : forall b, created scopeKey ((b ++ [Log (CreateSession scopeKey v snap) (Ok (sid, loc))])) sid loc).
  { intros b. exists v, snap. auto. }
  apply guarded_vis; [intros x; cbn; exists scopeKey, sid; auto|]. intros u. apply guarded_bind.
  - destruct snap; [|apply guarded_ret]. apply guarded_vis; [intros x; cbn; exists scopeKey, sid; auto 6|intros; apply guarded_ret].
  - intros u' tr _. apply guarded_vis; [intros x; cbn; exists scopeKey, sid; auto 6|]. intros [body|e]; [apply guarded_ret|].
    apply guarded_vis; [|intros; apply guarded_ret]. intros x. exists scopeKey, loc. split; [auto 7|]. right. auto 7.
Qed.
Lemma emit_guarded before es (k : prog) :
  (forall e tr, e ∈ es -> justified (before ++ tr) (Log e tt)) -> (forall tr, guarded' (before ++ tr) k) -> guarded' before (emit_all es k).
Proof.
  revert before. induction es as [|e es IH]; intros before He Hk; cbn [emit_all].
  - rewrite <- (app_nil_r before). apply Hk.
  - apply guarded_vis; [intros []; rewrite <- (app_nil_r before); apply He; left|]. intros []. apply IH.
    + intros e' tr Hin. rewrite <- app_assoc. apply He. by right.
    + intros tr. rewrite <- app_assoc. apply Hk.
Qed.
Lemma delete_guarded scopeKey before : admitted scopeKey before -> guarded' before (handleDelete r scopeKey).
Proof.
  intros Ha. unfold handleDelete. destruct (hr_sid r =s "") eqn:Es; [apply guarded_ret|]. apply guarded_vis; [done|].
  intros [ref|]; [|apply guarded_ret]. destruct (sr_ScopeKey ref =s scopeKey) eqn:Ek; cbn [negb]; [|apply guarded_ret].
  destruct (hr_version r =s ""); [apply guarded_ret|].
  destruct (supported (hr_version r)) eqn:Ev; cbn [negb orb]; [|apply guarded_ret].
  destruct (hr_version r =s sr_ProtocolVersion ref) eqn:Ep; cbn [negb]; [|apply guarded_ret]. breflect.
  pose proof (in_session_here scopeKey before ref Es Ek Ev Ep) as Hs.
  apply guarded_vis; [intros x; cbn; eauto|]. intros m.
  apply guarded_vis; [intros x; cbn; exists scopeKey, (sr_loc ref); auto|]. intros u.
  apply emit_guarded; [|intros; apply guarded_ret]. intros e tr ([ref' [sid' proto']] & -> & Hin)%list_elem_of_fmap.
  apply elem_of_map_to_list in Hin. exists scopeKey, (sr_loc ref), m. split_and!; auto.
Qed.
Lemma checked scopeKey before tr :
  isSafeLoopbackRequest N (hr_from r) = true -> path_scope (hr_Path r) scopeKey ->
  runs (checkTokenAndInstanceID r scopeKey) tr (Some true) -> admitted scopeKey (before ++ tr).
Proof.
  intros Hl Hp H. unfold checkTokenAndInstanceID in H. destruct (isLowerHex64 (hr_token r)) eqn:Eh; cbn [negb] in H; [|by apply returns_ret in H as [_ [=]]].
  apply returns_vis in H as ([|] & tr1 & -> & H); cbn [negb] in H; [|by apply returns_ret in H as [_ [=]]].
  apply returns_vis in H as (want & tr2 & -> & H). apply returns_ret in H as [-> H].
  destruct (hr_instance r =s "") eqn:Ei; [done|]. destruct (want =s "") eqn:Ew; [done|]. destruct (hr_instance r =s want) eqn:Eq; [|done]. breflect.
  unfold admitted. split_and!; try done; [set_solver|]. rewrite Eq. set_solver.
Qed.
Lemma serve_guarded : guarded' [] (ServeHTTP J N r).
Proof.
  unfold ServeHTTP. destruct (isSafeLoopbackRequest N (hr_from r)) eqn:El; cbn [negb]; [|apply guarded_ret].
  destruct (parseHubPathFromURL (hr_Path r)) as [[kind name]|] eqn:Ep; [|apply guarded_ret].
  apply guarded_bind; [apply harmless_steps, scope_harmless|]. intros [scopeKey|] tr Hk; [|apply guarded_ret].
  assert (Hp : path_scope (hr_Path r) scopeKey) by (exists kind, name; split; [done|by eapply resolved_scope]).
  apply guarded_bind; [apply harmless_steps, check_harmless|]. intros [|] tr' Hc; cbn [negb]; [|apply guarded_ret].
  apply (checked scopeKey ([] ++ tr)) in Hc; [|done..].
  destruct (_ =s "GET"); [apply guarded_ret|]. destruct (_ =s "POST").
  - unfold handlePost. destruct (hr_body r) as [body|]; [|apply guarded_ret]. destruct (_ <? _); [apply guarded_ret|].
    destruct (hj_envelope J body) as [| |env]; [apply guarded_ret..|]. destruct (if en_ID env =s "" then _ else _); [apply guarded_ret|].
    destruct (negb _); [apply guarded_ret|]. destruct (_ =s ""); [apply guarded_ret|]. destruct (_ =s "initialize").
    + destruct (_ =s ""); [apply guarded_ret|]. by apply initialize_guarded.
    + by apply session_post_guarded.
  - destruct (_ =s "DELETE"); [by apply delete_guarded|apply guarded_ret].
Qed.
End Gates.

(** ** What is answered *)
Section Answers.
Context (J : handler_json) (N : net_lib) (r : hub_request).

(** The answers of gates 1 to 5: one for each of loopback, path and
    credentials, whichever credential it was and whatever was asked. *)
Definition refusal (resp : hub_response) : Prop :=
  resp = Plain 403 "forbidden loopback request" \/ resp = Empty 404 \/ resp = Empty 401.
(** A request that is not admitted to the scope of its path changes
    nothing and looks nothing up but whether it may pass; it is answered 403,
    404 or an empty 401, which tell it nothing of its token, its instance or
    the session it named. *)
Theorem unadmitted_refused tr resp :
  runs (ServeHTTP J N r) tr (Some resp) -> (forall scopeKey, ~ admitted N r scopeKey tr) -> refusal resp /\ Forall harmless tr.
Proof.
  intros H Hno. unfold ServeHTTP in H. destruct (isSafeLoopbackRequest N (hr_from r)) eqn:El; cbn [negb] in H.
  2: { apply returns_ret in H as [-> ->]. split; [by left|done]. }
  destruct (parseHubPathFromURL (hr_Path r)) as [[kind name]|] eqn:Ep; [|apply returns_ret in H as [-> ->]; split; [by right; left|done]].
  apply returns_bind in H as ([scopeKey|] & tr1 & tr2 & -> & Hk & H).
  2: { apply returns_ret in H as [-> ->]. rewrite app_nil_r. split; [by right; left|]. by eapply scope_harmless. }
  apply returns_bind in H as ([|] & tr3 & tr4 & -> & Hc & H); cbn [negb] in H.
  - exfalso. apply (Hno scopeKey). rewrite app_assoc. apply admitted_mono. eapply checked; [done| |exact Hc].
    exists kind, name. split; [done|by eapply resolved_scope].
  - apply returns_ret in H as [-> ->]. rewrite app_nil_r. split; [by right; right|].
    apply Forall_app. split; [by eapply scope_harmless|by eapply check_harmless].
Qed.

(** An answer without a JSON text. *)
Definition silent (resp : hub_response) : Prop := match resp with Empty _ | NotAllowed | RetryAfter => True | _ => False end.
Definition answers_only {A} (P : A -> Prop) (p : itree gateE A) : Prop := forall tr x, runs p tr (Some x) -> P x.
Lemma answers_ret {A} (P : A -> Prop) a : P a -> answers_only P (Ret a).
Proof. intros H tr x [_ ->]%returns_ret. exact H. Qed.
Lemma answers_vis {A X} (P : A -> Prop) (e : gateE X) k : (forall x, answers_only P (k x)) -> answers_only P (Vis e k).
Proof. intros H tr x (y & tr' & _ & Hr)%returns_vis. by eapply H. Qed.
Lemma answers_bind {A B} (P : B -> Prop) (t : itree gateE A) (k : A -> itree gateE B) :
  (forall a, answers_only P (k a)) -> answers_only P (ITree.bind t k).
Proof. intros H tr x (a & tr1 & tr2 & _ & _ & Hr)%returns_bind. by eapply H. Qed.
Ltac walk_answers :=
  repeat lazymatch goal with
  | |- answers_only _ (Ret _) => apply answers_ret
  | |- answers_only _ (Vis _ _) => apply answers_vis; intros ?
  | |- answers_only _ (ITree.bind _ _) => apply answers_bind; intros ?
  | |- answers_only _ (match ?x with _ => _ end) => destruct x
  | |- answers_only _ _ => progress cbv beta iota zeta
  end.
Lemma dispatch_silent ref env : en_ID env = "" -> answers_only silent (dispatchMethod J ref env).
Proof. intros Hid. unfold dispatchMethod. rewrite Hid. cbn [negb String.eqb]. by walk_answers. Qed.
Lemma session_silent scopeKey env : en_ID env = "" -> answers_only silent (session_post J r scopeKey env).
Proof.
  intros Hid. unfold session_post, unknown_session. rewrite Hid. cbn [String.eqb].
  pose proof (fun ref => dispatch_silent ref env Hid) as Hd. walk_answers; try done.
Qed.
(** A notification never gets a JSON text in answer, whatever it says and
    however it fails, past the loopback gate. *)
Theorem notifications_silent body env tr resp :
  runs (ServeHTTP J N r) tr (Some resp) -> hr_Method r = "POST" -> hr_body r = HubBody body -> len body <= maxAggregatorResponseBytes ->
  hj_envelope J body = EnvOk env -> en_ID env = "" -> en_JSONRPC env = "2.0" -> en_Method env <> "" -> en_Method env <> "initialize" ->
  silent resp \/ resp = Plain 403 "forbidden loopback request".
Proof.
  intros H Hm Hb Hlen He Hid Hj Hne Hni. unfold ServeHTTP in H.
  destruct (negb _); [apply returns_ret in H as [_ ->]; by right|]. left. revert H.
  destruct (parseHubPathFromURL (hr_Path r)) as [[kind name]|]; [|by intros [_ ->]%returns_ret]. revert tr resp.
  apply answers_bind. intros [scopeKey|]; [|by apply answers_ret]. apply answers_bind. intros [|]; cbn [negb]; [|by apply answers_ret].
  rewrite Hm. cbn. unfold handlePost. rewrite Hb, He.
  assert (maxAggregatorResponseBytes <? len body = false) as -> by (apply Z.ltb_ge; lia).
  rewrite Hj. apply String.eqb_neq in Hne, Hni. rewrite Hne, Hni, Hid. cbn. by apply session_silent.
Qed.

Lemma post_answers scopeKey : answers_only (fun resp => resp <> Empty 204) (handlePost J r scopeKey).
Proof.
  unfold handlePost, handleInitialize, session_post, dispatchMethod, unknown_session, answer_result, rpc_error.
  walk_answers; by repeat case_match.
Qed.
(** A DELETE is answered with 204 only when the session has been marked,
    has then been taken out of the store, and every daemon session that it
    held has been asked to end, each once, with the version it spoke. *)
Theorem delete_complete tr :
  runs (ServeHTTP J N r) tr (Some (Empty 204)) ->
  exists before loc m,
    tr = before ++ [Log (SnapshotForDelete loc) m; Log (DeleteSession (hr_sid r)) tt] ++ ((fun e => Log e tt) <$> daemon_deletes m) /\
    hr_Method r = "DELETE".
Proof.
  intros H. unfold ServeHTTP in H. destruct (negb _); [by apply returns_ret in H as [_ [=]]|].
  destruct (parseHubPathFromURL (hr_Path r)) as [[kind name]|]; [|by apply returns_ret in H as [_ [=]]].
  apply returns_bind in H as ([scopeKey|] & tr1 & tr2 & -> & _ & H); [|by apply returns_ret in H as [_ [=]]].
  apply returns_bind in H as ([|] & tr3 & tr4 & -> & _ & H); cbn [negb] in H; [|by apply returns_ret in H as [_ [=]]].
  destruct (_ =s "GET"); [apply returns_ret in H as [_ H]; by case_match|].
  destruct (_ =s "POST"); [by apply post_answers in H|].
  destruct (_ =s "DELETE") eqn:Em; [|by apply returns_ret in H as [_ [=]]]. breflect.
  unfold handleDelete, rpc_error in H. destruct (_ =s ""); [by apply returns_ret in H as [_ [=]]|].
  apply returns_vis in H as (ref & tr5 & -> & H). destruct ref as [ref|]; [|by apply returns_ret in H as [_ [=]]].
  destruct (negb _); [by apply returns_ret in H as [_ [=]]|]. destruct (_ =s ""); [by apply returns_ret in H as [_ [=]]|].
  destruct (_ || _); [by apply returns_ret in H as [_ [=]]|].
  apply returns_vis in H as (m & tr6 & -> & H). apply returns_vis in H as ([] & tr7 & -> & H).
  apply emit_all_log in H as (tr8 & -> & [-> _]%returns_ret).
  exists (tr1 ++ tr3 ++ [Log (GetSession (hr_sid r)) (Some ref)]), (sr_loc ref), m. split; [|done].
  rewrite app_nil_r, <- !app_assoc. done.
Qed.
End Answers.

(** ** The hub while requests come and go *)
#[export] Instance set_hs_InstanceID : Setter hs_InstanceID := ltac:(derive_setter session_eta hs_InstanceID).
#[export] Instance set_hs_IntendedParticipants : Setter hs_IntendedParticipants := ltac:(derive_setter session_eta hs_IntendedParticipants).
Record hub_world := mkHubWorld { hw_tokens : hub; hw_store : HubSessionStore; hw_endpoint : string; hw_now : time }.

(** What the store's operations other than a creation do. *)
Record shrinks (st st' : HubSessionStore) : Prop := mkShrinks {
  sh_next : st_next st' = st_next st;
  sh_heap : forall loc s', st_heap st' !! loc = Some s' -> exists s, st_heap st !! loc = Some s /\ same_identity s s';
  sh_back : forall loc s, st_heap st !! loc = Some s -> is_Some (st_heap st' !! loc);
  sh_sessions : st_sessions st' ⊆ st_sessions st;
}.
#[export] Instance shrinks_preorder : PreOrder shrinks.
Proof.
  split; [intros st; split; [done|intros loc s ?; by exists s|by eauto|done]|]. intros a b c [H1 H2 H3 H4] [H5 H6 H7 H8]. split; [congruence| | |by etrans].
  - intros loc s (s' & Hs' & ?)%H6. apply H2 in Hs' as (s'' & ? & ?). exists s''. split; [done|by etrans].
  - intros loc s [s' Hs']%H3. by eapply H7.
Qed.
Lemma shrinks_alter f loc st : (forall s, same_identity s (f s)) -> shrinks st (st <| st_heap ::= alter f loc |>).
Proof.
  intros Hf. split; cbn; try done.
  - intros loc' s'. destruct (decide (loc = loc')) as [->|Hne].
    + rewrite lookup_alter_eq. intros (s & Hs & ->)%fmap_Some. exists s. split; [done|apply Hf].
    + rewrite lookup_alter_ne by done. intros Hs. by exists s'.
  - intros loc' s Hs. destruct (decide (loc = loc')) as [->|Hne]; [rewrite lookup_alter_eq, Hs|rewrite lookup_alter_ne, Hs by done]; by eexists.
Qed.
Lemma shrinks_meanwhile l st : shrinks st (meanwhile l st).
Proof.
  revert st. induction l as [|[loc a] l IH]; intros st; [done|]. change (meanwhile ((loc, a) :: l) st) with (meanwhile l (st <| st_heap ::= alter (act_on a) loc |>)).
  etrans; [|apply IH]. apply shrinks_alter. apply act_identity.
Qed.
Lemma shrinks_lists st st' : st_next st' = st_next st -> st_heap st' = st_heap st -> st_sessions st' = st_sessions st -> shrinks st st'.
Proof. intros H1 H2 H3. split; rewrite ?H1, ?H2, ?H3; [done|intros loc s ?; by exists s|by eauto|done]. Qed.
Lemma shrinks_touch id now st : shrinks st (Touch id now st).1.
Proof.
  unfold Touch. destruct (st_sessions st !! id) as [loc|]; [|done]. cbn.
  etrans; [apply (shrinks_alter (fun s => s <| hs_LastUsedAt := now |>) loc); done|]. apply shrinks_lists; by destruct (_ !! id).
Qed.
Lemma shrinks_deleteLocked id st : shrinks st (deleteLocked id st).1.
Proof.
  unfold deleteLocked. destruct (st_sessions st !! id) as [loc|]; [|done]. cbn.
  etrans; [apply (shrinks_alter markDeleteStarted loc); done|].
  set (st1 := st <| st_heap ::= alter markDeleteStarted loc |>).
  split; [by destruct (_ !! id)| | |].
  - intros loc' s' H. exists s'. split; [|done]. destruct (st_lruIndex _ !! id); exact H.
  - intros loc' s H. destruct (st_lruIndex _ !! id); cbn; by exists s.
  - destruct (st_lruIndex _ !! id); cbn; apply delete_subseteq.
Qed.
Lemma shrinks_evict elems races st : shrinks st (evict_from elems races st).1.
Proof.
  revert races st. induction elems as [|[el id] elems IH]; intros races st; [done|]. cbn [evict_from].
  destruct (st_sessions st !! id) as [loc|]; [|apply IH]. cbv zeta. etrans; [apply (shrinks_meanwhile (default [] (head races)))|].
  destruct (negb _); [apply shrinks_deleteLocked|apply IH].
Qed.
Lemma shrinks_scan cutoff rows races st : shrinks st (sweep_scan cutoff rows races st).1.
Proof.
  revert races st. induction rows as [|[id loc] rows IH]; intros races st; [done|]. cbn [sweep_scan]. cbv zeta.
  etrans; [apply (shrinks_meanwhile (default [] (head races)))|]. set (st1 := meanwhile _ st).
  specialize (IH (tail races) st1). destruct (sweep_scan cutoff rows (tail races) st1) as [st' c].
  destruct (st_heap st1 !! loc); [|exact IH]. destruct (negb _); [exact IH|]. by destruct (Before _ _).
Qed.
Lemma shrinks_sweep_delete cands races st : shrinks st (sweep_delete cands races st).
Proof.
  revert races st. induction cands as [|[id loc] cands IH]; intros races st; [done|]. cbn [sweep_delete]. cbv zeta.
  etrans; [apply (shrinks_meanwhile (default [] (head races)))|]. etrans; [|apply IH]. destruct (negb _); [apply shrinks_deleteLocked|done].
Qed.
Lemma shrinks_sweep now races1 races2 st : shrinks st (sweepOnce now races1 races2 st).
Proof.
  unfold sweepOnce. cbv zeta. pose proof (shrinks_scan (now - so_IdleTimeout (st_opts st)) (map_to_list (st_sessions st)) races1 st) as H.
  destruct (sweep_scan _ _ _ _) as [st' cands]. etrans; [exact H|]. apply shrinks_sweep_delete.
Qed.
Lemma shrinks_mark port races st : shrinks st (MarkPortStale port races st).1.
Proof.
  unfold MarkPortStale. generalize (map_to_list (st_sessions st)).*2 as locs. intros locs. revert races st.
  induction locs as [|loc locs IH]; intros races st; [done|]. cbn [mark_all]. cbv zeta. etrans; [apply (shrinks_meanwhile (default [] (head races)))|].
  set (st1 := meanwhile _ st). destruct (st_heap st1 !! loc) as [s|] eqn:Es; [|apply IH].
  destruct (markStalePort port s) as [s' ok] eqn:Em. specialize (IH (tail races) (st1 <| st_heap ::= insert loc s' |>)).
  destruct (mark_all _ _ _ _) as [st2 n]. cbn. etrans; [|exact IH].
  assert (same_identity s s') as Hs by (pose proof (act_identity (ActMarkStale port) s) as H; cbn in H; by rewrite Em in H).
  split; cbn; try done.
  - intros loc' s1 [[<- <-]|[_ H]]%lookup_insert_Some; [by exists s|by exists s1].
  - intros loc' s1 H. destruct (decide (loc' = loc)) as [->|Hne]; [rewrite lookup_insert_eq|rewrite lookup_insert_ne, H by done]; by eexists.
Qed.
Lemma create_spec scope proto snap id now races st st' x :
  Create scope proto snap id now races st = (st', x) ->
  exists st1, shrinks st st1 /\
    ((exists e, x = Err e) /\ st' = st1 \/
     exists sid s, id = Ok sid /\ x = Ok (st_next st) /\ hs_ClientSessionID s = sid /\ hs_ScopeKey s = scope /\ hs_ProtocolVersion s = proto /\
       st_heap st' = <[st_next st := s]> (st_heap st1) /\ st_next st' = S (st_next st) /\ st_sessions st' = <[sid := st_next st]> (st_sessions st1)).
Proof.
  unfold Create. destruct (_ <=? _); [intros [= <- <-]; exists st; split; [done|]; left; eauto|].
  destruct id as [sid|e]; [|intros [= <- <-]; exists st; split; [done|]; left; eauto].
  set (room := if _ : bool then _ else _).
  assert (Hr : shrinks st room.1) by (unfold room; destruct (_ <=? _); [apply shrinks_evict|done]).
  destruct room as [st1 ok]. cbn in Hr. destruct ok; cbn [negb]; intros [= <- <-]; exists st1; (split; [exact Hr|]); [right|left; eauto].
  rewrite <- (sh_next _ _ Hr). exists sid, (mkSession sid scope "" proto snap [] ∅ ∅ ∅ [] None ∅ 0 now now false ∅). by split_and!.
Qed.

(** *** Steps on the hub *)
Notation log := (list (nat * ev gateE)).
Definition with_store (w : hub_world) (st : HubSessionStore) : hub_world := mkHubWorld (hw_tokens w) st (hw_endpoint w) (hw_now w).
Definition on_session (f : hubSession -> hubSession) (loc : nat) (w : hub_world) : hub_world :=
  with_store w (hw_store w <| st_heap ::= alter f loc |>).
Definition lookup_ref (sid : string) (st : HubSessionStore) : option session_ref :=
  loc ← Get sid st; s ← st_heap st !! loc; Some (mkSessionRef loc (hs_ScopeKey s) (hs_ProtocolVersion s)).
(** What other operations make of a session, it stays the session it is. *)
Definition worked (loc : nat) (w w' : hub_world) : Prop := exists f, (forall s, same_identity s (f s)) /\ w' = on_session f loc w.
Definition gate_answers (w : hub_world) (l : ev gateE) (w' : hub_world) : Prop :=
  match l with
  | Log e x =>
      match e in gateE Y return Y -> Prop with
      | CurrentSnapshot => fun x => x = h_resolverSnapshot (hw_tokens w) /\ w' = w
      | CompareToken scopeKey token => fun x => x = ConstantTimeCompareToken (hw_tokens w) scopeKey token /\ w' = w
      | CurrentInstanceID => fun x => x = hw_endpoint w /\ w' = w
      | GetSession sid => fun x => x = lookup_ref sid (hw_store w) /\ w' = w
      | TouchSession sid => fun x => x = (Touch sid (hw_now w) (hw_store w)).2 /\ w' = with_store w (Touch sid (hw_now w) (hw_store w)).1
      | CreateSession scopeKey proto snap => fun x => exists id races,
          let r := Create scopeKey proto snap id (hw_now w) races (hw_store w) in
          x = match r.2, id with Ok loc, Ok sid => Ok (sid, loc) | Err e, _ => Err e | _, Err e => Err e end /\ w' = with_store w r.1
      | SetInstanceID loc id => fun _ => w' = on_session (fun s => s <| hs_InstanceID := id |>) loc w
      | SetParticipants loc refs => fun _ => w' = on_session (fun s => s <| hs_IntendedParticipants := refs |>) loc w
      | InitializeDaemons loc _ => fun _ => exists results, w' = on_session (AggregateInitialize results) loc w
      | ListTools loc _ _ => fun _ => worked loc w w'
      | CallTool loc _ _ => fun _ => worked loc w w'
      | CancelCall loc _ => fun _ => worked loc w w'
      | SnapshotForDelete loc => fun x =>
          x = match st_heap (hw_store w) !! loc with Some s => (markDeleteStartedAndSnapshotDaemonSessions s).2 | None => ∅ end /\
          w' = on_session (fun s => (markDeleteStartedAndSnapshotDaemonSessions s).1) loc w
      | DeleteSession sid => fun _ => w' = with_store w (Sessions.Delete sid (hw_store w)).1
      | DeleteDaemonSession _ _ _ => fun _ => w' = w
      end x
  end.
(** Everything else that goes on in the hub. *)
Inductive hub_moves (w : hub_world) : hub_world -> Prop :=
| moves_tokens op io : hub_moves w (mkHubWorld (run_op op (hw_tokens w <| h_io := io |>)) (hw_store w) (hw_endpoint w) (hw_now w))
| moves_sweep races1 races2 : hub_moves w (with_store w (sweepOnce (hw_now w) races1 races2 (hw_store w)))
| moves_mark port races : hub_moves w (with_store w (MarkPortStale port races (hw_store w)).1)
| moves_calls l : hub_moves w (with_store w (meanwhile l (hw_store w)))
| moves_work loc w' : worked loc w w' -> hub_moves w w'
| moves_endpoint id : hub_moves w (mkHubWorld (hw_tokens w) (hw_store w) id (hw_now w))
| moves_time now : hw_now w <= now -> hub_moves w (mkHubWorld (hw_tokens w) (hw_store w) (hw_endpoint w) now).
(** Random session ids are never drawn twice. *)
Definition drawn_id (past : log) (sid : string) : Prop :=
  exists k scopeKey proto snap loc, (k, Log (CreateSession scopeKey proto snap) (Ok (sid, loc))) ∈ past.
Definition draws_new (past : log) (l : ev gateE) : Prop :=
  forall scopeKey proto snap sid loc, l = Log (CreateSession scopeKey proto snap) (Ok (sid, loc)) -> ~ drawn_id past sid.

Section Runs.
Context (J : handler_json) (N : net_lib) (opts : SessionStoreOpts) (gs : nat -> hub_request).
Inductive gate_run : log -> hub_world -> Prop :=
| hub_start tokens endpoint now : gate_run [] (mkHubWorld tokens (NewHubSessionStore opts) endpoint now)
| hub_step past w i l w' :
    gate_run past w -> (exists o, runs (ServeHTTP J N (gs i)) (own i (past ++ [(i, l)])) o) -> gate_answers w l w' -> draws_new past l ->
    gate_run (past ++ [(i, l)]) w'
| hub_meanwhile past w w' : gate_run past w -> hub_moves w w' -> gate_run past w'.

Lemma hub_met past w i (l : ev gateE) : gate_run past w -> (i, l) ∈ past ->
  exists before w1 w2, before ++ [(i, l)] `prefix_of` past /\ gate_run before w1 /\ gate_answers w1 l w2.
Proof.
  intros H. induction H as [|past w j l' w' Hrun IH _ Ha _|]; try done; [by intros ?%not_elem_of_nil|].
  intros [Hin|E%list_elem_of_singleton]%elem_of_app.
  - destruct (IH Hin) as (b & w1 & w2 & Hp & ?). exists b, w1, w2. split; [|done]. by apply prefix_app_r.
  - injection E as -> ->. by exists past, w, w'.
Qed.
Lemma hub_at before i (l : ev gateE) after w : gate_run (before ++ (i, l) :: after) w ->
  exists w1 w2, gate_run before w1 /\ gate_answers w1 l w2.
Proof.
  intros H. remember (before ++ (i, l) :: after) as past eqn:E. revert after E.
  induction H as [|past w j l' w' Hrun IH _ Ha _|]; intros after E; [by destruct before| |eauto].
  destruct after as [|y after _] using rev_ind.
  - apply app_inj_tail in E as [-> [= -> ->]]. by exists w, w'.
  - rewrite app_comm_cons, app_assoc in E. apply app_inj_tail in E as [-> _]. by eapply IH.
Qed.
Lemma hub_justified past w i before (l : ev gateE) after :
  gate_run past w -> own i past = before ++ l :: after -> justified N (gs i) before l.
Proof.
  intros Hrun. revert before l after. induction Hrun as [|past w j l' w' Hrun IH Hown _ _|]; try done; [by intros []|].
  destruct (decide (j = i)) as [->|Hne]; [|rewrite own_snoc, decide_False, app_nil_r by done; apply IH].
  intros before l after E. destruct Hown as [o Ho]. by apply (serve_guarded J N (gs i) _ _ Ho before l after).
Qed.
Lemma hub_justified_in past w i (l : ev gateE) :
  gate_run past w -> (i, l) ∈ past -> exists before, before `prefix_of` own i past /\ justified N (gs i) before l.
Proof.
  intros Hrun Hin. apply in_own, list_elem_of_split in Hin as (before & after & E). exists before.
  split; [rewrite E; by eexists|]. by eapply hub_justified.
Qed.
Lemma own_seen i past before (l : ev gateE) : before `prefix_of` own i past -> l ∈ before -> (i, l) ∈ past.
Proof. intros [k E] H. apply own_in. rewrite E. apply elem_of_app. by left. Qed.

(** *** The sessions of a run *)
(** The session was created for its scope, with its version, at its place. *)
Definition born (past : log) (loc : nat) (s : hubSession) : Prop :=
  exists k snap, (k, Log (CreateSession (hs_ScopeKey s) (hs_ProtocolVersion s) snap) (Ok (hs_ClientSessionID s, loc))) ∈ past /\
    supported (hs_ProtocolVersion s) = true.
Record sessions_known (past : log) (st : HubSessionStore) : Prop := mkKnown {
  sk_heap : forall loc s, st_heap st !! loc = Some s -> (loc < st_next st)%nat /\ born past loc s;
  sk_map : forall sid loc, st_sessions st !! sid = Some loc -> (exists s, st_heap st !! loc = Some s /\ hs_ClientSessionID s = sid) /\
    forall k u, (k, Log (DeleteSession sid) u) ∉ past;
  sk_got : forall k sid ref, (k, Log (GetSession sid) (Some ref)) ∈ past -> drawn_id past sid;
  sk_deleted : forall k sid u, (k, Log (DeleteSession sid) u) ∈ past -> drawn_id past sid;
}.
Lemma drawn_mono past x sid : drawn_id past sid -> drawn_id (past ++ [x]) sid.
Proof. intros (k & sc & p & sn & loc & H). exists k, sc, p, sn, loc. apply elem_of_app. by left. Qed.
Lemma born_same past loc s s' : same_identity s s' -> born past loc s -> born past loc s'.
Proof.
  intros (H1 & H2 & H3) (k & snap & Hin & Hs). assert (hs_ProtocolVersion s <> "") as Hne by (intros E; rewrite E in Hs; by vm_compute in Hs).
  specialize (H3 Hne). exists k, snap. by rewrite H1, H2, H3.
Qed.
Lemma born_mono past x loc s : born past loc s -> born (past ++ [x]) loc s.
Proof. intros (k & snap & Hin & Hs). exists k, snap. split; [|done]. apply elem_of_app. by left. Qed.
Lemma known_shrinks past st st' : sessions_known past st -> shrinks st st' -> sessions_known past st'.
Proof.
  intros [H1 H2 H3 H4] [E1 E2 E3 E4]. split; [| |done|done].
  - intros loc s' (s & Hs & Hsame)%E2. rewrite E1. destruct (H1 _ _ Hs) as [Hlt Hb]. split; [done|]. by eapply born_same.
  - intros sid loc Hl. eapply lookup_weaken in Hl; [|exact E4]. destruct (H2 _ _ Hl) as ((s & Hs & Hid) & Hd). split; [|done].
    destruct (E3 _ _ Hs) as [s' Hs']. exists s'. split; [done|]. apply E2 in Hs' as (s0 & Hs0 & Hsame & _). congruence.
Qed.
(** Of a deleted session, the store has nothing any more. *)
Lemma known_snoc past st i (l : ev gateE) :
  sessions_known past st -> (forall sid ref, l = Log (GetSession sid) (Some ref) -> drawn_id past sid) ->
  (forall sid u, l = Log (DeleteSession sid) u -> st_sessions st !! sid = None /\ drawn_id past sid) -> sessions_known (past ++ [(i, l)]) st.
Proof.
  intros [H1 H2 H3 H4] Hg Hl. split.
  - intros loc s Hs. destruct (H1 _ _ Hs) as [? ?]. split; [done|by apply born_mono].
  - intros sid loc Hs. destruct (H2 _ _ Hs) as [? Hd]. split; [done|]. intros k u [Hin|E%list_elem_of_singleton]%elem_of_app; [by eapply Hd|].
    injection E as _ E. symmetry in E. apply Hl in E as [E _]. congruence.
  - intros k sid ref [Hin|E%list_elem_of_singleton]%elem_of_app; apply drawn_mono; [by eapply H3|]. injection E as _ E. by eapply Hg.
  - intros k sid u [Hin|E%list_elem_of_singleton]%elem_of_app; apply drawn_mono; [by eapply H4|]. injection E as _ E. symmetry in E. by apply Hl in E as [_ ?].
Qed.
Lemma moves_shrinks w w' : hub_moves w w' -> shrinks (hw_store w) (hw_store w').
Proof.
  destruct 1 as [| | | |loc w' (f & Hf & ->)| |]; cbn; [done|apply shrinks_sweep|apply shrinks_mark|apply shrinks_meanwhile| |done|done].
  by apply shrinks_alter.
Qed.
(** All steps but two only shrink the store. *)
Definition is_create (l : ev gateE) : bool := match l with Log e _ => match e with CreateSession _ _ _ => true | _ => false end end.
Definition is_delete (l : ev gateE) : bool := match l with Log e _ => match e with DeleteSession _ => true | _ => false end end.
Lemma answers_shrink w l w' : gate_answers w l w' -> is_create l = false -> shrinks (hw_store w) (hw_store w').
Proof.
  destruct l as [X e x]; destruct e; cbn; intros Ha Hc; destruct_and?; try (destruct Ha as (f & Hf & ->)); subst;
    try (by apply shrinks_alter || reflexivity); [apply shrinks_touch|discriminate Hc| |].
  - destruct Ha as [results ->]. apply shrinks_alter, initialize_identity.
  - apply shrinks_deleteLocked.
Qed.
Definition stepped (past : log) (i : nat) (l : ev gateE) : Prop := exists o, runs (ServeHTTP J N (gs i)) (own i (past ++ [(i, l)])) o.
Lemma stepped_justified past i l : stepped past i l -> justified N (gs i) (own i past) l.
Proof. intros [o Ho]. rewrite own_here in Ho. by apply (serve_guarded J N (gs i) _ _ Ho (own i past) l []). Qed.
Lemma lookup_drawn past st sid ref : sessions_known past st -> lookup_ref sid st = Some ref -> drawn_id past sid.
Proof.
  intros [H1 H2 _ _]. unfold lookup_ref, Get. destruct (st_sessions st !! sid) as [loc|] eqn:El; [|done]. cbn.
  destruct (H2 _ _ El) as ((s & Hs & <-) & _). intros _. destruct (H1 _ _ Hs) as [_ (k & snap & Hin & _)]. by exists k, (hs_ScopeKey s), (hs_ProtocolVersion s), snap, loc.
Qed.
Lemma step_known past w i l w' :
  stepped past i l -> draws_new past l -> sessions_known past (hw_store w) -> gate_answers w l w' -> sessions_known (past ++ [(i, l)]) (hw_store w').
Proof.
  intros Hown Hnew Hk Ha. pose proof (stepped_justified _ _ _ Hown) as Hj. destruct (is_create l) eqn:Ec.
  2: { apply known_snoc; [eapply known_shrinks; [exact Hk|by eapply answers_shrink]| |].
       - intros sid ref ->. cbn in Ha. destruct Ha as [Ha _]. by eapply lookup_drawn.
       - intros sid u ->. cbn in Ha. subst. cbn. unfold Sessions.Delete. rewrite deleteLocked_sessions. split; [apply lookup_delete_eq|].
         destruct Hj as (scope & loc & _ & [[-> [Hg _]]|(p & sn & Hc)]); [eapply (sk_got _ _ Hk), own_in, Hg|]. exists i, scope, p, sn, loc. by apply own_in. }
  destruct l as [X e x]; destruct e; try discriminate Ec. cbn in Ha, Hj. destruct Ha as (id & races & Hx & ->). destruct Hj as [_ Hsup]. cbn.
  destruct (Create scopeKey proto snap id (hw_now w) races (hw_store w)) as [st' y] eqn:Ecr. cbn in *.
  destruct (create_spec _ _ _ _ _ _ _ _ _ Ecr) as (st1 & Hsh & [[[e ->] ->]|(sid & s & -> & -> & H1 & H2 & H3 & Eh & En & Es)]).
  { apply known_snoc; [by eapply known_shrinks|done|done]. }
  subst x. pose proof (known_shrinks _ _ _ Hk Hsh) as [K1 K2 K3 K4].
  assert (Hnd : ~ drawn_id past sid) by (by eapply Hnew). split; rewrite ?Eh, ?En, ?Es.
  - intros loc s0 [[<- <-]|[_ Hs]]%lookup_insert_Some.
    + split; [lia|]. exists i, snap. rewrite H1, H2, H3. split; [apply elem_of_app; right; left|done].
    + destruct (K1 _ _ Hs) as [Hlt Hb]. rewrite (sh_next _ _ Hsh) in Hlt. split; [lia|by apply born_mono].
  - intros sid0 loc Hl. assert (Hd : forall k u, (k, Log (DeleteSession sid0) u) ∉ past -> (k, Log (DeleteSession sid0) u) ∉
      past ++ [(i, Log (CreateSession scopeKey proto snap) (Ok (sid, st_next (hw_store w))))]).
    { intros k u Hno [?|E%list_elem_of_singleton]%elem_of_app; [done|discriminate E]. }
    apply lookup_insert_Some in Hl as [[<- <-]|[_ Hs]].
    + split; [exists s; by rewrite lookup_insert_eq|]. intros k u. apply Hd. intros Hin. by apply Hnd; eapply K4.
    + destruct (K2 _ _ Hs) as ((s0 & Hs0 & Hid) & Hdel). split; [|intros k u; by apply Hd].
      exists s0. rewrite lookup_insert_ne; [done|]. destruct (K1 _ _ Hs0) as [Hlt _]. rewrite (sh_next _ _ Hsh) in Hlt. lia.
  - intros k sid0 ref [Hin|E%list_elem_of_singleton]%elem_of_app; [by eapply drawn_mono, K3|discriminate E].
  - intros k sid0 u [Hin|E%list_elem_of_singleton]%elem_of_app; [by eapply drawn_mono, K4|discriminate E].
Qed.
Lemma gate_run_known past w : gate_run past w -> sessions_known past (hw_store w).
Proof.
  induction 1 as [tokens endpoint now|past w i l w' _ IH Hown Ha Hnew|past w w' _ IH Hm].
  - split; cbn; [by intros loc s ?%lookup_empty_Some|by intros sid loc ?%lookup_empty_Some|by intros k sid ref ?%not_elem_of_nil|by intros k sid u ?%not_elem_of_nil].
  - by eapply step_known.
  - eapply known_shrinks; [exact IH|by apply moves_shrinks].
Qed.
(** C12: In every interleaving of requests with one another and with
    publications, rotations, sweeps and the work of sessions, no operation of
    a session (listing tools, calling one, cancelling a call, deleting) is
    reached by a request that has not shown, while it ran, that it comes from
    this machine, the token of the scope of its path and the id of this
    instance; and the session it reaches is the one it names, was created for
    that scope, and speaks the version it names.  Random session ids are
    taken not to repeat. *)
Theorem requests_authorised past w i (l : ev gateE) loc :
  gate_run past w -> (i, l) ∈ past ->
  match l with Log e _ => match e with ListTools x _ _ | CallTool x _ _ | CancelCall x _ | SnapshotForDelete x => loc = x | _ => False end end ->
  exists scopeKey, isSafeLoopbackRequest N (hr_from (gs i)) = true /\ path_scope (hr_Path (gs i)) scopeKey /\
    (exists before w1, before `prefix_of` past /\ gate_run before w1 /\
       ConstantTimeCompareToken (hw_tokens w1) scopeKey (hr_token (gs i)) = true) /\
    (exists before w1, before `prefix_of` past /\ gate_run before w1 /\ hw_endpoint w1 = hr_instance (gs i) /\ hr_instance (gs i) <> "") /\
    (exists before w1 s, before `prefix_of` past /\ gate_run before w1 /\ st_sessions (hw_store w1) !! hr_sid (gs i) = Some loc /\
       st_heap (hw_store w1) !! loc = Some s /\ hs_ScopeKey s = scopeKey /\ hs_ProtocolVersion s = hr_version (gs i) /\ born before loc s).
Proof.
  intros Hrun Hin Hl. destruct (hub_justified_in _ _ _ _ Hrun Hin) as (b & Hb & Hj).
  assert (H : exists scopeKey, admitted N (gs i) scopeKey b /\ in_session (gs i) scopeKey b loc).
  { destruct l as [X e x]; destruct e; try done; subst; cbn in Hj; naive_solver. }
  destruct H as (scopeKey & (Hsafe & Hpath & _ & Htok & Hinst & Hne) & (Hget & _ & _)). exists scopeKey. split; [done|]. split; [done|].
  split_and!.
  - destruct (hub_met _ _ _ _ Hrun (own_seen _ _ _ _ Hb Htok)) as (b1 & w1 & w2 & Hp & Hr1 & [Ha _]).
    exists b1, w1. split_and!; [by etrans; [apply prefix_app_r|]|done|done].
  - destruct (hub_met _ _ _ _ Hrun (own_seen _ _ _ _ Hb Hinst)) as (b1 & w1 & w2 & Hp & Hr1 & [Ha _]).
    exists b1, w1. split_and!; [by etrans; [apply prefix_app_r|]|done|done|done].
  - destruct (hub_met _ _ _ _ Hrun (own_seen _ _ _ _ Hb Hget)) as (b1 & w1 & w2 & Hp & Hr1 & [Ha _]).
    symmetry in Ha. unfold lookup_ref, Get in Ha. destruct (st_sessions (hw_store w1) !! hr_sid (gs i)) as [loc'|] eqn:El; [|done]. cbn in Ha.
    destruct (st_heap (hw_store w1) !! loc') as [s|] eqn:Es; [|done]. cbn in Ha. injection Ha as -> Hk Hv.
    exists b1, w1, s. split_and!; [by etrans; [apply prefix_app_r|]|done|done|done|done|done|]. by eapply (sk_heap _ _ (gate_run_known _ _ Hr1)).
Qed.

(** C14: Once a request has deleted a session, no request finds it any more,
    touches it or keeps it alive, and the store does not have it, whatever
    other requests, sweeps and publications do; random session ids are taken
    not to repeat. *)
Theorem deleted_session_gone before j sid u after w :
  gate_run (before ++ (j, Log (DeleteSession sid) u) :: after) w ->
  st_sessions (hw_store w) !! sid = None /\
  forall k l, (k, l) ∈ after -> (forall ref, l <> Log (GetSession sid) (Some ref)) /\ l <> Log (TouchSession sid) true.
Proof.
  intros Hrun. split.
  - apply eq_None_not_Some. intros [loc Hl]. destruct (sk_map _ _ (gate_run_known _ _ Hrun) _ _ Hl) as [_ Hno]. apply (Hno j u). set_solver.
  - intros k l (a1 & a2 & ->)%list_elem_of_split.
    assert (Hmet : exists w1 w2, gate_run (before ++ (j, Log (DeleteSession sid) u) :: a1) w1 /\ gate_answers w1 l w2).
    { apply (hub_at (before ++ (j, Log (DeleteSession sid) u) :: a1) k l a2 w). by rewrite <- app_assoc. }
    destruct Hmet as (w1 & w2 & Hr1 & Ha).
    assert (Hno : st_sessions (hw_store w1) !! sid = None).
    { apply eq_None_not_Some. intros [loc Hl]. destruct (sk_map _ _ (gate_run_known _ _ Hr1) _ _ Hl) as [_ Hd]. apply (Hd j u). set_solver. }
    split; [intros ref ->|intros ->]; cbn in Ha; destruct Ha as [Ha _].
    + unfold lookup_ref, Get in Ha. by rewrite Hno in Ha.
    + unfold Touch in Ha. by rewrite Hno in Ha.
Qed.
End Runs.

(** ** Playing the hub *)
Definition draws (l : ev gateE) : option string :=
  match l with
  | Log e x =>
      match e in gateE Y return Y -> option string with
      | CreateSession _ _ _ => fun x => match x with Ok r => Some r.1 | Err _ => None end
      | _ => fun _ => None
      end x
  end.
(** A random id that has been drawn before is not drawn again. *)
Definition draw (past : log) (ids : list string) : res string :=
  match ids with
  | sid :: _ => if bool_decide (Some sid ∈ (fun x => draws x.2) <$> past) then Err (errors_New "crypto/rand") else Ok sid
  | [] => Err (errors_New "crypto/rand")
  end.
Definition serve_gate (past : log) (w : hub_world) (X : Type) (e : gateE X) (ids : list string) : X * hub_world * list string :=
  match e in gateE Y return Y * hub_world * list string with
  | CurrentSnapshot => (h_resolverSnapshot (hw_tokens w), w, ids)
  | CompareToken scopeKey token => (ConstantTimeCompareToken (hw_tokens w) scopeKey token, w, ids)
  | CurrentInstanceID => (hw_endpoint w, w, ids)
  | GetSession sid => (lookup_ref sid (hw_store w), w, ids)
  | TouchSession sid => let r := Touch sid (hw_now w) (hw_store w) in (r.2, with_store w r.1, ids)
  | CreateSession scopeKey proto snap =>
      let id := draw past ids in let r := Create scopeKey proto snap id (hw_now w) [] (hw_store w) in
      (match r.2, id with Ok loc, Ok sid => Ok (sid, loc) | Err e, _ => Err e | _, Err e => Err e end, with_store w r.1, tail ids)
  | SetInstanceID loc id => (tt, on_session (fun s => s <| hs_InstanceID := id |>) loc w, ids)
  | SetParticipants loc refs => (tt, on_session (fun s => s <| hs_IntendedParticipants := refs |>) loc w, ids)
  | InitializeDaemons loc reqID =>
      (Ok ("initialized " +:+ reqID), on_session (AggregateInitialize [Ok ("d0", "2025-06-18"); Ok ("d1", "2025-06-18")]) loc w, ids)
  | ListTools loc reqID _ => (Ok ("tools of " +:+ reqID), on_session id loc w, ids)
  | CallTool loc reqID params => (Ok ("called " +:+ params), on_session id loc w, ids)
  | CancelCall loc _ => (tt, on_session id loc w, ids)
  | SnapshotForDelete loc =>
      (match st_heap (hw_store w) !! loc with Some s => (markDeleteStartedAndSnapshotDaemonSessions s).2 | None => ∅ end,
       on_session (fun s => (markDeleteStartedAndSnapshotDaemonSessions s).1) loc w, ids)
  | DeleteSession sid => (tt, with_store w (Sessions.Delete sid (hw_store w)).1, ids)
  | DeleteDaemonSession _ _ _ => (tt, w, ids)
  end.
Lemma serve_gate_answers past w X (e : gateE X) ids :
  let r := serve_gate past w X e ids in gate_answers w (Log e r.1.1) r.1.2 /\ draws_new past (Log e r.1.1).
Proof.
  assert (Hid : forall loc, worked loc w (on_session id loc w)) by (intros loc; exists id; by split).
  cbv zeta. split; [destruct e; cbn; eauto|].
  intros scopeKey proto snap sid loc E (k & sc & p & sn & loc' & Hin). destruct e; try discriminate E.
  assert (Hd : draw past ids = Ok sid).
  { apply (f_equal draws) in E. cbn in E. destruct (Create _ _ _ _ _ _ _).2; [|done]. by destruct (draw past ids); [injection E as ->|]. }
  unfold draw in Hd. destruct ids as [|sid' ids]; [done|]. case_bool_decide as Hno; [done|]. injection Hd as ->. apply Hno.
  apply list_elem_of_fmap. eexists. by split; [|exact Hin].
Qed.
Section Player.
Context (J : handler_json) (N : net_lib) (opts : SessionStoreOpts) (gs : nat -> hub_request).
(** Of what goes on besides: the endpoint changes, time passes. *)
Inductive gate_move := Rebind (id : string) | Pass (d : duration).
Definition gate_moved (m : gate_move) (w : hub_world) : hub_world :=
  match m with
  | Rebind id => mkHubWorld (hw_tokens w) (hw_store w) id (hw_now w)
  | Pass d => mkHubWorld (hw_tokens w) (hw_store w) (hw_endpoint w) (hw_now w + Z.max 0 d)
  end.
Context (tokens : hub) (endpoint : string) (ids : list string).
Definition gate_start : hub_world := mkHubWorld tokens (NewHubSessionStore opts) endpoint 0.
Notation gate_board := (board (E := gateE) (A := hub_response) (W := hub_world) (S := list string)).
Definition gate_play : list (turn (M := gate_move)) -> gate_board :=
  play_all (fun i => ServeHTTP J N (gs i)) serve_gate gate_moved gate_start ids.
Lemma gate_step_ok past w i X (e : gateE X) sc :
  gate_run J N opts gs past w -> let r := serve_gate past w X e sc in
  runs (ServeHTTP J N (gs i)) (own i past ++ [Log e r.1.1]) None -> gate_run J N opts gs (past ++ [(i, Log e r.1.1)]) r.1.2.
Proof.
  intros Hr r Hi. destruct (serve_gate_answers past w X e sc) as [Ha Hd].
  eapply hub_step; [exact Hr| |exact Ha|exact Hd]. exists None. by rewrite own_here.
Qed.
Lemma gate_move_ok past w m : gate_run J N opts gs past w -> gate_run J N opts gs past (gate_moved m w).
Proof.
  intros Hr. eapply hub_meanwhile; [exact Hr|]. destruct m; constructor. lia.
Qed.
Lemma gate_play_run turns : gate_run J N opts gs (b_log (gate_play turns)) (b_world (gate_play turns)).
Proof. apply (play_log _ _ _ (gate_run J N opts gs) gate_step_ok gate_move_ok). constructor. Qed.
Lemma gate_returned turns i resp :
  returned (fun i => ServeHTTP J N (gs i)) (gate_play turns) i = Some resp ->
  runs (ServeHTTP J N (gs i)) (own i (b_log (gate_play turns))) (Some resp).
Proof. apply (returned_runs _ _ _ (gate_run J N opts gs) gate_step_ok gate_move_ok). constructor. Qed.
End Player.

(** ** A session from its creation to its end *)
Definition split_bar (s : string) : string * string := let '(a, b) := cut (Ascii.eqb "|") s in (a, match b with Some b' => b' | None => "" end).
(** A library that takes texts of the form [id|method|params]. *)
Definition bar_json : handler_json :=
  mkHandlerJson
    (fun s => let '(i, rest) := split_bar s in let '(m, p) := split_bar rest in EnvOk (mkEnvelope "2.0" i m p))
    (mkReader Ok (fun _ => errors_New "invalid request")) Ok Ok.
Definition bar_envelope (i m p : string) : envelope := mkEnvelope "2.0" i m p.
Definition local : provenance := mkProvenance "127.0.0.1:9100" "" "".
Definition demo_token : string := String.concat "" (replicate 8 "0123abcd").
Definition demo_hub : hub :=
  mkHub None None (Some {["codex-cli" := demo_token]}) (Some demo_snapshot) resolverGroupActiveSetKnownGood 7 (mkScript [] [] []).
Definition gate_request (method sid version body : string) : hub_request :=
  mkHubRequest method "/clients/codex-cli/mcp" local demo_token "hub-1" sid version (HubBody body).
Definition demo_requests (i : nat) : hub_request :=
  match i with
  | 0%nat => gate_request "POST" "" "" "1|initialize|2025-06-18"
  | 1%nat => gate_request "POST" "s0" "2025-06-18" "2|tools/call|find"
  | 2%nat => gate_request "POST" "s0" "2025-06-18" "|notifications/cancelled|2"
  | 3%nat => gate_request "DELETE" "s0" "2025-06-18" ""
  | 4%nat => gate_request "POST" "s0" "2025-06-18" "3|tools/list|"
  | _ => mkHubRequest "POST" "/clients/codex-cli/mcp" local (String.concat "" (replicate 64 "0")) "hub-1" "s0" "2025-06-18" (HubBody "4|ping|")
  end.
Notation demo_gate turns := (gate_play bar_json demo_net small_opts demo_requests demo_hub "hub-1" ["s0"] turns).
(** The cancellation is let in before the deletion, and arrives after it. *)
Definition gate_turns : list (turn (M := gate_move)) :=
  replicate 7 (Step 0) ++ [Move (Pass Second)] ++ replicate 5 (Step 1) ++ replicate 4 (Step 2) ++ replicate 7 (Step 3) ++
  replicate 3 (Step 4) ++ [Step 2] ++ replicate 3 (Step 5).
Notation gate_end := (demo_gate gate_turns).
Example gate_responses :
  (fun i => returned (fun i => ServeHTTP bar_json demo_net (demo_requests i)) gate_end i) <$> seq 0 6 =
  [Some (Raw "initialized 1" (Some "s0")); Some (Raw "called find" None); Some (Empty 202); Some (Empty 204);
   Some (RpcError 404 "3" (-32600) "unknown session"); Some (Empty 401)].
Proof. vm_compute. reflexivity. Qed.
Lemma gate_demo_runs i resp :
  returned (fun i => ServeHTTP bar_json demo_net (demo_requests i)) gate_end i = Some resp ->
  runs (ServeHTTP bar_json demo_net (demo_requests i)) (own i (b_log gate_end)) (Some resp).
Proof. apply gate_returned. Qed.
Lemma demo_run : gate_run bar_json demo_net small_opts demo_requests (b_log gate_end) (b_world gate_end).
Proof. apply gate_play_run. Qed.
Lemma demo_cancel_in : (2%nat, Log (CancelCall 0 "2") tt) ∈ b_log gate_end.
Proof. apply list_elem_of_lookup. exists 26%nat. vm_compute. reflexivity. Qed.
Lemma requests_authorised_witness :
  exists scopeKey, isSafeLoopbackRequest demo_net local = true /\ path_scope "/clients/codex-cli/mcp" scopeKey /\
    (exists before w1, before `prefix_of` b_log gate_end /\ gate_run bar_json demo_net small_opts demo_requests before w1 /\
       ConstantTimeCompareToken (hw_tokens w1) scopeKey demo_token = true) /\
    (exists before w1, before `prefix_of` b_log gate_end /\ gate_run bar_json demo_net small_opts demo_requests before w1 /\
       hw_endpoint w1 = "hub-1" /\ "hub-1" <> "") /\
    (exists before w1 s, before `prefix_of` b_log gate_end /\ gate_run bar_json demo_net small_opts demo_requests before w1 /\
       st_sessions (hw_store w1) !! "s0" = Some 0%nat /\ st_heap (hw_store w1) !! 0%nat = Some s /\ hs_ScopeKey s = scopeKey /\
       hs_ProtocolVersion s = "2025-06-18" /\ born before 0 s).
Proof.
  exact (requests_authorised bar_json demo_net small_opts demo_requests (b_log gate_end) (b_world gate_end) 2 (Log (CancelCall 0 "2") tt) 0
    demo_run demo_cancel_in eq_refl).
Defined.
Definition token_passed (l : ev gateE) : bool :=
  match l with Log e x => match e in gateE Y return Y -> bool with CompareToken _ _ => fun x => x | _ => fun _ => false end x end.
Lemma demo_unadmitted scopeKey : ~ admitted demo_net (demo_requests 5) scopeKey (own 5 (b_log gate_end)).
Proof.
  intros (_ & _ & _ & H & _). apply (list_elem_of_fmap_2 token_passed) in H. change (token_passed _) with true in H.
  assert (E : token_passed <$> own 5 (b_log gate_end) = [false]) by (vm_compute; reflexivity). rewrite E in H. clear E.
  by apply list_elem_of_singleton in H.
Qed.
Lemma unadmitted_refused_witness : refusal (Empty 401) /\ Forall harmless (own 5 (b_log gate_end)).
Proof.
  apply (unadmitted_refused bar_json demo_net (demo_requests 5) (own 5 (b_log gate_end)) (Empty 401)); [|exact demo_unadmitted].
  apply gate_demo_runs. vm_compute. reflexivity.
Defined.
Lemma notifications_silent_witness : silent (Empty 202) \/ Empty 202 = Plain 403 "forbidden loopback request".
Proof.
  apply (notifications_silent bar_json demo_net (demo_requests 2) "|notifications/cancelled|2" (bar_envelope "" "notifications/cancelled" "2")
    (own 2 (b_log gate_end))); try done. apply gate_demo_runs. vm_compute. reflexivity.
Defined.
Lemma delete_complete_witness :
  exists before loc m,
    own 3 (b_log gate_end) =
      before ++ [Log (SnapshotForDelete loc) m; Log (DeleteSession "s0") tt] ++ ((fun e => Log e tt) <$> daemon_deletes m) /\ "DELETE" = "DELETE".
Proof.
  apply (delete_complete bar_json demo_net (demo_requests 3) (own 3 (b_log gate_end))). apply gate_demo_runs. vm_compute. reflexivity.
Defined.
Definition before_delete : log := take 20 (b_log gate_end).
Definition after_delete : log := drop 21 (b_log gate_end).
Lemma demo_split : b_log gate_end = before_delete ++ (3%nat, Log (DeleteSession "s0") tt) :: after_delete.
Proof. symmetry. apply (take_drop_middle (b_log gate_end)). vm_compute. reflexivity. Qed.
Lemma deleted_run :
  gate_run bar_json demo_net small_opts demo_requests (before_delete ++ (3%nat, Log (DeleteSession "s0") tt) :: after_delete) (b_world gate_end).
Proof. rewrite <- demo_split. apply demo_run. Qed.
Lemma deleted_session_gone_witness :
  length after_delete = 7%nat /\ st_sessions (hw_store (b_world gate_end)) !! "s0" = None /\
  forall k l, (k, l) ∈ after_delete -> (forall ref, l <> Log (GetSession "s0") (Some ref)) /\ l <> Log (TouchSession "s0") true.
Proof.
  split; [vm_compute; reflexivity|].
  exact (deleted_session_gone bar_json demo_net small_opts demo_requests before_delete 3 "s0" tt after_delete (b_world gate_end) deleted_run).
Defined.
