(* ===== verification/StdioHost.v ===== *)
(** * StdioHost: one stdio server behind HTTP.

    [daemon/host.go] with the bridge of [daemon/protocol_bridge.go],
    [synthetic_tools.go], [resource_bridge.go] and [prompt_bridge.go], the
    callers of [daemon/backend_lifecycle.go] and [mcpcompat/profile.go]: a
    child process that speaks JSON-RPC on its pipes serves many HTTP clients;
    each request gets an id of the host's own, and the answer that carries it
    goes back under the client's id.

    Handlers are programs over the steps they make on the shared host; the
    steps themselves are functions on its state, below.  The JSON library is
    a parameter; a text it cannot decode is an error. *)
From S2P Require Import Prelude Lines Trace.
From ITree Require Import ITree.
Open Scope Z_scope.

(** ** Protocol versions ([mcpcompat/profile.go]) *)
Definition LegacyStdioHTTP20241105Profile : string := "stdio-http-legacy-2024-11-05".
Record ProtocolCompatibilityPolicy := mkPolicy { legacy20241105 : bool }.
Definition ResolveProtocolCompatibilityProfile (profile : string) : res ProtocolCompatibilityPolicy :=
  if profile =s "" then Ok (mkPolicy false)
  else if profile =s LegacyStdioHTTP20241105Profile then Ok (mkPolicy true)
  else Err (errors_New "unknown MCP protocol compatibility profile").
Definition Supports (p : ProtocolCompatibilityPolicy) (version : string) : bool :=
  if (version =s "2025-11-25") || (version =s "2025-06-18") || (version =s "2025-03-26") then true
  else if version =s "2024-11-05" then legacy20241105 p
  else false.

(** ** JSON

    What the host asks of the library; a raw text that is absent is empty. *)
Record host_json := mkHostJson {
  hj_object : string -> res (option (gmap string string));
  hj_marshal : gmap string string -> string;
  hj_string : string -> string;
  hj_quote : string -> string;
  hj_int64 : string -> res Z;
  hj_itoa : Z -> string;
  hj_peek : string -> res (string * string);
  hj_protocol : string -> string;
  hj_init : string -> res (string * option string);
  hj_error : string -> res string;
  hj_capabilities : string -> res (gmap string string);
  hj_call : string -> res (string * string);
  hj_array : string -> res (list string);
  hj_marshal_array : list string -> res string;
  hj_uri : string -> res string;
  hj_uri_params : string -> res string;
  hj_prompt : string -> res (string * string);
  hj_prompt_params : string -> string -> res string;
  hj_texts : string -> res (list string);
  hj_content : list string -> res string;
  hj_field : string -> string -> res string;
  hj_tool_error : string -> string;
  hj_notification : string -> string;
  hj_rpc_error : string -> res (option (Z * string));
}.

(** ** The synthetic tools' definitions, in which a backquote stands for a
    quotation mark. *)
Fixpoint quote_marks (s : string) : string :=
  match s with
  | EmptyString => EmptyString
  | String a s' => String (if Ascii.eqb a "`" then "034"%char else a) (quote_marks s')
  end.
Definition readResourceToolDefinition : string := quote_marks
  "{`name`:`__read_resource__`,`description`:`Read an MCP resource by URI. Resources carry server-side read-only data (catalogs, discovery info, workflow guides). Many MCP clients surface resources to the human user but not to the agent — this tool bridges the gap. Call resources/list for discoverable URIs, or consult the server's documentation for template-URI patterns (e.g. resource://compilers/{language_id}). Response is the resource body as text.`,`inputSchema`:{`type`:`object`,`properties`:{`uri`:{`type`:`string`,`description`:`The resource URI to read (absolute, e.g. 'resource://tools' or 'resource://compilers/c++').`}},`required`:[`uri`]}}".
Definition listPromptsToolDefinition : string := quote_marks
  "{`name`:`__list_prompts__`,`description`:`List all MCP prompts the server exposes. Each entry carries {name, description, arguments[]} where each argument has {name, description, required}. Call this FIRST when you don't know which prompts exist — then use __get_prompt__(name, arguments) to materialize one. Response is a JSON array as text.`,`inputSchema`:{`type`:`object`,`properties`:{}}}".
Definition getPromptToolDefinition : string := quote_marks
  "{`name`:`__get_prompt__`,`description`:`Materialize an MCP prompt by name. Returns the prompt's messages array — a chat-style template {role, content} with role in {user, assistant}. Discover valid names and required arguments via __list_prompts__ first. Response is a JSON array of messages as text.`,`inputSchema`:{`type`:`object`,`properties`:{`name`:{`type`:`string`,`description`:`Prompt name (from __list_prompts__).`},`arguments`:{`type`:`object`,`description`:`Named arguments for the prompt. Shape depends on the specific prompt — consult __list_prompts__ for each prompt's argument schema.`,`additionalProperties`:true}},`required`:[`name`]}}".

(** ** The shared host *)
Record stdioHTTPSession := mkSession { ss_protocolVersion : string; ss_sequence : Z }.
(** A pending request has a channel that holds one line. *)
Record host := mkHost {
  h_nextInternalID : Z;
  h_pending : gmap Z (option string);
  h_initCached : option string;
  h_sessions : gmap string stdioHTTPSession;
  h_nextSessionSeq : Z;
  h_stopped : bool;
  h_childExited : bool;
  h_stdin : list string;
}.
Definition host_eta (h : host) : host :=
  mkHost (h_nextInternalID h) (h_pending h) (h_initCached h) (h_sessions h) (h_nextSessionSeq h) (h_stopped h) (h_childExited h) (h_stdin h).
#[export] Instance set_h_nextInternalID : Setter h_nextInternalID := ltac:(derive_setter host_eta h_nextInternalID).
#[export] Instance set_h_pending : Setter h_pending := ltac:(derive_setter host_eta h_pending).
#[export] Instance set_h_initCached : Setter h_initCached := ltac:(derive_setter host_eta h_initCached).
#[export] Instance set_h_sessions : Setter h_sessions := ltac:(derive_setter host_eta h_sessions).
#[export] Instance set_h_nextSessionSeq : Setter h_nextSessionSeq := ltac:(derive_setter host_eta h_nextSessionSeq).
#[export] Instance set_h_stopped : Setter h_stopped := ltac:(derive_setter host_eta h_stopped).
#[export] Instance set_h_childExited : Setter h_childExited := ltac:(derive_setter host_eta h_childExited).
#[export] Instance set_h_stdin : Setter h_stdin := ltac:(derive_setter host_eta h_stdin).
Definition NewStdioHost : host := mkHost 0 ∅ None ∅ 0 false false [].

Definition maxMCPPostBodyBytes : Z := 1 * 2 ^ 20.
Definition maxPendingRequests : Z := 128.
Definition maxStdioHTTPSessions : Z := 256.

(** *** Steps *)

(** [pending]: the slot is taken if there is one. *)
Definition registerPending (id : Z) (h : host) : host * bool :=
  if maxPendingRequests <=? Z.of_nat (size (h_pending h)) then (h, false)
  else (h <| h_pending ::= insert id None |>, true).
Definition unregisterPending (id : Z) (h : host) : host := h <| h_pending ::= delete id |>.
Definition nextID (h : host) : host * Z :=
  let id := h_nextInternalID h + 1 in (h <| h_nextInternalID := id |>, id).

(** A line on its way to the child, with its line feed. *)
Fixpoint ends_in_LF (s : string) : bool :=
  match s with
  | EmptyString => false
  | String a EmptyString => Ascii.eqb a LF
  | String _ s' => ends_in_LF s'
  end.
Definition stdin_line (line : string) : string := if ends_in_LF line then line else line +:+ String LF "".
Definition writeStdin (line : string) (h : host) : host := h <| h_stdin ::= fun l => l ++ [stdin_line line] |>.

(** The reader of the child's output: the waiting handler gets the line, if
    its channel has room; any other line is dropped. *)
Definition dispatchLine (J : host_json) (line : string) (h : host) : host :=
  match hj_peek J line with
  | Err _ => h
  | Ok (rawID, method) =>
      if rawID =s "" then h
      else match hj_int64 J rawID with
           | Err _ => h
           | Ok id =>
               match h_pending h !! id with
               | Some None => h <| h_pending ::= insert id (Some line) |>
               | _ => h
               end
           end
  end.

(** [Stop], as far as handlers see it, and the end of the child. *)
Definition stopHost (h : host) : host := h <| h_stopped := true |> <| h_sessions := ∅ |>.
Definition childExit (h : host) : host := h <| h_childExited := true |>.

(** Sessions: the oldest goes when there is no room.  [draws] are the random
    ids, one for each attempt. *)
Definition older (o : option (string * Z)) (row : string * stdioHTTPSession) : option (string * Z) :=
  match o with
  | None => Some (row.1, ss_sequence row.2)
  | Some (_, sequence) => if ss_sequence row.2 <? sequence then Some (row.1, ss_sequence row.2) else o
  end.
Definition oldestSession (m : gmap string stdioHTTPSession) : option (string * Z) := foldl older None (map_to_list m).
Definition evictOldest (m : gmap string stdioHTTPSession) : gmap string stdioHTTPSession :=
  if maxStdioHTTPSessions <=? Z.of_nat (size m)
  then match oldestSession m with Some (id, _) => delete id m | None => m end
  else m.
Definition addSession (sid protocolVersion : string) (h : host) : host :=
  let seq := h_nextSessionSeq h + 1 in
  h <| h_nextSessionSeq := seq |> <| h_sessions := <[sid := mkSession protocolVersion seq]> (evictOldest (h_sessions h)) |>.
Fixpoint session_attempts (draws : list (res string)) (protocolVersion : string) (h : host) : host * res string :=
  match draws with
  | [] => (h, Err (errors_New "session id collision limit exceeded"))
  | Err e :: _ => (h, Err e)
  | Ok sid :: draws =>
      if bool_decide (is_Some (h_sessions h !! sid)) then session_attempts draws protocolVersion h
      else (addSession sid protocolVersion h, Ok sid)
  end.
Definition createSession (draws : list (res string)) (protocolVersion : string) (h : host) : host * res string :=
  if h_stopped h then (h, Err (errors_New "host stopped")) else session_attempts (take 4 draws) protocolVersion h.
Definition deleteSession (sid : string) (h : host) : host := h <| h_sessions ::= delete sid |>.

(** The cache of the first initialize response that is no error. *)
Definition is_null (raw : string) : bool := trim_space raw =s "null".
Definition rpc_failed (rawError : string) : bool := negb (rawError =s "") && negb (is_null rawError).
Definition CacheInitialize (J : host_json) (body : string) (h : host) : host :=
  match hj_error J body with
  | Err _ => h
  | Ok e => if rpc_failed e then h else match h_initCached h with Some _ => h | None => h <| h_initCached := Some body |> end
  end.

(** ** What handlers do *)

(** How a handler's wait ends; on a shutdown or the child's end it looks into
    the channel once more. *)
Inductive awaited :=
| Received (line : string)
| Shutdown (late : option string)
| Exited (late : option string)
| Canceled
| TimedOut.
Inductive hostE : Type -> Type :=
| LookupSession (sid : string) : hostE (option stdioHTTPSession)
| InitCached : hostE (option string)
| NextID : hostE Z
| Register (id : Z) : hostE bool
| Unregister (id : Z) : hostE unit
| WriteStdin (line : string) : hostE (option error)
| Await (id : Z) : hostE awaited
| Cache (body : string) : hostE unit
| CreateSession (protocolVersion : string) : hostE (res string)
| DeleteSession (sid : string) : hostE unit
| Poll : hostE (option error).

Inductive http_response :=
| HttpError (status : Z) (text : string)
| JsonResponse (body : string) (sid : option string)
| Accepted
| NoContent
| Panicked.
Inductive post_body := Body (s : string) | BodyTooLarge | BodyUnreadable.
Record http_request := mkHttp { rq_contentType : string; rq_sid : string; rq_proto : string; rq_body : post_body }.

Section Host.
Context (J : host_json) (mime : string -> res string) (policy : ProtocolCompatibilityPolicy).
Local Notation prog := (itree hostE).

(** *** Requests that may come in *)
Definition requireJSONContentType (ct : string) : bool :=
  if ct =s "" then false
  else match mime ct with Err _ => false | Ok mt => to_lower mt =s "application/json" end.
Definition validateRequestProtocolVersion (r : http_request) : option http_response :=
  if negb (rq_proto r =s "") && negb (Supports policy (rq_proto r)) then Some (HttpError 400 "unsupported MCP-Protocol-Version") else None.
Definition validateRequestSession (r : http_request) : prog (string + http_response) :=
  match validateRequestProtocolVersion r with
  | Some e => Ret (inr e)
  | None =>
      if rq_sid r =s "" then Ret (inr (HttpError 400 "missing session id"))
      else
        call! session := LookupSession (rq_sid r) in
        match session with
        | None => Ret (inr (HttpError 404 "unknown session id"))
        | Some s =>
            if negb (rq_proto r =s "") && negb (rq_proto r =s ss_protocolVersion s)
            then Ret (inr (HttpError 400 "protocol version does not match session"))
            else Ret (inl (rq_sid r))
        end
  end.

(** *** Synthetic tools *)
Record SyntheticTool := mkTool {
  st_Name : string; st_Capability : string; st_Definition : string; st_UpstreamMethod : string;
  st_MapArgs : string -> res string; st_MapResult : string -> string;
}.
(** A result in place of the response's, or the response as it came. *)
Definition map_result (f : string -> res string) (respBody : string) : string :=
  match hj_object J respBody with
  | Err _ => respBody
  | Ok m =>
      let msg := default ∅ m in
      match msg !! "result" with
      | None => respBody
      | Some resultRaw => match f resultRaw with Err _ => respBody | Ok newResult => hj_marshal J (<["result" := newResult]> msg) end
      end
  end.
Definition mapReadResourceArgs (toolArgs : string) : res string :=
  let? uri := (if toolArgs =s "" then Ok "" else match hj_uri J toolArgs with Err e => Err (wrapf "invalid arguments" e) | r => r end) in
  if uri =s "" then Err (errors_New "missing required argument: uri")
  else if negb (has_prefix "resource://" uri) then Err (errors_New "invalid uri: must start with resource://")
  else hj_uri_params J uri.
Definition mapReadResourceResult : string -> string :=
  map_result (fun raw => let? texts := hj_texts J raw in hj_content J texts).
Definition mapListPromptsArgs (toolArgs : string) : res string :=
  if toolArgs =s "" then Ok "{}"
  else match hj_object J toolArgs with Err e => Err (wrapf "invalid arguments" e) | Ok _ => Ok "{}" end.
Definition text_of_field (field raw : string) : res string :=
  let? text := hj_field J field raw in hj_content J [if text =s "" then "[]" else text].
Definition mapListPromptsResult : string -> string := map_result (text_of_field "prompts").
Definition mapGetPromptArgs (toolArgs : string) : res string :=
  let? args := (if toolArgs =s "" then Ok ("", "") else match hj_prompt J toolArgs with Err e => Err (wrapf "invalid arguments" e) | r => r end) in
  if args.1 =s "" then Err (errors_New "missing required argument: name") else hj_prompt_params J args.1 args.2.
Definition mapGetPromptResult : string -> string := map_result (text_of_field "messages").

Definition readResourceSyntheticTool : SyntheticTool :=
  mkTool "__read_resource__" "resources" readResourceToolDefinition "resources/read" mapReadResourceArgs mapReadResourceResult.
Definition listPromptsSyntheticTool : SyntheticTool :=
  mkTool "__list_prompts__" "prompts" listPromptsToolDefinition "prompts/list" mapListPromptsArgs mapListPromptsResult.
Definition getPromptSyntheticTool : SyntheticTool :=
  mkTool "__get_prompt__" "prompts" getPromptToolDefinition "prompts/get" mapGetPromptArgs mapGetPromptResult.
Definition syntheticTools : list SyntheticTool := [readResourceSyntheticTool; listPromptsSyntheticTool; getPromptSyntheticTool].
Definition findSyntheticTool (name : string) : option SyntheticTool := find (fun t => st_Name t =s name) syntheticTools.
Definition hasCapability (initCached : option string) (capName : string) : bool :=
  match initCached with
  | None => false
  | Some body =>
      if (body =s "") || (capName =s "") then false
      else match hj_capabilities J body with
           | Err _ => false
           | Ok caps => match caps !! capName with Some raw => negb (raw =s "") | None => false end
           end
  end.

(** *** The bridge *)
Record BridgeAction := mkAction { ba_Active : option SyntheticTool; ba_SynthError : option error }.
Definition method_of (msg : gmap string string) : string := match msg !! "method" with Some m => hj_string J m | None => "" end.
(** The message is changed in place. *)
Definition TransformRequest (msg : gmap string string) : prog (gmap string string * BridgeAction) :=
  let unchanged := Ret (msg, mkAction None None) in
  if negb (method_of msg =s "tools/call") then unchanged
  else match msg !! "params" with
  | None => unchanged
  | Some paramsRaw =>
      match hj_call J paramsRaw with
      | Err _ => unchanged
      | Ok (name, arguments) =>
          match findSyntheticTool name with
          | None => unchanged
          | Some synth =>
              call! cached := InitCached in
              if negb (hasCapability cached (st_Capability synth)) then
                Ret (msg, mkAction (Some synth) (Some (errors_New (st_Name synth +:+ " unavailable"))))
              else match st_MapArgs synth arguments with
                   | Err e => Ret (msg, mkAction (Some synth) (Some e))
                   | Ok upstreamParams =>
                       Ret (<["params" := upstreamParams]> (<["method" := hj_quote J (st_UpstreamMethod synth)]> msg), mkAction (Some synth) None)
                   end
          end
      end
  end.
(** The tools whose capability the cache shows, one look at it for each. *)
Fixpoint applicableTools (tools : list SyntheticTool) : prog (list SyntheticTool) :=
  match tools with
  | [] => Ret []
  | s :: tools =>
      call! cached := InitCached in
      ITree.bind (applicableTools tools) (fun rest => Ret (if hasCapability cached (st_Capability s) then s :: rest else rest))
  end.
(** [None]: a result of null is a nil map, and an assignment to it panics. *)
Definition inject (applicable : list SyntheticTool) (respBody : string) : option string :=
  match hj_object J respBody with
  | Err _ | Ok None => Some respBody
  | Ok (Some msg) =>
      match msg !! "result" with
      | None => Some respBody
      | Some resultRaw =>
          match hj_object J resultRaw with
          | Err _ => Some respBody
          | Ok result =>
              match (match default ∅ result !! "tools" with None => Ok [] | Some t => hj_array J t end) with
              | Err _ => Some respBody
              | Ok tools =>
                  match hj_marshal_array J (tools ++ (st_Definition <$> applicable)) with
                  | Err _ => Some respBody
                  | Ok newTools =>
                      result ← result;
                      Some (hj_marshal J (<["result" := hj_marshal J (<["tools" := newTools]> result)]> msg))
                  end
              end
          end
      end
  end.
Definition InjectTools (respBody : string) : prog (option string) :=
  ITree.bind (applicableTools syntheticTools) (fun applicable =>
    match applicable with [] => Ret (Some respBody) | _ => Ret (inject applicable respBody) end).
Definition TransformResponse (origMethod : string) (active : option SyntheticTool) (respBody : string) : prog (option string) :=
  match active with
  | Some t => Ret (Some (st_MapResult t respBody))
  | None => if origMethod =s "tools/list" then InjectTools respBody else Ret (Some respBody)
  end.

(** *** The answer to an initialize *)
Inductive init_version := InitSession (version : string) | InitRefused | InitUnsupported (version : string) | InitInvalid (e : error).
Definition initializeResponseProtocolVersion (body requested : string) : init_version :=
  match hj_init J body with
  | Err e => InitInvalid (wrapf "decode initialize response" e)
  | Ok (rawError, result) =>
      if rpc_failed rawError then InitRefused
      else match result with
           | None => InitInvalid (errors_New "initialize response missing result")
           | Some version =>
               let version := if version =s "" then requested else version in
               if Supports policy version then InitSession version else InitUnsupported version
           end
  end.
Definition cacheValidInitializeResponse (method requestedVersion body : string) : prog unit :=
  if negb (method =s "initialize") then Ret tt
  else match initializeResponseProtocolVersion body requestedVersion with
       | InitSession _ => do! Cache body in Ret tt
       | _ => Ret tt
       end.
Definition initializeRequestProtocolVersion (msg : gmap string string) : string :=
  match msg !! "params" with Some raw => hj_protocol J raw | None => "" end.
Definition writeStdioJSONResponse (origMethod requested body : string) : prog http_response :=
  if origMethod =s "initialize" then
    match initializeResponseProtocolVersion body requested with
    | InitUnsupported v => Ret (HttpError 502 "MCP_BACKING_PROTOCOL_UNSUPPORTED")
    | InitInvalid e => Ret (HttpError 502 (err_text e))
    | InitRefused => Ret (JsonResponse body None)
    | InitSession version =>
        call! r := CreateSession version in
        match r with
        | Err e => Ret (HttpError 500 ("create MCP session: " +:+ err_text e))
        | Ok sid => Ret (JsonResponse body (Some sid))
        end
    end
  else Ret (JsonResponse body None).
Definition restore_id (origMethod requested origID : string) (respBody : string) : prog http_response :=
  match hj_object J respBody with
  | Err _ => Ret (HttpError 502 "subprocess returned invalid JSON")
  | Ok None => Ret Panicked
  | Ok (Some respMsg) => writeStdioJSONResponse origMethod requested (hj_marshal J (<["id" := origID]> respMsg))
  end.
Definition answer (origMethod requested origID : string) (active : option SyntheticTool) (line : string) : prog http_response :=
  ITree.bind (TransformResponse origMethod active line) (fun respBody =>
    match respBody with None => Ret Panicked | Some respBody => restore_id origMethod requested origID respBody end).

(** *** One exchange with the child *)
Definition conclude (origMethod requested origID : string) (active : option SyntheticTool) (a : awaited) : prog http_response :=
  match a with
  | Received line =>
      ITree.bind (cacheValidInitializeResponse origMethod requested line) (fun _ => answer origMethod requested origID active line)
  | Shutdown (Some line) | Exited (Some line) => answer origMethod requested origID active line
  | Shutdown None => Ret (HttpError 503 "host shutting down")
  | Exited None => Ret (HttpError 502 (if origMethod =s "initialize" then "MCP_READINESS_CHILD_EXITED" else "subprocess died unexpectedly"))
  | Canceled => Ret (HttpError 408 "client canceled")
  | TimedOut => Ret (HttpError 504 "subprocess response timeout")
  end.
(** A slot under a new id, one line with it, the wait for the answer, and the
    release of the slot whatever comes of it. *)
Definition rewrite_id (id : Z) (msg : gmap string string) : string := hj_marshal J (<["id" := hj_itoa J id]> msg).
Definition exchangeWithChild {R} (msg : gmap string string) (full : R) (failed : error -> R) (k : awaited -> prog R) : prog R :=
  call! id := NextID in
  call! registered := Register id in
  if negb registered then Ret full
  else
    call! written := WriteStdin (rewrite_id id msg) in
    match written with
    | Some e => do! Unregister id in Ret (failed e)
    | None =>
        call! a := Await id in
        ITree.bind (k a) (fun r => do! Unregister id in Ret r)
    end.
Definition forwardRequest (msg : gmap string string) (origMethod requested origID : string) (active : option SyntheticTool) : prog http_response :=
  exchangeWithChild msg (HttpError 429 "too many pending requests") (fun e => HttpError 500 ("write stdin: " +:+ err_text e))
    (conclude origMethod requested origID active).

Definition tool_error_body (origID message : string) : string :=
  let msg := <["result" := hj_tool_error J message]> {["jsonrpc" := hj_quote J "2.0"]} in
  hj_marshal J (if origID =s "" then msg else <["id" := origID]> msg).
(** A request, once it may pass. *)
Definition handleMessage (body : string) (msg : gmap string string) (origMethod : string) : prog http_response :=
  let requested := initializeRequestProtocolVersion msg in
  match msg !! "id" with
  | None =>
      call! written := WriteStdin body in
      match written with
      | Some e => Ret (HttpError 500 ("write stdin: " +:+ err_text e))
      | None => Ret Accepted
      end
  | Some origID =>
      let transformed :=
        ITree.bind (TransformRequest msg) (fun '(msg, action) =>
          match ba_SynthError action with
          | Some e => Ret (JsonResponse (tool_error_body origID (err_text e)) None)
          | None => forwardRequest msg origMethod requested origID (ba_Active action)
          end) in
      if origMethod =s "initialize" then
        call! cached := InitCached in
        match cached with
        | Some body =>
            match hj_object J body with
            | Ok (Some respMsg) => writeStdioJSONResponse origMethod requested (hj_marshal J (<["id" := origID]> respMsg))
            | _ => Ret Panicked
            end
        | None => transformed
        end
      else transformed
  end.
Definition handlePOST (r : http_request) : prog http_response :=
  if negb (requireJSONContentType (rq_contentType r)) then Ret (HttpError 415 "Content-Type must be application/json")
  else match rq_body r with
  | BodyTooLarge => Ret (HttpError 413 "request body too large")
  | BodyUnreadable => Ret (HttpError 400 "read body")
  | Body body =>
      match hj_object J body with
      | Err e => Ret (HttpError 400 ("invalid JSON: " +:+ err_text e))
      | Ok m =>
          let msg := default ∅ m in
          let origMethod := method_of msg in
          if origMethod =s "initialize" then
            match validateRequestProtocolVersion r with
            | Some e => Ret e
            | None =>
                if negb (rq_sid r =s "") then Ret (HttpError 400 "initialize must not include a session id")
                else handleMessage body msg origMethod
            end
          else
            ITree.bind (validateRequestSession r) (fun v =>
              match v with
              | inr e => Ret e
              | inl _ => handleMessage body msg origMethod
              end)
      end
  end.
Definition handleDELETE (r : http_request) : prog http_response :=
  ITree.bind (validateRequestSession r) (fun v =>
    match v with
    | inr e => Ret e
    | inl sid => do! DeleteSession sid in Ret NoContent
    end).

(** *** Callers within the process ([backend_lifecycle.go]) *)
Definition send_result (a : awaited) : string + error :=
  match a with
  | Received line | Shutdown (Some line) | Exited (Some line) => inl line
  | Shutdown None => inr (errors_New "backend host stopped")
  | Exited None => inr (errors_New "backend subprocess exited")
  | Canceled | TimedOut => inr (sentinel "context.Canceled" "context canceled")
  end.
Definition ErrTooManyPending : error := sentinel "ErrTooManyPending" "too many pending requests".
Definition SendRPC (body : string) : prog (string + error) :=
  match hj_object J body with
  | Err e => Ret (inr (wrapf "invalid JSON-RPC request" e))
  | Ok None => Ret (inr (errors_New "assignment to entry in nil map"))
  | Ok (Some msg) =>
      exchangeWithChild msg (inr ErrTooManyPending) (fun e => inr (wrapf "write stdin" e)) (fun a => Ret (send_result a))
  end.
(** [Poll] finds the caller's context done, the host stopped or the child
    gone. *)
Definition SendNotification (method : string) : prog (option error) :=
  call! gone := Poll in
  match gone with
  | Some e => Ret (Some e)
  | None =>
      call! written := WriteStdin (hj_notification J method) in
      Ret (option_map (wrapf "write stdin") written)
  end.
Definition performMCPHandshake (initReq : string) : prog (option error) :=
  ITree.bind (SendRPC initReq) (fun r =>
    match r with
    | inr e => Ret (Some (wrapf "initialize" e))
    | inl raw =>
        match hj_rpc_error J raw with
        | Err e => Ret (Some (wrapf "parse initialize response" e))
        | Ok (Some (code, msg)) => Ret (Some (errors_New ("initialize rejected: " +:+ msg)))
        | Ok None => ITree.bind (SendNotification "notifications/initialized") (fun r => Ret (option_map (wrapf "notifications/initialized") r))
        end
    end).
End Host.

(** ** The steps a handler makes *)
Notation events := (list (ev hostE)).

(** The steps on the child and its slots. *)
Definition mux (l : ev hostE) : bool :=
  match l with
  | Log e _ => match e with NextID | Register _ | Unregister _ | WriteStdin _ | Await _ => true | _ => false end
  end.
Definition muxed (tr : events) : events := List.filter mux tr.
Lemma muxed_app tr1 tr2 : muxed (tr1 ++ tr2) = muxed tr1 ++ muxed tr2.
Proof. apply List.filter_app. Qed.
Definition aside (l : ev hostE) : Prop := mux l = false.
Lemma muxed_aside tr : Forall aside tr -> muxed tr = [].
Proof. induction 1 as [|l tr H _ IH]; [done|]. cbn. unfold aside in H. by rewrite H. Qed.

(** One exchange: an id, a slot under it, one line with the id, a wait, and
    the release of the slot. *)
Definition exchange_trace (J : host_json) (id : Z) (registered : bool) (msg : gmap string string) (w : option error) (a : awaited) : events :=
  Log NextID id :: Log (Register id) registered ::
  (if registered then
     Log (WriteStdin (rewrite_id J id msg)) w :: (match w with None => [Log (Await id) a] | Some _ => [] end) ++ [Log (Unregister id) tt]
   else []).
Inductive course (J : host_json) (note : string -> Prop) : events -> Prop :=
| course_note body w : note body -> course J note [Log (WriteStdin body) w]
| course_exchange id registered msg w a tr : tr `prefix_of` exchange_trace J id registered msg w a -> course J note tr.
Lemma course_nil J note : course J note [].
Proof. apply (course_exchange J note 0 false ∅ None Canceled). apply prefix_nil. Qed.
#[local] Hint Resolve course_nil : core.

Definition on_course (J : host_json) (note : string -> Prop) {A} (p : itree hostE A) : Prop :=
  forall tr o, runs p tr o -> course J note (muxed tr).
(** A run that has returned has made all of its exchange. *)
Definition completes (J : host_json) {A} (p : itree hostE A) : Prop :=
  forall tr x, runs p tr (Some x) -> muxed tr = [] \/ (exists body w, muxed tr = [Log (WriteStdin body) w]) \/
    exists id registered msg w a, muxed tr = exchange_trace J id registered msg w a.

Section Courses.
Context (J : host_json) (mime : string -> res string) (policy : ProtocolCompatibilityPolicy).

Section Note.
Context (note : string -> Prop).
Lemma on_course_ret {A} (a : A) : on_course J note (Ret a).
Proof. intros tr o [-> _]%runs_ret. auto. Qed.
Lemma on_course_aside {A} (p : itree hostE A) : only aside p -> on_course J note p.
Proof. intros H tr o Hr. rewrite muxed_aside by (by eapply H). auto. Qed.
Lemma on_course_bind {A B} (t : itree hostE A) (k : A -> itree hostE B) :
  only aside t -> (forall a, on_course J note (k a)) -> on_course J note (ITree.bind t k).
Proof.
  intros Ht Hk tr o [[_ H]|(a & tr1 & tr2 & -> & H1 & H2)]%runs_bind.
  - by eapply on_course_aside.
  - rewrite muxed_app, (muxed_aside tr1) by (by eapply Ht). by eapply Hk.
Qed.
Lemma on_course_vis {A X} (e : hostE X) (k : X -> itree hostE A) :
  (forall x, aside (Log e x)) -> (forall x, on_course J note (k x)) -> on_course J note (Vis e k).
Proof.
  intros He Hk tr o [[-> _]|(x & tr' & -> & H)]%runs_vis; [auto|]. cbn. specialize (He x). unfold aside in He. cbn in He.
  rewrite He. by eapply Hk.
Qed.
Lemma on_course_note body (k : option error -> itree hostE http_response) :
  note body -> (forall w, exists r, k w = Ret r) -> on_course J note (Vis (WriteStdin body) k).
Proof.
  intros Hn Hk tr o [[-> _]|(w & tr' & -> & H)]%runs_vis; [auto|]. destruct (Hk w) as [r E]. rewrite E in H.
  apply runs_ret in H as [-> _]. by apply course_note.
Qed.
End Note.
Lemma completes_aside {A} (p : itree hostE A) : only aside p -> completes J p.
Proof. intros H tr x Hr. left. apply muxed_aside. by eapply H. Qed.
Lemma completes_bind {A B} (t : itree hostE A) (k : A -> itree hostE B) :
  only aside t -> (forall a, completes J (k a)) -> completes J (ITree.bind t k).
Proof.
  intros Ht Hk tr o (a & tr1 & tr2 & -> & H1 & H2)%returns_bind.
  rewrite muxed_app, (muxed_aside tr1) by (by eapply Ht). by eapply Hk.
Qed.
Lemma completes_vis {A X} (e : hostE X) (k : X -> itree hostE A) :
  (forall x, aside (Log e x)) -> (forall x, completes J (k x)) -> completes J (Vis e k).
Proof.
  intros He Hk tr o (x & tr' & -> & H)%returns_vis. cbn. specialize (He x). unfold aside in He. cbn in He.
  rewrite He. by eapply Hk.
Qed.

(** *** What stays aside *)
Lemma session_aside r : only aside (validateRequestSession policy r).
Proof. unfold validateRequestSession. walk_only. Qed.
Lemma applicable_aside tools : only aside (applicableTools J tools).
Proof. induction tools as [|t tools IH]; cbn [applicableTools]; walk_only. apply IH. Qed.
Lemma transform_aside m a l : only aside (TransformResponse J m a l).
Proof. unfold TransformResponse, InjectTools. walk_only. apply applicable_aside. Qed.
Lemma request_aside msg : only aside (TransformRequest J msg).
Proof. unfold TransformRequest. walk_only. Qed.
Lemma write_aside m q b : only aside (writeStdioJSONResponse J policy m q b).
Proof. unfold writeStdioJSONResponse. walk_only. Qed.
Lemma answer_aside m q i a l : only aside (answer J policy m q i a l).
Proof. unfold answer, restore_id. walk_only; first [apply transform_aside | apply write_aside]. Qed.
Lemma conclude_aside m q i a w : only aside (conclude J policy m q i a w).
Proof. unfold conclude, cacheValidInitializeResponse. walk_only; apply answer_aside. Qed.
End Courses.

Section Handlers.
Context (J : host_json) (mime : string -> res string) (policy : ProtocolCompatibilityPolicy).

(** *** The exchange itself *)
Lemma exchange_runs {R} msg (full : R) (failed : error -> R) (k : awaited -> itree hostE R) tr o :
  (forall a, only aside (k a)) -> runs (exchangeWithChild J msg full failed k) tr o ->
  exists id registered w a, muxed tr `prefix_of` exchange_trace J id registered msg w a /\
    (is_Some o -> muxed tr = exchange_trace J id registered msg w a).
Proof.
  assert (Hstop : forall tr id b w a, tr `prefix_of` exchange_trace J id b msg w a -> exists id b w a,
    tr `prefix_of` exchange_trace J id b msg w a /\ (is_Some (@None R) -> tr = exchange_trace J id b msg w a)).
  { intros tr' id b w a H. exists id, b, w, a. split; [done|by intros []]. }
  intros Hk H. unfold exchangeWithChild in H.
  apply runs_vis in H as [[-> ->]|(id & tr1 & -> & H)]; [by apply (Hstop [] 0 false None Canceled), prefix_nil|].
  apply runs_vis in H as [[-> ->]|(b & tr2 & -> & H)].
  { apply (Hstop _ id false None Canceled). apply prefix_cons, prefix_nil. }
  destruct b; cbn [negb] in H; [|apply runs_ret in H as [-> _]; by exists id, false, None, Canceled].
  apply runs_vis in H as [[-> ->]|(w & tr3 & -> & H)].
  { apply (Hstop _ id true None Canceled). do 2 apply prefix_cons. apply prefix_nil. }
  destruct w as [e|].
  - apply runs_vis in H as [[-> ->]|(x & tr4 & -> & H)].
    { apply (Hstop _ id true (Some e) Canceled). do 3 apply prefix_cons. apply prefix_nil. }
    apply runs_ret in H as [-> _]. destruct x. by exists id, true, (Some e), Canceled.
  - apply runs_vis in H as [[-> ->]|(a & tr4 & -> & H)].
    { apply (Hstop _ id true None Canceled). do 3 apply prefix_cons. apply prefix_nil. }
    apply runs_bind in H as [[-> H]|(r & tr5 & tr6 & -> & H1 & H2)]; cbn [muxed List.filter mux].
    + fold (muxed tr4). rewrite (muxed_aside tr4) by (by eapply Hk).
      apply (Hstop _ id true None a). do 4 apply prefix_cons. apply prefix_nil.
    + fold (muxed (tr5 ++ tr6)). rewrite muxed_app, (muxed_aside tr5) by (by eapply Hk).
      apply runs_vis in H2 as [[-> ->]|(x & tr7 & -> & H2)].
      { apply (Hstop _ id true None a). do 4 apply prefix_cons. apply prefix_nil. }
      apply runs_ret in H2 as [-> _]. destruct x. by exists id, true, None, a.
Qed.

Section Note.
Context (note : string -> Prop).
Lemma exchange_on_course {R} msg (full : R) (failed : error -> R) (k : awaited -> itree hostE R) :
  (forall a, only aside (k a)) -> on_course J note (exchangeWithChild J msg full failed k).
Proof. intros Hk tr o (id & b & w & a & H & _)%exchange_runs; [|done]. by apply (course_exchange J note id b msg w a). Qed.
Lemma transformed_on_course msg origID m requested :
  on_course J note (ITree.bind (TransformRequest J msg) (fun '(msg, action) =>
    match ba_SynthError action with
    | Some e => Ret (JsonResponse (tool_error_body J origID (err_text e)) None)
    | None => forwardRequest J policy msg m requested origID (ba_Active action)
    end)).
Proof.
  apply on_course_bind; [apply request_aside|]. intros [msg' [act [e|]]]; cbn; [apply on_course_ret|].
  apply exchange_on_course. apply conclude_aside.
Qed.
Lemma message_on_course body msg m : (msg !! "id" = None -> note body) -> on_course J note (handleMessage J policy body msg m).
Proof.
  intros Hn. unfold handleMessage. destruct (msg !! "id") as [origID|]; cbv zeta.
  - destruct (m =s "initialize"); [|apply transformed_on_course].
    apply on_course_vis; [done|]. intros [c|]; [|apply transformed_on_course].
    destruct (hj_object J c) as [[?|]|]; [apply on_course_aside, write_aside|apply on_course_ret..].
  - intros tr o [[-> _]|(w & tr' & -> & H)]%runs_vis; [apply course_nil|].
    destruct w; apply runs_ret in H as [-> _]; by apply course_note, Hn.
Qed.
Lemma post_on_course r :
  (forall body m, rq_body r = Body body -> hj_object J body = Ok m -> default ∅ m !! "id" = None -> note body) ->
  on_course J note (handlePOST J mime policy r).
Proof.
  intros Hn. unfold handlePOST. destruct (negb _); [apply on_course_ret|]. destruct (rq_body r) as [body| |]; [|apply on_course_ret..].
  destruct (hj_object J body) as [m|] eqn:Eo; [|apply on_course_ret]. cbv zeta.
  assert (Hm : on_course J note (handleMessage J policy body (default ∅ m) (method_of J (default ∅ m)))).
  { apply message_on_course. by apply (Hn body m). }
  destruct (_ =s "initialize").
  - destruct (validateRequestProtocolVersion policy r); [apply on_course_ret|]. by destruct (negb _); [apply on_course_ret|].
  - apply on_course_bind; [apply session_aside|]. intros [?|?]; [done|apply on_course_ret].
Qed.
End Note.

(** A handler that has returned is done with its exchange. *)
Lemma exchange_completes {R} msg (full : R) (failed : error -> R) (k : awaited -> itree hostE R) :
  (forall a, only aside (k a)) -> completes J (exchangeWithChild J msg full failed k).
Proof.
  intros Hk tr x (id & b & w & a & _ & H)%exchange_runs; [|done]. right. right. exists id, b, msg, w, a. by apply H.
Qed.
Lemma completes_ret {A} (a : A) : completes J (Ret a).
Proof. intros tr x [-> _]%returns_ret. by left. Qed.
Lemma transformed_completes msg origID m requested :
  completes J (ITree.bind (TransformRequest J msg) (fun '(msg, action) =>
    match ba_SynthError action with
    | Some e => Ret (JsonResponse (tool_error_body J origID (err_text e)) None)
    | None => forwardRequest J policy msg m requested origID (ba_Active action)
    end)).
Proof.
  apply completes_bind; [apply request_aside|]. intros [msg' [act [e|]]]; cbn; [apply completes_ret|].
  apply exchange_completes. apply conclude_aside.
Qed.
Lemma post_completes r : completes J (handlePOST J mime policy r).
Proof.
  unfold handlePOST. destruct (negb _); [apply completes_ret|]. destruct (rq_body r) as [body| |]; [|apply completes_ret..].
  destruct (hj_object J body) as [m|] eqn:Eo; [|apply completes_ret]. cbv zeta.
  assert (Hm : completes J (handleMessage J policy body (default ∅ m) (method_of J (default ∅ m)))).
  { unfold handleMessage. destruct (_ !! "id") as [origID|]; cbv zeta.
    - destruct (_ =s "initialize"); [|apply transformed_completes].
      apply completes_vis; [done|]. intros [c|]; [|apply transformed_completes].
      destruct (hj_object J c) as [[?|]|]; [apply completes_aside, write_aside|apply completes_ret..].
    - intros tr o (w & tr' & -> & H)%returns_vis. right. left. exists body, w. destruct w; apply returns_ret in H as [-> _]; done. }
  destruct (_ =s "initialize").
  - destruct (validateRequestProtocolVersion policy r); [apply completes_ret|]. by destruct (negb _); [apply completes_ret|].
  - apply completes_bind; [apply session_aside|]. intros [?|?]; [done|apply completes_ret].
Qed.
Lemma sendrpc_on_course note body : on_course J note (SendRPC J body).
Proof.
  unfold SendRPC. destruct (hj_object J body) as [[msg|]|]; [|apply on_course_ret..]. apply exchange_on_course. intros. apply only_ret.
Qed.
Lemma sendrpc_completes body : completes J (SendRPC J body).
Proof.
  unfold SendRPC. destruct (hj_object J body) as [[msg|]|]; [|apply completes_ret..]. apply exchange_completes. intros. apply only_ret.
Qed.
Lemma delete_aside r : only aside (handleDELETE policy r).
Proof. unfold handleDELETE. walk_only. apply session_aside. Qed.

(** *** Who is let through *)

(** What a handler has seen of its request's session before it writes to the
    child: the session its header names, of the version its header names. *)
Definition initializes (r : http_request) : Prop :=
  exists body m, rq_body r = Body body /\ hj_object J body = Ok m /\ method_of J (default ∅ m) = "initialize" /\ rq_sid r = "" /\
    (rq_proto r = "" \/ Supports policy (rq_proto r) = true).
Definition let_through (r : http_request) (before : events) : Prop :=
  requireJSONContentType mime (rq_contentType r) = true /\
  (initializes r \/
   exists s, Log (LookupSession (rq_sid r)) (Some s) ∈ before /\ rq_sid r <> "" /\
     (rq_proto r = "" \/ (rq_proto r = ss_protocolVersion s /\ Supports policy (rq_proto r) = true))).
(** What is kept of an initialize response is what such a request waited for. *)
Definition cacheable (r : http_request) (before : events) (body : string) : Prop :=
  initializes r /\ (exists id, Log (Await id) (Received body) ∈ before) /\
  exists requested v, initializeResponseProtocolVersion J policy body requested = InitSession v.
Definition gated (r : http_request) (before : events) (l : ev hostE) : Prop :=
  match l with
  | Log e _ =>
      match e with
      | WriteStdin _ | Register _ => let_through r before
      | CreateSession v => Supports policy v = true
      | Cache body => cacheable r before body
      | _ => True
      end
  end.
Definition ungated (l : ev hostE) : Prop := forall r before, gated r before l.
Lemma let_through_mono r before tr : let_through r before -> let_through r (before ++ tr).
Proof. intros [Hc [?|(s & H & ?)]]; (split; [done|]); [by left|right]. exists s. split; [|done]. apply elem_of_app. by left. Qed.

Lemma init_session_supported body requested v :
  initializeResponseProtocolVersion J policy body requested = InitSession v -> Supports policy v = true.
Proof.
  unfold initializeResponseProtocolVersion. destruct (hj_init J body) as [[e [ver|]]|]; [|by case_match|done].
  destruct (rpc_failed e); [done|]. cbv zeta. destruct (Supports policy _) eqn:Es; [|done]. by intros [= <-].
Qed.
Section Gate.
Context (r : http_request).
Local Notation guarded' before p := (guarded (gated r) before p).
Lemma ungated_guarded {A} before (p : itree hostE A) : only ungated p -> guarded' before p.
Proof. apply guarded_only. intros b l H. apply H. Qed.
Lemma write_gated before m q b : guarded' before (writeStdioJSONResponse J policy m q b).
Proof.
  unfold writeStdioJSONResponse. destruct (m =s "initialize"); [|apply guarded_ret].
  destruct (initializeResponseProtocolVersion J policy b q) as [v| | |] eqn:Ev; try apply guarded_ret.
  apply guarded_vis; [intros x; cbn; by eapply init_session_supported|]. intros [?|?]; apply guarded_ret.
Qed.
Lemma applicable_ungated tools : only ungated (applicableTools J tools).
Proof. induction tools as [|t tools IH]; cbn [applicableTools]; walk_only. apply IH. Qed.
Lemma answer_gated before m q i a l : guarded' before (answer J policy m q i a l).
Proof.
  unfold answer. apply guarded_bind.
  - apply ungated_guarded. unfold TransformResponse, InjectTools. walk_only. apply applicable_ungated.
  - intros [b|] tr _; [|apply guarded_ret]. unfold restore_id. destruct (hj_object J b) as [[?|]|]; [apply write_gated|apply guarded_ret..].
Qed.
Lemma conclude_gated before id m q i a w :
  (m = "initialize" -> initializes r) -> Log (Await id) w ∈ before -> guarded' before (conclude J policy m q i a w).
Proof.
  intros Hm Hw. unfold conclude. destruct w as [l|[l|]|[l|]| |]; try apply guarded_ret; try apply answer_gated.
  apply guarded_bind; [|intros; apply answer_gated]. unfold cacheValidInitializeResponse.
  destruct (m =s "initialize") eqn:Em; cbn [negb]; [|apply guarded_ret].
  destruct (initializeResponseProtocolVersion J policy l q) as [v| | |] eqn:Ev; try apply guarded_ret.
  apply guarded_vis; [|intros; apply guarded_ret]. intros ?. cbn. breflect. split; [by apply Hm|]. split; [by exists id|]. by exists q, v.
Qed.
Lemma exchange_gated {R} before msg (full : R) failed (k : awaited -> itree hostE R) :
  let_through r before -> (forall before id a, Log (Await id) a ∈ before -> guarded' before (k a)) ->
  guarded' before (exchangeWithChild J msg full failed k).
Proof.
  intros Hl Hk. unfold exchangeWithChild. apply guarded_vis; [done|]. intros id.
  apply guarded_vis; [intros b; cbn; by apply let_through_mono|]. intros [|]; cbn; [|apply guarded_ret].
  apply guarded_vis; [intros w; cbn; by apply let_through_mono, let_through_mono|]. intros [e|].
  - apply guarded_vis; [done|]. intros. apply guarded_ret.
  - apply guarded_vis; [done|]. intros a. apply guarded_bind; [apply (Hk _ id); apply elem_of_app; right; left|]. intros x tr _.
    apply guarded_vis; [done|]. intros. apply guarded_ret.
Qed.
Lemma transformed_gated before msg origID m requested :
  let_through r before -> (m = "initialize" -> initializes r) ->
  guarded' before (ITree.bind (TransformRequest J msg) (fun '(msg, action) =>
    match ba_SynthError action with
    | Some e => Ret (JsonResponse (tool_error_body J origID (err_text e)) None)
    | None => forwardRequest J policy msg m requested origID (ba_Active action)
    end)).
Proof.
  intros Hl Hm. apply guarded_bind; [apply ungated_guarded; unfold TransformRequest; walk_only|].
  intros [msg' [act [e|]]] tr _; cbn; [apply guarded_ret|]. apply exchange_gated; [by apply let_through_mono|].
  intros. by eapply conclude_gated.
Qed.
Lemma message_gated before body msg m :
  let_through r before -> (m = "initialize" -> initializes r) -> guarded' before (handleMessage J policy body msg m).
Proof.
  intros Hl Hi. unfold handleMessage. destruct (msg !! "id") as [origID|]; cbv zeta.
  - destruct (m =s "initialize"); [|by apply transformed_gated].
    apply guarded_vis; [done|]. intros [c|]; [|by apply transformed_gated; [apply let_through_mono|]].
    destruct (hj_object J c) as [[?|]|]; [apply write_gated|apply guarded_ret..].
  - apply guarded_vis; [done|]. intros [?|]; apply guarded_ret.
Qed.
Lemma session_seen tr sid :
  runs (validateRequestSession policy r) tr (Some (inl sid)) -> sid = rq_sid r /\
  exists s, Log (LookupSession (rq_sid r)) (Some s) ∈ tr /\ rq_sid r <> "" /\
    (rq_proto r = "" \/ (rq_proto r = ss_protocolVersion s /\ Supports policy (rq_proto r) = true)).
Proof.
  unfold validateRequestSession, validateRequestProtocolVersion.
  destruct (negb (rq_proto r =s "") && negb (Supports policy (rq_proto r))) eqn:Ep; [by intros [_ [=]]%returns_ret|].
  destruct (rq_sid r =s "") eqn:Es; [by intros [_ [=]]%returns_ret|]. intros ([s|] & tr' & -> & H)%returns_vis; [|by apply returns_ret in H as [_ [=]]].
  destruct (negb (rq_proto r =s "") && negb (rq_proto r =s ss_protocolVersion s)) eqn:Ev; [by apply returns_ret in H as [_ [=]]|].
  apply returns_ret in H as [_ [= ->]]. split; [done|]. exists s. split; [left|]. breflect. split; [done|].
  destruct (decide (rq_proto r = "")) as [|Hne]; [by left|right]. naive_solver.
Qed.
Lemma post_gated : guarded' [] (handlePOST J mime policy r).
Proof.
  unfold handlePOST. destruct (requireJSONContentType mime _) eqn:Ec; cbn [negb]; [|apply guarded_ret].
  destruct (rq_body r) as [body| |] eqn:Eb; [|apply guarded_ret..].
  destruct (hj_object J body) as [m|] eqn:Eo; [|apply guarded_ret]. cbv zeta.
  destruct (method_of J (default ∅ m) =s "initialize") eqn:Em.
  - destruct (validateRequestProtocolVersion policy r) eqn:Ev; [apply guarded_ret|].
    destruct (rq_sid r =s "") eqn:Es; cbn [negb]; [|apply guarded_ret].
    assert (Hi : initializes r).
    { breflect. exists body, m. split_and!; try done. unfold validateRequestProtocolVersion in Ev.
      destruct (rq_proto r =s "") eqn:Ep; [breflect; by left|]. destruct (Supports policy (rq_proto r)); [by right|done]. }
    apply message_gated; [|done]. split; [done|by left].
  - apply guarded_bind; [apply ungated_guarded; unfold validateRequestSession; walk_only|].
    intros [sid|e] tr Htr; [|apply guarded_ret]. apply message_gated; [|breflect; done]. split; [done|right].
    by apply session_seen in Htr as [_ ?].
Qed.
End Gate.

(** ** What a client is answered *)

(** The line as the client gets it: what the bridge makes of it, under the
    client's own id. *)
Definition shown_as (origID : string) (active : option SyntheticTool) (origMethod line body : string) : Prop :=
  exists shown m, hj_object J shown = Ok (Some m) /\ body = hj_marshal J (<["id" := origID]> m) /\
    (shown = line \/ (exists t, active = Some t /\ shown = st_MapResult t line) \/
     (active = None /\ origMethod = "tools/list" /\ exists ts, Forall (fun t => t ∈ syntheticTools J) ts /\ inject J ts line = Some shown)).
Lemma applicable_members tools tr ts : runs (applicableTools J tools) tr (Some ts) -> Forall (fun t => t ∈ tools) ts.
Proof.
  revert tr ts. induction tools as [|t tools IH]; intros tr ts; cbn [applicableTools].
  - intros [_ ->]%returns_ret. constructor.
  - intros (c & tr1 & -> & H)%returns_vis. apply returns_bind in H as (rest & tr2 & tr3 & -> & H1 & H2).
    apply returns_ret in H2 as [_ ->]. apply IH in H1. assert (Forall (fun x => x ∈ t :: tools) rest).
    { eapply Forall_impl; [exact H1|]. intros x Hx. by right. }
    destruct (hasCapability J c (st_Capability t)); [constructor; [left|done]|done].
Qed.
Lemma answer_restored m q origID active line tr body sid :
  runs (answer J policy m q origID active line) tr (Some (JsonResponse body sid)) -> shown_as origID active m line body.
Proof.
  intros (shown & tr1 & tr2 & -> & H1 & H2)%returns_bind. destruct shown as [shown|]; [|by apply returns_ret in H2 as [_ [=]]].
  unfold restore_id in H2. destruct (hj_object J shown) as [[msg|]|] eqn:Eo; [|by apply returns_ret in H2 as [_ [=]]..].
  exists shown, msg. split; [done|]. split.
  - unfold writeStdioJSONResponse in H2. destruct (m =s "initialize"); [|by apply returns_ret in H2 as [_ [= <- _]]].
    destruct (initializeResponseProtocolVersion _ _ _ _); [|apply returns_ret in H2 as [_ [=]]; done..].
    apply returns_vis in H2 as ([s|e] & tr3 & -> & H2); by apply returns_ret in H2 as [_ [= <- _]].
  - unfold TransformResponse in H1. destruct active as [t|]; [apply returns_ret in H1 as [_ [= ->]]; right; left; by exists t|].
    destruct (m =s "tools/list") eqn:Em; [|apply returns_ret in H1 as [_ [= ->]]; by left].
    apply returns_bind in H1 as (ts & tr3 & tr4 & -> & H1 & H3). apply applicable_members in H1.
    destruct ts as [|t ts]; apply returns_ret in H3 as [_ H3]; [injection H3 as ->; by left|].
    right. right. breflect. split; [done|]. split; [done|]. by exists (t :: ts).
Qed.

Definition carries (a : awaited) (line : string) : Prop := a = Received line \/ a = Shutdown (Some line) \/ a = Exited (Some line).
Lemma conclude_restored m q origID active a tr body sid :
  runs (conclude J policy m q origID active a) tr (Some (JsonResponse body sid)) ->
  exists line, carries a line /\ shown_as origID active m line body.
Proof.
  unfold conclude, carries. intros H. destruct a as [l|[l|]|[l|]| |]; try (by apply returns_ret in H as [_ [=]]); exists l; split; auto.
  - apply returns_bind in H as (u & tr1 & tr2 & -> & _ & H). by eapply answer_restored.
  - by eapply answer_restored.
  - by eapply answer_restored.
Qed.
Lemma exchange_answered {R} msg (full : R) (failed : error -> R) (k : awaited -> itree hostE R) tr (x : R) :
  (forall a, only aside (k a)) -> runs (exchangeWithChild J msg full failed k) tr (Some x) ->
  x = full \/ (exists e, x = failed e) \/
  exists id a tr', muxed tr = exchange_trace J id true msg None a /\ runs (k a) tr' (Some x).
Proof.
  intros Hk H. unfold exchangeWithChild in H. apply returns_vis in H as (id & tr1 & -> & H).
  apply returns_vis in H as ([|] & tr2 & -> & H); cbn [negb] in H; [|apply returns_ret in H as [_ ->]; by left].
  apply returns_vis in H as ([e|] & tr3 & -> & H).
  - apply returns_vis in H as (? & tr4 & -> & H). apply returns_ret in H as [_ ->]. right; left. eauto.
  - apply returns_vis in H as (a & tr4 & -> & H). apply returns_bind in H as (y & tr5 & tr6 & -> & H1 & H2).
    apply returns_vis in H2 as ([] & tr7 & -> & H2). apply returns_ret in H2 as [-> <-]. right; right.
    exists id, a, tr5. split; [|done]. cbn [muxed List.filter mux]. fold (muxed (tr5 ++ [Log (Unregister id) tt])).
    rewrite muxed_app, (muxed_aside tr5) by (by eapply Hk). done.
Qed.

Lemma session_refusal r tr e : runs (validateRequestSession policy r) tr (Some (inr e)) -> exists c t, e = HttpError c t.
Proof.
  unfold validateRequestSession. destruct (validateRequestProtocolVersion policy r) as [e'|] eqn:Ev.
  { unfold validateRequestProtocolVersion in Ev. case_match; [|done]. injection Ev as <-. intros [_ [= ->]]%returns_ret. eauto. }
  destruct (rq_sid r =s ""); [intros [_ [= ->]]%returns_ret; eauto|]. intros ([s|] & tr' & -> & H)%returns_vis.
  - destruct (_ && _); apply returns_ret in H as [_ [=]]. subst. eauto.
  - apply returns_ret in H as [_ [= ->]]. eauto.
Qed.

(** What a request that is answered has gone through: a synthetic tool's
    refusal, the cached answer to an initialize, or one exchange, whose line
    it gets back under its own id. *)
Definition sent_for (msg : gmap string string) (active : option SyntheticTool) (msg' : gmap string string) : Prop :=
  match active with
  | None => msg' = msg
  | Some t => method_of J msg = "tools/call" /\ exists raw name arguments params,
      msg !! "params" = Some raw /\ hj_call J raw = Ok (name, arguments) /\ findSyntheticTool J name = Some t /\
      st_MapArgs t arguments = Ok params /\ msg' = <["params" := params]> (<["method" := hj_quote J (st_UpstreamMethod t)]> msg)
  end.
Lemma request_sent_for msg tr msg' act : runs (TransformRequest J msg) tr (Some (msg', mkAction act None)) -> sent_for msg act msg'.
Proof.
  unfold TransformRequest. destruct (method_of J msg =s "tools/call") eqn:Em; cbn [negb]; [|by intros [_ [= -> ->]]%returns_ret].
  destruct (msg !! "params") as [raw|] eqn:Ep; [|by intros [_ [= -> ->]]%returns_ret].
  destruct (hj_call J raw) as [[name args]|] eqn:Ec; [|by intros [_ [= -> ->]]%returns_ret].
  destruct (findSyntheticTool J name) as [t|] eqn:Ef; [|by intros [_ [= -> ->]]%returns_ret].
  intros (c & tr' & -> & H)%returns_vis. destruct (negb _); [by apply returns_ret in H as [_ [=]]|].
  destruct (st_MapArgs t args) as [params|] eqn:Ea; apply returns_ret in H as [_ [=]]. subst. breflect.
  cbn. split; [done|]. by exists raw, name, args, params.
Qed.
Definition answered_by (msg : gmap string string) (origID : string) (tr : events) (body : string) : Prop :=
  (exists e, body = tool_error_body J origID e /\ muxed tr = []) \/
  (exists c m, method_of J msg = "initialize" /\ Log InitCached (Some c) ∈ tr /\ hj_object J c = Ok (Some m) /\
     body = hj_marshal J (<["id" := origID]> m) /\ muxed tr = []) \/
  (exists id msg' a line active, muxed tr = exchange_trace J id true msg' None a /\ sent_for msg active msg' /\ carries a line /\
     shown_as origID active (method_of J msg) line body).
Lemma transformed_answered msg origID requested tr body sid :
  runs (ITree.bind (TransformRequest J msg) (fun '(msg', action) =>
    match ba_SynthError action with
    | Some e => Ret (JsonResponse (tool_error_body J origID (err_text e)) None)
    | None => forwardRequest J policy msg' (method_of J msg) requested origID (ba_Active action)
    end)) tr (Some (JsonResponse body sid)) -> answered_by msg origID tr body.
Proof.
  intros ([msg' [act e]] & tr1 & tr2 & -> & H1 & H2)%returns_bind. pose proof (request_aside J msg _ _ H1) as Ha. cbn in H2.
  destruct e as [e|]; [|apply request_sent_for in H1].
  - apply returns_ret in H2 as [-> [= -> _]]. left. exists (err_text e). by rewrite muxed_app, (muxed_aside tr1).
  - apply exchange_answered in H2 as [[=]|[(e & [=])|(id & a & tr' & Hm & H2)]]; [|apply conclude_aside].
    apply conclude_restored in H2 as (line & Hc & Hr). right; right. exists id, msg', a, line, act.
    by rewrite muxed_app, (muxed_aside tr1).
Qed.
Lemma post_answered r tr body sid :
  runs (handlePOST J mime policy r) tr (Some (JsonResponse body sid)) ->
  exists text m origID, rq_body r = Body text /\ hj_object J text = Ok m /\ default ∅ m !! "id" = Some origID /\
    answered_by (default ∅ m) origID tr body.
Proof.
  unfold handlePOST. destruct (negb _); [by intros [_ [=]]%returns_ret|]. destruct (rq_body r) as [text| |]; [|by intros [_ [=]]%returns_ret..].
  destruct (hj_object J text) as [m|] eqn:Eo; [|by intros [_ [=]]%returns_ret]. cbv zeta.
  assert (Hm : forall tr0 tr, Forall aside tr0 ->
    runs (handleMessage J policy text (default ∅ m) (method_of J (default ∅ m))) tr (Some (JsonResponse body sid)) ->
    exists origID, default ∅ m !! "id" = Some origID /\ answered_by (default ∅ m) origID (tr0 ++ tr) body).
  { intros tr0 tr' Ha H. unfold handleMessage in H. destruct (default ∅ m !! "id") as [origID|] eqn:Ei; cbv zeta in H.
    2: { apply returns_vis in H as ([?|] & ? & _ & H); by apply returns_ret in H as [_ [=]]. }
    exists origID. split; [done|].
    assert (Hpre : forall tr, answered_by (default ∅ m) origID tr body -> answered_by (default ∅ m) origID (tr0 ++ tr) body).
    { intros tr1 Hb. unfold answered_by. rewrite muxed_app, (muxed_aside tr0) by done. cbn.
      destruct Hb as [?|[(c & mm & ? & ? & ? & ? & ?)|?]]; [by left| |by right; right]. right; left. exists c, mm.
      split_and!; try done. apply elem_of_app. by right. }
    apply Hpre. destruct (method_of J (default ∅ m) =s "initialize") eqn:Em; [|by eapply transformed_answered].
    apply returns_vis in H as ([c|] & tr1 & -> & H).
    - destruct (hj_object J c) as [[mm|]|] eqn:Ec; [|by apply returns_ret in H as [_ [=]]..]. right; left. breflect.
      pose proof (write_aside J policy _ _ _ _ _ H) as Hw. exists c, mm. split; [done|]. split; [left|]. split; [done|]. split.
      + unfold writeStdioJSONResponse in H. rewrite Em in H. cbn in H. destruct (initializeResponseProtocolVersion _ _ _ _);
          [|apply returns_ret in H as [_ [=]]; done..].
        apply returns_vis in H as ([?|?] & ? & -> & H); by apply returns_ret in H as [_ [= <- _]].
      + cbn. by rewrite muxed_aside.
    - apply transformed_answered in H. destruct H as [?|[(c & mm & ? & ? & ?)|?]]; [by left| |by right; right].
      right; left. exists c, mm. split; [done|]. split; [by right|done]. }
  destruct (method_of J (default ∅ m) =s "initialize") eqn:Em.
  - destruct (validateRequestProtocolVersion policy r) as [e|] eqn:Ev.
    { unfold validateRequestProtocolVersion in Ev. case_match; [|done]. injection Ev as <-. by intros [_ [=]]%returns_ret. }
    destruct (negb _); [by intros [_ [=]]%returns_ret|]. intros H. destruct (Hm [] tr) as (origID & ? & ?); [constructor|done|].
    by exists text, m, origID.
  - intros ([s|e] & tr1 & tr2 & -> & H1 & H2)%returns_bind.
    + destruct (Hm tr1 tr2) as (origID & ? & ?); [by eapply session_aside|done|]. by exists text, m, origID.
    + apply returns_ret in H2 as [_ H2]. apply session_refusal in H1 as (c & t & ->). by subst.
Qed.
End Handlers.
