(* ===== verification/HostRuns.v ===== *)
(** * HostRuns: one stdio server under many clients at a time.

    The handlers of [StdioHost] interleaved in every order on one host, while
    the child writes lines, the host stops and the child ends.  What holds
    then of the ids, the slots and the sessions, and whose answer a client
    gets. *)
From S2P Require Import Prelude Lines Trace StdioHost.
From ITree Require Import ITree.
Open Scope Z_scope.

(** ** Lines on a pipe *)
Lemma ends_in_LF_lacks line : lacks LF line = true -> ends_in_LF line = false.
Proof.
  induction line as [|a line IH]; [done|]. cbn [lacks]. intros [Ha Hl]%andb_true_iff.
  destruct line as [|b line]; [by apply negb_true_iff in Ha|]. by apply IH.
Qed.
Lemma stdin_line_lacks line : lacks LF line = true -> stdin_line line = line +:+ String LF "".
Proof. intros H. unfold stdin_line. by rewrite (ends_in_LF_lacks line H). Qed.
Lemma line_feed_inj l l' : l +:+ String LF "" = l' +:+ String LF "" -> l = l'.
Proof.
  revert l'. induction l as [|a l IH]; intros [|b l']; cbn; [done| | |].
  - intros [= _ E]. by destruct l'.
  - intros [= _ E]. by destruct l.
  - intros [= -> E]. f_equal. by apply IH.
Qed.
Lemma concat_cons c cs : String.concat "" (c :: cs) = c +:+ String.concat "" cs.
Proof.
  destruct cs; [|done]. change (c = c +:+ ""). induction c as [|a c IH]; [done|].
  change (String a c = String a (c +:+ "")). by f_equal.
Qed.
Lemma append_assoc_str s t u : (s +:+ t) +:+ u = s +:+ (t +:+ u).
Proof.
  induction s as [|a s IH]; [done|]. change (String a ((s +:+ t) +:+ u) = String a (s +:+ (t +:+ u))). by f_equal.
Qed.
Lemma scan_chunks chunks l :
  (forall c, c ∈ chunks -> exists l, c = l +:+ String LF "" /\ lacks LF l = true) ->
  l ∈ scan_lines (String.concat "" chunks) -> l +:+ String LF "" ∈ chunks.
Proof.
  induction chunks as [|c cs IH]; intros Hc; [by intros ?%not_elem_of_nil|].
  rewrite concat_cons. destruct (Hc c ltac:(left)) as (k & -> & Hk). rewrite append_assoc_str.
  change (String LF "" +:+ String.concat "" cs) with (String LF (String.concat "" cs)). rewrite scan_line by done.
  intros [->|H]%elem_of_cons; [left|]. right. apply IH; [|done]. intros c' ?. apply Hc. by right.
Qed.

(** ** The session table *)
Definition lowest (o : option (string * Z)) (m : list (string * stdioHTTPSession)) : Prop :=
  match o with
  | None => m = []
  | Some (id, q) => (exists s, (id, s) ∈ m /\ q = ss_sequence s) /\ forall row, row ∈ m -> q <= ss_sequence row.2
  end.
Lemma older_lowest o done' row : lowest o done' -> lowest (older o row) (done' ++ [row]).
Proof.
  unfold older. destruct row as [id s]. destruct o as [[id' q]|]; cbn.
  - intros [(s' & Hin & ->) Hall]. destruct (ss_sequence s <? ss_sequence s') eqn:E; [apply Z.ltb_lt in E|apply Z.ltb_ge in E].
    + split; [exists s; set_solver|]. intros row [H%Hall| ->%list_elem_of_singleton]%elem_of_app; cbn; lia.
    + split; [exists s'; set_solver|]. intros row [H%Hall| ->%list_elem_of_singleton]%elem_of_app; cbn; lia.
  - intros ->. split; [exists s; set_solver|]. intros row ->%list_elem_of_singleton. cbn. lia.
Qed.
Lemma oldest_lowest m : lowest (oldestSession m) (map_to_list m).
Proof.
  unfold oldestSession. assert (H : forall rows o done', lowest o done' -> lowest (foldl older o rows) (done' ++ rows)).
  { induction rows as [|row rows IH]; intros o done' Ho; [by rewrite app_nil_r|]. cbn. rewrite cons_middle, app_assoc.
    by apply IH, older_lowest. }
  by apply (H _ None []).
Qed.
Lemma evict_cases m :
  (Z.of_nat (size m) < maxStdioHTTPSessions /\ evictOldest m = m) \/
  (maxStdioHTTPSessions <= Z.of_nat (size m) /\ exists id s, m !! id = Some s /\
     (forall id' s', m !! id' = Some s' -> ss_sequence s <= ss_sequence s') /\ evictOldest m = delete id m).
Proof.
  unfold evictOldest. destruct (maxStdioHTTPSessions <=? Z.of_nat (size m)) eqn:E; [apply Z.leb_le in E|apply Z.leb_gt in E; by left].
  right. split; [done|]. pose proof (oldest_lowest m) as H. destruct (oldestSession m) as [[id q]|]; cbn in H.
  - destruct H as [(s & Hin & ->) Hall]. apply elem_of_map_to_list in Hin. exists id, s. split; [done|]. split; [|done].
    intros id' s' Hs'. apply elem_of_map_to_list in Hs'. by apply (Hall (id', s')).
  - apply map_to_list_empty_iff in H as ->. by vm_compute in E.
Qed.
Lemma attempts_cases draws v h h' x : (h', x) = session_attempts draws v h ->
  (h' = h /\ exists e, x = Err e) \/ exists sid, x = Ok sid /\ h_sessions h !! sid = None /\ h' = addSession sid v h.
Proof.
  induction draws as [|[sid|e] draws IH]; cbn [session_attempts]; [intros [= -> ->]; left; eauto| |intros [= -> ->]; left; eauto].
  case_bool_decide as Hs; [apply IH|]. intros [= -> ->]. right. exists sid. split; [done|]. split; [|done]. by apply eq_None_not_Some.
Qed.
Lemma create_cases draws v h h' x : (h', x) = createSession draws v h ->
  (h' = h /\ exists e, x = Err e) \/ exists sid, x = Ok sid /\ h_sessions h !! sid = None /\ h' = addSession sid v h.
Proof. unfold createSession. destruct (h_stopped h); [intros [= -> ->]; left; eauto|apply attempts_cases]. Qed.

(** Sequences are given once, and there is room. *)
Record table_ok (h : host) : Prop := mkTableOk {
  to_seq : forall sid s, h_sessions h !! sid = Some s -> 1 <= ss_sequence s <= h_nextSessionSeq h;
  to_next : 0 <= h_nextSessionSeq h;
  to_distinct : forall sid sid' s s', h_sessions h !! sid = Some s -> h_sessions h !! sid' = Some s' ->
    ss_sequence s = ss_sequence s' -> sid = sid';
  to_room : Z.of_nat (size (h_sessions h)) <= maxStdioHTTPSessions;
}.
Lemma table_sub h h' : table_ok h -> h_sessions h' ⊆ h_sessions h -> h_nextSessionSeq h' = h_nextSessionSeq h -> table_ok h'.
Proof.
  intros [H1 H2 H3 H4] Hs Hn. assert (Hl : forall sid s, h_sessions h' !! sid = Some s -> h_sessions h !! sid = Some s) by (intros ?? Hx; by eapply lookup_weaken).
  split; rewrite ?Hn; [eauto|done|eauto|]. pose proof (map_subseteq_size _ _ Hs). lia.
Qed.
Lemma evict_subseteq m : evictOldest m ⊆ m.
Proof. destruct (evict_cases m) as [[_ ->]|(_ & id & s & _ & _ & ->)]; [done|apply delete_subseteq]. Qed.
Lemma evict_room m : Z.of_nat (size m) <= maxStdioHTTPSessions -> Z.of_nat (size (evictOldest m)) < maxStdioHTTPSessions.
Proof.
  intros Hm. destruct (evict_cases m) as [[? ->]|(_ & id & s & Hs & _ & ->)]; [done|].
  rewrite map_size_delete, Hs. cbn. assert (size m <> 0)%nat; [|unfold maxStdioHTTPSessions in *; lia].
  intros E%map_size_empty_iff. by subst.
Qed.
Lemma add_table sid v h : table_ok h -> h_sessions h !! sid = None -> table_ok (addSession sid v h).
Proof.
  intros [H1 H2 H3 H4] Hnew. unfold addSession. pose proof (evict_subseteq (h_sessions h)) as Hs.
  assert (Hl : forall id s, evictOldest (h_sessions h) !! id = Some s -> h_sessions h !! id = Some s) by (intros ?? Hx; by eapply lookup_weaken).
  split; cbn.
  - intros id s [[<- <-]|[_ ?%Hl%H1]]%lookup_insert_Some; cbn; lia.
  - lia.
  - intros a b s s' [[<- <-]|[_ Ha%Hl]]%lookup_insert_Some [[<- <-]|[_ Hb%Hl]]%lookup_insert_Some; cbn; [done| | |by eapply H3].
    + apply H1 in Hb. lia.
    + apply H1 in Ha. lia.
  - pose proof (evict_room _ H4). rewrite map_size_insert. case_match; cbn; lia.
Qed.

(** ** Runs *)
Record world := mkWorld { w_host : host; w_output : list string }.
Inductive goroutine :=
| HPost (r : http_request)
| HDelete (r : http_request)
| HSend (body : string)
| HNotify (method : string).
Notation log := (list (nat * ev hostE)).

(** *** The steps on the child, without their types *)
Inductive step :=
| SNext (id : Z)
| SRegister (id : Z) (registered : bool)
| SUnregister (id : Z)
| SWrite (line : string) (failure : option error)
| SAwait (id : Z) (a : awaited).
Definition step_of (l : ev hostE) : option step :=
  match l with
  | Log e x =>
      match e in hostE Y return Y -> option step with
      | NextID => fun id => Some (SNext id)
      | Register id => fun b => Some (SRegister id b)
      | Unregister id => fun _ => Some (SUnregister id)
      | WriteStdin line => fun w => Some (SWrite line w)
      | Await id => fun a => Some (SAwait id a)
      | _ => fun _ => None
      end x
  end.
Definition steps (tr : list (ev hostE)) : list step := omap step_of tr.
Lemma steps_app tr1 tr2 : steps (tr1 ++ tr2) = steps tr1 ++ steps tr2.
Proof. apply omap_app. Qed.
Lemma steps_muxed tr : steps (muxed tr) = steps tr.
Proof.
  unfold steps. induction tr as [|[X e x] tr IH]; [done|].
  destruct e; cbn [muxed List.filter mux]; fold (muxed tr); cbn [omap list_omap step_of]; by rewrite ?IH.
Qed.
Lemma in_steps s tr : s ∈ steps tr <-> exists l, l ∈ tr /\ step_of l = Some s.
Proof. apply list_elem_of_omap. Qed.
Lemma in_steps_await id a tr : SAwait id a ∈ steps tr <-> Log (Await id) a ∈ tr.
Proof.
  rewrite in_steps. split; [|intros H; by exists (Log (Await id) a)]. intros ([X e x] & Hin & H).
  destruct e; try discriminate H. cbn in H. by injection H as -> ->.
Qed.
Lemma in_steps_write line w tr : SWrite line w ∈ steps tr <-> Log (WriteStdin line) w ∈ tr.
Proof.
  rewrite in_steps. split; [|intros H; by exists (Log (WriteStdin line) w)]. intros ([X e x] & Hin & H).
  destruct e; try discriminate H. cbn in H. by injection H as -> ->.
Qed.
Lemma in_steps_register id b tr : SRegister id b ∈ steps tr <-> Log (Register id) b ∈ tr.
Proof.
  rewrite in_steps. split; [|intros H; by exists (Log (Register id) b)]. intros ([X e x] & Hin & H).
  destruct e; try discriminate H. cbn in H. by injection H as -> ->.
Qed.
Lemma in_steps_unregister id tr : SUnregister id ∈ steps tr <-> Log (Unregister id) tt ∈ tr.
Proof.
  rewrite in_steps. split; [|intros H; by exists (Log (Unregister id) tt)]. intros ([X e x] & Hin & H).
  destruct e; try discriminate H. cbn in H. destruct x. by injection H as ->.
Qed.

(** The steps of one exchange. *)
Definition exchange_steps (J : host_json) (id : Z) (b : bool) (msg : gmap string string) (w : option error) (a : awaited) : list step :=
  [SNext id; SRegister id b] ++
  (if b then SWrite (rewrite_id J id msg) w :: (match w with None => [SAwait id a] | Some _ => [] end) ++ [SUnregister id] else []).
Lemma steps_exchange J id b msg w a : steps (exchange_trace J id b msg w a) = exchange_steps J id b msg w a.
Proof. by destruct b, w. Qed.
Lemma steps_prefix tr1 tr2 : tr1 `prefix_of` tr2 -> steps tr1 `prefix_of` steps tr2.
Proof. intros [k ->]. rewrite steps_app. by apply prefix_app_r. Qed.
Inductive stepped (J : host_json) (note : string -> Prop) : list step -> Prop :=
| stepped_note body w : note body -> stepped J note [SWrite body w]
| stepped_exchange id b msg w a ss : ss `prefix_of` exchange_steps J id b msg w a -> stepped J note ss.
Lemma course_stepped J note tr : course J note (muxed tr) -> stepped J note (steps tr).
Proof.
  intros H. rewrite <- steps_muxed. destruct H as [body w H|id b msg w a tr' H]; [by apply stepped_note|].
  apply (stepped_exchange J note id b msg w a). rewrite <- steps_exchange. by apply steps_prefix.
Qed.

(** How far a handler has come. *)
Inductive stage (J : host_json) (note : string -> Prop) : list step -> Prop :=
| stage_note body w : note body -> stage J note [SWrite body w]
| stage_0 : stage J note []
| stage_1 id : stage J note [SNext id]
| stage_2 id b : stage J note [SNext id; SRegister id b]
| stage_3 id msg w : stage J note [SNext id; SRegister id true; SWrite (rewrite_id J id msg) w]
| stage_4 id msg a : stage J note [SNext id; SRegister id true; SWrite (rewrite_id J id msg) None; SAwait id a]
| stage_5 id msg e : stage J note [SNext id; SRegister id true; SWrite (rewrite_id J id msg) (Some e); SUnregister id]
| stage_6 id msg a : stage J note [SNext id; SRegister id true; SWrite (rewrite_id J id msg) None; SAwait id a; SUnregister id].
Lemma stepped_stage J note ss : stepped J note ss -> stage J note ss.
Proof.
  intros [body w H|id b msg w a ss' [k Hk]]; [by constructor|]. unfold exchange_steps in Hk.
  destruct b, w; cbn in Hk; repeat (destruct ss' as [|? ss']; [by constructor|]; cbn in Hk; injection Hk as <- Hk); try by constructor.
  all: destruct ss'; [by constructor|discriminate].
Qed.

Section Stages.
Context {J : host_json} {note : string -> Prop} {ss : list step} (H : stage J note ss).
Ltac stages := destruct H; set_unfold; naive_solver.
Lemma stage_one_id id id' : SNext id ∈ ss -> SNext id' ∈ ss -> id = id'.
Proof. stages. Qed.
Lemma stage_register id b : SRegister id b ∈ ss -> SNext id ∈ ss.
Proof. stages. Qed.
Lemma stage_await id a : SAwait id a ∈ ss -> SNext id ∈ ss /\ SRegister id true ∈ ss /\ exists msg, SWrite (rewrite_id J id msg) None ∈ ss.
Proof. stages. Qed.
Lemma stage_write line w : SWrite line w ∈ ss -> note line \/ exists id msg, line = rewrite_id J id msg /\ SNext id ∈ ss /\ SRegister id true ∈ ss.
Proof. stages. Qed.
Lemma stage_unregister id : SUnregister id ∈ ss -> SRegister id true ∈ ss.
Proof. stages. Qed.
Lemma stage_register_fresh ss' id b : ss = ss' ++ [SRegister id b] -> SUnregister id ∉ ss'.
Proof.
  intros E. destruct H as [? ? ?| | | | | | | ]; destruct ss' as [|? [|? [|? [|? [|? [|? ?]]]]]]; try discriminate E;
    injection E as; subst; set_unfold; naive_solver.
Qed.
Lemma stage_one_write line line' w w' : SWrite line w ∈ ss -> SWrite line' w' ∈ ss -> line = line'.
Proof. stages. Qed.
End Stages.

Section Runs.
Context (J : host_json) (mime : string -> res string) (policy : ProtocolCompatibilityPolicy).
(** What the child may write next, by what it has been sent and has written. *)
Context (child : list string -> list string -> string -> Prop).
Variable gs : nat -> goroutine.

Definition host_runs (g : goroutine) (tr : list (ev hostE)) : Prop :=
  match g with
  | HPost r => exists o, runs (handlePOST J mime policy r) tr o
  | HDelete r => exists o, runs (handleDELETE policy r) tr o
  | HSend body => exists o, runs (SendRPC J body) tr o
  | HNotify method => exists o, runs (SendNotification J method) tr o
  end.

(** What a step finds and leaves.  A line in a channel is taken out of it by
    the wait it ends; a client may leave and time may run out whenever. *)
Definition host_answers (h : host) (l : ev hostE) (h' : host) : Prop :=
  match l with
  | Log e x =>
      match e in hostE Y return Y -> Prop with
      | LookupSession sid => fun x => x = h_sessions h !! sid /\ h' = h
      | InitCached => fun x => x = h_initCached h /\ h' = h
      | NextID => fun x => (h', x) = nextID h
      | Register id => fun x => (h', x) = registerPending id h
      | Unregister id => fun _ => h' = unregisterPending id h
      | WriteStdin line => fun x => h' = match x with None => writeStdin line h | Some _ => h end
      | Await id => fun x =>
          match x with
          | Received line => h_pending h !! id = Some (Some line) /\ h' = h <| h_pending ::= insert id None |>
          | Shutdown late => h_stopped h = true /\ h_pending h !! id = Some late /\ h' = h
          | Exited late => h_childExited h = true /\ h_pending h !! id = Some late /\ h' = h
          | Canceled | TimedOut => h' = h
          end
      | Cache body => fun _ => h' = CacheInitialize J body h
      | CreateSession v => fun x => exists draws, (h', x) = createSession draws v h
      | DeleteSession sid => fun _ => h' = deleteSession sid h
      | Poll => fun x => (x = None -> h_stopped h = false /\ h_childExited h = false) /\ h' = h
      end x
  end.

Inductive host_run : log -> world -> Prop :=
| host_start : host_run [] (mkWorld NewStdioHost [])
| host_step past h out i l h' :
    host_run past (mkWorld h out) -> host_runs (gs i) (own i (past ++ [(i, l)])) -> host_answers h l h' ->
    host_run (past ++ [(i, l)]) (mkWorld h' out)
| host_line past h out line :
    host_run past (mkWorld h out) -> child (h_stdin h) out line -> host_run past (mkWorld (dispatchLine J line h) (out ++ [line]))
| host_stop past h out : host_run past (mkWorld h out) -> host_run past (mkWorld (stopHost h) out)
| host_exit past h out : host_run past (mkWorld h out) -> host_run past (mkWorld (childExit h) out).

(** ** The course of each handler *)

(** Texts that are sent as they come: they have no id. *)
Definition note_of (i : nat) (line : string) : Prop :=
  match gs i with
  | HPost r => exists m, rq_body r = Body line /\ hj_object J line = Ok m /\ default ∅ m !! "id" = None
  | HNotify method => line = hj_notification J method
  | _ => False
  end.
Lemma host_course past w i : host_run past w -> course J (note_of i) (muxed (own i past)).
Proof.
  induction 1 as [|past h out j l h' _ IH Hown Ha| | |]; try done; [apply course_nil|].
  destruct (decide (j = i)) as [->|Hne]; [|rewrite own_snoc, decide_False, app_nil_r by done; apply IH].
  unfold host_runs in Hown. unfold note_of in *. destruct (gs i) as [r|r|body|method]; destruct Hown as [o Ho].
  - eapply post_on_course; [|exact Ho]. intros body m Hb Hm Hi. eauto.
  - eapply on_course_aside; [apply delete_aside|exact Ho].
  - eapply sendrpc_on_course. exact Ho.
  - unfold SendNotification in Ho. apply runs_vis in Ho as [[-> _]|(x & tr & -> & Ho)]; [apply course_nil|]. cbn.
    destruct x; [apply runs_ret in Ho as [-> _]; apply course_nil|].
    apply runs_vis in Ho as [[-> _]|(y & tr' & -> & Ho)]; [apply course_nil|]. apply runs_ret in Ho as [-> _]. by apply course_note.
Qed.
Definition own_steps (i : nat) (past : log) : list step := steps (own i past).
Lemma host_stage past w i : host_run past w -> stage J (note_of i) (own_steps i past).
Proof. intros H. by eapply stepped_stage, course_stepped, host_course. Qed.
Lemma own_steps_snoc i past j l :
  own_steps i (past ++ [(j, l)]) = own_steps i past ++ (if decide (j = i) then option_list (step_of l) else []).
Proof.
  unfold own_steps. rewrite own_snoc, steps_app. f_equal. case_decide; [|done]. unfold steps. cbn. by destruct (step_of l).
Qed.
Lemma in_snoc s i past j l :
  s ∈ own_steps i (past ++ [(j, l)]) <-> s ∈ own_steps i past \/ (j = i /\ step_of l = Some s).
Proof.
  rewrite own_steps_snoc, elem_of_app. case_decide as E; [|set_solver]. destruct (step_of l); cbn; set_solver.
Qed.
Lemma in_snoc_mono s i past x : s ∈ own_steps i past -> s ∈ own_steps i (past ++ [x]).
Proof. destruct x. rewrite in_snoc. by left. Qed.

(** *** The invariant of the ids and the slots *)
Record host_ok (past : log) (w : world) : Prop := mkHostOk {
  ho_ids : forall i id, SNext id ∈ own_steps i past -> 1 <= id <= h_nextInternalID (w_host w);
  ho_next : 0 <= h_nextInternalID (w_host w);
  ho_unique : forall i j id, SNext id ∈ own_steps i past -> SNext id ∈ own_steps j past -> i = j;
  ho_slots : forall id, is_Some (h_pending (w_host w) !! id) <->
    exists i, SRegister id true ∈ own_steps i past /\ SUnregister id ∉ own_steps i past;
  ho_room : Z.of_nat (size (h_pending (w_host w))) <= maxPendingRequests;
  ho_stdin : forall chunk, chunk ∈ h_stdin (w_host w) -> exists i line, chunk = stdin_line line /\ SWrite line None ∈ own_steps i past;
}.
(** What a step that is none of the handlers' own changes is only what the
    channels hold. *)
Definition same_slots (h h' : host) : Prop :=
  h_nextInternalID h' = h_nextInternalID h /\ dom (h_pending h') = dom (h_pending h) /\ h_stdin h' = h_stdin h.
Lemma same_slots_ok past h h' out out' : host_ok past (mkWorld h out) -> same_slots h h' -> host_ok past (mkWorld h' out').
Proof.
  intros [H1 H2 H3 H4 H5 H6] (E1 & E2 & E3). split; cbn in *; rewrite ?E1, ?E3; try done.
  - intros id. rewrite <- H4. rewrite <- !elem_of_dom. by rewrite E2.
  - rewrite <- size_dom, E2, size_dom. done.
Qed.
Lemma insert_dom_old {V} (m : gmap Z V) id v : is_Some (m !! id) -> dom (<[id := v]> m) = dom m.
Proof. intros H. rewrite dom_insert_L. apply elem_of_dom in H. set_solver. Qed.
Lemma dispatch_same h line : same_slots h (dispatchLine J line h).
Proof.
  unfold dispatchLine. destruct (hj_peek J line) as [[rid m]|]; [|done]. destruct (rid =s ""); [done|]. destruct (hj_int64 J rid) as [id|]; [|done].
  destruct (h_pending h !! id) as [[?|]|] eqn:E; [done| |done]. split_and!; try done. cbn. apply insert_dom_old. by rewrite E.
Qed.
Lemma cache_same h b : same_slots h (CacheInitialize J b h).
Proof. unfold CacheInitialize. repeat case_match; done. Qed.
Lemma attempts_same draws v h : same_slots h (session_attempts draws v h).1.
Proof. induction draws as [|[sid|e] draws IH]; cbn [session_attempts]; [done| |done]. by case_bool_decide. Qed.
Lemma create_same draws v h : same_slots h (createSession draws v h).1.
Proof. unfold createSession. destruct (h_stopped h); [done|apply attempts_same]. Qed.

(** A step that is no step on the child leaves the steps as they are. *)
Lemma quiet_ok past h h' out i l :
  host_ok past (mkWorld h out) -> step_of l = None -> same_slots h h' -> host_ok (past ++ [(i, l)]) (mkWorld h' out).
Proof.
  intros Hok Hl Hs. apply (same_slots_ok past h h' out out) in Hok; [|done].
  assert (E : forall j, own_steps j (past ++ [(i, l)]) = own_steps j past).
  { intros j. rewrite own_steps_snoc, Hl. case_decide; apply app_nil_r. }
  destruct Hok as [H1 H2 H3 H4 H5 H6]. split; try setoid_rewrite E; try done.
Qed.
Lemma next_ok past h out i id :
  host_ok past (mkWorld h out) -> id = h_nextInternalID h + 1 ->
  host_ok (past ++ [(i, Log NextID id)]) (mkWorld (h <| h_nextInternalID := id |>) out).
Proof.
  intros [H1 H2 H3 H4 H5 H6] ->. cbn in *. split; cbn; try done; try lia.
  - intros j id'. rewrite in_snoc. intros [H|(_ & [= <-])]; [apply H1 in H|]; lia.
  - intros a b id'. rewrite !in_snoc. intros [Ha|(<- & [= <-])] [Hb|(<- & E)]; try done; [by eapply H3| |].
    + cbn in E. injection E as <-. apply H1 in Ha. lia.
    + apply H1 in Hb. lia.
  - intros id'. rewrite H4. setoid_rewrite in_snoc. split; intros (j & Ha & Hb); exists j; naive_solver.
  - intros c Hc. apply H6 in Hc as (j & line & -> & Hw). exists j, line. split; [done|]. by apply in_snoc_mono.
Qed.
Lemma register_ok past h out i id :
  host_ok past (mkWorld h out) -> SNext id ∈ own_steps i past -> SUnregister id ∉ own_steps i past ->
  host_ok (past ++ [(i, Log (Register id) (registerPending id h).2)]) (mkWorld (registerPending id h).1 out).
Proof.
  intros [H1 H2 H3 H4 H5 H6] Hn Hu. unfold registerPending. cbn in *.
  assert (Hs : forall x j s, s ∈ own_steps j (past ++ [(i, Log (Register id) x)]) <-> s ∈ own_steps j past \/ (i = j /\ s = SRegister id x)).
  { intros x j s. rewrite in_snoc. cbn. naive_solver. }
  assert (Hids : forall x j id', SNext id' ∈ own_steps j (past ++ [(i, Log (Register id) x)]) -> SNext id' ∈ own_steps j past).
  { intros x j id'. rewrite Hs. by intros [?|(_ & [=])]. }
  assert (Hin : forall x c, c ∈ h_stdin h -> exists j line, c = stdin_line line /\ SWrite line None ∈ own_steps j (past ++ [(i, Log (Register id) x)])).
  { intros x c (j & line & -> & Hw)%H6. exists j, line. split; [done|]. apply Hs. by left. }
  destruct (maxPendingRequests <=? Z.of_nat (size (h_pending h))) eqn:Em.
  - split; cbn; try done; [by intros j id' ?%Hids; eapply H1|by intros a b id' ?%Hids ?%Hids; eapply H3| |by apply Hin].
    intros id'. rewrite H4. setoid_rewrite Hs. split; intros (j & Ha & Hb); exists j; naive_solver.
  - apply Z.leb_gt in Em. split; cbn; try done; [by intros j id' ?%Hids; eapply H1|by intros a b id' ?%Hids ?%Hids; eapply H3| | |by apply Hin].
    + intros id'. destruct (decide (id' = id)) as [->|Hne].
      * rewrite lookup_insert_eq. split; [|by eauto]. intros _. exists i. rewrite !Hs. split; [by right|].
        intros [?|(_ & [=])]. done.
      * rewrite lookup_insert_ne by done. rewrite H4. setoid_rewrite Hs. split; intros (j & Ha & Hb); exists j; naive_solver.
    + rewrite map_size_insert. case_match; cbn; lia.
Qed.
Lemma unregister_ok past h out i id :
  host_ok past (mkWorld h out) -> SNext id ∈ own_steps i past -> (forall j, SRegister id true ∈ own_steps j past -> SNext id ∈ own_steps j past) ->
  host_ok (past ++ [(i, Log (Unregister id) tt)]) (mkWorld (unregisterPending id h) out).
Proof.
  intros [H1 H2 H3 H4 H5 H6] Hn Hr. unfold unregisterPending. cbn in *. split; cbn; try done.
  - intros j id'. rewrite in_snoc. intros [H|(_ & [=])]. by eapply H1.
  - intros a b id'. rewrite !in_snoc. intros [Ha|(_ & [=])] [Hb|(_ & [=])]. by eapply H3.
  - intros id'. destruct (decide (id' = id)) as [->|Hne].
    + rewrite lookup_delete_eq. split; [by intros []|]. intros (j & Ha & Hb). exfalso. apply Hb. rewrite in_snoc in Ha |- *.
      destruct Ha as [Ha|(_ & [=])]. right. split; [|done]. eapply H3; [exact Hn|by apply Hr].
    + rewrite lookup_delete_ne by done. rewrite H4. setoid_rewrite in_snoc. split; intros (j & Ha & Hb); exists j.
      * split; [by left|]. intros [?|(_ & [= ?])]; [done|congruence].
      * destruct Ha as [Ha|(_ & [=])]. split; [done|]. naive_solver.
  - rewrite map_size_delete. case_match; cbn; lia.
  - intros c Hc. apply H6 in Hc as (j & line & -> & Hw). exists j, line. split; [done|]. by apply in_snoc_mono.
Qed.
Lemma writing_ok past h out i line w :
  host_ok past (mkWorld h out) ->
  host_ok (past ++ [(i, Log (WriteStdin line) w)]) (mkWorld (match w with None => writeStdin line h | Some _ => h end) out).
Proof.
  intros [H1 H2 H3 H4 H5 H6]. cbn in *.
  assert (Hs : forall j s, s ∈ own_steps j (past ++ [(i, Log (WriteStdin line) w)]) <-> s ∈ own_steps j past \/ (i = j /\ s = SWrite line w)).
  { intros j s. rewrite in_snoc. cbn. naive_solver. }
  assert (E : h_nextInternalID (match w with None => writeStdin line h | Some _ => h end) = h_nextInternalID h /\
              h_pending (match w with None => writeStdin line h | Some _ => h end) = h_pending h) by (by destruct w).
  destruct E as [E1 E2]. split; cbn; rewrite ?E1, ?E2; try done.
  - intros j id'. rewrite Hs. intros [H|(_ & [=])]. by eapply H1.
  - intros a b id'. rewrite !Hs. intros [Ha|(_ & [=])] [Hb|(_ & [=])]. by eapply H3.
  - intros id'. rewrite H4. setoid_rewrite Hs. split; intros (j & Ha & Hb); exists j; naive_solver.
  - destruct w as [e|]; cbn; [intros c Hc; apply H6 in Hc as (j & l & -> & Hw); exists j, l; split; [done|]; apply Hs; by left|].
    intros c [Hc|Hc%list_elem_of_singleton]%elem_of_app.
    + apply H6 in Hc as (j & l & -> & Hw). exists j, l. split; [done|]. apply Hs. by left.
    + exists i, line. split; [done|]. apply Hs. by right.
Qed.
Lemma awaiting_ok past h h' out i id a :
  host_ok past (mkWorld h out) -> same_slots h h' -> host_ok (past ++ [(i, Log (Await id) a)]) (mkWorld h' out).
Proof.
  intros Hok Hs. apply (same_slots_ok past h h' out out) in Hok; [|done]. destruct Hok as [H1 H2 H3 H4 H5 H6]. split; cbn in *; try done.
  - intros j id'. rewrite in_snoc. intros [H|(_ & [=])]. by eapply H1.
  - intros x y id'. rewrite !in_snoc. intros [Ha|(_ & [=])] [Hb|(_ & [=])]. by eapply H3.
  - intros id'. rewrite H4. setoid_rewrite in_snoc. split; intros (j & Ha & Hb); exists j; naive_solver.
  - intros c Hc. apply H6 in Hc as (j & line & -> & Hw). exists j, line. split; [done|]. by apply in_snoc_mono.
Qed.
Lemma host_run_ok past w : host_run past w -> host_ok past w.
Proof.
  induction 1 as [|past h out i l h' Hrun IH Hown Ha|past h out line _ IH _|past h out _ IH|past h out _ IH].
  - split; cbn; try done; try (intros; by apply not_elem_of_nil in H). intros id. rewrite lookup_empty.
    split; [by intros []|]. intros (i & H & _). by apply not_elem_of_nil in H.
  - assert (Hst : stage J (note_of i) (own_steps i (past ++ [(i, l)]))) by (eapply host_stage, host_step; done).
    assert (Hall : forall j, stage J (note_of j) (own_steps j past)) by (intros j; by eapply host_stage).
    assert (Hnew : forall s, step_of l = Some s -> s ∈ own_steps i (past ++ [(i, l)])) by (intros s Hs; apply in_snoc; by right).
    assert (Hold : forall s, s ∈ own_steps i (past ++ [(i, l)]) -> step_of l <> Some s -> s ∈ own_steps i past).
    { intros s [?|[_ ?]]%in_snoc ?; done. }
    destruct l as [X e x]; destruct e; cbn in Ha.
    + destruct Ha as [_ ->]. by eapply quiet_ok.
    + destruct Ha as [_ ->]. by eapply quiet_ok.
    + unfold nextID in Ha. injection Ha as -> ->. by apply next_ok.
    + pose proof (stage_register Hst id x (Hnew _ eq_refl)) as Hn. apply Hold in Hn; [|done].
      assert (Hu : SUnregister id ∉ own_steps i past).
      { apply (stage_register_fresh Hst _ id x). by rewrite own_steps_snoc, decide_True. }
      pose proof (register_ok past h out i id IH Hn Hu) as Hok. rewrite <- Ha in Hok. exact Hok.
    + pose proof (stage_unregister Hst id (Hnew _ eq_refl)) as Hr. apply Hold in Hr; [|done]. subst h'. destruct x.
      apply unregister_ok; [done|by eapply (stage_register (Hall i))|]. intros j Hj. by eapply (stage_register (Hall j)).
    + subst h'. by apply writing_ok.
    + apply awaiting_ok with h; [done|]. destruct x as [line|late|late| |]; try (by subst h').
      * destruct Ha as [Hp ->]. split_and!; try done. cbn. apply insert_dom_old. by rewrite Hp.
      * by destruct Ha as (_ & _ & ->).
      * by destruct Ha as (_ & _ & ->).
    + subst h'. eapply quiet_ok; [done|done|apply cache_same].
    + destruct Ha as [draws Ha]. eapply quiet_ok; [done|done|]. pose proof (create_same draws protocolVersion h) as Hc. by rewrite <- Ha in Hc.
    + subst h'. by eapply quiet_ok.
    + destruct Ha as [_ ->]. by eapply quiet_ok.
  - eapply same_slots_ok; [done|apply dispatch_same].
  - by eapply same_slots_ok.
  - by eapply same_slots_ok.
Qed.


(** *** Whose line it is *)

(** What JSON's library is known for: a decoded map is the encoded one but
    for white space, an encoded one is a single line, and numbers are read
    as they are written. *)
Record json_laws (compact : string -> string) : Prop := mkLaws {
  jl_object : forall m, hj_object J (hj_marshal J m) = Ok (Some (compact <$> m));
  jl_number : forall n, compact (hj_itoa J n) = hj_itoa J n;
  jl_int64 : forall n z, hj_int64 J (hj_itoa J n) = Ok z -> z = n;
  jl_itoa : forall n n', hj_itoa J n = hj_itoa J n' -> n = n';
  jl_line : forall m, lacks LF (hj_marshal J m) = true;
  jl_notification : forall method, lacks LF (hj_notification J method) = true /\
    exists m, hj_object J (hj_notification J method) = Ok (Some m) /\ m !! "id" = None;
}.
(** A child that writes a response with a number for an id only as the reply
    to a line it was sent with that id.  What it asks of its own accord may
    have any id. *)
Definition disciplined (replies : string -> string -> Prop) : Prop :=
  forall stdin out line rid n, child stdin out line ->
    hj_peek J line = Ok (rid, "") -> rid <> "" -> hj_int64 J rid = Ok n ->
    exists request m raw, request ∈ scan_lines (String.concat "" stdin) /\ hj_object J request = Ok (Some m) /\
      m !! "id" = Some raw /\ hj_int64 J raw = Ok n /\ replies request line.
(** A request or notification of the child's own that has the number: the
    host does not tell it from a reply. *)
Definition own_request (id : Z) (line : string) : Prop :=
  exists rid method, hj_peek J line = Ok (rid, method) /\ method <> "" /\ hj_int64 J rid = Ok id.
(** Clients whose notifications are single lines. *)
Definition single_lines : Prop :=
  forall i r body m, gs i = HPost r -> rq_body r = Body body -> hj_object J body = Ok m -> default ∅ m !! "id" = None ->
    lacks LF body = true.

Section Correlation.
Context (compact : string -> string) (replies : string -> string -> Prop).
Context (Hlaws : json_laws compact) (Hchild : disciplined replies) (Hlines : single_lines).

Lemma rewrite_id_parsed id msg : exists m, hj_object J (rewrite_id J id msg) = Ok (Some m) /\ m !! "id" = Some (hj_itoa J id).
Proof.
  unfold rewrite_id. eexists. split; [apply (jl_object _ Hlaws)|].
  by rewrite lookup_fmap, lookup_insert_eq; cbn; rewrite (jl_number _ Hlaws).
Qed.
Lemma rewrite_id_inj id id' msg msg' : rewrite_id J id msg = rewrite_id J id' msg' -> id = id'.
Proof.
  intros E. destruct (rewrite_id_parsed id msg) as (m & Hm & Hi), (rewrite_id_parsed id' msg') as (m' & Hm' & Hi').
  rewrite E, Hm' in Hm. injection Hm as ->. rewrite Hi in Hi'. injection Hi' as E'. by eapply jl_itoa in E'.
Qed.
Lemma note_line i line : note_of i line -> lacks LF line = true /\ forall m, hj_object J line = Ok (Some m) -> m !! "id" = None.
Proof.
  unfold note_of. destruct (gs i) as [r|r|body|method] eqn:Eg; [|done..|].
  - intros (m & Hb & Ho & Hi). split; [by eapply Hlines|]. intros m' Hm'. rewrite Ho in Hm'. by injection Hm' as ->.
  - intros ->. destruct (jl_notification _ Hlaws method) as (Hl & m & Hm & Hi). split; [done|].
    intros m' Hm'. rewrite Hm in Hm'. by injection Hm' as ->.
Qed.
Lemma write_line past w i line x : host_run past w -> SWrite line x ∈ own_steps i past ->
  lacks LF line = true /\ forall m raw, hj_object J line = Ok (Some m) -> m !! "id" = Some raw ->
    exists id msg, line = rewrite_id J id msg /\ raw = hj_itoa J id.
Proof.
  intros Hrun Hw. apply (stage_write (host_stage _ _ i Hrun)) in Hw as [[Hl Hn]%note_line|(id & msg & -> & _)].
  - split; [done|]. intros m raw Hm Hr. rewrite (Hn m Hm) in Hr. done.
  - split; [apply (jl_line _ Hlaws)|]. intros m raw Hm Hr. exists id, msg. split; [done|].
    destruct (rewrite_id_parsed id msg) as (m' & Hm' & Hi). rewrite Hm in Hm'. injection Hm' as <-. rewrite Hr in Hi. by injection Hi.
Qed.

(** The line came in reply to the request that has the id, or is a request
    of the child's own with the same id. *)
Definition served (past : log) (id : Z) (line : string) : Prop :=
  (exists j msg, SWrite (rewrite_id J id msg) None ∈ own_steps j past /\ replies (rewrite_id J id msg) line) \/ own_request id line.
Lemma served_mono past x id line : served past id line -> served (past ++ [x]) id line.
Proof. intros [(j & msg & H & ?)|?]; [left; exists j, msg; split; [by apply in_snoc_mono|done]|by right]. Qed.
Record lines_ok (past : log) (w : world) : Prop := mkLinesOk {
  lo_slots : forall id line, h_pending (w_host w) !! id = Some (Some line) -> served past id line;
  lo_waits : forall i id a line, SAwait id a ∈ own_steps i past -> carries a line -> served past id line;
}.
Lemma answers_no_new_line h l h' id line :
  host_answers h l h' -> h_pending h' !! id = Some (Some line) -> h_pending h !! id = Some (Some line).
Proof.
  destruct l as [X e x]; destruct e; cbn.
  - by intros [_ ->].
  - by intros [_ ->].
  - unfold nextID. by intros [= -> _].
  - unfold registerPending. case_match; intros [= -> _]; [done|]. cbn. by intros [[_ [=]]|[_ ?]]%lookup_insert_Some.
  - intros ->. cbn. by intros [_ ?]%lookup_delete_Some.
  - intros ->. by destruct x.
  - destruct x; [intros [_ ->]; cbn; by intros [[_ [=]]|[_ ?]]%lookup_insert_Some|by intros (_ & _ & ->)|by intros (_ & _ & ->)|by intros ->|by intros ->].
  - intros ->. unfold CacheInitialize. by repeat case_match.
  - intros [draws Hd]. assert (E : h' = (createSession draws protocolVersion h).1) by (by rewrite <- Hd). rewrite E.
    unfold createSession. destruct (h_stopped h); [done|]. generalize (take 4 draws). clear. intros draws.
    induction draws as [|[sid|e] draws IH]; cbn [session_attempts]; [done| |done]. by case_bool_decide.
  - by intros ->.
  - by intros [_ ->].
Qed.
Lemma answers_carry h id a h' line : host_answers h (Log (Await id) a) h' -> carries a line -> h_pending h !! id = Some (Some line).
Proof. cbn. intros H [-> | [-> | ->]]; cbn in H; by destruct_and?. Qed.
Lemma dispatched past h out line : host_run past (mkWorld h out) -> child (h_stdin h) out line ->
  forall id l, h_pending (dispatchLine J line h) !! id = Some (Some l) -> h_pending h !! id = Some (Some l) \/ (l = line /\ served past id line).
Proof.
  intros Hrun Hc id l. unfold dispatchLine. destruct (hj_peek J line) as [[rid method]|] eqn:Ep; [|by left].
  destruct (rid =s "") eqn:Er; [by left|]. destruct (hj_int64 J rid) as [n|] eqn:En; [|by left].
  destruct (h_pending h !! n) as [[?|]|] eqn:Es; [by left| |by left]. cbn.
  intros [[<- [= <-]]|[_ ?]]%lookup_insert_Some; [right|by left]. split; [done|]. breflect.
  destruct (decide (method = "")) as [->|Hm]; [left|by right; exists rid, method].
  destruct (Hchild _ _ _ _ _ Hc Ep Er En) as (req & m & raw & Hr & Ho & Hi & Hz & Hrep).
  pose proof (host_run_ok _ _ Hrun) as [_ _ _ _ _ Hin]. cbn in Hin.
  assert (Hall : forall c, c ∈ h_stdin h -> exists i l, c = l +:+ String LF "" /\ lacks LF l = true /\ SWrite l None ∈ own_steps i past).
  { intros c (i & l' & -> & Hw)%Hin. exists i, l'. destruct (write_line _ _ _ _ _ Hrun Hw) as [Hl _].
    split; [by apply stdin_line_lacks|done]. }
  apply scan_chunks in Hr; [|intros c (i & l' & -> & ? & _)%Hall; by exists l']. apply Hall in Hr as (i & l' & Heq & _ & Hw).
  apply line_feed_inj in Heq as <-. destruct (write_line _ _ _ _ _ Hrun Hw) as [_ Hid]. destruct (Hid _ _ Ho Hi) as (id & msg & -> & ->).
  apply (jl_int64 _ Hlaws) in Hz as ->. by exists i, msg.
Qed.
Lemma host_run_lines past w : host_run past w -> lines_ok past w.
Proof.
  induction 1 as [|past h out i l h' Hrun [IH1 IH2] _ Ha|past h out line Hrun [IH1 IH2] Hc|past h out _ [IH1 IH2]|past h out _ [IH1 IH2]].
  - split; cbn; [intros id line; by rewrite lookup_empty|intros i id a line H; by apply not_elem_of_nil in H].
  - split; cbn in *.
    + intros id line H. eapply answers_no_new_line in H; [|done]. by apply served_mono, IH1.
    + intros j id a line [H|[-> H]]%in_snoc Hca; [by eapply served_mono, IH2|].
      destruct l as [X e x]; destruct e; try discriminate H. cbn in H. injection H as -> ->.
      eapply served_mono, IH1. by eapply answers_carry.
  - split; cbn in *; [|done]. intros id l Hl. by eapply dispatched in Hl as [?|[-> ?]]; [apply IH1| |done..].
  - split; cbn in *; done.
  - split; cbn in *; done.
Qed.
(** It is the request of the handler that waited. *)
Lemma own_reply past w i id a line : host_run past w -> SAwait id a ∈ own_steps i past -> carries a line ->
  exists msg, SWrite (rewrite_id J id msg) None ∈ own_steps i past /\ (replies (rewrite_id J id msg) line \/ own_request id line).
Proof.
  intros Hrun Ha Hc. pose proof (stage_await (host_stage _ _ i Hrun) _ _ Ha) as (Hn & _ & msg0 & Hw0).
  destruct (lo_waits _ _ (host_run_lines _ _ Hrun) _ _ _ _ Ha Hc) as [(j & msg & Hw & Hr)|Hown]; [|by exists msg0; split; [|right]].
  assert (Hj : SNext id ∈ own_steps j past).
  { pose proof (stage_write (host_stage _ _ j Hrun) _ _ Hw) as [Hnote|(id' & msg' & E & Hn' & _)].
    - apply note_line in Hnote as [_ Hnote]. destruct (rewrite_id_parsed id msg) as (m & Hm & Hi). by rewrite (Hnote m Hm) in Hi.
    - by apply rewrite_id_inj in E as ->. }
  assert (j = i) as -> by (by eapply (ho_unique _ _ (host_run_ok _ _ Hrun))). by exists msg; split; [|left].
Qed.
End Correlation.

(** *** Sessions *)

(** The session was created as it is and not deleted since. *)
Definition live (past : log) (sid v : string) : Prop :=
  exists before j after, past = before ++ (j, Log (CreateSession v) (Ok sid)) :: after /\
    forall k u, (k, Log (DeleteSession sid) u) ∉ after.
Lemma live_mono past sid v k l : live past sid v -> (forall u, l <> Log (DeleteSession sid) u) -> live (past ++ [(k, l)]) sid v.
Proof.
  intros (b & j & a & -> & H) Hl. exists b, j, (a ++ [(k, l)]). rewrite <- app_assoc. split; [done|].
  intros k' u [?|E%list_elem_of_singleton]%elem_of_app; [by eapply H|]. injection E as -> <-. by eapply Hl.
Qed.
Lemma live_new past j v sid : live (past ++ [(j, Log (CreateSession v) (Ok sid))]) sid v.
Proof. exists past, j, []. split; [done|]. intros k u. apply not_elem_of_nil. Qed.
Definition sessions_ok (past : log) (h : host) : Prop :=
  table_ok h /\ forall sid s, h_sessions h !! sid = Some s -> live past sid (ss_protocolVersion s).
Lemma sessions_same past h h' : sessions_ok past h -> h_sessions h' ⊆ h_sessions h -> h_nextSessionSeq h' = h_nextSessionSeq h -> sessions_ok past h'.
Proof. intros [H1 H2] Hs Hn. split; [by eapply table_sub|]. intros sid s Hl. apply H2. by eapply lookup_weaken. Qed.
(** Only two steps are on the table. *)
Lemma answers_table h l h' : host_answers h l h' ->
  (h_sessions h' = h_sessions h /\ h_nextSessionSeq h' = h_nextSessionSeq h /\ (forall sid u, l <> Log (DeleteSession sid) u)) \/
  (exists sid u, l = Log (DeleteSession sid) u /\ h' = deleteSession sid h) \/
  (exists v sid, l = Log (CreateSession v) (Ok sid) /\ h_sessions h !! sid = None /\ h' = addSession sid v h).
Proof.
  destruct l as [X e x]; destruct e; cbn; intros Ha.
  - left. by destruct Ha as [_ ->].
  - left. by destruct Ha as [_ ->].
  - left. unfold nextID in Ha. injection Ha as -> ->. done.
  - left. unfold registerPending in Ha. case_match; by injection Ha as -> ->.
  - left. by subst.
  - left. subst. by destruct x.
  - left. destruct x; [by destruct Ha as [_ ->]|by destruct Ha as (_ & _ & ->)|by destruct Ha as (_ & _ & ->)|by subst|by subst].
  - left. subst. unfold CacheInitialize. by repeat case_match.
  - destruct Ha as [draws [[-> [e ->]]|(sid & -> & Hn & ->)]%create_cases]; [by left|]. right; right. by exists protocolVersion, sid.
  - right; left. subst. by exists sid, x.
  - left. by destruct Ha as [_ ->].
Qed.
Lemma step_sessions past h l h' i : sessions_ok past h -> host_answers h l h' -> sessions_ok (past ++ [(i, l)]) h'.
Proof.
  intros [H1 H2] [(Es & En & Hd)|[(sid & u & -> & ->)|(v & sid & -> & Hn & ->)]]%answers_table.
  - split; [eapply table_sub; [done|by rewrite Es|done]|]. intros sid s. rewrite Es. intros Hs. apply live_mono; [by apply H2|done].
  - split; [eapply table_sub; [done|apply delete_subseteq|done]|]. cbn. intros sid' s [Hne Hs]%lookup_delete_Some.
    apply live_mono; [by apply H2|]. intros u' E. apply (f_equal (fun l => match l with Log (DeleteSession a) _ => a | _ => "" end)) in E.
    by cbn in E.
  - split; [by apply add_table|]. cbn. intros sid' s [[<- <-]|[Hne Hs]]%lookup_insert_Some; [apply live_new|].
    apply live_mono; [|done]. apply H2. eapply lookup_weaken; [exact Hs|apply evict_subseteq].
Qed.
Lemma host_run_sessions past w : host_run past w -> sessions_ok past (w_host w).
Proof.
  induction 1 as [|past h out i l h' _ IH _ Ha|past h out line _ IH _|past h out _ IH|past h out _ IH]; cbn in *.
  - unfold NewStdioHost. split; cbn; [|by intros sid s H%lookup_empty_Some].
    split; cbn; [by intros sid s H%lookup_empty_Some|cbn; lia|by intros sid sid' s s' H%lookup_empty_Some|done].
  - by eapply step_sessions.
  - eapply sessions_same; [exact IH| |]; unfold dispatchLine; by repeat case_match.
  - eapply sessions_same; [exact IH|apply map_empty_subseteq|done].
  - by eapply sessions_same.
Qed.

(** A step of a handler, and the world it met. *)
Lemma host_met past w i (l : ev hostE) : host_run past w -> (i, l) ∈ past ->
  exists before h out h', before ++ [(i, l)] `prefix_of` past /\ host_run before (mkWorld h out) /\ host_answers h l h'.
Proof.
  intros H. induction H as [|past h out j l' h' Hrun IH _ Ha| | |]; try done; [by intros ?%not_elem_of_nil|].
  intros [Hin|E%list_elem_of_singleton]%elem_of_app.
  - destruct (IH Hin) as (b & h1 & o1 & h1' & Hp & ?). exists b, h1, o1, h1'. split; [|done]. by apply prefix_app_r.
  - injection E as -> ->. by exists past, h, out, h'.
Qed.
(** Each step a POST makes has been prepared by its own earlier ones. *)
Lemma host_gated past w i r before (l : ev hostE) after :
  host_run past w -> gs i = HPost r -> own i past = before ++ l :: after -> gated J mime policy r before l.
Proof.
  intros Hrun Hg. revert before l after. induction Hrun as [|past h out j l' h' Hrun IH Hown _| | |]; try done; [by intros []|].
  destruct (decide (j = i)) as [->|Hne]; [|rewrite own_snoc, decide_False, app_nil_r by done; apply IH].
  intros before l after E. unfold host_runs in Hown. rewrite Hg in Hown. destruct Hown as [o Ho].
  by apply (post_gated J mime policy r _ _ Ho before l after).
Qed.
Lemma host_gated_in past w i r (l : ev hostE) :
  host_run past w -> gs i = HPost r -> l ∈ own i past -> exists before, before `prefix_of` own i past /\ gated J mime policy r before l.
Proof.
  intros Hrun Hg (before & after & E)%list_elem_of_split. exists before. split; [rewrite E; by eexists|]. by eapply host_gated.
Qed.
Lemma not_posts past w i (l : ev hostE) : host_run past w -> l ∈ own i past -> (forall r, gs i <> HPost r) ->
  match l with Log e _ => match e with CreateSession _ | Cache _ => False | _ => True end end.
Proof.
  set (P := fun l : ev hostE => match l with Log e _ => match e with CreateSession _ | Cache _ => False | _ => True end end).
  intros Hrun Hin Hg. change (P l). apply (Forall_forall P (own i past)); [|done]. clear Hin l.
  induction Hrun as [|past h out j l' h' Hrun IH Hown _| | |]; try done.
  destruct (decide (j = i)) as [->|Hne]; [|rewrite own_snoc, decide_False, app_nil_r by done; apply IH].
  unfold host_runs in Hown. destruct (gs i) as [r|r|body|method]; [by destruct (Hg r)|..]; destruct Hown as [o Ho]; revert Ho; generalize (own i (past ++ [(i, l')])) as tr; intros tr.
  - revert tr o. change (only P (handleDELETE policy r)). unfold handleDELETE, validateRequestSession. walk_only.
  - revert tr o. change (only P (SendRPC J body)). unfold SendRPC, exchangeWithChild. walk_only.
  - revert tr o. change (only P (SendNotification J method)). unfold SendNotification. walk_only.
Qed.

(** *** The kept initialize response *)
Lemma answers_cache h l h' c : host_answers h l h' -> h_initCached h' = Some c ->
  h_initCached h = Some c \/ (h_initCached h = None /\ exists u, l = Log (Cache c) u).
Proof.
  destruct l as [X e x]; destruct e; cbn; intros Ha.
  - destruct Ha as [_ ->]. auto.
  - destruct Ha as [_ ->]. auto.
  - unfold nextID in Ha. injection Ha as -> ->. auto.
  - unfold registerPending in Ha. case_match; injection Ha as -> ->; auto.
  - subst. auto.
  - subst. destruct x; auto.
  - destruct x; [destruct Ha as [_ ->]|destruct Ha as (_ & _ & ->)|destruct Ha as (_ & _ & ->)|subst|subst]; auto.
  - subst. unfold CacheInitialize. destruct (hj_error J body); [|auto]. destruct (rpc_failed _); [auto|].
    destruct (h_initCached h) eqn:Ei; [intros ?; left; congruence|]. cbn. intros [= <-]. right. split; [done|]. by eexists.
  - destruct Ha as [draws [[-> _]|(sid & _ & _ & ->)]%create_cases]; auto.
  - subst. auto.
  - destruct Ha as [_ ->]. auto.
Qed.
Lemma answers_keep h l h' c : host_answers h l h' -> h_initCached h = Some c -> h_initCached h' = Some c.
Proof.
  destruct l as [X e x]; destruct e; cbn; intros Ha Hc.
  - by destruct Ha as [_ ->].
  - by destruct Ha as [_ ->].
  - unfold nextID in Ha. by injection Ha as -> ->.
  - unfold registerPending in Ha. by case_match; injection Ha as -> ->.
  - by subst.
  - subst. by destruct x.
  - by destruct x; [destruct Ha as [_ ->]|destruct Ha as (_ & _ & ->)|destruct Ha as (_ & _ & ->)|subst|subst].
  - subst. unfold CacheInitialize. destruct (hj_error J body); [|done]. destruct (rpc_failed _); [done|]. destruct (h_initCached h) eqn:Ei; [congruence|done].
  - by destruct Ha as [draws [[-> _]|(sid & _ & _ & ->)]%create_cases].
  - by subst.
  - by destruct Ha as [_ ->].
Qed.
Lemma dispatch_cache h line : h_initCached (dispatchLine J line h) = h_initCached h.
Proof. unfold dispatchLine. by repeat case_match. Qed.
Lemma cached_origin past w c : host_run past w -> h_initCached (w_host w) = Some c ->
  exists i r before, gs i = HPost r /\ before `prefix_of` own i past /\ cacheable J policy r before c.
Proof.
  induction 1 as [|past h out i l h' Hrun IH Hown Ha|past h out line _ IH _|past h out _ IH|past h out _ IH]; cbn in *; [done| |by rewrite dispatch_cache|done|done].
  intros [Hc|[_ [u ->]]]%(answers_cache _ _ _ _ Ha).
  - destruct (IH Hc) as (j & r & b & Hg & Hb & ?). exists j, r, b. split_and!; [done| |done]. by etrans; [|apply own_prefix].
  - assert (Hnew : host_run (past ++ [(i, Log (Cache c) u)]) (mkWorld h' out)) by (by eapply host_step).
    assert (Hin : Log (Cache c) u ∈ own i (past ++ [(i, Log (Cache c) u)])) by (rewrite own_here; apply elem_of_app; right; left).
    destruct (gs i) as [r|r|body|method] eqn:Eg; try (exfalso; by apply (not_posts _ _ _ _ Hnew Hin); rewrite Eg).
    destruct (host_gated_in _ _ _ r _ Hnew Eg Hin) as (b & Hb & Hgate). by exists i, r, b.
Qed.
Lemma cached_seen past w i c : host_run past w -> (i, Log InitCached (Some c)) ∈ past -> h_initCached (w_host w) = Some c.
Proof.
  induction 1 as [|past h out j l h' Hrun IH Hown Ha|past h out line _ IH _|past h out _ IH|past h out _ IH]; cbn in *;
    [by intros ?%not_elem_of_nil| |by rewrite dispatch_cache|done|done].
  intros [Hin|E%list_elem_of_singleton]%elem_of_app; [by eapply answers_keep, IH|]. injection E as -> <-. by destruct Ha as [Hc ->].
Qed.

(** ** What holds of every run *)

(** C13: A client that is answered has its own answer, whatever the order in
    which the handlers run and the child replies: a refusal of its own
    synthetic call; the kept answer to an initialize; or the line the child
    wrote in reply to the very request this handler sent, which is the
    client's message under the host's id, shown under the client's id.  The
    child responds only to what it was sent, and every notification of a
    client's is a single line; but the child may ask requests of its own
    with any id, and one that has the number of the handler's request is
    taken for the reply. *)
Theorem answers_correlated compact replies past w i r body sid :
  json_laws compact -> disciplined replies -> single_lines -> host_run past w -> gs i = HPost r ->
  runs (handlePOST J mime policy r) (own i past) (Some (JsonResponse body sid)) ->
  exists text m origID, rq_body r = Body text /\ hj_object J text = Ok m /\ default ∅ m !! "id" = Some origID /\
    ((exists e, body = tool_error_body J origID e) \/
     (exists c m', method_of J (default ∅ m) = "initialize" /\ h_initCached (w_host w) = Some c /\ hj_object J c = Ok (Some m') /\
        body = hj_marshal J (<["id" := origID]> m')) \/
     (exists id msg' active line, sent_for J (default ∅ m) active msg' /\
        (i, Log (WriteStdin (rewrite_id J id msg')) None) ∈ past /\ (replies (rewrite_id J id msg') line \/ own_request id line) /\
        shown_as J origID active (method_of J (default ∅ m)) line body)).
Proof.
  intros Hlaws Hchild Hlines Hrun Hg Hret. destruct (post_answered J mime policy r _ _ _ Hret) as (text & m & origID & Hb & Ho & Hi & H).
  exists text, m, origID. split_and!; try done. destruct H as [(e & -> & _)|[(c & m' & Hm & Hc & Hoc & -> & _)|(id & msg' & a & line & act & Hx & Hs & Hc & Hr)]].
  - left. by exists e.
  - right; left. exists c, m'. split; [done|]. split; [|done]. by eapply cached_seen, own_in.
  - right; right. assert (E : own_steps i past = exchange_steps J id true msg' None a).
    { unfold own_steps. by rewrite <- steps_muxed, Hx, steps_exchange. }
    destruct (own_reply compact replies Hlaws Hchild Hlines past w i id a line Hrun) as (msg & Hw & Hrep); [|done|].
    { rewrite E. cbn. set_solver. }
    assert (Hw' : SWrite (rewrite_id J id msg') None ∈ own_steps i past) by (rewrite E; cbn; set_solver).
    pose proof (stage_one_write (host_stage _ _ i Hrun) _ _ _ _ Hw Hw') as Eq. rewrite Eq in Hrep.
    exists id, msg', act, line. split; [done|]. split; [|done]. by apply own_in, in_steps_write.
Qed.

Definition host_done (g : goroutine) (tr : list (ev hostE)) : Prop :=
  match g with
  | HPost r => exists x, runs (handlePOST J mime policy r) tr (Some x)
  | HDelete r => exists x, runs (handleDELETE policy r) tr (Some x)
  | HSend body => exists x, runs (SendRPC J body) tr (Some x)
  | HNotify method => exists x, runs (SendNotification J method) tr (Some x)
  end.
Lemma done_completes g tr : host_done g tr -> steps tr = [] \/ (exists body w, steps tr = [SWrite body w]) \/
  exists id b msg w a, steps tr = exchange_steps J id b msg w a.
Proof.
  assert (Hc : (muxed tr = [] \/ (exists body w, muxed tr = [Log (WriteStdin body) w]) \/
    exists id registered msg w a, muxed tr = exchange_trace J id registered msg w a) -> steps tr = [] \/ (exists body w, steps tr = [SWrite body w]) \/
    exists id b msg w a, steps tr = exchange_steps J id b msg w a).
  { rewrite <- steps_muxed. intros [->|[(body & w & ->)|(id & b & msg & w & a & ->)]]; [by left|right; left; by exists body, w|].
    right; right. exists id, b, msg, w, a. apply steps_exchange. }
  destruct g as [r|r|body|method]; intros [x H]; apply Hc.
  - by eapply post_completes.
  - left. apply muxed_aside. by eapply delete_aside.
  - by eapply sendrpc_completes.
  - apply returns_vis in H as ([e|] & tr' & -> & H); cbn; [apply returns_ret in H as [-> _]; by left|].
    apply returns_vis in H as (w & tr'' & -> & H). apply returns_ret in H as [-> _]. right; left. eauto.
Qed.
Lemma exchange_released id b msg w a id' :
  SNext id' ∈ exchange_steps J id b msg w a -> id' = id /\ (SRegister id true ∈ exchange_steps J id b msg w a -> SUnregister id ∈ exchange_steps J id b msg w a).
Proof. destruct b, w; cbn; set_solver. Qed.

(** C18: The slots of the host are those of the requests that have one and
    have not released it, one each, at most 128; a handler that has returned
    on any path holds none. *)
Theorem slots_exact past w : host_run past w ->
  (forall id, is_Some (h_pending (w_host w) !! id) <->
     exists i, Log (Register id) true ∈ own i past /\ Log (Unregister id) tt ∉ own i past) /\
  Z.of_nat (size (h_pending (w_host w))) <= maxPendingRequests /\
  (forall i j id, Log NextID id ∈ own i past -> Log NextID id ∈ own j past -> i = j) /\
  (forall i id, host_done (gs i) (own i past) -> Log NextID id ∈ own i past -> h_pending (w_host w) !! id = None).
Proof.
  intros Hrun. pose proof (host_run_ok _ _ Hrun) as [H1 H2 H3 H4 H5 H6].
  assert (Hn : forall i id, Log NextID id ∈ own i past <-> SNext id ∈ own_steps i past).
  { intros i id. unfold own_steps. rewrite in_steps. split; [intros H; by exists (Log NextID id)|]. intros ([X e x] & Hin & H).
    destruct e; try discriminate H. cbn in H. by injection H as ->. }
  assert (Hs : forall i id, (Log (Register id) true ∈ own i past /\ Log (Unregister id) tt ∉ own i past) <->
    (SRegister id true ∈ own_steps i past /\ SUnregister id ∉ own_steps i past)).
  { intros i id. unfold own_steps. by rewrite in_steps_register, in_steps_unregister. }
  split; [|split; [done|split]].
  - intros id. rewrite H4. by setoid_rewrite Hs.
  - intros i j id. rewrite !Hn. apply H3.
  - intros i id Hd Hi. apply eq_None_not_Some. intros (j & Hr & Hu)%H4. apply Hn in Hi.
    assert (j = i) as ->; [by eapply H3; [eapply (stage_register (host_stage _ _ j Hrun))|]|]. unfold own_steps in *.
    destruct (done_completes _ _ Hd) as [E|[(body & w' & E)|(id' & b & msg & w' & a & E)]]; rewrite E in Hi, Hr, Hu.
    + by apply not_elem_of_nil in Hi.
    + by apply list_elem_of_singleton in Hi.
    + apply exchange_released in Hi as [-> Hi]. by apply Hu, Hi.
Qed.

(** C15: Nothing of a client's reaches the child unless its request is JSON
    and either an initialize without a session, or of a session that, when it
    was looked up, some handler had created with a supported version and
    nobody had deleted since, under the version the request names, if any. *)
Theorem requests_admitted past w i r line x :
  host_run past w -> gs i = HPost r -> Log (WriteStdin line) x ∈ own i past ->
  requireJSONContentType mime (rq_contentType r) = true /\
  (initializes J policy r \/
   exists before v, before `prefix_of` past /\ live before (rq_sid r) v /\ Supports policy v = true /\ rq_sid r <> "" /\
     (rq_proto r = "" \/ rq_proto r = v)).
Proof.
  intros Hrun Hg Hin. destruct (host_gated_in _ _ _ _ _ Hrun Hg Hin) as (b & Hb & Hc & H). split; [done|].
  destruct H as [H|(s & Hl & Hne & Hp)]; [by left|right].
  assert (Hpast : (i, Log (LookupSession (rq_sid r)) (Some s)) ∈ past).
  { apply own_in. destruct Hb as [k ->]. apply elem_of_app. by left. }
  destruct (host_met _ _ _ _ Hrun Hpast) as (before & h & out & h' & Hpre & Hrun' & Ha). cbn in Ha. destruct Ha as [Hs _].
  destruct (host_run_sessions _ _ Hrun') as [_ Hlive]. specialize (Hlive _ _ (eq_sym Hs)).
  exists before, (ss_protocolVersion s). split_and!; [by etrans; [apply prefix_app_r|]|done| |done|naive_solver].
  destruct Hlive as (b1 & j & b2 & E & _).
  assert (Hcr : Log (CreateSession (ss_protocolVersion s)) (Ok (rq_sid r)) ∈ own j before).
  { apply in_own. rewrite E. apply elem_of_app. right. left. }
  destruct (gs j) as [rj|rj|bj|mj] eqn:Eg; try (exfalso; by apply (not_posts _ _ _ _ Hrun' Hcr); rewrite Eg).
  by destruct (host_gated_in _ _ _ _ _ Hrun' Eg Hcr) as (? & _ & ?).
Qed.

(** C19: The host keeps one initialize response: what the child replied to a
    client's initialize, a success with a supported version.  Every client
    that finds one kept finds this one.  As before, the child responds only
    to what it was sent, notifications are single lines, and a request of
    the child's own with the number of the initialize that looks like a
    success is taken for the reply. *)
Theorem initialize_kept compact replies past w c :
  json_laws compact -> disciplined replies -> single_lines -> host_run past w -> h_initCached (w_host w) = Some c ->
  (exists i r id msg requested v, gs i = HPost r /\ initializes J policy r /\
     (i, Log (WriteStdin (rewrite_id J id msg)) None) ∈ past /\ (replies (rewrite_id J id msg) c \/ own_request id c) /\
     initializeResponseProtocolVersion J policy c requested = InitSession v /\ Supports policy v = true) /\
  (forall i c', (i, Log InitCached (Some c')) ∈ past -> c' = c).
Proof.
  intros Hlaws Hchild Hlines Hrun Hc. split.
  - destruct (cached_origin _ _ _ Hrun Hc) as (i & r & b & Hg & Hb & Hi & (id & Hid) & requested & v & Hv).
    assert (Ha : SAwait id (Received c) ∈ own_steps i past).
    { apply in_steps_await. destruct Hb as [k ->]. apply elem_of_app. by left. }
    destruct (own_reply compact replies Hlaws Hchild Hlines past w i id _ c Hrun Ha) as (msg & Hw & Hrep); [by left|].
    exists i, r, id, msg, requested, v. split_and!; try done; [by apply own_in, in_steps_write|by eapply init_session_supported].
  - intros i c' Hs. apply (cached_seen _ _ _ _ Hrun) in Hs. congruence.
Qed.

(** The host has at most 256 sessions, and a new one costs at most one:
    the one that was created first, and only of 256. *)
Theorem oldest_session_evicted past w draws v h' sid :
  host_run past w -> createSession draws v (w_host w) = (h', Ok sid) ->
  h_sessions (w_host w) !! sid = None /\ (exists n, h_sessions h' !! sid = Some (mkSession v n)) /\
  Z.of_nat (size (h_sessions h')) <= maxStdioHTTPSessions /\
  forall sid' s, h_sessions (w_host w) !! sid' = Some s ->
    h_sessions h' !! sid' = Some s \/
    (h_sessions h' !! sid' = None /\ Z.of_nat (size (h_sessions (w_host w))) = maxStdioHTTPSessions /\
     forall other s', h_sessions (w_host w) !! other = Some s' -> other <> sid' -> ss_sequence s < ss_sequence s').
Proof.
  intros Hrun Hcr. destruct (host_run_sessions _ _ Hrun) as [Ht _].
  destruct (create_cases _ _ _ _ _ (eq_sym Hcr)) as [[_ [e [=]]]|(sid0 & [= <-] & Hn & ->)].
  split; [done|]. split; [eexists; apply lookup_insert_eq|]. split; [by apply (to_room _ (add_table sid v _ Ht Hn))|].
  intros sid' s Hs. cbn. rewrite lookup_insert_ne by congruence.
  destruct (evict_cases (h_sessions (w_host w))) as [[_ ->]|(Hfull & old & so & Ho & Hlow & ->)]; [by left|].
  destruct (decide (sid' = old)) as [->|Hne]; [right|left; by rewrite lookup_delete_ne].
  split; [apply lookup_delete_eq|]. split; [pose proof (to_room _ Ht); lia|]. intros other s' Hs' Hno.
  rewrite Ho in Hs. injection Hs as ->. pose proof (Hlow _ _ Hs') as Hle.
  assert (ss_sequence s <> ss_sequence s'); [|lia]. intros E. by apply Hno, (to_distinct _ Ht _ _ _ _ Hs' Ho).
Qed.

Lemma applicable_ends tools : ends (length tools) (applicableTools J tools).
Proof.
  induction tools as [|t tools IH]; [done|]. cbn [applicableTools length]. apply ends_vis. intros c.
  rewrite <- (Nat.add_0_r (length tools)). apply ends_bind; [exact IH|]. intros. apply ends_ret.
Qed.
Lemma write_ends m q b : ends 1 (writeStdioJSONResponse J policy m q b).
Proof. unfold writeStdioJSONResponse. walk_ends. Qed.
Lemma answer_ends m q o a l : ends 4 (answer J policy m q o a l).
Proof.
  unfold answer. apply (ends_bind 3 1).
  - unfold TransformResponse, InjectTools. destruct a; [apply ends_ret|]. destruct (_ =s _); [|apply ends_ret].
    apply (ends_bind 3 0); [apply (applicable_ends (syntheticTools J))|]. intros. walk_ends.
  - intros [b|]; [|apply ends_ret]. unfold restore_id. destruct (hj_object J b) as [[?|]|]; [apply write_ends|apply ends_ret..].
Qed.
Lemma conclude_ends m q o act a : ends 5 (conclude J policy m q o act a).
Proof.
  unfold conclude. destruct a as [l|[l|]|[l|]| |]; try apply ends_ret.
  - apply (ends_bind 1 4); [unfold cacheValidInitializeResponse; walk_ends|]. intros. apply answer_ends.
  - apply (ends_le 4); [lia|apply answer_ends].
  - apply (ends_le 4); [lia|apply answer_ends].
Qed.
Lemma message_ends body msg m : ends 12 (handleMessage J policy body msg m).
Proof.
  assert (Ht : forall msg o q, ends 11 (ITree.bind (TransformRequest J msg) (fun '(msg, action) =>
    match ba_SynthError action with
    | Some e => Ret (JsonResponse (tool_error_body J o (err_text e)) None)
    | None => forwardRequest J policy msg m q o (ba_Active action)
    end))).
  { intros msg' o q. apply (ends_bind 1 10); [unfold TransformRequest; walk_ends|]. intros [msg1 [act [e|]]]; cbn [ba_SynthError ba_Active]; [apply ends_ret|].
    unfold forwardRequest, exchangeWithChild. apply ends_vis. intros id. apply ends_vis. intros b. destruct b; cbn [negb]; [|apply ends_ret].
    apply ends_vis. intros [e|]; [walk_ends|]. apply ends_vis. intros a. apply (ends_bind 5 1); [apply conclude_ends|]. intros. walk_ends. }
  unfold handleMessage. destruct (msg !! "id") as [o|]; cbv zeta; [|walk_ends].
  destruct (m =s "initialize"); [|apply (ends_le 11); [lia|apply Ht]]. apply ends_vis. intros [c|]; [|apply Ht].
  destruct (hj_object J c) as [[?|]|]; [apply (ends_le 1); [lia|apply write_ends]|apply ends_ret..].
Qed.
Lemma http_post_ends r : ends 13 (handlePOST J mime policy r).
Proof.
  unfold handlePOST. destruct (negb _); [apply ends_ret|]. destruct (rq_body r); [|apply ends_ret..].
  destruct (hj_object J _); [|apply ends_ret]. cbv zeta. destruct (_ =s _).
  - destruct (validateRequestProtocolVersion policy r); [apply ends_ret|]. destruct (negb _); [apply ends_ret|].
    apply (ends_le 12); [lia|apply message_ends].
  - apply (ends_bind 1 12); [unfold validateRequestSession; walk_ends|]. intros [?|?]; [apply message_ends|apply ends_ret].
Qed.
(** A POST makes at most 13 steps on the host and then answers, whatever
    the host, the child and the other clients do in between. *)
Theorem post_returns {S} (h : forall X, hostE X -> S -> X * S) s r :
  exists response, (play 14 h s (handlePOST J mime policy r)).2 = Some response.
Proof. apply ends_returns, http_post_ends. Qed.
End Runs.

(** ** Playing runs

    A run by its turns: a step of a handler, a line of the child's, the stop
    of the host and the end of the child.  A wait that finds nothing ends by
    its timer. *)
Inductive host_move := Line (line : string) | StopHost | ExitChild.
(** The session ids that are drawn, by how many there have been. *)
Definition drawn (n : Z) : string := nth (Z.to_nat n) ["s0"; "s1"; "s2"] "s".
Definition serve (J : host_json) (h : host) (X : Type) (e : hostE X) : X * host :=
  match e in hostE Y return Y * host with
  | LookupSession sid => (h_sessions h !! sid, h)
  | InitCached => (h_initCached h, h)
  | NextID => ((nextID h).2, (nextID h).1)
  | Register id => ((registerPending id h).2, (registerPending id h).1)
  | Unregister id => (tt, unregisterPending id h)
  | WriteStdin line => (None, writeStdin line h)
  | Await id =>
      match h_pending h !! id with
      | Some (Some line) => (Received line, h <| h_pending ::= insert id None |>)
      | Some None =>
          if h_stopped h then (Shutdown None, h) else if h_childExited h then (Exited None, h) else (TimedOut, h)
      | None => (TimedOut, h)
      end
  | Cache body => (tt, CacheInitialize J body h)
  | CreateSession v => let r := createSession [Ok (drawn (h_nextSessionSeq h))] v h in (r.2, r.1)
  | DeleteSession sid => (tt, deleteSession sid h)
  | Poll => (if h_stopped h || h_childExited h then Some (errors_New "gone") else None, h)
  end.
Lemma host_serve_answers J h X (e : hostE X) : host_answers J h (Log e (serve J h X e).1) (serve J h X e).2.
Proof.
  destruct e; cbn; try done.
  - by destruct (registerPending id h).
  - by repeat case_match; simplify_eq/=; auto.
  - exists [Ok (drawn (h_nextSessionSeq h))]. by destruct (createSession _ _ _).
  - destruct (h_stopped h), (h_childExited h); cbn; done.
Qed.

Section Player.
Context (J : host_json) (mime : string -> res string) (policy : ProtocolCompatibilityPolicy).
Variables (childb : list string -> list string -> string -> bool) (gs : nat -> goroutine).
Notation child := (fun stdin out line => childb stdin out line = true).
Definition program (g : goroutine) : itree hostE (option http_response) :=
  match g with
  | HPost r => ITree.bind (handlePOST J mime policy r) (fun x => Ret (Some x))
  | HDelete r => ITree.bind (handleDELETE policy r) (fun x => Ret (Some x))
  | HSend body => ITree.bind (SendRPC J body) (fun _ => Ret None)
  | HNotify method => ITree.bind (SendNotification J method) (fun _ => Ret None)
  end.
Lemma mapped {A B} (f : A -> B) (p : itree hostE A) tr o : runs (ITree.bind p (fun x => Ret (f x))) tr o -> exists o', runs p tr o'.
Proof.
  intros [[_ H]|(a & tr1 & tr2 & -> & H1 & [-> _]%runs_ret)]%runs_bind; [by exists None|].
  rewrite app_nil_r. by exists (Some a).
Qed.
Lemma host_program_runs g tr o : runs (program g) tr o -> host_runs J mime policy g tr.
Proof. destruct g; apply mapped. Qed.

Definition host_moved (m : host_move) (w : world) : world :=
  match m with
  | Line line =>
      if childb (h_stdin (w_host w)) (w_output w) line then mkWorld (dispatchLine J line (w_host w)) (w_output w ++ [line]) else w
  | StopHost => mkWorld (stopHost (w_host w)) (w_output w)
  | ExitChild => mkWorld (childExit (w_host w)) (w_output w)
  end.
Definition serve_host (past : log) (w : world) (X : Type) (e : hostE X) (sc : unit) : X * world * unit :=
  let r := serve J (w_host w) X e in (r.1, mkWorld r.2 (w_output w), sc).
Notation host_board := (board (E := hostE) (A := option http_response) (W := world) (S := unit)).
Definition host_play : list (turn (M := host_move)) -> host_board :=
  play_all (fun i => program (gs i)) serve_host host_moved (mkWorld NewStdioHost []) tt.
Notation host_ok := (fun past w => host_run J mime policy child gs past w).
Lemma host_step_ok past w i X (e : hostE X) sc :
  host_ok past w -> let r := serve_host past w X e sc in
  runs (program (gs i)) (own i past ++ [Log e r.1.1]) None -> host_ok (past ++ [(i, Log e r.1.1)]) r.1.2.
Proof.
  destruct w as [h out]. intros Hr r Hi. pose proof (host_serve_answers J h X e) as Ha.
  eapply host_step; [done| |done]. rewrite own_here. by eapply host_program_runs.
Qed.
Lemma host_move_ok past w m : host_ok past w -> host_ok past (host_moved m w).
Proof.
  destruct w as [h out], m as [line| |]; cbn; intros Hr; [|by apply host_stop|by apply host_exit].
  destruct (childb (h_stdin h) out line) eqn:Ec; [by apply host_line|exact Hr].
Qed.
Lemma host_play_run turns : host_run J mime policy child gs (b_log (host_play turns)) (b_world (host_play turns)).
Proof. apply (play_log _ _ _ host_ok host_step_ok host_move_ok). constructor. Qed.
(** What a handler has answered. *)
Definition response_of (b : host_board) (i : nat) : option http_response := default None (returned (fun i => program (gs i)) b i).
Lemma response_runs turns i r x : gs i = HPost r -> response_of (host_play turns) i = Some x ->
  runs (handlePOST J mime policy r) (own i (b_log (host_play turns))) (Some x).
Proof.
  unfold response_of. intros Hg Hx. destruct (returned _ _ i) as [o|] eqn:Eo; [|done]. cbn in Hx. subst o.
  apply (returned_runs _ _ _ host_ok host_step_ok host_move_ok) in Eo; [|constructor]. cbn in Eo. rewrite Hg in Eo.
  apply returns_bind in Eo as (y & tr1 & tr2 & E & H1 & [-> [= <-]]%returns_ret). change (host_play turns) with (play_all (fun i => program (gs i)) serve_host host_moved (mkWorld NewStdioHost []) tt turns).
  by rewrite E, app_nil_r.
Qed.
End Player.

(** *** A library and a child *)
Fixpoint bits (p : positive) : string :=
  match p with xH => "1" | xO p => String "0" (bits p) | xI p => String "1" (bits p) end.
Fixpoint unbits (s : string) : option positive :=
  match s with
  | EmptyString => None
  | String a s' =>
      match unbits s' with
      | None => if (s' =s "") && Ascii.eqb a "1" then Some xH else None
      | Some p => Some (if Ascii.eqb a "1" then xI p else xO p)
      end
  end.
Lemma bits_cons p : exists a s, bits p = String a s.
Proof. destruct p; cbn; eauto. Qed.
Lemma unbits_bits p : unbits (bits p) = Some p.
Proof. induction p as [p IH|p IH|]; cbn; [by rewrite IH..|done]. Qed.
Lemma bits_line p : lacks LF (bits p) = true.
Proof. by induction p. Qed.
Definition bits_of `{Countable A} (a : A) : string := bits (encode a).
Definition of_bits `{Countable A} (s : string) : res A :=
  match p ← unbits s; decode p with Some a => Ok a | None => Err (errors_New "invalid JSON") end.
Lemma of_bits_of `{Countable A} (a : A) : of_bits (bits_of a) = Ok a.
Proof. unfold of_bits, bits_of. rewrite unbits_bits. cbn. by rewrite decode_encode. Qed.
Notation object := (gmap string string).
Definition demo_object (s : string) : res (option object) :=
  if s =s "null" then Ok None else match of_bits s with Ok m => Ok (Some m) | Err e => Err e end.
Definition field (m : option object) (name : string) : string := default "" (default ∅ m !! name).
Definition demo_json : host_json := {|
  hj_object := demo_object;
  hj_marshal := bits_of;
  hj_string := fun s => s;
  hj_quote := fun s => s;
  hj_int64 := of_bits;
  hj_itoa := bits_of;
  hj_peek := fun s => let? m := demo_object s in Ok (field m "id", field m "method");
  hj_protocol := fun s => s;
  hj_init := fun s => let? m := demo_object s in Ok (field m "error", default ∅ m !! "result");
  hj_error := fun s => let? m := demo_object s in Ok (field m "error");
  hj_capabilities := fun s => Ok ∅;
  hj_call := fun s => Err (errors_New "no synthetic tool");
  hj_array := fun s => Ok [];
  hj_marshal_array := fun l => Ok "[]";
  hj_uri := Ok;
  hj_uri_params := Ok;
  hj_prompt := fun s => Ok (s, "");
  hj_prompt_params := fun s _ => Ok s;
  hj_texts := fun s => Ok [s];
  hj_content := fun l => Ok (String.concat "" l);
  hj_field := fun _ s => Ok s;
  hj_tool_error := fun s => s;
  hj_notification := fun s => bits_of ({["method" := s]} : object);
  hj_rpc_error := fun _ => Ok None;
|}.
Lemma demo_object_of m : demo_object (bits_of m) = Ok (Some m).
Proof.
  unfold demo_object. destruct (bits_of m =s "null") eqn:E; [|by rewrite of_bits_of]. breflect. exfalso.
  revert E. unfold bits_of. by destruct (encode m).
Qed.
Lemma demo_laws : json_laws demo_json (fun s => s).
Proof.
  split; cbn; try done.
  - intros m. by rewrite demo_object_of, map_fmap_id.
  - intros n z. rewrite of_bits_of. by intros [= ->].
  - intros n n' E. assert (H : of_bits (A := Z) (bits_of n) = of_bits (bits_of n')) by (by rewrite E).
    rewrite !of_bits_of in H. by injection H.
  - intros m. apply bits_line.
  - intros method. split; [apply bits_line|]. eexists. split; [apply demo_object_of|done].
Qed.
#[local] Opaque bits_of.
(** It replies to an initialize with a version, and to anything else with
    what it was asked. *)
Definition demo_reply (request : string) : string :=
  match demo_object request with
  | Ok (Some m) =>
      match m !! "id" with
      | Some id => bits_of (<["id" := id]> {["result" := if field (Some m) "method" =s "initialize" then "2025-06-18" else field (Some m) "params"]} : object)
      | None => ""
      end
  | _ => ""
  end.
Definition demo_child (stdin out : list string) (line : string) : bool :=
  bool_decide (Exists (fun request => line = demo_reply request) (scan_lines (String.concat "" stdin))).
Definition demo_replies (request line : string) : Prop := line = demo_reply request.
Lemma demo_disciplined : disciplined demo_json (fun stdin out line => demo_child stdin out line = true) demo_replies.
Proof.
  intros stdin out line rid n. unfold demo_child. rewrite bool_decide_eq_true, Exists_exists. cbn.
  intros (request & Hin & ->) Hp Hne Hn. unfold demo_reply in Hp. destruct (demo_object request) as [[m|]|] eqn:Eo; [|done..].
  destruct (m !! "id") as [id|] eqn:Ei; [|done]. rewrite demo_object_of in Hp. cbn in Hp. injection Hp as <-.
  unfold field in Hn. cbn in Hn. rewrite lookup_insert_eq in Hn. cbn in Hn. exists request, m, id. split_and!; try done.
Qed.
Definition demo_request (id method params : string) : string :=
  bits_of (<["id" := id]> (<["method" := method]> {["params" := params]}) : object).
Definition demo_post (sid body : string) : goroutine := HPost (mkHttp "application/json" sid "" (Body body)).
(** Two calls of one session, with the same id of the client's. *)
Definition demo_gs (i : nat) : goroutine :=
  match i with
  | 0%nat => demo_post "" (demo_request "7" "initialize" "2025-06-18")
  | 1%nat => demo_post "s0" (demo_request "7" "tools/call" "first")
  | 2%nat => demo_post "s0" (demo_request "7" "tools/call" "second")
  | 3%nat => demo_post "" (demo_request "8" "initialize" "2025-06-18")
  | _ => HNotify "notifications/initialized"
  end.
Definition demo_policy : ProtocolCompatibilityPolicy := mkPolicy false.
Lemma demo_request_id id method params o : demo_object (demo_request id method params) = Ok o -> default ∅ o !! "id" = Some id.
Proof. unfold demo_request. rewrite demo_object_of. intros [= <-]. apply lookup_insert_eq. Qed.
Lemma demo_post_id sid id method params text r body m :
  text = demo_request id method params -> demo_post sid text = HPost r -> rq_body r = Body body -> demo_object body = Ok m ->
  default ∅ m !! "id" <> None.
Proof. intros Et [= <-]. cbn [rq_body]. intros [= <-] Hm. rewrite Et in Hm. apply demo_request_id in Hm. by rewrite Hm. Qed.
Lemma demo_single_lines : single_lines demo_json demo_gs.
Proof.
  intros i r body m Hg Hb Ho Hi. exfalso. revert Hi.
  destruct i as [|[|[|[|i]]]]; [by eapply demo_post_id; [reflexivity|exact Hg| |]..|discriminate Hg].
Qed.
Notation demo_play turns := (host_play demo_json Ok demo_policy demo_child demo_gs turns).
Definition to_child (id : Z) (method params : string) : string := demo_request (bits_of id) method params.
(** The second call is replied to first. *)
Definition mid_turns : list (turn (M := host_move)) :=
  replicate 4 (Step 0) ++ [Move (Line (demo_reply (to_child 1 "initialize" "2025-06-18")))] ++ replicate 4 (Step 0) ++
  concat (replicate 4 [Step 1; Step 2]).
Definition demo_turns : list (turn (M := host_move)) :=
  mid_turns ++ [Move (Line (demo_reply (to_child 3 "tools/call" "second"))); Move (Line (demo_reply (to_child 2 "tools/call" "first")))] ++
  replicate 2 (Step 1) ++ replicate 2 (Step 3).
Notation mid_board := (demo_play mid_turns).
Notation demo_board := (demo_play demo_turns).
Definition first_answer : string := bits_of (<["id" := "7"]> {["result" := "first"]} : object).
Definition kept_answer : string := demo_reply (to_child 1 "initialize" "2025-06-18").
Notation demo_childP := (fun stdin out line => demo_child stdin out line = true).
Definition demo_http (i : nat) : http_request := match demo_gs i with HPost r => r | _ => mkHttp "" "" "" BodyTooLarge end.

Lemma answers_correlated_witness :
  exists text m origID, rq_body (demo_http 1) = Body text /\ hj_object demo_json text = Ok m /\ default ∅ m !! "id" = Some origID /\
    ((exists e, first_answer = tool_error_body demo_json origID e) \/
     (exists c m', method_of demo_json (default ∅ m) = "initialize" /\ h_initCached (w_host (b_world demo_board)) = Some c /\
        hj_object demo_json c = Ok (Some m') /\ first_answer = hj_marshal demo_json (<["id" := origID]> m')) \/
     (exists id msg' active line, sent_for demo_json (default ∅ m) active msg' /\
        (1%nat, Log (WriteStdin (rewrite_id demo_json id msg')) None) ∈ b_log demo_board /\
        (demo_replies (rewrite_id demo_json id msg') line \/ own_request demo_json id line) /\
        shown_as demo_json origID active (method_of demo_json (default ∅ m)) line first_answer)).
Proof.
  apply (answers_correlated demo_json Ok demo_policy demo_childP demo_gs (fun s => s) demo_replies (b_log demo_board) (b_world demo_board) 1
    (demo_http 1) first_answer None demo_laws demo_disciplined demo_single_lines (host_play_run _ _ _ _ _ _) eq_refl).
  apply response_runs; [reflexivity|]. vm_compute. reflexivity.
Defined.
Lemma slots_exact_witness :
  (exists i, Log (Register 3) true ∈ own i (b_log mid_board) /\ Log (Unregister 3) tt ∉ own i (b_log mid_board)) /\
  Z.of_nat (size (h_pending (w_host (b_world mid_board)))) <= maxPendingRequests.
Proof.
  destruct (slots_exact demo_json Ok demo_policy demo_childP demo_gs (b_log mid_board) (b_world mid_board) (host_play_run _ _ _ _ _ _))
    as (Hs & Hr & _). split; [|exact Hr]. apply Hs. vm_compute. by eexists.
Defined.
Definition first_written : string := to_child 2 "tools/call" "first".
Lemma first_written_in : Log (WriteStdin first_written) None ∈ own 1 (b_log demo_board).
Proof. apply in_steps_write. vm_compute. set_solver. Qed.
Lemma requests_admitted_witness :
  requireJSONContentType Ok "application/json" = true /\
  (initializes demo_json demo_policy (demo_http 1) \/
   exists before v, before `prefix_of` b_log demo_board /\ live before "s0" v /\ Supports demo_policy v = true /\ "s0" <> "" /\
     ("" = "" \/ "" = v)).
Proof.
  exact (requests_admitted demo_json Ok demo_policy demo_childP demo_gs (b_log demo_board) (b_world demo_board) 1 (demo_http 1)
    first_written None (host_play_run _ _ _ _ _ _) eq_refl first_written_in).
Defined.
Lemma initialize_kept_witness :
  (exists i r id msg requested v, demo_gs i = HPost r /\ initializes demo_json demo_policy r /\
     (i, Log (WriteStdin (rewrite_id demo_json id msg)) None) ∈ b_log demo_board /\ (demo_replies (rewrite_id demo_json id msg) kept_answer \/ own_request demo_json id kept_answer) /\
     initializeResponseProtocolVersion demo_json demo_policy kept_answer requested = InitSession v /\ Supports demo_policy v = true) /\
  (forall i c', (i, Log InitCached (Some c')) ∈ b_log demo_board -> c' = kept_answer).
Proof.
  apply (initialize_kept demo_json Ok demo_policy demo_childP demo_gs (fun s => s) demo_replies (b_log demo_board) (b_world demo_board)
    kept_answer demo_laws demo_disciplined demo_single_lines (host_play_run _ _ _ _ _ _)).
  vm_compute. reflexivity.
Defined.
Lemma oldest_session_evicted_witness :
  h_sessions (w_host (b_world demo_board)) !! "s2" = None /\
  Z.of_nat (size (h_sessions (addSession "s2" "2025-06-18" (w_host (b_world demo_board))))) <= maxStdioHTTPSessions.
Proof.
  destruct (oldest_session_evicted demo_json Ok demo_policy demo_childP demo_gs (b_log demo_board) (b_world demo_board) [Ok "s2"] "2025-06-18"
    (addSession "s2" "2025-06-18" (w_host (b_world demo_board))) "s2" (host_play_run _ _ _ _ _ _)) as (Hn & _ & Hr & _).
  - vm_compute. reflexivity.
  - split; [exact Hn|exact Hr].
Defined.

(** The 257th session takes the place of the first. *)
Fixpoint crowd (n : nat) (h : host) : host :=
  match n with O => h | S n => addSession (bits_of (Z.of_nat n)) "2025-06-18" (crowd n h) end.
Example crowd_evicts :
  let h := crowd 256 NewStdioHost in let h' := addSession "new" "2025-06-18" h in
  Z.of_nat (size (h_sessions h)) = 256 /\ Z.of_nat (size (h_sessions h')) = 256 /\
  h_sessions h' !! bits_of 0 = None /\ is_Some (h_sessions h' !! bits_of 1) /\ is_Some (h_sessions h' !! bits_of 255).
Proof. vm_compute. repeat split; by eexists. Qed.

(** *** What the hypotheses keep out

    A request of the child's own, with a number that is in use: it goes to
    the client that waits under it. *)
Definition asked_by_child : string := bits_of (<["id" := bits_of 1]> {["method" := "sampling/createMessage"]} : object).
Example server_request_delivered :
  hj_peek demo_json asked_by_child = Ok (bits_of 1, "sampling/createMessage") /\
  h_pending (dispatchLine demo_json asked_by_child (registerPending 1 NewStdioHost).1) !! 1 = Some (Some asked_by_child).
Proof. vm_compute. done. Qed.
(** A notification is written as it came: of its lines, one is a request under
    an id that the host may give to another client. *)
Definition notification_text : string := quote_marks "{`method`:`notifications/x`,`params`:" +:+ String LF
  (quote_marks "{`jsonrpc`:`2.0`,`id`:2,`method`:`tools/call`,`params`:{`name`:`wipe`}}" +:+ String LF "}").
Example notification_smuggles :
  quote_marks "{`jsonrpc`:`2.0`,`id`:2,`method`:`tools/call`,`params`:{`name`:`wipe`}}" ∈ scan_lines (stdin_line notification_text).
Proof. vm_compute. set_solver. Qed.
(** A result of null in the child's list of tools: there is no map to put the
    tools into. *)
Example null_result_panics :
  inject demo_json [readResourceSyntheticTool demo_json] (bits_of ({["result" := "null"]} : object)) = None.
Proof. vm_compute. done. Qed.
